(* ===== verification/_CoqProject ===== *)
-Q . S2P
Prelude.v
Decimal.v
Assets.v
Price.v
Market.v
States.v
Ledger.v
Postings.v
Projection.v
Orders.v
Risk.v
Store.v
Events.v
Settlement.v
Consumer.v
Delivery.v
Replay.v
Source.v
Worker.v
Books.v
Gateway.v
System.v
Pipeline.v
Coverage.v
Custody.v
Withdrawals.v
Broadcaster.v
WithdrawalWorkers.v
Locks.v
Escrow.v
Payments.v
Requests.v
Nonces.v
Stranded.v
Resends.v
WithdrawalRuns.v
Transfers.v
Deposits.v
Credits.v
Cursors.v
Bursts.v
DepositRuns.v
Reconciliation.v
Reports.v
Alerts.v
ReportRuns.v
Strategy.v
Walk.v
Registry.v
Maker.v
Tape.v
Candles.v
Fanout.v
Fidelity.v
Portfolio.v
Valuation.v
Auth.v
Login.v
Sessions.v
Passkeys.v
Provisioning.v
Hub.v
Screen.v
Sockets.v
Watching.v
Settings.v
Config.v
Startup.v
Tiers.v
Pricer.v
Sweeper.v
Wire.v
EngineClient.v
