(* ===== verification/Prelude.v ===== *)
(** * The wallet and exchange core: verification library

    This library models the money-handling core of the TypeScript program under
    [src/wallet] and proves what makes it correct. The program is a custodial wallet
    with an exchange: users own balances in a double-entry ledger, orders reserve part
    of them, a matching engine (a separate service) trades the orders, and a settlement
    worker turns the engine's events back into ledger postings.

    ** Parts, and where they are

    Leaves, pure and shared by everything (packages/types, packages/ledger/src/amount.ts):
    - [Decimal]: decimal.ts, money.ts, price.ts and amount.ts as far as they read and
      print text: decimal amounts, human prices, base-unit strings;
    - [Assets]: clusters.ts and assets.ts: clusters, qualified asset keys, the configured
      token list, the registry;
    - [Price]: price.ts on integers: 64-bit checks, notional, fees;
    - [Market]: market.ts; [States]: order-states.ts and withdrawal-states.ts.

    Domain packages:
    - [Ledger]: packages/ledger/src/{accounts,entries,transaction-builder}.ts;
    - [Postings]: postings.ts, the only place entries are made, one constructor of
      [Posting] per function;
    - [Projection]: projection.ts, balances from entries and the invariant checks;
    - [Orders]: packages/orders/src and types/src/orders.ts: collar, fees, hold, fill
      amounts, validation;
    - [Risk]: packages/risk/src: withdrawal and order rules and both evaluations.

    The trading system:
    - [Store]: the tables, the constraints of the migrations on them, the repositories of
      packages/db/src/repositories that trading uses, and [withTransaction]. The state
      [Store] is a record of tables; a repository call is a step of the monad [tx];
    - [Events]: apps/api/src/services/settlement/events.ts: the decoding of the
      engine's events and their keys by position;
    - [Settlement]: the rest of apps/api/src/services/settlement: fee tiers, releases and
      the application of each event, [Settlement.apply];
    - [Gateway]: apps/api/src/services/trading/order.service.ts and the resolution of
      workers/pending-engine-sweeper.ts, in the monad [svc] of several transactions with
      calls to the engine between them;
    - [Consumer]: apps/api/src/services/engine-stream/sequenced-consumer.ts, the loop
      that feeds settlement, with its offset, gap recovery and acknowledgements;
    - [Source]: settlement/source.ts, the reading of the stream;
    - [Worker]: settlement/worker.ts, the consumer's instance for settlement.

    Proof files, with no code of their own: [Books] states the invariant [books_ok] that
    ties orders, fills and ledger together and proves it of every operation of
    [Settlement] and [Gateway]; [Coverage] proves that settlement of a legal fill does
    not fail; [System] is the step relation of the whole and its reachable states;
    [Delivery] proves the order and the acknowledgements of the consumer for any handler,
    [Replay] that recovery refines a replay of the journal, and [Pipeline] puts the
    consumer, the worker and the system together.

    Custody:
    - [Custody]: the tables of withdrawals, nonce accounts, signing requests and risk
      decisions beside [Store], their constraints, and their repositories in
      packages/db/src/repositories. The state [Custody] is a record of tables; a
      repository call is a step of the monad [ctx];
    - [Withdrawals]: apps/api/src/services/withdrawal.service.ts, in the monad [job] of
      several commits, after each of which the other actors may change the tables;
    - [Broadcaster]: packages/solana/src: the transactions of withdrawal-tx.ts and
      token.ts as the instructions they hold, the nonce of nonce.ts, the retries of
      rpc.ts, and what the answers of the chain mean;
    - [WithdrawalWorkers]: apps/api/src/workers/withdrawal-workers.ts: signing, broadcast,
      confirmation, settlement and the retry edges;
    - [Transfers]: packages/solana/src: transfers.ts, the parsing of token.ts, and the page
      of transfers of adapter.ts;
    - [Deposits]: apps/api/src/services/deposit.service.ts and workers/indexer.ts, with
      their repositories;
    - [Reconciliation]: reconciliation.service.ts and clearing-reconciliation.service.ts of
      apps/api/src/services, over the totals of ledger.repository.ts and the balances of
      adapter.ts, with the combination of the clusters' reports in server.ts;
    - [Alerts]: apps/api/src/workers/reconciliation-worker.ts, its streaks and alerts.

    Around the exchange:
    - [Registry]: apps/api/src/services/trading/markets.ts: the configured markets and what
      their engines say of themselves;
    - [Tape]: packages/db/src/repositories/market-data.repository.ts and
      apps/api/src/services/market-data/tape-consumer.ts, a second instance of [Consumer];
      [Candles] proves its tables right;
    - [Fanout]: services/market-data/book-mirror.ts and fanout.ts, the live book, over the
      class [Fanout.Feed]; [Fidelity] proves what subscribers are told;
    - [Hub]: apps/api/src/ws/hub.ts, the sockets; [Screen]: features/trading/book-state.ts of
      apps/web, the book a browser draws; [Sockets] proves what a socket is sent and
      [Watching] puts fan-out, hub and screen together;
    - [Portfolio]: packages/portfolio/src with services/portfolio.service.ts and its queries;
      [Valuation] proves the one-pass series equal to its pointwise definition;
    - [Auth] and [Login]: packages/auth/src with the repositories, services, guards and routes
      of accounts; [Sessions] and [Passkeys] prove what a session is worth;
    - [Provisioning]: apps/api/src/services/custody.service.ts: which user an address is
      given to, while requests interleave;
    - [Strategy], [Walk] and [Maker]: apps/api/src/services/market-maker: strategy.ts,
      reference-price.ts and market-maker.ts. The maker sees the order service as the class
      [Maker.Desk], which [Maker.gateway_desk] implements with [Gateway].

    - [Sweeper]: workers/pending-engine-sweeper.ts around [Gateway.sweep]: the claim, the
      budget and the dead letters;
    - [Pricer]: workers/pricer.ts and services/prices: which price an asset is given;
    - [Tiers]: packages/blockchain/src/custody.ts: what a tier asks for before money leaves it;
    - [Wire], [EngineClient]: services/trading/engine-client.ts: the texts the gateway and the
      engine exchange, and the client that [Gateway]'s engine is;
    - [Settings]: packages/config/src: schema.ts, secrets.ts and [parseEnv], the environment a
      process is configured from; [Config]: the rest of index.ts, and the policies the API
      makes of a configuration (cluster/runtime.ts, server.ts); [Startup] proves what an
      accepted environment guarantees.

    Proof files of custody: [Locks] states [holds], that each tier has locked what the
    withdrawals holding a lock add up to, and [minds], what an actor may do without
    disturbing another's withdrawals; [Escrow] is a program logic of jobs and proves both
    of every service call and worker cycle; [Payments] proves what is signed, [Requests]
    what one request does, [Nonces] that a nonce account serves one withdrawal,
    [Stranded] which rows no cycle touches, [Resends] what a lost answer of the chain costs;
    [WithdrawalRuns] runs all of it on a toy chain.
    [Credits] proves that the deposits table accounts for the ledger's deposit postings,
    beside any actor that does no worse ([beside]), and what becomes of one transfer;
    [Cursors] what a cursor passes, and [Bursts] what it leaves behind;
    [DepositRuns] runs the indexer on a small chain. [Reports] proves what a report says and
    what a healthy one guarantees; [ReportRuns] applies it to a small chain.

    ** How the parts interact

    A call of the gateway validates a request ([Orders.validateOrder]), judges it
    ([Risk.evaluateOrder]), computes the hold ([Orders.computeHold]), inserts the order
    and posts the hold in one transaction ([Gateway.hold_tx]), asks the engine, and acts
    on the answer. The worker applies each event of the engine in one transaction with
    the advance of its offset. Both go through [Store], so [System.step] interleaves
    their transactions freely, with every other posting of the ledger.

    Exceptions are values of [error] in [result]; a transaction that throws leaves the
    tables as they were, a service call that throws keeps what it committed. The custody
    tier shares the ledger with trading: [Escrow.trading_minds] shows that no step of
    trading disturbs a withdrawal, which is what the theorems on withdrawals ask of the
    other actors. Integers
    are [Z] with the width checks of the code written out; strings are [string], read
    character by character where the code matches regular expressions. The code's
    parameters it cannot see (the engine, the stream, what other actors do between
    two transactions) are section variables.

    ** What the theorems show

    - Exactness of the leaves: parsing refuses rather than rounds, printing and keys
      round-trip, notionals round once and fit their width, constructed markets and
      registries are coherent.
    - The state machines: terminal and holding statuses partition the orders, no
      withdrawal is signed without a lock.
    - Withdrawals: the locks agree with the withdrawals through every request and every
      pass of the workers, whatever the chain answers and however others interleave; a
      request is decided once; what is signed pays what was asked for; a nonce account
      serves one withdrawal.
    - Deposits: parsing reports exactly what a transaction added to a watched account; a
      transfer is credited once, to the user whose address received it, whoever else credits
      it; the rows and the ledger agree whoever else is at work; a cursor passes only transfers
      of the page it was given that were settled by the end of the poll.
    - Reconciliation: a run computes the report of a definition without loops, caches or
      maps; a healthy report means the platform's addresses hold what the vault owes, when
      nothing moves during the run; the internal checks of the clearing tier are clean on every reachable ledger; the worker
      alerts exactly when drift reaches the threshold.
    - The ledger: the builder accepts exactly the balanced single-cluster transactions,
      each posting is accepted exactly under its guards, the accounting equations of both
      tiers hold after any history of postings, projections are exact.
    - Around the exchange: markets are coherent and handed out only on their engine's word;
      a ladder never crosses itself and the gateway takes its quotes; the maker keeps the
      books like any user and places nothing where it cannot see. Candles are the aggregates
      of their trades at every interval; the live book that is handed out is the engine's, and
      so is what a screen shows as live, as far as it was sent; what is private is sent to its
      user while the session lives; a chart of a portfolio is, point by point, the entries so far at the newest known prices. A session that is accepted was earned by an
      assertion of its user, and a ceremony answers once. An
      address belongs to one user. An accepted environment starts a process whose every
      cluster is whole, and no cluster's configuration depends on another's variables. The
      sweeper's last attempt at an order is conclusive; the check of a custody tier accepts
      exactly the proofs whose approvals can be assigned to its requirements; a feed's price
      is read without rounding, and recorded for the assets of its symbol.
    - Orders and risk: validation lists exactly the rules broken, a hold covers every
      sequence of fills the engine may make, approvals mean the limits hold.
    - Trading: [books_ok] is preserved by every event, every gateway call whatever the
      engine answers, and every interleaving from empty tables; a fill settles exactly
      once and a legal one does settle; a hold is taken once, returned once, and returned
      unfilled only on proof, which over HTTP is an explicit answer of the engine.
    - Delivery: integers cross the wire exactly, what is signed is the whole request, and an
      event decodes exactly from the engine's shape; events are committed
      in order and without gaps, only what is committed is acknowledged, a halt stops
      at its key, recovery from the journal catches up; a pass of the settlement worker is a
      run of an abstract one ([Pipeline.delivery]), whose every commit is the next event.
    - Flaws found are theorems too: [System.dust_fill_halts_settlement],
      [Pipeline.unsettleable_events_never_halt],
      [Pipeline.unreadable_event_halts_at_applied_key],
      [Projection.coverage_can_fire_on_balanced_books],
      [Broadcaster.broadcast_classifies_nothing],
      [Stranded.stopped_withdrawal_is_stranded],
      [Resends.lost_answer_pays_twice],
      [WithdrawalRuns.giving_up_again_releases_twice],
      [WithdrawalRuns.first_request_denied_by_itself],
      [Bursts.burst_loses_oldest_deposit],
      [DepositRuns.strange_token_blocks_address],
      [Reports.unread_address_alarms],
      [Maker.pulled_ladder_stays_down],
      [Candles.unrecordable_fill_does_not_halt],
      [Watching.truncated_book_misleads],
      [Watching.unsubscribed_is_still_told],
      [Watching.burst_loses_newest],
      [Watching.lost_socket_stays_in_audience],
      [Watching.leaving_overtakes_joining],
      [Passkeys.stepup_without_verification],
      [Passkeys.passkeys_are_for_ever],
      [Passkeys.second_totp_survives_disable],
      [Startup.impostor_token_is_sol],
      [Startup.accepted_serves_or_crashes],
      [Startup.unknown_scheme_is_the_secret],
      [Startup.native_limits_replaced],
      [Sweeper.dead_letter_comes_early],
      [Pricer.impostor_priced_as_sol],
      [Tiers.same_operator_twice],
      [Wire.negative_stays_a_marker], [Wire.pattern_inside_a_string].

    ** Bounds and fuel

    The guarded transitions' retries have the code's own bounds ([CONTENTION_RETRIES],
    three attempts for a cancel, [transientRetries]). [Consumer.recover_loop], a loop
    without a bound in the code, takes the number of pages as fuel; the catch-up theorem
    shows that one more page than the journal has sequences is enough. [Source.read_loop]
    likewise takes fuel, and [Source.read_terminates] shows that two rounds are enough.
    The cycles of the withdrawal workers are bounded by the code's own batch size, the
    RPC's retries by its maximum. Everything else recurses on its data.

    ** Not modelled

    The retries of [withTransaction] on serialization conflicts (a transaction is one
    step), commit hooks, logging and metrics, the transition logs, surrogate ids,
    listings for the API, an engine's health as its client reads it, the handling of the
    client's key, and creation of empty ledger accounts. A repository call made outside a transaction is one step too, though it may
    be an update, the insertion of its log row and the reading of the row it returns. Of
    the signing of withdrawals, the authorization proofs and the bytes: a transaction is
    its instructions, which the chain's library serializes. Of the indexer, its timer and
    counts. Of authentication, the WebAuthn and TOTP
    libraries, the hash and the cipher, which are parameters. Of the socket, the upgrade of
    a request and the texts of messages. Of the configuration, the fields that are only
    copied and the issues of a field's own schema, which are the validation library's. Of
    prices, the requests over HTTP and the source whose prices are floating point.

    Outside this library: the routes, controllers and the server's wiring, which pass
    requests on; the user interface apart from the order book; signers and key derivation,
    which are cryptographic libraries behind an interface; sweep.service.ts, which refuses
    by construction; metrics, scripts and logs; and the services in Rust, the matching
    engine and the multi-party signer, which are the parameters of [Gateway] and
    [WithdrawalWorkers]. *)

From Stdlib Require Import ZArith Lia Ascii.
From stdpp Require Import base list gmap strings.

#[global] Set Warnings "-notation-overridden".

(* ------------------------------------------------------------------ *)
(** ** Exceptions as values *)

(** The exception classes the modelled code throws. A constructor carries the
    part of the exception that code elsewhere can observe: the reason code or
    the operands of the message. *)
Inductive error :=
| TypeError
| RangeError
| GenericError (message : string)
| InvalidEntryError (reason : string)
| UnbalancedTransactionError (asset : string) (residual : Z)
| CrossClusterTransactionError (expected found : string)
| HoldInvariantError (reason : string)
| SettlementHaltError (reason : string)
| TapeHaltError (reason : string)
| UndecodableEventError (reason : string)
| MalformedStreamEntryError (entryId : string)
| ChainError (message : string)
| TransactionExpiredNonceInvalidError
| InsufficientFundsError
| PolicyDeniedError (message : string)
| NotFoundError (message : string)
| ConflictError (message : string)
| ValidationError (messages : list string)
| DependencyUnavailableError (dependency : string)
| AuthorizationDeniedError
| AuthenticationFailedError
| AuthenticationRequiredError
| ChallengeInvalidError
| CredentialCloneSuspectedError
| SessionExpiredError
| StepUpRequiredError (stepUpMaxAgeSeconds : Z)
| LastFactorProtectedError
| ConstraintViolation (code : string)
| SecretResolutionError (variable : string)
| ConfigValidationError (variables : option (list string)).

(** The text of an error, as far as it is not fixed by its class. *)
Definition error_message (e : error) : string :=
  match e with
  | GenericError m | ChainError m | PolicyDeniedError m | NotFoundError m | ConflictError m => m
  | _ => ""
  end.

(** A computation that returns a value or throws. *)
Inductive result (A : Type) :=
| Ok (a : A)
| Throw (e : error).

Arguments Ok {A} a.
Arguments Throw {A} e.

#[export] Instance result_ret : MRet result := fun A a => Ok a.
#[export] Instance result_bind : MBind result := fun A B k m =>
  match m with Ok a => k a | Throw e => Throw e end.
#[export] Instance result_map : FMap result := fun A B f m =>
  match m with Ok a => Ok (f a) | Throw e => Throw e end.

#[export] Instance error_eq_dec : EqDecision error.
Proof. solve_decision. Defined.

#[export] Instance result_eq_dec {A} `{EqDecision A} : EqDecision (result A).
Proof. solve_decision. Defined.

(** [if (b) throw e;] *)
Definition throw_if (b : bool) (e : error) : result unit :=
  if b then Throw e else Ok tt.

(** [for (const x of xs) check(x);] where [check] may throw. *)
Fixpoint for_each {A} (check : A -> result unit) (xs : list A) : result unit :=
  match xs with
  | [] => Ok tt
  | x :: xs => check x ≫= fun _ => for_each check xs
  end.

(** [xs.map(f)] where [f] may throw. *)
Fixpoint map_result {A B} (f : A -> result B) (xs : list A) : result (list B) :=
  match xs with
  | [] => Ok []
  | x :: xs => y ← f x; ys ← map_result f xs; Ok (y :: ys)
  end.

Definition is_ok {A} (m : result A) : bool :=
  match m with Ok _ => true | Throw _ => false end.

(* ------------------------------------------------------------------ *)
(** ** A JavaScript [Map]: entries in insertion order, a later [set] of a
    present key updates it in place *)

Section JsMap.
Context {K V : Type} `{EqDecision K}.

Fixpoint jget (k : K) (m : list (K * V)) : option V :=
  match m with
  | [] => None
  | (k', v) :: m => if decide (k = k') then Some v else jget k m
  end.

Fixpoint jset (k : K) (v : V) (m : list (K * V)) : list (K * V) :=
  match m with
  | [] => [(k, v)]
  | (k', v') :: m => if decide (k = k') then (k', v) :: m else (k', v') :: jset k v m
  end.
End JsMap.

(** [bucket.set(k, (bucket.get(k) ?? 0n) + v)] *)
Definition jadd {K} `{EqDecision K} (k : K) (v : Z) (m : list (K * Z)) : list (K * Z) :=
  jset k (default 0%Z (jget k m) + v)%Z m.

(** The accumulating loop [for (const x of xs) jadd(key(x), val(x))]. *)
Definition group_sum {A K} `{EqDecision K} (key : A -> K) (val : A -> Z) (xs : list A)
  : list (K * Z) :=
  fold_left (fun m x => jadd (key x) (val x) m) xs [].

(** [amounts.reduce((total, value) => total + value, 0n)] *)
Definition zsum (xs : list Z) : Z := fold_left Z.add xs 0%Z.

(** Sum of [val] over the elements of [xs] that satisfy [p]. *)
Definition sum_if {A} (p : A -> bool) (val : A -> Z) (xs : list A) : Z :=
  foldr (fun x acc => (if p x then val x else 0) + acc)%Z 0%Z xs.

(* ------------------------------------------------------------------ *)
(** ** Strings *)

(** [s.slice(0, i)] and [s.slice(i + 1)] for [i = s.indexOf(c)], or nothing
    when [c] does not occur. *)
Fixpoint split_first (c : ascii) (s : string) : option (string * string) :=
  match s with
  | EmptyString => None
  | String a s =>
      if decide (a = c) then Some (EmptyString, s)
      else match split_first c s with
           | None => None
           | Some (l, r) => Some (String a l, r)
           end
  end.

(** [s.includes(c)] for a one-character [c]. *)
Fixpoint str_includes (c : ascii) (s : string) : bool :=
  match s with
  | EmptyString => false
  | String a s => bool_decide (a = c) || str_includes c s
  end.

Open Scope Z_scope.

(* ------------------------------------------------------------------ *)
(** ** Lemmas: results *)

Lemma bind_Ok {A B} (m : result A) (k : A -> result B) b :
  (m ≫= k) = Ok b <-> exists a, m = Ok a /\ k a = Ok b.
Proof. destruct m; simpl; naive_solver. Qed.

Lemma throw_if_Ok b e u : throw_if b e = Ok u <-> b = false.
Proof. destruct b, u; simpl; naive_solver. Qed.

Lemma for_each_Ok {A} (check : A -> result unit) xs u :
  for_each check xs = Ok u <-> Forall (fun x => check x = Ok tt) xs.
Proof.
  destruct u. induction xs as [|x xs IH]; simpl; [naive_solver|].
  rewrite bind_Ok, Forall_cons. split.
  - intros ([] & ? & ?). naive_solver.
  - intros [? ?]. exists tt. naive_solver.
Qed.

(** Invert a chain of binds and guards that is known to return. *)
Ltac inv_ok :=
  repeat match goal with
  | H : (_ ≫= _) = Ok _ |- _ => apply bind_Ok in H as (? & ? & ?)
  | H : throw_if _ _ = Ok _ |- _ => apply throw_if_Ok in H
  | H : Ok _ = Ok _ |- _ => injection H as H; subst
  | H : Throw _ = Ok _ |- _ => discriminate H
  | H : mret _ = Ok _ |- _ => injection H as H; subst
  | x : unit |- _ => destruct x
  end.

Lemma map_result_elem {A B} (f : A -> result B) xs ys y :
  map_result f xs = Ok ys -> y ∈ ys <-> exists x, x ∈ xs /\ f x = Ok y.
Proof.
  revert ys. induction xs as [|x xs IH]; simpl; intros ys Hm; inv_ok; [set_solver|].
  rewrite elem_of_cons, IH by done. split.
  - intros [->|(x' & ? & ?)]; eexists; (split; [|done]); set_solver.
  - intros (x' & Hin & Hf). apply elem_of_cons in Hin as [->|Hin]; [left; congruence|eauto].
Qed.

Lemma map_result_length {A B} (f : A -> result B) xs ys :
  map_result f xs = Ok ys -> length ys = length xs.
Proof. revert ys. induction xs; simpl; intros ys Hm; inv_ok; [done|]. simpl. f_equal. auto. Qed.

Lemma map_result_total {A B} (f : A -> result B) xs :
  (forall x, x ∈ xs -> exists y, f x = Ok y) -> exists ys, map_result f xs = Ok ys.
Proof.
  induction xs as [|x xs IH]; intros H; simpl; [by eexists|].
  destruct (H x ltac:(set_solver)) as [y ->]. destruct IH as [ys ->]; [set_solver|]. by eexists.
Qed.

Lemma existsb_some {A} (f : A -> bool) xs x : x ∈ xs -> f x = true -> existsb f xs = true.
Proof. intros Hx Hf. apply existsb_exists. exists x. by rewrite <- list_elem_of_In. Qed.

Lemma existsb_none {A} (f : A -> bool) xs : existsb f xs = false <-> forall x, x ∈ xs -> f x = false.
Proof.
  split.
  - intros H x Hx. destruct (f x) eqn:E; [|done]. by rewrite (existsb_some f xs x) in H.
  - intros H. apply not_true_iff_false. intros (x & Hx & Hf)%existsb_exists. rewrite H in Hf; [done|].
    by apply list_elem_of_In.
Qed.

(** Case analysis on a conditional or a match in the goal or a hypothesis. *)
Ltac case_match_all :=
  repeat (case_match; simplify_eq/=; try done).

(** Reflect boolean tests on integers into propositions. *)
Ltac zbool :=
  repeat match goal with
  | H : (_ && _) = true |- _ => apply andb_true_iff in H as [? ?]
  | H : (_ || _) = false |- _ => apply orb_false_iff in H as [? ?]
  | H : negb _ = true |- _ => apply negb_true_iff in H
  | H : negb _ = false |- _ => apply negb_false_iff in H
  | H : (_ =? _) = true |- _ => apply Z.eqb_eq in H
  | H : (_ =? _) = false |- _ => apply Z.eqb_neq in H
  | H : (_ <=? _) = true |- _ => apply Z.leb_le in H
  | H : (_ <=? _) = false |- _ => apply Z.leb_gt in H
  | H : (_ <? _) = true |- _ => apply Z.ltb_lt in H
  | H : (_ <? _) = false |- _ => apply Z.ltb_ge in H
  | H : bool_decide _ = true |- _ => apply bool_decide_eq_true in H
  | H : bool_decide _ = false |- _ => apply bool_decide_eq_false in H
  end.

(* ------------------------------------------------------------------ *)
(** ** Lemmas: filters *)

Lemma filter_none {A} (P : A -> Prop) `{forall x, Decision (P x)} (l : list A) :
  (forall x, x ∈ l -> ~ P x) -> filter P l = [].
Proof.
  induction l as [|x l IH]; intros Hn; [done|]. rewrite filter_cons, decide_False by (apply Hn; set_solver).
  apply IH. intros; apply Hn; set_solver.
Qed.

Lemma filter_all {A} (P : A -> Prop) `{forall x, Decision (P x)} (l : list A) :
  (forall x, x ∈ l -> P x) -> filter P l = l.
Proof.
  induction l as [|x l IH]; intros Hn; [done|]. rewrite filter_cons, decide_True by (apply Hn; set_solver).
  by rewrite IH by (intros; apply Hn; set_solver).
Qed.

(** An element of a list is fixed by a key that no two of them share. *)
Lemma unique_by {A B} (f : A -> B) xs x y : NoDup (map f xs) -> x ∈ xs -> y ∈ xs -> f x = f y -> x = y.
Proof.
  induction xs as [|z xs IH]; simpl; [set_solver|]. intros [Hz Hn]%NoDup_cons Hx Hy E.
  apply elem_of_cons in Hx as [->|Hx], Hy as [->|Hy]; [done|..|by apply IH].
  - destruct Hz. rewrite E. by apply list_elem_of_fmap_2.
  - destruct Hz. rewrite <- E. by apply list_elem_of_fmap_2.
Qed.

(* ------------------------------------------------------------------ *)
(** ** Lemmas: sums *)

Lemma fold_left_add xs a : fold_left Z.add xs a = a + zsum xs.
Proof.
  unfold zsum. revert a. induction xs as [|x xs IH]; intros a; simpl; [lia|].
  rewrite (IH (a + x)), (IH (0 + x)) by lia. lia.
Qed.

Lemma zsum_nil : zsum [] = 0.
Proof. reflexivity. Qed.

Lemma zsum_cons x xs : zsum (x :: xs) = x + zsum xs.
Proof. unfold zsum at 1. simpl. rewrite fold_left_add. lia. Qed.

Lemma zsum_app xs ys : zsum (xs ++ ys) = zsum xs + zsum ys.
Proof. induction xs as [|x xs IH]; simpl; rewrite ?zsum_cons, ?zsum_nil; lia. Qed.

Lemma zsum_nonneg xs : Forall (fun x => 0 <= x) xs -> 0 <= zsum xs.
Proof. induction 1; rewrite ?zsum_nil, ?zsum_cons; lia. Qed.

Lemma sum_if_app {A} p (val : A -> Z) xs ys :
  sum_if p val (xs ++ ys) = sum_if p val xs + sum_if p val ys.
Proof. induction xs; simpl; lia. Qed.

Lemma sum_if_ext {A} p q (val val' : A -> Z) xs :
  (forall x, x ∈ xs -> p x = q x /\ (q x = true -> val x = val' x)) ->
  sum_if p val xs = sum_if q val' xs.
Proof.
  induction xs as [|x xs IH]; intros H; simpl; [done|].
  rewrite IH by (intros; apply H; set_solver).
  destruct (H x ltac:(set_solver)) as [-> Hv]. destruct (q x); [rewrite Hv by done|]; lia.
Qed.

Lemma sum_if_none {A} p (val : A -> Z) xs :
  (forall x, x ∈ xs -> p x = false) -> sum_if p val xs = 0.
Proof.
  induction xs as [|x xs IH]; intros H; simpl; [done|].
  rewrite (H x) by set_solver. rewrite IH by (intros; apply H; set_solver). lia.
Qed.

Lemma sum_if_nonneg {A} p (val : A -> Z) xs :
  (forall x, x ∈ xs -> p x = true -> 0 <= val x) -> 0 <= sum_if p val xs.
Proof.
  induction xs as [|x xs IH]; intros H; simpl; [lia|].
  pose proof (H x ltac:(set_solver)). specialize (IH ltac:(intros; apply H; set_solver)).
  destruct (p x); [specialize (H0 eq_refl)|]; lia.
Qed.

Lemma sum_if_opp {A} p (val : A -> Z) xs : sum_if p (fun x => - val x) xs = - sum_if p val xs.
Proof. induction xs as [|x xs IH]; simpl; [done|]. rewrite IH. destruct (p x); lia. Qed.

Lemma zsum_map_sum_if {A} (val : A -> Z) xs : zsum (map val xs) = sum_if (fun _ => true) val xs.
Proof. induction xs; simpl; rewrite ?zsum_cons, ?zsum_nil; lia. Qed.

(* ------------------------------------------------------------------ *)
(** ** Lemmas: maps *)

Section JsMapLemmas.
Context {K : Type} `{EqK : EqDecision K}.

Lemma jget_jset_eq {V} (k : K) (v : V) m : jget k (jset k v m) = Some v.
Proof. induction m as [|[k' v'] m IH]; simpl; repeat (case_decide; simpl); congruence. Qed.

Lemma jget_jset_ne {V} (k k' : K) (v : V) m : k <> k' -> jget k' (jset k v m) = jget k' m.
Proof.
  intros Hne. induction m as [|[k0 v0] m IH]; simpl; repeat (case_decide; simpl); congruence.
Qed.

Lemma jset_keys {V} (k : K) (v : V) m (k' : K) :
  k' ∈ (jset k v m).*1 <-> k' = k \/ k' ∈ m.*1.
Proof.
  induction m as [|[k0 v0] m IH]; simpl; [set_solver|].
  case_decide; subst; simpl; set_solver.
Qed.

Lemma jset_NoDup {V} (k : K) (v : V) m : NoDup m.*1 -> NoDup (jset k v m).*1.
Proof.
  induction m as [|[k0 v0] m IH]; simpl; intros Hnd.
  - apply NoDup_singleton.
  - apply NoDup_cons in Hnd as [Hni Hnd]. case_decide; subst; simpl.
    + apply NoDup_cons; done.
    + apply NoDup_cons; split; [|auto].
      intros [Heq|Hin]%jset_keys; [congruence|done].
Qed.

Lemma jget_elem {V} (k : K) (v : V) m : NoDup m.*1 -> (k, v) ∈ m <-> jget k m = Some v.
Proof.
  induction m as [|[k0 v0] m IH]; simpl; intros Hnd; [set_solver|].
  apply NoDup_cons in Hnd as [Hni Hnd]. rewrite elem_of_cons, IH by done.
  case_decide; subst.
  - split; [intros [[= ->]|Hg]; [done|]|intros [= ->]; auto].
    exfalso. apply Hni. apply IH in Hg; [|done].
    apply list_elem_of_fmap. by exists (k0, v).
  - naive_solver.
Qed.

Lemma jget_None {V} (k : K) (m : list (K * V)) : jget k m = None <-> k ∉ m.*1.
Proof.
  induction m as [|[k0 v0] m IH]; simpl; [set_solver|].
  case_decide; subst; [set_solver|]. rewrite IH. set_solver.
Qed.

Lemma jget_jadd (k k' : K) v (m : list (K * Z)) :
  default 0 (jget k' (jadd k v m)) =
  default 0 (jget k' m) + (if decide (k' = k) then v else 0).
Proof.
  unfold jadd. case_decide; subst.
  - rewrite jget_jset_eq. done.
  - rewrite jget_jset_ne by done. lia.
Qed.

Context {A : Type} (key : A -> K) (val : A -> Z).

Lemma group_sum_fold xs m k :
  default 0 (jget k (fold_left (fun m x => jadd (key x) (val x) m) xs m)) =
  default 0 (jget k m) + sum_if (fun x => bool_decide (key x = k)) val xs.
Proof.
  revert m. induction xs as [|x xs IH]; intros m; simpl; [lia|].
  rewrite IH, jget_jadd. repeat case_decide; repeat case_bool_decide; subst; simplify_eq; lia.
Qed.

(** The bucket of [k] holds the sum over the elements keyed [k]. *)
Lemma group_sum_get xs k :
  default 0 (jget k (group_sum key val xs)) = sum_if (fun x => bool_decide (key x = k)) val xs.
Proof. unfold group_sum. by rewrite group_sum_fold. Qed.

Lemma group_sum_fold_keys xs m k :
  k ∈ (fold_left (fun m x => jadd (key x) (val x) m) xs m).*1 <-> k ∈ m.*1 \/ k ∈ map key xs.
Proof.
  revert m. induction xs as [|x xs IH]; intros m; simpl; [set_solver|].
  rewrite IH. unfold jadd. rewrite jset_keys. set_solver.
Qed.

Lemma group_sum_keys xs k : k ∈ (group_sum key val xs).*1 <-> k ∈ map key xs.
Proof. unfold group_sum. rewrite group_sum_fold_keys. set_solver. Qed.

Lemma group_sum_NoDup xs : NoDup (group_sum key val xs).*1.
Proof.
  unfold group_sum. assert (Hnd : NoDup (([] : list (K * Z)).*1)) by constructor.
  revert Hnd. generalize ([] : list (K * Z)).
  induction xs as [|x xs IH]; intros m Hnd; simpl; [done|].
  apply IH. by apply jset_NoDup.
Qed.

Lemma group_sum_elem xs k v :
  (k, v) ∈ group_sum key val xs <->
  k ∈ map key xs /\ v = sum_if (fun x => bool_decide (key x = k)) val xs.
Proof.
  rewrite jget_elem by apply group_sum_NoDup. rewrite <- group_sum_get, <- group_sum_keys.
  split.
  - intros Hg. rewrite Hg. split; [|done].
    destruct (decide (k ∈ (group_sum key val xs).*1)) as [|Hni]; [done|].
    apply jget_None in Hni. congruence.
  - intros [Hin ->]. destruct (jget k (group_sum key val xs)) eqn:E; [done|].
    by apply jget_None in E.
Qed.
End JsMapLemmas.

(* ------------------------------------------------------------------ *)
(** ** Lemmas: integer division *)

(** BigInt division truncates; on the non-negative operands the code divides
    it is the floor. *)
Lemma quot_nonneg a b : 0 <= a -> 0 < b -> Z.quot a b = a / b.
Proof. intros. apply Z.quot_div_nonneg; lia. Qed.

Lemma div_superadditive a b c : 0 < c -> a / c + b / c <= (a + b) / c.
Proof.
  intros Hc. apply Z.div_le_lower_bound; [done|].
  pose proof (Z.mul_div_le a c Hc). pose proof (Z.mul_div_le b c Hc). lia.
Qed.

Lemma div_mono a b c : 0 < c -> a <= b -> a / c <= b / c.
Proof. intros. by apply Z.div_le_mono. Qed.

(* ------------------------------------------------------------------ *)
(** ** Lemmas: strings *)

Lemma split_first_app c l r :
  str_includes c l = false -> split_first c (l +:+ String c r) = Some (l, r).
Proof.
  induction l as [|a l IH]; simpl; [intros _; by rewrite decide_True|].
  intros [Hne%bool_decide_eq_false Hi]%orb_false_iff.
  rewrite decide_False by done. by rewrite IH.
Qed.

Lemma split_first_Some c s l r :
  split_first c s = Some (l, r) -> s = (l +:+ String c r) /\ str_includes c l = false.
Proof.
  revert l r. induction s as [|a s IH]; intros l r; simpl; [done|].
  case_decide as Ha; subst; [intros Heq; by simplify_eq/=|].
  destruct (split_first c s) as [[l' r']|]; [|done].
  intros [= <- <-]. destruct (IH l' r' eq_refl) as [-> Hi]. simpl.
  by rewrite bool_decide_eq_false_2.
Qed.

Lemma split_first_None c s : split_first c s = None <-> str_includes c s = false.
Proof.
  induction s as [|a s IH]; simpl; [done|]. case_decide; subst.
  - rewrite bool_decide_eq_true_2 by done. done.
  - rewrite bool_decide_eq_false_2 by done. simpl. rewrite <- IH.
    by destruct (split_first c s) as [[]|].
Qed.

Create HintDb wallet.
Create Rewrite HintDb wallet.
#[export] Hint Rewrite @zsum_cons @zsum_app zsum_nil : wallet.
#[export] Hint Resolve div_superadditive div_mono : wallet.
