(* ===== verification/Decimal.v ===== *)
(** * Decimal strings and integers

    [packages/types/src/decimal.ts] (human decimals to scaled integers and
    back), [packages/types/src/money.ts] (base-unit strings), the integer-string
    half of [packages/types/src/price.ts] and the string conversions of
    [packages/ledger/src/amount.ts]. Text is a [list ascii] here, so that
    JavaScript's [slice] is [take]/[drop]; a character is a code point below
    256. *)

From S2P Require Import Prelude.
From Stdlib Require Import ZArith Lia Ascii.
From stdpp Require Import base list strings.

Open Scope Z_scope.

Abbreviation text := (list ascii).

(** ** Characters and digit strings *)

Definition code (a : ascii) : Z := Z.of_nat (nat_of_ascii a).

Definition chr (n : Z) : ascii := ascii_of_nat (Z.to_nat n).

(** [\d] *)
Definition is_digit (a : ascii) : bool := (48 <=? code a) && (code a <=? 57).

(** [[1-9]] *)
Definition is_nonzero_digit (a : ascii) : bool := (49 <=? code a) && (code a <=? 57).

Definition zero_char : ascii := chr 48.
Definition dot_char : ascii := chr 46.
Definition minus_char : ascii := chr 45.

(** The white space [String.prototype.trim] removes, below code point 256. *)
Definition is_space (a : ascii) : bool :=
  ((9 <=? code a) && (code a <=? 13)) || (code a =? 32) || (code a =? 160).

(** [BigInt(s)] for a string of digits; [BigInt('')] is [0n]. *)
Definition digits_value (s : text) : Z :=
  fold_left (fun acc a => acc * 10 + (code a - 48)) s 0.

Fixpoint to_digits_fuel (fuel : nat) (n : Z) : text :=
  match fuel with
  | O => []
  | S fuel =>
      if n <? 10 then [chr (48 + n)]
      else to_digits_fuel fuel (n / 10) ++ [chr (48 + n mod 10)]
  end.

(** [n.toString()] for a non-negative bigint. *)
Definition to_digits (n : Z) : text := to_digits_fuel (S (Z.to_nat (Z.log2 n))) n.

(** [n.toString()] *)
Definition to_text (n : Z) : text :=
  if n <? 0 then minus_char :: to_digits (- n) else to_digits n.

(** [s.padStart(n, '0')] and [s.padEnd(n, '0')] *)
Definition pad_start (n : nat) (s : text) : text := replicate (n - length s) zero_char ++ s.
Definition pad_end (n : nat) (s : text) : text := s ++ replicate (n - length s) zero_char.

Fixpoint drop_while (p : ascii -> bool) (s : text) : text :=
  match s with
  | [] => []
  | a :: s' => if p a then drop_while p s' else s
  end.

Fixpoint span (p : ascii -> bool) (s : text) : text * text :=
  match s with
  | [] => ([], [])
  | a :: s' => if p a then let (l, r) := span p s' in (a :: l, r) else ([], s)
  end.

(** [s.replace(/0+$/, '')] *)
Definition strip_trailing_zeros (s : text) : text :=
  reverse (drop_while (fun a => bool_decide (a = zero_char)) (reverse s)).

Definition trim (s : text) : text :=
  reverse (drop_while is_space (reverse (drop_while is_space s))).

(** ** [decimal.ts] *)

Definition MAX_U64 : Z := 18446744073709551615.
Definition PRICE_SCALE_EXP : Z := 9.

Inductive parse_reason := empty | malformed | too_precise | too_large.

Inductive DecimalParse :=
| parsed (value : Z)
| refused (reason : parse_reason).

(** The pattern [DECIMAL]: digits with an optional point and more digits, or a
    point and at least one digit. Answers the whole part (the string 0 when it
    is absent) and the fraction. *)
Definition match_decimal (s : text) : option (text * text) :=
  let (whole, rest) := span is_digit s in
  match whole, rest with
  | [], a :: fraction =>
      if bool_decide (a = dot_char) && negb (bool_decide (fraction = [])) &&
         forallb is_digit fraction
      then Some ([zero_char], fraction) else None
  | [], [] => None
  | _, [] => Some (whole, [])
  | _, a :: fraction =>
      if bool_decide (a = dot_char) && forallb is_digit fraction
      then Some (whole, fraction) else None
  end.

Definition parseDecimal (input : text) (decimals : Z) : result DecimalParse :=
  if decimals <? 0 then Throw RangeError else
  let d := Z.to_nat decimals in
  let s := trim input in
  Ok (match s with
  | [] => refused empty
  | _ =>
      match match_decimal s with
      | None => refused malformed
      | Some (whole, fraction) =>
          let kept := take d fraction in
          if existsb is_nonzero_digit (drop d fraction) then refused too_precise
          else
            let value := digits_value (whole ++ pad_end d kept) in
            if value >? MAX_U64 then refused too_large else parsed value
      end
  end).

Definition formatDecimal (value decimals : Z) (minFractionDigits : nat) : result text :=
  if decimals <? 0 then Throw RangeError else
  let d := Z.to_nat decimals in
  let negative := value <? 0 in
  let digits := pad_start (d + 1) (to_digits (if negative then - value else value)) in
  let whole := take (length digits - d) digits in
  let fraction0 := strip_trailing_zeros (drop (length digits - d) digits) in
  let fraction :=
    if (length fraction0 <? minFractionDigits)%nat
    then pad_end minFractionDigits fraction0 else fraction0 in
  Ok ((if negative then [minus_char] else []) ++ whole ++
      (if (0 <? length fraction)%nat then dot_char :: fraction else [])).

Definition priceDecimals (baseDecimals quoteDecimals : Z) : result Z :=
  let decimals := quoteDecimals + PRICE_SCALE_EXP - baseDecimals in
  if decimals <? 0 then Throw RangeError else Ok decimals.

Definition parseHumanPrice (input : text) (baseDecimals quoteDecimals : Z)
  : result DecimalParse :=
  d ← priceDecimals baseDecimals quoteDecimals; parseDecimal input d.

Definition formatScaledPrice (price baseDecimals quoteDecimals : Z) (minFractionDigits : nat)
  : result text :=
  d ← priceDecimals baseDecimals quoteDecimals; formatDecimal price d minFractionDigits.

(** ** Integer strings: [money.ts], [price.ts], [amount.ts] *)

(** The pattern [UNSIGNED_INTEGER]: a zero alone, or digits with no leading zero. *)
Definition unsigned_integer (s : text) : bool :=
  match s with
  | [] => false
  | a :: s' => (bool_decide (a = zero_char) && bool_decide (s' = [])) ||
               (is_nonzero_digit a && forallb is_digit s')
  end.

(** [BASE_UNITS_PATTERN]: the same with an optional sign. *)
Definition base_units_pattern (s : text) : bool :=
  match s with
  | a :: s' => if bool_decide (a = minus_char) then unsigned_integer s' else unsigned_integer s
  | [] => false
  end.

Definition asBaseUnits (value : text) : result text :=
  if base_units_pattern value then Ok value else Throw TypeError.

(** [BigInt(s)] on a string [asBaseUnits] accepted. *)
Definition big_int (s : text) : Z :=
  match s with
  | a :: s' => if bool_decide (a = minus_char) then - digits_value s' else digits_value s
  | [] => 0
  end.

Definition toAmount (value : text) : result Z :=
  s ← asBaseUnits value; Ok (big_int s).

Definition toBaseUnits (value : Z) : result text := asBaseUnits (to_text value).

Definition parseUnsigned (value : text) : result Z :=
  if negb (unsigned_integer value) then Throw TypeError else
  let parsed := digits_value value in
  if parsed >? MAX_U64 then Throw RangeError else Ok parsed.

(** [priceFromBigInt] and [qtyFromBigInt]. *)
Definition checked (value : Z) : result text :=
  if value <? 0 then Throw RangeError
  else if value >? MAX_U64 then Throw RangeError
  else Ok (to_text value).

Definition formatForDisplay (value decimals : Z) : result text :=
  if decimals <? 0 then Throw TypeError else
  let d := Z.to_nat decimals in
  let negative := value <? 0 in
  let digits := pad_start (d + 1) (to_digits (if negative then - value else value)) in
  let whole := take (length digits - d) digits in
  let fraction := if (0 <? d)%nat then drop (length digits - d) digits else [] in
  let rendered := if (0 <? length fraction)%nat then whole ++ dot_char :: fraction else whole in
  Ok (if negative then minus_char :: rendered else rendered).

(** ** Lemmas: digit strings *)

Lemma code_chr n : 0 <= n < 256 -> code (chr n) = n.
Proof.
  intros H. unfold code, chr. rewrite nat_ascii_embedding by lia. lia.
Qed.

Lemma chr_code a : chr (code a) = a.
Proof. unfold code, chr. rewrite Nat2Z.id. apply ascii_nat_embedding. Qed.

Lemma digits_value_fold s acc :
  fold_left (fun acc a => acc * 10 + (code a - 48)) s acc =
  acc * 10 ^ Z.of_nat (length s) + digits_value s.
Proof.
  unfold digits_value. revert acc. induction s as [|a s IH]; intros acc; [simpl; lia|].
  cbn [fold_left length]. rewrite (IH (acc * 10 + _)), (IH (0 * 10 + _)).
  rewrite Nat2Z.inj_succ, Z.pow_succ_r by lia. ring.
Qed.

Lemma digits_value_app s t :
  digits_value (s ++ t) = digits_value s * 10 ^ Z.of_nat (length t) + digits_value t.
Proof. unfold digits_value at 1. by rewrite fold_left_app, digits_value_fold. Qed.

Lemma digits_value_snoc s a : digits_value (s ++ [a]) = 10 * digits_value s + (code a - 48).
Proof. rewrite digits_value_app. cbn. lia. Qed.

Lemma digits_value_zeros n : digits_value (replicate n zero_char) = 0.
Proof.
  induction n as [|n IH]; [done|].
  replace (replicate (S n) zero_char) with (replicate n zero_char ++ [zero_char])
    by (rewrite <- replicate_S_end; done).
  rewrite digits_value_snoc, IH. done.
Qed.

Lemma digits_value_bounds s :
  Forall (fun a => is_digit a = true) s ->
  0 <= digits_value s < 10 ^ Z.of_nat (length s).
Proof.
  induction s as [|a s IH] using rev_ind; intros H; [cbn; lia|].
  apply Forall_app in H as [Hs Ha]. rewrite Forall_singleton in Ha.
  unfold is_digit in Ha. zbool. specialize (IH Hs).
  rewrite digits_value_snoc, length_app. cbn [length].
  rewrite Nat.add_1_r, Nat2Z.inj_succ, Z.pow_succ_r by lia. lia.
Qed.

Lemma to_digits_fuel_irrel f f' n :
  0 <= n < 10 ^ Z.of_nat f -> 0 <= n < 10 ^ Z.of_nat f' ->
  (0 < f)%nat -> (0 < f')%nat ->
  to_digits_fuel f n = to_digits_fuel f' n.
Proof.
  revert f' n. induction f as [|f IH]; intros [|f'] n Hn Hn' Hf Hf'; [lia..|].
  simpl. destruct (Z.ltb_spec n 10); [done|]. f_equal.
  rewrite Nat2Z.inj_succ, Z.pow_succ_r in Hn by lia.
  rewrite Nat2Z.inj_succ, Z.pow_succ_r in Hn' by lia.
  assert (1 <= n / 10) by (apply Z.div_le_lower_bound; lia).
  assert (n / 10 < 10 ^ Z.of_nat f) by (apply Z.div_lt_upper_bound; lia).
  assert (n / 10 < 10 ^ Z.of_nat f') by (apply Z.div_lt_upper_bound; lia).
  assert (forall g, n / 10 < 10 ^ Z.of_nat g -> (0 < g)%nat) as Hpos.
  { intros [|g] Hg; [|lia]. change (10 ^ Z.of_nat 0) with 1 in Hg. lia. }
  apply IH; auto; split; auto; lia.
Qed.

Lemma log2_fuel n : 0 <= n -> n < 10 ^ Z.of_nat (S (Z.to_nat (Z.log2 n))).
Proof.
  intros Hn. rewrite Nat2Z.inj_succ, Z2Nat.id by apply Z.log2_nonneg.
  destruct (Z.eq_dec n 0) as [->|]; [done|].
  pose proof (Z.log2_spec n ltac:(lia)) as [_ H].
  eapply Z.lt_le_trans; [exact H|]. apply Z.pow_le_mono_l. lia.
Qed.

Lemma to_digits_eq n :
  0 <= n ->
  to_digits n = if n <? 10 then [chr (48 + n)] else to_digits (n / 10) ++ [chr (48 + n mod 10)].
Proof.
  intros Hn. unfold to_digits at 1. pose proof (log2_fuel n Hn) as Hf. simpl.
  destruct (Z.ltb_spec n 10); [done|]. f_equal.
  assert (0 <= n / 10) by (apply Z.div_pos; lia).
  rewrite Nat2Z.inj_succ, Z.pow_succ_r in Hf by lia.
  assert (n / 10 < 10 ^ Z.of_nat (Z.to_nat (Z.log2 n))) by (apply Z.div_lt_upper_bound; lia).
  apply to_digits_fuel_irrel; try lia.
  - split; [done|]. by apply log2_fuel.
  - assert (1 <= Z.log2 n) by (apply Z.log2_le_pow2; lia). lia.
Qed.

(** Induction on the decimal digits of a number, last digit first. *)
Lemma decimal_ind (P : Z -> Prop) :
  (forall n, 0 <= n < 10 -> P n) ->
  (forall n, 10 <= n -> P (n / 10) -> P n) ->
  forall n, 0 <= n -> P n.
Proof.
  intros Hbase Hstep n Hn. pattern n. apply Zlt_0_ind; [|done].
  clear n Hn. intros n IH Hn. destruct (Z.lt_ge_cases n 10); [auto|].
  apply Hstep; [done|]. apply IH. split; [apply Z.div_pos; lia|].
  apply Z.div_lt; lia.
Qed.

Lemma is_digit_chr d : 0 <= d < 10 -> is_digit (chr (48 + d)) = true.
Proof. intros. unfold is_digit. rewrite code_chr by lia. apply andb_true_iff. lia. Qed.

Lemma to_digits_digits n : 0 <= n -> Forall (fun a => is_digit a = true) (to_digits n).
Proof.
  revert n. apply decimal_ind; intros n Hn.
  - rewrite to_digits_eq by lia. destruct (Z.ltb_spec n 10); [|lia].
    apply Forall_singleton. by apply is_digit_chr.
  - intros IH. rewrite to_digits_eq by lia. destruct (Z.ltb_spec n 10); [lia|].
    apply Forall_app. split; [done|]. apply Forall_singleton, is_digit_chr.
    apply Z.mod_pos_bound. lia.
Qed.

Lemma digits_value_to_digits n : 0 <= n -> digits_value (to_digits n) = n.
Proof.
  revert n. apply decimal_ind; intros n Hn.
  - rewrite to_digits_eq by lia. destruct (Z.ltb_spec n 10); [|lia].
    unfold digits_value. cbn [fold_left]. rewrite code_chr by lia. lia.
  - intros IH. rewrite to_digits_eq by lia. destruct (Z.ltb_spec n 10); [lia|].
    pose proof (Z.mod_pos_bound n 10 ltac:(lia)).
    rewrite digits_value_snoc, IH, code_chr by lia. pose proof (Z.div_mod n 10). lia.
Qed.

Lemma to_digits_nonempty n : 0 <= n -> to_digits n <> [].
Proof.
  intros Hn. rewrite to_digits_eq by done. case_match; [done|]. by destruct (to_digits _).
Qed.

Lemma to_digits_head n : 0 < n -> exists a s, to_digits n = a :: s /\ is_nonzero_digit a = true.
Proof.
  intros Hn. assert (Hn' : 0 <= n) by lia. revert n Hn' Hn.
  apply (decimal_ind (fun n => 0 < n -> exists a s, to_digits n = a :: s /\ _)); intros n Hn.
  - intros Hp. rewrite to_digits_eq by lia. destruct (Z.ltb_spec n 10); [|lia].
    exists (chr (48 + n)), []. split; [done|]. unfold is_nonzero_digit.
    rewrite code_chr by lia. apply andb_true_iff. lia.
  - intros IH _. rewrite to_digits_eq by lia. destruct (Z.ltb_spec n 10); [lia|].
    destruct IH as (a & s & -> & Ha).
    { enough (1 <= n / 10) by lia. apply Z.div_le_lower_bound; lia. }
    exists a, (s ++ [chr (48 + n mod 10)]). done.
Qed.

Lemma unsigned_integer_to_digits n : 0 <= n -> unsigned_integer (to_digits n) = true.
Proof.
  intros Hn. destruct (Z.eq_dec n 0) as [->|]; [done|].
  pose proof (to_digits_digits n Hn) as Hd.
  destruct (to_digits_head n) as (a & s & Heq & Ha); [lia|]. rewrite Heq in *. simpl.
  rewrite Ha. apply Forall_cons in Hd as [_ Hd]. apply orb_true_iff. right.
  apply forallb_forall. intros x Hx. rewrite Forall_forall in Hd. apply Hd.
  by apply list_elem_of_In.
Qed.

Lemma is_nonzero_digit_digit a : is_nonzero_digit a = true -> is_digit a = true.
Proof. unfold is_nonzero_digit, is_digit. intros H. zbool. apply andb_true_iff. lia. Qed.

Lemma unsigned_integer_digits s :
  unsigned_integer s = true -> Forall (fun a => is_digit a = true) s.
Proof.
  destruct s as [|a s]; simpl; [done|].
  intros [[->%bool_decide_eq_true ->%bool_decide_eq_true]%andb_true_iff
         |[Ha Hs]%andb_true_iff]%orb_true_iff.
  - by apply Forall_singleton.
  - apply Forall_cons. split; [by apply is_nonzero_digit_digit|].
    apply Forall_forall. intros x Hx. rewrite forallb_forall in Hs. apply Hs.
    by apply list_elem_of_In.
Qed.

(** Canonical digit strings are exactly the renderings of the non-negative
    integers, so a branded decimal string and its integer determine each
    other. *)
Lemma to_digits_digits_value s : unsigned_integer s = true -> to_digits (digits_value s) = s.
Proof.
  induction s as [|a s IH] using rev_ind; [done|]. intros Hu.
  pose proof (unsigned_integer_digits _ Hu) as Hd.
  apply Forall_app in Hd as [Hs Ha]. rewrite Forall_singleton in Ha.
  unfold is_digit in Ha. zbool. rewrite digits_value_snoc.
  destruct s as [|b s].
  { change (digits_value []) with 0. rewrite to_digits_eq by lia.
    replace (10 * 0 + (code a - 48)) with (code a - 48) by lia.
    destruct (Z.ltb_spec (code a - 48) 10); [|lia].
    replace (48 + (code a - 48)) with (code a) by lia. by rewrite chr_code. }
  simpl in Hu. apply orb_true_iff in Hu as [Hu|Hu].
  { apply andb_true_iff in Hu as [_ Hu]. zbool. by destruct s. }
  apply andb_true_iff in Hu as [Hb Hrest]. rewrite forallb_app in Hrest. zbool.
  assert (Hu' : unsigned_integer (b :: s) = true).
  { simpl. rewrite Hb. apply orb_true_iff. by right. }
  specialize (IH Hu'). set (v := digits_value (b :: s)) in *.
  assert (1 <= v).
  { destruct (Z.le_gt_cases 1 v); [done|].
    pose proof (digits_value_bounds _ Hs) as [? _]. fold v in H3.
    assert (Hv : v = 0) by lia. rewrite Hv in IH. change (to_digits 0) with [zero_char] in IH.
    injection IH as <- _. done. }
  rewrite to_digits_eq by lia. destruct (Z.ltb_spec (10 * v + (code a - 48)) 10); [lia|].
  replace (10 * v + (code a - 48)) with (v * 10 + (code a - 48)) by lia.
  rewrite Z.div_add_l, Z.div_small, Z.add_0_r by lia. rewrite IH. f_equal.
  rewrite (Z.add_comm (v * 10)), Z.mod_add, Z.mod_small by lia.
  replace (48 + (code a - 48)) with (code a) by lia. by rewrite chr_code.
Qed.

Lemma digits_value_pos s :
  Forall (fun a => is_digit a = true) s -> existsb is_nonzero_digit s = true ->
  0 < digits_value s.
Proof.
  induction s as [|a s IH] using rev_ind; [done|]. intros Hd He.
  apply Forall_app in Hd as [Hs Ha]. rewrite Forall_singleton in Ha.
  pose proof (digits_value_bounds s Hs) as [? _].
  rewrite digits_value_snoc. rewrite existsb_app in He. simpl in He. rewrite orb_false_r in He.
  unfold is_digit in Ha. zbool. apply orb_true_iff in He as [He|He].
  - specialize (IH Hs He). lia.
  - unfold is_nonzero_digit in He. zbool. lia.
Qed.

Lemma digits_all_zero s :
  Forall (fun a => is_digit a = true) s -> existsb is_nonzero_digit s = false ->
  s = replicate (length s) zero_char.
Proof.
  induction s as [|a s IH]; [done|]. intros Hd He. simpl in *.
  apply Forall_cons in Hd as [Ha Hs]. apply orb_false_iff in He as [Hz He].
  rewrite <- IH by done. f_equal. unfold is_digit in Ha. unfold is_nonzero_digit in Hz. zbool.
  rewrite <- (chr_code a). unfold zero_char. f_equal.
  apply andb_false_iff in Hz as [?%Z.leb_gt|?%Z.leb_gt]; lia.
Qed.

(** ** Lemmas: scanning *)

Lemma span_app p s r :
  Forall (fun a => p a = true) s -> (match r with [] => True | a :: _ => p a = false end) ->
  span p (s ++ r) = (s, r).
Proof.
  induction 1 as [|a s Ha Hs IH]; simpl; intros Hr.
  - destruct r as [|b r]; simpl; [done|]. by rewrite Hr.
  - rewrite Ha, IH by done. done.
Qed.

Lemma span_fst p s : Forall (fun a => p a = true) (span p s).1.
Proof.
  induction s as [|a s IH]; simpl; [done|]. destruct (p a) eqn:E; [|done].
  destruct (span p s). simpl in *. by constructor.
Qed.

Lemma drop_while_id p s : Forall (fun a => p a = false) s -> drop_while p s = s.
Proof. destruct 1 as [|a s Ha]; simpl; [done|]. by rewrite Ha. Qed.

Lemma trim_id s : Forall (fun a => is_space a = false) s -> trim s = s.
Proof.
  intros H. unfold trim. rewrite (drop_while_id _ s) by done.
  rewrite drop_while_id by by apply Forall_reverse. apply reverse_involutive.
Qed.

Lemma drop_while_zeros s :
  exists k, s = replicate k zero_char ++ drop_while (fun a => bool_decide (a = zero_char)) s.
Proof.
  induction s as [|a s [k IH]]; simpl; [by exists 0%nat|].
  case_bool_decide; subst; [|by exists 0%nat]. exists (S k). simpl. by rewrite <- IH.
Qed.

Lemma strip_trailing_zeros_spec s :
  exists k, s = strip_trailing_zeros s ++ replicate k zero_char.
Proof.
  destruct (drop_while_zeros (reverse s)) as [k Hk]. exists k.
  rewrite <- (reverse_involutive s) at 1. rewrite Hk at 1. rewrite reverse_app.
  unfold strip_trailing_zeros. by rewrite reverse_replicate.
Qed.

Lemma match_decimal_digits s w f :
  match_decimal s = Some (w, f) ->
  Forall (fun a => is_digit a = true) w /\ Forall (fun a => is_digit a = true) f.
Proof.
  unfold match_decimal. pose proof (span_fst is_digit s) as Hs.
  destruct (span is_digit s) as [whole rest]. simpl in Hs.
  assert (Hall : forall l, forallb is_digit l = true -> Forall (fun a => is_digit a = true) l).
  { intros l Hl. apply Forall_forall. intros x Hx. rewrite forallb_forall in Hl.
    apply Hl. by apply list_elem_of_In. }
  destruct whole as [|a whole], rest as [|b rest]; try done.
  - destruct (_ && _) eqn:E; [|done]. intros [= <- <-]. apply andb_true_iff in E as [_ E].
    split; [by repeat constructor|auto].
  - intros [= <- <-]. split; [done|constructor].
  - destruct (_ && _) eqn:E; [|done]. intros [= <- <-]. apply andb_true_iff in E as [_ E]. auto.
Qed.

Lemma match_decimal_render w f :
  w <> [] -> Forall (fun a => is_digit a = true) w -> Forall (fun a => is_digit a = true) f ->
  match_decimal (w ++ (if (0 <? length f)%nat then dot_char :: f else [])) = Some (w, f).
Proof.
  intros Hne Hw Hf. unfold match_decimal. rewrite span_app; [|done|by destruct f].
  destruct w as [|a w]; [done|]. destruct f as [|b f]; simpl; [done|].
  apply Forall_cons in Hf as [Hb Hf]. rewrite Hb. simpl.
  replace (forallb is_digit f) with true; [done|]. symmetry. apply forallb_forall.
  intros x Hx. rewrite Forall_forall in Hf. apply Hf. by apply list_elem_of_In.
Qed.

Lemma pad_end_take_zeros d s k j :
  (length s + k = d)%nat ->
  pad_end d (take d (s ++ replicate j zero_char)) = s ++ replicate k zero_char.
Proof.
  intros <-. unfold pad_end. rewrite take_app_ge by lia.
  replace (length s + k - length s)%nat with k by lia.
  rewrite take_replicate, <- app_assoc. f_equal.
  rewrite length_app, length_replicate, <- replicate_add. f_equal. lia.
Qed.

Lemma digit_not_space a : is_digit a = true -> is_space a = false.
Proof.
  unfold is_digit, is_space. intros H. zbool.
  rewrite !orb_false_iff, andb_false_iff. repeat split; [right|..]; lia.
Qed.

(** ** Lemmas: the conversions *)

Lemma pad_start_value n s : digits_value (pad_start n s) = digits_value s.
Proof. unfold pad_start. rewrite digits_value_app, digits_value_zeros. lia. Qed.

Lemma pad_start_length n s : (n <= length (pad_start n s))%nat.
Proof. unfold pad_start. rewrite length_app, length_replicate. lia. Qed.

Lemma zeros_digits n : Forall (fun a => is_digit a = true) (replicate n zero_char).
Proof. induction n; simpl; by constructor. Qed.

Lemma pad_start_digits n s :
  Forall (fun a => is_digit a = true) s -> Forall (fun a => is_digit a = true) (pad_start n s).
Proof. intros. unfold pad_start. apply Forall_app. split; [apply zeros_digits|done]. Qed.

Lemma pad_end_digits n s :
  Forall (fun a => is_digit a = true) s -> Forall (fun a => is_digit a = true) (pad_end n s).
Proof. intros. unfold pad_end. apply Forall_app. split; [done|apply zeros_digits]. Qed.

Lemma strip_trailing_zeros_digits s :
  Forall (fun a => is_digit a = true) s ->
  Forall (fun a => is_digit a = true) (strip_trailing_zeros s).
Proof.
  intros H. destruct (strip_trailing_zeros_spec s) as [k Hk]. rewrite Hk in H.
  by apply Forall_app in H as [H _].
Qed.

(** What [formatDecimal] prints for a non-negative value: the digits of the
    value, split so that [decimals] of them (some trailing zeros dropped or
    added) follow the point. *)
Lemma formatDecimal_shape v d m :
  0 <= v -> 0 <= d ->
  exists w f k j, formatDecimal v d m = Ok (w ++ (if (0 <? length (f ++ replicate j zero_char))%nat
                                      then dot_char :: f ++ replicate j zero_char else [])) /\
    w <> [] /\ Forall (fun a => is_digit a = true) w /\ Forall (fun a => is_digit a = true) f /\
    (length f + k = Z.to_nat d)%nat /\ digits_value (w ++ f ++ replicate k zero_char) = v.
Proof.
  intros Hv Hd. unfold formatDecimal.
  destruct (Z.ltb_spec d 0); [lia|]. destruct (Z.ltb_spec v 0); [lia|].
  set (n := Z.to_nat d). set (ds := pad_start (n + 1) (to_digits v)).
  assert (Hds : Forall (fun a => is_digit a = true) ds) by (by apply pad_start_digits, to_digits_digits).
  assert (Hlen : (n + 1 <= length ds)%nat) by apply pad_start_length.
  set (w := take (length ds - n) ds). set (t := drop (length ds - n) ds).
  assert (Ht : length t = n) by (unfold t; rewrite length_drop; lia).
  destruct (strip_trailing_zeros_spec t) as [k Hk]. set (f := strip_trailing_zeros t) in *.
  exists w, f, k, (if (length f <? m)%nat then m - length f else 0)%nat.
  assert (Hwd : Forall (fun a => is_digit a = true) w /\ Forall (fun a => is_digit a = true) t).
  { apply Forall_app. unfold w, t. by rewrite take_drop. }
  destruct Hwd as [Hwd Htd]. repeat split; try done.
  - simpl. unfold pad_end. destruct (length f <? m)%nat; simpl; [done|].
    by rewrite app_nil_r.
  - intros Hw. assert (Hl : length w = 0%nat) by (by rewrite Hw).
    unfold w in Hl. rewrite length_take in Hl. lia.
  - by apply strip_trailing_zeros_digits.
  - rewrite <- Ht, Hk at 1. rewrite length_app, length_replicate. lia.
  - rewrite <- Hk. unfold w, t. rewrite take_drop. unfold ds. rewrite pad_start_value.
    by apply digits_value_to_digits.
Qed.

(** The kept digits and the dropped ones: when the dropped ones are all zero the
    kept ones carry the whole number. *)
Lemma exact_value w f n :
  Forall (fun a => is_digit a = true) f -> existsb is_nonzero_digit (drop n f) = false ->
  digits_value (w ++ pad_end n (take n f)) * 10 ^ Z.of_nat (length f) =
  digits_value (w ++ f) * 10 ^ Z.of_nat n.
Proof.
  intros Hf E. unfold pad_end. rewrite length_take.
  destruct (Nat.le_ge_cases n (length f)) as [Hle|Hge].
  - assert (Hz : drop n f = replicate (length (drop n f)) zero_char).
    { apply digits_all_zero; [by apply Forall_drop|done]. }
    assert (Hv : digits_value (w ++ f) =
                 digits_value (w ++ take n f) * 10 ^ Z.of_nat (length f - n)).
    { transitivity (digits_value ((w ++ take n f) ++ drop n f)).
      - by rewrite <- app_assoc, take_drop.
      - rewrite digits_value_app, <- (length_drop f n). rewrite Hz at 2.
        rewrite digits_value_zeros. lia. }
    replace (n - n `min` length f)%nat with 0%nat by lia. simpl. rewrite app_nil_r, Hv.
    rewrite <- Z.mul_assoc, <- Z.pow_add_r by lia. do 2 f_equal. lia.
  - rewrite take_ge by lia. rewrite app_assoc, (digits_value_app (w ++ f)), digits_value_zeros.
    rewrite length_replicate, Z.add_0_r, <- Z.mul_assoc, <- Z.pow_add_r by lia. do 2 f_equal. lia.
Qed.

(** When a dropped digit is not zero, no integer carries the number. *)
Lemma inexact_no_value w f n v :
  Forall (fun a => is_digit a = true) f -> existsb is_nonzero_digit (drop n f) = true ->
  v * 10 ^ Z.of_nat (length f) = digits_value (w ++ f) * 10 ^ Z.of_nat n -> False.
Proof.
  intros Hf E Heq. set (r := drop n f) in *.
  assert (Hr : Forall (fun a => is_digit a = true) r) by by apply Forall_drop.
  pose proof (digits_value_pos r Hr E). pose proof (digits_value_bounds r Hr).
  assert (Hlen : length f = (n + length r)%nat).
  { unfold r. rewrite length_drop. destruct (Nat.le_gt_cases n (length f)); [lia|].
    unfold r in E. rewrite drop_ge in E by lia. done. }
  assert (Hv : digits_value (w ++ f) =
               digits_value (w ++ take n f) * 10 ^ Z.of_nat (length r) + digits_value r).
  { rewrite <- digits_value_app, <- app_assoc. unfold r. by rewrite take_drop. }
  rewrite Hv, Hlen in Heq.
  rewrite Nat2Z.inj_add, Z.pow_add_r in Heq by lia.
  assert (0 < 10 ^ Z.of_nat n) by (apply Z.pow_pos_nonneg; lia).
  set (q := 10 ^ Z.of_nat (length r)) in *. set (a := digits_value (w ++ take n f)) in *.
  assert (v * q = a * q + digits_value r) by (apply (Z.mul_cancel_r _ _ (10 ^ Z.of_nat n)); lia).
  assert (v = a \/ v < a \/ a + 1 <= v) as [|[|]] by lia; nia.
Qed.

(** What [formatDecimal] renders has no white space around it. *)
Lemma trim_render w f :
  Forall (fun a => is_digit a = true) w -> Forall (fun a => is_digit a = true) f ->
  trim (w ++ (if (0 <? length f)%nat then dot_char :: f else [])) =
  w ++ (if (0 <? length f)%nat then dot_char :: f else []).
Proof.
  intros Hw Hf. apply trim_id. apply Forall_app.
  assert (Hspace : forall l, Forall (fun a => is_digit a = true) l ->
                             Forall (fun a => is_space a = false) l).
  { intros l Hl. eapply Forall_impl; [exact Hl|]. apply digit_not_space. }
  split; [auto|]. destruct (0 <? length f)%nat; [|constructor]. constructor; auto.
Qed.

Lemma render_nonempty {A} (w t : text) (a b : A) :
  w <> [] -> match w ++ t with [] => a | _ => b end = b.
Proof. by destruct w. Qed.

Lemma existsb_no_excess n (f : text) j :
  (length f <= n)%nat ->
  existsb is_nonzero_digit (drop n (f ++ replicate j zero_char)) = false.
Proof.
  intros H. rewrite drop_app_ge by done. rewrite drop_replicate.
  induction (j - (n - length f))%nat; simpl; [done|]. by rewrite IHn0.
Qed.

Lemma nonzero_digit_not_minus a : is_digit a = true -> bool_decide (a = minus_char) = false.
Proof.
  intros H. apply bool_decide_eq_false. intros ->. done.
Qed.

Lemma base_units_to_text v : base_units_pattern (to_text v) = true.
Proof.
  unfold to_text. destruct (Z.ltb_spec v 0); simpl.
  - apply unsigned_integer_to_digits. lia.
  - pose proof (unsigned_integer_to_digits v ltac:(lia)) as Hu.
    pose proof (to_digits_digits v ltac:(lia)) as Hd. destruct (to_digits v) as [|a s]; [done|].
    apply Forall_cons in Hd as [Ha _]. simpl. by rewrite nonzero_digit_not_minus.
Qed.

Lemma big_int_to_text v : big_int (to_text v) = v.
Proof.
  unfold to_text. destruct (Z.ltb_spec v 0); simpl.
  - rewrite digits_value_to_digits by lia. lia.
  - pose proof (to_digits_digits v ltac:(lia)) as Hd. pose proof (digits_value_to_digits v ltac:(lia)).
    destruct (to_digits v) as [|a s]; [done|].
    apply Forall_cons in Hd as [Ha _]. simpl. by rewrite nonzero_digit_not_minus.
Qed.

Lemma to_text_big_int s :
  base_units_pattern s = true -> s = [minus_char; zero_char] \/ to_text (big_int s) = s.
Proof.
  destruct s as [|a s]; simpl; [done|]. case_bool_decide as Ha.
  - intros Hu. pose proof (to_digits_digits_value s Hu) as Heq.
    pose proof (digits_value_bounds s (unsigned_integer_digits s Hu)) as [Hpos _].
    subst a. unfold to_text. destruct (Z.ltb_spec (- digits_value s) 0).
    + right. rewrite Z.opp_involutive. by rewrite Heq.
    + left. assert (Hz : digits_value s = 0) by lia. rewrite Hz in Heq.
      change (to_digits 0) with [zero_char] in Heq. by rewrite <- Heq.
  - intros Hu. change (unsigned_integer (a :: s) = true) in Hu. right.
    pose proof (digits_value_bounds _ (unsigned_integer_digits _ Hu)) as [Hpos _].
    unfold to_text. destruct (Z.ltb_spec (digits_value (a :: s)) 0); [lia|].
    by apply to_digits_digits_value.
Qed.

(** ** Properties *)

(** parsing refuses rather than rounds. On a well-formed input [whole.fraction] the parser
    answers a value exactly when that value is the typed number times
    [10^decimals], with nothing lost, and fits an unsigned 64-bit integer. *)
Theorem parseDecimal_exact s d w f v :
  0 <= d -> match_decimal (trim s) = Some (w, f) ->
  parseDecimal s d = Ok (parsed v) <->
  v <= MAX_U64 /\ v * 10 ^ Z.of_nat (length f) = digits_value (w ++ f) * 10 ^ d.
Proof.
  intros Hd Hm. destruct (match_decimal_digits _ _ _ Hm) as [Hw Hf].
  unfold parseDecimal. destruct (Z.ltb_spec d 0); [lia|].
  destruct (trim s) as [|c t]; [done|]. rewrite Hm.
  set (n := Z.to_nat d). assert (Hn : d = Z.of_nat n) by lia.
  rewrite Hn.
  assert (0 < 10 ^ Z.of_nat (length f)) by (apply Z.pow_pos_nonneg; lia).
  destruct (existsb is_nonzero_digit (drop n f)) eqn:E.
  - split; [done|]. intros [_ Heq]. exfalso. revert Heq. by apply inexact_no_value.
  - rewrite <- exact_value by done. destruct (Z.gtb_spec (digits_value (w ++ pad_end n (take n f))) MAX_U64).
    + split; [done|]. intros [Hle Heq]. apply Z.mul_cancel_r in Heq; lia.
    + split; [intros [= <-]; done|]. intros [Hle Heq]. do 2 f_equal. 
      apply Z.mul_cancel_r in Heq; lia.
Qed.

(** A value the terminal prints and the same form reads back is the same value, at any
    number of decimals and any minimum of fraction digits: [formatDecimal] then
    [parseDecimal] is the identity on unsigned 64-bit integers. *)
Theorem formatDecimal_roundtrip v d m :
  0 <= v <= MAX_U64 -> 0 <= d ->
  (formatDecimal v d m ≫= fun s => parseDecimal s d) = Ok (parsed v).
Proof.
  intros [Hv Hmax] Hd.
  destruct (formatDecimal_shape v d m Hv Hd) as (w & f & k & j & -> & Hne & Hw & Hf & Hlen & Hval).
  set (g := f ++ replicate j zero_char). assert (Hg : Forall (fun a => is_digit a = true) g).
  { apply Forall_app. split; [done|apply zeros_digits]. }
  cbn [mbind result_bind]. unfold parseDecimal. destruct (Z.ltb_spec d 0); [lia|].
  rewrite trim_render, match_decimal_render by done.
  rewrite render_nonempty by done.
  unfold g. rewrite existsb_no_excess by lia. rewrite (pad_end_take_zeros _ _ k) by lia.
  rewrite Hval. destruct (Z.gtb_spec v MAX_U64); [lia|done].
Qed.

(** The branded integer strings of the ledger and the book ([BaseUnits], [Price],
    [Qty]) stand for integers one to one: printing an integer gives a string the
    guard admits and that reads back as that integer, and a string the guard
    admits other than minus zero is the printed form of the integer it reads as. *)
Theorem branded_strings_are_integers :
  (forall v, (toBaseUnits v ≫= toAmount) = Ok v) /\
  (forall s v, toAmount s = Ok v -> s = [minus_char; zero_char] \/ toBaseUnits v = Ok s) /\
  (forall v, 0 <= v <= MAX_U64 -> (checked v ≫= parseUnsigned) = Ok v) /\
  (forall s v, parseUnsigned s = Ok v -> 0 <= v <= MAX_U64 /\ checked v = Ok s).
Proof.
  split; [|split; [|split]].
  - intros v. unfold toBaseUnits, toAmount, asBaseUnits. rewrite base_units_to_text. simpl.
    rewrite base_units_to_text. simpl. by rewrite big_int_to_text.
  - intros s v. unfold toBaseUnits, toAmount, asBaseUnits.
    destruct (base_units_pattern s) eqn:E; simpl; [intros [= <-]|done].
    destruct (to_text_big_int s E) as [->| ->]; [by left|right]. by rewrite E.
  - intros v Hv. unfold checked. destruct (Z.ltb_spec v 0); [lia|].
    destruct (Z.gtb_spec v MAX_U64); [lia|]. simpl. unfold parseUnsigned, to_text.
    destruct (Z.ltb_spec v 0); [lia|]. rewrite unsigned_integer_to_digits by lia. simpl.
    rewrite digits_value_to_digits by lia. destruct (Z.gtb_spec v MAX_U64); [lia|done].
  - intros s v. unfold parseUnsigned. destruct (unsigned_integer s) eqn:E; simpl; [|done].
    pose proof (digits_value_bounds s (unsigned_integer_digits s E)).
    destruct (Z.gtb_spec (digits_value s) MAX_U64); [done|]. intros [= <-]. split; [lia|].
    unfold checked, to_text. destruct (Z.ltb_spec (digits_value s) 0); [lia|].
    destruct (Z.gtb_spec (digits_value s) MAX_U64); [lia|]. by rewrite to_digits_digits_value.
Qed.

(** ** Witnesses *)

Definition text_150_25 : text := String.list_ascii_of_string "150.25"%string.

Lemma parseDecimal_exact_witness :
  parseDecimal text_150_25 6 = Ok (parsed 150250000) <->
  150250000 <= MAX_U64 /\
  150250000 * 10 ^ Z.of_nat (length (drop 4 text_150_25)) =
    digits_value (take 3 text_150_25 ++ drop 4 text_150_25) * 10 ^ 6.
Proof.
  apply (parseDecimal_exact text_150_25 6 (take 3 text_150_25) (drop 4 text_150_25)); [lia|reflexivity].
Defined.

Lemma formatDecimal_roundtrip_witness :
  formatDecimal 150250000 6 4 = Ok (text_150_25 ++ [zero_char; zero_char]) /\
  (formatDecimal 150250000 6 4 ≫= fun s => parseDecimal s 6) = Ok (parsed 150250000).
Proof.
  split; [reflexivity|]. apply (formatDecimal_roundtrip 150250000 6 4); [split; vm_compute; discriminate|lia].
Defined.
