(* ===== verification/Assets.v ===== *)
(** * Clusters, ledger asset keys and the asset allowlist

    [packages/types/src/clusters.ts] and [packages/types/src/assets.ts]. A ledger
    asset key is [cluster:asset]; a registry answers about the keys of one
    cluster. *)

From S2P Require Import Prelude Decimal.
From Stdlib Require Import ZArith Lia Ascii.
From stdpp Require Import base list strings gmap.

Open Scope string_scope.
Open Scope list_scope.
Open Scope Z_scope.

(** ** [clusters.ts] *)

Inductive Cluster := localnet | devnet | testnet | mainnet_beta.

#[export] Instance Cluster_eq_dec : EqDecision Cluster.
Proof. solve_decision. Defined.

Definition CLUSTERS : list Cluster := [localnet; devnet; testnet; mainnet_beta].

(** The string a cluster is in the source. *)
Definition cluster_name (c : Cluster) : string :=
  match c with
  | localnet => "localnet" | devnet => "devnet" | testnet => "testnet"
  | mainnet_beta => "mainnet-beta"
  end.

(** [(CLUSTERS as readonly string[]).includes(s)], and the cluster it is. *)
Definition cluster_of_name (s : string) : option Cluster :=
  head (filter (fun c => cluster_name c = s) CLUSTERS).

Definition TEST_CLUSTERS : list Cluster := [localnet; devnet; testnet].

Definition isTestCluster (c : Cluster) : bool := bool_decide (c ∈ TEST_CLUSTERS).

Definition SEPARATOR : ascii := chr 58.

Definition ledgerAssetKey (cluster : Cluster) (asset : string) : result string :=
  if str_includes SEPARATOR asset then Throw TypeError
  else Ok (cluster_name cluster +:+ String SEPARATOR asset).

Definition parseLedgerAssetKey (key : string) : result (Cluster * string) :=
  match split_first SEPARATOR key with
  | None => Throw TypeError
  | Some (cluster, asset) =>
      match cluster_of_name cluster with
      | None => Throw TypeError
      | Some c => if bool_decide (asset = "") then Throw TypeError else Ok (c, asset)
      end
  end.

(** [key.startsWith(cluster:)] *)
Definition assetKeyInCluster (key : string) (cluster : Cluster) : bool :=
  String.prefix (cluster_name cluster +:+ String SEPARATOR "") key.

Definition chainId (cluster : Cluster) : string :=
  "solana" +:+ String SEPARATOR (cluster_name cluster).

Definition clusterFromChainId (chain : string) : result Cluster :=
  let candidate := match split_first SEPARATOR chain with
                   | None => ""
                   | Some (_, rest) => rest
                   end in
  match cluster_of_name candidate with
  | None => Throw TypeError
  | Some c => Ok c
  end.

(** ** [assets.ts] *)

Definition NATIVE_ASSET_KEY : string := "SOL".
Definition MAX_DECIMALS : Z := 18.

Record TokenAsset := mkTokenAsset { symbol : string; mint : string; decimals : Z }.

(** [s.split(c)] for a one-character [c]. *)
Fixpoint split_on (c : ascii) (s : string) : list string :=
  match s with
  | "" => [""]
  | String a s =>
      if decide (a = c) then "" :: split_on c s
      else match split_on c s with
           | [] => [String a ""]
           | x :: xs => String a x :: xs
           end
  end.

Definition text_of (s : string) : text := String.list_ascii_of_string s.

Definition trim_string (s : string) : string :=
  String.string_of_list_ascii (trim (text_of s)).

(** The class [[1-9A-HJ-NP-Za-km-z]]. *)
Definition base58_char (a : ascii) : bool :=
  let n := code a in
  ((49 <=? n) && (n <=? 57)) || ((65 <=? n) && (n <=? 72)) || ((74 <=? n) && (n <=? 78)) ||
  ((80 <=? n) && (n <=? 90)) || ((97 <=? n) && (n <=? 107)) || ((109 <=? n) && (n <=? 122)).

(** [BASE58_ADDRESS.test(s)] *)
Definition base58_address (s : string) : bool :=
  (32 <=? String.length s)%nat && (String.length s <=? 44)%nat &&
  forallb base58_char (text_of s).

(** The [superRefine] callback of [tokenAssetSchema]: true when it adds no
    issue to the entry. *)
Definition token_entry_ok (entry : string) : bool :=
  match split_on SEPARATOR entry with
  | [symbol; mint; decimals] =>
      negb (bool_decide (symbol = "")) && base58_address mint &&
      negb (bool_decide (decimals = "")) && forallb is_digit (text_of decimals) &&
      (digits_value (text_of decimals) <=? MAX_DECIMALS)
  | _ => false
  end.

(** The last [transform] of [tokenAssetSchema]. *)
Definition token_of_entry (entry : string) : TokenAsset :=
  match split_on SEPARATOR entry with
  | symbol :: mint :: decimals :: _ =>
      mkTokenAsset symbol mint (digits_value (text_of decimals))
  | [symbol; mint] => mkTokenAsset symbol mint 0
  | [symbol] => mkTokenAsset symbol "" 0
  | [] => mkTokenAsset "" "" 0
  end.

(** [tokenAssetSchema.parse(value)] *)
Definition tokenAssetSchema (value : string) : result (list TokenAsset) :=
  let entries := filter (fun e => e <> "") (map trim_string (split_on (chr 44) value)) in
  if forallb token_entry_ok entries then Ok (map token_of_entry entries)
  else Throw (GenericError "invalid token list").

(** What [createAssetRegistry] closes over. *)
Record AssetRegistry := mkAssetRegistry {
  reg_cluster : Cluster;
  nativeKey : string;
  byKey : list (string * TokenAsset);
  keys : list string;
  tokens : list TokenAsset;
  nativeDecimals : Z
}.

Definition createAssetRegistry (cluster : Cluster) (nativeDecimals : Z)
    (tokens : list TokenAsset) : result AssetRegistry :=
  let qualify := ledgerAssetKey cluster in
  nativeKey ← qualify NATIVE_ASSET_KEY;
  qualified ← map_result (fun t => qualify (mint t)) tokens;
  Ok (mkAssetRegistry cluster nativeKey
        (fold_left (fun m kt => jset kt.1 kt.2 m) (zip qualified tokens) [])
        (nativeKey :: qualified) tokens nativeDecimals).

Definition token (r : AssetRegistry) (assetKey : string) : option TokenAsset :=
  jget assetKey (byKey r).

Definition isToken (r : AssetRegistry) (assetKey : string) : bool :=
  match token r assetKey with Some _ => true | None => false end.

Definition isAllowed (r : AssetRegistry) (assetKey : string) : bool :=
  bool_decide (assetKey = nativeKey r) || isToken r assetKey.

Definition symbolOf (r : AssetRegistry) (assetKey : string) : string :=
  if bool_decide (assetKey = nativeKey r) then NATIVE_ASSET_KEY
  else match token r assetKey with Some t => symbol t | None => assetKey end.

Definition decimalsOf (r : AssetRegistry) (assetKey : string) : Z :=
  if bool_decide (assetKey = nativeKey r) then nativeDecimals r
  else match token r assetKey with Some t => decimals t | None => nativeDecimals r end.

(** ** Lemmas *)

Lemma cluster_of_name_name c : cluster_of_name (cluster_name c) = Some c.
Proof. by destruct c. Qed.

Lemma cluster_of_name_Some s c : cluster_of_name s = Some c -> s = cluster_name c.
Proof.
  unfold cluster_of_name. intros H. apply head_Some_elem_of, list_elem_of_filter in H as [? _].
  done.
Qed.

Lemma cluster_name_no_separator c : str_includes SEPARATOR (cluster_name c) = false.
Proof. by destruct c. Qed.

Lemma ledgerAssetKey_Ok c a k :
  ledgerAssetKey c a = Ok k <->
  str_includes SEPARATOR a = false /\ k = cluster_name c +:+ String SEPARATOR a.
Proof. unfold ledgerAssetKey. destruct (str_includes _ _); naive_solver. Qed.

Lemma split_cluster_key c a :
  split_first SEPARATOR (cluster_name c +:+ String SEPARATOR a) = Some (cluster_name c, a).
Proof. apply split_first_app, cluster_name_no_separator. Qed.

Lemma parseLedgerAssetKey_Ok k c a :
  parseLedgerAssetKey k = Ok (c, a) <-> k = cluster_name c +:+ String SEPARATOR a /\ a <> "".
Proof.
  unfold parseLedgerAssetKey. split.
  - destruct (split_first SEPARATOR k) as [[l r]|] eqn:E; [|done].
    apply split_first_Some in E as [-> _].
    destruct (cluster_of_name l) as [c'|] eqn:E; [|done]. apply cluster_of_name_Some in E as ->.
    case_bool_decide; [done|]. intros [= <- <-]. done.
  - intros [-> Hne]. rewrite split_cluster_key, cluster_of_name_name.
    by rewrite bool_decide_eq_false_2.
Qed.

Lemma prefix_cluster c c' a :
  assetKeyInCluster (cluster_name c +:+ String SEPARATOR a) c' = bool_decide (c = c').
Proof. destruct c, c'; try reflexivity; destruct a; reflexivity. Qed.

Lemma jset_fold_keys {V} (kts : list (string * V)) m k :
  k ∈ (fold_left (fun m kt => jset kt.1 kt.2 m) kts m).*1 <-> k ∈ m.*1 \/ k ∈ kts.*1.
Proof.
  revert m. induction kts as [|[k' v] kts IH]; intros m; simpl; [set_solver|].
  rewrite IH, jset_keys. set_solver.
Qed.

Lemma base58_no_separator s :
  base58_address s = true -> str_includes SEPARATOR s = false.
Proof.
  unfold base58_address. intros [_ H]%andb_true_iff. revert H.
  induction s as [|a s IH]; simpl; [done|]. intros [Ha Hs]%andb_true_iff.
  rewrite (IH Hs), orb_false_r. apply bool_decide_eq_false. intros ->. done.
Qed.

(** ** Properties *)

(** The ledger asset key round-trips: qualifying a non-empty asset and parsing the key
    gives back the cluster and the asset, and a key that parses is the qualified form of
    what it parses to, up to a colon inside the asset, which qualifying refuses. *)
Theorem asset_key_roundtrip :
  (forall c a k, ledgerAssetKey c a = Ok k -> a <> "" -> parseLedgerAssetKey k = Ok (c, a)) /\
  (forall k c a, parseLedgerAssetKey k = Ok (c, a) ->
     ledgerAssetKey c a = Ok k \/ (str_includes SEPARATOR a = true /\ ledgerAssetKey c a = Throw TypeError)) /\
  (forall c, clusterFromChainId (chainId c) = Ok c).
Proof.
  split; [|split].
  - intros c a k [_ ->]%ledgerAssetKey_Ok Hne. by apply parseLedgerAssetKey_Ok.
  - intros k c a [-> Hne]%parseLedgerAssetKey_Ok. unfold ledgerAssetKey.
    destruct (str_includes SEPARATOR a); auto.
  - by intros [].
Qed.

(** A registry speaks only of its own cluster. Whatever tokens it is built from, the
    keys it lists are exactly the keys it allows, every allowed key belongs to its
    cluster and to no other, and registries of two clusters share no key. *)
Theorem registry_single_cluster c d ts r :
  createAssetRegistry c d ts = Ok r ->
  (forall k, isAllowed r k = true <-> k ∈ keys r) /\
  (forall k c', isAllowed r k = true -> assetKeyInCluster k c' = bool_decide (c = c')) /\
  (forall c' d' ts' r' k, c <> c' -> createAssetRegistry c' d' ts' = Ok r' ->
     isAllowed r k = true -> isAllowed r' k = false).
Proof.
  assert (Hkeys : forall c d ts r, createAssetRegistry c d ts = Ok r ->
            forall k, isAllowed r k = true <-> k ∈ keys r).
  { clear. intros c d ts r Hr k. unfold createAssetRegistry in Hr. inv_ok.
    unfold isAllowed, isToken, token. simpl. rewrite elem_of_cons, orb_true_iff, bool_decide_eq_true.
    apply or_iff_compat_l. apply map_result_length in H0. rename x0 into qs.
    assert (Hk : k ∈ qs <-> k ∈ (fold_left (fun m kt => jset kt.1 kt.2 m) (zip qs ts) []).*1).
    { rewrite jset_fold_keys, fst_zip by lia. set_solver. }
    rewrite Hk. destruct (jget k _) eqn:E; split; try done.
    - intros _. destruct (decide (k ∈ (fold_left (fun m kt => jset kt.1 kt.2 m) (zip qs ts) []).*1));
        [done|]. apply jget_None in n. congruence.
    - intros Hin. by apply jget_None in E. }
  assert (Hshape : forall c d ts r k, createAssetRegistry c d ts = Ok r -> k ∈ keys r ->
            exists a, k = cluster_name c +:+ String SEPARATOR a).
  { clear. intros c d ts r k Hr Hk. unfold createAssetRegistry in Hr. inv_ok. simpl in Hk.
    apply elem_of_cons in Hk as [->|Hk].
    - apply ledgerAssetKey_Ok in H as [_ ->]. by eexists.
    - apply (map_result_elem _ _ _ k) in H0. apply H0 in Hk as (t & _ & [_ ->]%ledgerAssetKey_Ok).
      by eexists. }
  intros Hr. split; [eauto|split].
  - intros k c' Hk. apply (Hkeys _ _ _ _ Hr) in Hk.
    destruct (Hshape _ _ _ _ _ Hr Hk) as [a ->]. apply prefix_cluster.
  - intros c' d' ts' r' k Hne Hr' Hk. destruct (isAllowed r' k) eqn:E; [|done]. exfalso.
    apply (Hkeys _ _ _ _ Hr) in Hk. apply (Hkeys _ _ _ _ Hr') in E.
    destruct (Hshape _ _ _ _ _ Hr Hk) as [a Ha], (Hshape _ _ _ _ _ Hr' E) as [a' Ha'].
    rewrite Ha in Ha'. apply (f_equal (split_first SEPARATOR)) in Ha'.
    rewrite !split_cluster_key in Ha'. by destruct c, c'.
Qed.

(** A configured token list that parses always builds a registry (no entry can carry a
    colon into a key), with a token per entry whose decimals are between 0 and 18. *)
Theorem token_list_builds_registry value ts c d :
  tokenAssetSchema value = Ok ts ->
  (exists r, createAssetRegistry c d ts = Ok r) /\
  Forall (fun t => 0 <= decimals t <= MAX_DECIMALS /\ symbol t <> "") ts.
Proof.
  unfold tokenAssetSchema. destruct (forallb token_entry_ok _) eqn:E; [|done]. intros [= <-].
  set (es := filter _ _) in *. rewrite forallb_forall in E.
  assert (Hone : forall t, t ∈ map token_of_entry es ->
            base58_address (mint t) = true /\ 0 <= decimals t <= MAX_DECIMALS /\ symbol t <> "").
  { intros t (e & -> & He)%list_elem_of_fmap. specialize (E e (proj1 (list_elem_of_In _ _) He)).
    unfold token_entry_ok in E. unfold token_of_entry.
    destruct (split_on SEPARATOR e) as [|sy [|mi [|de [|]]]]; try done. simpl.
    zbool. repeat split; try done.
    eapply digits_value_bounds, Forall_forall. intros x Hx%list_elem_of_In.
    by eapply forallb_forall in Hx. }
  split.
  - unfold createAssetRegistry. rewrite (proj2 (ledgerAssetKey_Ok c NATIVE_ASSET_KEY _) (conj eq_refl eq_refl)).
    destruct (map_result_total (fun t => ledgerAssetKey c (mint t)) (map token_of_entry es)) as [ys Hys].
    { intros t [Hm _]%Hone. eexists. apply ledgerAssetKey_Ok. split; [|done].
      by apply base58_no_separator. }
    simpl. rewrite Hys. by eexists.
  - apply Forall_forall. intros t Ht. by apply Hone in Ht as [_ ?].
Qed.

(** ** Witnesses *)

Definition usdc : TokenAsset :=
  mkTokenAsset "USDC" "EPjFWdd5AufqSSqeM2qN1xzybapC8G4wEGGkZwyTDt1v" 6.

Lemma registry_single_cluster_witness :
  exists r, createAssetRegistry devnet 9 [usdc] = Ok r /\
    isAllowed r "devnet:SOL" = true /\
    assetKeyInCluster "devnet:SOL" testnet = bool_decide (devnet = testnet).
Proof.
  eexists. split; [reflexivity|]. split; [reflexivity|].
  apply (registry_single_cluster devnet 9 [usdc] _ eq_refl). reflexivity.
Defined.

Lemma token_list_builds_registry_witness :
  exists ts, tokenAssetSchema " USDC:EPjFWdd5AufqSSqeM2qN1xzybapC8G4wEGGkZwyTDt1v:6 ,," = Ok ts /\
    ts = [usdc] /\ exists r, createAssetRegistry devnet 9 ts = Ok r.
Proof.
  eexists. split; [vm_compute; reflexivity|]. split; [reflexivity|].
  eapply (token_list_builds_registry " USDC:EPjFWdd5AufqSSqeM2qN1xzybapC8G4wEGGkZwyTDt1v:6 ,,").
  vm_compute. reflexivity.
Defined.
