(* ===== verification/Price.v ===== *)
(** * Fixed-point price arithmetic

    The arithmetic of [packages/types/src/price.ts]. A price is scaled by
    [PRICE_SCALE]; a notional and a fee are in quote base units. A bigint is a
    [Z]; its division truncates toward zero ([Z.quot]) and its remainder takes
    the dividend's sign ([Z.rem]). *)

From S2P Require Import Prelude Decimal.
From Stdlib Require Import ZArith Lia.
From stdpp Require Import base list.

Open Scope Z_scope.

Definition PRICE_SCALE : Z := 1000000000.
Definition BPS_DENOMINATOR : Z := 10000.

Definition asPrice (value : text) : result text := _ ← parseUnsigned value; Ok value.
Definition asQty (value : text) : result text := _ ← parseUnsigned value; Ok value.

Definition notional (price qty : Z) : result Z :=
  if (price <? 0) || (qty <? 0) then Throw RangeError else
  let value := Z.quot (price * qty) PRICE_SCALE in
  if value >? MAX_U64 then Throw RangeError else Ok value.

Definition feeAmount (notionalValue bps : Z) : result Z :=
  if bps <? 0 then Throw RangeError
  else if notionalValue <? 0 then Throw RangeError
  else Ok (Z.quot (notionalValue * bps) BPS_DENOMINATOR).

Definition isMultipleOf (value step : Z) : result bool :=
  if step <=? 0 then Throw RangeError else Ok (Z.rem value step =? 0).

(** ** Lemmas *)

(** The notional of operands that cannot overflow. *)
Definition notional_value (price qty : Z) : Z := price * qty / PRICE_SCALE.

Definition fee_value (notionalValue bps : Z) : Z := notionalValue * bps / BPS_DENOMINATOR.

Lemma notional_Ok p q v :
  notional p q = Ok v <-> 0 <= p /\ 0 <= q /\ v = notional_value p q /\ v <= MAX_U64.
Proof.
  unfold notional, notional_value.
  destruct (Z.ltb_spec p 0), (Z.ltb_spec q 0); simpl;
    try (split; [done|intros (? & ? & _); lia]).
  rewrite quot_nonneg by (unfold PRICE_SCALE; lia || nia).
  destruct (Z.gtb_spec (p * q / PRICE_SCALE) MAX_U64).
  - split; [done|intros (_ & _ & -> & ?); lia].
  - split; [intros [= <-]; done|intros (_ & _ & -> & _); done].
Qed.

Lemma notional_Throw p q e :
  notional p q = Throw e -> e = RangeError /\ (p < 0 \/ q < 0 \/ MAX_U64 < notional_value p q).
Proof.
  unfold notional, notional_value.
  destruct (Z.ltb_spec p 0), (Z.ltb_spec q 0); simpl; try (intros [= <-]; auto; fail).
  rewrite quot_nonneg by (unfold PRICE_SCALE; lia || nia).
  destruct (Z.gtb_spec (p * q / PRICE_SCALE) MAX_U64); [|done]. intros [= <-]. auto.
Qed.

Lemma notional_value_nonneg p q : 0 <= p -> 0 <= q -> 0 <= notional_value p q.
Proof. intros. apply Z.div_pos; [nia|done]. Qed.

Lemma notional_value_mono p p' q q' :
  0 <= p <= p' -> 0 <= q <= q' -> notional_value p q <= notional_value p' q'.
Proof. intros. apply div_mono; [done|nia]. Qed.

Lemma notional_value_add p q q' :
  notional_value p q + notional_value p q' <= notional_value p (q + q').
Proof. unfold notional_value. rewrite Z.mul_add_distr_l. by apply div_superadditive. Qed.

Lemma feeAmount_Ok n b v :
  feeAmount n b = Ok v <-> 0 <= b /\ 0 <= n /\ v = fee_value n b.
Proof.
  unfold feeAmount, fee_value. destruct (Z.ltb_spec b 0), (Z.ltb_spec n 0); simpl;
    try (split; [done|intros (? & ? & _); lia]).
  rewrite quot_nonneg by (unfold BPS_DENOMINATOR; lia || nia).
  split; [intros [= <-]; done|intros (_ & _ & ->); done].
Qed.

Lemma fee_value_nonneg n b : 0 <= n -> 0 <= b -> 0 <= fee_value n b.
Proof. intros. apply Z.div_pos; [nia|done]. Qed.

Lemma fee_value_mono n n' b b' :
  0 <= n <= n' -> 0 <= b <= b' -> fee_value n b <= fee_value n' b'.
Proof. intros. apply div_mono; [done|nia]. Qed.

Lemma fee_value_add n n' b : fee_value n b + fee_value n' b <= fee_value (n + n') b.
Proof. unfold fee_value. rewrite Z.mul_add_distr_r. by apply div_superadditive. Qed.

Lemma fee_value_le n b : 0 <= n -> 0 <= b <= BPS_DENOMINATOR -> fee_value n b <= n.
Proof.
  intros Hn Hb. unfold fee_value. apply Z.div_le_upper_bound; [done|]. nia.
Qed.

Lemma isMultipleOf_true v s :
  isMultipleOf v s = Ok true <-> 0 < s /\ exists k, v = k * s.
Proof.
  unfold isMultipleOf. destruct (Z.leb_spec s 0); [split; [done|lia]|]. split.
  - intros [= H0%Z.eqb_eq]. split; [done|]. exists (Z.quot v s).
    pose proof (Z.quot_rem' v s). lia.
  - intros [_ [k ->]]. do 2 f_equal. apply Z.eqb_eq, Z.rem_mul. lia.
Qed.

#[export] Hint Resolve notional_value_nonneg notional_value_mono notional_value_add
  fee_value_nonneg fee_value_mono fee_value_add : wallet.

(** ** Properties *)

(** A notional that is returned is the exact product rounded down once: it is within one
    quote unit below the real value and fits an unsigned 64-bit integer; and every
    refusal is of a negative operand or of a value that does not fit. *)
Theorem notional_rounds_down_once p q :
  match notional p q with
  | Ok v => 0 <= v <= MAX_U64 /\ v * PRICE_SCALE <= p * q < (v + 1) * PRICE_SCALE
  | Throw e => e = RangeError /\ (p < 0 \/ q < 0 \/ (MAX_U64 + 1) * PRICE_SCALE <= p * q)
  end.
Proof.
  destruct (notional p q) as [v|e] eqn:E.
  - apply notional_Ok in E as (Hp & Hq & -> & Hmax). split.
    + split; [by apply notional_value_nonneg|done].
    + unfold notional_value. pose proof (Z.div_mod (p * q) PRICE_SCALE ltac:(done)).
      pose proof (Z.mod_pos_bound (p * q) PRICE_SCALE ltac:(done)). lia.
  - apply notional_Throw in E as [-> H]. split; [done|]. destruct H as [?|[?|H]]; auto.
    right; right. unfold notional_value in H.
    pose proof (Z.mul_div_le (p * q) PRICE_SCALE ltac:(done)). unfold PRICE_SCALE in *. lia.
Qed.
