(* ===== verification/Market.v ===== *)
(** * Market definitions

    [packages/types/src/market.ts]: the statuses, the identifier and the
    construction that refuses an incoherent market. *)

From S2P Require Import Prelude Decimal Assets Price.
From Stdlib Require Import ZArith Lia Ascii.
From stdpp Require Import base list strings.

Open Scope string_scope.
Open Scope list_scope.
Open Scope Z_scope.

Inductive MarketStatus := pre_open | open | post_only | halted.

#[export] Instance MarketStatus_eq_dec : EqDecision MarketStatus.
Proof. solve_decision. Defined.

Definition PLACEABLE_STATUSES : list MarketStatus := [open; post_only].

(** The class [[A-Z0-9]]. *)
Definition symbol_char (a : ascii) : bool :=
  ((65 <=? code a) && (code a <=? 90)) || is_digit a.

(** [SYMBOL_PATTERN.test(s)] *)
Definition symbol_pattern (s : string) : bool :=
  match span symbol_char (text_of s) with
  | (_ :: _, a :: quote) =>
      bool_decide (a = minus_char) && negb (bool_decide (quote = [])) && forallb symbol_char quote
  | _ => false
  end.

Definition marketId (cluster : Cluster) (symbol : string) : result string :=
  if symbol_pattern symbol then Ok (cluster_name cluster +:+ String SEPARATOR symbol)
  else Throw TypeError.

Definition parseMarketId (value : string) : result (Cluster * string) :=
  match split_first SEPARATOR value with
  | None | Some ("", _) => Throw TypeError
  | Some (c, symbol) =>
      match cluster_of_name c with
      | None => Throw TypeError
      | Some cluster => if symbol_pattern symbol then Ok (cluster, symbol) else Throw TypeError
      end
  end.

Record Market := mkMarket {
  id : string;
  cluster : Cluster;
  market_symbol : string;
  baseAsset : string;
  quoteAsset : string;
  tickSize : Z;
  lotSize : Z;
  minNotional : Z;
  collarBps : Z;
  status : MarketStatus
}.

Record MarketDefinition := mkMarketDefinition {
  def_cluster : Cluster;
  def_symbol : string;
  def_baseAsset : string;
  def_quoteAsset : string;
  def_tickSize : text;
  def_lotSize : text;
  def_minNotional : text;
  def_collarBps : Z;
  def_status : option MarketStatus
}.

(** The value of a digit in a radix up to 16, for [BigInt('0x..')]. *)
Definition radix_digit (radix : Z) (a : ascii) : option Z :=
  let n := code a in
  let v := if is_digit a then n - 48
           else if (97 <=? n) && (n <=? 102) then n - 87
           else if (65 <=? n) && (n <=? 70) then n - 55 else 99 in
  if v <? radix then Some v else None.

Definition radix_value (radix : Z) (s : text) : result Z :=
  match s with
  | [] => Throw (GenericError "SyntaxError")
  | _ => fold_left (fun acc a => acc ≫= fun v =>
           match radix_digit radix a with
           | Some d => Ok (v * radix + d)
           | None => Throw (GenericError "SyntaxError")
           end) s (Ok 0)
  end.

(** [BigInt(s)] on an arbitrary string. *)
Definition js_BigInt (s : text) : result Z :=
  match trim s with
  | [] => Ok 0
  | (a :: s') as t =>
      if code a =? 45 then v ← radix_value 10 s'; Ok (- v)
      else if code a =? 43 then radix_value 10 s'
      else match t with
      | z :: x :: r =>
          if (code z =? 48) && ((code x =? 120) || (code x =? 88)) then radix_value 16 r
          else if (code z =? 48) && ((code x =? 111) || (code x =? 79)) then radix_value 8 r
          else if (code z =? 48) && ((code x =? 98) || (code x =? 66)) then radix_value 2 r
          else radix_value 10 t
      | _ => radix_value 10 t
      end
  end.

Definition createMarket (definition : MarketDefinition) : result Market :=
  base ← parseLedgerAssetKey (def_baseAsset definition);
  quote ← parseLedgerAssetKey (def_quoteAsset definition);
  let c := def_cluster definition in
  _ ← throw_if (negb (bool_decide (base.1 = c)) || negb (bool_decide (quote.1 = c))) TypeError;
  _ ← throw_if (bool_decide (def_baseAsset definition = def_quoteAsset definition)) TypeError;
  tickSize ← asPrice (def_tickSize definition);
  lotSize ← asQty (def_lotSize definition);
  minNotional ← js_BigInt (def_minNotional definition);
  _ ← throw_if (big_int tickSize <=? 0) TypeError;
  _ ← throw_if (big_int lotSize <=? 0) TypeError;
  _ ← throw_if (minNotional <=? 0) TypeError;
  _ ← throw_if (def_collarBps definition <=? 0) TypeError;
  id ← marketId c (def_symbol definition);
  Ok (mkMarket id c (def_symbol definition) (def_baseAsset definition) (def_quoteAsset definition)
        (big_int tickSize) (big_int lotSize) minNotional (def_collarBps definition)
        (default pre_open (def_status definition))).

(** What every other component may assume of a market. *)
Record market_wf (m : Market) : Prop := {
  wf_base : assetKeyInCluster (baseAsset m) (cluster m) = true;
  wf_quote : assetKeyInCluster (quoteAsset m) (cluster m) = true;
  wf_assets : baseAsset m <> quoteAsset m;
  wf_tick : 0 < tickSize m <= MAX_U64;
  wf_lot : 0 < lotSize m <= MAX_U64;
  wf_minNotional : 0 < minNotional m;
  wf_collar : 0 < collarBps m
}.

(** ** Lemmas *)

Lemma parseUnsigned_Ok s v :
  parseUnsigned s = Ok v -> unsigned_integer s = true /\ v = digits_value s /\ 0 <= v <= MAX_U64.
Proof.
  unfold parseUnsigned. destruct (unsigned_integer s) eqn:E; [|done]. simpl.
  destruct (Z.gtb_spec (digits_value s) MAX_U64); [done|]. intros [= <-].
  pose proof (digits_value_bounds s (unsigned_integer_digits s E)). lia.
Qed.

Lemma big_int_unsigned s : unsigned_integer s = true -> big_int s = digits_value s.
Proof.
  intros Hu. pose proof (unsigned_integer_digits s Hu) as Hd. destruct s as [|a s]; [done|].
  apply Forall_cons in Hd as [Ha _]. simpl. by rewrite nonzero_digit_not_minus.
Qed.

Lemma asPrice_bounds s t : asPrice s = Ok t -> 0 <= big_int t <= MAX_U64.
Proof.
  unfold asPrice. intros H. inv_ok. apply parseUnsigned_Ok in H as (Hu & -> & Hb).
  by rewrite big_int_unsigned.
Qed.

(** ** Lemmas: [BigInt] of a string *)

Lemma radix_value_digits s : s <> [] -> Forall (fun a => is_digit a = true) s -> radix_value 10 s = Ok (digits_value s).
Proof.
  intros Hne Hs. unfold radix_value, digits_value. destruct s as [|a s]; [done|]. clear Hne.
  revert Hs. generalize 0 as acc. generalize (a :: s) as t. clear a s.
  induction t as [|a t IH]; intros acc Ht; [done|]. apply Forall_cons in Ht as [Ha Ht]. simpl.
  rewrite <- IH by done. f_equal. unfold radix_digit. rewrite Ha. unfold is_digit in Ha. zbool.
  assert ((code a - 48 <? 10) = true) as -> by (apply Z.ltb_lt; lia). done.
Qed.

Lemma js_BigInt_of_digits t :
  t <> [] -> Forall (fun a => is_digit a = true) t -> js_BigInt t = Ok (digits_value t).
Proof.
  intros Hne Hs. unfold js_BigInt. rewrite trim_id.
  2: { eapply Forall_impl; [exact Hs|]. apply digit_not_space. }
  assert (Hr := radix_value_digits _ Hne Hs). destruct t as [|a t]; [done|].
  apply Forall_cons in Hs as [Ha Ht]. unfold is_digit in Ha. zbool.
  rewrite (proj2 (Z.eqb_neq _ 45)), (proj2 (Z.eqb_neq (code a) 43)) by lia. destruct t as [|x r]; [done|].
  apply Forall_cons in Ht as [Hx _]. unfold is_digit in Hx. zbool.
  repeat match goal with |- context [code x =? ?n] => rewrite (proj2 (Z.eqb_neq (code x) n)) by lia end.
  by rewrite !andb_false_r.
Qed.

(** A minus and digits. *)
Lemma js_BigInt_negative t :
  t <> [] -> Forall (fun a => is_digit a = true) t -> js_BigInt (minus_char :: t) = Ok (- digits_value t).
Proof.
  intros Hne Hs. unfold js_BigInt. rewrite trim_id.
  2: { constructor; [done|]. eapply Forall_impl; [exact Hs|]. apply digit_not_space. }
  change (code minus_char =? 45) with true. cbv iota. by rewrite radix_value_digits.
Qed.

(** ** Properties *)

(** A market that is constructed is coherent: two different assets of the market's own
    cluster, a positive tick and lot that fit 64 bits, a positive minimum notional and
    collar, an identifier that parses back to its cluster and symbol, and the status
    asked for, not yet trading by default. *)
Theorem createMarket_coherent d m :
  createMarket d = Ok m ->
  market_wf m /\
  parseMarketId (id m) = Ok (cluster m, market_symbol m) /\
  (def_status d = None -> status m = pre_open) /\
  (forall s, def_status d = Some s -> status m = s).
Proof.
  unfold createMarket. intros H. inv_ok.
  destruct x as [bc ba], x0 as [qc qa].
  repeat match goal with H : parseLedgerAssetKey _ = Ok _ |- _ =>
    apply parseLedgerAssetKey_Ok in H as [? ?] end.
  simpl in *. zbool. subst.
  match goal with H : asPrice _ = _ |- _ => apply asPrice_bounds in H end.
  match goal with H : asQty _ = _ |- _ => apply asPrice_bounds in H end.
  match goal with H : marketId _ _ = _ |- _ => rename H into Hid end.
  unfold marketId in Hid. destruct (symbol_pattern (def_symbol d)) eqn:Es; [|done]. inv_ok.
  split; [|split].
  - split; simpl; try lia; try done.
    + match goal with H : def_baseAsset d = _ |- _ => rewrite H end.
      rewrite prefix_cluster. by apply bool_decide_eq_true.
    + match goal with H : def_quoteAsset d = _ |- _ => rewrite H end.
      rewrite prefix_cluster. by apply bool_decide_eq_true.
  - simpl. unfold parseMarketId. rewrite split_cluster_key, cluster_of_name_name, Es.
    by destruct (def_cluster d).
  - simpl. split; [by intros ->|by intros s ->].
Qed.

(** ** Witnesses *)

Definition sol_usdc_definition : MarketDefinition :=
  mkMarketDefinition devnet "SOL-USDC" "devnet:SOL" "devnet:USDCmint"
    (text_of "1000") (text_of "10000000") (text_of "1000000") 1000 (Some open).

Lemma createMarket_coherent_witness :
  exists m, createMarket sol_usdc_definition = Ok m /\ market_wf m /\
    parseMarketId (id m) = Ok (cluster m, market_symbol m).
Proof.
  eexists. split; [vm_compute; reflexivity|].
  destruct (createMarket_coherent sol_usdc_definition _ ltac:(vm_compute; reflexivity)) as (Hwf & Hid & _).
  split; [exact Hwf|exact Hid].
Defined.
