(* ===== verification/States.v ===== *)
(** * The order and withdrawal state machines

    [packages/types/src/order-states.ts] and
    [packages/types/src/withdrawal-states.ts]: the transition tables, the sets the
    other components read and the paths they allow. *)

From S2P Require Import Prelude.
From stdpp Require Import base list relations gmap.

(** ** [order-states.ts] *)

Module Order.
Inductive OrderStatus :=
| PENDING_ENGINE | OPEN | PARTIALLY_FILLED | PENDING_CANCEL
| FILLED | CANCELLED | REJECTED | EXPIRED | FAILED.

#[global] Instance OrderStatus_eq_dec : EqDecision OrderStatus.
Proof. solve_decision. Defined.

Definition ORDER_STATUSES : list OrderStatus :=
  [PENDING_ENGINE; OPEN; PARTIALLY_FILLED; PENDING_CANCEL;
   FILLED; CANCELLED; REJECTED; EXPIRED; FAILED].

Definition ORDER_TRANSITIONS (from : OrderStatus) : list OrderStatus :=
  match from with
  | PENDING_ENGINE => [OPEN; PARTIALLY_FILLED; FILLED; REJECTED; EXPIRED; FAILED]
  | OPEN => [PARTIALLY_FILLED; FILLED; PENDING_CANCEL; CANCELLED; EXPIRED]
  | PARTIALLY_FILLED => [FILLED; PENDING_CANCEL; CANCELLED; EXPIRED]
  | PENDING_CANCEL => [CANCELLED; FILLED; PARTIALLY_FILLED; EXPIRED]
  | FILLED | CANCELLED | REJECTED | EXPIRED | FAILED => []
  end.

Definition TERMINAL_ORDER_STATUSES : list OrderStatus :=
  [FILLED; CANCELLED; REJECTED; EXPIRED; FAILED].

Definition HOLDING_ORDER_STATUSES : list OrderStatus :=
  [PENDING_ENGINE; OPEN; PARTIALLY_FILLED; PENDING_CANCEL].

Definition canOrderTransition (from to : OrderStatus) : bool :=
  bool_decide (to ∈ ORDER_TRANSITIONS from).

Definition isTerminalOrder (s : OrderStatus) : bool :=
  bool_decide (s ∈ TERMINAL_ORDER_STATUSES).

Definition orderHoldsFunds (s : OrderStatus) : bool :=
  bool_decide (s ∈ HOLDING_ORDER_STATUSES).

Definition allOrderTransitions : list (OrderStatus * OrderStatus) :=
  from ← ORDER_STATUSES; map (fun to => (from, to)) (ORDER_TRANSITIONS from).

(** One legal move. *)
Definition step (from to : OrderStatus) : Prop := canOrderTransition from to = true.
End Order.

(** ** [withdrawal-states.ts] *)

Module Withdrawal.
Inductive WithdrawalStatus :=
| REQUESTED | RISK_EVALUATING | MANUAL_REVIEW | APPROVED | FUNDS_LOCKED | SIGNING | SIGNED
| BROADCAST | CONFIRMED | SETTLED | SIGN_FAILED | BROADCAST_FAILED | EXPIRED | REJECTED | FAILED.

#[global] Instance WithdrawalStatus_eq_dec : EqDecision WithdrawalStatus.
Proof. solve_decision. Defined.

Definition WITHDRAWAL_STATUSES : list WithdrawalStatus :=
  [REQUESTED; RISK_EVALUATING; MANUAL_REVIEW; APPROVED; FUNDS_LOCKED; SIGNING; SIGNED;
   BROADCAST; CONFIRMED; SETTLED; SIGN_FAILED; BROADCAST_FAILED; EXPIRED; REJECTED; FAILED].

Definition WITHDRAWAL_TRANSITIONS (from : WithdrawalStatus) : list WithdrawalStatus :=
  match from with
  | REQUESTED => [RISK_EVALUATING]
  | RISK_EVALUATING => [APPROVED; MANUAL_REVIEW; REJECTED]
  | MANUAL_REVIEW => [APPROVED; REJECTED]
  | APPROVED => [FUNDS_LOCKED; REJECTED]
  | FUNDS_LOCKED => [SIGNING; REJECTED; FAILED]
  | SIGNING => [SIGNED; SIGN_FAILED]
  | SIGNED => [BROADCAST]
  | BROADCAST => [CONFIRMED; BROADCAST_FAILED; EXPIRED]
  | CONFIRMED => [SETTLED]
  | SIGN_FAILED => [FUNDS_LOCKED; FAILED]
  | BROADCAST_FAILED => [FUNDS_LOCKED; FAILED]
  | EXPIRED => [FUNDS_LOCKED; FAILED]
  | SETTLED | REJECTED | FAILED => []
  end.

Definition TERMINAL_WITHDRAWAL_STATUSES : list WithdrawalStatus := [SETTLED; REJECTED; FAILED].

Definition LOCKED_WITHDRAWAL_STATUSES : list WithdrawalStatus :=
  [FUNDS_LOCKED; SIGNING; SIGNED; BROADCAST; CONFIRMED; SIGN_FAILED; BROADCAST_FAILED; EXPIRED].

Definition IN_FLIGHT_WITHDRAWAL_STATUSES : list WithdrawalStatus :=
  [BROADCAST; BROADCAST_FAILED; EXPIRED].

Definition canTransition (from to : WithdrawalStatus) : bool :=
  bool_decide (to ∈ WITHDRAWAL_TRANSITIONS from).

Definition isTerminal (s : WithdrawalStatus) : bool :=
  bool_decide (s ∈ TERMINAL_WITHDRAWAL_STATUSES).

Definition holdsLock (s : WithdrawalStatus) : bool :=
  bool_decide (s ∈ LOCKED_WITHDRAWAL_STATUSES).

Definition allTransitions : list (WithdrawalStatus * WithdrawalStatus) :=
  from ← WITHDRAWAL_STATUSES; map (fun to => (from, to)) (WITHDRAWAL_TRANSITIONS from).

Definition step (from to : WithdrawalStatus) : Prop := canTransition from to = true.

(** A path of legal moves from [s], as the statuses visited in order. *)
Fixpoint path (s : WithdrawalStatus) (visited : list WithdrawalStatus) : bool :=
  match visited with
  | [] => true
  | t :: visited => canTransition s t && path t visited
  end.
End Withdrawal.

(** ** Lemmas *)

Lemma order_status_listed s : s ∈ Order.ORDER_STATUSES.
Proof. destruct s; unfold Order.ORDER_STATUSES; set_solver. Qed.

Lemma withdrawal_status_listed s : s ∈ Withdrawal.WITHDRAWAL_STATUSES.
Proof. destruct s; unfold Withdrawal.WITHDRAWAL_STATUSES; set_solver. Qed.

Lemma withdrawal_path_app s l1 t l2 :
  Withdrawal.path s (l1 ++ t :: l2) = true ->
  Withdrawal.path s (l1 ++ [t]) = true /\ Withdrawal.path t l2 = true.
Proof.
  revert s. induction l1 as [|u l1 IH]; intros s; simpl.
  - intros [-> ?]%andb_true_iff. done.
  - intros [-> H]%andb_true_iff. by apply IH in H.
Qed.

(** Entering the funds-locked set happens at [APPROVED] and leaving it happens to a
    terminal status. *)
Lemma withdrawal_lock_edges s t :
  Withdrawal.canTransition s t = true ->
  (Withdrawal.holdsLock s = false -> Withdrawal.holdsLock t = true ->
   s = Withdrawal.APPROVED /\ t = Withdrawal.FUNDS_LOCKED) /\
  (Withdrawal.holdsLock s = true -> Withdrawal.holdsLock t = false ->
   Withdrawal.isTerminal t = true).
Proof. destruct s, t; vm_compute; intros H; try discriminate H; split; intros; try done; split; done. Qed.

Lemma terminal_no_path s l :
  Withdrawal.isTerminal s = true -> Withdrawal.path s l = true -> l = [].
Proof. destruct l as [|t l]; [done|]. destruct s, t; done. Qed.

(** Before the lock a path stays among the statuses that precede it. *)
Lemma path_to_signing s l :
  Withdrawal.holdsLock s = false -> Withdrawal.path s (l ++ [Withdrawal.SIGNING]) = true ->
  Withdrawal.FUNDS_LOCKED ∈ l.
Proof.
  revert s. induction l as [|t l IH]; intros s Hs; simpl.
  - destruct s; done.
  - intros [Hst Hp]%andb_true_iff. destruct (Withdrawal.holdsLock t) eqn:Ht.
    + apply withdrawal_lock_edges in Hst as [H _]. destruct (H Hs Ht) as [_ ->]. set_solver.
    + apply elem_of_cons. right. by apply (IH t).
Qed.

(** A path from an unlocked status into the locked ones goes through [APPROVED]. *)
Lemma path_through_approved s l :
  Withdrawal.holdsLock s = false -> s <> Withdrawal.APPROVED ->
  Withdrawal.path s (l ++ [Withdrawal.SIGNING]) = true -> Withdrawal.APPROVED ∈ l.
Proof.
  revert s. induction l as [|t l IH]; intros s Hs Hne; simpl.
  - destruct s; done.
  - intros [Hst Hp]%andb_true_iff. apply elem_of_cons.
    destruct (decide (t = Withdrawal.APPROVED)) as [->|Hne']; [by left|right].
    destruct (Withdrawal.holdsLock t) eqn:Ht; [|by apply (IH t)].
    apply withdrawal_lock_edges in Hst as [H _]. by destruct (H Hs Ht) as [-> _].
Qed.

(** Holding funds is not being terminal. *)
Lemma order_machine_holds s :
  Order.orderHoldsFunds s = negb (Order.isTerminalOrder s) /\
  (Order.isTerminalOrder s = true <-> forall t, Order.canOrderTransition s t = false).
Proof.
  split; [by destruct s|]. split; [by intros H []; destruct s|].
  intros H. specialize (H Order.EXPIRED) as H1. specialize (H Order.FILLED) as H2. by destruct s.
Qed.

(** ** Properties *)

(** The order machine and the hold agree: every status is terminal or holds funds and
    never both, a terminal status has no successor, every non-terminal status can reach a terminal one
    in one step, no step returns to [PENDING_ENGINE], and the flat list given to the database
    trigger is exactly the transition relation. *)
Theorem order_machine_sound :
  (forall s, Order.orderHoldsFunds s = negb (Order.isTerminalOrder s)) /\
  (forall s, Order.isTerminalOrder s = true <-> forall t, Order.canOrderTransition s t = false) /\
  (forall s, Order.isTerminalOrder s = false ->
     exists t, Order.canOrderTransition s t = true /\ Order.isTerminalOrder t = true) /\
  (forall s, Order.canOrderTransition s Order.PENDING_ENGINE = false) /\
  (forall s t, (s, t) ∈ Order.allOrderTransitions <-> Order.canOrderTransition s t = true).
Proof.
  split; [intros s; apply order_machine_holds|]. split; [intros s; apply order_machine_holds|].
  split; [intros []; try done; exists Order.EXPIRED; done|]. split; [by intros []|].
  intros s t. unfold Order.allOrderTransitions, Order.canOrderTransition.
  rewrite bool_decide_eq_true, list_elem_of_bind. split.
  - intros (s' & (t' & [= -> ->] & ?)%list_elem_of_fmap & _). done.
  - intros H. exists s. split; [|apply order_status_listed]. apply list_elem_of_fmap. eauto.
Qed.

(** nothing is signed without a lock. On every path of legal moves from a requested
    withdrawal, signing is reached only after the funds were locked; the funds are locked
    only from an approved withdrawal; and they stop being locked only in a terminal
    status, after which nothing happens. *)
Theorem withdrawal_signing_needs_lock :
  (forall l, Withdrawal.path Withdrawal.REQUESTED (l ++ [Withdrawal.SIGNING]) = true ->
     Withdrawal.FUNDS_LOCKED ∈ l /\ Withdrawal.APPROVED ∈ l) /\
  (forall s t l, Withdrawal.holdsLock s = true -> Withdrawal.path s (t :: l) = true ->
     Withdrawal.holdsLock t = false -> Withdrawal.isTerminal t = true /\ l = []) /\
  (forall s t, (s, t) ∈ Withdrawal.allTransitions <-> Withdrawal.canTransition s t = true).
Proof.
  split; [|split].
  - intros l Hp. pose proof (path_to_signing Withdrawal.REQUESTED l eq_refl Hp) as Hl. split; [done|].
    by apply (path_through_approved Withdrawal.REQUESTED).
  - intros s t l Hs Hp Ht. simpl in Hp. apply andb_true_iff in Hp as [Hst Hp].
    assert (Hterm : Withdrawal.isTerminal t = true) by (by apply (withdrawal_lock_edges s t Hst)).
    split; [done|]. by apply (terminal_no_path t).
  - intros s t. unfold Withdrawal.allTransitions, Withdrawal.canTransition.
    rewrite bool_decide_eq_true, list_elem_of_bind. split.
    + intros (s' & (t' & [= -> ->] & ?)%list_elem_of_fmap & _). done.
    + intros H. exists s. split; [|apply withdrawal_status_listed]. apply list_elem_of_fmap. eauto.
Qed.
