(* ===== verification/Ledger.v ===== *)
(** * The double-entry ledger: accounts, entries and the transaction builder

    [packages/ledger/src/accounts.ts], [entries.ts], [transaction-builder.ts] and
    the arithmetic of [amount.ts]. *)

From S2P Require Import Prelude Decimal Assets.
From Stdlib Require Import ZArith Lia Ascii.
From stdpp Require Import base list strings gmap.

Open Scope string_scope.
Open Scope list_scope.
Open Scope Z_scope.

(** ** [amount.ts] *)

Definition isZero (a : Z) : bool := a =? 0.
Definition isPositive (a : Z) : bool := a >? 0.
Definition isNegative (a : Z) : bool := a <? 0.
Definition sum (amounts : list Z) : Z := zsum amounts.
Definition compare (a b : Z) : Z := if a <? b then -1 else if a >? b then 1 else 0.

(** ** [accounts.ts] *)

Inductive AccountType :=
| user_custody_available | user_custody_locked
| user_trading_available | user_order_locked | user_trading_locked
| clearing_assets | house_trading_fees
| chain_assets | house_fees | house_rent | external.

#[export] Instance AccountType_eq_dec : EqDecision AccountType.
Proof. solve_decision. Defined.

Definition account_type_name (t : AccountType) : string :=
  match t with
  | user_custody_available => "user_custody_available"
  | user_custody_locked => "user_custody_locked"
  | user_trading_available => "user_trading_available"
  | user_order_locked => "user_order_locked"
  | user_trading_locked => "user_trading_locked"
  | clearing_assets => "clearing_assets"
  | house_trading_fees => "house_trading_fees"
  | chain_assets => "chain_assets"
  | house_fees => "house_fees"
  | house_rent => "house_rent"
  | external => "external"
  end.

Inductive AccountClass := asset_class | liability | equity | contra.

#[export] Instance AccountClass_eq_dec : EqDecision AccountClass.
Proof. solve_decision. Defined.

Definition ACCOUNT_CLASS (t : AccountType) : AccountClass :=
  match t with
  | user_custody_available | user_custody_locked | user_trading_available
  | user_order_locked | user_trading_locked => liability
  | clearing_assets | chain_assets => asset_class
  | house_trading_fees | house_fees | house_rent => equity
  | external => contra
  end.

Definition NON_NEGATIVE_ACCOUNT_TYPES : list AccountType :=
  [user_custody_available; user_custody_locked; user_trading_available; user_order_locked;
   user_trading_locked; clearing_assets; house_trading_fees; chain_assets; house_rent; house_fees].

Definition USER_LIABILITY_ACCOUNT_TYPES : list AccountType :=
  [user_custody_available; user_custody_locked; user_trading_available; user_order_locked;
   user_trading_locked].

Definition TRADING_ACCOUNT_TYPES : list AccountType :=
  [user_trading_available; user_order_locked; user_trading_locked].

Definition CUSTODY_ACCOUNT_TYPES : list AccountType :=
  [user_custody_available; user_custody_locked].

Definition isTradingAccount (t : AccountType) : bool := bool_decide (t ∈ TRADING_ACCOUNT_TYPES).
Definition isCustodyAccount (t : AccountType) : bool := bool_decide (t ∈ CUSTODY_ACCOUNT_TYPES).
Definition isUserAccount (t : AccountType) : bool := bool_decide (t ∈ USER_LIABILITY_ACCOUNT_TYPES).

Record AccountRef := mkAccount {
  ownerId : option string;
  acc_asset : string;
  acc_type : AccountType
}.

#[export] Instance AccountRef_eq_dec : EqDecision AccountRef.
Proof. solve_decision. Defined.

Definition accountKey (ref : AccountRef) : string :=
  account_type_name (acc_type ref) +:+
  String SEPARATOR (default "-" (ownerId ref) +:+ String SEPARATOR (acc_asset ref)).

Definition sameAccount (a b : AccountRef) : bool :=
  bool_decide (acc_type a = acc_type b) && bool_decide (ownerId a = ownerId b) &&
  bool_decide (acc_asset a = acc_asset b).

Definition userCustodyAvailable (o a : string) := mkAccount (Some o) a user_custody_available.
Definition userCustodyLocked (o a : string) := mkAccount (Some o) a user_custody_locked.
Definition chainAssets (o a : string) := mkAccount (Some o) a chain_assets.
Definition houseChainAssets (a : string) := mkAccount None a chain_assets.
Definition houseFees (a : string) := mkAccount None a house_fees.
Definition houseRent (a : string) := mkAccount None a house_rent.
Definition userTradingAvailable (o a : string) := mkAccount (Some o) a user_trading_available.
Definition userOrderLocked (o a : string) := mkAccount (Some o) a user_order_locked.
Definition userTradingLocked (o a : string) := mkAccount (Some o) a user_trading_locked.
Definition clearingAssets (a : string) := mkAccount None a clearing_assets.
Definition houseTradingFees (a : string) := mkAccount None a house_trading_fees.
Definition externalAccount (a : string) := mkAccount None a external.

(** ** [entries.ts] *)

Inductive Direction := Debit | Credit.

#[export] Instance Direction_eq_dec : EqDecision Direction.
Proof. solve_decision. Defined.

Record Entry := mkEntry {
  account : AccountRef;
  asset : string;
  amount : Z;
  direction : Direction
}.

#[export] Instance Entry_eq_dec : EqDecision Entry.
Proof. solve_decision. Defined.

Definition signedAmount (e : Entry) : Z :=
  match direction e with Debit => amount e | Credit => - amount e end.

Inductive TransactionKind :=
| deposit | withdrawal_lock | withdrawal_release | withdrawal_settle | sweep | fee
| allocation | deallocation | order_hold | order_release | trade_settle | adjustment.

#[export] Instance TransactionKind_eq_dec : EqDecision TransactionKind.
Proof. solve_decision. Defined.

Record LedgerTransaction := mkTransaction {
  kind : TransactionKind;
  referenceType : string;
  referenceId : string;
  entries : list Entry
}.

#[export] Instance LedgerTransaction_eq_dec : EqDecision LedgerTransaction.
Proof. solve_decision. Defined.

Definition debit (a : AccountRef) (asset : string) (n : Z) : Entry := mkEntry a asset n Debit.
Definition credit (a : AccountRef) (asset : string) (n : Z) : Entry := mkEntry a asset n Credit.

(** ** [transaction-builder.ts] *)

Definition check_entry (e : Entry) : result unit :=
  _ ← throw_if (isNegative (amount e)) (InvalidEntryError "entry_amount_negative");
  _ ← throw_if (isZero (amount e)) (InvalidEntryError "entry_amount_zero");
  throw_if (negb (bool_decide (asset e = acc_asset (account e))))
    (InvalidEntryError "entry_asset_mismatch").

(** The cluster loop; its state is the cluster of the entries seen so far. *)
Fixpoint check_clusters (cluster : option Cluster) (es : list Entry) : result unit :=
  match es with
  | [] => Ok tt
  | e :: es =>
      match parseLedgerAssetKey (asset e) with
      | Throw _ => Throw (InvalidEntryError "entry_asset_not_cluster_qualified")
      | Ok (c, _) =>
          match cluster with
          | None => check_clusters (Some c) es
          | Some c0 =>
              if bool_decide (c = c0) then check_clusters cluster es
              else Throw (CrossClusterTransactionError (cluster_name c0) (cluster_name c))
          end
      end
  end.

(** The bucket loop: the signed amounts of each asset, in order. *)
Definition byAsset (es : list Entry) : list (string * list Z) :=
  fold_left (fun (m : list (string * list Z)) e =>
    match jget (asset e) m with
    | Some bucket => jset (asset e) (bucket ++ [signedAmount e]) m
    | None => jset (asset e) [signedAmount e] m
    end) es [].

Definition check_residual (b : string * list Z) : result unit :=
  let residual := sum b.2 in
  throw_if (negb (isZero residual)) (UnbalancedTransactionError b.1 residual).

Definition buildTransaction (input : LedgerTransaction) : result LedgerTransaction :=
  let es := entries input in
  _ ← throw_if (length es <? 2)%nat (InvalidEntryError "transaction_needs_two_entries");
  _ ← for_each check_entry es;
  _ ← check_clusters None es;
  _ ← for_each check_residual (byAsset es);
  Ok (mkTransaction (kind input) (referenceType input) (referenceId input) es).

Definition isBalanced (es : list Entry) : bool :=
  forallb isZero (group_sum asset signedAmount es).*2.

Definition accountsTouched (t : LedgerTransaction) : list AccountRef :=
  (fold_left (fun (m : list (string * AccountRef)) e => jset (accountKey (account e)) (account e) m) (entries t) []).*2.

(** ** What the builder promises *)

(** The net movement of the entries that satisfy a test, debits positive. *)
Definition net (p : Entry -> bool) (es : list Entry) : Z := sum_if p signedAmount es.

Definition of_asset (a : string) (e : Entry) : bool := bool_decide (asset e = a).

Definition entry_wf (e : Entry) : Prop := 0 < amount e /\ asset e = acc_asset (account e).

(** Every asset of the entries is qualified by one and the same cluster. *)
Definition single_cluster (es : list Entry) : Prop :=
  exists c, Forall (fun e => exists a, parseLedgerAssetKey (asset e) = Ok (c, a)) es.

Definition balanced (es : list Entry) : Prop := forall a, net (of_asset a) es = 0.

Record transaction_wf (es : list Entry) : Prop := {
  twf_two : (2 <= length es)%nat;
  twf_entries : Forall entry_wf es;
  twf_cluster : single_cluster es;
  twf_balanced : balanced es
}.

(** ** Lemmas *)

Lemma check_entry_Ok e u : check_entry e = Ok u <-> entry_wf e.
Proof.
  unfold check_entry, entry_wf, isNegative, isZero. destruct u. split.
  - intros H. inv_ok. zbool. split; [lia|done].
  - intros [Hp Ha]. destruct (Z.ltb_spec (amount e) 0), (Z.eqb_spec (amount e) 0); try lia.
    simpl. by rewrite bool_decide_eq_true_2.
Qed.

Lemma check_clusters_Some c es u :
  check_clusters (Some c) es = Ok u <->
  Forall (fun e => exists a, parseLedgerAssetKey (asset e) = Ok (c, a)) es.
Proof.
  destruct u. induction es as [|e es IH]; simpl; [split; [constructor|done]|].
  rewrite Forall_cons. destruct (parseLedgerAssetKey (asset e)) as [[c' a]|err].
  - case_bool_decide as Hc; subst.
    + rewrite IH. naive_solver.
    + split; [done|]. intros [[a' Ha] _]. congruence.
  - split; [done|]. by intros [[a' Ha] _].
Qed.

Lemma check_clusters_None es u :
  es <> [] -> check_clusters None es = Ok u <-> single_cluster es.
Proof.
  intros Hne. destruct es as [|e es]; [done|]. simpl. unfold single_cluster.
  destruct (parseLedgerAssetKey (asset e)) as [[c' a]|err] eqn:E.
  - rewrite check_clusters_Some. split.
    + intros H. exists c'. apply Forall_cons. eauto.
    + intros [c H]. apply Forall_cons in H as [[a' Ha] H]. rewrite E in Ha. by simplify_eq.
  - split; [done|]. intros [c H]. apply Forall_cons in H as [[a' Ha] H]. by rewrite E in Ha.
Qed.

Lemma jset_map {A B} (f : A -> B) k v (m : list (string * A)) :
  map (prod_map id f) (jset k v m) = jset k (f v) (map (prod_map id f) m).
Proof. induction m as [|[k' v'] m IH]; simpl; [done|]. case_decide; simpl; by rewrite ?IH. Qed.

Lemma jget_map {A B} (f : A -> B) k (m : list (string * A)) :
  jget k (map (prod_map id f) m) = f <$> jget k m.
Proof. induction m as [|[k' v'] m IH]; simpl; [done|]. by case_decide. Qed.

(** Summing the buckets is the running sum per asset. *)
Lemma byAsset_sums es : map (prod_map id sum) (byAsset es) = group_sum asset signedAmount es.
Proof.
  unfold byAsset, group_sum.
  change (@nil (string * Z)) with (map (prod_map id sum) (@nil (string * list Z))).
  generalize (@nil (string * list Z)).
  induction es as [|e es IH]; intros m; simpl; [done|]. rewrite IH. f_equal.
  unfold jadd. rewrite jget_map. destruct (jget (asset e) m) as [b|]; rewrite jset_map; simpl.
  - unfold sum. rewrite zsum_app, zsum_cons, zsum_nil. f_equal. lia.
  - unfold sum. rewrite zsum_cons, zsum_nil. f_equal. lia.
Qed.

Lemma net_absent a es : a ∉ map asset es -> net (of_asset a) es = 0.
Proof.
  intros Hni. apply sum_if_none. intros e He. apply bool_decide_eq_false. intros <-.
  apply Hni. apply list_elem_of_fmap. eauto.
Qed.

Lemma group_sum_balanced es :
  Forall (fun kv => kv.2 = 0) (group_sum asset signedAmount es) <-> balanced es.
Proof.
  rewrite Forall_forall. split.
  - intros H a. destruct (decide (a ∈ map asset es)) as [Hin|Hni]; [|by apply net_absent].
    apply (H (a, net (of_asset a) es)). by apply group_sum_elem.
  - intros H [k v] [_ ->]%group_sum_elem. apply H.
Qed.

Lemma check_residuals_Ok es u :
  for_each check_residual (byAsset es) = Ok u <-> balanced es.
Proof.
  rewrite for_each_Ok, <- group_sum_balanced, <- byAsset_sums, Forall_map.
  apply Forall_iff. intros [k l]. unfold check_residual, isZero. simpl.
  destruct (Z.eqb_spec (sum l) 0); simpl; split; done.
Qed.

Lemma isBalanced_true es : isBalanced es = true <-> balanced es.
Proof.
  unfold isBalanced. rewrite <- group_sum_balanced, forallb_forall, Forall_forall. split.
  - intros H x Hx. apply Z.eqb_eq, H, list_elem_of_In, list_elem_of_fmap. eauto.
  - intros H x (y & -> & Hy)%list_elem_of_In%list_elem_of_fmap. by apply Z.eqb_eq, H.
Qed.

Lemma buildTransaction_Ok input t :
  buildTransaction input = Ok t <-> transaction_wf (entries input) /\ t = input.
Proof.
  unfold buildTransaction. split.
  - intros H. inv_ok. apply Nat.ltb_ge in H. split; [|by destruct input].
    assert (Hne : entries input <> []) by (intros Hn; rewrite Hn in H; simpl in H; lia).
    split.
    + done.
    + apply for_each_Ok in H0. eapply Forall_impl; [exact H0|]. intros e. apply check_entry_Ok.
    + by apply (check_clusters_None _ tt Hne).
    + by eapply check_residuals_Ok.
  - intros [[H2 He Hc Hb] ->]. destruct (Nat.ltb_spec (length (entries input)) 2); [lia|]. simpl.
    assert (Hne : entries input <> []) by (intros Hn; rewrite Hn in H2; simpl in H2; lia).
    rewrite (proj2 (for_each_Ok check_entry (entries input) tt)).
    + simpl. rewrite (proj2 (check_clusters_None (entries input) tt Hne) Hc). simpl.
      rewrite (proj2 (check_residuals_Ok (entries input) tt) Hb). simpl. by destruct input.
    + eapply Forall_impl; [exact He|]. intros e. apply check_entry_Ok.
Qed.

Lemma for_each_Throw {A} (check : A -> result unit) xs e :
  for_each check xs = Throw e -> exists x, x ∈ xs /\ check x = Throw e.
Proof.
  induction xs as [|x xs IH]; simpl; [done|]. destruct (check x) eqn:E; simpl.
  - intros (y & ? & ?)%IH. exists y. set_solver.
  - intros [= ->]. exists x. set_solver.
Qed.

Lemma check_clusters_Throw c es err :
  check_clusters c es = Throw err ->
  err = InvalidEntryError "entry_asset_not_cluster_qualified" \/
  exists c1 c2, c1 <> c2 /\ err = CrossClusterTransactionError (cluster_name c1) (cluster_name c2).
Proof.
  revert c. induction es as [|e es IH]; intros c; simpl; [done|].
  destruct (parseLedgerAssetKey (asset e)) as [[c' a]|]; [|intros [= <-]; auto].
  destruct c as [c0|]; [|apply IH]. case_bool_decide; [apply IH|]. intros [= <-]. eauto 6.
Qed.

Lemma check_residual_elem es k l :
  (k, l) ∈ byAsset es -> sum l = net (of_asset k) es.
Proof.
  intros Hin. assert (H : (k, sum l) ∈ group_sum asset signedAmount es).
  { rewrite <- byAsset_sums. apply list_elem_of_fmap. by exists (k, l). }
  apply group_sum_elem in H as [_ ->]. done.
Qed.

Lemma net_app p es fs : net p (es ++ fs) = net p es + net p fs.
Proof. apply sum_if_app. Qed.

Lemma account_type_name_inj t t' : account_type_name t = account_type_name t' -> t = t'.
Proof. by destruct t, t'. Qed.

Lemma account_type_name_no_separator t : str_includes SEPARATOR (account_type_name t) = false.
Proof. by destruct t. Qed.

(** The account keys of two accounts agree exactly when the accounts do, for
    owners that are identifiers: no colon, and not the dash that stands for
    no owner. *)
Definition owner_ok (ref : AccountRef) : Prop :=
  match ownerId ref with
  | None => True
  | Some o => str_includes SEPARATOR o = false /\ o <> "-"
  end.

Lemma owner_text_ok ref : owner_ok ref -> str_includes SEPARATOR (default "-" (ownerId ref)) = false.
Proof. unfold owner_ok. destruct (ownerId ref); simpl; [by intros [? ?]|done]. Qed.

Lemma accountKey_inj a b : owner_ok a -> owner_ok b -> accountKey a = accountKey b <-> a = b.
Proof.
  intros Ha Hb. split; [|by intros ->]. unfold accountKey. intros H.
  apply (f_equal (split_first SEPARATOR)) in H.
  rewrite !split_first_app in H by apply account_type_name_no_separator.
  injection H as Ht H. apply (f_equal (split_first SEPARATOR)) in H.
  rewrite !split_first_app in H by by apply owner_text_ok.
  injection H as Ho Hs. apply account_type_name_inj in Ht.
  destruct a as [[oa|] aa ta], b as [[ob|] ab tb]; unfold owner_ok in *; naive_solver.
Qed.

(** ** Properties *)

(** The builder is exact. A ledger transaction is built exactly from a list of at least
    two entries, each with a positive amount in its account's asset, all in one cluster,
    that balances in every asset; and it is built from the entries as given. *)
Theorem buildTransaction_exact input :
  (exists t, buildTransaction input = Ok t) <-> transaction_wf (entries input).
Proof.
  split.
  - by intros [t [H _]%buildTransaction_Ok].
  - intros H. exists input. by apply buildTransaction_Ok.
Qed.

(** A refusal is truthful. When the builder refuses as unbalanced it names an asset and that
    asset's actual non-zero residual, having checked every entry and the cluster first;
    when it refuses as cross-cluster the entries are well formed and span two clusters;
    and it fails with no other exception than its own three. *)
Theorem buildTransaction_refusal input e :
  buildTransaction input = Throw e ->
  (exists reason, e = InvalidEntryError reason) \/
  (exists c1 c2, c1 <> c2 /\ e = CrossClusterTransactionError (cluster_name c1) (cluster_name c2) /\
     Forall entry_wf (entries input) /\ ~ single_cluster (entries input)) \/
  (exists a r, e = UnbalancedTransactionError a r /\ r <> 0 /\ r = net (of_asset a) (entries input) /\
     Forall entry_wf (entries input) /\ single_cluster (entries input)).
Proof.
  unfold buildTransaction. set (es := entries input).
  destruct (length es <? 2)%nat eqn:E2; simpl; [intros [= <-]; eauto|].
  destruct (for_each check_entry es) as [[]|e'] eqn:Ee; simpl.
  - apply for_each_Ok in Ee. assert (Hwf : Forall entry_wf es).
    { eapply Forall_impl; [exact Ee|]. intros x. apply check_entry_Ok. }
    assert (Hne : es <> []) by (intros Hn; by rewrite Hn in E2).
    destruct (check_clusters None es) as [[]|e'] eqn:Ec; simpl.
    + apply check_clusters_None in Ec; [|done].
      destruct (for_each check_residual (byAsset es)) as [|e'] eqn:Er; simpl; [done|].
      intros [= ->]. right; right. apply for_each_Throw in Er as ([k l] & Hin & Hr).
      unfold check_residual, isZero in Hr. simpl in Hr.
      destruct (Z.eqb_spec (sum l) 0); [done|]. injection Hr as <-.
      exists k, (sum l). repeat split; try done. by apply check_residual_elem.
    + intros [= ->]. destruct (check_clusters_Throw _ _ _ Ec) as [->|(c1 & c2 & ? & ->)]; [eauto|].
      right; left. exists c1, c2. repeat split; try done.
      rewrite <- (check_clusters_None es tt) by done. by rewrite Ec.
  - intros [= ->]. apply for_each_Throw in Ee as (x & _ & Hx). left. unfold check_entry in Hx.
    destruct (isNegative (amount x)); simpl in Hx; [injection Hx as <-; eauto|].
    destruct (isZero (amount x)); simpl in Hx; [injection Hx as <-; eauto|].
    destruct (negb _); simpl in Hx; [injection Hx as <-; eauto|done].
Qed.

(** ** Witnesses *)

Definition lopsided : LedgerTransaction :=
  mkTransaction adjustment "manual" "1"
    [debit (chainAssets "u1" "devnet:SOL") "devnet:SOL" 10;
     credit (userCustodyAvailable "u1" "devnet:SOL") "devnet:SOL" 9].

Lemma buildTransaction_refusal_witness :
  exists e, buildTransaction lopsided = Throw e /\
  ((exists reason, e = InvalidEntryError reason) \/
   (exists c1 c2, c1 <> c2 /\ e = CrossClusterTransactionError (cluster_name c1) (cluster_name c2) /\
      Forall entry_wf (entries lopsided) /\ ~ single_cluster (entries lopsided)) \/
   (exists a r, e = UnbalancedTransactionError a r /\ r <> 0 /\ r = net (of_asset a) (entries lopsided) /\
      Forall entry_wf (entries lopsided) /\ single_cluster (entries lopsided))).
Proof.
  eexists. split; [vm_compute; reflexivity|].
  apply (buildTransaction_refusal lopsided). vm_compute. reflexivity.
Defined.
