(* ===== verification/Postings.v ===== *)
(** * The posting rules

    [packages/ledger/src/postings.ts]: every movement of money the platform can
    make, each a named function that checks its input and builds one balanced
    transaction. [Posting] gathers them, and [history] is the ledger a sequence
    of them writes. *)

From S2P Require Import Prelude Decimal Assets Ledger.
From Stdlib Require Import ZArith Lia.
From stdpp Require Import base list strings gmap.

Open Scope string_scope.
Open Scope list_scope.
Open Scope Z_scope.

(** ** Inputs *)

Record DepositPosting := mkDeposit {
  d_depositId : string; d_userId : string; d_asset : string; d_amount : Z;
  d_rentReserved : option Z
}.

Record WithdrawalLockPosting := mkLock {
  w_withdrawalId : string; w_userId : string; w_asset : string; w_amount : Z
}.

Record WithdrawalSettlePosting := mkSettle {
  s_lock : WithdrawalLockPosting; s_networkFee : option Z; s_feeAsset : string
}.

Record OrderHoldPosting := mkHold {
  o_orderId : string; o_userId : string; o_asset : string; o_amount : Z
}.

Record AllocationPosting := mkAllocation {
  a_withdrawalId : string; a_userId : string; a_asset : string; a_amount : Z;
  a_networkFee : option Z; a_feeAsset : option string
}.

Record TradeSettlementPosting := mkTrade {
  t_fillId : string; t_buyerId : string; t_sellerId : string;
  t_baseAsset : string; t_quoteAsset : string; t_qty : Z;
  t_notional : Z; t_buyerFee : Z; t_sellerFee : Z
}.

(** [{ reference, asset, amount }] and [{ reference, ownerId, nativeAsset, amount }] *)
Record HousePosting := mkHouse { h_reference : string; h_asset : string; h_amount : Z }.
Record OwnerRentPosting := mkOwnerRent {
  r_reference : string; r_ownerId : string; r_nativeAsset : string; r_amount : Z
}.

(** ** The posting functions *)

Definition requirePositive (amount : Z) (what : string) : result unit :=
  throw_if (isNegative amount || isZero amount)
    (InvalidEntryError (what +:+ "_amount_not_positive")).

Definition postDeposit (input : DepositPosting) : result LedgerTransaction :=
  let user := d_userId input in
  let asset := d_asset input in
  let amount := d_amount input in
  let rent := default 0 (d_rentReserved input) in
  _ ← throw_if (isNegative amount || isZero amount) (InvalidEntryError "deposit_amount_not_positive");
  _ ← throw_if (isNegative rent) (InvalidEntryError "deposit_rent_negative");
  _ ← throw_if (rent >? amount) (InvalidEntryError "deposit_rent_exceeds_amount");
  let creditable := amount - rent in
  _ ← throw_if (isZero creditable && isZero rent) (InvalidEntryError "deposit_amount_not_positive");
  buildTransaction (mkTransaction deposit "deposit" (d_depositId input)
    ([debit (chainAssets user asset) asset amount] ++
     (if isZero creditable then [] else [credit (userCustodyAvailable user asset) asset creditable]) ++
     (if isZero rent then [] else [credit (houseRent asset) asset rent]))).

Definition postWithdrawalLock (input : WithdrawalLockPosting) : result LedgerTransaction :=
  _ ← requirePositive (w_amount input) "lock";
  buildTransaction (mkTransaction withdrawal_lock "withdrawal" (w_withdrawalId input)
    [debit (userCustodyAvailable (w_userId input) (w_asset input)) (w_asset input) (w_amount input);
     credit (userCustodyLocked (w_userId input) (w_asset input)) (w_asset input) (w_amount input)]).

Definition postWithdrawalRelease (input : WithdrawalLockPosting) : result LedgerTransaction :=
  _ ← requirePositive (w_amount input) "release";
  buildTransaction (mkTransaction withdrawal_release "withdrawal" (w_withdrawalId input)
    [debit (userCustodyLocked (w_userId input) (w_asset input)) (w_asset input) (w_amount input);
     credit (userCustodyAvailable (w_userId input) (w_asset input)) (w_asset input) (w_amount input)]).

Definition postWithdrawalSettlement (input : WithdrawalSettlePosting) : result LedgerTransaction :=
  let l := s_lock input in
  _ ← requirePositive (w_amount l) "settle";
  let fee := default 0 (s_networkFee input) in
  _ ← throw_if (isNegative fee) (InvalidEntryError "withdrawal_fee_negative");
  let feeAsset := s_feeAsset input in
  buildTransaction (mkTransaction withdrawal_settle "withdrawal" (w_withdrawalId l)
    ([debit (userCustodyLocked (w_userId l) (w_asset l)) (w_asset l) (w_amount l);
      credit (chainAssets (w_userId l) (w_asset l)) (w_asset l) (w_amount l)] ++
     (if isZero fee then [] else
      [debit (houseFees feeAsset) feeAsset fee; credit (houseChainAssets feeAsset) feeAsset fee]))).

Definition postHouseFunding (input : HousePosting) : result LedgerTransaction :=
  _ ← requirePositive (h_amount input) "house_funding";
  buildTransaction (mkTransaction fee "house_funding" (h_reference input)
    [debit (houseChainAssets (h_asset input)) (h_asset input) (h_amount input);
     credit (houseFees (h_asset input)) (h_asset input) (h_amount input)]).

Definition postNonceAccountRent (input : HousePosting) : result LedgerTransaction :=
  _ ← requirePositive (h_amount input) "nonce_rent";
  buildTransaction (mkTransaction fee "nonce_account" (h_reference input)
    [debit (houseChainAssets (h_asset input)) (h_asset input) (h_amount input);
     credit (houseRent (h_asset input)) (h_asset input) (h_amount input)]).

Definition postSweepFee (input : HousePosting) : result LedgerTransaction :=
  _ ← requirePositive (h_amount input) "sweep_fee";
  buildTransaction (mkTransaction fee "sweep" (h_reference input)
    [debit (houseFees (h_asset input)) (h_asset input) (h_amount input);
     credit (houseChainAssets (h_asset input)) (h_asset input) (h_amount input)]).

Definition postTokenAccountRent (input : OwnerRentPosting) : result LedgerTransaction :=
  let a := r_nativeAsset input in
  _ ← requirePositive (r_amount input) "token_account_rent";
  buildTransaction (mkTransaction fee "token_account" (r_reference input)
    [debit (chainAssets (r_ownerId input) a) a (r_amount input);
     credit (houseRent a) a (r_amount input)]).

Definition postOrderHold (input : OrderHoldPosting) : result LedgerTransaction :=
  _ ← requirePositive (o_amount input) "order hold";
  buildTransaction (mkTransaction order_hold "order" (o_orderId input)
    [debit (userTradingAvailable (o_userId input) (o_asset input)) (o_asset input) (o_amount input);
     credit (userOrderLocked (o_userId input) (o_asset input)) (o_asset input) (o_amount input)]).

Definition postOrderRelease (input : OrderHoldPosting) : result LedgerTransaction :=
  _ ← requirePositive (o_amount input) "order release";
  buildTransaction (mkTransaction order_release "order" (o_orderId input)
    [debit (userOrderLocked (o_userId input) (o_asset input)) (o_asset input) (o_amount input);
     credit (userTradingAvailable (o_userId input) (o_asset input)) (o_asset input) (o_amount input)]).

Definition houseFeeLegs (input : AllocationPosting) : result (list Entry) :=
  let fee := default 0 (a_networkFee input) in
  _ ← throw_if (isNegative fee) (InvalidEntryError "allocation_fee_negative");
  if isZero fee then Ok [] else
  match a_feeAsset input with
  | None => Throw (InvalidEntryError "allocation_fee_asset_missing")
  | Some f => Ok [debit (houseFees f) f fee; credit (houseChainAssets f) f fee]
  end.

Definition postAllocation (input : AllocationPosting) : result LedgerTransaction :=
  let u := a_userId input in
  let a := a_asset input in
  let n := a_amount input in
  _ ← requirePositive n "allocation";
  legs ← houseFeeLegs input;
  buildTransaction (mkTransaction allocation "withdrawal" (a_withdrawalId input)
    ([debit (userCustodyLocked u a) a n; credit (chainAssets u a) a n;
      debit (clearingAssets a) a n; credit (userTradingAvailable u a) a n] ++ legs)).

Definition postDeallocation (input : AllocationPosting) : result LedgerTransaction :=
  let u := a_userId input in
  let a := a_asset input in
  let n := a_amount input in
  _ ← requirePositive n "deallocation";
  legs ← houseFeeLegs input;
  buildTransaction (mkTransaction deallocation "withdrawal" (a_withdrawalId input)
    ([debit (userTradingLocked u a) a n; credit (clearingAssets a) a n;
      debit (chainAssets u a) a n; credit (userCustodyAvailable u a) a n] ++ legs)).

Definition postTradingLock (input : WithdrawalLockPosting) : result LedgerTransaction :=
  _ ← requirePositive (w_amount input) "trading lock";
  buildTransaction (mkTransaction withdrawal_lock "withdrawal" (w_withdrawalId input)
    [debit (userTradingAvailable (w_userId input) (w_asset input)) (w_asset input) (w_amount input);
     credit (userTradingLocked (w_userId input) (w_asset input)) (w_asset input) (w_amount input)]).

Definition postTradingRelease (input : WithdrawalLockPosting) : result LedgerTransaction :=
  _ ← requirePositive (w_amount input) "trading release";
  buildTransaction (mkTransaction withdrawal_release "withdrawal" (w_withdrawalId input)
    [debit (userTradingLocked (w_userId input) (w_asset input)) (w_asset input) (w_amount input);
     credit (userTradingAvailable (w_userId input) (w_asset input)) (w_asset input) (w_amount input)]).

(** [const add = (entry) => { if (!isZero(entry.amount)) entries.push(entry); }] *)
Definition add_leg (es : list Entry) (e : Entry) : list Entry :=
  if isZero (amount e) then es else es ++ [e].

Definition postTradeSettlement (input : TradeSettlementPosting) : result LedgerTransaction :=
  _ ← requirePositive (t_qty input) "trade quantity";
  _ ← for_each (fun nv => throw_if (isNegative nv.2) (InvalidEntryError ("trade_" +:+ nv.1 +:+ "_negative")))
        [("notional", t_notional input); ("buyer_fee", t_buyerFee input);
         ("seller_fee", t_sellerFee input)];
  _ ← throw_if (t_sellerFee input >? t_notional input)
        (InvalidEntryError "trade_seller_fee_exceeds_notional");
  _ ← throw_if (bool_decide (t_baseAsset input = t_quoteAsset input))
        (InvalidEntryError "trade_assets_identical");
  let quote := t_quoteAsset input in
  let base := t_baseAsset input in
  let buyerPays := t_notional input + t_buyerFee input in
  let sellerReceives := t_notional input - t_sellerFee input in
  let fees := t_buyerFee input + t_sellerFee input in
  buildTransaction (mkTransaction trade_settle "fill" (t_fillId input)
    (fold_left add_leg
       [debit (userOrderLocked (t_buyerId input) quote) quote buyerPays;
        credit (userTradingAvailable (t_sellerId input) quote) quote sellerReceives;
        credit (houseTradingFees quote) quote fees;
        debit (userOrderLocked (t_sellerId input) base) base (t_qty input);
        credit (userTradingAvailable (t_buyerId input) base) base (t_qty input)] [])).

(** ** Everything the platform can post *)

Inductive Posting :=
| PDeposit (i : DepositPosting)
| PWithdrawalLock (i : WithdrawalLockPosting)
| PWithdrawalRelease (i : WithdrawalLockPosting)
| PWithdrawalSettlement (i : WithdrawalSettlePosting)
| PHouseFunding (i : HousePosting)
| PNonceAccountRent (i : HousePosting)
| PSweepFee (i : HousePosting)
| PTokenAccountRent (i : OwnerRentPosting)
| POrderHold (i : OrderHoldPosting)
| POrderRelease (i : OrderHoldPosting)
| PAllocation (i : AllocationPosting)
| PDeallocation (i : AllocationPosting)
| PTradingLock (i : WithdrawalLockPosting)
| PTradingRelease (i : WithdrawalLockPosting)
| PTradeSettlement (i : TradeSettlementPosting).

Definition post (p : Posting) : result LedgerTransaction :=
  match p with
  | PDeposit i => postDeposit i
  | PWithdrawalLock i => postWithdrawalLock i
  | PWithdrawalRelease i => postWithdrawalRelease i
  | PWithdrawalSettlement i => postWithdrawalSettlement i
  | PHouseFunding i => postHouseFunding i
  | PNonceAccountRent i => postNonceAccountRent i
  | PSweepFee i => postSweepFee i
  | PTokenAccountRent i => postTokenAccountRent i
  | POrderHold i => postOrderHold i
  | POrderRelease i => postOrderRelease i
  | PAllocation i => postAllocation i
  | PDeallocation i => postDeallocation i
  | PTradingLock i => postTradingLock i
  | PTradingRelease i => postTradingRelease i
  | PTradeSettlement i => postTradeSettlement i
  end.

(** The entries a sequence of postings writes; one that throws writes none. *)
Fixpoint history (ps : list Posting) : list Entry :=
  match ps with
  | [] => []
  | p :: ps => match post p with Ok t => entries t | Throw _ => [] end ++ history ps
  end.

(** When each posting is accepted: the guards of its function, and an asset (or
    two) the ledger can place in one cluster. *)
Definition qualified (c : Cluster) (a : string) : Prop :=
  exists x, parseLedgerAssetKey a = Ok (c, x).

(** An optional fee in its own asset, absent, zero or positive. *)
Definition fee_ok (c : Cluster) (fee : Z) (feeAsset : option string) : Prop :=
  0 <= fee /\ (fee <> 0 -> exists f, feeAsset = Some f /\ qualified c f).

Definition admissible (p : Posting) : Prop :=
  match p with
  | PDeposit i =>
      0 < d_amount i /\ 0 <= default 0 (d_rentReserved i) <= d_amount i /\
      exists c, qualified c (d_asset i)
  | PWithdrawalLock i | PWithdrawalRelease i | PTradingLock i | PTradingRelease i =>
      0 < w_amount i /\ exists c, qualified c (w_asset i)
  | PWithdrawalSettlement i =>
      0 < w_amount (s_lock i) /\ exists c, qualified c (w_asset (s_lock i)) /\
      fee_ok c (default 0 (s_networkFee i)) (Some (s_feeAsset i))
  | PHouseFunding i | PNonceAccountRent i | PSweepFee i =>
      0 < h_amount i /\ exists c, qualified c (h_asset i)
  | PTokenAccountRent i => 0 < r_amount i /\ exists c, qualified c (r_nativeAsset i)
  | POrderHold i | POrderRelease i => 0 < o_amount i /\ exists c, qualified c (o_asset i)
  | PAllocation i | PDeallocation i =>
      0 < a_amount i /\ exists c, qualified c (a_asset i) /\
      fee_ok c (default 0 (a_networkFee i)) (a_feeAsset i)
  | PTradeSettlement i =>
      0 < t_qty i /\ 0 <= t_notional i /\ 0 <= t_buyerFee i /\
      0 <= t_sellerFee i <= t_notional i /\ t_baseAsset i <> t_quoteAsset i /\
      exists c, qualified c (t_baseAsset i) /\
      (t_notional i + t_buyerFee i <> 0 -> qualified c (t_quoteAsset i))
  end.

(** Account groups of the two tiers, as tests on an entry. *)
Definition on_type (ty : AccountType) (a : string) (e : Entry) : bool :=
  bool_decide (acc_type (account e) = ty) && bool_decide (asset e = a).

Definition on_types (tys : list AccountType) (a : string) (e : Entry) : bool :=
  bool_decide (acc_type (account e) ∈ tys) && bool_decide (asset e = a).

Definition on_account (r : AccountRef) (e : Entry) : bool := bool_decide (account e = r).

(** What the vault tier holds and owes, and what the clearing tier does. *)
Definition VAULT_TYPES : list AccountType :=
  [chain_assets; user_custody_available; user_custody_locked; house_rent; house_fees].
Definition CLEARING_TYPES : list AccountType :=
  [clearing_assets; user_trading_available; user_order_locked; user_trading_locked;
   house_trading_fees].

(** The balance of an account in its natural sign: what an asset account holds,
    what a liability or equity account owes. *)
Definition held (ty : AccountType) (a : string) (es : list Entry) : Z := net (on_type ty a) es.
Definition owed (ty : AccountType) (a : string) (es : list Entry) : Z := - net (on_type ty a) es.

(** The vault position of one user: on-chain holdings at the user's address less
    what the user is owed in the vault. *)
Definition of_user_vault (u a : string) (e : Entry) : bool :=
  bool_decide (ownerId (account e) = Some u) &&
  on_types [chain_assets; user_custody_available; user_custody_locked] a e.

(** ** Lemmas *)

Lemma requirePositive_Ok n what u : requirePositive n what = Ok u <-> 0 < n.
Proof.
  unfold requirePositive. rewrite throw_if_Ok. unfold isNegative, isZero.
  destruct (Z.ltb_spec n 0), (Z.eqb_spec n 0); simpl; split; try done; lia.
Qed.

Lemma build_Ok k rt ri es t :
  buildTransaction (mkTransaction k rt ri es) = Ok t <->
  transaction_wf es /\ t = mkTransaction k rt ri es.
Proof. apply buildTransaction_Ok. Qed.

Lemma add_leg_fold es acc :
  fold_left add_leg es acc = acc ++ filter (fun e => amount e <> 0) es.
Proof.
  revert acc. induction es as [|e es IH]; intros acc; simpl; [by rewrite app_nil_r|].
  rewrite IH. unfold add_leg, isZero. rewrite filter_cons.
  destruct (Z.eqb_spec (amount e) 0); [by rewrite decide_False by (intros ?; done)|].
  rewrite decide_True by done. by rewrite <- app_assoc.
Qed.

(** Dropping zero legs moves nothing. *)
Lemma net_nonzero_legs p es : net p (filter (fun e => amount e <> 0) es) = net p es.
Proof.
  induction es as [|e es IH]; [done|]. rewrite filter_cons. unfold net in *. case_decide as Hz; simpl.
  - by rewrite IH.
  - rewrite IH. assert (amount e = 0) by lia. unfold signedAmount. rewrite H.
    destruct (p e), (direction e); lia.
Qed.

(** Evaluate the tests on account types of concrete entries. *)
Ltac eval_types :=
  repeat match goal with
  | |- context [bool_decide (?t ∈ ?l)] =>
      let b := eval vm_compute in (bool_decide (t ∈ l)) in
      change (bool_decide (t ∈ l)) with b
  | |- context [@bool_decide (@eq AccountType ?t ?t') ?d] =>
      let b := eval vm_compute in (@bool_decide (@eq AccountType t t') d) in
      change (@bool_decide (@eq AccountType t t') d) with b
  end.

(** A net movement of a concrete list of entries, by cases on which accounts and
    assets coincide. *)
Ltac solve_net :=
  unfold net, of_asset, on_type, on_types, on_account, of_user_vault, signedAmount; simpl;
  unfold on_types; simpl; unfold VAULT_TYPES, CLEARING_TYPES; eval_types; simpl;
  repeat (case_bool_decide; simpl); simplify_eq; try lia.

Lemma balanced_two a1 a2 a n : balanced [debit a1 a n; credit a2 a n].
Proof. intros x. solve_net. Qed.

Lemma wf_two a1 a2 a n :
  acc_asset a1 = a -> acc_asset a2 = a -> 0 < n -> (exists c, qualified c a) ->
  transaction_wf [debit a1 a n; credit a2 a n].
Proof.
  intros H1 H2 Hn [c Hc]. split.
  - done.
  - repeat constructor; simpl; auto; lia.
  - exists c. repeat constructor; exact Hc.
  - apply balanced_two.
Qed.

Lemma wf_qualified es e : transaction_wf es -> e ∈ es -> exists c, qualified c (asset e).
Proof.
  intros [_ _ [c Hc] _] Hin. rewrite Forall_forall in Hc. exists c. by apply Hc.
Qed.

(** A two-legged posting is accepted exactly for a positive amount of a qualified asset. *)
Lemma post_two_legs k rt ri what a1 a2 a n :
  acc_asset a1 = a -> acc_asset a2 = a ->
  (exists t, (requirePositive n what ≫= fun _ =>
     buildTransaction (mkTransaction k rt ri [debit a1 a n; credit a2 a n])) = Ok t) <->
  0 < n /\ exists c, qualified c a.
Proof.
  intros H1 H2. split.
  - intros [t H]. apply bind_Ok in H as ([] & Hp & Hb). apply requirePositive_Ok in Hp.
    apply build_Ok in Hb as [Hwf _]. split; [done|].
    apply (wf_qualified _ (debit a1 a n) Hwf). set_solver.
  - intros [Hn Hq]. eexists. apply bind_Ok. exists tt. split; [by apply requirePositive_Ok|].
    apply build_Ok. split; [|done]. by apply wf_two.
Qed.

Lemma fee_legs_wf c fee f :
  0 < fee -> qualified c f ->
  Forall entry_wf [debit (houseFees f) f fee; credit (houseChainAssets f) f fee] /\
  Forall (fun e => exists x, parseLedgerAssetKey (asset e) = Ok (c, x))
    [debit (houseFees f) f fee; credit (houseChainAssets f) f fee].
Proof. intros Hf Hc. split; repeat constructor; simpl; auto; lia. Qed.

(** Appending balanced well-formed legs of the same cluster keeps a transaction well formed. *)
Lemma wf_append es fs c :
  (2 <= length es)%nat -> Forall entry_wf es -> balanced es ->
  Forall (fun e => qualified c (asset e)) es ->
  Forall entry_wf fs -> balanced fs -> Forall (fun e => qualified c (asset e)) fs ->
  transaction_wf (es ++ fs).
Proof.
  intros Hl He Hb Hc Hf Hbf Hcf. split.
  - rewrite length_app. lia.
  - by apply Forall_app.
  - exists c. by apply Forall_app.
  - intros a. rewrite net_app, Hb, Hbf. done.
Qed.

Lemma balanced_nil : balanced [].
Proof. by intros a. Qed.

(** The cluster of a well-formed transaction qualifies each of its assets. *)
Lemma wf_one_cluster es :
  transaction_wf es -> exists c, forall e, e ∈ es -> qualified c (asset e).
Proof. intros [_ _ [c Hc] _]. exists c. by rewrite Forall_forall in Hc. Qed.

Lemma houseFeeLegs_Ok i legs :
  houseFeeLegs i = Ok legs <->
  let fee := default 0 (a_networkFee i) in
  0 <= fee /\
  ((fee = 0 /\ legs = []) \/
   (fee <> 0 /\ exists f, a_feeAsset i = Some f /\
      legs = [debit (houseFees f) f fee; credit (houseChainAssets f) f fee])).
Proof.
  unfold houseFeeLegs. simpl. set (fee := default 0 (a_networkFee i)).
  unfold isNegative, isZero. destruct (Z.ltb_spec fee 0); simpl; [split; [done|lia]|].
  destruct (Z.eqb_spec fee 0).
  - split; [intros [= <-]; auto|]. intros [_ [[_ ->]|[? _]]]; [done|lia].
  - destruct (a_feeAsset i) as [f|]; split; try done.
    + intros [= <-]. split; [done|]. right. eauto.
    + intros [_ [[? _]|(_ & f' & [= <-] & ->)]]; [lia|done].
    + intros [_ [[? _]|(_ & f' & ? & _)]]; [lia|done].
Qed.

(** The legs of an optional fee are well formed exactly when the fee is acceptable. *)
Lemma fee_legs_ok c fee f legs :
  0 <= fee ->
  ((fee = 0 /\ legs = []) \/
   (fee <> 0 /\ exists f', f = Some f' /\
      legs = [debit (houseFees f') f' fee; credit (houseChainAssets f') f' fee])) ->
  fee_ok c fee f ->
  Forall entry_wf legs /\ balanced legs /\ Forall (fun e => qualified c (asset e)) legs.
Proof.
  intros Hfee Hl [_ Hq]. destruct Hl as [[_ ->]|(Hne & f' & -> & ->)].
  - split; [constructor|]. split; [apply balanced_nil|constructor].
  - destruct (Hq Hne) as (f & [= <-] & Hc). destruct (fee_legs_wf c fee f' ltac:(lia) Hc) as [? ?].
    split; [done|]. split; [apply balanced_two|done].
Qed.

Lemma postDeposit_Ok i t :
  postDeposit i = Ok t <->
  admissible (PDeposit i) /\
  t = mkTransaction deposit "deposit" (d_depositId i)
        (filter (fun e => amount e <> 0)
          [debit (chainAssets (d_userId i) (d_asset i)) (d_asset i) (d_amount i);
           credit (userCustodyAvailable (d_userId i) (d_asset i)) (d_asset i)
             (d_amount i - default 0 (d_rentReserved i));
           credit (houseRent (d_asset i)) (d_asset i) (default 0 (d_rentReserved i))]).
Proof.
  unfold postDeposit. cbn [admissible]. set (rent := default 0 (d_rentReserved i)).
  unfold isNegative, isZero. set (n := d_amount i). set (a := d_asset i).
  destruct (Z.ltb_spec n 0); simpl; [split; [done|lia]|].
  destruct (Z.eqb_spec n 0); simpl; [split; [done|lia]|].
  destruct (Z.ltb_spec rent 0); simpl; [split; [done|lia]|].
  destruct (Z.gtb_spec rent n); simpl; [split; [done|lia]|].
  assert (Hboth : ((n - rent =? 0) && (rent =? 0)) = false).
  { apply andb_false_iff. destruct (Z.eqb_spec rent 0); [left|by right]. apply Z.eqb_neq. lia. }
  rewrite Hboth. simpl. rewrite build_Ok.
  assert (Hlegs : [debit (chainAssets (d_userId i) a) a n] ++
      (if n - rent =? 0 then [] else [credit (userCustodyAvailable (d_userId i) a) a (n - rent)]) ++
      (if rent =? 0 then [] else [credit (houseRent a) a rent]) =
      filter (fun e => amount e <> 0)
        [debit (chainAssets (d_userId i) a) a n;
         credit (userCustodyAvailable (d_userId i) a) a (n - rent); credit (houseRent a) a rent]).
  { rewrite !filter_cons. simpl. rewrite decide_True by done.
    destruct (Z.eqb_spec (n - rent) 0), (Z.eqb_spec rent 0); repeat case_decide; done. }
  simpl app in Hlegs |- *. rewrite Hlegs. set (es := filter _ _).
  assert (Hes : forall e, e ∈ es -> entry_wf e /\ asset e = a).
  { intros e [Hz He]%list_elem_of_filter. unfold entry_wf.
    rewrite !elem_of_cons, elem_of_nil in He. destruct He as [->|[->|[->|[]]]]; simpl in *; lia || (split; [split; [lia|done]|done]). }
  split.
  - intros [Hwf ->]. split; [|done]. split; [lia|]. split; [lia|].
    apply (wf_qualified es (debit (chainAssets (d_userId i) a) a n) Hwf).
    apply list_elem_of_filter. split; [done|set_solver].
  - intros [(_ & _ & c & Hc) ->]. split; [|done]. split.
    + unfold es. rewrite <- Hlegs. destruct (Z.eqb_spec (n - rent) 0), (Z.eqb_spec rent 0); simpl; lia.
    + apply Forall_forall. intros e He. by apply Hes.
    + exists c. apply Forall_forall. intros e He. destruct (Hes e He) as [_ ->]. exact Hc.
    + intros x. unfold es. rewrite net_nonzero_legs. solve_net.
Qed.

Lemma postWithdrawalSettlement_Ok i t :
  postWithdrawalSettlement i = Ok t <->
  admissible (PWithdrawalSettlement i) /\
  exists legs, t = mkTransaction withdrawal_settle "withdrawal" (w_withdrawalId (s_lock i))
    ([debit (userCustodyLocked (w_userId (s_lock i)) (w_asset (s_lock i))) (w_asset (s_lock i)) (w_amount (s_lock i));
      credit (chainAssets (w_userId (s_lock i)) (w_asset (s_lock i))) (w_asset (s_lock i)) (w_amount (s_lock i))] ++ legs) /\
    houseFeeLegs (mkAllocation "" "" "" 0 (s_networkFee i) (Some (s_feeAsset i))) = Ok legs.
Proof.
  unfold postWithdrawalSettlement, houseFeeLegs. cbn [admissible a_networkFee a_feeAsset].
  set (fee := default 0 (s_networkFee i)). set (l := s_lock i). set (f := s_feeAsset i).
  rewrite bind_Ok. setoid_rewrite requirePositive_Ok. unfold isNegative, isZero.
  destruct (Z.ltb_spec fee 0); simpl.
  { split; [by intros (? & ? & ?)|]. intros ((? & c & ? & ? & ?) & ?). lia. }
  assert (Hl : exists legs, (if fee =? 0 then [] else [debit (houseFees f) f fee; credit (houseChainAssets f) f fee]) = legs /\
     (if fee =? 0 then Ok [] else Ok [debit (houseFees f) f fee; credit (houseChainAssets f) f fee]) = Ok legs /\
     ((fee = 0 /\ legs = []) \/ (fee <> 0 /\ exists f', Some f = Some f' /\ legs = [debit (houseFees f') f' fee; credit (houseChainAssets f') f' fee]))).
  { destruct (Z.eqb_spec fee 0); eexists; (split; [done|]); split; eauto. }
  destruct Hl as (legs & -> & -> & Hl). split.
  - intros ([] & Hpos & [Hwf ->]%build_Ok). split; [|by exists legs].
    split; [done|]. destruct (wf_one_cluster _ Hwf) as [c Hc]. exists c. split.
    + apply (Hc (debit (userCustodyLocked (w_userId l) (w_asset l)) (w_asset l) (w_amount l))). set_solver.
    + split; [done|]. intros Hne. destruct Hl as [[? _]|(_ & f' & [= <-] & ->)]; [lia|]. exists f. split; [done|].
      apply (Hc (debit (houseFees f) f fee)). set_solver.
  - intros [(Hpos & c & Hq & Hfee) (legs' & -> & [= <-])]. exists tt. split; [done|].
    apply build_Ok. split; [|done].
    destruct (fee_legs_ok c fee (Some f) legs) as (? & ? & ?); try done.
    apply (wf_append [_; _] legs c); try done.
    + repeat constructor; simpl; auto; lia.
    + apply balanced_two.
    + repeat constructor; exact Hq.
Qed.

(** Internal transfers, in either direction: four legs of one asset and the fee's. *)
Lemma post_transfer k rt what (i : AllocationPosting) a1 a2 a3 a4 t :
  let a := a_asset i in let n := a_amount i in
  acc_asset a1 = a -> acc_asset a2 = a -> acc_asset a3 = a -> acc_asset a4 = a ->
  (requirePositive n what ≫= fun _ => houseFeeLegs i ≫= fun legs =>
     buildTransaction (mkTransaction k rt (a_withdrawalId i)
       ([debit a1 a n; credit a2 a n; debit a3 a n; credit a4 a n] ++ legs))) = Ok t <->
  admissible (PAllocation i) /\ exists legs, houseFeeLegs i = Ok legs /\
  t = mkTransaction k rt (a_withdrawalId i)
       ([debit a1 a n; credit a2 a n; debit a3 a n; credit a4 a n] ++ legs).
Proof.
  intros a n H1 H2 H3 H4. cbn [admissible]. set (fee := default 0 (a_networkFee i)). split.
  - intros H. apply bind_Ok in H as ([] & Hp & H). apply requirePositive_Ok in Hp.
    apply bind_Ok in H as (legs & Hlegs & [Hwf ->]%build_Ok).
    pose proof (proj1 (houseFeeLegs_Ok i legs) Hlegs) as [Hfee Hl]. split; [|eauto].
    split; [done|]. destruct (wf_one_cluster _ Hwf) as [c Hc]. exists c. split.
    + apply (Hc (debit a1 a n)). set_solver.
    + split; [done|]. intros Hne. destruct Hl as [[? _]|(_ & f & Hf & ->)]; [done|].
      exists f. split; [done|]. apply (Hc (debit (houseFees f) f fee)). set_solver.
  - intros [(Hp & c & Hq & Hfee) (legs & Hlegs & ->)]. apply bind_Ok. exists tt.
    split; [by apply requirePositive_Ok|]. apply bind_Ok. exists legs. split; [done|].
    apply build_Ok. split; [|done].
    pose proof (proj1 (houseFeeLegs_Ok i legs) Hlegs) as [Hfee0 Hl].
    destruct (fee_legs_ok c fee (a_feeAsset i) legs) as (? & ? & ?); try done.
    apply (wf_append _ _ c); try done.
    + simpl. lia.
    + repeat constructor; simpl; auto.
    + intros x. solve_net.
    + repeat constructor; exact Hq.
Qed.

(** The five legs of a trade before the zero ones are dropped. *)
Definition trade_legs (i : TradeSettlementPosting) : list Entry :=
  let quote := t_quoteAsset i in let base := t_baseAsset i in
  [debit (userOrderLocked (t_buyerId i) quote) quote (t_notional i + t_buyerFee i);
   credit (userTradingAvailable (t_sellerId i) quote) quote (t_notional i - t_sellerFee i);
   credit (houseTradingFees quote) quote (t_buyerFee i + t_sellerFee i);
   debit (userOrderLocked (t_sellerId i) base) base (t_qty i);
   credit (userTradingAvailable (t_buyerId i) base) base (t_qty i)].

Lemma postTradeSettlement_Ok i t :
  postTradeSettlement i = Ok t <->
  admissible (PTradeSettlement i) /\
  t = mkTransaction trade_settle "fill" (t_fillId i)
        (filter (fun e => amount e <> 0) (trade_legs i)).
Proof.
  unfold postTradeSettlement. cbn [admissible]. rewrite bind_Ok.
  setoid_rewrite requirePositive_Ok. simpl for_each. unfold isNegative. simpl.
  destruct (Z.ltb_spec (t_notional i) 0); simpl; [split; [by intros (? & ? & ?)|lia]|].
  destruct (Z.ltb_spec (t_buyerFee i) 0); simpl; [split; [by intros (? & ? & ?)|lia]|].
  destruct (Z.ltb_spec (t_sellerFee i) 0); simpl; [split; [by intros (? & ? & ?)|lia]|].
  destruct (Z.gtb_spec (t_sellerFee i) (t_notional i)); simpl; [split; [by intros (? & ? & ?)|lia]|].
  case_bool_decide as Hba; simpl; [split; [by intros (? & ? & ?)|tauto]|].
  match goal with |- context [mkTransaction trade_settle "fill" (t_fillId i) ?l] =>
    replace l with (filter (fun e => amount e <> 0) (trade_legs i))
      by (symmetry; exact (add_leg_fold (trade_legs i) [])) end.
  set (es := filter _ _). split.
  - intros ([] & Hpos & [Hwf ->]%build_Ok). split; [|done].
    destruct (wf_one_cluster _ Hwf) as [c Hc]. repeat (split; [lia || done|]).
    exists c. split.
    + apply (Hc (debit (userOrderLocked (t_sellerId i) (t_baseAsset i)) (t_baseAsset i) (t_qty i))).
      apply list_elem_of_filter. split; [simpl; lia|]. unfold trade_legs. set_solver.
    + intros Hne. apply (Hc (debit (userOrderLocked (t_buyerId i) (t_quoteAsset i)) (t_quoteAsset i)
                              (t_notional i + t_buyerFee i))).
      apply list_elem_of_filter. split; [done|]. unfold trade_legs. set_solver.
  - intros [(Hpos & _ & _ & _ & _ & c & Hb & Hq) ->]. exists tt. split; [done|].
    apply build_Ok. split; [|done].
    assert (Hes : forall e, e ∈ es -> entry_wf e /\ qualified c (asset e)).
    { intros e [Hz He]%list_elem_of_filter. unfold trade_legs in He.
      rewrite !elem_of_cons, elem_of_nil in He. unfold entry_wf.
      destruct He as [->|[->|[->|[->|[->|[]]]]]]; simpl in *; (split; [split; [lia|done]|]);
        (exact Hb || (apply Hq; lia)). }
    split.
    + unfold es, trade_legs. rewrite !filter_cons. simpl. rewrite !(decide_True (P := t_qty i <> 0)) by lia.
      repeat case_decide; simpl; lia.
    + apply Forall_forall. intros e He. by apply Hes.
    + exists c. apply Forall_forall. intros e He. by apply Hes.
    + intros x. unfold es. rewrite net_nonzero_legs. unfold trade_legs. solve_net.
Qed.

(** The three tier positions of one transaction. *)
Definition tier_neutral (a : string) (es : list Entry) : Prop :=
  net (on_types VAULT_TYPES a) es = 0 /\ net (on_types CLEARING_TYPES a) es = 0 /\
  forall u, 0 <= net (of_user_vault u a) es.

Lemma tier_neutral_app a es fs :
  tier_neutral a es -> tier_neutral a fs -> tier_neutral a (es ++ fs).
Proof.
  intros (H1 & H2 & H3) (H4 & H5 & H6). unfold tier_neutral. setoid_rewrite net_app.
  repeat split; try lia. intros u. specialize (H3 u). specialize (H6 u). lia.
Qed.

Lemma tier_neutral_nil a : tier_neutral a [].
Proof. done. Qed.

(** Expose what a two-legged posting that was accepted wrote. *)
Ltac inv_post H :=
  unfold postWithdrawalLock, postWithdrawalRelease, postHouseFunding, postNonceAccountRent,
    postSweepFee, postTokenAccountRent, postOrderHold, postOrderRelease, postTradingLock,
    postTradingRelease in H;
  inv_ok;
  repeat match goal with
  | H : requirePositive _ _ = Ok _ |- _ => apply requirePositive_Ok in H
  | H : buildTransaction (mkTransaction _ _ _ _) = Ok _ |- _ => apply build_Ok in H as [? ->]
  end; simpl in *.

Ltac solve_tier := split; [solve_net|split; [solve_net|intros ?; solve_net]].

Lemma fee_legs_neutral a i legs : houseFeeLegs i = Ok legs -> tier_neutral a legs.
Proof.
  intros [_ [[_ ->]|(_ & f & _ & ->)]]%houseFeeLegs_Ok; [apply tier_neutral_nil|]. solve_tier.
Qed.

Lemma tier_neutral_nonzero a es :
  tier_neutral a es -> tier_neutral a (filter (fun e => amount e <> 0) es).
Proof. unfold tier_neutral. by setoid_rewrite net_nonzero_legs. Qed.

Lemma postDeposit_neutral a i t : postDeposit i = Ok t -> tier_neutral a (entries t).
Proof.
  intros [Hadm ->]%postDeposit_Ok. apply tier_neutral_nonzero. destruct Hadm as (? & ? & _). solve_tier.
Qed.

Lemma postTradeSettlement_neutral a i t :
  postTradeSettlement i = Ok t -> tier_neutral a (entries t).
Proof.
  intros [Hadm ->]%postTradeSettlement_Ok. apply tier_neutral_nonzero. unfold trade_legs. solve_tier.
Qed.

(** No posting moves value between the tiers' books, nor makes a user's own address
    fall short of what the vault owes that user. *)
Lemma post_tier_neutral p t a : post p = Ok t -> tier_neutral a (entries t).
Proof.
  destruct p as [i|i|i|i|i|i|i|i|i|i|i|i|i|i|i]; simpl;
    try (intros H; inv_post H; solve_tier; fail).
  - apply postDeposit_neutral.
  - intros [Hadm (legs & -> & Hl)]%postWithdrawalSettlement_Ok. apply tier_neutral_app.
    + destruct Hadm as (? & _). solve_tier.
    + by apply (fee_legs_neutral _ _ _ Hl).
  - unfold postAllocation. intros [Hadm (legs & Hl & ->)]%post_transfer; try done.
    apply tier_neutral_app; [solve_tier|by apply (fee_legs_neutral _ _ _ Hl)].
  - unfold postDeallocation. intros [Hadm (legs & Hl & ->)]%post_transfer; try done.
    apply tier_neutral_app; [solve_tier|by apply (fee_legs_neutral _ _ _ Hl)].
  - apply postTradeSettlement_neutral.
Qed.

Lemma history_neutral ps a : tier_neutral a (history ps).
Proof.
  induction ps as [|p ps IH]; simpl; [apply tier_neutral_nil|]. apply tier_neutral_app; [|done].
  destruct (post p) eqn:E; [by apply (post_tier_neutral p)|apply tier_neutral_nil].
Qed.

(** Whatever a posting writes went through the builder. *)
Lemma post_wf p t : post p = Ok t -> transaction_wf (entries t).
Proof.
  destruct p; simpl; intros H;
    try (inv_post H; done);
    unfold postDeposit, postWithdrawalSettlement, postAllocation, postDeallocation,
      postTradeSettlement in H; inv_ok;
    match goal with H : buildTransaction _ = Ok _ |- _ => by apply buildTransaction_Ok in H as [? ->] end.
Qed.

Lemma history_wf ps : Forall entry_wf (history ps) /\ balanced (history ps).
Proof.
  induction ps as [|p ps [IH1 IH2]]; simpl; [split; [constructor|done]|].
  assert (H : Forall entry_wf (match post p with Ok t => entries t | Throw _ => [] end) /\
              balanced (match post p with Ok t => entries t | Throw _ => [] end)).
  { destruct (post p) eqn:E; [|split; [constructor|done]].
    enough (Hwf : transaction_wf (entries a)) by (by destruct Hwf).
    by apply (post_wf p). }
  destruct H. split; [by apply Forall_app|]. intros a. rewrite net_app, IH2. rewrite H0. done.
Qed.

(** An admissible transfer has its fee legs. *)
Lemma transfer_legs_exist i (mk : list Entry -> LedgerTransaction) :
  (exists t, admissible (PAllocation i) /\ exists legs, houseFeeLegs i = Ok legs /\ t = mk legs) <->
  admissible (PAllocation i).
Proof.
  split; [by intros (? & ? & _)|]. intros Hadm. pose proof Hadm as (_ & c & _ & Hfee & Hq).
  destruct (houseFeeLegs i) as [legs|] eqn:E; [eauto|]. exfalso.
  unfold houseFeeLegs, isNegative, isZero in E.
  destruct (Z.ltb_spec (default 0 (a_networkFee i)) 0); [lia|]. simpl in E.
  destruct (Z.eqb_spec (default 0 (a_networkFee i)) 0); [done|].
  destruct (Hq ltac:(done)) as (f & Hf & _). by rewrite Hf in E.
Qed.

(** A group of account types splits into its types. *)
Lemma net_types_cons ty tys a es :
  ty ∉ tys -> net (on_types (ty :: tys) a) es = net (on_type ty a) es + net (on_types tys a) es.
Proof.
  intros Hni. unfold net. induction es as [|e es IH]; simpl; [done|]. rewrite IH.
  unfold on_types, on_type. destruct (decide (acc_type (account e) = ty)) as [Heq|Hne].
  - rewrite (bool_decide_eq_true_2 (_ ∈ ty :: tys)) by set_solver.
    rewrite (bool_decide_eq_true_2 (_ = ty)) by done.
    rewrite (bool_decide_eq_false_2 (_ ∈ tys)) by set_solver. simpl. case_bool_decide; lia.
  - rewrite (bool_decide_eq_false_2 (_ = ty)) by done.
    replace (bool_decide (acc_type (account e) ∈ ty :: tys)) with
      (bool_decide (acc_type (account e) ∈ tys)) by (apply bool_decide_ext; set_solver).
    simpl. lia.
Qed.

Lemma net_types_nil a es : net (on_types [] a) es = 0.
Proof.
  apply sum_if_none. intros e _. unfold on_types. by rewrite bool_decide_eq_false_2 by set_solver.
Qed.

Lemma net_vault_types a es :
  net (on_types VAULT_TYPES a) es =
  net (on_type chain_assets a) es + net (on_type user_custody_available a) es +
  net (on_type user_custody_locked a) es + net (on_type house_rent a) es +
  net (on_type house_fees a) es.
Proof. unfold VAULT_TYPES. rewrite !net_types_cons, net_types_nil by set_solver. lia. Qed.

Lemma net_clearing_types a es :
  net (on_types CLEARING_TYPES a) es =
  net (on_type clearing_assets a) es + net (on_type user_trading_available a) es +
  net (on_type user_order_locked a) es + net (on_type user_trading_locked a) es +
  net (on_type house_trading_fees a) es.
Proof. unfold CLEARING_TYPES. rewrite !net_types_cons, net_types_nil by set_solver. lia. Qed.

(** A user's vault position is the sum of three accounts, on entries whose asset is
    their account's. *)
Lemma net_user_vault u a es :
  Forall entry_wf es ->
  net (of_user_vault u a) es =
  net (on_account (chainAssets u a)) es + net (on_account (userCustodyAvailable u a)) es +
  net (on_account (userCustodyLocked u a)) es.
Proof.
  unfold net. induction 1 as [|e es [_ Ha] _ IH]; simpl; [done|]. rewrite IH.
  unfold of_user_vault, on_types, on_account. rewrite Ha. destruct e as [[o x ty] y n d]. simpl in *.
  unfold chainAssets, userCustodyAvailable, userCustodyLocked.
  destruct ty; eval_types; simpl; repeat (case_bool_decide; simpl); simplify_eq; lia.
Qed.

(** The net effect of a trade settlement on one account. *)
Lemma trade_settlement_effect_net i t r :
  postTradeSettlement i = Ok t ->
  let at_ (x : AccountRef) (v : Z) := if bool_decide (x = r) then v else 0 in
  net (on_account r) (entries t) =
    at_ (userOrderLocked (t_buyerId i) (t_quoteAsset i)) (t_notional i + t_buyerFee i)
    - at_ (userTradingAvailable (t_sellerId i) (t_quoteAsset i)) (t_notional i - t_sellerFee i)
    - at_ (houseTradingFees (t_quoteAsset i)) (t_buyerFee i + t_sellerFee i)
    + at_ (userOrderLocked (t_sellerId i) (t_baseAsset i)) (t_qty i)
    - at_ (userTradingAvailable (t_buyerId i) (t_baseAsset i)) (t_qty i).
Proof.
  intros [_ ->]%postTradeSettlement_Ok. simpl entries. rewrite net_nonzero_legs.
  unfold net, trade_legs, on_account, signedAmount. simpl. repeat case_bool_decide; lia.
Qed.

(** The tier equations of a ledger, and its segregation. *)
Definition tiers_agree (es : list Entry) : Prop :=
  (forall a, held chain_assets a es =
    owed user_custody_available a es + owed user_custody_locked a es +
    owed house_rent a es + owed house_fees a es) /\
  (forall a, held clearing_assets a es =
    owed user_trading_available a es + owed user_order_locked a es +
    owed user_trading_locked a es + owed house_trading_fees a es) /\
  (forall u a, - net (on_account (userCustodyAvailable u a)) es - net (on_account (userCustodyLocked u a)) es <=
    net (on_account (chainAssets u a)) es).

Lemma history_tiers ps : tiers_agree (history ps).
Proof.
  split; [|split]; intros; destruct (history_neutral ps a) as (Hv & Hc & Hu).
  - rewrite net_vault_types in Hv. unfold held, owed. lia.
  - rewrite net_clearing_types in Hc. unfold held, owed. lia.
  - specialize (Hu u). destruct (history_wf ps) as [Hwf _]. rewrite (net_user_vault u a _ Hwf) in Hu. lia.
Qed.

(** ** Properties *)

(** Each of the fifteen postings is accepted exactly when its guards hold: a positive
    amount, non-negative fees and rents within the amount, an asset qualified by a
    cluster, the fee's asset given and in the same cluster whenever a fee is charged,
    and for a trade two different assets and a seller fee within the notional. *)
Theorem post_accepts_exactly p : (exists t, post p = Ok t) <-> admissible p.
Proof.
  destruct p as [i|i|i|i|i|i|i|i|i|i|i|i|i|i|i]; cbn [post];
    try (by apply post_two_legs).
  - setoid_rewrite postDeposit_Ok. split; [by intros (? & ? & _)|eauto].
  - setoid_rewrite postWithdrawalSettlement_Ok. split; [by intros (? & ? & _)|].
    intros Hadm. pose proof Hadm as (_ & c & _ & Hfee & Hq).
    destruct (houseFeeLegs (mkAllocation "" "" "" 0 (s_networkFee i) (Some (s_feeAsset i)))) as [legs|] eqn:E;
      [eauto 6|]. exfalso. unfold houseFeeLegs, isNegative, isZero in E. simpl in E.
    destruct (Z.ltb_spec (default 0 (s_networkFee i)) 0); [lia|]. simpl in E. by destruct (_ =? 0).
  - unfold postAllocation. setoid_rewrite post_transfer; [|done..]. by apply transfer_legs_exist.
  - unfold postDeallocation. setoid_rewrite post_transfer; [|done..]. by apply transfer_legs_exist.
  - setoid_rewrite postTradeSettlement_Ok. split; [by intros (? & ? & _)|eauto].
Qed.

(** The accounting equations of the two tiers hold after any sequence of postings, in
    every asset: the vault's on-chain holdings are exactly what users are owed in the
    vault plus immobilised rent plus the house's fee balance, and the clearing address
    holds exactly the users' trading balances plus the trading fees earned. *)
Theorem tier_equations ps a :
  let es := history ps in
  held chain_assets a es =
    owed user_custody_available a es + owed user_custody_locked a es +
    owed house_rent a es + owed house_fees a es /\
  held clearing_assets a es =
    owed user_trading_available a es + owed user_order_locked a es +
    owed user_trading_locked a es + owed house_trading_fees a es.
Proof. split; apply (history_tiers ps). Qed.

(** Segregation. After any sequence of postings each user's own on-chain address holds at
    least what the vault owes that user, available and locked together, in every asset:
    one user's shortfall is never covered by another's address. *)
Theorem user_address_covers_vault ps u a :
  let es := history ps in
  - net (on_account (userCustodyAvailable u a)) es - net (on_account (userCustodyLocked u a)) es <=
  net (on_account (chainAssets u a)) es.
Proof. apply (history_tiers ps). Qed.

(** a trade settlement moves exactly what it says, whichever legs vanish: for every account
    the transaction's net effect is the buyer's hold consumed by the notional plus the
    buyer fee, the seller credited the notional less the seller fee, the house credited
    both fees, and the quantity moved from the seller's hold to the buyer, and nothing
    else moves, even when a party trades with itself. *)
Theorem trade_settlement_effect i t r :
  post (PTradeSettlement i) = Ok t ->
  let at_ (x : AccountRef) (v : Z) := if bool_decide (x = r) then v else 0 in
  net (on_account r) (entries t) =
    at_ (userOrderLocked (t_buyerId i) (t_quoteAsset i)) (t_notional i + t_buyerFee i)
    - at_ (userTradingAvailable (t_sellerId i) (t_quoteAsset i)) (t_notional i - t_sellerFee i)
    - at_ (houseTradingFees (t_quoteAsset i)) (t_buyerFee i + t_sellerFee i)
    + at_ (userOrderLocked (t_sellerId i) (t_baseAsset i)) (t_qty i)
    - at_ (userTradingAvailable (t_buyerId i) (t_baseAsset i)) (t_qty i).
Proof.
  apply trade_settlement_effect_net.
Qed.

(** A release is the exact inverse of its lock: posting a withdrawal lock then its release,
    a trading lock then its release, or an order hold then its release leaves every
    account's balance as it was. *)
Theorem release_inverts_lock p q t t' r :
  (exists i, (p = PWithdrawalLock i /\ q = PWithdrawalRelease i) \/
             (p = PTradingLock i /\ q = PTradingRelease i)) \/
  (exists i, p = POrderHold i /\ q = POrderRelease i) ->
  post p = Ok t -> post q = Ok t' ->
  net (on_account r) (entries t ++ entries t') = 0.
Proof.
  intros [[i [[-> ->]|[-> ->]]]|[i [-> ->]]]; simpl; intros H1 H2; inv_post H1; inv_post H2;
    unfold net, on_account, signedAmount; simpl; repeat case_bool_decide; try congruence; lia.
Qed.

(** ** Witnesses *)

(** A trade so small that its notional and fees all round to nothing. *)
Definition dust_trade : TradeSettlementPosting :=
  mkTrade "7:0" "alice" "bob" "devnet:SOL" "devnet:USDC" 3 0 0 0.

Lemma trade_settlement_effect_witness :
  exists t, post (PTradeSettlement dust_trade) = Ok t /\ length (entries t) = 2%nat /\
    net (on_account (userTradingAvailable "alice" "devnet:SOL")) (entries t) = -3.
Proof.
  eexists. split; [vm_compute; reflexivity|]. split; [reflexivity|].
  etransitivity.
  - apply (trade_settlement_effect dust_trade _ (userTradingAvailable "alice" "devnet:SOL")).
    vm_compute. reflexivity.
  - vm_compute. reflexivity.
Defined.

Lemma release_inverts_lock_witness :
  exists t t', post (POrderHold (mkHold "o1" "alice" "devnet:SOL" 5)) = Ok t /\
    post (POrderRelease (mkHold "o1" "alice" "devnet:SOL" 5)) = Ok t' /\
    net (on_account (userOrderLocked "alice" "devnet:SOL")) (entries t ++ entries t') = 0.
Proof.
  eexists _, _. split; [vm_compute; reflexivity|]. split; [vm_compute; reflexivity|].
  eapply (release_inverts_lock (POrderHold (mkHold "o1" "alice" "devnet:SOL" 5))
            (POrderRelease (mkHold "o1" "alice" "devnet:SOL" 5))).
  - right. eexists. split; reflexivity.
  - vm_compute. reflexivity.
  - vm_compute. reflexivity.
Defined.
