(* ===== verification/Projection.v ===== *)
(** * Balances as projections, and the ledger's invariant checks

    [packages/ledger/src/projection.ts]. The checks are related to the account
    groups of [Postings], so that what they report on a history of postings is
    known exactly. *)

From S2P Require Import Prelude Decimal Assets Ledger Postings.
From Stdlib Require Import ZArith Lia.
From stdpp Require Import base list strings gmap.

Open Scope string_scope.
Open Scope list_scope.
Open Scope Z_scope.

(** ** Projections *)

Record AccountBalance := mkBalance { of_account : AccountRef; balance : Z }.

Definition projectAccount (account0 : AccountRef) (es : list Entry) : AccountBalance :=
  let key := accountKey account0 in
  mkBalance account0
    (fold_left (fun b e => if bool_decide (accountKey (account e) = key)
                           then b + signedAmount e else b) es 0).

Definition project_step (balances : list (string * AccountBalance)) (e : Entry)
  : list (string * AccountBalance) :=
  let key := accountKey (account e) in
  let existing := jget key balances in
  jset key (mkBalance (account e) (default 0 (balance <$> existing) + signedAmount e)) balances.

Definition projectAll (es : list Entry) : list (string * AccountBalance) :=
  fold_left project_step es [].

Record UserBalance := mkUserBalance {
  ub_userId : string; ub_asset : string; available : Z; locked : Z; total : Z
}.

Definition projectUserBalance (userId asset0 : string) (es : list Entry) : UserBalance :=
  let '(available, locked) :=
    fold_left (fun '(available, locked) e =>
      let acc := account e in
      if negb (bool_decide (ownerId acc = Some userId)) || negb (bool_decide (acc_asset acc = asset0))
      then (available, locked)
      else
        let value := - signedAmount e in
        if bool_decide (acc_type acc = user_custody_available) then (available + value, locked)
        else if bool_decide (acc_type acc = user_custody_locked) then (available, locked + value)
        else (available, locked)) es (0, 0) in
  mkUserBalance userId asset0 available locked (available + locked).

(** ** Invariant checks *)

Inductive InvariantViolation :=
| books_balance (asset : string) (residual : Z)
| no_negative_user_balance (account : string) (balance : Z)
| account_sign (account : string) (balance : Z) (type : AccountType)
| custody_uncovered (asset : string) (liabilities chainAssets rent shortfall : Z)
| clearing_uncovered (asset : string) (liabilities clearingAssets shortfall : Z).

#[export] Instance InvariantViolation_eq_dec : EqDecision InvariantViolation.
Proof. solve_decision. Defined.

Definition normalBalance (t : AccountType) (b : Z) : Z :=
  if bool_decide (ACCOUNT_CLASS t = asset_class) then b else - b.

(** [violations.push] in a loop over a map. *)
Definition push_where {A} (check : A -> option InvariantViolation) (xs : list A)
  : list InvariantViolation := omap check xs.

Definition checkBooksBalance (es : list Entry) : list InvariantViolation :=
  push_where (fun '(asset, residual) =>
    if negb (residual =? 0) then Some (books_balance asset residual) else None)
    (group_sum asset signedAmount es).

Definition checkNoNegativeUserBalances (es : list Entry) : list InvariantViolation :=
  push_where (fun '(key, b) =>
    if negb (isUserAccount (acc_type (of_account b))) then None
    else let held := - balance b in
         if isNegative held then Some (no_negative_user_balance key held) else None)
    (projectAll es).

Definition checkAccountSigns (es : list Entry) : list InvariantViolation :=
  push_where (fun '(key, b) =>
    let ty := acc_type (of_account b) in
    if negb (bool_decide (ty ∈ NON_NEGATIVE_ACCOUNT_TYPES)) then None
    else let normal := normalBalance ty (balance b) in
         if isNegative normal then Some (account_sign key normal ty) else None)
    (projectAll es).

Record Buckets := mkBuckets {
  custody : list (string * Z); trading : list (string * Z); chain : list (string * Z);
  clearing : list (string * Z); rent : list (string * Z)
}.

Definition bucket_step (m : Buckets) (b : AccountBalance) : Buckets :=
  let ty := acc_type (of_account b) in
  let a := acc_asset (of_account b) in
  let value := normalBalance ty (balance b) in
  if isCustodyAccount ty then
    mkBuckets (jadd a value (custody m)) (trading m) (chain m) (clearing m) (rent m)
  else if isTradingAccount ty then
    mkBuckets (custody m) (jadd a value (trading m)) (chain m) (clearing m) (rent m)
  else if bool_decide (ty = chain_assets) then
    mkBuckets (custody m) (trading m) (jadd a value (chain m)) (clearing m) (rent m)
  else if bool_decide (ty = clearing_assets) then
    mkBuckets (custody m) (trading m) (chain m) (jadd a value (clearing m)) (rent m)
  else if bool_decide (ty = house_rent) then
    mkBuckets (custody m) (trading m) (chain m) (clearing m) (jadd a value (rent m))
  else m.

Definition buckets (es : list Entry) : Buckets :=
  fold_left bucket_step (projectAll es).*2 (mkBuckets [] [] [] [] []).

Definition checkLiabilitiesCovered (es : list Entry) : list InvariantViolation :=
  let m := buckets es in
  push_where (fun '(a, owed) =>
    let held := default 0 (jget a (chain m)) in
    let immobilised := default 0 (jget a (rent m)) in
    let spendable := held - immobilised in
    if owed >? spendable
    then Some (custody_uncovered a owed held immobilised (owed - spendable)) else None)
    (custody m) ++
  push_where (fun '(a, owed) =>
    let held := default 0 (jget a (clearing m)) in
    if owed >? held then Some (clearing_uncovered a owed held (owed - held)) else None)
    (trading m).

Definition checkAllInvariants (es : list Entry) : list InvariantViolation :=
  checkBooksBalance es ++ checkNoNegativeUserBalances es ++ checkAccountSigns es ++
  checkLiabilitiesCovered es.

(** Owners are identifiers, so account keys tell accounts apart. *)
Definition owners_ok (es : list Entry) : Prop := Forall (fun e => owner_ok (account e)) es.

(** ** Lemmas *)

Lemma elem_of_push_where {A} check (xs : list A) v :
  v ∈ push_where check xs <-> exists x, x ∈ xs /\ check x = Some v.
Proof. unfold push_where. apply list_elem_of_omap. Qed.

(** Sum of a function over the values of a map. *)
Definition msum {V} (g : V -> Z) (m : list (string * V)) : Z :=
  sum_if (fun _ => true) (fun kv => g kv.2) m.

Lemma msum_jset {V} (g : V -> Z) k v m :
  msum g (jset k v m) = msum g m + g v - default 0 (g <$> jget k m).
Proof.
  unfold msum. induction m as [|[k' v'] m IH]; simpl; [lia|].
  case_decide; simpl; rewrite ?IH; simpl; lia.
Qed.

(** What every entry of the projection map satisfies. *)
Definition proj_inv (m : list (string * AccountBalance)) : Prop :=
  NoDup m.*1 /\ Forall (fun kb => kb.1 = accountKey (of_account kb.2) /\ owner_ok (of_account kb.2)) m.

Lemma proj_inv_get m k b :
  proj_inv m -> jget k m = Some b -> k = accountKey (of_account b) /\ owner_ok (of_account b).
Proof.
  intros [Hnd Hall] Hg. rewrite <- (jget_elem k b m) in Hg by done.
  rewrite Forall_forall in Hall. by apply (Hall (k, b)).
Qed.

Lemma proj_inv_step m e : owner_ok (account e) -> proj_inv m -> proj_inv (project_step m e).
Proof.
  intros Ho [Hnd Hall]. split; [by apply jset_NoDup|]. apply Forall_forall. intros [k b] Hin.
  apply jget_elem in Hin; [|by apply jset_NoDup]. unfold project_step in Hin.
  destruct (decide (accountKey (account e) = k)) as [<-|Hne].
  - rewrite jget_jset_eq in Hin. injection Hin as <-. done.
  - rewrite jget_jset_ne in Hin by done. by apply (proj_inv_get m).
Qed.

Lemma proj_inv_all es : owners_ok es -> proj_inv (projectAll es).
Proof.
  unfold projectAll. assert (H : proj_inv []) by (split; constructor). revert H.
  generalize (@nil (string * AccountBalance)). induction es as [|e es IH]; intros m H Ho; simpl; [done|].
  apply Forall_cons in Ho as [? ?]. apply IH; [by apply proj_inv_step|done].
Qed.

(** Summing any per-account weighting of the projected balances is summing it
    over the entries. *)
Lemma project_fold_sum (p : AccountRef -> bool) es m :
  owners_ok es -> proj_inv m ->
  msum (fun b => if p (of_account b) then balance b else 0) (fold_left project_step es m) =
  msum (fun b => if p (of_account b) then balance b else 0) m + net (fun e => p (account e)) es.
Proof.
  unfold net. revert m. induction es as [|e es IH]; intros m Ho Hm; simpl; [lia|].
  apply Forall_cons in Ho as [Hoe Ho]. rewrite IH by (done || by apply proj_inv_step).
  unfold project_step at 1. rewrite msum_jset. simpl.
  destruct (jget (accountKey (account e)) m) as [b|] eqn:E; simpl.
  - destruct (proj_inv_get _ _ _ Hm E) as [Hk Hob].
    apply accountKey_inj in Hk; [|done..]. rewrite <- Hk. destruct (p (account e)); lia.
  - destruct (p (account e)); lia.
Qed.

Lemma projectAll_sum (p : AccountRef -> bool) es :
  owners_ok es ->
  msum (fun b => if p (of_account b) then balance b else 0) (projectAll es) =
  net (fun e => p (account e)) es.
Proof.
  intros Ho. unfold projectAll. rewrite project_fold_sum; [unfold msum; simpl; lia|done|].
  split; constructor.
Qed.

Lemma msum_value {V} (p : V -> bool) (g : V -> Z) (m : list (string * V)) :
  sum_if p g m.*2 = msum (fun v => if p v then g v else 0) m.
Proof.
  unfold msum, sum_if. induction m as [|[k v] m IH]; [done|].
  rewrite fmap_cons. cbn [foldr snd]. by rewrite IH.
Qed.

(** The group of accounts of the given types in one asset. *)
Definition in_group (tys : list AccountType) (a : string) (b : AccountBalance) : bool :=
  bool_decide (acc_type (of_account b) ∈ tys) && bool_decide (acc_asset (of_account b) = a).

Definition normal (b : AccountBalance) : Z := normalBalance (acc_type (of_account b)) (balance b).

Lemma bucket_fold l m a :
  let m' := fold_left bucket_step l m in
  let total tys := sum_if (in_group tys a) normal l in
  default 0 (jget a (custody m')) = default 0 (jget a (custody m)) + total CUSTODY_ACCOUNT_TYPES /\
  default 0 (jget a (trading m')) = default 0 (jget a (trading m)) + total TRADING_ACCOUNT_TYPES /\
  default 0 (jget a (chain m')) = default 0 (jget a (chain m)) + total [chain_assets] /\
  default 0 (jget a (clearing m')) = default 0 (jget a (clearing m)) + total [clearing_assets] /\
  default 0 (jget a (rent m')) = default 0 (jget a (rent m)) + total [house_rent].
Proof.
  simpl. revert m. induction l as [|b l IH]; intros m; simpl; [lia|].
  destruct (IH (bucket_step m b)) as (-> & -> & -> & -> & ->). clear IH.
  unfold bucket_step, in_group, normal, isCustodyAccount, isTradingAccount,
    CUSTODY_ACCOUNT_TYPES, TRADING_ACCOUNT_TYPES.
  destruct b as [[o x ty] v]. simpl.
  destruct ty; eval_types; simpl; rewrite ?jget_jadd; repeat case_bool_decide; repeat case_decide;
    subst; simpl; try congruence; lia.
Qed.

Lemma bucket_fold_NoDup l m :
  NoDup (custody m).*1 -> NoDup (trading m).*1 ->
  NoDup (custody (fold_left bucket_step l m)).*1 /\ NoDup (trading (fold_left bucket_step l m)).*1.
Proof.
  revert m. induction l as [|b l IH]; intros m Hc Ht; simpl; [done|]. apply IH.
  - unfold bucket_step. repeat case_match; simpl; try done. by apply jset_NoDup.
  - unfold bucket_step. repeat case_match; simpl; try done. by apply jset_NoDup.
Qed.

(** The projected total of a group of liability or asset types. *)
Lemma group_total tys s es a :
  owners_ok es -> Forall entry_wf es ->
  (forall ty b, ty ∈ tys -> normalBalance ty b = s * b) ->
  sum_if (in_group tys a) normal (projectAll es).*2 = s * net (on_types tys a) es.
Proof.
  intros Ho Hwf Hs. rewrite msum_value.
  transitivity (s * msum (fun b => if bool_decide (acc_type (of_account b) ∈ tys) &&
     bool_decide (acc_asset (of_account b) = a) then balance b else 0) (projectAll es)).
  - unfold msum. induction (projectAll es) as [|[k b] m IH]; simpl; [lia|]. rewrite IH.
    unfold in_group. destruct (bool_decide (_ ∈ tys)) eqn:E; simpl; [|lia].
    apply bool_decide_eq_true in E. unfold normal. rewrite (Hs _ _ E). case_bool_decide; lia.
  - apply (f_equal (Z.mul s)).
    etransitivity; [exact (projectAll_sum (fun r => bool_decide (acc_type r ∈ tys) &&
                             bool_decide (acc_asset r = a)) es Ho)|].
    unfold net. apply sum_if_ext. intros e He. rewrite Forall_forall in Hwf.
    destruct (Hwf e He) as [_ Ha]. unfold on_types. by rewrite Ha.
Qed.

(** The buckets of a ledger are the totals of the account groups. *)
Lemma buckets_totals es a :
  owners_ok es -> Forall entry_wf es ->
  default 0 (jget a (custody (buckets es))) = - net (on_types CUSTODY_ACCOUNT_TYPES a) es /\
  default 0 (jget a (trading (buckets es))) = - net (on_types TRADING_ACCOUNT_TYPES a) es /\
  default 0 (jget a (chain (buckets es))) = net (on_types [chain_assets] a) es /\
  default 0 (jget a (clearing (buckets es))) = net (on_types [clearing_assets] a) es /\
  default 0 (jget a (rent (buckets es))) = - net (on_types [house_rent] a) es.
Proof.
  intros Ho Hwf. unfold buckets.
  destruct (bucket_fold (projectAll es).*2 (mkBuckets [] [] [] [] []) a) as (-> & -> & -> & -> & ->).
  assert (Hliab : forall tys, (forall ty, ty ∈ tys -> ACCOUNT_CLASS ty <> asset_class) ->
            sum_if (in_group tys a) normal (projectAll es).*2 = - net (on_types tys a) es).
  { intros tys H. rewrite (group_total tys (-1) es a Ho Hwf); [lia|].
    intros ty b Hty. unfold normalBalance. rewrite bool_decide_eq_false_2 by auto. lia. }
  assert (Hass : forall tys, (forall ty, ty ∈ tys -> ACCOUNT_CLASS ty = asset_class) ->
            sum_if (in_group tys a) normal (projectAll es).*2 = net (on_types tys a) es).
  { intros tys H. rewrite (group_total tys 1 es a Ho Hwf); [lia|].
    intros ty b Hty. unfold normalBalance. rewrite bool_decide_eq_true_2 by auto. lia. }
  rewrite (Hliab CUSTODY_ACCOUNT_TYPES), (Hliab TRADING_ACCOUNT_TYPES), (Hliab [house_rent]),
    (Hass [chain_assets]), (Hass [clearing_assets]); [done|..]; intros ty;
    unfold CUSTODY_ACCOUNT_TYPES, TRADING_ACCOUNT_TYPES; rewrite ?elem_of_cons, ?elem_of_nil;
    naive_solver.
Qed.

Lemma owned_by_account u a e :
  entry_wf e ->
  (bool_decide (ownerId (account e) = Some u) && on_types CUSTODY_ACCOUNT_TYPES a e) =
  on_account (userCustodyAvailable u a) e || on_account (userCustodyLocked u a) e.
Proof.
  intros [_ Ha]. unfold on_types, on_account. rewrite Ha. destruct e as [[o x ty] y n d]. simpl in *.
  unfold CUSTODY_ACCOUNT_TYPES, userCustodyAvailable, userCustodyLocked.
  destruct ty; eval_types; simpl; repeat (case_bool_decide; simpl); simplify_eq; done.
Qed.

Lemma fee_legs_trading_fees a i legs :
  houseFeeLegs i = Ok legs -> net (on_type house_trading_fees a) legs = 0.
Proof. intros [_ [[_ ->]|(_ & f & _ & ->)]]%houseFeeLegs_Ok; [done|]. solve_net. Qed.

(** The trading fees only grow: no posting debits them. *)
Lemma post_trading_fees p t a :
  post p = Ok t -> 0 <= owed house_trading_fees a (entries t).
Proof.
  unfold owed. destruct p as [i|i|i|i|i|i|i|i|i|i|i|i|i|i|i]; simpl;
    try (intros H; inv_post H; solve_net; fail).
  - intros [Hadm ->]%postDeposit_Ok. cbn [entries]. rewrite net_nonzero_legs. solve_net.
  - intros [Hadm (legs & -> & Hl)]%postWithdrawalSettlement_Ok. cbn [entries].
    rewrite net_app, (fee_legs_trading_fees _ _ _ Hl). solve_net.
  - unfold postAllocation. intros [Hadm (legs & Hl & ->)]%post_transfer; try done. cbn [entries].
    rewrite net_app, (fee_legs_trading_fees _ _ _ Hl). solve_net.
  - unfold postDeallocation. intros [Hadm (legs & Hl & ->)]%post_transfer; try done. cbn [entries].
    rewrite net_app, (fee_legs_trading_fees _ _ _ Hl). solve_net.
  - intros [Hadm ->]%postTradeSettlement_Ok. cbn [entries]. rewrite net_nonzero_legs.
    unfold trade_legs. destruct Hadm as (? & ? & ? & ? & _). solve_net.
Qed.

Lemma history_trading_fees ps a : 0 <= owed house_trading_fees a (history ps).
Proof.
  unfold owed. induction ps as [|p ps IH]; simpl; [unfold net; simpl; lia|]. rewrite net_app.
  destruct (post p) as [t|] eqn:E; [|unfold net at 1; simpl; lia].
  pose proof (post_trading_fees p t a E). unfold owed in *. lia.
Qed.

Lemma on_account_key r e :
  owner_ok r -> owner_ok (account e) ->
  bool_decide (accountKey (account e) = accountKey r) = on_account r e.
Proof.
  intros Hr He. unfold on_account. apply bool_decide_ext. by apply accountKey_inj.
Qed.

Lemma projectAccount_net r es :
  owners_ok es -> owner_ok r -> balance (projectAccount r es) = net (on_account r) es.
Proof.
  intros Ho Hr. unfold projectAccount, net. simpl.
  enough (H : forall b, fold_left (fun b e => if bool_decide (accountKey (account e) = accountKey r)
                           then b + signedAmount e else b) es b = b + sum_if (on_account r) signedAmount es)
    by (by rewrite H).
  induction es as [|e es IH]; intros b; simpl; [lia|].
  apply Forall_cons in Ho as [? Ho]. rewrite on_account_key, IH by done.
  destruct (on_account r e); lia.
Qed.

Lemma projectAll_get r es :
  owners_ok es -> owner_ok r ->
  default 0 (balance <$> jget (accountKey r) (projectAll es)) = net (on_account r) es.
Proof.
  intros Ho Hr. unfold projectAll, net.
  enough (H : forall m, default 0 (balance <$> jget (accountKey r) (fold_left project_step es m)) =
     default 0 (balance <$> jget (accountKey r) m) + sum_if (on_account r) signedAmount es)
    by (by rewrite H).
  induction es as [|e es IH]; intros m; simpl; [lia|].
  apply Forall_cons in Ho as [? Ho]. rewrite IH by done. unfold project_step.
  rewrite <- (on_account_key r e) by done.
  destruct (decide (accountKey (account e) = accountKey r)) as [Heq|Hne].
  - rewrite Heq, jget_jset_eq, bool_decide_eq_true_2 by done. simpl. lia.
  - rewrite jget_jset_ne, bool_decide_eq_false_2 by done. lia.
Qed.

(** The user projection, read account by account. *)
Lemma projectUserBalance_net u a es :
  available (projectUserBalance u a es) = - net (on_account (userCustodyAvailable u a)) es /\
  locked (projectUserBalance u a es) = - net (on_account (userCustodyLocked u a)) es.
Proof.
  unfold projectUserBalance, net.
  match goal with |- context [fold_left ?f es _] => set (step := f) end.
  enough (H : forall x y, fold_left step es (x, y) =
     (x - sum_if (on_account (userCustodyAvailable u a)) signedAmount es,
      y - sum_if (on_account (userCustodyLocked u a)) signedAmount es)).
  { rewrite H. simpl. lia. }
  assert (Hstep : forall x y e, step (x, y) e =
     (x - (if on_account (userCustodyAvailable u a) e then signedAmount e else 0),
      y - (if on_account (userCustodyLocked u a) e then signedAmount e else 0))).
  { intros x y [[o b ty] y' n d]. unfold step, on_account, userCustodyAvailable, userCustodyLocked.
    simpl. destruct ty; simpl; repeat (case_bool_decide; simpl); simplify_eq; f_equal; lia. }
  induction es as [|e es IH]; intros x y; [simpl; f_equal; lia|].
  cbn [fold_left]. rewrite Hstep, IH. cbn [sum_if foldr]. unfold sum_if. cbn [foldr]. f_equal; lia.
Qed.

Lemma checkBooksBalance_nil es : balanced es -> checkBooksBalance es = [].
Proof.
  intros Hb. destruct (checkBooksBalance es) as [|v l] eqn:E; [done|].
  assert (Hv : v ∈ checkBooksBalance es) by (rewrite E; set_solver).
  apply elem_of_push_where in Hv as ([k r] & Hin & Hv). apply group_sum_balanced in Hb.
  rewrite Forall_forall in Hb. specialize (Hb _ Hin). simpl in Hb. by subst.
Qed.

(** ** Properties *)

(** Projections are exact. The balance projected for an account is the net of that
    account's entries, alone or in the projection of every account, and a user's
    balance splits into the available and locked accounts of that user and asset. *)
Theorem projection_exact es r u a :
  owners_ok es -> owner_ok r -> Forall entry_wf es ->
  balance (projectAccount r es) = net (on_account r) es /\
  default 0 (balance <$> jget (accountKey r) (projectAll es)) = net (on_account r) es /\
  available (projectUserBalance u a es) = - net (on_account (userCustodyAvailable u a)) es /\
  locked (projectUserBalance u a es) = - net (on_account (userCustodyLocked u a)) es /\
  total (projectUserBalance u a es) =
    available (projectUserBalance u a es) + locked (projectUserBalance u a es).
Proof.
  intros Ho Hr Hwf. split; [by apply projectAccount_net|]. split; [by apply projectAll_get|].
  destruct (projectUserBalance_net u a es) as [Ha Hl]. split; [done|]. split; [done|].
  unfold projectUserBalance. by destruct (fold_left _ _ _).
Qed.

(** The coverage check on a ledger written by the posting functions reports exactly an
    unfunded fee balance. The clearing tier is never reported; whatever is reported for the vault
    is in an asset whose house fee balance is negative, with that deficit as the
    shortfall; and the books always balance. *)
Theorem coverage_reports_unfunded_fees ps v :
  owners_ok (history ps) ->
  checkBooksBalance (history ps) = [] /\
  (v ∈ checkLiabilitiesCovered (history ps) ->
   exists a liabilities held0 rent0, v = custody_uncovered a liabilities held0 rent0 (- owed house_fees a (history ps)) /\
     owed house_fees a (history ps) < 0).
Proof.
  intros Ho. destruct (history_wf ps) as [Hwf Hbal]. split; [by apply checkBooksBalance_nil|].
  unfold checkLiabilitiesCovered. rewrite elem_of_app, !elem_of_push_where.
  assert (Hnd : NoDup (custody (buckets (history ps))).*1 /\ NoDup (trading (buckets (history ps))).*1).
  { apply bucket_fold_NoDup; constructor. }
  destruct Hnd as [Hndc Hndt].
  intros [([a o] & Hin & Hc)|([a o] & Hin & Hc)];
    destruct (buckets_totals (history ps) a Ho Hwf) as (Hcu & Htr & Hch & Hcl & Hre);
    destruct (history_neutral ps a) as (Hv & Hcle & _);
    rewrite net_vault_types in Hv; rewrite net_clearing_types in Hcle;
    rewrite ?net_types_cons, ?net_types_nil in * by set_solver;
    pose proof (history_trading_fees ps a) as Hfees; unfold owed in *.
  - apply jget_elem in Hin; [|done]. rewrite Hin in Hcu. simpl in Hcu.
    destruct (Z.gtb_spec o (default 0 (jget a (chain (buckets (history ps)))) -
      default 0 (jget a (rent (buckets (history ps)))))); [|done].
    injection Hc as <-. exists a, o, (default 0 (jget a (chain (buckets (history ps))))),
      (default 0 (jget a (rent (buckets (history ps))))).
    unfold CUSTODY_ACCOUNT_TYPES in Hcu. rewrite !net_types_cons, net_types_nil in Hcu by set_solver.
    split; [f_equal|]; lia.
  - exfalso. apply jget_elem in Hin; [|done]. rewrite Hin in Htr. simpl in Htr.
    destruct (Z.gtb_spec o (default 0 (jget a (clearing (buckets (history ps)))))); [|done].
    unfold TRADING_ACCOUNT_TYPES in Htr. rewrite !net_types_cons, net_types_nil in Htr by set_solver.
    lia.
Qed.

(** A withdrawal that pays a network fee no one funded: a deposit, its lock, and
    its settlement. *)
Definition unfunded_fee_run : list Posting :=
  [PDeposit (mkDeposit "d1" "u1" "devnet:SOL" 1000 None);
   PWithdrawalLock (mkLock "w1" "u1" "devnet:SOL" 100);
   PWithdrawalSettlement (mkSettle (mkLock "w1" "u1" "devnet:SOL" 100) (Some 5) "devnet:SOL")].

(** coverage is not a consequence of double entry, contrary to what the check's own
    documentation says. There is a run of accepted postings whose books balance and on
    which the coverage check reports a shortfall: a withdrawal settled with a network
    fee before the house funded its fee balance. *)
Theorem coverage_can_fire_on_balanced_books :
  exists ps, Forall (fun p => is_ok (post p) = true) ps /\
    checkBooksBalance (history ps) = [] /\
    checkLiabilitiesCovered (history ps) = [custody_uncovered "devnet:SOL" 900 895 0 5].
Proof.
  exists unfunded_fee_run. split; [repeat constructor|]. split; vm_compute; reflexivity.
Qed.

(** ** Witnesses *)

Lemma unfunded_run_ok : owners_ok (history unfunded_fee_run) /\ Forall entry_wf (history unfunded_fee_run).
Proof.
  split; [|apply history_wf]. vm_compute. repeat constructor; discriminate.
Qed.

Lemma projection_exact_witness :
  available (projectUserBalance "u1" "devnet:SOL" (history unfunded_fee_run)) = 900 /\
  available (projectUserBalance "u1" "devnet:SOL" (history unfunded_fee_run)) =
    - net (on_account (userCustodyAvailable "u1" "devnet:SOL")) (history unfunded_fee_run).
Proof.
  split; [vm_compute; reflexivity|].
  apply (projection_exact (history unfunded_fee_run) (userCustodyAvailable "u1" "devnet:SOL")
           "u1" "devnet:SOL").
  - apply unfunded_run_ok.
  - split; [reflexivity|discriminate].
  - apply unfunded_run_ok.
Defined.

Lemma coverage_reports_unfunded_fees_witness :
  custody_uncovered "devnet:SOL" 900 895 0 5 ∈ checkLiabilitiesCovered (history unfunded_fee_run) /\
  exists a liabilities held0 rent0, custody_uncovered "devnet:SOL" 900 895 0 5 =
    custody_uncovered a liabilities held0 rent0 (- owed house_fees a (history unfunded_fee_run)) /\
    owed house_fees a (history unfunded_fee_run) < 0.
Proof.
  assert (Hin : custody_uncovered "devnet:SOL" 900 895 0 5 ∈ checkLiabilitiesCovered (history unfunded_fee_run)).
  { replace (checkLiabilitiesCovered (history unfunded_fee_run)) with
      [custody_uncovered "devnet:SOL" 900 895 0 5] by (vm_compute; reflexivity).
    apply list_elem_of_singleton. reflexivity. }
  split; [exact Hin|].
  apply (coverage_reports_unfunded_fees unfunded_fee_run); [apply unfunded_run_ok|exact Hin].
Defined.
