(* ===== verification/Orders.v ===== *)
(** * Order validation, holds and fill amounts

    [packages/orders/src] (collar, fees, hold, settlement, validate) and the order
    request of [packages/types/src/orders.ts]. A price or a quantity is the
    integer its branded decimal string stands for ([Decimal]). *)

From S2P Require Import Prelude Decimal Assets Price Market.
From Stdlib Require Import ZArith Lia.
From stdpp Require Import base list strings gmap.

Open Scope string_scope.
Open Scope list_scope.
Open Scope Z_scope.

(** ** [orders.ts] *)

Inductive Side := buy | sell.
Inductive OrderType := limit | market_order.
Inductive TimeInForce := GTC | IOC | FOK.
Inductive StpMode := cancel_taker | cancel_maker | cancel_both.

#[export] Instance Side_eq_dec : EqDecision Side.
Proof. solve_decision. Defined.
#[export] Instance OrderType_eq_dec : EqDecision OrderType.
Proof. solve_decision. Defined.
#[export] Instance TimeInForce_eq_dec : EqDecision TimeInForce.
Proof. solve_decision. Defined.
#[export] Instance StpMode_eq_dec : EqDecision StpMode.
Proof. solve_decision. Defined.

Inductive RejectReason :=
| UNKNOWN_MARKET | MARKET_NOT_OPEN | NO_REFERENCE_PRICE
| TICK_VIOLATION | LOT_VIOLATION | BELOW_MIN_NOTIONAL | OUTSIDE_COLLAR | NOTIONAL_OVERFLOW
| QUANTITY_NOT_POSITIVE | PRICE_REQUIRED | PRICE_NOT_ALLOWED | POST_ONLY_REQUIRES_LIMIT
| DUPLICATE_CLIENT_ORDER_ID
| POST_ONLY_WOULD_CROSS | SELF_TRADE_PREVENTED | UNKNOWN_ORDER.

#[export] Instance RejectReason_eq_dec : EqDecision RejectReason.
Proof. solve_decision. Defined.

Record OrderRequest := mkRequest {
  clientOrderId : string;
  req_market : string;
  side : Side;
  type : OrderType;
  timeInForce : TimeInForce;
  price : option Z;
  qty : Z;
  postOnly : bool;
  stpMode : StpMode;
  accountId : string
}.

(** ** [collar.ts] *)

Record CollarBand := mkBand { lower : Z; upper : Z }.

Record BookReference := mkReference {
  lastTradePrice : option Z; bestBid : option Z; bestAsk : option Z
}.

Definition referencePrice (reference : BookReference) : option Z :=
  match lastTradePrice reference with
  | Some p => Some p
  | None =>
      match bestBid reference, bestAsk reference with
      | Some b, Some a => Some (Z.quot (b + a) 2)
      | _, _ => None
      end
  end.

Definition collarBand (reference : Z) (market : Market) : result CollarBand :=
  if reference <? 0 then Throw RangeError else
  let deviation := Z.quot (reference * collarBps market) BPS_DENOMINATOR in
  let lower := reference - deviation in
  Ok (mkBand (if lower <? 0 then 0 else lower) (reference + deviation)).

Definition withinCollar (price : Z) (band : CollarBand) : bool :=
  (price >=? lower band) && (price <=? upper band).

(** ** [fees.ts] *)

Record FeeTier := mkTier { tier : Z; minVolume : Z; makerBps : Z; takerBps : Z }.

Definition tier0 : FeeTier := mkTier 0 0 10 20.

Definition FEE_TIERS : list FeeTier :=
  [tier0; mkTier 1 100000000000 8 18; mkTier 2 1000000000000 5 15;
   mkTier 3 10000000000000 2 10].

Definition WORST_CASE_TAKER_BPS : Z :=
  fold_left (fun worst t => Z.max worst (takerBps t)) FEE_TIERS 0.

Definition tierForVolume (volume : Z) : result FeeTier :=
  if volume <? 0 then Throw RangeError else
  Ok (fold_left (fun found t => if volume >=? minVolume t then t else found) FEE_TIERS tier0).

(** ** [hold.ts] *)

Record Hold := mkHoldTerms { hold_asset : string; hold_amount : Z; feeHeadroom : Z }.

Definition computeHold (request : OrderRequest) (market : Market) (reference : option Z)
  : result Hold :=
  let q := qty request in
  if q <=? 0 then Throw RangeError else
  match side request with
  | sell => Ok (mkHoldTerms (baseAsset market) q 0)
  | buy =>
      priceToReserveAt ←
        match type request with
        | limit => match price request with None => Throw TypeError | Some p => Ok p end
        | market_order =>
            match reference with
            | None => Throw TypeError
            | Some r => b ← collarBand r market; Ok (upper b)
            end
        end;
      value ← notional priceToReserveAt q;
      headroom ← feeAmount value WORST_CASE_TAKER_BPS;
      Ok (mkHoldTerms (quoteAsset market) (value + headroom) headroom)
  end.

(** ** [settlement.ts] *)

Record FillTerms := mkFillTerms {
  f_price : Z; f_qty : Z; f_takerSide : Side; f_takerBps : Z; f_makerBps : Z
}.

Record FillAmounts := mkFillAmounts {
  fa_notional : Z; buyerIsTaker : bool; buyerBps : Z; sellerBps : Z;
  buyerFee : Z; sellerFee : Z; fa_takerBps : Z; fa_makerBps : Z; takerFee : Z; makerFee : Z
}.

Definition fillAmounts (terms : FillTerms) : result FillAmounts :=
  if f_price terms <=? 0 then Throw RangeError else
  if f_qty terms <=? 0 then Throw RangeError else
  value ← notional (f_price terms) (f_qty terms);
  let takerBps := f_takerBps terms in
  let makerBps := f_makerBps terms in
  takerFee ← feeAmount value takerBps;
  makerFee ← feeAmount value makerBps;
  let buyerIsTaker := bool_decide (f_takerSide terms = buy) in
  Ok (mkFillAmounts value buyerIsTaker
        (if buyerIsTaker then takerBps else makerBps)
        (if buyerIsTaker then makerBps else takerBps)
        (if buyerIsTaker then takerFee else makerFee)
        (if buyerIsTaker then makerFee else takerFee)
        takerBps makerBps takerFee makerFee).

Record HoldConsumption := mkConsumption { buyerQuote : Z; sellerBase : Z }.

Definition holdConsumption (amounts : FillAmounts) (qty : Z) : HoldConsumption :=
  mkConsumption (fa_notional amounts + buyerFee amounts) qty.

(** ** [validate.ts] *)

Definition safeNotional (price qty : Z) : result (option Z) :=
  match notional price qty with
  | Ok v => Ok (Some v)
  | Throw RangeError => Ok None
  | Throw e => Throw e
  end.

Record OrderValidation := mkValidation {
  ok : bool; reasons : list RejectReason; band : option CollarBand; val_notional : option Z
}.

Definition push_if (b : bool) (r : RejectReason) (reasons : list RejectReason) : list RejectReason :=
  if b then reasons ++ [r] else reasons.

Definition is_some {A} (o : option A) : bool := match o with Some _ => true | None => false end.

Definition validateOrder (request : OrderRequest) (market : Market) (reference : option Z)
  : result OrderValidation :=
  (* market status *)
  let reasons :=
    if negb (bool_decide (status market ∈ PLACEABLE_STATUSES)) then [MARKET_NOT_OPEN]
    else if bool_decide (status market = post_only) && negb (postOnly request)
    then [MARKET_NOT_OPEN] else [] in
  (* input coherence *)
  let q := qty request in
  let reasons := push_if (q <=? 0) QUANTITY_NOT_POSITIVE reasons in
  let isLimit := bool_decide (type request = limit) in
  let reasons := push_if (isLimit && negb (is_some (price request))) PRICE_REQUIRED reasons in
  let reasons := push_if (negb isLimit && is_some (price request)) PRICE_NOT_ALLOWED reasons in
  let reasons := push_if (postOnly request && negb isLimit) POST_ONLY_REQUIRES_LIMIT reasons in
  let limitPrice := if isLimit then price request else None in
  (* tick *)
  tickViolation ← match limitPrice with
                  | None => Ok false
                  | Some p => b ← isMultipleOf p (tickSize market); Ok (negb b)
                  end;
  let reasons := push_if tickViolation TICK_VIOLATION reasons in
  (* lot *)
  lotViolation ← (if q >? 0 then b ← isMultipleOf q (lotSize market); Ok (negb b) else Ok false);
  let reasons := push_if lotViolation LOT_VIOLATION reasons in
  (* the price this order is judged at *)
  let judgedAt := match limitPrice with Some p => Some p | None => reference end in
  let reasons := push_if (negb isLimit && negb (is_some reference)) NO_REFERENCE_PRICE reasons in
  (* collar *)
  band ← match reference with
         | None => Ok None
         | Some r => b ← collarBand r market; Ok (Some b)
         end;
  let outside := match limitPrice, band with
                 | Some p, Some b => negb (withinCollar p b)
                 | _, _ => false
                 end in
  let reasons := push_if outside OUTSIDE_COLLAR reasons in
  (* minimum notional *)
  truncated ← match judgedAt with
              | Some p => if q >? 0 then safeNotional p q else Ok None
              | None => Ok None
              end;
  let judged := is_some judgedAt && (q >? 0) in
  let overflowed := judged && negb (is_some truncated) in
  let reasons := push_if (match truncated with
                          | Some t => t <? minNotional market
                          | None => false
                          end) BELOW_MIN_NOTIONAL reasons in
  (* the reserve of a buy *)
  overflowed ←
    (if negb overflowed && bool_decide (side request = buy) && (q >? 0) then
       match (match limitPrice with Some p => Some p | None => upper <$> band end) with
       | None => Ok overflowed
       | Some reservePrice =>
           reserve ← safeNotional reservePrice q;
           Ok (match reserve with
               | None => true
               | Some v => v + Z.quot (v * WORST_CASE_TAKER_BPS) 10000 >? MAX_U64
               end)
       end
     else Ok overflowed);
  let reasons := push_if overflowed NOTIONAL_OVERFLOW reasons in
  Ok (mkValidation (length reasons =? 0)%nat reasons band truncated).

(** ** What validation promises *)

Definition limit_price (r : OrderRequest) : option Z :=
  if bool_decide (type r = limit) then price r else None.

Definition judged_at (r : OrderRequest) (reference : option Z) : option Z :=
  match limit_price r with Some p => Some p | None => reference end.

Definition band_value (r : Z) (m : Market) : CollarBand :=
  let d := r * collarBps m / BPS_DENOMINATOR in mkBand (Z.max 0 (r - d)) (r + d).

(** The price a buy reserves at: its limit, or the top of the collar. *)
Definition reserve_price (r : OrderRequest) (m : Market) (reference : option Z) : option Z :=
  match limit_price r with
  | Some p => Some p
  | None => (fun x => upper (band_value x m)) <$> reference
  end.

Definition reserve_value (p q : Z) : Z :=
  notional_value p q + fee_value (notional_value p q) WORST_CASE_TAKER_BPS.

(** When each reason applies to an order, as arithmetic on the request. *)
Definition rejects (r : OrderRequest) (m : Market) (reference : option Z) (why : RejectReason) : Prop :=
  match why with
  | MARKET_NOT_OPEN =>
      status m = pre_open \/ status m = halted \/ (status m = post_only /\ postOnly r = false)
  | QUANTITY_NOT_POSITIVE => qty r <= 0
  | PRICE_REQUIRED => type r = limit /\ price r = None
  | PRICE_NOT_ALLOWED => type r = market_order /\ price r <> None
  | POST_ONLY_REQUIRES_LIMIT => postOnly r = true /\ type r = market_order
  | TICK_VIOLATION => exists p, limit_price r = Some p /\ ~ (tickSize m | p)
  | LOT_VIOLATION => 0 < qty r /\ ~ (lotSize m | qty r)
  | NO_REFERENCE_PRICE => type r = market_order /\ reference = None
  | OUTSIDE_COLLAR => exists p x, limit_price r = Some p /\ reference = Some x /\
      x * collarBps m < Z.abs (p - x) * BPS_DENOMINATOR
  | BELOW_MIN_NOTIONAL => exists p, judged_at r reference = Some p /\ 0 < qty r /\
      notional_value p (qty r) <= MAX_U64 /\ notional_value p (qty r) < minNotional m
  | NOTIONAL_OVERFLOW => 0 < qty r /\
      ((exists p, judged_at r reference = Some p /\ MAX_U64 < notional_value p (qty r)) \/
       (side r = buy /\ exists p, reserve_price r m reference = Some p /\
          MAX_U64 < reserve_value p (qty r)))
  | _ => False
  end.

(** ** Lemmas: the arithmetic of the checks *)

Lemma WORST_CASE_value : WORST_CASE_TAKER_BPS = 20.
Proof. reflexivity. Qed.

Definition divides (s v : Z) : bool := v mod s =? 0.

Lemma divides_true s v : 0 < s -> divides s v = true <-> (s | v).
Proof. intros Hs. unfold divides. rewrite Z.eqb_eq. apply Z.mod_divide. lia. Qed.

Lemma isMultipleOf_divide v s : 0 < s -> isMultipleOf v s = Ok (divides s v).
Proof.
  intros Hs. unfold isMultipleOf. destruct (Z.leb_spec s 0); [lia|]. f_equal.
  apply eq_true_iff_eq. rewrite divides_true, Z.eqb_eq by done. apply Z.rem_divide. lia.
Qed.

Lemma collarBand_value r m : 0 <= r -> 0 < collarBps m -> collarBand r m = Ok (band_value r m).
Proof.
  intros Hr Hc. unfold collarBand, band_value. destruct (Z.ltb_spec r 0); [lia|].
  rewrite quot_nonneg by (unfold BPS_DENOMINATOR; nia).
  set (d := r * collarBps m / BPS_DENOMINATOR). simpl. do 2 f_equal.
  destruct (Z.ltb_spec (r - d) 0); lia.
Qed.

(** The band admits exactly the prices within [collarBps] of the reference. *)
Lemma withinCollar_value p r m :
  0 <= p -> 0 <= r -> 0 < collarBps m ->
  withinCollar p (band_value r m) = true <-> Z.abs (p - r) * BPS_DENOMINATOR <= r * collarBps m.
Proof.
  intros Hp Hr Hc. unfold withinCollar, band_value. simpl.
  set (d := r * collarBps m / BPS_DENOMINATOR).
  assert (Hd : forall x, x <= d <-> x * BPS_DENOMINATOR <= r * collarBps m).
  { intros x. unfold d. split; [intros; pose proof (Z.mul_div_le (r * collarBps m) BPS_DENOMINATOR ltac:(done)); unfold BPS_DENOMINATOR in *; lia|intros; apply Z.div_le_lower_bound; [done|lia]]. }
  rewrite <- Hd, andb_true_iff. assert (0 <= d) by (apply Z.div_pos; [nia|done]).
  split; intros; lia.
Qed.

Lemma safeNotional_value p q :
  0 <= p -> 0 < q ->
  safeNotional p q = Ok (if notional_value p q <=? MAX_U64 then Some (notional_value p q) else None).
Proof.
  intros Hp Hq. unfold safeNotional. destruct (notional p q) as [v|e] eqn:E.
  - apply notional_Ok in E as (_ & _ & -> & Hv). by destruct (Z.leb_spec (notional_value p q) MAX_U64); [|lia].
  - apply notional_Throw in E as [-> He]. destruct (Z.leb_spec (notional_value p q) MAX_U64); [lia|done].
Qed.

Lemma push_if_elem b w l x : x ∈ push_if b w l <-> x ∈ l \/ (b = true /\ x = w).
Proof. unfold push_if. destruct b; set_solver. Qed.

(** The notional at which an order is judged, if it fits. *)
Definition truncated_value (r : OrderRequest) (reference : option Z) : option Z :=
  p ← judged_at r reference;
  if (qty r >? 0) && (notional_value p (qty r) <=? MAX_U64)
  then Some (notional_value p (qty r)) else None.

Definition overflow_value (r : OrderRequest) (m : Market) (reference : option Z) : bool :=
  (qty r >? 0) &&
  (match judged_at r reference with Some p => notional_value p (qty r) >? MAX_U64 | None => false end ||
   (bool_decide (side r = buy) &&
    match reserve_price r m reference with
    | Some p => reserve_value p (qty r) >? MAX_U64
    | None => false
    end)).

Definition opt_nonneg (o : option Z) : Prop := forall x, o = Some x -> 0 <= x.

Definition reasons_value (r : OrderRequest) (m : Market) (reference : option Z) : list RejectReason :=
  let isLimit := bool_decide (type r = limit) in
  push_if (overflow_value r m reference) NOTIONAL_OVERFLOW
  (push_if (match truncated_value r reference with Some t => t <? minNotional m | None => false end)
    BELOW_MIN_NOTIONAL
  (push_if (match limit_price r, reference with
            | Some p, Some x => negb (withinCollar p (band_value x m))
            | _, _ => false end) OUTSIDE_COLLAR
  (push_if (negb isLimit && negb (is_some reference)) NO_REFERENCE_PRICE
  (push_if ((qty r >? 0) && negb (divides (lotSize m) (qty r))) LOT_VIOLATION
  (push_if (match limit_price r with Some p => negb (divides (tickSize m) p) | None => false end)
    TICK_VIOLATION
  (push_if (postOnly r && negb isLimit) POST_ONLY_REQUIRES_LIMIT
  (push_if (negb isLimit && is_some (price r)) PRICE_NOT_ALLOWED
  (push_if (isLimit && negb (is_some (price r))) PRICE_REQUIRED
  (push_if (qty r <=? 0) QUANTITY_NOT_POSITIVE
  (push_if (negb (bool_decide (status m ∈ PLACEABLE_STATUSES)) ||
            (bool_decide (status m = post_only) && negb (postOnly r))) MARKET_NOT_OPEN [])))))))))).

Lemma reserve_price_nonneg r m reference p :
  0 < collarBps m -> opt_nonneg (limit_price r) -> opt_nonneg reference ->
  reserve_price r m reference = Some p -> 0 <= p.
Proof.
  intros Hc Hlp Hr. unfold reserve_price. destruct (limit_price r) as [x|] eqn:E.
  - intros [= <-]. by apply Hlp.
  - destruct reference as [x|]; [|done]. simpl. intros [= <-].
    assert (0 <= x) by by apply Hr. assert (0 <= x * collarBps m / BPS_DENOMINATOR); [|lia].
    apply Z.div_pos; [nia|done].
Qed.

(** The last two overflow steps of validation. *)
Lemma overflow_step r m reference :
  0 < collarBps m -> opt_nonneg (limit_price r) -> opt_nonneg reference ->
  (if negb ((is_some (judged_at r reference) && (qty r >? 0)) && negb (is_some (truncated_value r reference)))
      && bool_decide (side r = buy) && (qty r >? 0) then
       match (match limit_price r with Some p => Some p
              | None => upper <$> (reference ≫= fun x => Some (band_value x m)) end) with
       | None => Ok ((is_some (judged_at r reference) && (qty r >? 0)) && negb (is_some (truncated_value r reference)))
       | Some reservePrice =>
           reserve ← safeNotional reservePrice (qty r);
           Ok (match reserve with
               | None => true
               | Some v => v + Z.quot (v * WORST_CASE_TAKER_BPS) 10000 >? MAX_U64
               end)
       end
     else Ok ((is_some (judged_at r reference) && (qty r >? 0)) && negb (is_some (truncated_value r reference))))
  = Ok (overflow_value r m reference).
Proof.
  intros Hc Hlp Hr. unfold overflow_value.
  assert (Hov : (is_some (judged_at r reference) && (qty r >? 0)) && negb (is_some (truncated_value r reference))
     = (qty r >? 0) && match judged_at r reference with
                       | Some p => notional_value p (qty r) >? MAX_U64 | None => false end).
  { unfold truncated_value. destruct (judged_at r reference) as [p|]; simpl; [|by rewrite andb_false_r].
    destruct (qty r >? 0); simpl; [|done].
    destruct (Z.leb_spec (notional_value p (qty r)) MAX_U64), (Z.gtb_spec (notional_value p (qty r)) MAX_U64); lia || done. }
  rewrite Hov. clear Hov. set (o := match judged_at r reference with Some p => _ | None => _ end).
  destruct (Z.gtb_spec (qty r) 0) as [Hq|Hq]; simpl; [|by rewrite andb_false_r].
  destruct o; simpl; [done|]. case_bool_decide as Hside; simpl; [|done].
  assert (Hrp : match limit_price r with Some p => Some p
              | None => upper <$> (reference ≫= fun x => Some (band_value x m)) end
              = reserve_price r m reference).
  { unfold reserve_price. by destruct (limit_price r), reference. }
  rewrite Hrp. destruct (reserve_price r m reference) as [p|] eqn:E; [|done].
  assert (Hp : 0 <= p) by by apply (reserve_price_nonneg r m reference).
  rewrite safeNotional_value by done. simpl. f_equal.
  pose proof (notional_value_nonneg p (qty r) Hp ltac:(lia)) as Hn.
  assert (Hf : 0 <= fee_value (notional_value p (qty r)) WORST_CASE_TAKER_BPS)
    by (apply fee_value_nonneg; [done|by rewrite WORST_CASE_value]).
  unfold reserve_value. destruct (Z.leb_spec (notional_value p (qty r)) MAX_U64) as [Hle|Hgt].
  - rewrite quot_nonneg by (rewrite ?WORST_CASE_value; lia). done.
  - symmetry. apply Z.gtb_lt. lia.
Qed.

(** Validation evaluated: no check can throw on a coherent market and
    non-negative prices, and its list is the reasons in source order. *)
Lemma validateOrder_value r m reference :
  market_wf m -> opt_nonneg (price r) -> opt_nonneg reference ->
  validateOrder r m reference =
  Ok (mkValidation (length (reasons_value r m reference) =? 0)%nat (reasons_value r m reference)
        (reference ≫= fun x => Some (band_value x m)) (truncated_value r reference)).
Proof.
  intros [_ _ _ [Ht _] [Hl _] _ Hc] Hp Hr.
  assert (Hlot : (if qty r >? 0 then b ← isMultipleOf (qty r) (lotSize m); Ok (negb b) else Ok false)
     = Ok ((qty r >? 0) && negb (divides (lotSize m) (qty r)))).
  { rewrite isMultipleOf_divide by done. by destruct (qty r >? 0). }
  assert (Htick : match limit_price r with
                  | None => Ok false
                  | Some p => b ← isMultipleOf p (tickSize m); Ok (negb b)
                  end = Ok (match limit_price r with Some p => negb (divides (tickSize m) p) | None => false end)).
  { destruct (limit_price r); [|done]. by rewrite isMultipleOf_divide. }
  assert (Hband : match reference with
         | None => Ok None
         | Some x => b ← collarBand x m; Ok (Some b)
         end = Ok (reference ≫= fun x => Some (band_value x m))).
  { destruct reference as [x|]; [|done]. by rewrite collarBand_value by auto. }
  assert (Hlp : opt_nonneg (limit_price r)).
  { unfold limit_price. case_bool_decide; [done|]. by intros x. }
  assert (Hja : opt_nonneg (judged_at r reference)).
  { unfold judged_at. destruct (limit_price r); auto. }
  assert (Htr : match judged_at r reference with
              | Some p => if qty r >? 0 then safeNotional p (qty r) else Ok None
              | None => Ok None
              end = Ok (truncated_value r reference)).
  { unfold truncated_value. destruct (judged_at r reference) as [p|] eqn:E; [|done]. simpl.
    destruct (Z.gtb_spec (qty r) 0); [|done]. rewrite safeNotional_value by auto. done. }
  unfold validateOrder. fold (limit_price r). rewrite Htick. simpl. rewrite Hlot. simpl.
  fold (judged_at r reference). rewrite Hband. simpl. rewrite Htr. simpl.
  assert (Hstatus : (if negb (bool_decide (status m ∈ PLACEABLE_STATUSES)) then [MARKET_NOT_OPEN]
    else if bool_decide (status m = post_only) && negb (postOnly r) then [MARKET_NOT_OPEN] else []) =
    push_if (negb (bool_decide (status m ∈ PLACEABLE_STATUSES)) ||
            (bool_decide (status m = post_only) && negb (postOnly r))) MARKET_NOT_OPEN []).
  { unfold push_if. by destruct (negb (bool_decide (_ ∈ _))). }
  rewrite Hstatus.
  match goal with |- (?ov ≫= _) = _ => assert (Hov : ov = Ok (overflow_value r m reference)) end.
  { by apply overflow_step. }
  rewrite Hov. unfold mbind at 1, result_bind at 1.
  assert (Hout : match limit_price r, (reference ≫= fun x => Some (band_value x m)) with
                 | Some p, Some b => negb (withinCollar p b)
                 | _, _ => false
                 end = match limit_price r, reference with
                 | Some p, Some x => negb (withinCollar p (band_value x m))
                 | _, _ => false end).
  { by destruct (limit_price r), reference. }
  rewrite Hout. reflexivity.
Qed.

(** Every listed reason is one that applies, and every one that applies is listed. *)
Lemma reasons_value_spec r m reference why :
  market_wf m -> opt_nonneg (price r) -> opt_nonneg reference ->
  why ∈ reasons_value r m reference <-> rejects r m reference why.
Proof.
  intros [_ _ _ [Ht _] [Hl _] _ Hc] Hp Hr. unfold reasons_value. rewrite !push_if_elem, elem_of_nil.
  assert (Hlp : opt_nonneg (limit_price r)).
  { unfold limit_price. case_bool_decide; [done|]. by intros x. }
  destruct why; simpl; try (split; [intros H; repeat destruct H as [H|[? ?]]; done|done]).
  - (* MARKET_NOT_OPEN *)
    destruct (status m) eqn:E, (postOnly r) eqn:E'; simpl; split; intros H; try (intuition congruence);
      naive_solver.
  - (* NO_REFERENCE_PRICE *)
    destruct (type r) eqn:E, reference; simpl; intuition congruence.
  - (* TICK_VIOLATION *)
    destruct (limit_price r) as [p|] eqn:E; simpl; [|naive_solver].
    assert (Hd : negb (divides (tickSize m) p) = true <-> ~ (tickSize m | p)).
    { rewrite negb_true_iff, <- not_true_iff_false, divides_true by done. done. }
    rewrite Hd. naive_solver.
  - (* LOT_VIOLATION *)
    assert (Hd : (qty r >? 0) && negb (divides (lotSize m) (qty r)) = true <->
                 0 < qty r /\ ~ (lotSize m | qty r)).
    { rewrite andb_true_iff, negb_true_iff, <- not_true_iff_false, divides_true by done.
      rewrite Z.gtb_lt. done. }
    rewrite Hd. naive_solver.
  - (* BELOW_MIN_NOTIONAL *)
    unfold truncated_value. destruct (judged_at r reference) as [p|]; simpl; [|naive_solver].
    destruct (Z.gtb_spec (qty r) 0), (Z.leb_spec (notional_value p (qty r)) MAX_U64); simpl.
    2-4: split; [intros H'; repeat destruct H' as [H'|[? ?]]; done|intros (p' & [= <-] & ? & ? & ?); lia].
    rewrite Z.ltb_lt. split; [intros H'; repeat destruct H' as [H'|[? ?]]; try done; eauto 6|].
    intros (p' & [= <-] & ? & ? & ?). tauto.
  - (* OUTSIDE_COLLAR *)
    destruct (limit_price r) as [p|] eqn:E, reference as [x|]; simpl;
      try (split; [intros H'; repeat destruct H' as [H'|[? ?]]; done|naive_solver]).
    assert (Hw : negb (withinCollar p (band_value x m)) = true <->
                 x * collarBps m < Z.abs (p - x) * BPS_DENOMINATOR).
    { rewrite negb_true_iff, <- not_true_iff_false, withinCollar_value by auto. lia. }
    rewrite Hw. split; [intros H'; repeat destruct H' as [H'|[? ?]]; try done; eauto 6|].
    intros (p' & x' & [= <-] & [= <-] & ?). tauto.
  - (* NOTIONAL_OVERFLOW *)
    assert (Hv : overflow_value r m reference = true <-> rejects r m reference NOTIONAL_OVERFLOW).
    { unfold overflow_value. simpl. rewrite andb_true_iff, orb_true_iff, andb_true_iff, Z.gtb_lt, bool_decide_eq_true.
      apply and_iff_compat_l. destruct (judged_at r reference), (reserve_price r m reference);
        rewrite ?Z.gtb_lt; naive_solver. }
    simpl in Hv. rewrite <- Hv. split; [intros H'; repeat destruct H' as [H'|[? ?]]; done|tauto].
  - (* QUANTITY_NOT_POSITIVE *)
    rewrite Z.leb_le. split; [intros H'; repeat destruct H' as [H'|[? ?]]; done|tauto].
  - (* PRICE_REQUIRED *)
    destruct (type r) eqn:E, (price r); simpl; intuition congruence.
  - (* PRICE_NOT_ALLOWED *)
    destruct (type r) eqn:E, (price r); simpl; intuition congruence.
  - (* POST_ONLY_REQUIRES_LIMIT *)
    destruct (type r) eqn:E, (postOnly r); simpl; intuition congruence.
Qed.

(** What acceptance rules out: every reason. *)
Lemma accepted_rejects r m reference v :
  market_wf m -> opt_nonneg (price r) -> opt_nonneg reference ->
  validateOrder r m reference = Ok v -> ok v = true -> forall why, ~ rejects r m reference why.
Proof.
  intros Hm Hp Hr Hv Hok why Hwhy. rewrite validateOrder_value in Hv by done. injection Hv as <-.
  simpl in Hok. apply Nat.eqb_eq, length_zero_iff_nil in Hok.
  apply (reasons_value_spec r m reference why Hm Hp Hr) in Hwhy. rewrite Hok in Hwhy. set_solver.
Qed.

(** A request whose price is present exactly when it is a limit order. *)
Definition coherent (r : OrderRequest) : Prop := is_some (price r) = bool_decide (type r = limit).

Lemma none_coherent r m reference : (forall why, ~ rejects r m reference why) -> coherent r.
Proof.
  intros Hnone. pose proof (Hnone PRICE_REQUIRED) as H1. pose proof (Hnone PRICE_NOT_ALLOWED) as H2.
  unfold coherent. simpl in *. destruct (type r), (price r); simpl; naive_solver.
Qed.

(** Evaluating a hold: a sell holds its quantity, a buy its reserve. *)
Lemma computeHold_sell r m reference :
  0 < qty r -> side r = sell ->
  computeHold r m reference = Ok (mkHoldTerms (baseAsset m) (qty r) 0).
Proof. intros Hq Hs. unfold computeHold. destruct (Z.leb_spec (qty r) 0); [lia|]. by rewrite Hs. Qed.

Lemma limit_price_nonneg r : opt_nonneg (price r) -> opt_nonneg (limit_price r).
Proof. intros Hp. unfold limit_price. case_bool_decide; [done|]. by intros x. Qed.

Lemma computeHold_buy r m reference h :
  0 < collarBps m -> opt_nonneg (price r) -> opt_nonneg reference -> coherent r -> side r = buy ->
  computeHold r m reference = Ok h <->
  0 < qty r /\ exists p, reserve_price r m reference = Some p /\
    notional_value p (qty r) <= MAX_U64 /\
    h = mkHoldTerms (quoteAsset m) (reserve_value p (qty r))
          (fee_value (notional_value p (qty r)) WORST_CASE_TAKER_BPS).
Proof.
  intros Hc Hp Hr Hco Hs. unfold computeHold. rewrite Hs.
  destruct (Z.leb_spec (qty r) 0) as [Hq|Hq]; [split; [done|lia]|].
  assert (Hres : match type r with
        | limit => match price r with None => Throw TypeError | Some p => Ok p end
        | market_order => match reference with
            | None => Throw TypeError
            | Some x => b ← collarBand x m; Ok (upper b) end
        end = match reserve_price r m reference with Some p => Ok p | None => Throw TypeError end).
  { unfold reserve_price, limit_price, coherent in *. destruct (type r) eqn:E; simpl in *.
    - by destruct (price r).
    - destruct reference as [x|]; [|done]. by rewrite collarBand_value by auto. }
  rewrite Hres. destruct (reserve_price r m reference) as [p|] eqn:E; [|split; [done|naive_solver]].
  assert (Hp0 : 0 <= p) by (by apply (reserve_price_nonneg r m reference); try apply limit_price_nonneg).
  assert (Hn : 0 <= notional_value p (qty r)) by (apply notional_value_nonneg; lia).
  simpl. split.
  - intros H. inv_ok. apply notional_Ok in H as (_ & _ & -> & Hv).
    apply feeAmount_Ok in H0 as (_ & _ & ->). split; [done|]. by exists p.
  - intros (_ & p' & [= <-] & Hv & ->).
    rewrite (proj2 (notional_Ok p (qty r) _)) by (repeat split; done || lia). simpl.
    rewrite (proj2 (feeAmount_Ok _ WORST_CASE_TAKER_BPS _)) by (repeat split; done || lia). done.
Qed.

Lemma reserve_value_bounds p q :
  0 <= p -> 0 <= q -> 0 <= notional_value p q <= reserve_value p q.
Proof.
  intros Hp Hq. pose proof (notional_value_nonneg p q Hp Hq).
  pose proof (fee_value_nonneg (notional_value p q) WORST_CASE_TAKER_BPS ltac:(done) ltac:(done)).
  unfold reserve_value. lia.
Qed.

(** The rates of the schedule. *)
Lemma fee_tiers_bounds t :
  t ∈ FEE_TIERS -> 0 <= makerBps t < takerBps t /\ takerBps t <= WORST_CASE_TAKER_BPS.
Proof.
  rewrite WORST_CASE_value. unfold FEE_TIERS. rewrite !elem_of_cons, elem_of_nil.
  intros [->|[->|[->|[->|[]]]]]; simpl; lia.
Qed.

(** A fill priced and rated within what a reserve assumed. *)
Definition fill_within (p : Z) (f : FillTerms) : Prop :=
  0 < f_price f <= p /\ 0 < f_qty f /\
  (exists t, t ∈ FEE_TIERS /\ takerBps t = f_takerBps f) /\
  (exists t, t ∈ FEE_TIERS /\ makerBps t = f_makerBps f).

Lemma fillAmounts_Ok f :
  0 < f_price f -> 0 < f_qty f -> 0 <= f_takerBps f -> 0 <= f_makerBps f ->
  notional_value (f_price f) (f_qty f) <= MAX_U64 ->
  exists a, fillAmounts f = Ok a /\ fa_notional a = notional_value (f_price f) (f_qty f) /\
    buyerFee a = fee_value (fa_notional a)
                   (if bool_decide (f_takerSide f = buy) then f_takerBps f else f_makerBps f) /\
    sellerFee a = fee_value (fa_notional a)
                   (if bool_decide (f_takerSide f = buy) then f_makerBps f else f_takerBps f) /\
    fa_takerBps a = f_takerBps f /\ fa_makerBps a = f_makerBps f /\
    takerFee a = fee_value (fa_notional a) (f_takerBps f) /\
    makerFee a = fee_value (fa_notional a) (f_makerBps f).
Proof.
  intros Hp Hq Ht Hm Hv. unfold fillAmounts.
  destruct (Z.leb_spec (f_price f) 0), (Z.leb_spec (f_qty f) 0); try lia.
  pose proof (notional_value_nonneg (f_price f) (f_qty f) ltac:(lia) ltac:(lia)).
  rewrite (proj2 (notional_Ok _ _ _)) by (repeat split; done || lia). simpl.
  rewrite (proj2 (feeAmount_Ok _ (f_takerBps f) _)) by (repeat split; done || lia). simpl.
  rewrite (proj2 (feeAmount_Ok _ (f_makerBps f) _)) by (repeat split; done || lia). simpl.
  eexists. split; [done|]. simpl. by destruct (bool_decide _).
Qed.

(** One fill within the reserve costs the buyer at most the reserve of its quantity. *)
Lemma fill_cost p f :
  fill_within p f -> notional_value p (f_qty f) <= MAX_U64 ->
  exists a, fillAmounts f = Ok a /\
    buyerQuote (holdConsumption a (f_qty f)) <= reserve_value p (f_qty f).
Proof.
  intros (Hp & Hq & (t & Ht & Htb) & (t' & Ht' & Hmb)) Hv.
  apply fee_tiers_bounds in Ht, Ht'.
  assert (Hn : notional_value (f_price f) (f_qty f) <= notional_value p (f_qty f))
    by (apply notional_value_mono; lia).
  pose proof (notional_value_nonneg (f_price f) (f_qty f) ltac:(lia) ltac:(lia)).
  destruct (fillAmounts_Ok f) as (a & Ha & Hna & Hbf & _); try lia.
  exists a. split; [done|]. simpl. unfold reserve_value.
  assert (Hfee : buyerFee a <= fee_value (notional_value p (f_qty f)) WORST_CASE_TAKER_BPS).
  { rewrite Hbf, Hna. apply fee_value_mono; [lia|]. case_bool_decide; lia. }
  lia.
Qed.

(** Reserves are superadditive in the quantity, so parts never cost more than the whole. *)
Lemma reserve_value_add p q q' :
  0 <= p -> 0 <= q -> 0 <= q' -> reserve_value p q + reserve_value p q' <= reserve_value p (q + q').
Proof.
  intros Hp Hq Hq'. unfold reserve_value.
  pose proof (notional_value_add p q q').
  pose proof (notional_value_nonneg p q Hp Hq). pose proof (notional_value_nonneg p q' Hp Hq').
  pose proof (fee_value_add (notional_value p q) (notional_value p q') WORST_CASE_TAKER_BPS).
  pose proof (fee_value_mono (notional_value p q + notional_value p q') (notional_value p (q + q'))
                WORST_CASE_TAKER_BPS WORST_CASE_TAKER_BPS ltac:(lia) ltac:(rewrite WORST_CASE_value; lia)).
  lia.
Qed.

Lemma reserve_value_mono p q q' :
  0 <= p -> 0 <= q <= q' -> reserve_value p q <= reserve_value p q'.
Proof.
  intros Hp Hq. replace q' with (q + (q' - q)) by lia.
  pose proof (reserve_value_add p q (q' - q) Hp ltac:(lia) ltac:(lia)).
  pose proof (reserve_value_bounds p (q' - q) Hp ltac:(lia)). lia.
Qed.

Lemma reserve_value_price_mono p p' q :
  0 <= p <= p' -> 0 <= q -> reserve_value p q <= reserve_value p' q.
Proof.
  intros Hp Hq. unfold reserve_value.
  pose proof (notional_value_mono p p' q q ltac:(lia) ltac:(lia)).
  pose proof (notional_value_nonneg p q ltac:(lia) Hq).
  pose proof (fee_value_mono (notional_value p q) (notional_value p' q) WORST_CASE_TAKER_BPS WORST_CASE_TAKER_BPS
                ltac:(lia) ltac:(rewrite WORST_CASE_value; lia)). lia.
Qed.

Lemma fills_cost p fs :
  0 <= p -> Forall (fill_within p) fs -> notional_value p (zsum (map f_qty fs)) <= MAX_U64 ->
  0 <= zsum (map f_qty fs) /\
  exists amounts, map_result fillAmounts fs = Ok amounts /\
    zsum (map (fun fa => buyerQuote (holdConsumption fa.2 (f_qty fa.1))) (zip fs amounts)) <=
    reserve_value p (zsum (map f_qty fs)).
Proof.
  intros Hp Hall. induction Hall as [|f fs Hf Hfs IH]; intros Hv.
  - split; [done|]. exists []. split; [done|].
    pose proof (reserve_value_bounds p 0 Hp ltac:(lia)). simpl. rewrite zsum_nil. lia.
  - simpl map in *. rewrite zsum_cons in *. pose proof Hf as (_ & Hq & _).
    assert (Hnn : 0 <= zsum (map f_qty fs)).
    { apply zsum_nonneg, Forall_map. eapply Forall_impl; [exact Hfs|]. intros g (_ & ? & _). simpl. lia. }
    assert (Hv1 : notional_value p (f_qty f) <= MAX_U64).
    { etrans; [|exact Hv]. apply notional_value_mono; lia. }
    assert (Hv2 : notional_value p (zsum (map f_qty fs)) <= MAX_U64).
    { etrans; [|exact Hv]. apply notional_value_mono; lia. }
    destruct (IH Hv2) as (_ & amounts & Hm & Hs). destruct (fill_cost p f Hf Hv1) as (a & Ha & Hc).
    split; [lia|]. exists (a :: amounts). simpl. rewrite Ha. simpl. rewrite Hm. split; [done|].
    rewrite zsum_cons. simpl. pose proof (reserve_value_add p (f_qty f) (zsum (map f_qty fs)) Hp ltac:(lia) Hnn).
    simpl in Hc. lia.
Qed.

(** A buy reserves at a price no lower than the one it was judged at. *)
Lemma judged_le_reserve r m reference p :
  opt_nonneg (price r) -> opt_nonneg reference -> 0 < collarBps m ->
  reserve_price r m reference = Some p ->
  exists j, judged_at r reference = Some j /\ 0 <= j <= p.
Proof.
  intros Hp Hr Hc. unfold reserve_price, judged_at. destruct (limit_price r) as [x|] eqn:E.
  - intros [= <-]. exists x. split; [done|]. pose proof (limit_price_nonneg r Hp x E). lia.
  - destruct reference as [x|]; [|done]. simpl. intros [= <-]. exists x. split; [done|].
    pose proof (Hr x eq_refl). assert (0 <= x * collarBps m / BPS_DENOMINATOR); [|lia].
    apply Z.div_pos; [nia|done].
Qed.

(** ** Properties *)

(** Order validation is total and complete. On a coherent market, with non-negative prices,
    it never throws; the reasons it lists are exactly the ones that apply to the order,
    whichever others apply too; and the order is accepted exactly when none does. *)
Theorem validateOrder_complete r m reference :
  market_wf m -> opt_nonneg (price r) -> opt_nonneg reference ->
  exists v, validateOrder r m reference = Ok v /\
    (forall why, why ∈ reasons v <-> rejects r m reference why) /\
    (ok v = true <-> forall why, ~ rejects r m reference why).
Proof.
  intros Hm Hp Hr. eexists. split; [by apply validateOrder_value|]. simpl. split.
  - intros why. by apply reasons_value_spec.
  - rewrite Nat.eqb_eq, length_zero_iff_nil. split.
    + intros Hnil why Hwhy. apply (reasons_value_spec r m reference why Hm Hp Hr) in Hwhy.
      rewrite Hnil in Hwhy. set_solver.
    + intros Hnone. destruct (reasons_value r m reference) as [|why l] eqn:E; [done|].
      exfalso. apply (Hnone why). apply (reasons_value_spec r m reference why Hm Hp Hr).
      rewrite E. set_solver.
Qed.

(** An order that validates can be held. Its hold is computed, in the asset the order spends,
    is positive and fits an unsigned 64-bit integer; a buy's hold carries its fee headroom and
    at least the market's minimum notional. *)
Theorem validated_order_holds r m reference v :
  market_wf m -> opt_nonneg (price r) -> opt_nonneg reference -> qty r <= MAX_U64 ->
  validateOrder r m reference = Ok v -> ok v = true ->
  exists h, computeHold r m reference = Ok h /\
    hold_asset h = match side r with buy => quoteAsset m | sell => baseAsset m end /\
    0 < hold_amount h <= MAX_U64 /\
    (side r = buy -> minNotional m <= hold_amount h - feeHeadroom h /\ 0 <= feeHeadroom h).
Proof.
  intros Hm Hp Hr Hqm Hv Hok. pose proof (accepted_rejects r m reference v Hm Hp Hr Hv Hok) as Hnone.
  pose proof (Hnone QUANTITY_NOT_POSITIVE) as Hq. simpl in Hq.
  destruct (side r) eqn:Es.
  2: { eexists. split; [apply computeHold_sell; [lia|done]|]. simpl. split; [done|]. split; [lia|done]. }
  pose proof (none_coherent r m reference Hnone) as Hco.
  assert (Hres : exists p, reserve_price r m reference = Some p).
  { pose proof (Hnone NO_REFERENCE_PRICE) as H1. unfold reserve_price, limit_price, coherent in *.
    simpl in H1. destruct (type r); simpl in *; [destruct (price r)|destruct reference]; naive_solver. }
  destruct Hres as [p Hpe].
  pose proof (wf_collar m Hm) as Hc. pose proof (wf_minNotional m Hm) as Hmin.
  assert (Hp0 : 0 <= p) by (by apply (reserve_price_nonneg r m reference); try apply limit_price_nonneg).
  pose proof (reserve_value_bounds p (qty r) Hp0 ltac:(lia)) as [Hn0 Hn1].
  assert (Hfit : reserve_value p (qty r) <= MAX_U64).
  { destruct (Z.le_gt_cases (reserve_value p (qty r)) MAX_U64); [done|]. exfalso.
    apply (Hnone NOTIONAL_OVERFLOW). simpl. split; [lia|]. right. split; [done|]. eauto. }
  eexists. split; [apply computeHold_buy; try done; split; [lia|]; exists p; split; [done|]; split; [lia|done]|].
  assert (Hmn : minNotional m <= notional_value p (qty r)).
  { destruct (judged_le_reserve r m reference p Hp Hr Hc Hpe) as (j & Hj & Hjp).
    destruct (Z.le_gt_cases (minNotional m) (notional_value j (qty r))).
    - etrans; [done|]. apply notional_value_mono; lia.
    - exfalso. apply (Hnone BELOW_MIN_NOTIONAL). exists j. split; [done|]. split; [lia|]. split; [|done].
      etrans; [apply (notional_value_mono j p (qty r) (qty r)); lia|lia]. }
  simpl. split; [done|]. unfold reserve_value in *. split; [lia|]. intros _. lia.
Qed.

(** C38: a hold always covers its order. For a buy, whatever sequence of fills the engine makes, at
    prices no worse than the one reserved at, for no more than the ordered quantity, and at
    any maker or taker rate of the schedule, every fill's amounts are computed without overflow
    and together, fees included and with each rounded separately, they consume no more
    than the hold. *)
Theorem buy_hold_covers_fills r m reference h p fs :
  0 < collarBps m -> opt_nonneg (price r) -> opt_nonneg reference -> coherent r -> side r = buy ->
  computeHold r m reference = Ok h -> reserve_price r m reference = Some p ->
  Forall (fill_within p) fs -> zsum (map f_qty fs) <= qty r ->
  exists amounts, map_result fillAmounts fs = Ok amounts /\
    zsum (map (fun fa => buyerQuote (holdConsumption fa.2 (f_qty fa.1))) (zip fs amounts)) <=
    hold_amount h.
Proof.
  intros Hc Hp Hr Hco Hs Hh Hpe Hall Hqs.
  apply (computeHold_buy r m reference h Hc Hp Hr Hco Hs) in Hh as (Hq & p' & Hp' & Hv & ->).
  rewrite Hpe in Hp'. injection Hp' as <-.
  assert (Hp0 : 0 <= p) by (by apply (reserve_price_nonneg r m reference); try apply limit_price_nonneg).
  assert (Hnn : 0 <= zsum (map f_qty fs)).
  { apply zsum_nonneg, Forall_map. eapply Forall_impl; [exact Hall|]. intros g (_ & ? & _). simpl. lia. }
  destruct (fills_cost p fs Hp0 Hall) as (_ & amounts & Hm & Hsum).
  { etrans; [|exact Hv]. apply notional_value_mono; lia. }
  exists amounts. split; [done|]. simpl. etrans; [exact Hsum|]. apply reserve_value_mono; [done|lia].
Qed.

(** The fee schedule never charges a larger volume more: on any two volumes the rates of the
    larger are no higher, the maker rate is below the taker rate at every tier, no rate exceeds
    the worst case a hold reserves for, and the tier found is the highest one reached. *)
Theorem tierForVolume_monotone v v' :
  0 <= v <= v' ->
  exists t t', tierForVolume v = Ok t /\ tierForVolume v' = Ok t' /\
    makerBps t' <= makerBps t /\ takerBps t' <= takerBps t /\
    0 <= makerBps t < takerBps t /\ takerBps t <= WORST_CASE_TAKER_BPS /\
    (forall u, u ∈ FEE_TIERS -> minVolume u <= v <-> tier u <= tier t).
Proof.
  intros [Hv Hvv]. unfold tierForVolume. destruct (Z.ltb_spec v 0), (Z.ltb_spec v' 0); try lia.
  eexists _, _. split; [done|]. split; [done|]. rewrite WORST_CASE_value. simpl.
  repeat match goal with |- context [?a >=? ?b] => destruct (Z.geb_spec a b) end; simpl; try lia;
  (split_and!; try lia; intros u; unfold FEE_TIERS, tier0; rewrite !elem_of_cons, elem_of_nil;
   intros [->|[->|[->|[->|[]]]]]; simpl; lia).
Qed.

(** ** Witnesses *)

Definition demo_market : Market :=
  mkMarket "devnet:SOL-USDC" devnet "SOL-USDC" "devnet:SOL" "devnet:USDC" 1000 10000000 1000000 1000 open.

Definition demo_buy : OrderRequest :=
  mkRequest "client-1" "devnet:SOL-USDC" buy limit GTC (Some 150000000) 2000000000 false cancel_taker "alice".

Lemma demo_market_wf : market_wf demo_market.
Proof. split; vm_compute; repeat split; try done. Qed.

Lemma demo_nonneg : opt_nonneg (price demo_buy) /\ opt_nonneg (Some 150000000).
Proof. split; intros x [= <-]; done. Qed.

Lemma validateOrder_complete_witness :
  exists v, validateOrder demo_buy demo_market (Some 150000000) = Ok v /\
    (forall why, why ∈ reasons v <-> rejects demo_buy demo_market (Some 150000000) why) /\
    (ok v = true <-> forall why, ~ rejects demo_buy demo_market (Some 150000000) why).
Proof.
  apply (validateOrder_complete demo_buy demo_market (Some 150000000)).
  - apply demo_market_wf.
  - apply demo_nonneg.
  - apply demo_nonneg.
Defined.

Lemma validated_order_holds_witness :
  exists h, computeHold demo_buy demo_market (Some 150000000) = Ok h /\
    hold_asset h = "devnet:USDC" /\
    0 < hold_amount h <= MAX_U64 /\
    (side demo_buy = buy -> minNotional demo_market <= hold_amount h - feeHeadroom h /\ 0 <= feeHeadroom h).
Proof.
  eapply (validated_order_holds demo_buy demo_market (Some 150000000)).
  - apply demo_market_wf.
  - apply demo_nonneg.
  - apply demo_nonneg.
  - vm_compute. discriminate.
  - vm_compute. reflexivity.
  - vm_compute. reflexivity.
Defined.

(** Two fills of the order, as taker and then as maker. *)
Definition demo_fills : list FillTerms :=
  [mkFillTerms 149999000 700000000 buy 20 10; mkFillTerms 150000000 1300000000 sell 18 8].

Lemma buy_hold_covers_fills_witness :
  exists amounts, map_result fillAmounts demo_fills = Ok amounts /\
    zsum (map (fun fa => buyerQuote (holdConsumption fa.2 (f_qty fa.1))) (zip demo_fills amounts)) <=
    300600000.
Proof.
  apply (buy_hold_covers_fills demo_buy demo_market None
           (mkHoldTerms "devnet:USDC" 300600000 600000) 150000000 demo_fills).
  - reflexivity.
  - apply demo_nonneg.
  - intros x. discriminate.
  - reflexivity.
  - reflexivity.
  - vm_compute. reflexivity.
  - reflexivity.
  - apply Forall_cons. split; [|apply Forall_cons; split; [|constructor]];
      (split; [split; vm_compute; [reflexivity|discriminate]|]); (split; [reflexivity|]).
    + split; exists tier0; (split; [apply elem_of_cons; left; reflexivity|reflexivity]).
    + split; exists (mkTier 1 100000000000 8 18);
        (split; [apply elem_of_cons; right; apply elem_of_cons; left; reflexivity|reflexivity]).
  - vm_compute. discriminate.
Defined.

Lemma tierForVolume_monotone_witness :
  exists t t', tierForVolume 5 = Ok t /\ tierForVolume 2000000000000 = Ok t' /\
    makerBps t' <= makerBps t /\ takerBps t' <= takerBps t /\
    0 <= makerBps t < takerBps t /\ takerBps t <= WORST_CASE_TAKER_BPS /\
    (forall u, u ∈ FEE_TIERS -> minVolume u <= 5 <-> tier u <= tier t).
Proof. apply (tierForVolume_monotone 5 2000000000000). lia. Defined.
