(* ===== verification/Risk.v ===== *)
(** * The withdrawal and order risk engines

    [packages/risk/src]: the reason codes, the nine withdrawal rules, the five
    order rules and the composition of each into one decision. A [Date] is its
    count of milliseconds; a [Record] keyed by strings is a [gmap]. *)

From S2P Require Import Prelude Decimal.
From Stdlib Require Import ZArith Lia.
From stdpp Require Import base list strings gmap.

Open Scope string_scope.
Open Scope list_scope.
Open Scope Z_scope.

(** ** [reason-codes.ts] *)

Inductive ReasonCode :=
| ACCOUNT_NOT_ACTIVE
| DESTINATION_INVALID | DESTINATION_NOT_SIGNABLE | DESTINATION_INTERNAL | NEW_DESTINATION
| PER_TRANSACTION_LIMIT | DAILY_LIMIT | VELOCITY_LIMIT | MANUAL_REVIEW_THRESHOLD
| ASSET_LIMITS_NOT_CONFIGURED | USD_REVIEW_THRESHOLD | VALUE_UNPRICED
| AMOUNT_NOT_POSITIVE | ASSET_NOT_SUPPORTED
| WITHIN_ALL_LIMITS | KNOWN_DESTINATION
| ORDER_SIZE_LIMIT | OPEN_ORDER_LIMIT | ORDER_RATE_LIMIT | EXPOSURE_LIMIT | WITHIN_ORDER_LIMITS.

#[export] Instance ReasonCode_eq_dec : EqDecision ReasonCode.
Proof. solve_decision. Defined.

Definition INFORMATIONAL_CODES : list ReasonCode :=
  [WITHIN_ALL_LIMITS; KNOWN_DESTINATION; WITHIN_ORDER_LIMITS].

Definition informational (c : ReasonCode) : bool := bool_decide (c ∈ INFORMATIONAL_CODES).

Definition includes (codes : list ReasonCode) (c : ReasonCode) : bool := bool_decide (c ∈ codes).

Definition toClientMessage (codes : list ReasonCode) : string :=
  let has := includes codes in
  if has ACCOUNT_NOT_ACTIVE
  then "This account cannot make withdrawals. Please contact support."
  else if has DESTINATION_INVALID || has DESTINATION_NOT_SIGNABLE || has DESTINATION_INTERNAL
  then "That destination address cannot be used."
  else if has AMOUNT_NOT_POSITIVE then "Enter an amount greater than zero."
  else if has ASSET_NOT_SUPPORTED || has ASSET_LIMITS_NOT_CONFIGURED
  then "That asset is not supported."
  else if has PER_TRANSACTION_LIMIT || has DAILY_LIMIT || has VELOCITY_LIMIT
  then "This withdrawal exceeds your current limits. Try a smaller amount or try again later."
  else "This withdrawal was declined.".

Definition toOrderClientMessage (codes : list ReasonCode) : string :=
  if includes codes ACCOUNT_NOT_ACTIVE
  then "This account cannot trade. Please contact support."
  else "This order exceeds your current trading limits. Try a smaller order or try again later.".

(** ** [types.ts] *)

Inductive Verdict := approve | deny | review.

#[export] Instance Verdict_eq_dec : EqDecision Verdict.
Proof. solve_decision. Defined.

Inductive AccountStatus := active | suspended | closed.

#[export] Instance AccountStatus_eq_dec : EqDecision AccountStatus.
Proof. solve_decision. Defined.

Record PriorDestination := mkPrior { address : string; lastUsedAt : Z }.

Record WithdrawalHistoryEntry := mkEntry { w_amount : Z; w_asset : string; createdAt : Z }.

Inductive DestinationCheck :=
| check_ok (isPlatformOwned : bool)
| check_invalid
| check_not_signable.

(** A field that may be left out, be [null], or hold a value. *)
Inductive Optional :=
| Absent
| Null
| Value (v : Z).

Record RiskInput := mkRiskInput {
  userId : string;
  accountStatus : AccountStatus;
  asset : string;
  amount : Z;
  destination : string;
  destinationCheck : DestinationCheck;
  priorDestinations : list PriorDestination;
  recentWithdrawals : list WithdrawalHistoryEntry;
  valueUsdMicros : Optional;
  now : Z
}.

Record AssetLimits := mkLimits {
  perTransactionLimit : Z; dailyLimit : Z; manualReviewAbove : Z
}.

Record RiskPolicy := mkPolicy {
  supportedAssets : list string;
  assetLimits : gmap string AssetLimits;
  velocityWindowMinutes : Z;
  velocityMaxCount : Z;
  reviewNewDestinations : bool;
  manualReviewAboveUsdMicros : Optional;
  knownDestinationWindowDays : Z
}.

(** A string of an outcome's detail: a text or a rendered number. *)
Inductive DetailValue := dtext (s : string) | dnum (n : Z).

Record RuleOutcome := mkOutcome {
  rule : string;
  verdict : Verdict;
  codes : list ReasonCode;
  detail : list (string * DetailValue)
}.

Record RiskDecision := mkDecision {
  d_verdict : Verdict;
  d_codes : list ReasonCode;
  outcomes : list RuleOutcome;
  evaluatedRules : list string;
  policyVersion : string;
  evaluatedAt : Z
}.

(** ** The withdrawal rules *)

Definition accountStateRule (input : RiskInput) (policy : RiskPolicy) : RuleOutcome :=
  if negb (bool_decide (accountStatus input = active))
  then mkOutcome "account_state" deny [ACCOUNT_NOT_ACTIVE]
         [("status", dtext (match accountStatus input with
                            | active => "active" | suspended => "suspended" | closed => "closed"
                            end))]
  else mkOutcome "account_state" approve [] [].

Definition destinationRule (input : RiskInput) (policy : RiskPolicy) : RuleOutcome :=
  match destinationCheck input with
  | check_not_signable => mkOutcome "destination" deny [DESTINATION_NOT_SIGNABLE] []
  | check_invalid => mkOutcome "destination" deny [DESTINATION_INVALID] []
  | check_ok true => mkOutcome "destination" deny [DESTINATION_INTERNAL] []
  | check_ok false =>
      let cutoff := now input - knownDestinationWindowDays policy * 24 * 60 * 60 * 1000 in
      let known := existsb (fun prior => bool_decide (address prior = destination input) &&
                                         (lastUsedAt prior >=? cutoff)) (priorDestinations input) in
      if known then mkOutcome "destination" approve [KNOWN_DESTINATION] []
      else if reviewNewDestinations policy then mkOutcome "destination" review [NEW_DESTINATION] []
      else mkOutcome "destination" approve [] []
  end.

Definition limitsFor (input : RiskInput) (policy : RiskPolicy) : option AssetLimits :=
  assetLimits policy !! asset input.

Definition assetLimitsConfiguredRule (input : RiskInput) (policy : RiskPolicy) : RuleOutcome :=
  match limitsFor input policy with
  | None => mkOutcome "asset_limits_configured" deny [ASSET_LIMITS_NOT_CONFIGURED]
              [("asset", dtext (asset input))]
  | Some _ => mkOutcome "asset_limits_configured" approve [] []
  end.

Definition amountRule (input : RiskInput) (policy : RiskPolicy) : RuleOutcome :=
  let codes :=
    (if amount input <=? 0 then [AMOUNT_NOT_POSITIVE] else []) ++
    (if negb (bool_decide (asset input ∈ supportedAssets policy)) then [ASSET_NOT_SUPPORTED] else []) in
  if (0 <? length codes)%nat then mkOutcome "amount" deny codes []
  else mkOutcome "amount" approve [] [].

Definition perTransactionLimitRule (input : RiskInput) (policy : RiskPolicy) : RuleOutcome :=
  match limitsFor input policy with
  | None => mkOutcome "per_transaction_limit" approve [] []
  | Some limits =>
      if amount input >? perTransactionLimit limits
      then mkOutcome "per_transaction_limit" deny [PER_TRANSACTION_LIMIT]
             [("asset", dtext (asset input)); ("amount", dnum (amount input));
              ("limit", dnum (perTransactionLimit limits))]
      else mkOutcome "per_transaction_limit" approve [] []
  end.

Definition sumSince (input : RiskInput) (cutoff : Z) : Z :=
  zsum (map w_amount (filter (fun w => createdAt w >= cutoff /\ w_asset w = asset input)
                       (recentWithdrawals input))).

Definition dailyLimitRule (input : RiskInput) (policy : RiskPolicy) : RuleOutcome :=
  match limitsFor input policy with
  | None => mkOutcome "daily_limit" approve [] []
  | Some limits =>
      let cutoff := now input - 24 * 60 * 60 * 1000 in
      let trailing := sumSince input cutoff in
      let projected := trailing + amount input in
      if projected >? dailyLimit limits
      then mkOutcome "daily_limit" deny [DAILY_LIMIT]
             [("asset", dtext (asset input)); ("trailing", dnum trailing);
              ("projected", dnum projected); ("limit", dnum (dailyLimit limits))]
      else mkOutcome "daily_limit" approve [] []
  end.

Definition velocityRule (input : RiskInput) (policy : RiskPolicy) : RuleOutcome :=
  let cutoff := now input - velocityWindowMinutes policy * 60 * 1000 in
  let count := Z.of_nat (length (filter (fun w => createdAt w >= cutoff) (recentWithdrawals input))) in
  if count >=? velocityMaxCount policy
  then mkOutcome "velocity" deny [VELOCITY_LIMIT]
         [("count", dnum count); ("max", dnum (velocityMaxCount policy));
          ("windowMinutes", dnum (velocityWindowMinutes policy))]
  else mkOutcome "velocity" approve [] [].

Definition usdReviewEnabled (policy : RiskPolicy) : bool :=
  match manualReviewAboveUsdMicros policy with Value _ => true | _ => false end.

Definition manualReviewThresholdRule (input : RiskInput) (policy : RiskPolicy) : RuleOutcome :=
  match limitsFor input policy with
  | None => mkOutcome "manual_review_threshold" approve [] []
  | Some limits =>
      if usdReviewEnabled policy then mkOutcome "manual_review_threshold" approve [] []
      else if amount input >=? manualReviewAbove limits
      then mkOutcome "manual_review_threshold" review [MANUAL_REVIEW_THRESHOLD]
             [("asset", dtext (asset input)); ("amount", dnum (amount input));
              ("threshold", dnum (manualReviewAbove limits))]
      else mkOutcome "manual_review_threshold" approve [] []
  end.

Definition usdReviewThresholdRule (input : RiskInput) (policy : RiskPolicy) : RuleOutcome :=
  match manualReviewAboveUsdMicros policy with
  | Absent | Null => mkOutcome "usd_review_threshold" approve [] []
  | Value threshold =>
      match valueUsdMicros input with
      | Absent | Null =>
          mkOutcome "usd_review_threshold" review [VALUE_UNPRICED]
            [("asset", dtext (asset input)); ("amount", dnum (amount input))]
      | Value v =>
          if v >? threshold
          then mkOutcome "usd_review_threshold" review [USD_REVIEW_THRESHOLD]
                 [("asset", dtext (asset input)); ("valueUsdMicros", dnum v);
                  ("thresholdUsdMicros", dnum threshold)]
          else mkOutcome "usd_review_threshold" approve [] [("valueUsdMicros", dnum v)]
      end
  end.

(** ** [engine.ts] *)

Definition RULES : list (RiskInput -> RiskPolicy -> RuleOutcome) :=
  [accountStateRule; amountRule; destinationRule; assetLimitsConfiguredRule;
   perTransactionLimitRule; dailyLimitRule; velocityRule; manualReviewThresholdRule;
   usdReviewThresholdRule].

Definition POLICY_VERSION : string := "2".

(** [[...new Set(codes)]] *)
Definition dedupe (codes : list ReasonCode) : list ReasonCode :=
  fold_left (fun seen c => if bool_decide (c ∈ seen) then seen else seen ++ [c]) codes [].

Definition some_verdict (v : Verdict) (os : list RuleOutcome) : bool :=
  existsb (fun o => bool_decide (verdict o = v)) os.

Definition evaluate (input : RiskInput) (policy : RiskPolicy) : RiskDecision :=
  let outcomes := map (fun r => r input policy) RULES in
  let verdict := if some_verdict deny outcomes then deny
                 else if some_verdict review outcomes then review else approve in
  let cs := dedupe (mjoin (map codes outcomes)) in
  let finalCodes := if bool_decide (verdict = approve) && forallb informational cs
                    then dedupe (cs ++ [WITHIN_ALL_LIMITS]) else cs in
  mkDecision verdict finalCodes outcomes (map rule outcomes) POLICY_VERSION (now input).

Definition problemCodes (decision : RiskDecision) : list ReasonCode :=
  filter (fun c => informational c = false) (d_codes decision).

(** ** [order-risk.ts] *)

Definition ORDER_POLICY_VERSION : string := "1".

Record OrderRiskPolicy := mkOrderPolicy {
  maxOrderQty : gmap string Z;
  maxOpenOrdersPerMarket : Z;
  orderRateWindowSeconds : Z;
  orderRateMaxCount : Z;
  maxOpenNotional : gmap string Z
}.

Record OrderRiskInput := mkOrderRiskInput {
  o_userId : string;
  o_accountStatus : AccountStatus;
  o_market : string;
  o_qty : Z;
  o_notional : Z;
  openOrderCount : Z;
  openNotional : Z;
  recentPlacements : list Z;
  o_now : Z
}.

Definition pass (name : string) : RuleOutcome := mkOutcome name approve [] [].
Definition denied (name : string) (code : ReasonCode) (d : list (string * DetailValue)) : RuleOutcome :=
  mkOutcome name deny [code] d.

Definition orderAccountRule (input : OrderRiskInput) (policy : OrderRiskPolicy) : RuleOutcome :=
  if bool_decide (o_accountStatus input = active) then pass "order_account"
  else denied "order_account" ACCOUNT_NOT_ACTIVE
         [("status", dtext (match o_accountStatus input with
                            | active => "active" | suspended => "suspended" | closed => "closed"
                            end))].

Definition orderSizeRule (input : OrderRiskInput) (policy : OrderRiskPolicy) : RuleOutcome :=
  match maxOrderQty policy !! o_market input with
  | None => denied "order_size" ORDER_SIZE_LIMIT [("reason", dtext "market_not_configured")]
  | Some cap =>
      if o_qty input >? cap
      then denied "order_size" ORDER_SIZE_LIMIT [("qty", dnum (o_qty input)); ("cap", dnum cap)]
      else pass "order_size"
  end.

Definition openOrdersRule (input : OrderRiskInput) (policy : OrderRiskPolicy) : RuleOutcome :=
  if openOrderCount input >=? maxOpenOrdersPerMarket policy
  then denied "open_orders" OPEN_ORDER_LIMIT
         [("open", dnum (openOrderCount input)); ("cap", dnum (maxOpenOrdersPerMarket policy))]
  else pass "open_orders".

Definition orderRateRule (input : OrderRiskInput) (policy : OrderRiskPolicy) : RuleOutcome :=
  let since := o_now input - orderRateWindowSeconds policy * 1000 in
  let recent := Z.of_nat (length (filter (fun at_ => at_ > since) (recentPlacements input))) in
  if recent >=? orderRateMaxCount policy
  then denied "order_rate" ORDER_RATE_LIMIT
         [("recent", dnum recent); ("cap", dnum (orderRateMaxCount policy))]
  else pass "order_rate".

Definition exposureRule (input : OrderRiskInput) (policy : OrderRiskPolicy) : RuleOutcome :=
  match maxOpenNotional policy !! o_market input with
  | None => denied "exposure" EXPOSURE_LIMIT [("reason", dtext "market_not_configured")]
  | Some cap =>
      let after := openNotional input + o_notional input in
      if after >? cap
      then denied "exposure" EXPOSURE_LIMIT [("after", dnum after); ("cap", dnum cap)]
      else pass "exposure"
  end.

Definition ORDER_RULES : list (OrderRiskInput -> OrderRiskPolicy -> RuleOutcome) :=
  [orderAccountRule; orderSizeRule; openOrdersRule; orderRateRule; exposureRule].

Definition evaluateOrder (input : OrderRiskInput) (policy : OrderRiskPolicy) : RiskDecision :=
  let outcomes := map (fun r => r input policy) ORDER_RULES in
  let verdict := if some_verdict deny outcomes then deny else approve in
  let cs := dedupe (mjoin (map codes outcomes)) in
  let finalCodes := if bool_decide (verdict = approve) && forallb informational cs
                    then cs ++ [WITHIN_ORDER_LIMITS] else cs in
  mkDecision verdict finalCodes outcomes (map rule outcomes) ORDER_POLICY_VERSION (o_now input).

(** ** What the engines promise *)

Definition known_destination (i : RiskInput) (p : RiskPolicy) : Prop :=
  exists d, d ∈ priorDestinations i /\ address d = destination i /\
    now i - knownDestinationWindowDays p * 24 * 60 * 60 * 1000 <= lastUsedAt d.

(** Nothing about the withdrawal breaks a hard limit. *)
Definition within_limits (i : RiskInput) (p : RiskPolicy) : Prop :=
  accountStatus i = active /\ 0 < amount i /\ asset i ∈ supportedAssets p /\
  destinationCheck i = check_ok false /\
  (exists l, assetLimits p !! asset i = Some l /\
     amount i <= perTransactionLimit l /\
     sumSince i (now i - 24 * 60 * 60 * 1000) + amount i <= dailyLimit l) /\
  Z.of_nat (length (filter (fun w => createdAt w >= now i - velocityWindowMinutes p * 60 * 1000)
                      (recentWithdrawals i))) < velocityMaxCount p.

(** Nothing about it asks for a person. *)
Definition needs_no_review (i : RiskInput) (p : RiskPolicy) : Prop :=
  (reviewNewDestinations p = true -> known_destination i p) /\
  match manualReviewAboveUsdMicros p with
  | Value t => exists v, valueUsdMicros i = Value v /\ v <= t
  | _ => forall l, assetLimits p !! asset i = Some l -> amount i < manualReviewAbove l
  end.

(** ** Lemmas *)

Lemma dedupe_fold_elem (cs seen : list ReasonCode) c :
  c ∈ fold_left (fun seen c => if bool_decide (c ∈ seen) then seen else seen ++ [c]) cs seen <->
  c ∈ seen \/ c ∈ cs.
Proof.
  revert seen. induction cs as [|x cs IH]; intros seen; simpl; [set_solver|].
  rewrite IH. case_bool_decide; set_solver.
Qed.

Lemma dedupe_elem cs c : c ∈ dedupe cs <-> c ∈ cs.
Proof. unfold dedupe. rewrite dedupe_fold_elem. set_solver. Qed.

Lemma dedupe_NoDup cs : NoDup (dedupe cs).
Proof.
  unfold dedupe. enough (H : forall seen, NoDup seen -> NoDup (fold_left
    (fun seen c => if bool_decide (c ∈ seen) then seen else seen ++ [c]) cs seen))
    by (apply H; constructor).
  induction cs as [|x cs IH]; intros seen H; simpl; [done|].
  apply IH. case_bool_decide; [done|]. apply NoDup_app. split; [done|]. split; [set_solver|].
  apply NoDup_singleton.
Qed.

Lemma some_verdict_true v os :
  some_verdict v os = true <-> exists o, o ∈ os /\ verdict o = v.
Proof.
  unfold some_verdict. rewrite existsb_exists. setoid_rewrite <- list_elem_of_In.
  setoid_rewrite bool_decide_eq_true. done.
Qed.

(** Membership among the codes of every outcome, nothing short-circuited. *)
Lemma mjoin_codes c os : c ∈ mjoin (map codes os) <-> exists o, o ∈ os /\ c ∈ codes o.
Proof.
  rewrite list_elem_of_join. setoid_rewrite list_elem_of_fmap. naive_solver.
Qed.

(** A rule that passes has only informational codes, and one that does not has a problem. *)
Definition outcome_coherent (o : RuleOutcome) : Prop :=
  (verdict o = approve -> forallb informational (codes o) = true) /\
  (verdict o <> approve -> exists c, c ∈ codes o /\ informational c = false).

Ltac solve_rule :=
  repeat (case_match; simpl); split; simpl; try done;
  intros _; eexists; (split; [apply elem_of_cons; left; reflexivity|reflexivity]).

Lemma rules_coherent i p : Forall outcome_coherent (map (fun r => r i p) RULES).
Proof.
  unfold RULES. simpl. repeat (apply Forall_cons; split); [..|constructor]; unfold outcome_coherent;
    unfold accountStateRule, amountRule, destinationRule, assetLimitsConfiguredRule,
      perTransactionLimitRule, dailyLimitRule, velocityRule, manualReviewThresholdRule,
      usdReviewThresholdRule;
    try solve [solve_rule].
Qed.

Lemma order_rules_coherent i p : Forall outcome_coherent (map (fun r => r i p) ORDER_RULES).
Proof.
  unfold ORDER_RULES. simpl. repeat (apply Forall_cons; split); [..|constructor]; unfold outcome_coherent;
    unfold orderAccountRule, orderSizeRule, openOrdersRule, orderRateRule, exposureRule, pass, denied;
    solve_rule.
Qed.

Lemma forallb_informational cs :
  forallb informational cs = true <-> forall c, c ∈ cs -> informational c = true.
Proof. rewrite forallb_forall. setoid_rewrite <- list_elem_of_In. done. Qed.

(** No problem code among the outcomes exactly when every rule approves. *)
Lemma all_approve os :
  Forall outcome_coherent os ->
  (forall c, c ∈ mjoin (map codes os) -> informational c = true) <->
  (forall o, o ∈ os -> verdict o = approve).
Proof.
  intros Hco. rewrite Forall_forall in Hco. setoid_rewrite mjoin_codes. split.
  - intros H o Ho. destruct (decide (verdict o = approve)) as [|Hne]; [done|].
    destruct (Hco o Ho) as [_ Hp]. destruct (Hp Hne) as (c & Hc & Hi).
    rewrite (H c) in Hi; [done|eauto].
  - intros H c (o & Ho & Hc). destruct (Hco o Ho) as [Hi _].
    specialize (Hi (H o Ho)). rewrite forallb_informational in Hi. auto.
Qed.

Lemma verdict_cases os :
  let v := if some_verdict deny os then deny else if some_verdict review os then review else approve in
  (v = deny <-> exists o, o ∈ os /\ verdict o = deny) /\
  (v = review <-> (forall o, o ∈ os -> verdict o <> deny) /\ exists o, o ∈ os /\ verdict o = review) /\
  (v = approve <-> forall o, o ∈ os -> verdict o = approve).
Proof.
  simpl. destruct (some_verdict deny os) eqn:Ed.
  - apply some_verdict_true in Ed as (o & Ho & Hv). split_and!; split; try done; eauto.
    + intros [H _]. by destruct (H o Ho).
    + intros H. by rewrite (H o Ho) in Hv.
  - assert (Hd : forall o, o ∈ os -> verdict o <> deny).
    { intros o Ho Hv. assert (some_verdict deny os = true) by (apply some_verdict_true; eauto). congruence. }
    destruct (some_verdict review os) eqn:Er.
    + apply some_verdict_true in Er as (o & Ho & Hv). split_and!; split; try done; eauto.
      * intros (o' & Ho' & Hv'). by destruct (Hd o' Ho').
      * intros H. by rewrite (H o Ho) in Hv.
    + split_and!; split; try done.
      * intros (o' & Ho' & Hv'). by destruct (Hd o' Ho').
      * intros [_ H]. apply some_verdict_true in H. congruence.
      * intros _ o Ho. specialize (Hd o Ho). destruct (verdict o) eqn:Ev; try done.
        assert (some_verdict review os = true) by (apply some_verdict_true; eauto). congruence.
Qed.

Lemma d_codes_problem i p c :
  informational c = false ->
  c ∈ d_codes (evaluate i p) <-> exists o, o ∈ map (fun r => r i p) RULES /\ c ∈ codes o.
Proof.
  intros Hc. unfold evaluate. cbn [d_codes]. rewrite <- mjoin_codes.
  destruct (_ && _); [|by rewrite dedupe_elem]. rewrite dedupe_elem, elem_of_app, dedupe_elem.
  split; [intros [?|H]; [done|]|tauto]. apply list_elem_of_singleton in H. by subst.
Qed.

(** The withdrawal rules by verdict, as arithmetic on the input. *)
Lemma no_deny_iff i p :
  (forall o, o ∈ map (fun r => r i p) RULES -> verdict o <> deny) <-> within_limits i p.
Proof.
  unfold RULES. simpl. unfold within_limits. split.
  - intros H.
    assert (H1 := H (accountStateRule i p) ltac:(set_solver)).
    assert (H2 := H (amountRule i p) ltac:(set_solver)).
    assert (H3 := H (destinationRule i p) ltac:(set_solver)).
    assert (H4 := H (assetLimitsConfiguredRule i p) ltac:(set_solver)).
    assert (H5 := H (perTransactionLimitRule i p) ltac:(set_solver)).
    assert (H6 := H (dailyLimitRule i p) ltac:(set_solver)).
    assert (H7 := H (velocityRule i p) ltac:(set_solver)). clear H.
    unfold accountStateRule in H1. unfold amountRule in H2. unfold destinationRule in H3.
    unfold assetLimitsConfiguredRule in H4. unfold perTransactionLimitRule in H5.
    unfold dailyLimitRule in H6. unfold velocityRule in H7. unfold limitsFor in *.
    destruct (accountStatus i); try done.
    destruct (Z.leb_spec (amount i) 0); [by destruct (negb (bool_decide (asset i ∈ supportedAssets p)))|].
    case_bool_decide; [|done].
    destruct (destinationCheck i) as [[]| |]; try done.
    destruct (assetLimits p !! asset i) as [l|]; [|done].
    destruct (Z.gtb_spec (amount i) (perTransactionLimit l)); [done|].
    destruct (Z.gtb_spec (sumSince i (now i - 24 * 60 * 60 * 1000) + amount i) (dailyLimit l)); [done|].
    rewrite Z.geb_leb in H7.
    destruct (Z.leb_spec (velocityMaxCount p) (Z.of_nat (length (filter (fun w => createdAt w >= now i - velocityWindowMinutes p * 60 * 1000)
                      (recentWithdrawals i))))); [done|].
    repeat (split; [done|]). split; [by exists l|done].
  - intros (H1 & H2 & H3 & H4 & (l & H5 & H6 & H7) & H8).
    intros o Ho. rewrite !elem_of_cons, elem_of_nil in Ho.
    destruct Ho as [->|[->|[->|[->|[->|[->|[->|[->|[->|[]]]]]]]]]].
    + unfold accountStateRule. by rewrite H1.
    + unfold amountRule. destruct (Z.leb_spec (amount i) 0); [lia|]. by rewrite bool_decide_eq_true_2.
    + unfold destinationRule. rewrite H4. by repeat case_match.
    + unfold assetLimitsConfiguredRule, limitsFor. by rewrite H5.
    + unfold perTransactionLimitRule, limitsFor. rewrite H5.
      by destruct (Z.gtb_spec (amount i) (perTransactionLimit l)); [lia|].
    + unfold dailyLimitRule, limitsFor. rewrite H5.
      by destruct (Z.gtb_spec (sumSince i (now i - 24 * 60 * 60 * 1000) + amount i) (dailyLimit l)); [lia|].
    + unfold velocityRule. rewrite Z.geb_leb.
      match goal with |- context [?a <=? ?b] => destruct (Z.leb_spec a b); [lia|done] end.
    + unfold manualReviewThresholdRule. by repeat case_match.
    + unfold usdReviewThresholdRule. by repeat case_match.
Qed.

Lemma known_destination_true i p :
  existsb (fun prior => bool_decide (address prior = destination i) &&
     (lastUsedAt prior >=? now i - knownDestinationWindowDays p * 24 * 60 * 60 * 1000))
    (priorDestinations i) = true <-> known_destination i p.
Proof.
  rewrite existsb_exists. unfold known_destination. setoid_rewrite list_elem_of_In.
  split; intros (d & Hd & H); exists d; (split; [done|]).
  - apply andb_true_iff in H as [?%bool_decide_eq_true H]. rewrite Z.geb_leb, Z.leb_le in H. done.
  - rewrite andb_true_iff, bool_decide_eq_true, Z.geb_leb, Z.leb_le. tauto.
Qed.

Lemma destination_no_review i p :
  destinationCheck i = check_ok false ->
  verdict (destinationRule i p) <> review <-> (reviewNewDestinations p = true -> known_destination i p).
Proof.
  intros Hd. rewrite <- known_destination_true. unfold destinationRule. rewrite Hd.
  match goal with |- context [existsb ?f ?x] => destruct (existsb f x) end;
    destruct (reviewNewDestinations p); simpl; split; try done; intros H.
  by specialize (H eq_refl).
Qed.

Lemma manual_no_review i p l :
  assetLimits p !! asset i = Some l ->
  verdict (manualReviewThresholdRule i p) <> review <->
  (usdReviewEnabled p = false -> amount i < manualReviewAbove l).
Proof.
  intros Hl. unfold manualReviewThresholdRule, limitsFor. rewrite Hl.
  destruct (usdReviewEnabled p); simpl; [split; done|]. rewrite Z.geb_leb.
  destruct (Z.leb_spec (manualReviewAbove l) (amount i)); simpl; split; try done.
  intros H'. specialize (H' eq_refl). lia.
Qed.

Lemma usd_no_review i p :
  verdict (usdReviewThresholdRule i p) <> review <->
  match manualReviewAboveUsdMicros p with
  | Value t => exists v, valueUsdMicros i = Value v /\ v <= t
  | _ => True
  end.
Proof.
  unfold usdReviewThresholdRule. destruct (manualReviewAboveUsdMicros p) as [| |t]; try done.
  destruct (valueUsdMicros i) as [| |v]; simpl; [split; [done|naive_solver]..|].
  destruct (Z.gtb_spec v t); simpl; split; try done; [intros (v' & [= <-] & ?); lia|eauto].
Qed.

Lemma no_review_iff i p :
  within_limits i p ->
  (forall o, o ∈ map (fun r => r i p) RULES -> verdict o = approve) <-> needs_no_review i p.
Proof.
  intros Hw. pose proof (proj2 (no_deny_iff i p) Hw) as Hnd.
  destruct Hw as (_ & _ & _ & Hdest & (l & Hl & _) & _).
  assert (Hsplit : (forall o, o ∈ map (fun r => r i p) RULES -> verdict o = approve) <->
    verdict (destinationRule i p) <> review /\ verdict (manualReviewThresholdRule i p) <> review /\
    verdict (usdReviewThresholdRule i p) <> review).
  { split.
    - intros H. rewrite !H by (unfold RULES; simpl; set_solver). done.
    - intros (H1 & H2 & H3) o Ho. specialize (Hnd o Ho). unfold RULES in Ho. simpl in Ho.
      rewrite !elem_of_cons, elem_of_nil in Ho.
      destruct Ho as [->|[->|[->|[->|[->|[->|[->|[->|[->|[]]]]]]]]]];
        unfold accountStateRule, amountRule, assetLimitsConfiguredRule, perTransactionLimitRule,
          dailyLimitRule, velocityRule in *;
        try (by repeat case_match);
        match goal with |- verdict ?x = _ => destruct (verdict x); done end. }
  rewrite Hsplit, (destination_no_review i p Hdest), (manual_no_review i p l Hl), usd_no_review.
  unfold needs_no_review, usdReviewEnabled. rewrite Hl.
  destruct (manualReviewAboveUsdMicros p); split; intros (H1 & H2); split; try done;
    try (destruct H2 as [H2 _]; intros l' [= <-]; by apply H2).
  - split; [|done]. intros _. by apply H2.
  - split; [|done]. intros _. by apply H2.
  - by destruct H2.
Qed.

(** A history of withdrawals the engine did not deny, each judged against the ones
    before it, in time order. *)
Inductive admitted (p : RiskPolicy) : list WithdrawalHistoryEntry -> Prop :=
| admitted_nil : admitted p []
| admitted_snoc h i :
    admitted p h -> recentWithdrawals i = h ->
    Forall (fun w => createdAt w <= now i) h ->
    d_verdict (evaluate i p) <> deny ->
    admitted p (h ++ [mkEntry (amount i) (asset i) (now i)]).

(** The value and the count of the withdrawals inside a window of [ms] milliseconds
    that ends at [t]. *)
Definition in_window (t ms : Z) (w : WithdrawalHistoryEntry) : bool :=
  (t - ms <=? createdAt w) && (createdAt w <=? t).

Definition window_value (a : string) (t ms : Z) (h : list WithdrawalHistoryEntry) : Z :=
  sum_if (fun w => in_window t ms w && bool_decide (w_asset w = a)) w_amount h.

Definition window_count (t ms : Z) (h : list WithdrawalHistoryEntry) : Z :=
  sum_if (in_window t ms) (fun _ => 1) h.

Lemma evaluate_not_deny i p : d_verdict (evaluate i p) <> deny <-> within_limits i p.
Proof.
  rewrite <- no_deny_iff. unfold evaluate. cbn [d_verdict].
  destruct (verdict_cases (map (fun r => r i p) RULES)) as (Hd & _ & _).
  rewrite Hd. split; [intros H o Ho Hv; apply H; eauto|intros H (o & Ho & Hv); by apply (H o)].
Qed.

Lemma zsum_filter_sum_if (P : WithdrawalHistoryEntry -> Prop) `{!forall w, Decision (P w)} h :
  zsum (map w_amount (filter P h)) = sum_if (fun w => bool_decide (P w)) w_amount h.
Proof.
  induction h as [|w h IH]; [done|]. rewrite filter_cons. simpl. case_decide as HP; simpl.
  - rewrite zsum_cons, IH, bool_decide_eq_true_2 by done. done.
  - rewrite IH, bool_decide_eq_false_2 by done. done.
Qed.

Lemma length_filter_sum_if (P : WithdrawalHistoryEntry -> Prop) `{!forall w, Decision (P w)} h :
  Z.of_nat (length (filter P h)) = sum_if (fun w => bool_decide (P w)) (fun _ => 1) h.
Proof.
  induction h as [|w h IH]; [done|]. rewrite filter_cons. simpl. case_decide as HP; simpl.
  - rewrite Nat2Z.inj_succ, IH, bool_decide_eq_true_2 by done. lia.
  - rewrite IH, bool_decide_eq_false_2 by done. done.
Qed.

(** A weaker test sums no less, over non-negative values. *)
Lemma sum_if_weaken {A} (q q' : A -> bool) (val : A -> Z) xs :
  Forall (fun x => 0 <= val x /\ (q x = true -> q' x = true)) xs ->
  sum_if q val xs <= sum_if q' val xs.
Proof.
  induction 1 as [|x xs [Hv Hq] _ IH]; simpl; [lia|].
  destruct (q x); [rewrite Hq by done; lia|]. destruct (q' x); lia.
Qed.

Lemma admitted_positive p h : admitted p h -> Forall (fun w => 0 < w_amount w) h.
Proof.
  induction 1 as [|h i _ IH _ _ Hv]; [constructor|]. apply Forall_app. split; [done|].
  apply Forall_singleton. simpl. by apply evaluate_not_deny in Hv as (_ & ? & _).
Qed.

(** Evaluate the comparison of concrete verdicts. *)
Ltac eval_verdict :=
  cbn [verdict]; change (bool_decide (deny = deny)) with true;
  change (bool_decide (approve = deny)) with false; cbn [orb].

(** ** Properties *)

(** the withdrawal decision composes every rule with no short-circuit: denial wins, then
    review, then approval; its problem codes are exactly those of all nine rules together,
    each once, and it is an approval exactly when it has none; and the record names every rule
    that ran. *)
Theorem evaluate_composes i p :
  let d := evaluate i p in
  (d_verdict d = deny <-> exists r, r ∈ RULES /\ verdict (r i p) = deny) /\
  (d_verdict d = review <-> (forall r, r ∈ RULES -> verdict (r i p) <> deny) /\
                            exists r, r ∈ RULES /\ verdict (r i p) = review) /\
  (forall c, c ∈ problemCodes d <-> informational c = false /\ exists r, r ∈ RULES /\ c ∈ codes (r i p)) /\
  (d_verdict d = approve <-> problemCodes d = []) /\
  NoDup (d_codes d) /\
  evaluatedRules d = ["account_state"; "amount"; "destination"; "asset_limits_configured";
    "per_transaction_limit"; "daily_limit"; "velocity"; "manual_review_threshold";
    "usd_review_threshold"].
Proof.
  simpl. destruct (verdict_cases (map (fun r => r i p) RULES)) as (Hd & Hr & Ha).
  assert (Hmap : forall P : RuleOutcome -> Prop,
    (exists o, o ∈ map (fun r => r i p) RULES /\ P o) <-> exists r, r ∈ RULES /\ P (r i p)).
  { intros P. setoid_rewrite list_elem_of_fmap. naive_solver. }
  assert (Hmap' : forall P : RuleOutcome -> Prop,
    (forall o, o ∈ map (fun r => r i p) RULES -> P o) <-> forall r, r ∈ RULES -> P (r i p)).
  { intros P. setoid_rewrite list_elem_of_fmap. naive_solver. }
  assert (Hpc : forall c, c ∈ problemCodes (evaluate i p) <->
    informational c = false /\ exists r, r ∈ RULES /\ c ∈ codes (r i p)).
  { intros c. unfold problemCodes. rewrite list_elem_of_filter.
    split; intros [Hi Hc]; (split; [done|]).
    - apply d_codes_problem in Hc; [|done]. by apply (Hmap (fun o => c ∈ codes o)).
    - apply d_codes_problem; [done|]. by apply (Hmap (fun o => c ∈ codes o)). }
  split; [|split; [|split; [|split; [|split]]]].
  - rewrite <- (Hmap (fun o => verdict o = deny)). exact Hd.
  - rewrite <- (Hmap (fun o => verdict o = review)), <- (Hmap' (fun o => verdict o <> deny)). exact Hr.
  - exact Hpc.
  - etrans; [exact Ha|]. etrans; [symmetry; apply all_approve, rules_coherent|].
    assert (Hall : forall c, c ∈ mjoin (map codes (map (fun r => r i p) RULES)) <->
                             exists r, r ∈ RULES /\ c ∈ codes (r i p)).
    { intros c. rewrite mjoin_codes. by apply (Hmap (fun o => c ∈ codes o)). }
    setoid_rewrite Hall. split.
    + intros H. destruct (problemCodes (evaluate i p)) as [|c l] eqn:E; [done|].
      assert (Hc : c ∈ c :: l) by set_solver.
      apply Hpc in Hc as [Hi Hc]. rewrite (H c Hc) in Hi. done.
    + intros H c Hc. destruct (informational c) eqn:E; [done|].
      assert (Hin : c ∈ problemCodes (evaluate i p)) by (apply Hpc; done).
      rewrite H in Hin. set_solver.
  - unfold evaluate. cbn [d_codes]. destruct (_ && _); apply dedupe_NoDup.
  - unfold evaluate. cbn [evaluatedRules RULES map].
    unfold accountStateRule, amountRule, destinationRule, assetLimitsConfiguredRule,
      perTransactionLimitRule, dailyLimitRule, velocityRule, manualReviewThresholdRule,
      usdReviewThresholdRule.
    repeat f_equal; repeat case_match; done.
Qed.

(** An approval means what it says. A withdrawal is approved exactly when the account is
    active, the asset is supported with limits configured, the amount is positive and within
    the per-transaction limit, the trailing day's total with it is within the daily limit, the
    count is below the velocity limit, the destination is valid and not the platform's own,
    a new destination is not to be reviewed, and the review threshold (the dollar one when
    set, which an unpriced withdrawal never meets, otherwise the asset's) is not reached; and
    it is denied exactly when a hard limit fails. *)
Theorem evaluate_approves_exactly i p :
  (d_verdict (evaluate i p) = approve <-> within_limits i p /\ needs_no_review i p) /\
  (d_verdict (evaluate i p) = deny <-> ~ within_limits i p).
Proof.
  split.
  - split.
    + intros Ha. assert (Hw : within_limits i p) by (apply evaluate_not_deny; by rewrite Ha).
      split; [done|]. apply no_review_iff; [done|].
      by apply (verdict_cases (map (fun r => r i p) RULES)).
    + intros [Hw Hn]. apply (verdict_cases (map (fun r => r i p) RULES)).
      by apply (proj2 (no_review_iff i p Hw)).
  - rewrite <- evaluate_not_deny. destruct (d_verdict (evaluate i p)); naive_solver.
Qed.

(** The rolling limits hold in every window. When each withdrawal is judged against all the
    ones before it, then in any window of twenty-four hours, wherever it starts, the value
    let through in an asset is within that asset's daily limit, and in any velocity window the
    count is within the maximum. *)
Theorem rolling_limits p h :
  admitted p h -> 0 <= velocityMaxCount p ->
  (forall a l t, assetLimits p !! a = Some l -> 0 <= dailyLimit l ->
     window_value a t (24 * 60 * 60 * 1000) h <= dailyLimit l) /\
  (forall t, window_count t (velocityWindowMinutes p * 60 * 1000) h <= velocityMaxCount p).
Proof.
  intros Hadm Hmax. induction Hadm as [|h i Hadm IH Hrec Htime Hv]; [done|].
  destruct IH as [IHv IHc]. pose proof (admitted_positive p h Hadm) as Hpos.
  apply evaluate_not_deny in Hv as (_ & Hamt & _ & _ & (l & Hl & _ & Hday) & Hvel).
  unfold window_value, window_count in *. setoid_rewrite sum_if_app. split.
  - intros a l' t Hl' Hdl. specialize (IHv a l' t Hl' Hdl). simpl.
    destruct (in_window t (24 * 60 * 60 * 1000) (mkEntry (amount i) (asset i) (now i))) eqn:Ew; [|simpl; lia].
    case_bool_decide as Ha; simpl; [|lia]. simpl in Ha. subst a. rewrite Hl in Hl'. injection Hl' as <-.
    unfold sumSince in Hday. rewrite zsum_filter_sum_if, Hrec in Hday.
    unfold in_window in Ew. apply andb_true_iff in Ew as [E1 E2]. simpl in E1, E2.
    match goal with |- ?x + _ <= _ => enough (x <= dailyLimit l - amount i) by lia end.
    eapply Z.le_trans; [|apply (proj1 (Z.le_add_le_sub_r _ _ _)); exact Hday]. apply sum_if_weaken.
    rewrite Forall_forall in Hpos |- *. intros w Hw. split; [apply Z.lt_le_incl; auto|].
    unfold in_window. intros Hq. zbool. apply bool_decide_eq_true. split; [lia|done].
  - intros t. specialize (IHc t). simpl.
    destruct (in_window t (velocityWindowMinutes p * 60 * 1000) (mkEntry (amount i) (asset i) (now i))) eqn:Ew;
      [|simpl; lia].
    rewrite length_filter_sum_if, Hrec in Hvel.
    unfold in_window in Ew. apply andb_true_iff in Ew as [E1 E2]. simpl in E1, E2.
    match goal with |- ?x + _ <= _ => enough (x < velocityMaxCount p) by lia end.
    eapply Z.le_lt_trans; [|exact Hvel]. apply sum_if_weaken.
    rewrite Forall_forall. intros w Hw. split; [lia|].
    unfold in_window. intros Hq. zbool. apply bool_decide_eq_true. lia.
Qed.

(** An order passes pre-trade risk exactly when the account is active, the market has a size cap
    and an exposure cap configured, the order is within the size cap, the user has fewer open
    orders and fewer placements in the rate window than allowed, and the exposure with it is
    within its cap; no other verdict than a denial is possible otherwise. *)
Theorem evaluateOrder_approves_exactly i p :
  (d_verdict (evaluateOrder i p) = approve <->
     o_accountStatus i = active /\
     (exists c, maxOrderQty p !! o_market i = Some c /\ o_qty i <= c) /\
     openOrderCount i < maxOpenOrdersPerMarket p /\
     Z.of_nat (length (filter (fun at_ => at_ > o_now i - orderRateWindowSeconds p * 1000)
                         (recentPlacements i))) < orderRateMaxCount p /\
     exists c, maxOpenNotional p !! o_market i = Some c /\ openNotional i + o_notional i <= c) /\
  (d_verdict (evaluateOrder i p) = approve \/ d_verdict (evaluateOrder i p) = deny).
Proof.
  unfold evaluateOrder. cbn [d_verdict ORDER_RULES map].
  unfold orderAccountRule, orderSizeRule, openOrdersRule, orderRateRule, exposureRule, pass, denied.
  rewrite !Z.geb_leb. split; [|by destruct (some_verdict _ _); auto].
  unfold some_verdict. cbn [existsb].
  destruct (bool_decide (o_accountStatus i = active)) eqn:H1; eval_verdict; zbool;
    [|split; [done|naive_solver]].
  destruct (maxOrderQty p !! o_market i) as [c|]; eval_verdict; [|split; [done|naive_solver]].
  destruct (Z.gtb_spec (o_qty i) c); eval_verdict; [split; [done|intros (_ & (? & [= <-] & ?) & _); lia]|].
  match goal with |- context [?a <=? ?b] => destruct (Z.leb_spec a b) end; eval_verdict;
    [split; [done|intros (_ & _ & ? & _); lia]|].
  match goal with |- context [?a <=? ?b] => destruct (Z.leb_spec a b) end; eval_verdict;
    [split; [done|intros (_ & _ & _ & ? & _); lia]|].
  destruct (maxOpenNotional p !! o_market i) as [c'|]; eval_verdict; [|split; [done|naive_solver]].
  destruct (Z.gtb_spec (openNotional i + o_notional i) c'); eval_verdict;
    [split; [done|intros (_ & _ & _ & _ & ? & [= <-] & ?); lia]|].
  split; [|done]. intros _. split; [done|]. eauto 10.
Qed.

(** The client is never told which limit it hit. Replacing the per-transaction, daily or velocity
    code by another of the three anywhere in the list leaves the message unchanged, and a
    trader's message depends on nothing but whether the account is active. *)
Theorem client_message_hides_limit l1 l2 k k' :
  k ∈ [PER_TRANSACTION_LIMIT; DAILY_LIMIT; VELOCITY_LIMIT] ->
  k' ∈ [PER_TRANSACTION_LIMIT; DAILY_LIMIT; VELOCITY_LIMIT] ->
  toClientMessage (l1 ++ k :: l2) = toClientMessage (l1 ++ k' :: l2) /\
  (forall cs cs', includes cs ACCOUNT_NOT_ACTIVE = includes cs' ACCOUNT_NOT_ACTIVE ->
     toOrderClientMessage cs = toOrderClientMessage cs').
Proof.
  intros Hk Hk'. split.
  - assert (Hother : forall k c, k ∈ [PER_TRANSACTION_LIMIT; DAILY_LIMIT; VELOCITY_LIMIT] ->
      c ∉ [PER_TRANSACTION_LIMIT; DAILY_LIMIT; VELOCITY_LIMIT] ->
      includes (l1 ++ k :: l2) c = includes (l1 ++ l2) c).
    { intros k0 c Hk0 Hc. unfold includes. apply bool_decide_ext. set_solver. }
    assert (Hlimit : forall k, k ∈ [PER_TRANSACTION_LIMIT; DAILY_LIMIT; VELOCITY_LIMIT] ->
      includes (l1 ++ k :: l2) PER_TRANSACTION_LIMIT || includes (l1 ++ k :: l2) DAILY_LIMIT ||
      includes (l1 ++ k :: l2) VELOCITY_LIMIT = true).
    { intros k0 Hk0. assert (Hself : includes (l1 ++ k0 :: l2) k0 = true).
      { unfold includes. apply bool_decide_eq_true. set_solver. }
      rewrite !elem_of_cons, elem_of_nil in Hk0.
      destruct Hk0 as [->|[->|[->|[]]]]; rewrite Hself; by rewrite ?orb_true_r. }
    unfold toClientMessage. rewrite !(Hother k), !(Hother k') by (done || set_solver).
    by rewrite !Hlimit.
  - intros cs cs' H. unfold toOrderClientMessage. by rewrite H.
Qed.

(** ** Witnesses *)

Definition demo_policy : RiskPolicy :=
  mkPolicy ["devnet:SOL"] {["devnet:SOL" := mkLimits 100 150 80]} 60 3 true Absent 90.

Definition demo_withdrawal (at_ n : Z) (h : list WithdrawalHistoryEntry) : RiskInput :=
  mkRiskInput "u1" active "devnet:SOL" n "addr" (check_ok false) [mkPrior "addr" at_] h Absent at_.

Lemma rolling_limits_witness :
  window_count 1000 (60 * 60 * 1000) [mkEntry 70 "devnet:SOL" 0; mkEntry 60 "devnet:SOL" 1000] = 2 /\
  (forall t, window_count t (velocityWindowMinutes demo_policy * 60 * 1000)
     [mkEntry 70 "devnet:SOL" 0; mkEntry 60 "devnet:SOL" 1000] <= velocityMaxCount demo_policy).
Proof.
  split; [vm_compute; reflexivity|].
  apply (rolling_limits demo_policy [mkEntry 70 "devnet:SOL" 0; mkEntry 60 "devnet:SOL" 1000]).
  - apply (admitted_snoc demo_policy [mkEntry 70 "devnet:SOL" 0]
             (demo_withdrawal 1000 60 [mkEntry 70 "devnet:SOL" 0])).
    + apply (admitted_snoc demo_policy [] (demo_withdrawal 0 70 [])).
      * constructor.
      * reflexivity.
      * constructor.
      * vm_compute. discriminate.
    + reflexivity.
    + repeat constructor. vm_compute. discriminate.
    + vm_compute. discriminate.
  - vm_compute. discriminate.
Defined.

Lemma client_message_hides_limit_witness :
  toClientMessage ([KNOWN_DESTINATION] ++ DAILY_LIMIT :: []) =
  toClientMessage ([KNOWN_DESTINATION] ++ VELOCITY_LIMIT :: []).
Proof.
  apply (client_message_hides_limit [KNOWN_DESTINATION] [] DAILY_LIMIT VELOCITY_LIMIT).
  - apply elem_of_cons. right. apply elem_of_cons. left. reflexivity.
  - apply elem_of_cons. right. apply elem_of_cons. right. apply elem_of_cons. left. reflexivity.
Defined.
