(* ===== verification/Store.v ===== *)
(** * The trading tables and their repositories

    [packages/db/src/repositories]: the parts of [order.repository.ts],
    [settlement.repository.ts] and [ledger.repository.ts] that settlement runs on,
    and [withTransaction] of [packages/db/src/transaction.ts]. A table is the list
    of its rows; a repository call is a step of the transaction monad [tx], which
    carries the tables and aborts on an exception or a violated constraint. The
    constraints are those of the migrations: unique keys, row checks, and the
    deferred ones [withTransaction] forces before it commits. Not modelled: surrogate
    ids other than an order's, the times of updates, the append-only transition log,
    the link from a row to the ledger transaction that funds it, and the retries
    [withTransaction] makes when the database reports a write conflict. *)

From S2P Require Import Prelude Risk Decimal Assets Ledger Postings States Orders.
From Stdlib Require Import ZArith Lia.
From stdpp Require Import base list strings gmap.

Open Scope string_scope.
Open Scope list_scope.
Open Scope Z_scope.

(** ** Rows *)

(** An event's position [(seq, idx)]. *)
Record EventKey := mkKey { seq : Z; idx : Z }.

#[export] Instance EventKey_eq_dec : EqDecision EventKey.
Proof. solve_decision. Defined.

Definition compareKeys (a b : EventKey) : Z :=
  if negb (seq a =? seq b) then (if seq a <? seq b then -1 else 1) else idx a - idx b.

Record OrderRecord := mkOrder {
  o_id : string;
  o_user : string;
  o_clientOrderId : string;
  o_market : string;
  o_side : Side;
  o_kind : OrderType;
  o_timeInForce : TimeInForce;
  o_postOnly : bool;
  o_price : option Z;
  o_qty : Z;
  o_filledQty : Z;
  o_status : Order.OrderStatus;
  o_holdAsset : string;
  o_holdAmount : Z;
  o_engineSeq : option Z;
  o_rejectReason : option string;
  o_createdAt : Z
}.

Record FillRow := mkFill {
  f_fillId : string;
  f_market : string;
  f_key : EventKey;
  f_takerOrderId : string;
  f_makerOrderId : string;
  f_takerUserId : string;
  f_makerUserId : string;
  f_takerSide : Side;
  f_baseAsset : string;
  f_quoteAsset : string;
  f_price : Z;
  f_qty : Z;
  f_notional : Z;
  f_takerFeeBps : Z;
  f_makerFeeBps : Z;
  f_takerFee : Z;
  f_makerFee : Z;
  f_engineTimestamp : Z
}.

(** A snapshot's key is the user, the quote asset and the UTC day, counted from the epoch. *)
Record FeeTierSnapshot := mkSnapshot {
  s_user : string; s_quoteAsset : string; s_day : Z;
  s_volume : Z; s_tier : Z; s_makerBps : Z; s_takerBps : Z
}.

(** An order risk decision as persisted; the input snapshot is not kept. *)
Record OrderDecisionRow := mkDecisionRow {
  dr_user : string; dr_clientOrderId : string; dr_market : string; dr_decision : RiskDecision
}.

(** A row of [trades], the public record of a match. *)
Record TradeRow := mkTradeRow {
  tr_market : string;
  tr_seq : Z;
  tr_index : Z;
  tr_price : Z;
  tr_qty : Z;
  tr_quoteQty : Z;
  tr_takerSide : Side;
  tr_at : Z
}.

(** A row of [candles]. *)
Record CandleRow := mkCandleRow {
  cd_market : string;
  cd_bucket : Z;
  cd_open : Z;
  cd_high : Z;
  cd_low : Z;
  cd_close : Z;
  cd_openKey : EventKey;
  cd_closeKey : EventKey;
  cd_baseVolume : Z;
  cd_quoteVolume : Z;
  cd_tradeCount : Z
}.

Record Store := mkStore {
  users : gmap string AccountStatus;
  decisions : list OrderDecisionRow;
  orders : list OrderRecord;
  fills : list FillRow;
  ledger : list LedgerTransaction;
  snapshots : list FeeTierSnapshot;
  offsets : gmap (string * string) EventKey;
  trades : list TradeRow;
  candles : list CandleRow
}.

Definition set_orders (os : list OrderRecord) (s : Store) : Store :=
  mkStore (users s) (decisions s) os (fills s) (ledger s) (snapshots s) (offsets s) (trades s) (candles s).
Definition set_decisions (ds : list OrderDecisionRow) (s : Store) : Store :=
  mkStore (users s) ds (orders s) (fills s) (ledger s) (snapshots s) (offsets s) (trades s) (candles s).
Definition set_fills (fs : list FillRow) (s : Store) : Store :=
  mkStore (users s) (decisions s) (orders s) fs (ledger s) (snapshots s) (offsets s) (trades s) (candles s).
Definition set_ledger (ts : list LedgerTransaction) (s : Store) : Store :=
  mkStore (users s) (decisions s) (orders s) (fills s) ts (snapshots s) (offsets s) (trades s) (candles s).
Definition set_snapshots (ss : list FeeTierSnapshot) (s : Store) : Store :=
  mkStore (users s) (decisions s) (orders s) (fills s) (ledger s) ss (offsets s) (trades s) (candles s).
Definition set_offsets (m : gmap (string * string) EventKey) (s : Store) : Store :=
  mkStore (users s) (decisions s) (orders s) (fills s) (ledger s) (snapshots s) m (trades s) (candles s).

Definition set_trades (ts : list TradeRow) (s : Store) : Store :=
  mkStore (users s) (decisions s) (orders s) (fills s) (ledger s) (snapshots s) (offsets s) ts (candles s).
Definition set_candles (cs : list CandleRow) (s : Store) : Store :=
  mkStore (users s) (decisions s) (orders s) (fills s) (ledger s) (snapshots s) (offsets s) (trades s) cs.

(** ** Transactions *)

Definition tx (A : Type) : Type := Store -> result (A * Store).

#[export] Instance tx_ret : MRet tx := fun A a s => Ok (a, s).
#[export] Instance tx_bind : MBind tx := fun A B k m s =>
  match m s with Ok (a, s') => k a s' | Throw e => Throw e end.

Definition read {A} (f : Store -> A) : tx A := fun s => Ok (f s, s).
Definition write (f : Store -> Store) : tx unit := fun s => Ok (tt, f s).
Definition raise {A} (e : error) : tx A := fun _ => Throw e.
Definition lift {A} (r : result A) : tx A := fun s =>
  match r with Ok a => Ok (a, s) | Throw e => Throw e end.
Definition raise_if (b : bool) (e : error) : tx unit := lift (throw_if b e).

Definition unique_violation : error := ConstraintViolation "23505".
Definition check_violation : error := ConstraintViolation "23514".

(** All entries of the ledger, oldest first. *)
Definition all_entries (s : Store) : list Entry := mjoin (map entries (ledger s)).

(** What a liability account owes: credits less debits. *)
Definition credit_balance (r : AccountRef) (s : Store) : Z := - net (on_account r) (all_entries s).

(** The deferred trading-balance trigger: each debit of a user trading account that
    the transaction inserted must leave the account non-negative at commit. *)
Definition trading_debit (e : Entry) : bool :=
  bool_decide (direction e = Debit) && isTradingAccount (acc_type (account e)) &&
  match ownerId (account e) with Some _ => true | None => false end.

Definition deferred_ok (before after : Store) : bool :=
  forallb (fun e => negb (trading_debit e) || (0 <=? credit_balance (account e) after))
    (mjoin (map entries (drop (length (ledger before)) (ledger after)))).

(** The deferred balance trigger: every transaction balances in every asset. *)
Definition balanced_ok (before after : Store) : bool :=
  forallb (fun t => isBalanced (entries t)) (drop (length (ledger before)) (ledger after)).

(** Run a transaction: the callback, then every deferred constraint, then commit;
    on any exception the tables are as they were. *)
Definition withTransaction {A} (fn : tx A) : tx A := fun s =>
  match fn s with
  | Throw e => Throw e
  | Ok (a, s') => if deferred_ok s s' && balanced_ok s s' then Ok (a, s') else Throw check_violation
  end.

(** ** [ledger.repository.ts] *)

Definition same_reference (k : TransactionKind) (ref : string) (t : LedgerTransaction) : bool :=
  bool_decide (kind t = k) && bool_decide (referenceId t = ref).

(** [postTransaction], with the partial unique indexes on [order_release] and
    [trade_settle] references and the check that an entry's amount is positive. *)
Definition postTransaction (t : LedgerTransaction) : tx unit :=
  _ ← (s ← read (fun s => s);
       raise_if ((bool_decide (kind t = order_release) || bool_decide (kind t = trade_settle)) &&
                 existsb (same_reference (kind t) (referenceId t)) (ledger s)) unique_violation);
  _ ← raise_if (negb (forallb (fun e => 0 <? amount e) (entries t))) check_violation;
  write (fun s => set_ledger (ledger s ++ [t]) s).

(** [postLedger]: a posting that a posting function built. *)
Definition postLedger (posting : result LedgerTransaction) : tx unit :=
  t ← lift posting; postTransaction t.

(** ** [order.repository.ts] *)

Definition findById (id : string) : tx (option OrderRecord) :=
  read (fun s => head (filter (fun o => o_id o = id) (orders s))).

Definition findByClientOrderId (user client : string) : tx (option OrderRecord) :=
  read (fun s => head (filter (fun o => o_user o = user /\ o_clientOrderId o = client) (orders s))).

Inductive CreatePendingOrderResult :=
| created (order : OrderRecord)
| existing (order : OrderRecord).

(** The row checks of the orders table. *)
Definition order_row_ok (o : OrderRecord) : bool :=
  (0 <? o_qty o) && (0 <? o_holdAmount o) && (0 <=? o_filledQty o) && (o_filledQty o <=? o_qty o) &&
  match o_kind o, o_price o with
  | limit, Some p => 0 <? p
  | market_order, None => true
  | _, _ => false
  end.

(** [createPending]: the row is new unless the user's client order id is taken.
    [input] carries the fresh id; its status and progress are the initial ones. *)
Definition createPending (input : OrderRecord) : tx CreatePendingOrderResult :=
  let row := mkOrder (o_id input) (o_user input) (o_clientOrderId input) (o_market input)
               (o_side input) (o_kind input) (o_timeInForce input) (o_postOnly input)
               (o_price input) (o_qty input) 0 Order.PENDING_ENGINE (o_holdAsset input)
               (o_holdAmount input) None None (o_createdAt input) in
  _ ← raise_if (negb (order_row_ok row)) check_violation;
  found ← findByClientOrderId (o_user input) (o_clientOrderId input);
  match found with
  | Some order => mret (existing order)
  | None =>
      taken ← findById (o_id input);
      match taken with
      | Some _ => raise unique_violation
      | None => _ ← write (fun s => set_orders (orders s ++ [row]) s); mret (created row)
      end
  end.

Record OrderTransitionPatch := mkPatch {
  p_filledQty : option Z; p_engineSeq : option Z; p_rejectReason : option string
}.

Definition no_patch : OrderTransitionPatch := mkPatch None None None.

Definition patch_order (to : Order.OrderStatus) (p : OrderTransitionPatch) (o : OrderRecord)
  : OrderRecord :=
  mkOrder (o_id o) (o_user o) (o_clientOrderId o) (o_market o) (o_side o) (o_kind o)
    (o_timeInForce o) (o_postOnly o) (o_price o) (o_qty o)
    (default (o_filledQty o) (p_filledQty p)) to (o_holdAsset o) (o_holdAmount o)
    (match p_engineSeq p with Some n => Some n | None => o_engineSeq o end)
    (match p_rejectReason p with Some r => Some r | None => o_rejectReason o end) (o_createdAt o).

Definition row_hit (id : string) (test : OrderRecord -> bool) (o : OrderRecord) : bool :=
  bool_decide (o_id o = id) && test o.

(** [UPDATE orders SET .. WHERE id = .. AND test], and how many rows matched. *)
Definition update_order (id : string) (test : OrderRecord -> bool) (f : OrderRecord -> OrderRecord)
  : tx nat :=
  s ← read (fun s => s);
  let matched := filter (fun o => row_hit id test o = true) (orders s) in
  _ ← raise_if (negb (forallb (fun o => order_row_ok (f o)) matched)) check_violation;
  _ ← write (set_orders (map (fun o => if row_hit id test o then f o else o) (orders s)));
  mret (length matched).

(** [transition]: guarded on the status it leaves; nothing when another actor moved first. *)
Definition transition (orderId : string) (from to : Order.OrderStatus) (patch : OrderTransitionPatch)
  : tx (option OrderRecord) :=
  _ ← raise_if (negb (Order.canOrderTransition from to)) (GenericError "illegal order transition");
  count ← update_order orderId (fun o => bool_decide (o_status o = from)) (patch_order to patch);
  if (count =? 0)%nat then mret None else findById orderId.

(** [recordFill]: progress with no status change; [filled_qty] only grows. *)
Definition recordFill (orderId : string) (status : Order.OrderStatus) (filledQty : Z)
  : tx (option OrderRecord) :=
  count ← update_order orderId
            (fun o => bool_decide (o_status o = status) && (o_filledQty o <? filledQty))
            (fun o => patch_order (o_status o) (mkPatch (Some filledQty) None None) o);
  if (count =? 0)%nat then mret None else findById orderId.

Definition OPEN_STATUSES : list Order.OrderStatus :=
  [Order.PENDING_ENGINE; Order.OPEN; Order.PARTIALLY_FILLED; Order.PENDING_CANCEL].

(** Rows are appended as orders are created, so table order is creation order. *)
Definition open_rows (userId market : string) (s : Store) : list OrderRecord :=
  filter (fun o => o_user o = userId /\ o_market o = market /\ o_status o ∈ OPEN_STATUSES) (orders s).

Definition listOpenForUser (userId market : string) : tx (list OrderRecord) :=
  read (open_rows userId market).

Definition countOpenForUser (userId market : string) : tx Z :=
  read (fun s => Z.of_nat (length (open_rows userId market s))).

Definition listPlacementTimes (userId : string) (since : Z) : tx (list Z) :=
  read (fun s => map o_createdAt
    (filter (fun o => o_user o = userId /\ o_createdAt o > since) (orders s))).

(** ** [order-risk-decision.repository.ts] *)

Definition record_decision (row : OrderDecisionRow) : tx unit :=
  write (fun s => set_decisions (decisions s ++ [row]) s).

(** ** [settlement.repository.ts] *)

Inductive InsertFillResult := inserted | already_settled.

(** The row checks of the fills table. *)
Definition fill_row_ok (f : FillRow) : bool :=
  (0 <? seq (f_key f)) && (0 <=? idx (f_key f)) && (0 <? f_price f) && (0 <? f_qty f) &&
  (0 <=? f_notional f) && (0 <=? f_takerFee f) && (0 <=? f_makerFee f) &&
  (0 <=? f_takerFeeBps f) && (f_takerFeeBps f <=? 10000) &&
  (0 <=? f_makerFeeBps f) && (f_makerFeeBps f <=? 10000) &&
  (f_takerFee f <=? f_notional f) && (f_makerFee f <=? f_notional f) &&
  negb (bool_decide (f_takerOrderId f = f_makerOrderId f)) &&
  negb (bool_decide (f_baseAsset f = f_quoteAsset f)).

(** [INSERT .. ON CONFLICT (fill_id) DO NOTHING]; a clash on the other unique key,
    the market and event key, is an error. *)
Definition insertFill (f : FillRow) : tx InsertFillResult :=
  s ← read (fun s => s);
  _ ← raise_if (negb (fill_row_ok f)) check_violation;
  if existsb (fun g => bool_decide (f_fillId g = f_fillId f)) (fills s) then mret already_settled
  else
    _ ← raise_if (existsb (fun g => bool_decide (f_market g = f_market f) &&
                                   bool_decide (f_key g = f_key f)) (fills s)) unique_violation;
    _ ← write (set_fills (fills s ++ [f]));
    mret inserted.

(** What a fill consumes of an order's hold. *)
Definition consumed_by (o : OrderRecord) (f : FillRow) : Z :=
  match o_side o with
  | buy => f_notional f + (if bool_decide (f_takerOrderId f = o_id o) then f_takerFee f else f_makerFee f)
  | sell => f_qty f
  end.

Definition fill_of (id : string) (f : FillRow) : bool :=
  bool_decide (f_takerOrderId f = id) || bool_decide (f_makerOrderId f = id).

Definition consumed (o : OrderRecord) (s : Store) : Z :=
  sum_if (fill_of (o_id o)) (consumed_by o) (fills s).

(** The debits of [user_order_locked] by the releases that reference an order. *)
Definition release_debits (id : string) (t : LedgerTransaction) : Z :=
  if same_reference order_release id t
  then sum_if (fun e => bool_decide (acc_type (account e) = user_order_locked) &&
                        bool_decide (direction e = Debit)) amount (entries t)
  else 0.

Definition released (id : string) (s : Store) : Z :=
  sum_if (fun _ => true) (release_debits id) (ledger s).

Definition outstanding (o : OrderRecord) (s : Store) : Z :=
  o_holdAmount o - consumed o s - released (o_id o) s.

Definition outstandingHold (orderId : string) : tx (option Z) :=
  s ← read (fun s => s);
  o ← findById orderId;
  mret ((fun o => outstanding o s) <$> o).

Definition getOffset (consumer market : string) : tx (option EventKey) :=
  read (fun s => offsets s !! (consumer, market)).

Definition key_lt (a b : EventKey) : bool :=
  (seq a <? seq b) || ((seq a =? seq b) && (idx a <? idx b)).

(** [advanceOffset]: forward only; false when the stored offset is at or past the key. *)
Definition advanceOffset (consumer market : string) (key : EventKey) : tx bool :=
  s ← read (fun s => s);
  let move := match offsets s !! (consumer, market) with
              | None => true
              | Some stored => key_lt stored key
              end in
  _ ← write (fun s => if move then set_offsets (<[(consumer, market) := key]> (offsets s)) s else s);
  mret move.

(** The notional of a user's fills in a quote asset over a window of engine time. *)
Definition volume_of (userId quoteAsset : string) (from to : Z) (s : Store) : Z :=
  sum_if (fun f => bool_decide (f_quoteAsset f = quoteAsset) &&
                   (from <=? f_engineTimestamp f) && (f_engineTimestamp f <? to) &&
                   (bool_decide (f_takerUserId f = userId) || bool_decide (f_makerUserId f = userId)))
    f_notional (fills s).

Definition quoteVolume (userId quoteAsset : string) (from to : Z) : tx Z :=
  read (volume_of userId quoteAsset from to).

(** The days whose ten-character name is a date the database reads: years 1 to 9999. *)
Definition date_ok (day : Z) : bool := (-719162 <=? day) && (day <=? 2932896).

Definition findTierSnapshot (userId quoteAsset : string) (day : Z) : tx (option FeeTierSnapshot) :=
  _ ← raise_if (negb (date_ok day)) (GenericError "invalid date");
  read (fun s => head (filter (fun x => s_user x = userId /\ s_quoteAsset x = quoteAsset /\ s_day x = day)
                         (snapshots s))).

(** Write a snapshot unless one exists, and return whichever exists afterwards. *)
Definition insertTierSnapshot (snapshot : FeeTierSnapshot) : tx FeeTierSnapshot :=
  found ← findTierSnapshot (s_user snapshot) (s_quoteAsset snapshot) (s_day snapshot);
  _ ← (match found with
       | Some _ => mret tt
       | None => write (fun s => set_snapshots (snapshots s ++ [snapshot]) s)
       end);
  stored ← findTierSnapshot (s_user snapshot) (s_quoteAsset snapshot) (s_day snapshot);
  match stored with
  | None => raise (GenericError "fee tier snapshot vanished after insert")
  | Some x => mret x
  end.

Record HeldLevel := mkLevel { l_side : Side; l_price : option Z; l_qty : Z }.

(** Resting limit orders by side and price. *)
Definition heldLevels (market : string) : tx (list HeldLevel) :=
  read (fun s =>
    let resting := filter (fun o => o_market o = market /\ o_kind o = limit /\
      o_status o ∈ [Order.OPEN; Order.PARTIALLY_FILLED; Order.PENDING_CANCEL]) (orders s) in
    filter (fun l => 0 < l_qty l)
      (map (fun '((sd, p), q) => mkLevel sd p q)
        (group_sum (fun o => (o_side o, o_price o)) (fun o => o_qty o - o_filledQty o) resting))).

(** The holds the orders of a user account for, and what the ledger has locked. *)
Definition expected_lock (u a : string) (s : Store) : Z :=
  sum_if (fun o => Order.orderHoldsFunds (o_status o) && bool_decide (o_user o = u) &&
                   bool_decide (o_holdAsset o = a)) (fun o => outstanding o s) (orders s).

Definition lock_pairs (cluster : Cluster) (s : Store) : list (string * string) :=
  filter (fun ua => assetKeyInCluster ua.2 cluster = true)
    (remove_dups
      (omap (fun e => if bool_decide (acc_type (account e) = user_order_locked)
                      then (fun u => (u, acc_asset (account e))) <$> ownerId (account e) else None)
         (all_entries s) ++
       map (fun o => (o_user o, o_holdAsset o))
         (filter (fun o => Order.orderHoldsFunds (o_status o) = true) (orders s)))).

Definition orderLockMismatches (cluster : Cluster) : tx Z :=
  read (fun s => Z.of_nat (length (filter (fun ua =>
    credit_balance (userOrderLocked ua.1 ua.2) s <> expected_lock ua.1 ua.2 s) (lock_pairs cluster s)))).

Definition negativeTradingAccounts (cluster : Cluster) : tx Z :=
  read (fun s => Z.of_nat (length (filter (fun r =>
      ownerId r <> None /\ isTradingAccount (acc_type r) = true /\
      assetKeyInCluster (acc_asset r) cluster = true /\ credit_balance r s < 0)
    (remove_dups (map account (all_entries s)))))).

(** ** Lemmas: transactions *)

Lemma tx_bind_Ok {A B} (m : tx A) (k : A -> tx B) s b s' :
  (m ≫= k) s = Ok (b, s') <-> exists a s1, m s = Ok (a, s1) /\ k a s1 = Ok (b, s').
Proof.
  unfold mbind, tx_bind. destruct (m s) as [[a s1]|e]; split; try done; eauto.
  - by intros (a' & s1' & [= <- <-] & ?).
  - by intros (? & ? & ? & _).
Qed.

Lemma lift_Ok {A} (r : result A) s a s' : lift r s = Ok (a, s') <-> r = Ok a /\ s' = s.
Proof. unfold lift. destruct r; naive_solver. Qed.

Lemma raise_if_Ok b e s u s' : raise_if b e s = Ok (u, s') <-> b = false /\ s' = s.
Proof. unfold raise_if. rewrite lift_Ok, throw_if_Ok. done. Qed.

(** Invert a run of a transaction that is known to return. *)
Ltac inv_tx :=
  repeat match goal with
  | H : (_ ≫= _) _ = Ok (_, _) |- _ => apply tx_bind_Ok in H as (? & ? & ? & ?)
  | H : lift _ _ = Ok (_, _) |- _ => apply lift_Ok in H as [? ->]
  | H : raise_if _ _ _ = Ok (_, _) |- _ => apply raise_if_Ok in H as [? ->]
  | H : read _ _ = Ok (_, _) |- _ => unfold read in H; first [injection H as <- <- | injection H as <-]
  | H : write _ _ = Ok (_, _) |- _ => unfold write in H; first [injection H as <- <- | injection H as <-]
  | H : mret _ _ = Ok (_, _) |- _ => unfold mret, tx_ret in H; first [injection H as <- <- | injection H as <-]
  | H : raise _ _ = Ok _ |- _ => discriminate H
  | x : unit |- _ => destruct x
  end.

Lemma head_filter_elem {A} (P : A -> Prop) `{forall x, Decision (P x)} l x :
  head (filter P l) = Some x -> x ∈ l /\ P x.
Proof.
  intros Hh. destruct (filter P l) as [|y m] eqn:E; [done|]. injection Hh as ->.
  assert (Hin : x ∈ filter P l) by (rewrite E; set_solver).
  apply list_elem_of_filter in Hin. tauto.
Qed.

Lemma head_filter_absent {A} (P : A -> Prop) `{forall x, Decision (P x)} l x :
  head (filter P l) = None -> x ∈ l -> ~ P x.
Proof.
  intros Hh Hx HP. assert (Hin : x ∈ filter P l) by (by apply list_elem_of_filter).
  destruct (filter P l); [set_solver|done].
Qed.

(** A row is determined by its id. *)
Lemma row_unique {A} (key : A -> string) l x y :
  NoDup (key <$> l) -> x ∈ l -> y ∈ l -> key x = key y -> x = y.
Proof.
  induction l as [|z l IH]; simpl; [set_solver|]. intros [Hz Hnd]%NoDup_cons.
  rewrite !elem_of_cons. intros [->|Hx] [->|Hy] Hk; auto.
  - destruct Hz. rewrite Hk. by apply list_elem_of_fmap_2.
  - destruct Hz. rewrite <- Hk. by apply list_elem_of_fmap_2.
Qed.

(** ** Lemmas: order rows *)

Abbreviation ids s := (o_id <$> orders s).

Lemma findById_Ok id s r s' :
  findById id s = Ok (r, s') ->
  s' = s /\ match r with Some o => o ∈ orders s /\ o_id o = id | None => id ∉ ids s end.
Proof.
  unfold findById. intros H. inv_tx. split; [done|]. destruct (head _) as [o|] eqn:E.
  - by apply head_filter_elem in E.
  - intros (o & -> & Ho)%list_elem_of_fmap. by apply (head_filter_absent _ _ o) in E.
Qed.

(** A row found by its id is the only one with it. *)
Lemma findById_row o s :
  NoDup (ids s) -> o ∈ orders s -> findById (o_id o) s = Ok (Some o, s).
Proof.
  intros Hnd Ho. unfold findById, read. destruct (head _) as [o'|] eqn:E.
  - apply head_filter_elem in E as [Ho' Heq]. by rewrite (row_unique o_id (orders s) o' o).
  - by apply (head_filter_absent _ _ o) in E.
Qed.

(** Replace the row that has the id of [o']. *)
Definition set_row (o' : OrderRecord) (l : list OrderRecord) : list OrderRecord :=
  map (fun x => if bool_decide (o_id x = o_id o') then o' else x) l.

(** What no update of an order changes. *)
Definition same_terms (o o' : OrderRecord) : Prop :=
  o_id o' = o_id o /\ o_user o' = o_user o /\ o_side o' = o_side o /\ o_market o' = o_market o /\
  o_price o' = o_price o /\ o_kind o' = o_kind o /\
  o_qty o' = o_qty o /\ o_holdAsset o' = o_holdAsset o /\ o_holdAmount o' = o_holdAmount o.

(** The update of one row, the only table change of a guarded transition. *)
Record row_step (o o' : OrderRecord) (s s' : Store) : Prop := {
  rs_old : o ∈ orders s;
  rs_terms : same_terms o o';
  rs_ok : order_row_ok o' = true;
  rs_new : s' = set_orders (set_row o' (orders s)) s
}.

Lemma same_terms_patch to p o : same_terms o (patch_order to p o).
Proof. by repeat split. Qed.

Lemma update_order_Ok id test f s n s' :
  NoDup (ids s) -> (forall o, same_terms o (f o)) ->
  update_order id test f s = Ok (n, s') ->
  (n = 0%nat /\ s' = s) \/
  (n <> 0%nat /\ exists o, o_id o = id /\ test o = true /\ row_step o (f o) s s').
Proof.
  intros Hnd Hf H. unfold update_order in H. inv_tx. zbool.
  destruct (filter (fun o => row_hit id test o = true) (orders s)) as [|o l] eqn:E.
  - left. split; [done|]. rewrite (map_ext_in _ (fun o => o)), map_id; [by destruct s|].
    intros o Ho%list_elem_of_In. destruct (row_hit id test o) eqn:Hh; [|done].
    assert (Hin : o ∈ filter (fun o => row_hit id test o = true) (orders s)) by (by apply list_elem_of_filter).
    rewrite E in Hin. set_solver.
  - right. split; [done|]. exists o.
    assert (Hin : o ∈ filter (fun o => row_hit id test o = true) (orders s)) by (rewrite E; set_solver).
    apply list_elem_of_filter in Hin as [Hh Ho]. apply andb_true_iff in Hh as [Hid Ht].
    apply bool_decide_eq_true in Hid. split; [done|]. split; [done|]. split; [done|apply Hf| |].
    + match goal with Hr : forallb _ _ = true |- _ => rewrite forallb_forall in Hr; apply Hr end. by left.
    + unfold set_row. f_equal. apply map_ext_in. intros x Hx%list_elem_of_In.
      destruct (Hf o) as [-> _]. destruct (row_hit id test x) eqn:Hx'.
      * apply andb_true_iff in Hx' as [Hxid _]. apply bool_decide_eq_true in Hxid.
        rewrite bool_decide_eq_true_2 by congruence. f_equal. eapply (row_unique o_id); eauto. congruence.
      * rewrite bool_decide_eq_false_2; [done|]. intros Hxo.
        assert (x = o) as -> by (by eapply (row_unique o_id)).
        unfold row_hit in Hx'. rewrite Ht, bool_decide_eq_true_2 in Hx' by done. done.
Qed.

Lemma set_row_elem o o' l x :
  NoDup (o_id <$> l) -> o ∈ l -> o_id o' = o_id o ->
  x ∈ set_row o' l <-> x = o' \/ (x ∈ l /\ o_id x <> o_id o).
Proof.
  intros Hnd Ho Hid. unfold set_row. rewrite list_elem_of_fmap. rewrite Hid. split.
  - intros (y & -> & Hy). case_bool_decide; [by left|by right].
  - intros [->|[Hx Hne]].
    + exists o. by rewrite bool_decide_eq_true_2.
    + exists x. by rewrite bool_decide_eq_false_2.
Qed.

Lemma set_row_ids o' l : o_id <$> set_row o' l = o_id <$> l.
Proof.
  induction l as [|x l IH]; [done|]. cbn. f_equal; [|exact IH].
  case_bool_decide; congruence.
Qed.

Lemma row_step_find o o' s s' :
  NoDup (ids s) -> row_step o o' s s' -> findById (o_id o) s' = Ok (Some o', s').
Proof.
  intros Hnd [Ho Ht _ ->]. destruct Ht as [Hid _]. rewrite <- Hid. apply findById_row; simpl.
  - by rewrite set_row_ids.
  - apply (set_row_elem o); auto.
Qed.

(** A guarded transition either finds nothing and changes nothing, or moves the one row
    whose status it names. *)
Lemma transition_Ok id from to patch s r s' :
  NoDup (ids s) -> transition id from to patch s = Ok (r, s') ->
  Order.canOrderTransition from to = true /\
  ((r = None /\ s' = s) \/
   exists o, o_id o = id /\ o_status o = from /\ r = Some (patch_order to patch o) /\
     row_step o (patch_order to patch o) s s').
Proof.
  intros Hnd H. unfold transition in H. inv_tx. zbool. split; [done|].
  match goal with H : update_order _ _ _ _ = _ |- _ =>
    destruct (update_order_Ok _ _ _ _ _ _ Hnd (fun o => same_terms_patch _ _ o) H)
      as [[-> ->]|(Hn & o & Hid & Ht & Hrow)] end.
  - simpl in *. inv_tx. by left.
  - right. exists o. zbool. split; [done|]. split; [done|].
    destruct (_ =? _)%nat eqn:E in H1; [by apply Nat.eqb_eq in E|].
    rewrite <- Hid, (row_step_find _ _ _ _ Hnd Hrow) in H1. by injection H1 as <- <-.
Qed.

Lemma recordFill_Ok id status filled s r s' :
  NoDup (ids s) -> recordFill id status filled s = Ok (r, s') ->
  (r = None /\ s' = s) \/
  exists o, o_id o = id /\ o_status o = status /\ o_filledQty o < filled /\
    r = Some (patch_order (o_status o) (mkPatch (Some filled) None None) o) /\
    row_step o (patch_order (o_status o) (mkPatch (Some filled) None None) o) s s'.
Proof.
  intros Hnd H. unfold recordFill in H. inv_tx.
  match goal with H : update_order _ _ _ _ = _ |- _ =>
    destruct (update_order_Ok _ _ _ _ _ _ Hnd (fun o => same_terms_patch _ _ o) H)
      as [[-> ->]|(Hn & o & Hid & Ht & Hrow)] end.
  - simpl in *. inv_tx. by left.
  - right. exists o. zbool. split; [done|]. split; [done|]. split; [done|].
    destruct (_ =? _)%nat eqn:E in H0; [by apply Nat.eqb_eq in E|].
    rewrite <- Hid, (row_step_find _ _ _ _ Hnd Hrow) in H0. by injection H0 as <- <-.
Qed.
