(* ===== verification/Events.v ===== *)
(** * Engine events

    [apps/api/src/services/settlement/events.ts]: the events, their strict decoding
    from the engine's JSON, and their keys by position. [parseEngineJson] of
    [engine-client.ts], which wraps [JSON.parse], is a parameter: the decoder is
    modelled on the values it returns. An integer of the engine reaches the decoder as
    a number when it has fewer than sixteen digits and as a string of its digits
    otherwise. *)

From S2P Require Import Prelude Decimal Orders Store.
From Stdlib Require Import ZArith Lia Ascii.
From stdpp Require Import base list strings.

Open Scope string_scope.
Open Scope list_scope.
Open Scope Z_scope.

#[local] Set Warnings "-register-all".

(** ** Values *)

(** A JavaScript value as far as the decoder looks at it; a number is the integer it
    stands for, when it is a safe integer. Fields are in enumeration order. *)
Inductive value :=
| v_null
| v_bool (b : bool)
| v_bigint (n : Z)
| v_number (n : option Z)
| v_string (s : string)
| v_array (items : list value)
| v_object (fields : list (string * value)).

(** The fields that [body[field]] can find, when [typeof body] is ['object'] and it is
    not null; no field the decoder names exists on an array. *)
Definition object_fields (v : value) : option (list (string * value)) :=
  match v with
  | v_object fields => Some fields
  | v_array _ => Some []
  | _ => None
  end.

(** [Object.values(value)[0]] of such a value. *)
Definition first_value (v : value) : option value :=
  match v with
  | v_object fields => snd <$> head fields
  | v_array items => head items
  | _ => None
  end.

(** ** Events *)

Record FillEvent := mkFillEvent {
  ev_seq : Z; ev_fillId : string; ev_takerOrderId : string; ev_makerOrderId : string;
  ev_takerSide : Side; ev_price : Z; ev_qty : Z; ev_timestampMs : Z
}.

Inductive SettlementEvent :=
| fill (event : FillEvent)
| accepted (seq : Z) (orderId : string) (restingQty : Z)
| rejected (seq : Z) (orderId reason : string)
| cancelled (seq : Z) (orderId : string) (remainingQty : Z)
| expired (seq : Z) (orderId : string) (remainingQty : Z)
| status_changed (seq : Z).

Definition event_seq (e : SettlementEvent) : Z :=
  match e with
  | fill e => ev_seq e
  | accepted n _ _ | rejected n _ _ | cancelled n _ _ | expired n _ _ | status_changed n => n
  end.

(** ** Decoding *)

Definition fail {A} (reason : string) : result A := Throw (UndecodableEventError reason).

(** [/^-?\d+$/] *)
Definition integer_pattern (s : text) : bool :=
  let digits s := negb (bool_decide (s = [])) && forallb is_digit s in
  match s with
  | a :: s' => if bool_decide (a = minus_char) then digits s' else digits s
  | [] => false
  end.

Definition integer (body : list (string * value)) (field : string) (min : Z) : result Z :=
  parsed ← match jget field body with
           | Some (v_bigint n) => Ok n
           | Some (v_number (Some n)) => Ok n
           | Some (v_string s) =>
               if integer_pattern (String.list_ascii_of_string s)
               then Ok (big_int (String.list_ascii_of_string s))
               else fail (field +:+ " is not an integer")
           | _ => fail (field +:+ " is not an integer")
           end;
  if parsed <? min then fail (field +:+ (" is below " +:+ String.string_of_list_ascii (to_text min))) else Ok parsed.

Definition text_field (body : list (string * value)) (field : string) : result string :=
  match jget field body with
  | Some (v_string s) =>
      if bool_decide (s = "") then fail (field +:+ " is not a non-empty string") else Ok s
  | _ => fail (field +:+ " is not a non-empty string")
  end.

Definition side_field (body : list (string * value)) : result Side :=
  match jget "taker_side" body with
  | Some (v_string s) =>
      if bool_decide (s = "buy") then Ok buy else
      if bool_decide (s = "sell") then Ok sell else fail "taker_side is not buy or sell"
  | _ => fail "taker_side is not buy or sell"
  end.

Definition MIN_TIMESTAMP : Z := - 2 ^ 63.

(** The variants of the engine, once the tag and the sequence are read. *)
Definition decode_body (tag : string) (seq : Z) (b : list (string * value)) : result SettlementEvent :=
  if bool_decide (tag = "Fill") then
    side ← side_field b;
    fillId ← text_field b "fill_id";
    taker ← text_field b "taker_order_id";
    maker ← text_field b "maker_order_id";
    price ← integer b "price" 1;
    qty ← integer b "qty" 1;
    timestampMs ← integer b "timestamp_ms" MIN_TIMESTAMP;
    Ok (fill (mkFillEvent seq fillId taker maker side price qty timestampMs))
  else if bool_decide (tag = "Accepted") then
    orderId ← text_field b "order_id"; n ← integer b "resting_qty" 0; Ok (accepted seq orderId n)
  else if bool_decide (tag = "Rejected") then
    orderId ← text_field b "order_id"; reason ← text_field b "reason"; Ok (rejected seq orderId reason)
  else if bool_decide (tag = "Cancelled") then
    orderId ← text_field b "order_id"; n ← integer b "remaining_qty" 0; Ok (cancelled seq orderId n)
  else if bool_decide (tag = "Expired") then
    orderId ← text_field b "order_id"; n ← integer b "remaining_qty" 0; Ok (expired seq orderId n)
  else if bool_decide (tag = "StatusChanged") then Ok (status_changed seq)
  else fail ("unknown variant " +:+ tag).

Definition KeyedRaw : Type := EventKey * value.

Section Decoding.
Context (parseEngineJson : string -> result value).

Definition parsed_raw (raw : value) : result value :=
  match raw with v_string s => parseEngineJson s | _ => Ok raw end.

Definition decodeSettlementEvent (raw : value) : result SettlementEvent :=
  v ← parsed_raw raw;
  match v with
  | v_object entries =>
      match entries with
      | [(tag, body)] =>
          match object_fields body with
          | None => fail (tag +:+ " has no body")
          | Some b => seq ← integer b "seq" 1; decode_body tag seq b
          end
      | _ => fail "expected exactly one variant tag"
      end
  | _ => fail "not an object"
  end.

Definition seqOf (raw : value) : result Z :=
  v ← parsed_raw raw;
  match v with
  | v_object _ | v_array _ =>
      match first_value v with
      | Some body => match object_fields body with
                     | Some b => integer b "seq" 1
                     | None => fail "no body"
                     end
      | None => fail "no body"
      end
  | _ => fail "not an object"
  end.

(** [keyByPosition]: the index of an event restarts when the sequence changes. *)
Fixpoint key_from (previous : option EventKey) (raws : list value) : result (list KeyedRaw) :=
  match raws with
  | [] => Ok []
  | raw :: raws =>
      n ← seqOf raw;
      let key := mkKey n (match previous with
                          | Some p => if Store.seq p =? n then idx p + 1 else 0
                          | None => 0
                          end) in
      rest ← key_from (Some key) raws;
      Ok ((key, raw) :: rest)
  end.

Definition keyByPosition (raws : list value) : result (list KeyedRaw) := key_from None raws.
End Decoding.

(** ** What the engine writes *)

(** An integer literal as [parseEngineJson] leaves it. *)
Definition engine_int (n : Z) : value :=
  if Z.abs n <? 10 ^ 15 then v_number (Some n) else v_string (String.string_of_list_ascii (to_text n)).

Definition side_name (s : Side) : string := match s with buy => "buy" | sell => "sell" end.

Definition engine_value (e : SettlementEvent) : value :=
  let order tag n id fields :=
    v_object [(tag, v_object (("seq", engine_int n) :: ("order_id", v_string id) :: fields))] in
  match e with
  | fill e => v_object [("Fill", v_object
      [("seq", engine_int (ev_seq e)); ("fill_id", v_string (ev_fillId e));
       ("taker_order_id", v_string (ev_takerOrderId e)); ("maker_order_id", v_string (ev_makerOrderId e));
       ("taker_side", v_string (side_name (ev_takerSide e))); ("price", engine_int (ev_price e));
       ("qty", engine_int (ev_qty e)); ("timestamp_ms", engine_int (ev_timestampMs e))])]
  | accepted n id q => order "Accepted" n id [("resting_qty", engine_int q)]
  | rejected n id r => order "Rejected" n id [("reason", v_string r)]
  | cancelled n id q => order "Cancelled" n id [("remaining_qty", engine_int q)]
  | expired n id q => order "Expired" n id [("remaining_qty", engine_int q)]
  | status_changed n => v_object [("StatusChanged", v_object [("seq", engine_int n)])]
  end.

(** What every decoded event satisfies. *)
Definition event_wf (e : SettlementEvent) : Prop :=
  1 <= event_seq e /\
  match e with
  | fill e => ev_fillId e <> "" /\ ev_takerOrderId e <> "" /\ ev_makerOrderId e <> "" /\
              1 <= ev_price e /\ 1 <= ev_qty e /\ MIN_TIMESTAMP <= ev_timestampMs e
  | accepted _ id q | cancelled _ id q | expired _ id q => id <> "" /\ 0 <= q
  | rejected _ id r => id <> "" /\ r <> ""
  | status_changed _ => True
  end.

(** ** Lemmas *)

Lemma integer_Ok b f min n : integer b f min = Ok n -> min <= n.
Proof. unfold integer. intros H. inv_ok. destruct (Z.ltb_spec x min); [done|]. by injection H0 as <-. Qed.

Lemma text_field_Ok b f s : text_field b f = Ok s -> s <> "".
Proof. unfold text_field. intros H. repeat case_match; simplify_eq; by zbool. Qed.

Lemma integer_pattern_to_text n : integer_pattern (to_text n) = true.
Proof.
  assert (Hd : forall m, 0 <= m -> negb (bool_decide (to_digits m = [])) && forallb is_digit (to_digits m) = true).
  { intros m Hm. rewrite bool_decide_eq_false_2 by by apply to_digits_nonempty. simpl.
    apply forallb_forall. intros a Ha%list_elem_of_In. pose proof (to_digits_digits m Hm) as H.
    rewrite Forall_forall in H. by apply H. }
  unfold to_text. destruct (Z.ltb_spec n 0); simpl; [apply Hd; lia|].
  specialize (Hd n ltac:(lia)). pose proof (to_digits_digits n ltac:(lia)) as H1.
  unfold integer_pattern. destruct (to_digits n) as [|a s]; [done|].
  apply Forall_cons in H1 as [Ha _]. by rewrite nonzero_digit_not_minus.
Qed.

(** Reading back an integer the engine wrote. *)
Lemma integer_engine_int b f min n :
  jget f b = Some (engine_int n) -> min <= n -> integer b f min = Ok n.
Proof.
  intros Hb Hn. unfold integer. rewrite Hb. unfold engine_int.
  destruct (_ <? _); cbn beta iota.
  - simpl. by rewrite (proj2 (Z.ltb_ge n min)) by lia.
  - rewrite String.list_ascii_of_string_of_list_ascii, integer_pattern_to_text, big_int_to_text. simpl.
    by rewrite (proj2 (Z.ltb_ge n min)) by lia.
Qed.

Lemma text_field_string b f s : jget f b = Some (v_string s) -> s <> "" -> text_field b f = Ok s.
Proof. intros Hb Hs. unfold text_field. by rewrite Hb, bool_decide_eq_false_2. Qed.

Lemma side_field_name b s : jget "taker_side" b = Some (v_string (side_name s)) -> side_field b = Ok s.
Proof. intros Hb. unfold side_field. rewrite Hb. by destruct s. Qed.

Ltac read_field :=
  match goal with
  | |- context [integer ?b ?f ?m] =>
      erewrite (integer_engine_int b f m) by first [reflexivity | lia]; simpl
  | |- context [text_field ?b ?f] => erewrite (text_field_string b f) by (try reflexivity; done); simpl
  | |- context [side_field ?b] => erewrite (side_field_name b) by reflexivity; simpl
  end.

Ltac inv_fields :=
  repeat match goal with
  | H : integer _ _ _ = Ok _ |- _ => apply integer_Ok in H
  | H : text_field _ _ = Ok _ |- _ => apply text_field_Ok in H
  end.

Lemma decode_body_Ok tag n b e :
  1 <= n -> decode_body tag n b = Ok e -> event_wf e /\ event_seq e = n.
Proof.
  intros Hn. unfold decode_body.
  repeat (case_bool_decide; [intros H'; inv_ok; inv_fields; by (split; [split|])|]); done.
Qed.

(** Every refusal of a computation is an undecodable event. *)
Definition undecodable {A} (r : result A) : Prop :=
  forall err, r = Throw err -> exists reason, err = UndecodableEventError reason.

Lemma undecodable_fail {A} reason : undecodable (fail reason : result A).
Proof. intros err [= <-]. eauto. Qed.

Lemma undecodable_Ok {A} (a : A) : undecodable (Ok a).
Proof. by intros err. Qed.

Lemma undecodable_bind {A B} (m : result A) (k : A -> result B) :
  undecodable m -> (forall a, undecodable (k a)) -> undecodable (m ≫= k).
Proof. destruct m; simpl; [by auto|]. intros Hm _ err [= <-]. by apply Hm. Qed.

Create HintDb decoding.
#[export] Hint Resolve undecodable_fail undecodable_Ok undecodable_bind : decoding.

Lemma integer_undecodable b f min : undecodable (integer b f min).
Proof.
  apply undecodable_bind; [repeat case_match; auto with decoding|]. intros. case_match; auto with decoding.
Qed.

Lemma text_field_undecodable b f : undecodable (text_field b f).
Proof. unfold text_field. repeat case_match; auto with decoding. Qed.

Lemma side_field_undecodable b : undecodable (side_field b).
Proof. unfold side_field. repeat case_match; auto with decoding. Qed.

#[export] Hint Resolve integer_undecodable text_field_undecodable side_field_undecodable : decoding.

Lemma decode_body_undecodable tag n b : undecodable (decode_body tag n b).
Proof. unfold decode_body. repeat case_bool_decide; auto 20 with decoding. Qed.

(** ** Properties *)

Section Properties.
Context (parseEngineJson : string -> result value).

(** C40: the decoder accepts exactly what it can name. Every well-formed event decodes from the value
    the engine writes for it, whatever the size of its integers; whatever decodes is a
    well-formed event, with positive sequence, price and quantity and no empty id, and
    [seqOf] reads its sequence from the same value, so that a halt names the key the event
    has; and a value that is not text either decodes or is refused as undecodable. *)
Theorem decode_exact :
  (forall e, event_wf e -> decodeSettlementEvent parseEngineJson (engine_value e) = Ok e) /\
  (forall raw e, decodeSettlementEvent parseEngineJson raw = Ok e ->
     event_wf e /\ seqOf parseEngineJson raw = Ok (event_seq e)) /\
  (forall raw err, decodeSettlementEvent parseEngineJson raw = Throw err ->
     (exists reason, err = UndecodableEventError reason) \/
     exists s, raw = v_string s /\ parseEngineJson s = Throw err).
Proof.
  split; [|split].
  - intros [e|n id q|n id r|n id q|n id q|n] [Hn Hwf]; simpl in Hn, Hwf;
      unfold decodeSettlementEvent; simpl; unfold decode_body.
    + destruct e. simpl in *. destruct Hwf as (? & ? & ? & ? & ? & ?). do 8 read_field. done.
    + destruct Hwf. do 3 read_field. done.
    + destruct Hwf. do 3 read_field. done.
    + destruct Hwf. do 3 read_field. done.
    + destruct Hwf. do 3 read_field. done.
    + read_field. done.
  - intros raw e. unfold decodeSettlementEvent, seqOf. destruct (parsed_raw _ raw) as [v|]; simpl; [|done].
    destruct v as [| | | | | |[|[tag body] [|]]]; try done. simpl. destruct (object_fields body) as [b|]; [|done].
    intros H. apply bind_Ok in H as (n & Hn & H). pose proof (integer_Ok _ _ _ _ Hn).
    apply decode_body_Ok in H as [? <-]; [|done]. done.
  - intros raw err. unfold decodeSettlementEvent.
    destruct (parsed_raw _ raw) as [v|e] eqn:E; simpl.
    + intros H. left. revert H. destruct v as [| | | | | |[|[tag body] [|]]]; try apply undecodable_fail.
      destruct (object_fields body); [|apply undecodable_fail].
      apply undecodable_bind; [auto with decoding|]. intros. apply decode_body_undecodable.
    + intros [= <-]. right. destruct raw; try done. eauto.
Qed.
End Properties.
