(* ===== verification/Settlement.v ===== *)
(** * Settlement: applying one engine event to the books

    [apps/api/src/services/settlement]: [fee-tiers.ts], [holds.ts] and [applier.ts]. A function that takes the
    transaction handle becomes a computation of the transaction monad of [Store];
    its halts are exceptions, so a halted event leaves the tables as they were.

    The tables only change inside the transaction here, so the bounded retries of
    the guarded transitions are modelled with their bound, and the losing branch
    re-reads the row as the code does. The transition log's reason and correlation
    id are not modelled. *)

From S2P Require Import Prelude Decimal Assets Market Orders Ledger Postings States Store Events.
From Stdlib Require Import ZArith Lia Ascii.
From stdpp Require Import base list strings gmap.

Open Scope string_scope.
Open Scope list_scope.
Open Scope Z_scope.

(** ** [fee-tiers.ts] *)

Record FeeRates := mkRates { r_tier : Z; r_makerBps : Z; r_takerBps : Z }.

Definition DAY_MS : Z := 86400000.
Definition WINDOW_DAYS : Z := 30.
Definition MAX_SAFE_INTEGER : Z := 9007199254740991.
(** The last millisecond a [Date] can stand for. *)
Definition MAX_DATE_MS : Z := 8640000000000000.

(** The UTC day of a timestamp, counted from the epoch: its ISO form cut at ten characters. *)
Definition utcDay (timestampMs : Z) : result Z :=
  if MAX_SAFE_INTEGER <? Z.abs timestampMs then Throw RangeError else
  let start := timestampMs - Z.rem (Z.rem timestampMs DAY_MS + DAY_MS) DAY_MS in
  if MAX_DATE_MS <? Z.abs start then Throw RangeError else Ok (Z.div start DAY_MS).

Definition rates_of (snapshot : FeeTierSnapshot) : FeeRates :=
  mkRates (s_tier snapshot) (s_makerBps snapshot) (s_takerBps snapshot).

Definition feeRatesFor (userId quoteAsset : string) (timestampMs : Z) : tx FeeRates :=
  day ← lift (utcDay timestampMs);
  existing ← findTierSnapshot userId quoteAsset day;
  match existing with
  | Some snapshot => mret (rates_of snapshot)
  | None =>
      let dayStart := day * DAY_MS in
      volume ← quoteVolume userId quoteAsset (dayStart - WINDOW_DAYS * DAY_MS) dayStart;
      t ← lift (tierForVolume volume);
      snapshot ← insertTierSnapshot
        (mkSnapshot userId quoteAsset day volume (tier t) (makerBps t) (takerBps t));
      mret (rates_of snapshot)
  end.

(** ** [holds.ts] *)

Definition releaseOutstanding (order : OrderRecord) (requireUnfilled : bool) : tx Z :=
  found ← outstandingHold (o_id order);
  match found with
  | None => raise (HoldInvariantError "order_not_found")
  | Some outstanding =>
      _ ← raise_if (outstanding <? 0) (HoldInvariantError "outstanding_negative");
      _ ← raise_if (requireUnfilled && negb (outstanding =? o_holdAmount order))
            (HoldInvariantError "released_as_unfilled_but_consumed");
      if outstanding =? 0 then mret 0 else
      _ ← postLedger (postOrderRelease
            (mkHold (o_id order) (o_user order) (o_holdAsset order) outstanding));
      mret outstanding
  end.

(** ** [applier.ts] *)

Definition halt {A} (reason : string) : tx A := raise (SettlementHaltError reason).
Definition halt_if (b : bool) (reason : string) : tx unit := raise_if b (SettlementHaltError reason).

Record SettlementMarket := mkSettlementMarket {
  m_id : string; m_baseAsset : string; m_quoteAsset : string
}.

Definition settlementFillId (market : SettlementMarket) (engineFillId : string) : string :=
  m_id market +:+ String SEPARATOR engineFillId.

Inductive ApplyOutcome :=
| fill_settled (quoteAsset : string) (fees timestampMs : Z)
| duplicate
| applied
| noop.

Definition CANCELLABLE : list Order.OrderStatus :=
  [Order.OPEN; Order.PARTIALLY_FILLED; Order.PENDING_CANCEL].
Definition EXPIRABLE : list Order.OrderStatus :=
  [Order.PENDING_ENGINE; Order.OPEN; Order.PARTIALLY_FILLED; Order.PENDING_CANCEL].
Definition REJECTABLE : list Order.OrderStatus := [Order.PENDING_ENGINE].

Definition is_hex (a : ascii) : bool :=
  is_digit a || ((97 <=? code a) && (code a <=? 102)) || ((65 <=? code a) && (code a <=? 70)).

(** [ORDER_ID.test(s)]: groups of 8, 4, 4, 4 and 12 hexadecimal digits. *)
Fixpoint hex_groups (groups : list nat) (s : text) : bool :=
  match groups with
  | [] => bool_decide (s = [])
  | [n] => (length s =? n)%nat && forallb is_hex s
  | n :: groups =>
      (n <=? length s)%nat && forallb is_hex (take n s) &&
      match drop n s with
      | a :: rest => bool_decide (a = minus_char) && hex_groups groups rest
      | [] => false
      end
  end.

Definition ORDER_ID (s : string) : bool :=
  hex_groups [8; 4; 4; 4; 12]%nat (String.list_ascii_of_string s).

Definition CONTENTION_RETRIES : nat := 3.

Definition load (orderId : string) (market : SettlementMarket) : tx OrderRecord :=
  _ ← halt_if (negb (ORDER_ID orderId)) "unknown_order";
  found ← findById orderId;
  match found with
  | None => halt "unknown_order"
  | Some order =>
      _ ← halt_if (negb (bool_decide (o_market order = m_id market))) "order_market_mismatch";
      mret order
  end.

(** One attempt at recording a fill on an order, from the status it was read in. *)
Definition record_attempt (order : OrderRecord) (filled : Z) (key : EventKey)
  : tx (option OrderRecord) :=
  let complete := filled =? o_qty order in
  let patch := mkPatch (Some filled)
                 (match o_engineSeq order with None => Some (Store.seq key) | Some _ => None end) None in
  match o_status order with
  | Order.PENDING_ENGINE | Order.OPEN =>
      transition (o_id order) (o_status order)
        (if complete then Order.FILLED else Order.PARTIALLY_FILLED) patch
  | Order.PARTIALLY_FILLED | Order.PENDING_CANCEL =>
      if complete then transition (o_id order) (o_status order) Order.FILLED patch
      else Store.recordFill (o_id order) (o_status order) filled
  | _ => halt "fill_for_terminal_order"
  end.

Fixpoint record_loop (attempts : nat) (order : OrderRecord) (traded : Z) (key : EventKey)
  : tx OrderRecord :=
  match attempts with
  | O => halt "order_contended"
  | S attempts =>
      let filled := o_filledQty order + traded in
      _ ← halt_if (filled >? o_qty order) "overfill";
      moved ← record_attempt order filled key;
      match moved with
      | Some order' => mret order'
      | None =>
          current ← findById (o_id order);
          match current with
          | None => halt "unknown_order"
          | Some order' => record_loop attempts order' traded key
          end
      end
  end.

Definition recordFill (start : OrderRecord) (traded : Z) (key : EventKey) : tx OrderRecord :=
  record_loop (S CONTENTION_RETRIES) start traded key.

Definition status_text (s : Order.OrderStatus) : string :=
  match s with
  | Order.PENDING_ENGINE => "pending_engine" | Order.OPEN => "open"
  | Order.PARTIALLY_FILLED => "partially_filled" | Order.PENDING_CANCEL => "pending_cancel"
  | Order.FILLED => "filled" | Order.CANCELLED => "cancelled" | Order.REJECTED => "rejected"
  | Order.EXPIRED => "expired" | Order.FAILED => "failed"
  end.

Fixpoint finish_loop (attempts : nat) (order : OrderRecord) (allowedFrom : list Order.OrderStatus)
  (to : Order.OrderStatus) (rejectReason : option string) : tx bool :=
  match attempts with
  | O => halt "order_contended"
  | S attempts =>
      if bool_decide (o_status order = to) then mret false else
      _ ← halt_if (Order.isTerminalOrder (o_status order) ||
                   negb (bool_decide (o_status order ∈ allowedFrom)))
            (status_text to +:+ "_from_" +:+ status_text (o_status order));
      moved ← transition (o_id order) (o_status order) to (mkPatch None None rejectReason);
      match moved with
      | Some order' => _ ← releaseOutstanding order' false; mret true
      | None =>
          current ← findById (o_id order);
          match current with
          | None => halt "unknown_order"
          | Some order' => finish_loop attempts order' allowedFrom to rejectReason
          end
      end
  end.

Definition finish (start : OrderRecord) (allowedFrom : list Order.OrderStatus)
  (to : Order.OrderStatus) (rejectReason : option string) : tx bool :=
  finish_loop (S CONTENTION_RETRIES) start allowedFrom to rejectReason.

Definition assertHoldAgrees (orderId : string) : tx unit :=
  found ← findById orderId;
  held ← outstandingHold orderId;
  match found, held with
  | Some order, Some outstanding =>
      if Order.orderHoldsFunds (o_status order)
      then halt_if (outstanding <=? 0) "holding_order_holds_nothing"
      else halt_if (negb (outstanding =? 0)) "terminal_order_holds_funds"
  | _, _ => halt "unknown_order"
  end.

Definition check_not_over_consumed (order : OrderRecord) : tx unit :=
  held ← outstandingHold (o_id order);
  halt_if (match held with None => true | Some outstanding => outstanding <? 0 end)
    "over_consumption".

(** One side of a settled fill: its progress, and the release that its completion brings. *)
Definition record_side (order : OrderRecord) (traded : Z) (key : EventKey) : tx unit :=
  updated ← recordFill order traded key;
  if bool_decide (o_status updated = Order.FILLED)
  then _ ← releaseOutstanding updated false; mret tt else mret tt.

(** The row of a fill, from the event, the two orders and the amounts. *)
Definition fill_row (market : SettlementMarket) (key : EventKey) (event : FillEvent)
  (taker maker : OrderRecord) (amounts : FillAmounts) : FillRow :=
  mkFill (settlementFillId market (ev_fillId event)) (m_id market) key (o_id taker) (o_id maker)
    (o_user taker) (o_user maker) (ev_takerSide event) (m_baseAsset market) (m_quoteAsset market)
    (ev_price event) (ev_qty event) (fa_notional amounts) (fa_takerBps amounts)
    (fa_makerBps amounts) (takerFee amounts) (makerFee amounts) (ev_timestampMs event).

Definition trade_of (market : SettlementMarket) (event : FillEvent) (buyer seller : OrderRecord)
  (amounts : FillAmounts) : TradeSettlementPosting :=
  mkTrade (settlementFillId market (ev_fillId event)) (o_user buyer) (o_user seller)
    (m_baseAsset market) (m_quoteAsset market) (ev_qty event) (fa_notional amounts)
    (buyerFee amounts) (sellerFee amounts).

(** The rest of [settleFill] once the fill's row is in: the trade, the check that neither
    hold is overdrawn, both orders' progress, and rule 79 on each. *)
Definition settle_inserted (market : SettlementMarket) (key : EventKey) (event : FillEvent)
  (taker maker buyer seller : OrderRecord) (amounts : FillAmounts) : tx ApplyOutcome :=
  _ ← postLedger (postTradeSettlement (trade_of market event buyer seller amounts));
  _ ← check_not_over_consumed buyer;
  _ ← check_not_over_consumed seller;
  _ ← record_side taker (ev_qty event) key;
  _ ← record_side maker (ev_qty event) key;
  _ ← assertHoldAgrees (o_id taker);
  _ ← assertHoldAgrees (o_id maker);
  mret (fill_settled (m_quoteAsset market) (buyerFee amounts + sellerFee amounts)
          (ev_timestampMs event)).

Definition settleFill (market : SettlementMarket) (key : EventKey) (event : FillEvent)
  : tx ApplyOutcome :=
  taker ← load (ev_takerOrderId event) market;
  maker ← load (ev_makerOrderId event) market;
  _ ← halt_if (negb (bool_decide (o_side taker = ev_takerSide event)) ||
               bool_decide (o_side maker = o_side taker)) "side_mismatch";
  let buyer := if bool_decide (ev_takerSide event = buy) then taker else maker in
  let seller := if bool_decide (ev_takerSide event = buy) then maker else taker in
  _ ← halt_if (negb (bool_decide (o_holdAsset buyer = m_quoteAsset market)) ||
               negb (bool_decide (o_holdAsset seller = m_baseAsset market))) "hold_asset_mismatch";
  takerRates ← feeRatesFor (o_user taker) (m_quoteAsset market) (ev_timestampMs event);
  makerRates ← feeRatesFor (o_user maker) (m_quoteAsset market) (ev_timestampMs event);
  amounts ← lift (fillAmounts (mkFillTerms (ev_price event) (ev_qty event) (ev_takerSide event)
                    (r_takerBps takerRates) (r_makerBps makerRates)));
  recorded ← insertFill (fill_row market key event taker maker amounts);
  match recorded with
  | already_settled => mret duplicate
  | inserted => settle_inserted market key event taker maker buyer seller amounts
  end.

Definition checkRemaining (order : OrderRecord) (remaining : Z) : tx unit :=
  halt_if (negb (o_qty order - o_filledQty order =? remaining)) "remaining_mismatch".

Definition moved_outcome (moved : bool) : ApplyOutcome := if moved then applied else noop.

(** A terminal disposition: the order moves to [to] and releases what is left of its hold. *)
Definition dispose (order : OrderRecord) (allowedFrom : list Order.OrderStatus)
  (to : Order.OrderStatus) (rejectReason : option string) : tx ApplyOutcome :=
  moved ← finish order allowedFrom to rejectReason;
  _ ← assertHoldAgrees (o_id order);
  mret (moved_outcome moved).

Definition apply (market : SettlementMarket) (key : EventKey) (event : SettlementEvent)
  : tx ApplyOutcome :=
  match event with
  | fill event => settleFill market key event
  | cancelled _ orderId remainingQty =>
      order ← load orderId market;
      _ ← (if bool_decide (o_status order = Order.CANCELLED) then mret tt
           else checkRemaining order remainingQty);
      dispose order CANCELLABLE Order.CANCELLED None
  | expired _ orderId remainingQty =>
      order ← load orderId market;
      _ ← (if bool_decide (o_status order = Order.EXPIRED) then mret tt
           else checkRemaining order remainingQty);
      dispose order EXPIRABLE Order.EXPIRED None
  | rejected _ orderId reason =>
      if bool_decide (reason = "UNKNOWN_ORDER") then mret noop else
      order ← load orderId market;
      _ ← halt_if (negb (o_filledQty order =? 0)) "rejected_after_fill";
      dispose order REJECTABLE Order.REJECTED (Some reason)
  | accepted _ orderId restingQty =>
      order ← load orderId market;
      _ ← checkRemaining order restingQty;
      if restingQty =? 0 then
        _ ← halt_if (negb (bool_decide (o_status order = Order.FILLED))) "accepted_unfilled";
        mret noop
      else if negb (bool_decide (o_status order = Order.PENDING_ENGINE)) then mret noop
      else
        _ ← transition (o_id order) Order.PENDING_ENGINE Order.OPEN
              (mkPatch None (Some (Store.seq key)) None);
        mret noop
  | status_changed _ => mret noop
  end.
