(* ===== verification/Consumer.v ===== *)
(** * The sequenced consumer

    [apps/api/src/services/engine-stream/sequenced-consumer.ts]: the loop that reads one
    market's engine events in order and applies each in the transaction that advances the
    stored offset. What it does with an event is a [Consumable], the interface that the
    settlement worker and the trade tape implement. Everything outside the process, the
    stream, the engine's journal, the database connection and what other actors write
    between two calls, is a [World].

    [prepare] only creates empty ledger accounts: it is not modelled, and its failure is a
    call that is lost before its commit. The unbounded loop over pages in [recover] takes
    [pages] as fuel; [start], [stop] and the timer are not modelled. *)

From Stdlib Require Import ZArith Lia.
From stdpp Require Import base list strings gmap.
From S2P Require Import Prelude Store Events.

Open Scope string_scope.
Open Scope list_scope.
Open Scope Z_scope.

(** ** Interfaces *)

(** What a consumer does with an event. *)
Class Consumable (Event Outcome : Type) := {
  decode : value -> result Event;
  seq_of_event : Event -> Z;
  apply_event : EventKey -> Event -> tx Outcome;
  haltReason : error -> option string
}.

(** An entry of the stream; its raw text is the value it is decoded from. *)
Record StreamEntry := mkEntry { en_id : string; en_key : EventKey; en_raw : string }.

Inductive ReadResult := reset | read_entries (entries : list StreamEntry).

(** What happens to one attempt at a transaction: nothing, or an error of the connection
    before the transaction runs, or after it has committed. *)
Inductive Fault := no_fault | lost_before (e : error) | lost_after (e : error).

Class World (W : Type) := {
  source_read : W -> Store -> result ReadResult * Store * W;
  source_ack : list string -> W -> Store -> result unit * Store * W;
  eventsAfter : Z -> W -> Store -> option (list value) * Store * W;
  lastSeq : W -> Store -> option Z * Store * W;
  connection : EventKey -> W -> Store -> Fault * Store * W
}.

(** The calls the consumer makes to the outside, in order. *)
Inductive Call (Event Outcome : Type) :=
| on_applied (outcome : Outcome) (key : EventKey) (event : Event)
| on_halt (key : EventKey) (reason : string)
| on_recovered (cause : string) (applied : Z)
| on_transient (key : EventKey)
| on_start_refused
| on_lag (sequences : Z)
| ack (ids : list string).

Arguments on_applied {Event Outcome} outcome key event.
Arguments on_halt {Event Outcome} key reason.
Arguments on_recovered {Event Outcome} cause applied.
Arguments on_transient {Event Outcome} key.
Arguments on_start_refused {Event Outcome}.
Arguments on_lag {Event Outcome} sequences.
Arguments ack {Event Outcome} ids.

(** The key that must come next after [offset], if the stream is contiguous. *)
Definition follows (offset key : EventKey) : bool :=
  if seq key =? seq offset then idx key =? idx offset + 1
  else (seq key =? seq offset + 1) && (idx key =? 0).

(** [[...read].sort((a, b) => compareKeys(a.key, b.key))], a stable sort. *)
Fixpoint insert_entry (x : StreamEntry) (l : list StreamEntry) : list StreamEntry :=
  match l with
  | [] => [x]
  | y :: l => if compareKeys (en_key x) (en_key y) <=? 0 then x :: y :: l else y :: insert_entry x l
  end.

Definition sort_entries (l : list StreamEntry) : list StreamEntry := foldr insert_entry [] l.

Definition entryToKeyed (entry : StreamEntry) : KeyedRaw := (en_key entry, v_string (en_raw entry)).

(** How a pass over the journal ended: at its end, at a halt or an unavailable engine, or
    with pages left to read. *)
Inductive Recovery := recovered (applied : Z) | stopped | out_of_fuel.

Section Consumer.
Context {Event Outcome W : Type} `{!Consumable Event Outcome} `{!World W}.
Context (parseEngineJson : string -> result value).
(** The consumer's name, its market, the retries of one event and the fuel of a recovery. *)
Context (name market : string) (retries pages : nat).

(** The process, the tables and the world around it. *)
Record Sys := mkSys {
  offset : option EventKey;
  halted : option (EventKey * string);
  lag : option Z;
  appliedThisRun : Z;
  calls : list (Call Event Outcome);
  db : Store;
  world : W
}.

Definition run (A : Type) : Type := Sys -> result A * Sys.

#[export] Instance run_ret : MRet run := fun A a s => (Ok a, s).
#[export] Instance run_bind : MBind run := fun A B k m s =>
  match m s with
  | (Ok a, s') => k a s'
  | (Throw e, s') => (Throw e, s')
  end.

Definition gets {A} (f : Sys -> A) : run A := fun s => (Ok (f s), s).
Definition fails {A} (e : error) : run A := fun s => (Throw e, s).
Definition set_offset (o : EventKey) : run unit := fun s =>
  (Ok tt, mkSys (Some o) (halted s) (lag s) (appliedThisRun s) (calls s) (db s) (world s)).
Definition set_halted (key : EventKey) (reason : string) : run unit := fun s =>
  (Ok tt, mkSys (offset s) (Some (key, reason)) (lag s) (appliedThisRun s) (calls s) (db s) (world s)).
Definition set_lag (n : Z) : run unit := fun s =>
  (Ok tt, mkSys (offset s) (halted s) (Some n) (appliedThisRun s) (calls s) (db s) (world s)).
Definition set_applied (n : Z) : run unit := fun s =>
  (Ok tt, mkSys (offset s) (halted s) (lag s) n (calls s) (db s) (world s)).
Definition call (c : Call Event Outcome) : run unit := fun s =>
  (Ok tt, mkSys (offset s) (halted s) (lag s) (appliedThisRun s) (calls s ++ [c]) (db s) (world s)).

Definition of_result {A} (r : result A) : run A := fun s => (r, s).

(** A transaction, with its exception as a value. *)
Definition transact {A} (m : tx A) : run (result A) := fun s =>
  match withTransaction m (db s) with
  | Ok (a, d) =>
      (Ok (Ok a), mkSys (offset s) (halted s) (lag s) (appliedThisRun s) (calls s) d (world s))
  | Throw e => (Ok (Throw e), s)
  end.

(** A call to the outside; the tables are as the others left them when it answers. *)
Definition ask {A} (f : W -> Store -> A * Store * W) : run A := fun s =>
  let '(a, d, w) := f (world s) (db s) in
  (Ok a, mkSys (offset s) (halted s) (lag s) (appliedThisRun s) (calls s) d w).

(** A call to the outside that may throw. *)
Definition ask_result {A} (f : W -> Store -> result A * Store * W) : run A :=
  answer ← ask f; of_result answer.

Definition doHalt (key : EventKey) (reason : string) : run unit :=
  _ ← set_halted key reason; call (on_halt key reason).

(** The transaction of one event: its work, and the offset that records it. *)
Definition consume (key : EventKey) (event : Event) : tx Outcome :=
  outcome ← apply_event key event;
  _ ← advanceOffset name market key;
  mret outcome.

(** One attempt at it, as the process sees it. *)
Definition attempt (key : EventKey) (event : Event) : run (result Outcome) :=
  fault ← ask (connection key);
  match fault with
  | lost_before e => mret (Throw e)
  | no_fault => transact (consume key event)
  | lost_after e =>
      committed ← transact (consume key event);
      mret (match committed with Ok _ => Throw e | Throw e' => Throw e' end)
  end.

Fixpoint attempt_loop (retriesLeft : nat) (key : EventKey) (event : Event) : run bool :=
  committed ← attempt key event;
  match committed with
  | Ok outcome =>
      _ ← set_offset key;
      n ← gets appliedThisRun;
      _ ← set_applied (n + 1);
      _ ← call (on_applied outcome key event);
      mret true
  | Throw e =>
      match haltReason e with
      | Some reason => _ ← doHalt key reason; mret false
      | None =>
          match retriesLeft with
          | O => _ ← call (on_transient key); mret false
          | S retriesLeft => attempt_loop retriesLeft key event
          end
      end
  end.

Definition applyOne (item : KeyedRaw) : run bool :=
  current ← gets offset;
  match current with
  | None => fails (GenericError "consumer used before init")
  | Some current =>
      if compareKeys item.1 current <=? 0 then mret true else
      match decode item.2 with
      | Throw e => _ ← doHalt item.1 (default "undecodable_event" (haltReason e)); mret false
      | Ok event =>
          if negb (seq_of_event event =? seq item.1)
          then _ ← doHalt item.1 "key_mismatch"; mret false
          else attempt_loop retries item.1 event
      end
  end.

(** [offset!] *)
Definition current_offset : run EventKey :=
  o ← gets offset; match o with Some o => mret o | None => fails TypeError end.

(** The events of one page, counting those applied; nothing when the pass must stop. *)
Fixpoint recover_items (items : list KeyedRaw) (applied : Z) : run (option Z) :=
  match items with
  | [] => mret (Some applied)
  | item :: items =>
      o ← current_offset;
      if compareKeys item.1 o <=? 0 then recover_items items applied else
      if negb (follows o item.1) then _ ← doHalt item.1 "reemission_gap"; mret None else
      ok ← applyOne item;
      if negb ok then mret None else recover_items items (applied + 1)
  end.

Fixpoint recover_loop (fuel : nat) (after applied : Z) : run Recovery :=
  match fuel with
  | O => mret out_of_fuel
  | S fuel =>
      answer ← ask (eventsAfter after);
      match answer with
      | None => mret stopped
      | Some [] => mret (recovered applied)
      | Some page =>
          match keyByPosition parseEngineJson page with
          | Throw e => _ ← doHalt (mkKey (after + 1) 0) (default "undecodable_event" (haltReason e));
                       mret stopped
          | Ok keyed =>
              done ← recover_items keyed applied;
              match done with
              | None => mret stopped
              | Some applied => recover_loop fuel (default after (seq ∘ fst <$> last keyed)) applied
              end
          end
      end
  end.

Definition recover (cause : string) : run bool :=
  o ← current_offset;
  r ← recover_loop pages (if seq o >? 0 then seq o - 1 else 0) 0;
  match r with
  | recovered applied => _ ← call (on_recovered cause applied); mret true
  | _ => mret false
  end.

Definition refreshLag : run unit :=
  last ← ask lastSeq;
  o ← gets offset;
  match last, o with
  | Some last, Some o => _ ← set_lag (last - seq o); call (on_lag (last - seq o))
  | _, _ => mret tt
  end.

(** [init]: the stored offset, or the configured start; neither is refused. *)
Definition init (startKey : option EventKey) : run unit := fun s =>
  match getOffset name market (db s) with
  | Ok (Some stored, _) => set_offset stored s
  | _ => match startKey with
         | Some key => set_offset key s
         | None => (_ ← call on_start_refused; fails (GenericError "start refused")) s
         end
  end.

(** One pass over the sorted entries of a read, collecting what to acknowledge. *)
Fixpoint run_entries (sorted : list StreamEntry) (done : list string) : run (list string) :=
  match sorted with
  | [] => mret done
  | entry :: sorted =>
      h ← gets halted;
      match h with
      | Some _ => mret done
      | None =>
          o ← current_offset;
          if compareKeys (en_key entry) o <=? 0 then run_entries sorted (done ++ [en_id entry]) else
          let next : run (list string) :=
            ok ← applyOne (entryToKeyed entry);
            if negb ok then mret done else run_entries sorted (done ++ [en_id entry]) in
          if follows o (en_key entry) then next else
          ok ← recover "sequence_gap";
          if negb ok then mret done else
          o ← current_offset;
          if compareKeys (en_key entry) o <=? 0 then run_entries sorted (done ++ [en_id entry]) else
          if negb (follows o (en_key entry))
          then _ ← doHalt (en_key entry) "unrecoverable_gap"; mret done
          else next
      end
  end.

Definition acknowledge (ids : list string) : run unit :=
  _ ← call (ack ids); ask_result (source_ack ids).

Definition runOnce : run Z :=
  h ← gets halted;
  start ← gets offset;
  match h, start with
  | None, Some start =>
      _ ← set_applied 0;
      answer ← ask_result source_read;
      _ ← match answer with
          | reset => _ ← recover "stream_reset"; mret tt
          | read_entries [] =>
              last ← ask lastSeq;
              match last with
              | Some last => if last >? seq start then _ ← recover "stream_behind_engine"; mret tt else mret tt
              | None => mret tt
              end
          | read_entries entries =>
              done ← run_entries (sort_entries entries) [];
              acknowledge done
          end;
      _ ← refreshLag;
      gets appliedThisRun
  | _, _ => mret 0
  end.
End Consumer.
