(* ===== verification/Delivery.v ===== *)
(** * Delivery: what the sequenced consumer guarantees

    Proofs about [Consumer], for every [Consumable] and every [World]: events are applied
    in order and without gaps; an entry is acknowledged only when the stored offset covers
    it; and against a quiet world with an honest journal, recovery and the stream both
    refine the replay of the events after the offset. No code is modelled here. *)

From Stdlib Require Import ZArith Lia.
From stdpp Require Import base list strings gmap sorting.
From S2P Require Import Prelude Store Events Consumer.

Open Scope string_scope.
Open Scope list_scope.
Open Scope Z_scope.

(** ** Keys *)

Definition key_le (a b : EventKey) : Prop := compareKeys a b <= 0.

Lemma key_le_spec a b : key_le a b <-> seq a < seq b \/ (seq a = seq b /\ idx a <= idx b).
Proof.
  unfold key_le, compareKeys. destruct (Z.eqb_spec (seq a) (seq b)); simpl; [lia|].
  destruct (Z.ltb_spec (seq a) (seq b)); lia.
Qed.

#[export] Instance key_le_preorder : PreOrder key_le.
Proof. split; [intros a|intros a b c]; rewrite ?key_le_spec; lia. Qed.

Lemma key_lt_spec a b : key_lt a b = true <-> ~ key_le b a.
Proof.
  rewrite key_le_spec. unfold key_lt.
  destruct (Z.ltb_spec (seq a) (seq b)), (Z.eqb_spec (seq a) (seq b)), (Z.ltb_spec (idx a) (idx b));
    simpl; split; intros; try done; lia.
Qed.

Lemma follows_spec o k :
  follows o k = true <->
  (seq k = seq o /\ idx k = idx o + 1) \/ (seq k = seq o + 1 /\ idx k = 0).
Proof.
  unfold follows. destruct (Z.eqb_spec (seq k) (seq o)); rewrite ?andb_true_iff, ?Z.eqb_eq; lia.
Qed.

Lemma follows_not_le o k : follows o k = true -> ~ key_le k o.
Proof. rewrite follows_spec, key_le_spec. lia. Qed.

(** Keys that each follow the one before. *)
Fixpoint path (o : EventKey) (ks : list EventKey) (o' : EventKey) : Prop :=
  match ks with
  | [] => o = o'
  | k :: ks => follows o k = true /\ path k ks o'
  end.

Lemma path_app o ks1 ks2 o' : path o (ks1 ++ ks2) o' <-> exists m, path o ks1 m /\ path m ks2 o'.
Proof. revert o. induction ks1; simpl; [naive_solver|]. intros o. rewrite IHks1. naive_solver. Qed.

Lemma path_le o ks o' : path o ks o' -> key_le o o'.
Proof.
  revert o. induction ks as [|k ks IH]; simpl; intros o; [by intros ->|].
  intros [Hf Hp]. apply IH in Hp. rewrite key_le_spec in *. apply follows_spec in Hf. lia.
Qed.

Lemma path_not_le o ks o' k : path o ks o' -> k ∈ ks -> ~ key_le k o /\ key_le k o'.
Proof.
  intros Hp [l1 [l2 ->]]%list_elem_of_split. apply path_app in Hp as (m & H1 & Hf & H2).
  apply path_le in H1, H2. split; [|done]. apply follows_not_le in Hf. intros Hk. apply Hf. by etrans.
Qed.

(** ** Sorting *)

Lemma insert_entry_elem x y l : y ∈ insert_entry x l <-> y = x \/ y ∈ l.
Proof. induction l as [|z l IH]; simpl; [set_solver|]. case_match; set_solver. Qed.

Lemma sort_entries_elem y l : y ∈ sort_entries l <-> y ∈ l.
Proof. induction l as [|x l IH]; simpl; [done|]. rewrite insert_entry_elem. set_solver. Qed.

(** ** Order *)

Section Order.
Context {Event Outcome W : Type} `{!Consumable Event Outcome} `{!World W}.
Context (parseEngineJson : string -> result value) (name market : string) (retries pages : nat).

Local Abbreviation Sys := (@Sys Event Outcome W).
Local Abbreviation run := (@run Event Outcome W).

Definition applied_of (c : Call Event Outcome) : option (EventKey * Event) :=
  match c with on_applied _ k e => Some (k, e) | _ => None end.

(** The events applied, in order. *)
Definition applied_events (cs : list (Call Event Outcome)) : list (EventKey * Event) := omap applied_of cs.

Lemma applied_events_app cs1 cs2 :
  applied_events (cs1 ++ cs2) = applied_events cs1 ++ applied_events cs2.
Proof. apply omap_app. Qed.

(** What happens between two states: the events applied lead from the one offset to the other
    without a gap, each under its own sequence, and are counted. *)
Definition advances (s s' : Sys) : Prop :=
  exists cs, calls s' = calls s ++ cs /\
  appliedThisRun s' = appliedThisRun s + Z.of_nat (length (applied_events cs)) /\
  Forall (fun ke => seq_of_event ke.2 = seq ke.1) (applied_events cs) /\
  match offset s, offset s' with
  | Some o, Some o' => path o (applied_events cs).*1 o'
  | None, None => True
  | _, _ => False
  end.

Lemma advances_same s s' :
  calls s' = calls s -> appliedThisRun s' = appliedThisRun s -> offset s' = offset s -> advances s s'.
Proof.
  intros Hc Ha Ho. exists []. rewrite Ho. simpl. repeat split; rewrite ?Hc, ?app_nil_r; simpl; [done|lia|constructor|].
  by destruct (offset s).
Qed.

#[export] Instance advances_preorder : PreOrder advances.
Proof.
  split; [by intros s; apply advances_same|].
  intros s1 s2 s3 (cs & Hc & Ha & Hf & Hp) (cs' & Hc' & Ha' & Hf' & Hp'). exists (cs ++ cs').
  rewrite applied_events_app, length_app, Forall_app, fmap_app. repeat split; try done.
  - by rewrite Hc', Hc, app_assoc.
  - lia.
  - destruct (offset s1), (offset s2), (offset s3); try done. apply path_app. eauto.
Qed.

Lemma advances_bind {A B} (m : run A) (k : A -> run B) s :
  advances s (m s).2 -> (forall a, (m s).1 = Ok a -> advances (m s).2 (k a (m s).2).2) ->
  advances s ((m ≫= k) s).2.
Proof.
  unfold mbind, run_bind. destruct (m s) as [[a|e] s1]; simpl; [|done]. intros H1 H2. etrans; [done|eauto].
Qed.

(** Computations that never move the offset. *)
Class Still {A} (m : run A) := still s :
  offset (m s).2 = offset s /\ appliedThisRun (m s).2 = appliedThisRun s /\
  exists cs, calls (m s).2 = calls s ++ cs /\ applied_events cs = [].

Lemma still_advances {A} (m : run A) s : Still m -> advances s (m s).2.
Proof.
  intros Hm. destruct (Hm s) as (Ho & Ha & cs & Hc & Hn). exists cs. rewrite Hn, Ho. simpl.
  repeat split; [done|lia|constructor|]. by destruct (offset s).
Qed.

#[export] Instance still_ret {A} (a : A) : Still (mret a).
Proof. intros s. repeat split. exists []. by rewrite app_nil_r. Qed.
#[export] Instance still_gets {A} (f : Sys -> A) : Still (gets f).
Proof. intros s. repeat split. exists []. by rewrite app_nil_r. Qed.
#[export] Instance still_fails {A} e : Still (fails e : run A).
Proof. intros s. repeat split. exists []. by rewrite app_nil_r. Qed.
#[export] Instance still_of_result {A} (r : result A) : Still (of_result r).
Proof. intros s. repeat split. exists []. by rewrite app_nil_r. Qed.
#[export] Instance still_set_halted k r : Still (set_halted k r).
Proof. intros s. repeat split. exists []. by rewrite app_nil_r. Qed.
#[export] Instance still_set_lag n : Still (set_lag n).
Proof. intros s. repeat split. exists []. by rewrite app_nil_r. Qed.
#[export] Instance still_ask {A} (f : W -> Store -> A * Store * W) : Still (ask f).
Proof.
  intros s. unfold ask. destruct (f _ _) as [[a d] w]. repeat split. exists []. by rewrite app_nil_r.
Qed.
#[export] Instance still_transact {A} (m : tx A) : Still (transact m).
Proof.
  intros s. unfold transact. destruct (withTransaction m _) as [[a d]|]; repeat split; exists [];
    by rewrite app_nil_r.
Qed.
Lemma still_call c : applied_of c = None -> Still (call c).
Proof. intros Hc s. repeat split. exists [c]. unfold applied_events. simpl. by rewrite Hc. Qed.

#[export] Instance still_bind {A B} (m : run A) (k : A -> run B) :
  Still m -> (forall a, Still (k a)) -> Still (m ≫= k).
Proof.
  intros Hm Hk s. unfold mbind, run_bind. destruct (Hm s) as (Ho & Ha & cs & Hc & Hn).
  destruct (m s) as [[a|e] s1]; simpl in *; [|eauto 10].
  destruct (Hk a s1) as (Ho' & Ha' & cs' & Hc' & Hn'). repeat split; [congruence|congruence|].
  exists (cs ++ cs'). by rewrite Hc', Hc, app_assoc, applied_events_app, Hn, Hn'.
Qed.

Ltac solve_still :=
  repeat first [apply still_bind; [|intros ?] | apply _ | by apply still_call | case_match].

#[export] Instance still_doHalt k r : Still (doHalt k r).
Proof. unfold doHalt. solve_still. Qed.
#[export] Instance still_current_offset : Still current_offset.
Proof. unfold current_offset. solve_still. Qed.
#[export] Instance still_ask_result {A} (f : W -> Store -> result A * Store * W) : Still (ask_result f).
Proof. unfold ask_result. solve_still. Qed.
#[export] Instance still_attempt k e : Still (attempt name market k e).
Proof. unfold attempt. solve_still. Qed.
#[export] Instance still_refreshLag : Still refreshLag.
Proof. unfold refreshLag. solve_still. Qed.
#[export] Instance still_acknowledge ids : Still (acknowledge ids).
Proof. unfold acknowledge. solve_still. Qed.

Ltac stepping :=
  first [ reflexivity | apply still_advances; by solve_still
        | apply advances_bind; [by apply still_advances; solve_still|intros ? ?] ].

Lemma advances_attempt_loop n key event s :
  seq_of_event event = seq key -> (forall o, offset s = Some o -> follows o key = true) ->
  offset s <> None ->
  advances s (attempt_loop name market n key event s).2.
Proof.
  intros Hseq Hf Hn. revert s Hf Hn. induction n as [|n IH]; intros s Hf Hn; simpl;
    (apply advances_bind; [by apply still_advances; solve_still|intros committed _]);
    destruct (still_attempt key event s) as (Ho & _); revert Ho;
    generalize (attempt name market key event s).2; intros s1 Ho;
    (destruct committed as [outcome|e]; [|destruct (haltReason e)]); try stepping.
  1, 2: destruct (offset s) as [o|] eqn:Es; [|done]; specialize (Hf o eq_refl); exists [on_applied outcome key event];
    simpl; rewrite Ho; (repeat split; [|done]); by constructor.
  apply IH; rewrite Ho; done.
Qed.

Lemma advances_applyOne item s :
  (forall o, offset s = Some o -> compareKeys item.1 o > 0 -> follows o item.1 = true) ->
  advances s (applyOne name market retries item s).2.
Proof.
  intros Hf. unfold applyOne. apply advances_bind; [by apply still_advances; solve_still|].
  intros o Ho. simpl in *. injection Ho as Ho. destruct o as [o|]; [|stepping].
  destruct (Z.leb_spec (compareKeys item.1 o) 0); [stepping|].
  destruct (decode item.2) as [event|e]; [|stepping].
  destruct (Z.eqb_spec (seq_of_event event) (seq item.1)); cbn [negb]; [|stepping].
  apply advances_attempt_loop; [done| |by rewrite Ho].
  intros o' Ho'. apply Hf; [done|]. assert (o' = o) by congruence. subst. lia.
Qed.

Lemma current_offset_at (s : Sys) a :
  (current_offset s).1 = Ok a -> offset s = Some a /\ (current_offset s).2 = s.
Proof. unfold current_offset, gets, mbind, run_bind. simpl. destruct (offset s); [|done]. by intros [= ->]. Qed.

Lemma current_offset_bind {A} (k : EventKey -> run A) s o :
  offset s = Some o -> (current_offset ≫= k) s = k o s.
Proof. intros Ho. unfold current_offset, mbind, run_bind, gets. by rewrite Ho. Qed.

Lemma advances_current {A} (k : EventKey -> run A) s :
  (forall o, offset s = Some o -> advances s (k o s).2) -> advances s ((current_offset ≫= k) s).2.
Proof.
  intros Hk. apply advances_bind; [by apply still_advances; solve_still|].
  intros o Ho. apply current_offset_at in Ho as [Ho Hs]. rewrite Hs. by apply Hk.
Qed.

Lemma advances_recover_items items n s :
  advances s (recover_items name market retries items n s).2.
Proof.
  revert n s. induction items as [|item items IH]; intros n s; simpl; [stepping|].
  apply advances_current. intros o Ho. destruct (_ <=? 0); [apply IH|].
  destruct (follows o item.1) eqn:Hf; cbn [negb]; [|stepping].
  apply advances_bind; [|intros [|] _; [apply IH|stepping]].
  apply advances_applyOne. intros o' Ho' _. congruence.
Qed.

Lemma advances_recover_loop fuel after n s :
  advances s (recover_loop parseEngineJson name market retries fuel after n s).2.
Proof.
  revert after n s. induction fuel as [|fuel IH]; intros after n s; simpl; [stepping|].
  stepping. case_match; [|stepping]. case_match; [stepping|]. case_match; [|stepping].
  apply advances_bind; [apply advances_recover_items|]. intros [?|] _; [apply IH|stepping].
Qed.

Lemma advances_recover cause s :
  advances s (recover parseEngineJson name market retries pages cause s).2.
Proof.
  unfold recover. apply advances_current. intros o _.
  apply advances_bind; [apply advances_recover_loop|]. intros r _. destruct r; stepping.
Qed.

Lemma advances_run_entries sorted done s :
  advances s (run_entries parseEngineJson name market retries pages sorted done s).2.
Proof.
  revert done s. induction sorted as [|entry sorted IH]; intros done s; simpl; [stepping|].
  stepping. simpl. case_match; [stepping|].
  assert (Hnext : forall s, (forall o, offset s = Some o -> follows o (en_key entry) = true) ->
    advances s ((ok ← applyOne name market retries (entryToKeyed entry);
                 if negb ok then mret done
                 else run_entries parseEngineJson name market retries pages sorted (done ++ [en_id entry])) s).2).
  { intros s0 Hf. apply advances_bind; [|intros [|] _; [apply IH|stepping]]. apply advances_applyOne. auto. }
  apply advances_current. intros o Ho. case_match; [apply IH|]. case_match.
  - apply Hnext. intros o' Ho'. congruence.
  - apply advances_bind; [apply advances_recover|]. intros [|] _; [|stepping].
    apply advances_current. intros o1 Ho1. case_match; [apply IH|]. simpl.
    destruct (follows o1 (en_key entry)) eqn:Hf; cbn [negb]; [|stepping].
    apply Hnext. intros o' Ho'. congruence.
Qed.

(** A state of the process after another, with nothing said of the count. *)
Definition in_order (s s' : Sys) : Prop :=
  exists cs, calls s' = calls s ++ cs /\
  Forall (fun ke => seq_of_event ke.2 = seq ke.1) (applied_events cs) /\
  match offset s, offset s' with
  | Some o, Some o' => path o (applied_events cs).*1 o'
  | None, None => True
  | _, _ => False
  end.

Lemma advances_in_order s s' : advances s s' -> in_order s s'.
Proof. intros (cs & ? & _ & ? & ?). by exists cs. Qed.

#[export] Instance in_order_preorder : PreOrder in_order.
Proof.
  split; [intros s; apply advances_in_order; reflexivity|].
  intros s1 s2 s3 (cs & Hc & Hf & Hp) (cs' & Hc' & Hf' & Hp'). exists (cs ++ cs').
  rewrite applied_events_app, Forall_app, fmap_app. repeat split; try done.
  - by rewrite Hc', Hc, app_assoc.
  - destruct (offset s1), (offset s2), (offset s3); try done. apply path_app. eauto.
Qed.

Lemma advances_le s s' o :
  advances s s' -> offset s = Some o -> exists o', offset s' = Some o' /\ key_le o o'.
Proof.
  intros (cs & _ & _ & _ & Hp) Ho. rewrite Ho in Hp. destruct (offset s') as [o'|]; [|done].
  exists o'. split; [done|]. by eapply path_le.
Qed.

(** The body of a pass, after the count was reset. *)
Definition pass (start : EventKey) : run Z :=
  answer ← ask_result source_read;
  _ ← match answer with
      | reset => _ ← recover parseEngineJson name market retries pages "stream_reset"; mret tt
      | read_entries [] =>
          last ← ask lastSeq;
          match last with
          | Some last => if last >? seq start
                         then _ ← recover parseEngineJson name market retries pages "stream_behind_engine"; mret tt
                         else mret tt
          | None => mret tt
          end
      | read_entries entries =>
          done ← run_entries parseEngineJson name market retries pages (sort_entries entries) [];
          acknowledge done
      end;
  _ ← refreshLag;
  gets appliedThisRun.

Lemma runOnce_pass s start :
  halted s = None -> offset s = Some start ->
  runOnce parseEngineJson name market retries pages s = pass start ((set_applied 0 s).2).
Proof. intros Hh Ho. unfold runOnce, mbind, run_bind at 1 2, gets. by rewrite Hh, Ho. Qed.

Lemma runOnce_idle s :
  halted s <> None \/ offset s = None ->
  runOnce parseEngineJson name market retries pages s = (Ok 0, s).
Proof.
  intros H. unfold runOnce, mbind, run_bind, gets. destruct (halted s), (offset s); try done. by destruct H.
Qed.

Lemma advances_pass start s : advances s (pass start s).2.
Proof.
  unfold pass. stepping.
  apply advances_bind; [|intros _ _; stepping].
  case_match; [apply advances_bind; [apply advances_recover|intros; stepping]|].
  case_match; [stepping; repeat case_match; try stepping; apply advances_bind; [apply advances_recover|intros; stepping]|].
  apply advances_bind; [apply advances_run_entries|intros; stepping].
Qed.

Lemma pass_count start s n : (pass start s).1 = Ok n -> n = appliedThisRun (pass start s).2.
Proof.
  unfold pass. unfold mbind, run_bind. repeat (case_match; simpl; try done). all: by intros [= <-].
Qed.

(** A cycle: one pass, after which the others may have written and the world moved on. *)
Definition cycle (s s' : Sys) : Prop :=
  exists d w, let s1 := (runOnce parseEngineJson name market retries pages s).2 in
  s' = mkSys (offset s1) (halted s1) (lag s1) (appliedThisRun s1) (calls s1) d w.

Lemma in_order_stores (s s' : Sys) d w n :
  in_order s s' -> in_order s (mkSys (offset s') (halted s') (lag s') n (calls s') d w).
Proof. done. Qed.

Lemma runOnce_in_order s : in_order s (runOnce parseEngineJson name market retries pages s).2.
Proof.
  destruct (halted s) eqn:Hh; [rewrite runOnce_idle by (left; congruence); reflexivity|].
  destruct (offset s) as [o|] eqn:Ho; [|rewrite runOnce_idle by (by right); reflexivity].
  rewrite (runOnce_pass s o) by done.
  exact (advances_in_order _ _ (advances_pass o (set_applied 0 s).2)).
Qed.

Lemma cycles_in_order s s' : rtc cycle s s' -> in_order s s'.
Proof.
  induction 1 as [|s1 s2 s3 (d & w & ->) _ IH]; [reflexivity|].
  etrans; [|exact IH]. apply in_order_stores, runOnce_in_order.
Qed.

Lemma cycles_halted s s' :
  rtc cycle s s' -> halted s <> None -> offset s' = offset s /\ halted s' = halted s /\ calls s' = calls s.
Proof.
  induction 1 as [|s1 s2 s3 (d & w & ->) _ IH]; intros Hh; [done|].
  rewrite runOnce_idle in * by (by left). by apply IH.
Qed.

Lemma path_NoDup o ks o' : path o ks o' -> NoDup ks.
Proof.
  revert o. induction ks as [|k ks IH]; intros o; simpl; [constructor|]. intros [_ Hp]. constructor; [|eauto].
  intros Hin. by apply (path_not_le _ _ _ _ Hp) in Hin as [[] _].
Qed.

(** ** Acknowledgements *)

Definition row (d : Store) : option EventKey := offsets d !! (name, market).

(** Only this process moves its offset: neither the work on an event, nor the others while
    a call is under way. *)
Record owns_row : Prop := {
  own_apply key event d out d' : apply_event key event d = Ok (out, d') -> row d' = row d;
  own_read (w : W) d : row (source_read w d).1.2 = row d;
  own_ack ids (w : W) d : row (source_ack ids w d).1.2 = row d;
  own_events after (w : W) d : row (eventsAfter after w d).1.2 = row d;
  own_last (w : W) d : row (lastSeq w d).1.2 = row d;
  own_connection key (w : W) d : row (connection key w d).1.2 = row d
}.

(** The stored offset is never behind the process; without one, the process is where the
    configuration said it starts. *)
Definition tracked (startKey : option EventKey) (s : Sys) : Prop :=
  forall o, offset s = Some o ->
  match row (db s) with Some k => key_le o k | None => startKey = Some o end.

Lemma advanceOffset_row key d r d' :
  advanceOffset name market key d = Ok (r, d') ->
  exists k, row d' = Some k /\ key_le key k /\ forall k0, row d = Some k0 -> key_le k0 k.
Proof.
  unfold advanceOffset, row, read, write, mbind, tx_bind. intros [= _ <-].
  destruct (offsets d !! (name, market)) as [k0|] eqn:E; simpl.
  - destruct (key_lt k0 key) eqn:Hlt; simpl.
    + exists key. rewrite lookup_insert_eq. repeat split; [reflexivity|].
      intros ? [= <-]. apply key_lt_spec in Hlt. rewrite key_le_spec in *. lia.
    + exists k0. rewrite E. repeat split; [|by intros ? [= <-]].
      rewrite <- not_true_iff_false, key_lt_spec in Hlt. rewrite key_le_spec in *. lia.
  - exists key. rewrite lookup_insert_eq. repeat split; [reflexivity|done].
Qed.

Section Acknowledgements.
Context (Hown : owns_row) (startKey : option EventKey).

Lemma consume_row key event d out d' :
  withTransaction (consume name market key event) d = Ok (out, d') ->
  exists k, row d' = Some k /\ key_le key k /\ forall k0, row d = Some k0 -> key_le k0 k.
Proof.
  unfold withTransaction. destruct (consume _ _ _ _ d) as [[a d1]|] eqn:E; [|done].
  case_match; [|done]. intros [= -> <-]. unfold consume in E.
  apply tx_bind_Ok in E as (o & d2 & Ha & E). apply tx_bind_Ok in E as (r & d3 & Hr & E).
  injection E as <- <-. rewrite <- (own_apply Hown _ _ _ _ _ Ha). by apply advanceOffset_row in Hr.
Qed.

Class Tracks {A} (m : run A) := tracks s : tracked startKey s -> tracked startKey (m s).2.

Lemma tracked_row s s' :
  offset s' = offset s -> row (db s') = row (db s) -> tracked startKey s -> tracked startKey s'.
Proof. intros Ho Hr H o. rewrite Ho, Hr. apply H. Qed.

Lemma tracks_run {A} (m : run A) s : Tracks m -> tracked startKey s -> tracked startKey (m s).2.
Proof. intros Hm Hs. by apply Hm. Qed.

#[export] Instance tracks_ret {A} (a : A) : Tracks (mret a).
Proof. by intros s. Qed.
#[export] Instance tracks_gets {A} (f : Sys -> A) : Tracks (gets f).
Proof. by intros s. Qed.
#[export] Instance tracks_fails {A} e : Tracks (fails e : run A).
Proof. by intros s. Qed.
#[export] Instance tracks_of_result {A} (r : result A) : Tracks (of_result r).
Proof. by intros s. Qed.
#[export] Instance tracks_set_halted k r : Tracks (set_halted k r).
Proof. by intros s. Qed.
#[export] Instance tracks_set_lag n : Tracks (set_lag n).
Proof. by intros s. Qed.
#[export] Instance tracks_set_applied n : Tracks (set_applied n).
Proof. by intros s. Qed.
#[export] Instance tracks_call c : Tracks (call c).
Proof. by intros s. Qed.
Lemma tracks_ask {A} (f : W -> Store -> A * Store * W) :
  (forall w d, row (f w d).1.2 = row d) -> Tracks (ask f).
Proof.
  intros Hf s. unfold ask. specialize (Hf (world s) (db s)). destruct (f _ _) as [[a d] w].
  by apply tracked_row.
Qed.
#[export] Instance tracks_bind {A B} (m : run A) (k : A -> run B) :
  Tracks m -> (forall a, Tracks (k a)) -> Tracks (m ≫= k).
Proof.
  intros Hm Hk s Hs. unfold mbind, run_bind. apply Hm in Hs. destruct (m s) as [[a|e] s1]; [|done].
  by apply Hk.
Qed.

Ltac solve_tracks :=
  repeat first [apply _ | apply tracks_bind; [|intros ?] | apply tracks_ask; apply Hown | case_match].

#[export] Instance tracks_ask_result {A} (f : W -> Store -> result A * Store * W) :
  (forall w d, row (f w d).1.2 = row d) -> Tracks (ask_result f).
Proof. intros Hf. unfold ask_result. apply tracks_bind; [by apply tracks_ask|apply _]. Qed.
#[export] Instance tracks_doHalt k r : Tracks (doHalt k r).
Proof. unfold doHalt. solve_tracks. Qed.
#[export] Instance tracks_current_offset : Tracks current_offset.
Proof. unfold current_offset. solve_tracks. Qed.
#[export] Instance tracks_refreshLag : Tracks refreshLag.
Proof. unfold refreshLag. solve_tracks. Qed.
#[export] Instance tracks_acknowledge ids : Tracks (acknowledge ids).
Proof. unfold acknowledge. apply tracks_bind; [apply _|intros _]. apply tracks_ask_result, Hown. Qed.

(** An attempt that the process sees succeed has stored an offset at or past its key. *)
Lemma transact_tracks key event s s1 :
  tracked startKey s -> (forall o, offset s = Some o -> key_le o key) ->
  offset s1 = offset s -> row (db s1) = row (db s) ->
  let r := transact (consume name market key event) s1 in
  tracked startKey r.2 /\
  forall out, r.1 = Ok (Ok out) -> exists k, row (db r.2) = Some k /\ key_le key k.
Proof.
  intros Hs Hk Ho Hd. simpl. unfold transact.
  destruct (withTransaction _ (db s1)) as [[out d']|] eqn:E; simpl.
  - apply consume_row in E as (k & Hr & Hle & Hmono). split; [|by eauto].
    intros o Ho'. simpl in *. rewrite Hr. rewrite Ho in Ho'. specialize (Hs o Ho'). rewrite <- Hd in Hs.
    destruct (row (db s1)) as [k0|]; [etrans; [exact Hs|by apply Hmono]|]. etrans; [by apply Hk|done].
  - split; [|done]. by apply (tracked_row s).
Qed.

Lemma attempt_tracks key event s :
  tracked startKey s -> (forall o, offset s = Some o -> key_le o key) ->
  let r := attempt name market key event s in
  tracked startKey r.2 /\
  forall out, r.1 = Ok (Ok out) -> exists k, row (db r.2) = Some k /\ key_le key k.
Proof.
  intros Hs Hk. simpl. unfold attempt, mbind, run_bind, ask.
  pose proof (own_connection Hown key (world s) (db s)) as Hr.
  destruct (connection key (world s) (db s)) as [[f d] w]. simpl in Hr.
  set (s1 := mkSys _ _ _ _ _ d w).
  pose proof (transact_tracks key event s s1 Hs Hk eq_refl Hr) as H. simpl in H. destruct f as [|e|e].
  - exact H.
  - split; [|done]. by apply (tracked_row s).
  - destruct (transact _ s1) as [[c|e'] s2]; simpl in *; [|done]. split; [apply H|].
    intros out [= Hc]. by destruct c.
Qed.

Lemma attempt_loop_tracks n key event s :
  tracked startKey s -> (forall o, offset s = Some o -> key_le o key) ->
  tracked startKey (attempt_loop name market n key event s).2.
Proof.
  revert s. induction n as [|n IH]; intros s Hs Hk; simpl; unfold mbind at 1, run_bind at 1;
    pose proof (attempt_tracks key event s Hs Hk) as [Ht Hr]; pose proof (still_attempt key event s) as [Ho _];
    destruct (attempt name market key event s) as [[[out|e]|e] s1]; simpl in *; try done.
  1, 3: intros o [= <-]; simpl; destruct (Hr out eq_refl) as (k & -> & Hle); exact Hle.
  - destruct (haltReason e); solve_tracks; exact Ht.
  - destruct (haltReason e); [solve_tracks; exact Ht|]. apply IH; [exact Ht|]. by rewrite Ho.
Qed.

#[export] Instance tracks_applyOne item : Tracks (applyOne name market retries item).
Proof.
  intros s Hs. unfold applyOne. unfold mbind at 1, run_bind at 1, gets. simpl.
  destruct (offset s) as [o|] eqn:Ho; [|done].
  destruct (Z.leb_spec (compareKeys item.1 o) 0) as [|Hlt]; [done|].
  destruct (decode item.2) as [event|e].
  - destruct (seq_of_event event =? seq item.1); cbn [negb].
    + apply attempt_loop_tracks; [done|]. intros o' Ho'. assert (o' = o) by congruence. subst.
      assert (~ key_le item.1 o) by (unfold key_le; lia). rewrite key_le_spec in *. lia.
    + apply tracks_run; [solve_tracks|exact Hs].
  - apply tracks_run; [solve_tracks|exact Hs].
Qed.

#[export] Instance tracks_recover_items items n : Tracks (recover_items name market retries items n).
Proof. revert n. induction items as [|item items IH]; intros n; simpl; solve_tracks; apply IH. Qed.

#[export] Instance tracks_recover_loop fuel after n :
  Tracks (recover_loop parseEngineJson name market retries fuel after n).
Proof. revert after n. induction fuel as [|fuel IH]; intros after n; simpl; solve_tracks; apply IH. Qed.

#[export] Instance tracks_recover cause : Tracks (recover parseEngineJson name market retries pages cause).
Proof. unfold recover. solve_tracks. Qed.

#[export] Instance tracks_run_entries sorted done :
  Tracks (run_entries parseEngineJson name market retries pages sorted done).
Proof. revert done. induction sorted as [|entry sorted IH]; intros done; simpl; solve_tracks; apply IH. Qed.

#[export] Instance tracks_runOnce : Tracks (runOnce parseEngineJson name market retries pages).
Proof. unfold runOnce. solve_tracks. all: apply tracks_ask_result, Hown. Qed.

(** Computations that acknowledge nothing. *)
Definition acks_of (c : Call Event Outcome) : list string := match c with ack ids => ids | _ => [] end.

Definition quiet (s s' : Sys) : Prop := exists cs, calls s' = calls s ++ cs /\ cs ≫= acks_of = [].

Class Quiet {A} (m : run A) := quietly s : quiet s (m s).2.

Lemma quiet_same s s' : calls s' = calls s -> quiet s s'.
Proof. intros Hc. exists []. by rewrite app_nil_r. Qed.

#[export] Instance quiet_ret {A} (a : A) : Quiet (mret a).
Proof. intros s. by apply quiet_same. Qed.
#[export] Instance quiet_gets {A} (f : Sys -> A) : Quiet (gets f).
Proof. intros s. by apply quiet_same. Qed.
#[export] Instance quiet_fails {A} e : Quiet (fails e : run A).
Proof. intros s. by apply quiet_same. Qed.
#[export] Instance quiet_set_offset o : Quiet (set_offset o).
Proof. intros s. by apply quiet_same. Qed.
#[export] Instance quiet_set_halted k r : Quiet (set_halted k r).
Proof. intros s. by apply quiet_same. Qed.
#[export] Instance quiet_set_lag n : Quiet (set_lag n).
Proof. intros s. by apply quiet_same. Qed.
#[export] Instance quiet_set_applied n : Quiet (set_applied n).
Proof. intros s. by apply quiet_same. Qed.
#[export] Instance quiet_ask {A} (f : W -> Store -> A * Store * W) : Quiet (ask f).
Proof. intros s. apply quiet_same. unfold ask. by destruct (f _ _) as [[a d] w]. Qed.
#[export] Instance quiet_transact {A} (m : tx A) : Quiet (transact m).
Proof. intros s. apply quiet_same. unfold transact. by destruct (withTransaction m _) as [[a d]|]. Qed.
Lemma quiet_call c : acks_of c = [] -> Quiet (call c).
Proof. intros Hc s. exists [c]. simpl. by rewrite Hc. Qed.
#[export] Instance quiet_bind {A B} (m : run A) (k : A -> run B) :
  Quiet m -> (forall a, Quiet (k a)) -> Quiet (m ≫= k).
Proof.
  intros Hm Hk s. unfold mbind, run_bind. destruct (Hm s) as (cs & Hc & Hn).
  destruct (m s) as [[a|e] s1]; simpl in Hc; [|by exists cs]. destruct (Hk a s1) as (cs' & Hc' & Hn').
  exists (cs ++ cs'). rewrite Hc', Hc, app_assoc, bind_app, Hn, Hn'. done.
Qed.

Ltac solve_quiet :=
  repeat first [apply _ | apply quiet_bind; [|intros ?] | by apply quiet_call | case_match].

#[export] Instance quiet_attempt k e : Quiet (attempt name market k e).
Proof. unfold attempt. solve_quiet. Qed.
#[export] Instance quiet_doHalt k r : Quiet (doHalt k r).
Proof. unfold doHalt. solve_quiet. Qed.
#[export] Instance quiet_current_offset : Quiet current_offset.
Proof. unfold current_offset. solve_quiet. Qed.
#[export] Instance quiet_attempt_loop n k e : Quiet (attempt_loop name market n k e).
Proof. induction n as [|n IH]; simpl; solve_quiet; apply IH. Qed.
#[export] Instance quiet_applyOne item : Quiet (applyOne name market retries item).
Proof. unfold applyOne. solve_quiet. Qed.
#[export] Instance quiet_recover_items items n : Quiet (recover_items name market retries items n).
Proof. revert n. induction items as [|item items IH]; intros n; simpl; solve_quiet; apply IH. Qed.
#[export] Instance quiet_recover_loop fuel after n :
  Quiet (recover_loop parseEngineJson name market retries fuel after n).
Proof. revert after n. induction fuel as [|fuel IH]; intros after n; simpl; solve_quiet; apply IH. Qed.
#[export] Instance quiet_recover cause : Quiet (recover parseEngineJson name market retries pages cause).
Proof. unfold recover. solve_quiet. Qed.
#[export] Instance quiet_run_entries sorted done :
  Quiet (run_entries parseEngineJson name market retries pages sorted done).
Proof. revert done. induction sorted as [|entry sorted IH]; intros done; simpl; solve_quiet; apply IH. Qed.

(** An item reported applied is covered by the offset. *)
Lemma attempt_loop_true n key event s :
  (attempt_loop name market n key event s).1 = Ok true ->
  offset (attempt_loop name market n key event s).2 = Some key.
Proof.
  revert s. induction n as [|n IH]; intros s; cbn [attempt_loop]; unfold mbind, run_bind;
    destruct (attempt name market key event s) as [[[out|e]|e] s1]; simpl; try done;
    destruct (haltReason e); try done. apply IH.
Qed.

Lemma applyOne_true item s :
  (applyOne name market retries item s).1 = Ok true ->
  exists o, offset (applyOne name market retries item s).2 = Some o /\ key_le item.1 o.
Proof.
  unfold applyOne, mbind, run_bind, gets. simpl.
  destruct (offset s) as [o|] eqn:Ho; [|done].
  destruct (Z.leb_spec (compareKeys item.1 o) 0) as [Hle|_]; [by exists o|].
  destruct (decode item.2); [|done]. destruct (_ =? _); [|done]. intros H.
  apply attempt_loop_true in H. eexists. split; [exact H|reflexivity].
Qed.

(** What a pass collects to acknowledge: entries at or behind the offset it reached. *)
Lemma run_entries_covered sorted done s ids :
  (run_entries parseEngineJson name market retries pages sorted done s).1 = Ok ids ->
  forall id, id ∈ ids -> id ∈ done \/
  exists entry o, entry ∈ sorted /\ en_id entry = id /\
    offset (run_entries parseEngineJson name market retries pages sorted done s).2 = Some o /\
    key_le (en_key entry) o.
Proof.
  revert done s. induction sorted as [|entry sorted IH]; intros done s; [intros [= <-]; by left|].
  assert (Hkeep : forall s0 o0, offset s0 = Some o0 -> key_le (en_key entry) o0 ->
    (run_entries parseEngineJson name market retries pages sorted (done ++ [en_id entry]) s0).1 = Ok ids ->
    forall id, id ∈ ids -> id ∈ done \/
    exists entry' o, entry' ∈ entry :: sorted /\ en_id entry' = id /\
      offset (run_entries parseEngineJson name market retries pages sorted (done ++ [en_id entry]) s0).2 = Some o /\
      key_le (en_key entry') o).
  { intros s0 o0 Ho0 Hle Hr id Hid.
    destruct (advances_le _ _ o0 (advances_run_entries sorted (done ++ [en_id entry]) s0) Ho0) as (o1 & Ho1 & Hle1).
    destruct (IH _ _ Hr id Hid) as [Hin|(x & o & Hx & Hxid & Ho & Hxo)].
    - apply elem_of_app in Hin as [|Hin]; [by left|]. apply list_elem_of_singleton in Hin as ->.
      right. exists entry, o1. split; [left|]. split; [done|]. split; [done|]. by etrans.
    - right. exists x, o. split; [by right|]. done. }
  assert (Happly : forall s0,
    ((ok ← applyOne name market retries (entryToKeyed entry);
      if negb ok then mret done
      else run_entries parseEngineJson name market retries pages sorted (done ++ [en_id entry])) s0).1 = Ok ids ->
    forall id, id ∈ ids -> id ∈ done \/
    exists entry' o, entry' ∈ entry :: sorted /\ en_id entry' = id /\
      offset ((ok ← applyOne name market retries (entryToKeyed entry);
        if negb ok then mret done
        else run_entries parseEngineJson name market retries pages sorted (done ++ [en_id entry])) s0).2 = Some o /\
      key_le (en_key entry') o).
  { intros s0. pose proof (applyOne_true (entryToKeyed entry) s0) as Ht. unfold mbind, run_bind.
    destruct (applyOne _ _ _ _ s0) as [[[|]|e] s1]; simpl in *; [|intros [= <-]; by left|done].
    destruct (Ht eq_refl) as (o & Ho & Hle). by apply (Hkeep s1 o). }
  cbn [run_entries]. revert Happly. unfold current_offset, mbind, run_bind, gets. simpl. intros Happly.
  destruct (halted s); [intros [= <-]; by left|].
  destruct (offset s) as [o|] eqn:Ho; [|done]. simpl.
  destruct (Z.leb_spec (compareKeys (en_key entry) o) 0) as [Hle|_]; [by apply (Hkeep s o)|].
  destruct (follows o (en_key entry)); [apply Happly|].
  destruct (recover _ _ _ _ _ _ s) as [[[|]|e] s1]; cbn [negb]; [|intros [= <-]; by left|done].
  destruct (offset s1) as [o1|] eqn:Ho1; [|done]. simpl.
  destruct (Z.leb_spec (compareKeys (en_key entry) o1) 0) as [Hle|_]; [by apply (Hkeep s1 o1)|].
  destruct (follows o1 (en_key entry)); cbn [negb]; [apply Happly|]. intros [= <-]. by left.
Qed.

#[export] Instance quiet_refreshLag : Quiet refreshLag.
Proof. unfold refreshLag. solve_quiet. Qed.

(** The acknowledgements of a state after another. *)
Definition acks_since (s s' : Sys) (P : string -> Prop) : Prop :=
  exists cs, calls s' = calls s ++ cs /\ forall id, id ∈ cs ≫= acks_of -> P id.

Lemma quiet_acks s s' P : quiet s s' -> acks_since s s' P.
Proof. intros (cs & Hc & Hn). exists cs. split; [done|]. rewrite Hn. set_solver. Qed.

Lemma acks_bind {A B} (m : run A) (k : A -> run B) s P :
  Quiet m -> (forall a s1, m s = (Ok a, s1) -> acks_since s1 (k a s1).2 P) ->
  acks_since s ((m ≫= k) s).2 P.
Proof.
  intros Hm Hk. unfold mbind, run_bind. destruct (Hm s) as (cs & Hc & Hn).
  destruct (m s) as [[a|e] s1] eqn:E; simpl in Hc; [|by apply quiet_acks; exists cs].
  destruct (Hk a s1 eq_refl) as (cs' & Hc' & HP). exists (cs ++ cs'). split; [by rewrite Hc', Hc, app_assoc|].
  rewrite bind_app, Hn. apply HP.
Qed.

(** The end of a pass keeps the offset. *)
Definition tail : run Z := _ ← refreshLag; gets appliedThisRun.

Lemma tail_offset s : offset (tail s).2 = offset s.
Proof. apply (_ : Still (_ ← refreshLag; gets appliedThisRun)). Qed.

#[export] Instance quiet_tail : Quiet tail.
Proof. unfold tail. solve_quiet. Qed.

Definition left_by_others (d : Store) (w : W) (s : Sys) : Sys :=
  mkSys (offset s) (halted s) (lag s) (appliedThisRun s) (calls s) d w.

Lemma ask_result_bind {A B} (f : W -> Store -> result A * Store * W) (k : A -> run B) s :
  (ask_result f ≫= k) s =
  let '(r, d, w) := f (world s) (db s) in
  match r with
  | Ok a => k a (left_by_others d w s)
  | Throw e => (Throw e, left_by_others d w s)
  end.
Proof.
  unfold ask_result, ask, mbind, run_bind, of_result. destruct (f (world s) (db s)) as [[[a|e] d] w]; done.
Qed.

Lemma acknowledge_run ids s :
  acknowledge ids s =
  let s1 := (call (ack ids) s).2 in
  let '(r, d, w) := source_ack ids (world s) (db s) in (r, left_by_others d w s1).
Proof.
  unfold acknowledge, ask_result, ask, mbind, run_bind, of_result, call. simpl.
  destruct (source_ack ids (world s) (db s)) as [[[a|e] d] w]; done.
Qed.

Lemma pass_acks start s s' :
  (pass start s).2 = s' ->
  acks_since s s' (fun id => exists entries entry o,
    (source_read (world s) (db s)).1.1 = Ok (read_entries entries) /\ entry ∈ entries /\
    en_id entry = id /\ offset s' = Some o /\ key_le (en_key entry) o).
Proof.
  unfold pass. change (_ ← refreshLag; gets appliedThisRun) with tail. rewrite ask_result_bind.
  destruct (source_read (world s) (db s)) as [[[answer|e] d] w];
    [|intros <-; by apply quiet_acks, quiet_same].
  set (s1 := left_by_others d w s). intros Hs'. subst s'.
  destruct answer as [|[|x entries]].
  1, 2: apply (quiet_acks s1); match goal with |- quiet ?a (?m ?a).2 => enough (H : Quiet m) by apply H end; solve_quiet.
  set (sorted := sort_entries (x :: entries)).
  pose proof (run_entries_covered sorted [] s1) as Hcov.
  pose proof (quiet_run_entries sorted [] s1) as (cs & Hc & Hn).
  unfold mbind at 1 2 3 4, run_bind at 1 2 3 4.
  destruct (run_entries _ _ _ _ _ sorted [] s1) as [[ids|e] s2];
    [|by apply (quiet_acks s1); exists cs].
  specialize (Hcov ids eq_refl). simpl in Hc. rewrite acknowledge_run.
  assert (Hids : forall (o' : Sys) id, offset o' = offset s2 -> id ∈ ids -> exists entries' entry o,
    Ok (read_entries (x :: entries)) = Ok (read_entries entries') /\ entry ∈ entries' /\
    en_id entry = id /\ offset o' = Some o /\ key_le (en_key entry) o).
  { intros o' id Ho Hid. destruct (Hcov id Hid) as [?%not_elem_of_nil|(y & o & Hy & Hyid & Hyo & Hle)]; [done|].
    exists (x :: entries), y, o. rewrite Ho. repeat split; try done. by apply sort_entries_elem. }
  destruct (source_ack ids (world s2) (db s2)) as [[[u|e] d2] w2]; simpl.
  - set (s3 := left_by_others d2 w2 (call (ack ids) s2).2). destruct (quiet_tail s3) as (cs' & Hc' & Hn').
    exists (cs ++ [ack ids] ++ cs'). split; [etrans; [exact Hc'|]; simpl; by rewrite Hc, <- !app_assoc|].
    rewrite !bind_app, Hn, Hn'. simpl. rewrite !app_nil_r. intros id. apply (Hids (tail s3).2).
    by rewrite tail_offset.
  - exists (cs ++ [ack ids]). split; [by simpl; rewrite Hc, <- app_assoc|].
    rewrite bind_app, Hn. simpl. rewrite app_nil_r. intros id. by apply Hids.
Qed.
End Acknowledgements.

(** C5: events are applied exactly once, in order and without gaps. Over any number of passes, and
    whatever the stream, the engine's journal, the connection and the other actors do,
    the events the process applied are, under their own sequences, the events at the
    keys that follow one another from the offset it had to the offset it has, each key
    once; and a process that has halted never applies, acknowledges or moves again. *)
Theorem applied_in_order (s s' : Sys) o :
  rtc cycle s s' -> offset s = Some o ->
  exists cs o', calls s' = calls s ++ cs /\ offset s' = Some o' /\
  path o (applied_events cs).*1 o' /\ NoDup (applied_events cs).*1 /\
  Forall (fun ke => seq_of_event ke.2 = seq ke.1) (applied_events cs) /\
  (halted s <> None -> cs = [] /\ o' = o).
Proof.
  intros Hc Ho. pose proof (cycles_in_order s s' Hc) as (cs & Hcs & Hf & Hp). rewrite Ho in Hp.
  destruct (offset s') as [o'|] eqn:Ho'; [|done]. exists cs, o'.
  repeat split; try done; [by eapply path_NoDup| |].
  - destruct (cycles_halted s s' Hc H) as (_ & _ & Hsame). rewrite Hcs in Hsame.
    rewrite <- (app_nil_r (calls s)) in Hsame at 2. by apply app_inv_head in Hsame.
  - destruct (cycles_halted s s' Hc H) as (Hsame & _). congruence.
Qed.

(** C6: only what is committed is acknowledged. If nobody else moves this consumer's stored offset, then
    it is never behind the process (or there is none yet and the process is at its
    configured start), and after a pass that stays so and every entry the pass
    acknowledged was read in it and lies at or behind the offset. *)
Theorem acknowledged_is_committed (startKey : option EventKey) (s s' : Sys) r :
  owns_row -> tracked startKey s ->
  runOnce parseEngineJson name market retries pages s = (r, s') ->
  tracked startKey s' /\
  acks_since s s' (fun id => exists entries entry o,
    (source_read (world s) (db s)).1.1 = Ok (read_entries entries) /\ entry ∈ entries /\
    en_id entry = id /\ offset s' = Some o /\ key_le (en_key entry) o).
Proof.
  intros Hown Ht Hr. replace s' with ((r, s').2) by done. rewrite <- Hr. split.
  - by apply (tracks_runOnce Hown startKey).
  - destruct (halted s) eqn:Hh; [rewrite runOnce_idle by (left; congruence); by apply quiet_acks, quiet_same|].
    destruct (offset s) as [o|] eqn:Ho; [|rewrite runOnce_idle by (by right); by apply quiet_acks, quiet_same].
    rewrite (runOnce_pass s o) by done. by apply (pass_acks Hown o (set_applied 0 s).2).
Qed.
End Order.
