(* ===== verification/Replay.v ===== *)
(** * Replay: what a quiet delivery amounts to

    When no call is lost and nobody else acts, the consumer is the fold of [consume] over
    the events after its offset, however they reached it: [replay] is that specification,
    and recovery from an honest journal and a pass over the stream both refine it. The
    journal is a list of commands, each the list of events it emitted, numbered from one.
    No code is modelled here. *)

From Stdlib Require Import ZArith Lia.
From stdpp Require Import base list strings gmap sorting.
From S2P Require Import Prelude Store Events Consumer Delivery.

Open Scope string_scope.
Open Scope list_scope.
Open Scope Z_scope.

(** ** The journal *)

(** The events of a command with their keys. *)
Definition key_command (n : Z) (c : list value) : list KeyedRaw :=
  imap (fun i raw => (mkKey n (Z.of_nat i), raw)) c.

Fixpoint key_commands (n : Z) (cs : list (list value)) : list KeyedRaw :=
  match cs with
  | [] => []
  | c :: cs => key_command n c ++ key_commands (n + 1) cs
  end.

Section Journal.
Context (parseEngineJson : string -> result value).

(** Every command emitted at least one event, under its number. *)
Fixpoint commands_wf (n : Z) (cs : list (list value)) : Prop :=
  match cs with
  | [] => True
  | c :: cs => c <> [] /\ Forall (fun raw => seqOf parseEngineJson raw = Ok n) c /\ commands_wf (n + 1) cs
  end.

Lemma key_commands_app n cs1 cs2 :
  key_commands n (cs1 ++ cs2) = key_commands n cs1 ++ key_commands (n + Z.of_nat (length cs1)) cs2.
Proof.
  revert n. induction cs1 as [|c cs1 IH]; intros n; simpl; [f_equal; lia|].
  rewrite IH, app_assoc. do 2 f_equal. lia.
Qed.

Lemma commands_wf_app n cs1 cs2 :
  commands_wf n (cs1 ++ cs2) -> commands_wf n cs1 /\ commands_wf (n + Z.of_nat (length cs1)) cs2.
Proof.
  revert n. induction cs1 as [|c cs1 IH]; intros n; simpl.
  - intros H. split; [done|]. by replace (n + Z.of_nat 0) with n by lia.
  - intros (? & ? & H). apply IH in H as [? H]. split; [done|].
    by replace (n + Z.of_nat (S (length cs1))) with (n + 1 + Z.of_nat (length cs1)) by lia.
Qed.

(** The keys of the rest of a command, from its [i]th event on. *)
Lemma key_from_command n i prev c rest tail :
  Forall (fun raw => seqOf parseEngineJson raw = Ok n) c ->
  (if bool_decide (i = 0%nat) then match prev with Some p => seq p <> n | None => True end
   else prev = Some (mkKey n (Z.of_nat i - 1))) ->
  (forall p, (c = [] -> p = prev) -> (c <> [] -> p = Some (mkKey n (Z.of_nat (i + length c) - 1))) ->
     key_from parseEngineJson p rest = Ok tail) ->
  key_from parseEngineJson prev (c ++ rest) =
    Ok (imap (fun j raw => (mkKey n (Z.of_nat (i + j)), raw)) c ++ tail).
Proof.
  revert i prev. induction c as [|raw c IH]; intros i prev Hc Hp Hrest; simpl; [by apply Hrest|].
  apply Forall_cons in Hc as [-> Hc]. simpl.
  assert (Hidx : match prev with Some p => if seq p =? n then idx p + 1 else 0 | None => 0 end = Z.of_nat i).
  { case_bool_decide as Hi; [|by subst; simpl; rewrite Z.eqb_refl; lia]. subst i. destruct prev as [p|]; [|done].
    by apply Z.eqb_neq in Hp as ->. }
  rewrite Hidx, (IH (S i)).
  - simpl. rewrite Nat.add_0_r. do 3 f_equal. apply imap_ext. intros j raw' _. simpl.
    by rewrite Nat.add_succ_r.
  - done.
  - simpl. do 2 f_equal. lia.
  - intros p Hnil Hcons. apply Hrest; [done|]. intros _. destruct c as [|raw' c].
    + rewrite Hnil by done. simpl. do 2 f_equal. lia.
    + rewrite Hcons by done. simpl. do 2 f_equal. lia.
Qed.

Lemma key_from_commands n prev cs :
  commands_wf n cs -> match prev with Some p => seq p < n | None => True end ->
  key_from parseEngineJson prev (mjoin cs) = Ok (key_commands n cs).
Proof.
  revert n prev. induction cs as [|c cs IH]; intros n prev; simpl; [done|]. intros (Hne & Hc & Hcs) Hp.
  apply (key_from_command n 0); [done|simpl; destruct prev; [lia|done]|].
  intros p _ Hcons. apply IH; [done|]. rewrite Hcons by done. simpl. lia.
Qed.

Lemma keyByPosition_commands n cs :
  commands_wf n cs -> keyByPosition parseEngineJson (mjoin cs) = Ok (key_commands n cs).
Proof. intros H. by apply key_from_commands. Qed.
End Journal.

(** ** Keys of the journal follow one another *)

Lemma path_unique o ks o1 o2 : path o ks o1 -> path o ks o2 -> o1 = o2.
Proof. revert o. induction ks as [|k ks IH]; simpl; [congruence|]. intros o [_ H1] [_ H2]. by eapply IH. Qed.


Lemma path_command n i c o :
  follows o (mkKey n (Z.of_nat i)) = true -> c <> ([] : list value) ->
  path o (imap (fun j raw => (mkKey n (Z.of_nat (i + j)), raw)) c).*1 (mkKey n (Z.of_nat (i + length c) - 1)).
Proof.
  revert i o. induction c as [|raw c IH]; intros i o Hf Hne; [done|].
  rewrite imap_cons, fmap_cons. cbn [path fst]. rewrite Nat.add_0_r. split; [done|].
  destruct c as [|raw' c]; [simpl; f_equal; lia|].
  replace (imap _ (raw' :: c)) with (imap (fun j raw => (mkKey n (Z.of_nat (S i + j)), raw)) (raw' :: c))
    by (apply imap_ext; intros j r _; simpl; by rewrite Nat.add_succ_r).
  replace (Z.of_nat (i + length (raw :: raw' :: c)) - 1) with (Z.of_nat (S i + length (raw' :: c)) - 1) by (simpl; lia).
  apply IH; [|done]. apply follows_spec. simpl. left. split; [done|lia].
Qed.

Lemma path_commands parse n cs o :
  commands_wf parse n cs -> seq o = n - 1 ->
  exists o', path o (key_commands n cs).*1 o'.
Proof.
  revert n o. induction cs as [|c cs IH]; intros n o; simpl; [by exists o|]. intros (Hne & _ & Hcs) Ho.
  destruct (IH (n + 1) (mkKey n (Z.of_nat (length c) - 1)) Hcs) as [o' Hp]; [simpl; lia|].
  exists o'. rewrite fmap_app, path_app. eexists. split; [|exact Hp].
  apply (path_command n 0 c o); [|done]. apply follows_spec. simpl. lia.
Qed.

Lemma key_command_seq n c it : it ∈ key_command n c -> seq it.1 = n.
Proof. unfold key_command. intros (i & raw & -> & _)%elem_of_lookup_imap. done. Qed.

Lemma key_commands_seq n cs it :
  it ∈ key_commands n cs -> n <= seq it.1 < n + Z.of_nat (length cs).
Proof.
  revert n. induction cs as [|c cs IH]; intros n; simpl; [by intros ?%not_elem_of_nil|].
  intros [Hin|Hin]%elem_of_app; [apply key_command_seq in Hin|apply IH in Hin]; lia.
Qed.

Lemma last_commands parse n cs :
  commands_wf parse n cs -> cs <> [] ->
  exists it, last (key_commands n cs) = Some it /\ seq it.1 = n + Z.of_nat (length cs) - 1.
Proof.
  intros Hwf Hne. destruct cs as [|c cs _] using rev_ind; [done|].
  apply commands_wf_app in Hwf as [_ (Hc & _)]. rewrite key_commands_app, length_app. simpl. rewrite app_nil_r.
  destruct c as [|raw c _] using rev_ind; [done|].
  unfold key_command. rewrite imap_app, app_assoc. simpl. rewrite last_snoc. eexists. split; [done|]. simpl. lia.
Qed.

(** The items of a journal behind an offset and after it. *)
Definition items_after (o : EventKey) (items : list KeyedRaw) : list KeyedRaw :=
  filter (fun it => 0 < compareKeys it.1 o) items.

(** A position in the journal: where it starts, or the key of an event. *)
Definition position (o : EventKey) (items : list KeyedRaw) : Prop := o = mkKey 0 0 \/ o ∈ items.*1.

Lemma items_after_split parse o cs :
  commands_wf parse 1 cs -> position o (key_commands 1 cs) ->
  let a := Z.to_nat (if seq o >? 0 then seq o - 1 else 0) in
  exists front o', (a <= length cs)%nat /\
  key_commands (Z.of_nat a + 1) (drop a cs) = front ++ items_after o (key_commands 1 cs) /\
  Forall (fun it => key_le it.1 o) front /\
  path o (items_after o (key_commands 1 cs)).*1 o'.
Proof.
  intros Hwf Hpos a. destruct (path_commands parse 1 cs (mkKey 0 0) Hwf eq_refl) as [o' Hp].
  assert (Hsplit : exists front new, key_commands 1 cs = front ++ new /\ path (mkKey 0 0) front.*1 o /\
            path o new.*1 o' /\ (front = [] \/ o ∈ front.*1)).
  { destruct Hpos as [->|([k raw] & Ho & [l1 [l2 Heq]]%list_elem_of_split)%list_elem_of_fmap].
    - exists [], (key_commands 1 cs). repeat split; auto.
    - simpl in Ho. subst k. exists (l1 ++ [(o, raw)]), l2. rewrite Heq in Hp.
      rewrite fmap_app, path_app in Hp. destruct Hp as (m & Hp1 & Hp2). simpl in Hp2. destruct Hp2 as [Hf Hp2].
      split; [by rewrite <- app_assoc|]. split; [rewrite fmap_app, path_app; by exists m|].
      split; [done|]. right. rewrite fmap_app. apply elem_of_app. right. left. }
  destruct Hsplit as (front & new & Heq & Hfront & Hnew & Ho).
  assert (Hold : Forall (fun it => key_le it.1 o) front).
  { apply Forall_forall. intros it Hit. apply (path_not_le _ _ _ it.1 Hfront). by apply list_elem_of_fmap_2. }
  assert (Hafter : items_after o (key_commands 1 cs) = new).
  { unfold items_after. rewrite Heq, filter_app.
    rewrite (filter_none _ front), (filter_all _ new); [done| |].
    - intros it Hit. pose proof (path_not_le _ _ _ it.1 Hnew) as [Hn _]; [by apply list_elem_of_fmap_2|].
      unfold key_le in Hn. lia.
    - intros it Hit. rewrite Forall_forall in Hold. apply Hold in Hit. unfold key_le in Hit. lia. }
  rewrite Hafter. clear Hafter.
  assert (Ha : (a <= length cs)%nat /\ (front = [] -> a = 0%nat) /\ (o ∈ front.*1 -> seq o = Z.of_nat a + 1)).
  { split; [|split].
    - destruct Ho as [->|Ho].
      + simpl in Hfront. subst a. rewrite <- Hfront. simpl. lia.
      + apply list_elem_of_fmap in Ho as (it & -> & Hit). pose proof (key_commands_seq 1 cs it) as Hs.
        rewrite Heq in Hs. specialize (Hs ltac:(apply elem_of_app; by left)). subst a. destruct (_ >? _); lia.
    - intros ->. simpl in Hfront. subst a. by rewrite <- Hfront.
    - intros Hin. apply list_elem_of_fmap in Hin as (it & -> & Hit). pose proof (key_commands_seq 1 cs it) as Hs.
      rewrite Heq in Hs. specialize (Hs ltac:(apply elem_of_app; by left)). subst a. destruct (Z.gtb_spec (seq it.1) 0); lia. }
  destruct Ha as (Ha & Hnil & Hseq).
  assert (Hall : front ++ new = key_commands 1 (take a cs) ++ key_commands (Z.of_nat a + 1) (drop a cs)).
  { rewrite <- Heq, <- (take_drop a cs) at 1. rewrite key_commands_app, length_take_le by done.
    do 2 f_equal. lia. }
  destruct (app_eq_inv _ _ _ _ Hall) as [(k & -> & ->)|(k & Hpre & Hk)].
  - exists k, o'. apply Forall_app in Hold as [_ Hold]. done.
  - destruct Ho as [->|Ho].
    + rewrite Hnil in * by done. simpl in *. subst k. exists [], o'. by repeat split.
    + exfalso. specialize (Hseq Ho). apply list_elem_of_fmap in Ho as (it & -> & Hit).
      pose proof (key_commands_seq 1 (take a cs) it) as Hs. rewrite Hpre in Hs.
      specialize (Hs ltac:(apply elem_of_app; by left)). rewrite length_take_le in Hs by done. lia.
Qed.

(** ** The specification *)

Section Replay.
Context {Event Outcome W : Type} `{!Consumable Event Outcome} `{!World W}.
Context (parseEngineJson : string -> result value) (name market : string) (retries pages : nat).

Local Abbreviation Sys := (@Sys Event Outcome W).

(** Every event in turn: decoded, and consumed in a transaction of its own. *)
Fixpoint replay (items : list KeyedRaw) : tx unit :=
  match items with
  | [] => mret tt
  | item :: items =>
      event ← lift (decode item.2);
      _ ← raise_if (negb (seq_of_event event =? seq item.1)) (GenericError "key_mismatch");
      _ ← withTransaction (consume name market item.1 event);
      replay items
  end.

(** No call is lost and nobody else acts. *)
Definition no_interference : Prop := forall key (w : W) d, connection key w d = (no_fault, d, w).

(** The engine answers, in pages that end at a command, with what its journal holds. *)
Definition honest_journal (commands : list (list value)) : Prop :=
  forall a (w : W) d, exists m,
    (m <= length (drop a commands))%nat /\ (drop a commands <> [] -> (0 < m)%nat) /\
    eventsAfter (Z.of_nat a) w d = (Some (mjoin (take m (drop a commands))), d, w).

(** What applying events in a row makes of the process. *)
Definition replayed (items : list KeyedRaw) (o' : EventKey) (d' : Store) (s s' : Sys) : Prop :=
  exists cs, (applied_events cs).*1 = items.*1 /\
  s' = mkSys (Some o') (halted s) (lag s) (appliedThisRun s + Z.of_nat (length items)) (calls s ++ cs) d' (world s).

Lemma replayed_nil o s : offset s = Some o -> replayed [] o (db s) s s.
Proof.
  intros Ho. exists []. split; [done|]. destruct s. simpl in *. rewrite Ho, app_nil_r, Z.add_0_r. done.
Qed.

Lemma replayed_app items1 items2 o1 o2 d1 d2 s s1 s2 :
  replayed items1 o1 d1 s s1 -> replayed items2 o2 d2 s1 s2 -> replayed (items1 ++ items2) o2 d2 s s2.
Proof.
  intros (cs1 & H1 & ->) (cs2 & H2 & ->). exists (cs1 ++ cs2). split.
  - by rewrite applied_events_app, !fmap_app, H1, H2.
  - simpl. rewrite length_app, app_assoc. f_equal. lia.
Qed.

Lemma replay_cons item items d d' :
  replay (item :: items) d = Ok (tt, d') ->
  exists event out d1, decode item.2 = Ok event /\ seq_of_event event = seq item.1 /\
    withTransaction (consume name market item.1 event) d = Ok (out, d1) /\ replay items d1 = Ok (tt, d').
Proof.
  intros H. cbn [replay] in H. apply tx_bind_Ok in H as (event & d1 & Hd & H).
  apply lift_Ok in Hd as [Hd ->]. apply tx_bind_Ok in H as ([] & d2 & Hr & H).
  apply raise_if_Ok in Hr as [Hr ->]. apply tx_bind_Ok in H as (out & d3 & Hc & H).
  apply negb_false_iff, Z.eqb_eq in Hr. eauto 10.
Qed.

Lemma replay_app items1 items2 d d' :
  replay (items1 ++ items2) d = Ok (tt, d') ->
  exists d1, replay items1 d = Ok (tt, d1) /\ replay items2 d1 = Ok (tt, d').
Proof.
  revert d. induction items1 as [|item items1 IH]; intros d; [by eauto|].
  intros (event & out & d1 & Hd & Hs & Hc & H)%replay_cons. apply IH in H as (d2 & H1 & H2).
  exists d2. split; [|done]. cbn [replay]. unfold lift, raise_if, lift, mbind, tx_bind.
  rewrite Hd, Hs, Z.eqb_refl. simpl. by rewrite Hc.
Qed.

Lemma replay_ext items1 items2 :
  Forall2 (fun a b : KeyedRaw => a.1 = b.1 /\ decode a.2 = decode b.2) items1 items2 ->
  forall d, replay items1 d = replay items2 d.
Proof.
  induction 1 as [|a b items1 items2 [Hk Hd] _ IH]; intros d; [done|]. cbn [replay].
  rewrite Hk, Hd. unfold mbind, tx_bind. by repeat (case_match; try done).
Qed.

Section Quiet.
Context (Hquiet : no_interference).

Lemma attempt_quiet key event s :
  attempt name market key event s = transact (consume name market key event) s.
Proof. unfold attempt, ask, mbind, run_bind. rewrite Hquiet. by destruct s. Qed.

Lemma applyOne_quiet item o s d' :
  offset s = Some o -> ~ key_le item.1 o -> replay [item] (db s) = Ok (tt, d') ->
  exists s', applyOne name market retries item s = (Ok true, s') /\ replayed [item] item.1 d' s s'.
Proof.
  intros Ho Hgt (event & out & d1 & Hd & Hs & Hc & [= ->])%replay_cons.
  eexists. split.
  - unfold applyOne. unfold mbind at 1, run_bind at 1, gets. rewrite Ho.
    destruct (Z.leb_spec (compareKeys item.1 o) 0) as [Hle|_]; [by destruct Hgt|]. rewrite Hd, Hs, Z.eqb_refl. cbn [negb].
    destruct retries; cbn [attempt_loop]; unfold mbind at 1, run_bind at 1; rewrite attempt_quiet;
      unfold transact; rewrite Hc; reflexivity.
  - exists [on_applied out item.1 event]. split; [done|]. simpl. done.
Qed.

Lemma recover_items_quiet front items o o' d' n s :
  offset s = Some o -> Forall (fun it : KeyedRaw => key_le it.1 o) front -> path o items.*1 o' ->
  replay items (db s) = Ok (tt, d') ->
  exists s', recover_items name market retries (front ++ items) n s =
    (Ok (Some (n + Z.of_nat (length items))), s') /\ replayed items o' d' s s'.
Proof.
  intros Ho Hfront. revert o o' n s Ho Hfront. induction front as [|it front IH]; simpl.
  2: { intros o o' n s Ho [Hit Hf]%Forall_cons Hp Hr. rewrite (current_offset_bind _ _ o) by done.
       destruct (Z.leb_spec (compareKeys it.1 o) 0) as [_|Hgt]; [by eapply IH|].
       exfalso. apply Z.lt_nge in Hgt. exact (Hgt Hit). }
  induction items as [|it items IH]; intros o o' n s Ho _ Hp Hr.
  - injection Hr as <-. simpl in Hp. subst o'. exists s. split; [|by apply replayed_nil].
    simpl. by rewrite Z.add_0_r.
  - destruct Hp as [Hf Hp]. apply (replay_app [it] items) in Hr as (d1 & Hr1 & Hr).
    destruct (applyOne_quiet it o s d1 Ho (follows_not_le _ _ Hf) Hr1) as (s1 & Hrun & Hs1).
    destruct (IH it.1 o' (n + 1) s1) as (s2 & Hrun2 & Hs2); try done; [by destruct Hs1 as (? & _ & ->)|
      by destruct Hs1 as (? & _ & ->)|].
    exists s2. split; [|by apply (replayed_app [it] items _ _ _ _ _ _ _ Hs1 Hs2)].
    cbn [recover_items]. rewrite (current_offset_bind _ _ o) by done.
    destruct (Z.leb_spec (compareKeys it.1 o) 0) as [Hle|_]; [by apply follows_not_le in Hf|]. rewrite Hf.
    cbn [negb]. unfold mbind at 1, run_bind at 1. rewrite Hrun. cbn [negb]. rewrite Hrun2.
    do 3 f_equal. simpl. lia.
Qed.

(** The rest of a journal from the [a]th command on, in as many pages as the engine likes. *)
Lemma recover_loop_quiet commands fuel a front items o o' d' n s :
  honest_journal commands -> commands_wf parseEngineJson 1 commands ->
  key_commands (Z.of_nat a + 1) (drop a commands) = front ++ items ->
  (length (drop a commands) < fuel)%nat ->
  offset s = Some o -> Forall (fun it : KeyedRaw => key_le it.1 o) front -> path o items.*1 o' ->
  replay items (db s) = Ok (tt, d') ->
  exists s', recover_loop parseEngineJson name market retries fuel (Z.of_nat a) n s =
    (Ok (recovered (n + Z.of_nat (length items))), s') /\ replayed items o' d' s s'.
Proof.
  intros Hhonest Hwf. revert a front items o n s.
  induction fuel as [|fuel IH]; intros a front items o n s Hrest Hfuel Ho Hfront Hp Hr; [lia|].
  destruct (Hhonest a (world s) (db s)) as (m & Hm & Hpos & Hpage). cbn [recover_loop].
  unfold mbind at 1, run_bind at 1, ask. rewrite Hpage.
  replace (mkSys _ _ _ _ _ _ _) with s by (by destruct s).
  assert (Hwfa : commands_wf parseEngineJson (Z.of_nat a + 1) (drop a commands)).
  { rewrite <- (take_drop a commands) in Hwf. apply commands_wf_app in Hwf as [_ Hwf].
    destruct (decide (a <= length commands)%nat) as [Hle|Hle].
    - rewrite length_take_le in Hwf by done. by replace (Z.of_nat a + 1) with (1 + Z.of_nat a) by lia.
    - by rewrite drop_ge by lia. }
  set (rest := drop a commands) in *.
  destruct (decide (rest = [])) as [Hnil|Hne].
  { rewrite Hnil in *. rewrite take_nil. simpl in Hrest. symmetry in Hrest. apply app_eq_nil in Hrest as [-> ->].
    injection Hr as <-. simpl in Hp. subst o'. exists s. split; [by rewrite Z.add_0_r|by apply replayed_nil]. }
  rewrite <- (take_drop m rest) in Hwfa. apply commands_wf_app in Hwfa as [Hwf1 Hwf2].
  assert (Htake : take m rest <> []).
  { intros E%(f_equal length). rewrite length_take_le in E by done. simpl in E. specialize (Hpos Hne). lia. }
  pose proof (keyByPosition_commands _ _ _ Hwf1) as Hkeys.
  destruct (last_commands _ _ _ Hwf1 Htake) as (it & Hlast & Hseq).
  rewrite length_take_le in Hseq by done.
  destruct (mjoin (take m rest)) as [|raw raws] eqn:Hpg.
  { unfold keyByPosition in Hkeys. simpl in Hkeys. injection Hkeys as Hkeys. by rewrite <- Hkeys in Hlast. }
  rewrite Hkeys.
  assert (Hsplit : exists front1 items1 front2 items2,
    key_commands (Z.of_nat a + 1) (take m rest) = front1 ++ items1 /\
    key_commands (Z.of_nat (a + m) + 1) (drop (a + m) commands) = front2 ++ items2 /\
    items = items1 ++ items2 /\ Forall (fun it : KeyedRaw => key_le it.1 o) front1 /\
    Forall (fun it : KeyedRaw => key_le it.1 o) front2 /\ (items1 = [] \/ front2 = [])).
  { assert (Hall : front ++ items = key_commands (Z.of_nat a + 1) (take m rest) ++
              key_commands (Z.of_nat (a + m) + 1) (drop (a + m) commands)).
    { rewrite <- Hrest, <- drop_drop. fold rest. rewrite <- (take_drop m rest) at 1.
      rewrite key_commands_app, length_take_le by done. do 2 f_equal. lia. }
    destruct (app_eq_inv _ _ _ _ Hall) as [(k & -> & Hk)|(k & Hk & ->)].
    - apply Forall_app in Hfront as [Hf1 Hf2].
      exists (key_commands (Z.of_nat a + 1) (take m rest)), [], k, items.
      rewrite app_nil_r. repeat split; try done. by left.
    - exists front, k, [], (key_commands (Z.of_nat (a + m) + 1) (drop (a + m) commands)).
      repeat split; try done. by right. }
  destruct Hsplit as (front1 & items1 & front2 & items2 & Hk1 & Hk2 & -> & Hf1 & Hf2 & Hor).
  rewrite Hk1 in Hlast |- *.
  rewrite fmap_app, path_app in Hp. destruct Hp as (mid & Hp1 & Hp2).
  apply replay_app in Hr as (d1 & Hr1 & Hr2).
  destruct (recover_items_quiet front1 items1 o mid d1 n s Ho Hf1 Hp1 Hr1) as (s1 & Hrun1 & Hs1).
  unfold mbind at 1, run_bind at 1. rewrite Hrun1, Hlast. simpl. rewrite Hseq.
  replace (Z.of_nat a + 1 + Z.of_nat m - 1) with (Z.of_nat (a + m)) by lia.
  pose proof (path_le _ _ _ Hp1) as Hmid.
  destruct (IH (a + m)%nat front2 items2 mid (n + Z.of_nat (length items1)) s1) as (s2 & Hrun2 & Hs2).
  - done.
  - rewrite <- drop_drop. fold rest. rewrite length_drop. specialize (Hpos Hne). lia.
  - by destruct Hs1 as (? & _ & ->).
  - eapply Forall_impl; [exact Hf2|]. intros x Hx. simpl in *. etrans; [exact Hx|done].
  - done.
  - by destruct Hs1 as (? & _ & ->).
  - exists s2. split; [|by eapply replayed_app].
    etrans; [exact Hrun2|]. rewrite length_app, Nat2Z.inj_add, Z.add_assoc. done.
Qed.

Lemma recover_quiet commands cause o d' s :
  honest_journal commands -> commands_wf parseEngineJson 1 commands ->
  (length commands < pages)%nat ->
  offset s = Some o -> position o (key_commands 1 commands) ->
  replay (items_after o (key_commands 1 commands)) (db s) = Ok (tt, d') ->
  exists o' s', recover parseEngineJson name market retries pages cause s = (Ok true, s') /\
    path o (items_after o (key_commands 1 commands)).*1 o' /\
    offset s' = Some o' /\ db s' = d' /\ halted s' = halted s /\ world s' = world s /\
    appliedThisRun s' = appliedThisRun s + Z.of_nat (length (items_after o (key_commands 1 commands))).
Proof.
  intros Hhonest Hwf Hfuel Ho Hpos Hr.
  destruct (items_after_split parseEngineJson o commands Hwf Hpos) as (front & o' & Ha & Hk & Hfront & Hp).
  set (a := Z.to_nat _) in *.
  destruct (recover_loop_quiet commands pages a front _ o o' d' 0 s Hhonest Hwf Hk) as (s' & Hrun & Hs');
    try done.
  { rewrite length_drop. lia. }
  exists o'. eexists. split; [|split; [exact Hp|]].
  - unfold recover. rewrite (current_offset_bind _ _ o) by done. unfold mbind at 1, run_bind at 1.
    replace (if seq o >? 0 then seq o - 1 else 0) with (Z.of_nat a).
    + rewrite Hrun. reflexivity.
    + subst a. destruct (Z.gtb_spec (seq o) 0); lia.
  - destruct Hs' as (cs & _ & ->). done.
Qed.

Lemma run_entries_quiet stale fresh o o' d' done s :
  halted s = None -> offset s = Some o -> Forall (fun x => key_le (en_key x) o) stale ->
  path o (en_key <$> fresh) o' -> replay (entryToKeyed <$> fresh) (db s) = Ok (tt, d') ->
  exists s', run_entries parseEngineJson name market retries pages (stale ++ fresh) done s =
    (Ok (done ++ (en_id <$> stale ++ fresh)), s') /\ replayed (entryToKeyed <$> fresh) o' d' s s'.
Proof.
  intros Hh Ho Hstale. revert done s o o' Hh Ho Hstale. induction stale as [|x stale IH]; simpl.
  2: { intros done s o o' Hh Ho [Hx Hs]%Forall_cons Hp Hr. unfold mbind at 1, run_bind at 1, gets. rewrite Hh.
       rewrite (current_offset_bind _ _ o) by done.
       destruct (Z.leb_spec (compareKeys (en_key x) o) 0) as [_|Hgt].
       - destruct (IH (done ++ [en_id x]) s o o' Hh Ho Hs Hp Hr) as (s' & Hrun & Hs').
         exists s'. split; [|done]. by rewrite Hrun, <- app_assoc.
       - exfalso. apply Z.lt_nge in Hgt. exact (Hgt Hx). }
  induction fresh as [|x fresh IH]; simpl; intros done s o o' Hh Ho _ Hp Hr.
  - injection Hr as <-. subst o'. exists s. split; [by rewrite app_nil_r|by apply replayed_nil].
  - destruct Hp as [Hf Hp]. apply (replay_app [entryToKeyed x] (entryToKeyed <$> fresh)) in Hr as (d1 & Hr1 & Hr).
    unfold mbind at 1, run_bind at 1, gets. rewrite Hh. rewrite (current_offset_bind _ _ o) by done.
    destruct (Z.leb_spec (compareKeys (en_key x) o) 0) as [Hle|_]; [by apply follows_not_le in Hf|]. rewrite Hf.
    destruct (applyOne_quiet (entryToKeyed x) o s d1 Ho (follows_not_le _ _ Hf) Hr1) as (s1 & Hrun & Hs1).
    unfold mbind at 1, run_bind at 1. rewrite Hrun. cbn [negb].
    destruct (IH (done ++ [en_id x]) s1 (en_key x) o') as (s2 & Hrun2 & Hs2);
      try (by destruct Hs1 as (? & _ & ->)); try done.
    exists s2. split; [|by apply (replayed_app [entryToKeyed x] _ _ _ _ _ _ _ _ Hs1 Hs2)].
    etrans; [exact Hrun2|]. by rewrite <- app_assoc.
Qed.
End Quiet.

(** ** Sorting a read *)

Lemma insert_entry_perm x l : insert_entry x l ≡ₚ x :: l.
Proof. induction l as [|y l IH]; simpl; [done|]. case_match; [done|]. rewrite IH. apply Permutation_swap. Qed.

Lemma sorted_filter {A} (R : A -> A -> Prop) P `{!forall x, Decision (P x)} (l : list A) :
  StronglySorted R l -> StronglySorted R (filter P l).
Proof.
  induction 1 as [|x l _ IH Hx]; [constructor|]. rewrite filter_cons. case_decide; [|done].
  constructor; [done|]. apply Forall_forall. intros y [_ Hy]%list_elem_of_filter.
  rewrite Forall_forall in Hx. by apply Hx.
Qed.

Lemma sort_entries_perm l : sort_entries l ≡ₚ l.
Proof. induction l as [|x l IH]; simpl; [done|]. by rewrite insert_entry_perm, IH. Qed.

Lemma key_injective (es : list StreamEntry) x y :
  NoDup (en_key <$> es) -> x ∈ es -> y ∈ es -> en_key x = en_key y -> x = y.
Proof.
  induction es as [|z es IH]; intros Hn Hx Hy Hk; [by apply not_elem_of_nil in Hx|].
  apply NoDup_cons in Hn as [Hz Hn].
  apply elem_of_cons in Hx as [->|Hx]; apply elem_of_cons in Hy as [->|Hy]; [done| | |by apply IH];
    destruct Hz; [rewrite Hk|rewrite <- Hk]; by apply list_elem_of_fmap_2.
Qed.

Lemma sort_entries_sorted l : StronglySorted (fun a b => key_le (en_key a) (en_key b)) (sort_entries l).
Proof.
  induction l as [|x l IH]; simpl; [constructor|]. revert IH. generalize (sort_entries l). clear l.
  induction l as [|y l IH]; intros Hs; [repeat constructor|]. simpl. apply StronglySorted_inv in Hs as [Hs Hy].
  destruct (Z.leb_spec (compareKeys (en_key x) (en_key y)) 0) as [Hle|Hgt].
  - repeat constructor; try done. eapply Forall_impl; [exact Hy|]. intros z Hz. by etrans.
  - constructor; [by apply IH|]. apply Forall_forall. intros z [->|Hz]%insert_entry_elem.
    + assert (~ key_le (en_key x) (en_key y)) by (unfold key_le; lia). rewrite key_le_spec in *. lia.
    + rewrite Forall_forall in Hy. by apply Hy.
Qed.

Lemma path_sorted o (es : list StreamEntry) o' :
  path o (en_key <$> es) o' -> StronglySorted (fun a b => key_le (en_key a) (en_key b)) es.
Proof.
  revert o. induction es as [|x es IH]; intros o; simpl; [constructor|]. intros [_ Hp]. constructor; [by eapply IH|].
  apply Forall_forall. intros y Hy.
  destruct (path_not_le _ _ _ (en_key y) Hp) as [Hn _]; [by apply list_elem_of_fmap_2|].
  rewrite key_le_spec in *. lia.
Qed.

(** Sorted, the stale entries come first and the fresh ones in the order of their keys. *)
Lemma sort_entries_split o o' es stale fresh :
  es ≡ₚ stale ++ fresh -> Forall (fun x => key_le (en_key x) o) stale -> path o (en_key <$> fresh) o' ->
  exists stale', stale' ≡ₚ stale /\ sort_entries es = stale' ++ fresh.
Proof.
  intros Hperm Hstale Hp.
  set (P := fun x : StreamEntry => key_le (en_key x) o).
  assert (HP : forall x, Decision (P x)) by (intros x; unfold P, key_le; apply _).
  assert (Hsplit : forall l, StronglySorted (fun a b => key_le (en_key a) (en_key b)) l ->
            l = filter P l ++ filter (fun x => ~ P x) l).
  { induction l as [|x l IH]; intros Hl; [done|]. apply StronglySorted_inv in Hl as [Hs Hx].
    rewrite !filter_cons. destruct (decide (P x)) as [Hpx|Hpx].
    - rewrite (decide_False (P := ~ P x)) by tauto. simpl. f_equal. by apply IH.
    - rewrite (decide_True (P := ~ P x)) by done.
      rewrite (filter_none P l), (filter_all (fun x => ~ P x) l); [done| |].
      all: intros y Hy; rewrite Forall_forall in Hx; specialize (Hx y Hy); intros Hpy; apply Hpx; unfold P in *; by etrans. }
  assert (Hfresh : forall x, x ∈ fresh -> ~ P x).
  { intros x Hx. apply (path_not_le _ _ _ (en_key x) Hp). by apply list_elem_of_fmap_2. }
  assert (Hsort : sort_entries es ≡ₚ stale ++ fresh) by (etrans; [apply sort_entries_perm|done]).
  exists (filter P (sort_entries es)). split.
  - rewrite Hsort, filter_app, (filter_all P stale), (filter_none P fresh), app_nil_r; [done|done|].
    intros x Hx. rewrite Forall_forall in Hstale. by apply Hstale.
  - rewrite (Hsplit (sort_entries es)) at 1 by apply sort_entries_sorted. f_equal.
    assert (Hmem : filter (fun x => ~ P x) (sort_entries es) ≡ₚ fresh).
    { rewrite Hsort, filter_app, (filter_none (fun x => ~ P x) stale), (filter_all (fun x => ~ P x) fresh); try done.
      intros x Hx Hn. apply Hn. rewrite Forall_forall in Hstale. by apply Hstale. }
    apply (StronglySorted_unique_strong (fun a b => key_le (en_key a) (en_key b))).
    + intros x y Hx Hy Hxy Hyx. rewrite Hmem in Hx. apply (key_injective fresh); try done; [by eapply path_NoDup|].
      rewrite key_le_spec in *. destruct (en_key x), (en_key y). simpl in *. f_equal; lia.
    + apply sorted_filter, sort_entries_sorted.
    + by eapply path_sorted.
    + done.
Qed.

(** ** A pass in a calm world *)

Record calm : Prop := {
  calm_connection : no_interference;
  calm_last (w : W) d : exists l w', lastSeq w d = (l, d, w');
  calm_ack ids (w : W) d : exists w', source_ack ids w d = (Ok tt, d, w')
}.

Lemma tail_calm (s : Sys) :
  calm -> exists s', tail s = (Ok (appliedThisRun s), s') /\
    offset s' = offset s /\ halted s' = halted s /\ db s' = db s /\ quiet s s'.
Proof.
  intros Hcalm. pose proof (quiet_tail s) as Hq. revert Hq.
  destruct (calm_last Hcalm (world s) (db s)) as (l & w' & Hl).
  unfold tail, refreshLag, ask, mbind, run_bind, gets. rewrite Hl.
  destruct l, (offset s); simpl; eexists; (split; [reflexivity|]); done.
Qed.

Section Pass.
Context (Hcalm : calm) (commands : list (list value)) (o : EventKey) (d' : Store).
Context (Hhonest : honest_journal commands) (Hwf : commands_wf parseEngineJson 1 commands).
Context (Hpos : position o (key_commands 1 commands)).

Local Abbreviation items := (items_after o (key_commands 1 commands)).

(** What a complete pass leaves behind. *)
Definition caught_up (r : result Z * Sys) : Prop :=
  r.1 = Ok (Z.of_nat (length items)) /\ db r.2 = d' /\ halted r.2 = None /\
  exists o', offset r.2 = Some o' /\ path o items.*1 o'.

Lemma reset_pass s w1 :
  (length commands < pages)%nat -> halted s = None -> offset s = Some o ->
  source_read (world s) (db s) = (Ok reset, db s, w1) -> replay items (db s) = Ok (tt, d') ->
  caught_up (runOnce parseEngineJson name market retries pages s).
Proof.
  intros Hfuel Hh Ho Hread Hr. rewrite (runOnce_pass _ _ _ _ _ s o) by done. unfold pass.
  change (_ ← refreshLag; gets appliedThisRun) with (tail (Event:=Event) (Outcome:=Outcome) (W:=W)).
  rewrite ask_result_bind.
  change (source_read (world (set_applied 0 s).2) (db (set_applied 0 s).2)) with (source_read (world s) (db s)).
  rewrite Hread. set (s1 := left_by_others (db s) w1 ((set_applied 0 s).2)).
  destruct (recover_quiet (calm_connection Hcalm) commands "stream_reset" o d' s1) as (o' & s' & Hrun & Hp & Ho' & Hd & Hh' & _ & Hn);
    try done.
  unfold mbind at 1 2, run_bind at 1 2. rewrite Hrun. simpl.
  destruct (tail_calm s' Hcalm) as (s2 & -> & Ho2 & Hh2 & Hd2 & _). split; [simpl; by rewrite Hn|]. simpl.
  rewrite Hd2, Hh2, Ho2, Hh'. split; [done|]. split; [done|]. by exists o'.
Qed.

Lemma stream_pass s w1 es stale fresh :
  halted s = None -> offset s = Some o ->
  source_read (world s) (db s) = (Ok (read_entries es), db s, w1) -> es <> [] ->
  es ≡ₚ stale ++ fresh -> Forall (fun x => key_le (en_key x) o) stale ->
  Forall2 (fun x it => en_key x = it.1 /\ decode (v_string (en_raw x)) = decode it.2) fresh items ->
  replay items (db s) = Ok (tt, d') ->
  let r := runOnce parseEngineJson name market retries pages s in
  caught_up r /\ exists cs, calls r.2 = calls s ++ cs /\ cs ≫= acks_of ≡ₚ en_id <$> es.
Proof.
  intros Hh Ho Hread Hne Hperm Hstale Hfresh Hr. simpl.
  destruct (items_after_split parseEngineJson o commands Hwf Hpos) as (_ & o' & _ & _ & _ & Hp).
  assert (Hkeys : en_key <$> fresh = items.*1).
  { clear -Hfresh. induction Hfresh as [|x it xs its [Hk _] _ IH]; [done|]. rewrite !fmap_cons, Hk. f_equal. exact IH. }
  assert (Hlen : length fresh = length items) by (by eapply Forall2_length).
  assert (Hr' : replay (entryToKeyed <$> fresh) (db s) = Ok (tt, d')).
  { rewrite <- Hr. apply replay_ext. clear -Hfresh.
    induction Hfresh as [|x it xs its [Hk Hd] _ IH]; simpl; by constructor. }
  rewrite <- Hkeys in Hp. destruct (sort_entries_split o o' es stale fresh Hperm Hstale Hp) as (stale' & Hs' & Hsort).
  rewrite (runOnce_pass _ _ _ _ _ s o) by done. unfold pass.
  change (_ ← refreshLag; gets appliedThisRun) with (tail (Event:=Event) (Outcome:=Outcome) (W:=W)).
  rewrite ask_result_bind.
  change (source_read (world (set_applied 0 s).2) (db (set_applied 0 s).2)) with (source_read (world s) (db s)).
  rewrite Hread. destruct es as [|x es]; [done|].
  set (s1 := left_by_others (db s) w1 ((set_applied 0 s).2)). rewrite Hsort.
  destruct (run_entries_quiet (calm_connection Hcalm) stale' fresh o o' d' [] s1) as (s2 & Hrun & cs & _ & ->);
    try done; [by rewrite Hs'|].
  pose proof (quiet_run_entries parseEngineJson name market retries pages (stale' ++ fresh) [] s1) as (cs' & Hc & Hn).
  rewrite Hrun in Hc. simpl in Hc. apply app_inv_head in Hc as <-.
  unfold mbind at 1 2 3 4, run_bind at 1 2 3 4. rewrite Hrun, acknowledge_run. simpl.
  match goal with |- context [source_ack ?ids ?w ?d] => destruct (calm_ack Hcalm ids w d) as [w2 Hack] end.
  rewrite Hack. simpl.
  match goal with |- context [tail ?s] => destruct (tail_calm s Hcalm) as (s3 & -> & Ho3 & Hh3 & Hd3 & cs3 & Hc3 & Hn3) end.
  simpl in *. split.
  - repeat split; simpl; rewrite ?Hd3, ?Hh3, ?length_fmap, ?Hlen; try done. exists o'. by rewrite Ho3, <- Hkeys.
  - rewrite Hc3. eexists. rewrite <- !app_assoc. split; [done|]. rewrite !bind_app, Hn, Hn3. simpl.
    rewrite !app_nil_r, <- Hsort. exact (fmap_Permutation en_id _ (x :: es) (sort_entries_perm (x :: es))).
Qed.
End Pass.


(** C8: the stream and the journal are one. In a calm world, where nobody else writes, no call or
    connection is lost and acknowledging succeeds, take an engine that serves a well-formed
    journal honestly, in fewer pages than recovery allows, and a read of the stream, not
    empty, that delivers the journal's events after an offset in it, in any order, mixed with
    any entries from before it. If these events can be settled one after the other from the
    tables, so that none of them halts, then of two workers with that offset and these tables,
    neither halted, the one that reads the stream and the one that finds it reset and recovers
    the events from the engine apply equally many, leave the same tables and end at the same
    offset, not halted; and the first acknowledges every entry it read. *)
Theorem stream_equals_journal commands o d' s1 s2 w1 w2 es stale fresh :
  calm -> honest_journal commands -> commands_wf parseEngineJson 1 commands ->
  position o (key_commands 1 commands) -> (length commands < pages)%nat ->
  halted s1 = None -> halted s2 = None -> offset s1 = Some o -> offset s2 = Some o -> db s1 = db s2 ->
  source_read (world s1) (db s1) = (Ok reset, db s1, w1) ->
  source_read (world s2) (db s2) = (Ok (read_entries es), db s2, w2) -> es <> [] ->
  es ≡ₚ stale ++ fresh -> Forall (fun x => key_le (en_key x) o) stale ->
  Forall2 (fun x it => en_key x = it.1 /\ decode (v_string (en_raw x)) = decode it.2)
    fresh (items_after o (key_commands 1 commands)) ->
  replay (items_after o (key_commands 1 commands)) (db s1) = Ok (tt, d') ->
  let r1 := runOnce parseEngineJson name market retries pages s1 in
  let r2 := runOnce parseEngineJson name market retries pages s2 in
  r1.1 = r2.1 /\ db r1.2 = db r2.2 /\ offset r1.2 = offset r2.2 /\ halted r1.2 = None /\ halted r2.2 = None /\
  exists cs, calls r2.2 = calls s2 ++ cs /\ cs ≫= acks_of ≡ₚ en_id <$> es.
Proof.
  intros Hcalm Hhonest Hwf Hpos Hfuel Hh1 Hh2 Ho1 Ho2 Hdb Hr1 Hr2 Hne Hperm Hstale Hfresh Hrep. simpl.
  destruct (reset_pass Hcalm commands o d' Hhonest Hwf Hpos s1 w1 Hfuel Hh1 Ho1 Hr1 Hrep)
    as (Hn1 & Hd1 & Hh1' & o1 & Hof1 & Hp1).
  rewrite Hdb in Hrep.
  destruct (stream_pass Hcalm commands o d' Hwf Hpos s2 w2 es stale fresh Hh2 Ho2 Hr2 Hne Hperm Hstale Hfresh Hrep)
    as ((Hn2 & Hd2 & Hh & o2 & Hof2 & Hp2) & Hacks).
  repeat split; try congruence. rewrite Hof1, Hof2. f_equal. by eapply path_unique.
Qed.
End Replay.
