(* ===== verification/Source.v ===== *)
(** * The engine's event stream

    [apps/api/src/services/settlement/source.ts]: the source of stream entries that the
    consumer reads, over a Redis consumer group. The client of Redis is a parameter: a
    call answers from a state of its own. An entry's [idx], a JavaScript number in the
    code, is its exact value. *)

From Stdlib Require Import ZArith Lia Ascii.
From stdpp Require Import base list strings gmap.
From S2P Require Import Prelude Decimal Store Events Consumer.

Open Scope string_scope.
Open Scope list_scope.
Open Scope Z_scope.

(** ** Entries *)

(** [for (let i = 0; i + 1 < fields.length; i += 2) map.set(fields[i], fields[i + 1])] *)
Fixpoint field_map (fields : list string) (m : gmap string string) : gmap string string :=
  match fields with
  | k :: v :: rest => field_map rest (<[k := v]> m)
  | _ => m
  end.

(** The digits of a field that is present, not empty and matches the pattern of digits. *)
Definition digits_field (m : gmap string string) (name : string) : option Z :=
  match m !! name with
  | Some s =>
      let t := String.list_ascii_of_string s in
      if negb (bool_decide (s = "")) && forallb is_digit t then Some (digits_value t) else None
  | None => None
  end.

Definition parse (id : string) (fields : list string) : result StreamEntry :=
  let m := field_map fields ∅ in
  match digits_field m "seq", digits_field m "idx", m !! "event" with
  | Some seq, Some idx, Some raw => Ok (mkEntry id (mkKey seq idx) raw)
  | _, _, _ => Throw (MalformedStreamEntryError id)
  end.

Fixpoint parse_all (entries : list (string * option (list string))) : result (list StreamEntry) :=
  match entries with
  | [] => Ok []
  | (id, None) :: entries => parse_all entries
  | (id, Some fields) :: entries =>
      entry ← parse id fields;
      rest ← parse_all entries;
      Ok (entry :: rest)
  end.

(** ** Reading *)

(** Where a read starts: this consumer's unacknowledged entries, or what is new. *)
Inductive Cursor := pending_list | new_entries.

#[export] Instance Cursor_eq_dec : EqDecision Cursor.
Proof. solve_decision. Defined.

(** What Redis answers to [XREADGROUP]: the group is gone, another error, or the entries,
    with null fields where the payload was trimmed; nothing when the block timed out. *)
Inductive Answer :=
| NOGROUP
| read_failed (e : error)
| replied (entries : option (list (string * option (list string)))).

(** What it answers to [XGROUP CREATE]: done, the group exists already, or another error. *)
Inductive Created := created | BUSYGROUP | create_failed (e : error).

Record Source := mkSource { groupReady : bool; cursor : Cursor }.

Definition fresh_source : Source := mkSource false pending_list.

Section Redis.
Context {R : Type} (xgroup_create : R -> Created * R) (xreadgroup : Cursor -> R -> Answer * R).

(** The source, the server, and what has been asked of it. *)
Record Reader := mkReader { src : Source; redis : R; requests : list Cursor }.

Definition set_source (f : Source -> Source) (s : Reader) : Reader :=
  mkReader (f (src s)) (redis s) (requests s).

Definition ensureGroup (s : Reader) : result unit * Reader :=
  if groupReady (src s) then (Ok tt, s) else
  let (answer, r) := xgroup_create (redis s) in
  let s := mkReader (src s) r (requests s) in
  match answer with
  | create_failed e => (Throw e, s)
  | _ => (Ok tt, set_source (fun c => mkSource true (cursor c)) s)
  end.

(** [for (;;)]: nothing when the fuel runs out. *)
Fixpoint read_loop (fuel : nat) (s : Reader) : option (result ReadResult) * Reader :=
  match fuel with
  | O => (None, s)
  | S fuel =>
      let c := cursor (src s) in
      let (answer, r) := xreadgroup c (redis s) in
      let s := mkReader (src s) r (requests s ++ [c]) in
      match answer with
      | NOGROUP => (Some (Ok reset), set_source (fun _ => mkSource false pending_list) s)
      | read_failed e => (Some (Throw e), s)
      | replied entries =>
          let entries := default [] entries in
          if bool_decide (c = pending_list) && bool_decide (entries = [])
          then read_loop fuel (set_source (fun c => mkSource (groupReady c) new_entries) s)
          else (Some (read_entries <$> parse_all entries), s)
      end
  end.

Definition read (fuel : nat) (s : Reader) : option (result ReadResult) * Reader :=
  match ensureGroup s with
  | (Ok _, s) => read_loop fuel s
  | (Throw e, s) => (Some (Throw e), s)
  end.

(** ** Lemmas *)

Lemma read_loop_new fuel s :
  cursor (src s) = new_entries ->
  exists r s', read_loop (S fuel) s = (Some r, s') /\ requests s' = requests s ++ [new_entries].
Proof.
  intros Hc. cbn [read_loop]. rewrite Hc. destruct (xreadgroup _ _) as [[|e|entries] r]; simpl; eauto.
Qed.

Lemma read_loop_two s :
  exists r s', read_loop 2 s = (Some r, s') /\
    exists asked, requests s' = requests s ++ asked /\ asked ∈ [[pending_list]; [new_entries]; [pending_list; new_entries]].
Proof.
  destruct (cursor (src s)) eqn:Hc; cycle 1.
  { destruct (read_loop_new 1 s Hc) as (r & s' & H & Hr). exists r, s'. split; [done|].
    exists [new_entries]. split; [done|set_solver]. }
  set (n := 1%nat). cbn [read_loop]. rewrite Hc.
  destruct (xreadgroup _ _) as [[|e|entries] r]; [eexists _, _; split; [done|]; exists [pending_list]; split; [done|set_solver]..|].
  rewrite (bool_decide_eq_true_2 (pending_list = pending_list)) by done. cbn [andb].
  case_bool_decide; cycle 1.
  { eexists _, _; split; [done|]; exists [pending_list]; split; [done|set_solver]. }
  match goal with |- context [read_loop _ ?s1] => destruct (read_loop_new 0 s1 eq_refl) as (r' & s' & H' & Hr) end.
  exists r', s'. split; [exact H'|]. exists [pending_list; new_entries].
  split; [rewrite Hr; simpl; by rewrite <- app_assoc|set_solver].
Qed.

Lemma ensureGroup_requests s : requests (ensureGroup s).2 = requests s.
Proof.
  unfold ensureGroup. case_match; [done|]. destruct (xgroup_create _) as [[| |e] r]; done.
Qed.

(** C37: a read terminates. Whatever Redis answers, the unbounded loop of a read asks it at most twice:
    once for this consumer's unacknowledged entries if it has not drained them, and once
    for new ones. *)
Theorem read_terminates s :
  exists r s', read 2 s = (Some r, s') /\ exists asked,
    requests s' = requests s ++ asked /\
    (asked = [] \/ asked = [pending_list] \/ asked = [new_entries] \/ asked = [pending_list; new_entries]).
Proof.
  unfold read. pose proof (ensureGroup_requests s) as Hq.
  destruct (ensureGroup s) as [[u|e] s1]; simpl in Hq.
  - destruct (read_loop_two s1) as (r & s' & H & asked & Hr & Ha). exists r, s'. split; [done|].
    exists asked. split; [by rewrite Hr, Hq|]. set_solver.
  - exists (Throw e), s1. split; [done|]. exists []. split; [by rewrite app_nil_r|by left].
Qed.
End Redis.

(** ** The engine's entries *)

(** The fields the engine writes. *)
Definition engine_fields (key : EventKey) (raw : string) : list string :=
  ["seq"; String.string_of_list_ascii (to_digits (seq key)); "idx"; String.string_of_list_ascii (to_digits (idx key)); "event"; raw].

Lemma digits_field_to_digits m name n :
  0 <= n -> m !! name = Some (String.string_of_list_ascii (to_digits n)) -> digits_field m name = Some n.
Proof.
  intros Hn Hm. unfold digits_field. rewrite Hm, String.list_ascii_of_string_of_list_ascii.
  rewrite bool_decide_eq_false_2; cycle 1.
  { intros H. apply (f_equal String.list_ascii_of_string) in H.
    rewrite String.list_ascii_of_string_of_list_ascii in H. by apply to_digits_nonempty in H. }
  replace (forallb is_digit (to_digits n)) with true; [by rewrite digits_value_to_digits|].
  symmetry. apply Is_true_eq_true, forallb_True. eapply Forall_impl; [by apply to_digits_digits|]. by intros a ->.
Qed.

(** Entries come back as the engine wrote them, and nothing else is refused but by name. *)
Lemma parse_engine id key raw :
  0 <= seq key -> 0 <= idx key -> parse id (engine_fields key raw) = Ok (mkEntry id key raw).
Proof.
  intros Hs Hi. unfold parse.
  rewrite (digits_field_to_digits _ "seq" (seq key)), (digits_field_to_digits _ "idx" (idx key)) by done.
  simpl. by destruct key.
Qed.
