(* ===== verification/Worker.v ===== *)
(** * The settlement worker

    [apps/api/src/services/settlement/worker.ts]: which errors halt a market, and the
    worker as the instance of [Consumer] that applies events by [Settlement.apply].
    The worker's callbacks only log and count. *)

From Stdlib Require Import ZArith.
From stdpp Require Import base list strings gmap.
From S2P Require Import Prelude Store Events Settlement Consumer.

Open Scope string_scope.
Open Scope list_scope.
Open Scope Z_scope.

(** The constraint violations that are bugs the database caught. *)
Definition violation_codes : list string := ["23514"; "23505"; "23503"].

Definition backtick : string := String (Ascii.ascii_of_nat 96) "".

(** The first match of the pattern for a code in a message. *)
Fixpoint code_in (message : string) : option string :=
  match find (fun c => String.prefix ("Code: " +:+ backtick +:+ c +:+ backtick) message) violation_codes with
  | Some c => Some c
  | None => match message with String _ rest => code_in rest | EmptyString => None end
  end.

Definition constraintHaltReason (e : error) : option string :=
  match e with
  | ConstraintViolation code =>
      if bool_decide (code ∈ violation_codes) then Some ("constraint_" +:+ code) else None
  | e => (fun c => "constraint_" +:+ c) <$> code_in (error_message e)
  end.

Definition haltReason (e : error) : option string :=
  match e with
  | SettlementHaltError reason => Some reason
  | HoldInvariantError reason => Some reason
  | UndecodableEventError _ => Some "undecodable_event"
  | MalformedStreamEntryError _ => Some "malformed_stream_entry"
  | e => constraintHaltReason e
  end.

(** [createSettlementWorker]: what the worker of one market gives its consumer. *)
Definition settlement (parseEngineJson : string -> result value) (market : SettlementMarket)
  : Consumable SettlementEvent ApplyOutcome := {|
  decode := decodeSettlementEvent parseEngineJson;
  seq_of_event := event_seq;
  apply_event := Settlement.apply market;
  Consumer.haltReason := haltReason
|}.

(** The transaction of one event of a market, for the consumer of a name. *)
Definition settle_event (parseEngineJson : string -> result value) (name : string)
  (market : SettlementMarket) (key : EventKey) (event : SettlementEvent) : tx ApplyOutcome :=
  @consume _ _ (settlement parseEngineJson market) name (m_id market) key event.
