(* ===== verification/Books.v ===== *)
(** * The books settlement keeps

    The invariant that ties the order rows, the fill rows and the ledger together,
    and its preservation by every write of [Settlement]: what the ledger has locked
    for a user in an asset is what the user's orders still hold, an order's progress
    is the sum of its fills, a live order holds something and a finished one holds
    nothing, and no trading account is below zero. *)

From S2P Require Import Prelude Risk Decimal Assets Market Orders Ledger Postings States Store Events Settlement.
From Stdlib Require Import ZArith Lia.
From stdpp Require Import base list strings gmap.

Open Scope string_scope.
Open Scope list_scope.
Open Scope Z_scope.

(** ** The invariant *)

(** The orders of one user that hold one asset. *)
Definition order_of (u a : string) (o : OrderRecord) : bool :=
  bool_decide (o_user o = u) && bool_decide (o_holdAsset o = a).

(** What the orders of a user hold of an asset, live or finished. *)
Definition total_held (u a : string) (s : Store) : Z :=
  sum_if (order_of u a) (fun o => outstanding o s) (orders s).

(** Rows refer to rows that exist, and the ledger's locks are the orders' holds. *)
Record wired (s : Store) : Prop := {
  w_ids : NoDup (ids s);
  w_rows : Forall (fun o => order_row_ok o = true) (orders s);
  w_fill_ids : NoDup (Store.f_fillId <$> fills s);
  w_fill_refs : Forall (fun f => f_takerOrderId f ∈ ids s /\ f_makerOrderId f ∈ ids s /\
                                 f_takerOrderId f <> f_makerOrderId f) (fills s);
  w_release_refs : Forall (fun t => kind t = order_release -> referenceId t ∈ ids s) (ledger s);
  w_locks : forall u a, credit_balance (userOrderLocked u a) s = total_held u a s
}.

(** An order's filled quantity is the sum of its fills. [pending] is the quantity of a
    fill that is recorded but not yet counted on the order. *)
Definition progress (pending : string -> Z) (s : Store) : Prop :=
  forall o, o ∈ orders s ->
    o_filledQty o + pending (o_id o) = sum_if (fill_of (o_id o)) Store.f_qty (fills s).

(** A live order holds something and a finished one nothing. *)
Definition hold_agrees (s : Store) (o : OrderRecord) : Prop :=
  if Order.orderHoldsFunds (o_status o) then 0 < outstanding o s else outstanding o s = 0.

Definition trading_nonneg (s : Store) : Prop :=
  forall u a ty, isTradingAccount ty = true -> 0 <= credit_balance (mkAccount (Some u) a ty) s.

Record books_ok (s : Store) : Prop := {
  b_wired : wired s;
  b_progress : progress (fun _ => 0) s;
  b_holds : forall o, o ∈ orders s -> hold_agrees s o;
  b_trading : trading_nonneg s
}.

(** ** Sums over rows *)

(** Changing the summand at one row changes the sum by that much. *)
Lemma sum_if_at {A} (key : A -> string) p (val val' : A -> Z) l x d :
  NoDup (key <$> l) -> x ∈ l ->
  (forall y, y ∈ l -> val' y = val y + (if bool_decide (key y = key x) then d else 0)) ->
  sum_if p val' l = sum_if p val l + (if p x then d else 0).
Proof.
  induction l as [|z l IH]; [set_solver|]. simpl. intros [Hz Hnd]%NoDup_cons Hx Hv.
  rewrite (Hv z) by set_solver. apply elem_of_cons in Hx as [->|Hx].
  - rewrite bool_decide_eq_true_2 by done.
    rewrite (sum_if_ext p p val' val l); [destruct (p z); lia|].
    intros y Hy. split; [done|]. intros _. rewrite Hv by set_solver.
    rewrite bool_decide_eq_false_2; [lia|]. intros Heq. apply Hz. rewrite <- Heq.
    by apply list_elem_of_fmap_2.
  - rewrite bool_decide_eq_false_2.
    + rewrite IH; [destruct (p z); lia|done..|]. intros y Hy. apply Hv. set_solver.
    + intros Heq. apply Hz. rewrite Heq. by apply list_elem_of_fmap_2.
Qed.

(** Replacing one row by one that the sum cannot tell apart changes nothing. *)
Lemma sum_if_set_row p (val : OrderRecord -> Z) o o' l :
  NoDup (o_id <$> l) -> o ∈ l -> o_id o' = o_id o -> p o' = p o -> val o' = val o ->
  sum_if p val (set_row o' l) = sum_if p val l.
Proof.
  intros Hnd Ho Hid Hp Hv. assert (Hu : forall x, x ∈ l -> o_id x = o_id o' -> x = o).
  { intros x Hx Heq. eapply (row_unique o_id); eauto. congruence. }
  clear Hnd Ho. induction l as [|x l IH]; [done|]. simpl. rewrite IH by (intros; apply Hu; set_solver).
  case_bool_decide as Hx; [|done]. apply Hu in Hx; [|set_solver]. subst. by rewrite Hp, Hv.
Qed.

(** ** What each write does to a hold *)

Lemma all_entries_app s t : all_entries (set_ledger (ledger s ++ [t]) s) = all_entries s ++ entries t.
Proof. unfold all_entries. simpl. rewrite map_app, join_app. simpl. by rewrite app_nil_r. Qed.

Lemma credit_balance_app r s t :
  credit_balance r (set_ledger (ledger s ++ [t]) s) = credit_balance r s - net (on_account r) (entries t).
Proof. unfold credit_balance. rewrite all_entries_app, net_app. lia. Qed.

Lemma released_app id s t :
  released id (set_ledger (ledger s ++ [t]) s) = released id s + release_debits id t.
Proof. unfold released. simpl. rewrite sum_if_app. simpl. lia. Qed.

Lemma consumed_app o s f :
  consumed o (set_fills (fills s ++ [f]) s) =
  consumed o s + (if fill_of (o_id o) f then consumed_by o f else 0).
Proof. unfold consumed. simpl. rewrite sum_if_app. simpl. lia. Qed.

Lemma release_debits_other id t : kind t <> order_release -> release_debits id t = 0.
Proof. intros Hk. unfold release_debits, same_reference. by rewrite bool_decide_eq_false_2. Qed.

(** An order's hold depends only on its terms and on the fills and the ledger. *)
Lemma outstanding_terms o o' s s' :
  same_terms o o' -> fills s' = fills s -> ledger s' = ledger s -> outstanding o' s' = outstanding o s.
Proof.
  intros (Hid & _ & Hsd & _ & _ & _ & _ & _ & Hh) Hf Hl.
  unfold outstanding, consumed, released. rewrite Hid, Hh, Hf, Hl. f_equal. f_equal.
  apply sum_if_ext. intros f _. split; [done|]. intros _. unfold consumed_by. by rewrite Hid, Hsd.
Qed.

Lemma same_terms_refl o : same_terms o o.
Proof. by repeat split. Qed.

(** ** Updating one order row *)

Section RowStep.
Context (o o' : OrderRecord) (s s' : Store) (Hstep : row_step o o' s s').

Lemma row_step_fills : fills s' = fills s /\ ledger s' = ledger s.
Proof. destruct Hstep as [_ _ _ ->]. done. Qed.

Lemma row_step_id : o_id o' = o_id o.
Proof. by destruct Hstep as [_ [? _] _ _]. Qed.

Lemma row_step_ids : ids s' = ids s.
Proof. destruct Hstep as [_ _ _ ->]. simpl. by rewrite set_row_ids. Qed.

Lemma row_step_elem x :
  NoDup (ids s) -> x ∈ orders s' <-> x = o' \/ (x ∈ orders s /\ o_id x <> o_id o).
Proof.
  intros Hnd. pose proof row_step_id as Hid. destruct Hstep as [Ho _ _ ->]. by apply set_row_elem.
Qed.

Lemma row_step_outstanding x : outstanding x s' = outstanding x s.
Proof. apply outstanding_terms; [apply same_terms_refl|apply row_step_fills..]. Qed.

Lemma row_step_credit r : credit_balance r s' = credit_balance r s.
Proof. unfold credit_balance, all_entries. by destruct row_step_fills as [_ ->]. Qed.

Lemma row_step_wired : wired s -> wired s'.
Proof.
  intros [Hnd Hrows Hfids Hfr Hrr Hlocks]. destruct row_step_fills as [Hf Hl].
  pose proof row_step_ids as Hids. split; rewrite ?Hids, ?Hf, ?Hl; try done.
  - apply Forall_forall. intros x Hx%row_step_elem; [|done].
    destruct Hx as [->|[Hx _]]; [by destruct Hstep|]. by rewrite Forall_forall in Hrows; apply Hrows.
  - intros u a. rewrite row_step_credit, Hlocks. unfold total_held.
    pose proof row_step_outstanding as Hout. destruct Hstep as [Ho Ht _ Hs]. rewrite Hs in *. simpl.
    rewrite (sum_if_set_row _ _ o); [|done|done|apply Ht| |].
    + apply sum_if_ext. intros x _. split; [done|]. intros _. symmetry. apply Hout.
    + destruct Ht as (_ & Hu & _ & _ & _ & _ & _ & Ha & _). unfold order_of. by rewrite Hu, Ha.
    + rewrite !Hout. by apply outstanding_terms.
Qed.

Lemma row_step_progress pending :
  NoDup (ids s) -> progress pending s ->
  progress (fun id => pending id - (if bool_decide (id = o_id o) then o_filledQty o' - o_filledQty o else 0)) s'.
Proof.
  intros Hnd Hp x Hx%row_step_elem; [|done]. destruct row_step_fills as [-> _].
  destruct Hx as [->|[Hx Hne]].
  - rewrite row_step_id, bool_decide_eq_true_2 by done.
    rewrite <- (Hp o) by (by destruct Hstep). lia.
  - rewrite bool_decide_eq_false_2 by done. rewrite <- (Hp x) by done. lia.
Qed.
End RowStep.

(** ** Posting a release *)

Lemma hold_release_net r i t :
  postOrderRelease i = Ok t ->
  kind t = order_release /\ referenceId t = o_orderId i /\ release_debits (o_orderId i) t = o_amount i /\
  0 < o_amount i /\
  net (on_account r) (entries t) =
    (if bool_decide (userOrderLocked (o_userId i) (o_asset i) = r) then o_amount i else 0)
    - (if bool_decide (userTradingAvailable (o_userId i) (o_asset i) = r) then o_amount i else 0).
Proof.
  intros H. inv_post H. split; [done|]. split; [done|]. split.
  - unfold release_debits, same_reference. simpl. rewrite !bool_decide_eq_true_2 by done. simpl. lia.
  - split; [done|]. unfold net, on_account, signedAmount. simpl. repeat case_bool_decide; lia.
Qed.

(** A lock account and a trading account are never the same. *)
Lemma locked_ne_available u a u' a' : userTradingAvailable u a <> userOrderLocked u' a'.
Proof. done. Qed.

Lemma locked_eq u a u' a' :
  bool_decide (userOrderLocked u a = userOrderLocked u' a') = bool_decide (u = u') && bool_decide (a = a').
Proof.
  repeat case_bool_decide; simplify_eq/=; try done; unfold userOrderLocked in *; congruence.
Qed.

Lemma release_step o s t n :
  wired s -> o ∈ orders s ->
  postOrderRelease (mkHold (o_id o) (o_user o) (o_holdAsset o) n) = Ok t ->
  let s' := set_ledger (ledger s ++ [t]) s in
  wired s' /\ forall x, outstanding x s' =
    outstanding x s + (if bool_decide (o_id x = o_id o) then - n else 0).
Proof.
  intros [Hnd Hrows Hfids Hfr Hrr Hlocks] Ho Ht s'.
  pose proof (fun r => hold_release_net r _ _ Ht) as Hnet.
  destruct (Hnet (userOrderLocked "" "")) as (Hk & Href & Hdeb & _ & _). simpl in Href, Hdeb.
  assert (Hout : forall x, outstanding x s' = outstanding x s + (if bool_decide (o_id x = o_id o) then - n else 0)).
  { intros x. unfold outstanding, s'. rewrite released_app. case_bool_decide as Hx.
    - rewrite Hx, Hdeb. change (consumed x (set_ledger _ s)) with (consumed x s). lia.
    - change (consumed x (set_ledger _ s)) with (consumed x s).
      unfold release_debits, same_reference. rewrite (bool_decide_eq_false_2 (referenceId t = _)) by congruence.
      rewrite andb_false_r. lia. }
  split; [|exact Hout]. split; try done.
  - simpl. apply Forall_app. split; [done|]. constructor; [|constructor]. intros _. rewrite Href.
    by apply list_elem_of_fmap_2.
  - intros u a. unfold s' at 1. rewrite credit_balance_app, Hlocks.
    destruct (Hnet (userOrderLocked u a)) as (_ & _ & _ & _ & ->).
    rewrite (bool_decide_eq_false_2 _ (locked_ne_available _ _ _ _)), locked_eq. simpl. unfold total_held.
    rewrite (sum_if_at o_id _ (fun x => outstanding x s) (fun x => outstanding x s') _ o (- n)); try done.
    unfold order_of. destruct (bool_decide (o_user o = u)), (bool_decide (o_holdAsset o = a)); simpl; lia.
Qed.

Lemma postLedger_Ok p s u s' :
  postLedger p s = Ok (u, s') ->
  exists t, p = Ok t /\ s' = set_ledger (ledger s ++ [t]) s /\
    forallb (fun e => 0 <? amount e) (entries t) = true /\
    (kind t = order_release \/ kind t = trade_settle ->
     forall t', t' ∈ ledger s -> same_reference (kind t) (referenceId t) t' = false).
Proof.
  intros H. unfold postLedger, postTransaction in H. inv_tx. eexists. split; [done|]. split; [done|].
  zbool. split; [done|]. intros Hk t' Ht'.
  match goal with H : _ && existsb _ _ = false |- _ => apply andb_false_iff in H as [H|H] end.
  - exfalso. destruct Hk as [Hk|Hk]; rewrite Hk in *; done.
  - apply not_true_iff_false. intros Hs.
    match goal with H : existsb _ _ = false |- _ => apply not_true_iff_false in H; apply H end.
    apply existsb_exists. exists t'. split; [by apply list_elem_of_In|done].
Qed.

Lemma outstandingHold_row o s r s' :
  NoDup (ids s) -> o ∈ orders s -> outstandingHold (o_id o) s = Ok (r, s') ->
  r = Some (outstanding o s) /\ s' = s.
Proof.
  intros Hnd Ho H. unfold outstandingHold in H. inv_tx.
  match goal with H : findById _ _ = _ |- _ =>
    rewrite findById_row in H by done; injection H as <- <- end. done.
Qed.

(** The one release function returns what the order still holds, and leaves it nothing. *)
Lemma releaseOutstanding_Ok o b s n s' :
  wired s -> o ∈ orders s -> releaseOutstanding o b s = Ok (n, s') ->
  n = outstanding o s /\ 0 <= n /\ (b = true -> n = o_holdAmount o) /\
  orders s' = orders s /\ fills s' = fills s /\ wired s' /\
  forall x, outstanding x s' = outstanding x s + (if bool_decide (o_id x = o_id o) then - n else 0).
Proof.
  intros Hw Ho H. unfold releaseOutstanding in H. inv_tx.
  match goal with H : outstandingHold _ _ = _ |- _ =>
    apply (outstandingHold_row o s _ _ (w_ids s Hw) Ho) in H as [-> ->] end. inv_tx. zbool.
  assert (Hb : b = true -> outstanding o s = o_holdAmount o).
  { intros ->. simpl in *. zbool. done. }
  destruct (Z.eqb_spec (outstanding o s) 0) as [Hz|Hz]; inv_tx.
  - split; [lia|]. split; [lia|]. split; [intros Hr; rewrite <- Hb; done|].
    split; [done|]. split; [done|]. split; [done|]. intros x. case_bool_decide; lia.
  - match goal with H : postLedger _ _ = _ |- _ => apply postLedger_Ok in H as (t & Ht & -> & _ & _) end.
    destruct (release_step o s t _ Hw Ho Ht) as [Hw' Hout].
    split; [done|]. split; [lia|]. split; [done|]. done.
Qed.

(** What the release moves: what was outstanding, from the lock back to available. *)
Lemma releaseOutstanding_credit o b s n s' r :
  wired s -> o ∈ orders s -> releaseOutstanding o b s = Ok (n, s') ->
  credit_balance r s' = credit_balance r s
    + (if bool_decide (userTradingAvailable (o_user o) (o_holdAsset o) = r) then n else 0)
    - (if bool_decide (userOrderLocked (o_user o) (o_holdAsset o) = r) then n else 0).
Proof.
  intros Hw Ho H. unfold releaseOutstanding in H. inv_tx.
  match goal with H : outstandingHold _ _ = _ |- _ =>
    apply (outstandingHold_row o s _ _ (w_ids s Hw) Ho) in H as [-> ->] end. inv_tx. zbool.
  destruct (Z.eqb_spec (outstanding o s) 0) as [Hz|Hz]; inv_tx; [repeat case_bool_decide; lia|].
  match goal with H : postLedger _ _ = _ |- _ => apply postLedger_Ok in H as (t & Ht & -> & _ & _) end.
  rewrite credit_balance_app. destruct (hold_release_net r _ _ Ht) as (_ & _ & _ & _ & ->). simpl.
  repeat case_bool_decide; lia.
Qed.

(** ** Recording a fill and its trade *)

Lemma fillAmounts_sides f a :
  fillAmounts f = Ok a ->
  buyerFee a = (if bool_decide (Orders.f_takerSide f = buy) then takerFee a else makerFee a) /\
  sellerFee a = (if bool_decide (Orders.f_takerSide f = buy) then makerFee a else takerFee a).
Proof.
  unfold fillAmounts. destruct (_ <=? 0); [done|]. destruct (_ <=? 0); [done|].
  intros H. inv_ok. done.
Qed.

Lemma insertFill_Ok f s r s' :
  insertFill f s = Ok (r, s') ->
  match r with
  | already_settled => s' = s /\ Store.f_fillId f ∈ Store.f_fillId <$> fills s
  | inserted => s' = set_fills (fills s ++ [f]) s /\ fill_row_ok f = true /\
      Store.f_fillId f ∉ Store.f_fillId <$> fills s
  end.
Proof.
  intros H. unfold insertFill in H. inv_tx. zbool.
  destruct (existsb _ (fills s)) eqn:E; inv_tx.
  - split; [done|]. apply existsb_exists in E as (g & Hg%list_elem_of_In & Heq). zbool.
    rewrite <- Heq. by apply list_elem_of_fmap_2.
  - split; [done|]. split; [done|]. intros (g & Heq & Hg)%list_elem_of_fmap.
    apply not_true_iff_false in E. apply E. apply existsb_exists. exists g.
    split; [by apply list_elem_of_In|]. by apply bool_decide_eq_true.
Qed.

Section FillStep.
Context (market : SettlementMarket) (key : EventKey) (event : FillEvent)
  (taker maker : OrderRecord) (amounts : FillAmounts) (s : Store) (t : LedgerTransaction).

Let buyer := if bool_decide (ev_takerSide event = buy) then taker else maker.
Let seller := if bool_decide (ev_takerSide event = buy) then maker else taker.
Let row := fill_row market key event taker maker amounts.
Let s1 := set_fills (fills s ++ [row]) s.
Let s2 := set_ledger (ledger s1 ++ [t]) s1.

Context (Hw : wired s) (Htaker : taker ∈ orders s) (Hmaker : maker ∈ orders s)
  (Hne : o_id taker <> o_id maker)
  (Hside : o_side taker = ev_takerSide event) (Hsides : o_side maker <> o_side taker)
  (Hquote : o_holdAsset buyer = m_quoteAsset market)
  (Hbase : o_holdAsset seller = m_baseAsset market)
  (Hbf : buyerFee amounts = if bool_decide (ev_takerSide event = buy) then takerFee amounts else makerFee amounts)
  (Hnew : Store.f_fillId row ∉ Store.f_fillId <$> fills s)
  (Hpost : postTradeSettlement (trade_of market event buyer seller amounts) = Ok t).

(** What the fill takes from the two orders' holds. *)
Definition taken_from_taker : Z :=
  if bool_decide (ev_takerSide event = buy) then fa_notional amounts + buyerFee amounts else ev_qty event.
Definition taken_from_maker : Z :=
  if bool_decide (ev_takerSide event = buy) then ev_qty event else fa_notional amounts + buyerFee amounts.

Lemma fill_step_consumed x :
  x ∈ orders s ->
  (if fill_of (o_id x) row then consumed_by x row else 0) =
  (if bool_decide (o_id x = o_id taker) then taken_from_taker else 0) +
  (if bool_decide (o_id x = o_id maker) then taken_from_maker else 0).
Proof.
  intros Hx. unfold fill_of, consumed_by, row. simpl.
  rewrite (bool_decide_ext (o_id taker = o_id x) (o_id x = o_id taker)) by done.
  rewrite (bool_decide_ext (o_id maker = o_id x) (o_id x = o_id maker)) by done.
  unfold taken_from_taker, taken_from_maker. rewrite Hbf.
  destruct (decide (o_id x = o_id taker)) as [Ht|Ht].
  - assert (x = taker) as -> by (eapply (row_unique o_id); eauto; apply Hw).
    rewrite (bool_decide_eq_false_2 (o_id taker = o_id maker)) by done.
    rewrite bool_decide_eq_true_2 by done. simpl. rewrite Hside. destruct (ev_takerSide event); simpl; lia.
  - rewrite (bool_decide_eq_false_2 (o_id x = o_id taker)) by done.
    destruct (decide (o_id x = o_id maker)) as [Hm|Hm].
    + assert (x = maker) as -> by (eapply (row_unique o_id); eauto; apply Hw).
      rewrite bool_decide_eq_true_2 by done. rewrite Hside in Hsides. simpl.
      destruct (o_side maker), (ev_takerSide event); simpl; try done; lia.
    + rewrite bool_decide_eq_false_2 by done. done.
Qed.

Lemma fill_step_outstanding x :
  x ∈ orders s ->
  outstanding x s2 = outstanding x s +
    (if bool_decide (o_id x = o_id taker) then - taken_from_taker else 0) +
    (if bool_decide (o_id x = o_id maker) then - taken_from_maker else 0).
Proof.
  intros Hx. pose proof (fill_step_consumed x Hx) as Hc. unfold outstanding, s2.
  rewrite released_app, release_debits_other.
  - change (consumed x (set_ledger _ s1)) with (consumed x s1). unfold s1. rewrite consumed_app, Hc.
    change (released (o_id x) (set_fills _ s)) with (released (o_id x) s). repeat case_bool_decide; lia.
  - apply postTradeSettlement_Ok in Hpost as [_ ->]. done.
Qed.

Lemma fill_step_progress :
  progress (fun _ => 0) s -> progress (fun id => if fill_of id row then ev_qty event else 0) s2.
Proof.
  intros Hp x Hx. unfold s2, s1. simpl. rewrite sum_if_app, <- (Hp x Hx). simpl. lia.
Qed.

Lemma fill_step_wired : wired s2.
Proof.
  pose proof Hw as [Hnd Hrows Hfids Hfr Hrr Hlocks]. split; try done; simpl.
  - rewrite fmap_app. apply NoDup_app. split; [done|]. split; [|apply NoDup_singleton].
    intros y Hy ->%list_elem_of_singleton. done.
  - apply Forall_app. split; [done|]. constructor; [|constructor]. unfold row. simpl.
    split; [by apply list_elem_of_fmap_2|]. split; [by apply list_elem_of_fmap_2|done].
  - apply Forall_app. split; [done|]. constructor; [|constructor].
    apply postTradeSettlement_Ok in Hpost as [_ ->]. done.
  - intros u a. unfold s2 at 1. rewrite credit_balance_app.
    change (credit_balance (userOrderLocked u a) s1) with (credit_balance (userOrderLocked u a) s).
    rewrite Hlocks. rewrite (trade_settlement_effect_net _ _ _ Hpost).
    rewrite !(bool_decide_eq_false_2 _ (locked_ne_available _ _ _ _)), !locked_eq.
    rewrite (bool_decide_eq_false_2 (houseTradingFees _ = _)) by done. simpl. unfold total_held.
    change (orders s2) with (orders s).
    rewrite (sum_if_at o_id _
      (fun x => outstanding x s + (if bool_decide (o_id x = o_id taker) then - taken_from_taker else 0))
      (fun x => outstanding x s2) (orders s) maker (- taken_from_maker) Hnd Hmaker fill_step_outstanding).
    rewrite (sum_if_at o_id _ (fun x => outstanding x s)
      (fun x => outstanding x s + (if bool_decide (o_id x = o_id taker) then - taken_from_taker else 0))
      (orders s) taker (- taken_from_taker) Hnd Htaker (fun _ _ => eq_refl)).
    generalize (sum_if (order_of u a) (fun x => outstanding x s) (orders s)). intros held0.
    rewrite <- Hquote, <- Hbase. unfold order_of, taken_from_taker, taken_from_maker, buyer, seller.
    destruct (ev_takerSide event); simpl;
      destruct (bool_decide (o_user taker = u)), (bool_decide (o_user maker = u)),
        (bool_decide (o_holdAsset taker = a)), (bool_decide (o_holdAsset maker = a)); simpl; lia.
Qed.
End FillStep.

(** ** The steps of the applier *)

(** Reading the rates writes at most a snapshot. *)
Lemma feeRatesFor_Ok u q ts s r s' :
  feeRatesFor u q ts s = Ok (r, s') -> exists ss, s' = set_snapshots ss s.
Proof.
  assert (Hfind : forall u q d s r s', findTierSnapshot u q d s = Ok (r, s') -> s' = s).
  { intros u' q' d' s0 r' s0' H. unfold findTierSnapshot in H. by inv_tx. }
  assert (Hid : exists ss, s = set_snapshots ss s) by (exists (snapshots s); by destruct s).
  intros H. unfold feeRatesFor, quoteVolume, insertTierSnapshot in H. inv_tx.
  repeat (match goal with
  | H : findTierSnapshot _ _ _ _ = _ |- _ => apply Hfind in H as ->
  | H : match ?x with Some _ => _ | None => _ end _ = Ok _ |- _ => destruct x
  end; inv_tx); eauto.
Qed.

Lemma load_Ok id m s o s' :
  load id m s = Ok (o, s') -> s' = s /\ o ∈ orders s /\ o_id o = id /\ o_market o = m_id m.
Proof.
  unfold load, halt_if, halt. intros H. inv_tx. zbool.
  match goal with H : findById _ _ = _ |- _ => apply findById_Ok in H as [-> Hr] end.
  match type of Hr with match ?r with _ => _ end => destruct r end; inv_tx. zbool. naive_solver.
Qed.

(** Recording a fill moves the one row it names by the traded quantity, from a live status,
    to [FILLED] exactly when nothing remains. *)
Definition recorded (traded : Z) (o o' : OrderRecord) (s s' : Store) : Prop :=
  row_step o o' s s' /\ o_filledQty o' = o_filledQty o + traded /\ o_filledQty o' <= o_qty o /\
  Order.orderHoldsFunds (o_status o) = true /\
  (o_status o' = Order.FILLED <-> o_filledQty o' = o_qty o) /\
  (o_status o' <> Order.FILLED -> Order.orderHoldsFunds (o_status o') = true).

Lemma record_attempt_Ok o traded key s r s' :
  NoDup (ids s) -> o ∈ orders s -> o_filledQty o + traded <= o_qty o ->
  record_attempt o (o_filledQty o + traded) key s = Ok (r, s') ->
  (r = None /\ s' = s) \/ exists o', r = Some o' /\ recorded traded o o' s s'.
Proof.
  intros Hnd Ho Hle H. unfold record_attempt in H.
  assert (Hrow : forall x, x ∈ orders s -> o_id x = o_id o -> x = o).
  { intros x Hx Hid. by eapply (row_unique o_id). }
  destruct (Z.eqb_spec (o_filledQty o + traded) (o_qty o)) as [Hc|Hc];
    destruct (o_status o) eqn:Hs; try discriminate H;
    first [apply transition_Ok in H as [_ [H|(x & Hid & _ & -> & Hst)]]; [| |done]
          |apply recordFill_Ok in H as [H|(x & Hid & Hxs & _ & -> & Hst)]; [| |done]];
    (by left) || (right; eexists; split; [done|]; pose proof Hst as [Hx _ _ _];
      apply Hrow in Hx as ->; [|done]; split; [done|]; simpl; rewrite ?Hs; repeat split; done || lia).
Qed.

Lemma record_loop_Ok n o traded key s o' s' :
  NoDup (ids s) -> o ∈ orders s -> record_loop n o traded key s = Ok (o', s') -> recorded traded o o' s s'.
Proof.
  intros Hnd Ho. induction n as [|n IH]; simpl; [done|]. unfold halt_if. intros H. inv_tx.
  match goal with H : (_ >? _) = false |- _ => rewrite Z.gtb_ltb in H; apply Z.ltb_ge in H end.
  match goal with H : record_attempt _ _ _ _ = _ |- _ =>
    apply record_attempt_Ok in H as [[-> ->]|(o1 & -> & Hrec)]; [| |done..] end; inv_tx; [|done].
  match goal with H : findById _ _ = _ |- _ => rewrite findById_row in H by done; injection H as <- <- end.
  by apply IH.
Qed.

(** What is left of the books' agreement while an event is being applied: an order not in
    [open] agrees with its hold. *)
Definition agrees_except (open : list string) (s : Store) : Prop :=
  forall o, o ∈ orders s -> o_id o ∉ open -> hold_agrees s o.

Lemma agrees_weaken open open' s : open ⊆ open' -> agrees_except open s -> agrees_except open' s.
Proof. intros Hsub H o Ho Hni. apply H; set_solver. Qed.

Lemma row_step_agrees o o' s s' open :
  NoDup (ids s) -> row_step o o' s s' -> o_id o ∈ open -> agrees_except open s -> agrees_except open s'.
Proof.
  intros Hnd Hst Hin H x Hx Hni. apply (row_step_elem o o' s s' Hst x Hnd) in Hx as [->|[Hx _]].
  - rewrite (row_step_id o o' s s' Hst) in Hni. done.
  - specialize (H x Hx Hni). unfold hold_agrees in *. by rewrite (row_step_outstanding o o' s s' Hst).
Qed.

Lemma release_agrees o b s n s' open :
  wired s -> o ∈ orders s -> releaseOutstanding o b s = Ok (n, s') ->
  o_id o ∈ open -> agrees_except open s -> agrees_except open s'.
Proof.
  intros Hw Ho H Hin Ha x Hx Hni.
  destruct (releaseOutstanding_Ok o b s n s' Hw Ho H) as (_ & _ & _ & Hord & _ & _ & Hout).
  rewrite Hord in Hx. specialize (Ha x Hx Hni). unfold hold_agrees in *.
  rewrite Hout, bool_decide_eq_false_2 by (intros Heq; by rewrite Heq in Hni).
  by rewrite Z.add_0_r.
Qed.

Lemma recordFill_elem o o' s s' : row_step o o' s s' -> NoDup (ids s) -> o' ∈ orders s'.
Proof. intros Hst Hnd. apply (row_step_elem o o' s s' Hst o' Hnd). by left. Qed.

(** One side of a fill. *)
Lemma record_side_Ok o traded key s u s' pending open :
  wired s -> o ∈ orders s -> o_id o ∈ open -> agrees_except open s -> progress pending s ->
  record_side o traded key s = Ok (u, s') ->
  wired s' /\ agrees_except open s' /\
  progress (fun id => pending id - (if bool_decide (id = o_id o) then traded else 0)) s' /\
  fills s' = fills s /\
  (forall x, x ∈ orders s -> o_id x <> o_id o -> x ∈ orders s').
Proof.
  intros Hw Ho Hin Ha Hp H. unfold record_side, recordFill in H. inv_tx.
  match goal with H : record_loop _ _ _ _ _ = _ |- _ =>
    apply (record_loop_Ok _ _ _ _ _ _ _ (w_ids s Hw) Ho) in H as (Hst & Hq & _) end.
  match goal with H : row_step _ ?y _ ?z |- _ => rename y into o1; rename z into s1 end.
  assert (Hw1 : wired s1) by exact (row_step_wired _ _ _ _ Hst Hw).
  assert (Ha1 : agrees_except open s1) by exact (row_step_agrees _ _ _ _ _ (w_ids s Hw) Hst Hin Ha).
  pose proof (row_step_progress _ _ _ _ Hst _ (w_ids s Hw) Hp) as Hp1.
  replace (o_filledQty o1 - o_filledQty o) with traded in Hp1 by lia.
  destruct (row_step_fills _ _ _ _ Hst) as [Hf1 _].
  assert (Hmem : forall x, x ∈ orders s -> o_id x <> o_id o -> x ∈ orders s1).
  { intros x Hx Hne. apply (row_step_elem _ _ _ _ Hst x (w_ids s Hw)). by right. }
  case_bool_decide; inv_tx; [|by split_and!].
  pose proof (recordFill_elem _ _ _ _ Hst (w_ids s Hw)) as Ho1.
  match goal with H : releaseOutstanding _ _ _ = Ok (?n, ?s2) |- _ => rename H into Hrel;
    destruct (releaseOutstanding_Ok o1 false s1 n s2 Hw1 Ho1 Hrel) as (_ & _ & _ & Hord & Hf2 & Hw2 & _) end.
  split; [done|]. split; [|split; [|split]].
  - eapply release_agrees; [exact Hw1|exact Ho1|exact Hrel| |exact Ha1].
    by rewrite (row_step_id _ _ _ _ Hst).
  - intros y Hy. rewrite Hord in Hy. rewrite Hf2. by apply Hp1.
  - congruence.
  - rewrite Hord. exact Hmem.
Qed.

Lemma assertHoldAgrees_Ok id s u s' :
  NoDup (ids s) -> assertHoldAgrees id s = Ok (u, s') ->
  s' = s /\ exists o, o ∈ orders s /\ o_id o = id /\ hold_agrees s o.
Proof.
  intros Hnd H. unfold assertHoldAgrees, halt_if in H. inv_tx.
  match goal with H : findById _ _ = Ok (?r, _) |- _ => apply findById_Ok in H as [-> Hr]; destruct r as [o|] end;
    [|done]. destruct Hr as [Ho <-].
  match goal with H : outstandingHold _ _ = _ |- _ => apply (outstandingHold_row o s _ _ Hnd Ho) in H as [-> ->] end.
  unfold hold_agrees. destruct (Order.orderHoldsFunds (o_status o)) eqn:Hs; inv_tx; zbool;
    (split; [done|]); exists o; rewrite Hs; done.
Qed.

Lemma agrees_close id open s :
  NoDup (ids s) -> (exists o, o ∈ orders s /\ o_id o = id /\ hold_agrees s o) ->
  agrees_except (id :: open) s -> agrees_except open s.
Proof.
  intros Hnd (o & Ho & Hid & Hh) H x Hx Hni. destruct (decide (o_id x = id)) as [Heq|Hne].
  - assert (x = o) as ->; [|done]. eapply (row_unique o_id); eauto. congruence.
  - apply H; [done|]. set_solver.
Qed.

(** The books between events, without the sign of the trading accounts. *)
Definition core (s : Store) : Prop := wired s /\ progress (fun _ => 0) s /\ agrees_except [] s.

Lemma finish_loop_Ok n o allowed to rr s b s' :
  NoDup (ids s) -> o ∈ orders s -> finish_loop n o allowed to rr s = Ok (b, s') ->
  (b = false /\ s' = s /\ o_status o = to) \/
  (b = true /\ o_status o ∈ allowed /\ Order.isTerminalOrder (o_status o) = false /\
   Order.canOrderTransition (o_status o) to = true /\
   exists s1 m, row_step o (patch_order to (mkPatch None None rr) o) s s1 /\
     releaseOutstanding (patch_order to (mkPatch None None rr) o) false s1 = Ok (m, s')).
Proof.
  intros Hnd Ho. induction n as [|n IH]; simpl; [done|]. intros H.
  case_bool_decide as Hto; [inv_tx; by left|]. unfold halt_if in H. inv_tx. zbool.
  match goal with H : transition _ _ _ _ _ = _ |- _ =>
    apply (transition_Ok _ _ _ _ _ _ _ Hnd) in H as [Hcan [[-> ->]|(x & Hid & _ & -> & Hst)]] end.
  - inv_tx. match goal with H : findById _ _ = _ |- _ =>
      rewrite findById_row in H by done; injection H as <- <- end. by apply IH.
  - inv_tx. assert (x = o) as -> by (eapply (row_unique o_id); eauto; by destruct Hst).
    right. split_and!; eauto.
Qed.

Lemma dispose_core o allowed to rr s out s' :
  core s -> o ∈ orders s -> dispose o allowed to rr s = Ok (out, s') -> core s'.
Proof.
  intros (Hw & Hp & Ha) Ho H. unfold dispose, finish in H. inv_tx.
  match goal with H : finish_loop _ _ _ _ _ _ = _ |- _ =>
    apply (finish_loop_Ok _ _ _ _ _ _ _ _ (w_ids s Hw) Ho) in H
      as [(_ & -> & _)|(-> & _ & _ & _ & s1 & m & Hst & Hrel)] end.
  { match goal with H : assertHoldAgrees _ _ = _ |- _ =>
      apply (assertHoldAgrees_Ok _ _ _ _ (w_ids s Hw)) in H as [-> _] end. done. }
  pose proof (row_step_wired _ _ _ _ Hst Hw) as Hw1.
  pose proof (recordFill_elem _ _ _ _ Hst (w_ids s Hw)) as Ho1.
  assert (Ha1 : agrees_except [o_id o] s1).
  { apply (row_step_agrees _ _ _ _ _ (w_ids s Hw) Hst); [set_solver|]. apply (agrees_weaken []); [set_solver|done]. }
  pose proof (row_step_progress _ _ _ _ Hst _ (w_ids s Hw) Hp) as Hp1.
  destruct (releaseOutstanding_Ok _ _ _ _ _ Hw1 Ho1 Hrel) as (_ & _ & _ & Hord & Hf2 & Hw2 & _).
  match goal with H : assertHoldAgrees _ _ = _ |- _ =>
    apply (assertHoldAgrees_Ok _ _ _ _ (w_ids _ Hw2)) in H as [-> Hclose] end.
  split; [done|]. split.
  - intros y Hy. rewrite Hord in Hy. rewrite Hf2, <- (Hp1 y Hy). simpl. case_bool_decide; lia.
  - apply (agrees_close (o_id o)); [apply Hw2|done|].
    eapply release_agrees; [exact Hw1|exact Ho1|exact Hrel|simpl; set_solver|exact Ha1].
Qed.

Lemma set_snapshots_core ss s : core (set_snapshots ss s) <-> core s.
Proof.
  split; intros (Hw & Hp & Ha); (split; [|by split]);
    destruct Hw as [Hnd Hrows Hfids Hfr Hrr Hlocks]; by split.
Qed.

Lemma check_not_over_consumed_Ok o s u s' :
  NoDup (ids s) -> o ∈ orders s -> check_not_over_consumed o s = Ok (u, s') ->
  s' = s /\ 0 <= outstanding o s.
Proof.
  intros Hnd Ho H. unfold check_not_over_consumed, halt_if in H. inv_tx.
  match goal with H : outstandingHold _ _ = _ |- _ =>
    apply (outstandingHold_row o s _ _ Hnd Ho) in H as [-> ->] end. zbool. done.
Qed.

(** The part of [settleFill] that follows the fill's row. *)
Lemma settle_sides_core taker maker traded key s s1 s2 s3 s4 u1 u2 u3 u4 row :
  wired s -> taker ∈ orders s -> maker ∈ orders s -> o_id taker <> o_id maker ->
  f_takerOrderId row = o_id taker -> f_makerOrderId row = o_id maker ->
  progress (fun id => if fill_of id row then traded else 0) s ->
  agrees_except [o_id taker; o_id maker] s ->
  record_side taker traded key s = Ok (u1, s1) -> record_side maker traded key s1 = Ok (u2, s2) ->
  assertHoldAgrees (o_id taker) s2 = Ok (u3, s3) -> assertHoldAgrees (o_id maker) s3 = Ok (u4, s4) ->
  core s4 /\ fills s4 = fills s.
Proof.
  intros Hw Ht Hm Hne Hrt Hrm Hp Ha H1 H2 H3 H4.
  destruct (record_side_Ok _ _ _ _ _ _ _ [o_id taker; o_id maker] Hw Ht ltac:(set_solver) Ha Hp H1) as (Hw1 & Ha1 & Hp1 & Hf1 & Hk1).
  assert (Hm1 : maker ∈ orders s1) by (apply Hk1; auto).
  destruct (record_side_Ok _ _ _ _ _ _ _ [o_id taker; o_id maker] Hw1 Hm1 ltac:(set_solver) Ha1 Hp1 H2) as (Hw2 & Ha2 & Hp2 & Hf2 & _).
  apply (assertHoldAgrees_Ok _ _ _ _ (w_ids _ Hw2)) in H3 as [-> Ht2].
  apply (assertHoldAgrees_Ok _ _ _ _ (w_ids _ Hw2)) in H4 as [-> Hm2].
  split; [|congruence]. split; [done|]. split.
  - intros x Hx. rewrite <- (Hp2 x Hx). unfold fill_of. rewrite Hrt, Hrm.
    rewrite (bool_decide_ext (o_id taker = o_id x) (o_id x = o_id taker)) by done.
    rewrite (bool_decide_ext (o_id maker = o_id x) (o_id x = o_id maker)) by done.
    repeat case_bool_decide; simpl; try congruence; lia.
  - apply (agrees_close (o_id maker)); [apply Hw2|done|].
    by apply (agrees_close (o_id taker)); [apply Hw2|done|].
Qed.

(** Everything [settleFill] does after the row is in keeps the books. *)
Lemma settle_inserted_core market key event taker maker amounts s out s' :
  core s -> taker ∈ orders s -> maker ∈ orders s -> o_id taker <> o_id maker ->
  o_side taker = ev_takerSide event -> o_side maker <> o_side taker ->
  let buyer := if bool_decide (ev_takerSide event = buy) then taker else maker in
  let seller := if bool_decide (ev_takerSide event = buy) then maker else taker in
  o_holdAsset buyer = m_quoteAsset market -> o_holdAsset seller = m_baseAsset market ->
  buyerFee amounts = (if bool_decide (ev_takerSide event = buy) then takerFee amounts else makerFee amounts) ->
  let row := fill_row market key event taker maker amounts in
  Store.f_fillId row ∉ Store.f_fillId <$> fills s ->
  settle_inserted market key event taker maker buyer seller amounts
    (set_fills (fills s ++ [row]) s) = Ok (out, s') ->
  core s' /\ fills s' = fills s ++ [row] /\
  out = fill_settled (m_quoteAsset market) (buyerFee amounts + sellerFee amounts) (ev_timestampMs event).
Proof.
  intros (Hw & Hp & Ha) Ht Hm Hne Hsd Hsds buyer seller Hq Hb Hbf row Hnew H.
  unfold settle_inserted in H. inv_tx.
  match goal with H : postLedger _ _ = _ |- _ => apply postLedger_Ok in H as (t & Hpost & -> & _ & _) end.
  pose proof (fill_step_wired market key event taker maker amounts s t Hw Ht Hm Hne Hsd Hsds Hq Hb Hbf
                Hnew Hpost) as Hw2.
  pose proof (fill_step_outstanding market key event taker maker amounts s t Hw Ht Hm Hne Hsd Hsds Hq Hb Hbf
                Hpost) as Hout.
  pose proof (fill_step_progress market key event taker maker amounts s t Hp) as Hp2.
  cbv zeta in Hw2, Hout, Hp2. fold row in Hw2, Hout, Hp2.
  set (s2 := set_ledger _ (set_fills _ s)) in *.
  assert (Hbs : buyer ∈ orders s2 /\ seller ∈ orders s2)
    by (unfold buyer, seller; destruct (ev_takerSide event); by split).
  do 2 match goal with H : check_not_over_consumed _ _ = _ |- _ =>
    apply check_not_over_consumed_Ok in H as [-> _]; [|exact (w_ids _ Hw2)|apply Hbs] end.
  assert (Ha2 : agrees_except [o_id taker; o_id maker] s2).
  { intros x Hx Hni. specialize (Ha x Hx ltac:(set_solver)). unfold hold_agrees in *.
    rewrite Hout by done. rewrite !bool_decide_eq_false_2 by set_solver. by rewrite !Z.add_0_r. }
  match goal with
  | H1 : record_side taker _ _ _ = _, H2 : record_side maker _ _ _ = _,
    H3 : assertHoldAgrees (o_id taker) _ = _, H4 : assertHoldAgrees (o_id maker) _ = _ |- _ =>
    destruct (settle_sides_core taker maker (ev_qty event) key s2 _ _ _ _ _ _ _ _ row
                Hw2 Ht Hm Hne eq_refl eq_refl Hp2 Ha2 H1 H2 H3 H4) as [Hc Hf] end.
  done.
Qed.

(** What [settleFill] does when it returns. *)
Lemma settleFill_Ok market key event s out s' :
  core s -> settleFill market key event s = Ok (out, s') ->
  let id := settlementFillId market (ev_fillId event) in
  (out = duplicate /\ id ∈ Store.f_fillId <$> fills s /\ exists ss, s' = set_snapshots ss s) \/
  (exists fees row, out = fill_settled (m_quoteAsset market) fees (ev_timestampMs event) /\
     (id ∉ Store.f_fillId <$> fills s) /\ core s' /\ fills s' = fills s ++ [row] /\
     Store.f_fillId row = id /\ Store.f_qty row = ev_qty event /\
     f_takerOrderId row = ev_takerOrderId event /\ f_makerOrderId row = ev_makerOrderId event).
Proof.
  intros Hcore H id. unfold settleFill, halt_if in H. inv_tx.
  repeat match goal with H : load _ _ _ = _ |- _ => apply load_Ok in H as (-> & ? & ? & ?) end.
  zbool. do 2 match goal with H : feeRatesFor _ _ _ _ = _ |- _ => apply feeRatesFor_Ok in H as [? ->] end.
  match goal with H : insertFill _ ?st = Ok (?r, _) |- _ =>
    rename H into Hins; set (s0 := st) in *; destruct r end; apply insertFill_Ok in Hins; simpl in Hins.
  2:{ destruct Hins as [-> Hin]. inv_tx. left. split; [done|]. split; [done|]. unfold s0. eexists. reflexivity. }
  destruct Hins as (-> & Hrow & Hnew). right.
  assert (Hcore0 : core s0) by (by apply set_snapshots_core, set_snapshots_core).
  match goal with H : fillAmounts _ = Ok _ |- _ => apply fillAmounts_sides in H as [Hbf _]; simpl in Hbf end.
  match goal with H : settle_inserted _ _ _ ?tk ?mk _ _ ?am _ = _ |- _ =>
    rename H into Hset; pose proof (settle_inserted_core market key event tk mk am s0 out s') as Hl end.
  cbv zeta in Hl. destruct Hl as (Hc & Hf & ->); try done.
  - intros Heq. unfold fill_row_ok in Hrow. simpl in Hrow. zbool. done.
  - eexists _, _. split; [done|]. split; [done|]. split; [done|]. split; [exact Hf|]. simpl. auto.
Qed.

(** Moving an order between two live statuses keeps the books. *)
Lemma live_step_core o o' s s' :
  core s -> row_step o o' s s' -> o_filledQty o' = o_filledQty o ->
  Order.orderHoldsFunds (o_status o) = true -> Order.orderHoldsFunds (o_status o') = true -> core s'.
Proof.
  intros (Hw & Hp & Ha) Hst Hq Hl Hl'. split; [by apply (row_step_wired _ _ _ _ Hst)|]. split.
  - pose proof (row_step_progress _ _ _ _ Hst _ (w_ids s Hw) Hp) as Hp1.
    intros x Hx. rewrite <- (Hp1 x Hx), Hq. case_bool_decide; lia.
  - intros x Hx Hni. apply (row_step_elem _ _ _ _ Hst x (w_ids s Hw)) in Hx as [->|[Hx _]].
    + specialize (Ha o ltac:(by destruct Hst) ltac:(set_solver)). unfold hold_agrees in *.
      rewrite Hl', (row_step_outstanding _ _ _ _ Hst). rewrite Hl in Ha.
      rewrite (outstanding_terms o o' s s); [done|by destruct Hst|done..].
    + specialize (Ha x Hx Hni). unfold hold_agrees in *. by rewrite (row_step_outstanding _ _ _ _ Hst).
Qed.

Lemma transition_live_core id from to patch s r s' :
  core s -> p_filledQty patch = None ->
  Order.orderHoldsFunds from = true -> Order.orderHoldsFunds to = true ->
  transition id from to patch s = Ok (r, s') -> core s'.
Proof.
  intros Hcore Hpatch Hf Ht H. pose proof Hcore as (Hw & _ & _).
  apply (transition_Ok _ _ _ _ _ _ _ (w_ids s Hw)) in H as [_ [[_ ->]|(o & _ & Hs & _ & Hst)]]; [done|].
  apply (live_step_core _ _ _ _ Hcore Hst); simpl; [by rewrite Hpatch|by rewrite Hs|done].
Qed.

(** Applying any event that settlement can apply keeps the books. *)
Lemma apply_core market key event s out s' :
  core s -> Settlement.apply market key event s = Ok (out, s') -> core s'.
Proof.
  intros Hcore H. destruct event as [ev|sq id n|sq id why|sq id n|sq id n|sq]; unfold Settlement.apply in H.
  - apply settleFill_Ok in H as [(_ & _ & ss & ->)|(? & ? & _ & _ & Hc & _)]; [|done..].
    by apply set_snapshots_core.
  - inv_tx. match goal with H : load _ _ _ = _ |- _ => apply load_Ok in H as (-> & Ho & _) end.
    unfold checkRemaining, halt_if in *. inv_tx. destruct (n =? 0); inv_tx; [done|].
    destruct (negb (bool_decide _)); inv_tx; [done|].
    match goal with H : transition _ _ _ _ _ = _ |- _ => by apply transition_live_core in H end.
  - case_bool_decide; inv_tx; [done|].
    match goal with H : load _ _ _ = _ |- _ => apply load_Ok in H as (-> & Ho & _) end.
    unfold halt_if in *. inv_tx. by eapply dispose_core.
  - inv_tx. match goal with H : load _ _ _ = _ |- _ => apply load_Ok in H as (-> & Ho & _) end.
    case_bool_decide; unfold checkRemaining, halt_if in *; inv_tx; by eapply dispose_core.
  - inv_tx. match goal with H : load _ _ _ = _ |- _ => apply load_Ok in H as (-> & Ho & _) end.
    case_bool_decide; unfold checkRemaining, halt_if in *; inv_tx; by eapply dispose_core.
  - by inv_tx.
Qed.

(** ** The ledger only grows, by postings *)

(** The postings that only the trading transactions make. *)
Definition about_orders (p : Posting) : bool :=
  match p with POrderHold _ | POrderRelease _ | PTradeSettlement _ => true | _ => false end.

(** The transactions that a list of postings built. *)
Definition posted (ps : list Posting) (ts : list LedgerTransaction) : Prop :=
  Forall2 (fun p t => post p = Ok t) ps ts.

Definition extends (s s' : Store) : Prop := exists ps ts, posted ps ts /\ ledger s' = ledger s ++ ts.

#[export] Instance extends_preorder : PreOrder extends.
Proof.
  split.
  - intros s. exists [], []. split; [constructor|by rewrite app_nil_r].
  - intros s1 s2 s3 (ps & ts & P1 & H1) (ps' & ts' & P2 & H2). exists (ps ++ ps'), (ts ++ ts').
    split; [by apply Forall2_app|]. by rewrite H2, H1, app_assoc.
Qed.

Lemma posted_history ps ts : posted ps ts -> mjoin (map entries ts) = history ps.
Proof. induction 1 as [|p t ps ts Hp _ IH]; simpl; [done|]. by rewrite Hp, IH. Qed.

Lemma posted_positive ps ts :
  posted ps ts -> Forall (fun e => 0 < amount e) (mjoin (map entries ts)).
Proof.
  intros H. rewrite (posted_history ps ts H). destruct (history_wf ps) as [Hwf _].
  eapply Forall_impl; [exact Hwf|]. by intros e [? _].
Qed.

(** ** Footprints *)

(** What a computation does to the tables, stated once for every relation that the writes
    of orders, fills and snapshots and the postings respect. *)
Class Footprint (R : Store -> Store -> Prop) : Prop := {
  fp_preorder :: PreOrder R;
  fp_orders os s : R s (set_orders os s);
  fp_fills fs s : R s (set_fills fs s);
  fp_snapshots ss s : R s (set_snapshots ss s);
  fp_post p s u s' : about_orders p = true -> postLedger (post p) s = Ok (u, s') -> R s s'
}.

Class Within (R : Store -> Store -> Prop) {A} (m : tx A) : Prop :=
  within : forall s a s', m s = Ok (a, s') -> R s s'.

(** A computation that only appends postings to the ledger. *)
Abbreviation Grows := (Within extends).

Lemma extends_same s s' : ledger s' = ledger s -> extends s s'.
Proof. intros H. exists [], []. split; [constructor|by rewrite app_nil_r]. Qed.

Lemma grows_post p : Grows (postLedger (post p)).
Proof.
  intros s u s' (t & Ht & -> & _)%postLedger_Ok. exists [p], [t]. split; [by repeat constructor|done].
Qed.

#[export] Instance footprint_extends : Footprint extends.
Proof.
  split; [apply _|by intros; apply extends_same..|].
  intros p s u s' _. apply grows_post.
Qed.

(** A computation that leaves the offsets alone. *)
Definition same_offsets (s s' : Store) : Prop := offsets s' = offsets s.

#[export] Instance footprint_offsets : Footprint same_offsets.
Proof.
  split; [|done..|].
  - split; [done|]. intros s1 s2 s3 H1 H2. unfold same_offsets in *. congruence.
  - by intros p s u s' _ (t & Ht & -> & _)%postLedger_Ok.
Qed.

Section Within.
Context (R : Store -> Store -> Prop) `{!Footprint R}.

Local Instance footprint_refl : PreOrder R := fp_preorder.

#[export] Instance within_ret {A} (a : A) : Within R (mret a).
Proof. intros s b s' H. inv_tx. reflexivity. Qed.
#[export] Instance within_bind {A B} (m : tx A) (k : A -> tx B) :
  Within R m -> (forall a, Within R (k a)) -> Within R (m ≫= k).
Proof. intros Hm Hk s b s' H. inv_tx. etrans; [by eapply Hm|by eapply Hk]. Qed.
#[export] Instance within_read {A} (f : Store -> A) : Within R (read f).
Proof. intros s b s' H. inv_tx; reflexivity. Qed.
#[export] Instance within_lift {A} (r : result A) : Within R (lift r).
Proof. intros s b s' H. inv_tx; reflexivity. Qed.
#[export] Instance within_raise {A} e : Within R (@raise A e).
Proof. intros s b s' H. by inv_tx. Qed.
#[export] Instance within_orders f : Within R (write (fun s => set_orders (f s) s)).
Proof. intros s b s' H. inv_tx. apply fp_orders. Qed.
#[export] Instance within_fills f : Within R (write (fun s => set_fills (f s) s)).
Proof. intros s b s' H. inv_tx. apply fp_fills. Qed.
#[export] Instance within_snapshots f : Within R (write (fun s => set_snapshots (f s) s)).
Proof. intros s b s' H. inv_tx. apply fp_snapshots. Qed.
#[export] Instance within_update id test f : Within R (update_order id test f).
Proof. intros s b s' H. unfold update_order in H. inv_tx. apply fp_orders. Qed.
Lemma within_post p : about_orders p = true -> Within R (postLedger (post p)).
Proof. intros Hp s b s'. by apply fp_post. Qed.
#[export] Instance within_post_release i : Within R (postLedger (postOrderRelease i)).
Proof. exact (within_post (POrderRelease i) eq_refl). Qed.
#[export] Instance within_post_hold i : Within R (postLedger (postOrderHold i)).
Proof. exact (within_post (POrderHold i) eq_refl). Qed.
#[export] Instance within_post_trade i : Within R (postLedger (postTradeSettlement i)).
Proof. exact (within_post (PTradeSettlement i) eq_refl). Qed.

End Within.

(** Unfold one definition at a time and let the instances do the rest. *)
Ltac solve_within :=
  first [ apply _ | notypeclasses refine (within_bind _ _ _ _ _); [apply _| |intros ?]; solve_within | case_match; solve_within ].

Section Operations.
Context (R : Store -> Store -> Prop) `{!Footprint R}.

Local Instance footprint_operations : PreOrder R := fp_preorder.

#[export] Instance within_transition id from to p : Within R (transition id from to p).
Proof. unfold transition, raise_if, findById. solve_within. Qed.
#[export] Instance within_store_recordFill id st n : Within R (Store.recordFill id st n).
Proof. unfold Store.recordFill, findById. solve_within. Qed.
#[export] Instance within_outstandingHold id : Within R (outstandingHold id).
Proof. unfold outstandingHold, findById. solve_within. Qed.
#[export] Instance within_release o b : Within R (releaseOutstanding o b).
Proof. unfold releaseOutstanding, raise_if. solve_within. Qed.
#[export] Instance within_load id m : Within R (load id m).
Proof. unfold load, halt_if, raise_if, halt, findById. solve_within. Qed.
#[export] Instance within_rates u q ts : Within R (feeRatesFor u q ts).
Proof.
  intros s r s' (ss & ->)%feeRatesFor_Ok. apply fp_snapshots.
Qed.
#[export] Instance within_insertFill f : Within R (insertFill f).
Proof.
  intros s r s' H%insertFill_Ok. destruct r; destruct H as [-> _]; [apply fp_fills|reflexivity].
Qed.
#[export] Instance within_agrees id : Within R (assertHoldAgrees id).
Proof. unfold assertHoldAgrees, halt_if, raise_if, halt, findById. solve_within. Qed.
#[export] Instance within_over o : Within R (check_not_over_consumed o).
Proof. unfold check_not_over_consumed, halt_if, raise_if. solve_within. Qed.
#[export] Instance within_recordFill o n k : Within R (recordFill o n k).
Proof.
  unfold recordFill. generalize (S CONTENTION_RETRIES). intros m. revert o.
  induction m as [|m IH]; intros o; simpl; unfold halt_if, halt, raise_if, record_attempt, findById; [apply _|].
  solve_within.
Qed.
#[export] Instance within_finish o allowed to rr : Within R (finish o allowed to rr).
Proof.
  unfold finish. generalize (S CONTENTION_RETRIES). intros m. revert o.
  induction m as [|m IH]; intros o; simpl; unfold halt_if, halt, raise_if, findById; [apply _|].
  solve_within.
Qed.
#[export] Instance within_record_side o n k : Within R (record_side o n k).
Proof. unfold record_side. solve_within. Qed.
#[export] Instance within_dispose o allowed to rr : Within R (dispose o allowed to rr).
Proof. unfold dispose. solve_within. Qed.

Lemma apply_within m k e : Within R (Settlement.apply m k e).
Proof.
  unfold Settlement.apply, settleFill, settle_inserted, checkRemaining, halt_if, halt, raise_if.
  solve_within.
Qed.
End Operations.

(** ** Commit *)

Lemma withTransaction_Ok {A} (fn : tx A) s a s' :
  withTransaction fn s = Ok (a, s') <-> fn s = Ok (a, s') /\ deferred_ok s s' = true /\ balanced_ok s s' = true.
Proof.
  unfold withTransaction. destruct (fn s) as [[b s1]|e]; [|split; [done|by intros [? _]]].
  destruct (deferred_ok s s1 && balanced_ok s s1) eqn:E.
  - apply andb_true_iff in E as [? ?]. split; [by intros [= <- <-]|]. by intros [[= <- <-] _].
  - split; [done|]. intros ([= <- <-] & Hd & Hb). by rewrite Hd, Hb in E.
Qed.

(** A step that only credits an account leaves it no lower. *)
Lemma net_no_debit r es :
  Forall (fun e => 0 < amount e) es ->
  (forall e, e ∈ es -> account e = r -> direction e = Credit) -> net (on_account r) es <= 0.
Proof.
  unfold net. induction 1 as [|e es He _ IH]; intros Hd; simpl; [lia|].
  specialize (IH ltac:(intros; apply Hd; set_solver)). unfold on_account at 1. case_bool_decide; [|lia].
  unfold signedAmount at 1. rewrite (Hd e) by set_solver. lia.
Qed.

(** The deferred trigger keeps every trading account non-negative. *)
Lemma deferred_trading s s' :
  extends s s' -> trading_nonneg s -> deferred_ok s s' = true -> trading_nonneg s'.
Proof.
  intros (ps & ts & Hps & Hl) Hnn Hd u a ty Hty. set (r := mkAccount (Some u) a ty).
  unfold deferred_ok in Hd. rewrite Hl, drop_app_length, forallb_forall in Hd.
  set (new := mjoin (map entries ts)) in *.
  destruct (decide (Exists (fun e => account e = r /\ direction e = Debit) new)) as [Hx|Hx].
  - apply Exists_exists in Hx as (e & He & Hr & Hdir).
    specialize (Hd e ltac:(by apply list_elem_of_In)). unfold trading_debit in Hd.
    rewrite Hdir, Hr in Hd. simpl in Hd. rewrite Hty in Hd. simpl in Hd. by apply Z.leb_le.
  - assert (Hne : forall e, e ∈ new -> account e = r -> direction e = Credit).
    { intros e He Hr. destruct (direction e) eqn:E; [|done]. destruct Hx. apply Exists_exists. eauto. }
    pose proof (posted_positive ps ts Hps) as Hp. fold new in Hp.
    pose proof (net_no_debit r new Hp Hne) as Hnet. specialize (Hnn u a ty Hty). fold r in Hnn.
    unfold credit_balance, all_entries in *. rewrite Hl, map_app, join_app, net_app. fold new. lia.
Qed.

Lemma books_ok_core s : books_ok s <-> core s /\ trading_nonneg s.
Proof.
  split.
  - intros [Hw Hp Ha Ht]. split; [|done]. split; [done|]. split; [done|]. intros o Ho _. auto.
  - intros [(Hw & Hp & Ha) Ht]. split; try done. intros o Ho. apply Ha; [done|set_solver].
Qed.

(** A computation that appends to the ledger and keeps the core keeps the books when it commits. *)
Lemma commit_books {A} (fn : tx A) s a s' :
  Grows fn -> (core s -> fn s = Ok (a, s') -> core s') ->
  books_ok s -> withTransaction fn s = Ok (a, s') -> books_ok s'.
Proof.
  intros Hg Hk [Hc Ht]%books_ok_core (Hrun & Hd & _)%withTransaction_Ok. apply books_ok_core.
  split; [auto|]. apply (deferred_trading s); [by eapply Hg|done..].
Qed.

(** On books that agree, what a user's live orders should hold is what is locked. *)
Lemma books_locks s u a :
  books_ok s -> credit_balance (userOrderLocked u a) s = expected_lock u a s.
Proof.
  intros [Hw _ Hh _]. rewrite (w_locks s Hw). unfold total_held, expected_lock.
  assert (H : forall l, (forall o, o ∈ l -> hold_agrees s o) ->
    sum_if (order_of u a) (fun o => outstanding o s) l =
    sum_if (fun o => Order.orderHoldsFunds (o_status o) && bool_decide (o_user o = u) &&
                     bool_decide (o_holdAsset o = a)) (fun o => outstanding o s) l).
  { induction l as [|o l IH]; intros Hl; simpl; [done|]. rewrite IH by (intros; apply Hl; set_solver).
    specialize (Hl o ltac:(set_solver)). unfold hold_agrees in Hl. unfold order_of.
    destruct (Order.orderHoldsFunds (o_status o)); simpl; [done|]. rewrite Hl. by case_match. }
  by apply H.
Qed.

(** ** Creating an order with its hold *)

Lemma order_hold_net r i t :
  postOrderHold i = Ok t ->
  kind t = order_hold /\
  net (on_account r) (entries t) =
    (if bool_decide (userTradingAvailable (o_userId i) (o_asset i) = r) then o_amount i else 0)
    - (if bool_decide (userOrderLocked (o_userId i) (o_asset i) = r) then o_amount i else 0).
Proof.
  intros H. inv_post H. split; [done|]. unfold net, on_account, signedAmount. simpl.
  repeat case_bool_decide; lia.
Qed.

(** No fill and no release names an id that no order has. *)
Lemma unknown_id s id :
  wired s -> id ∉ ids s ->
  (forall f, f ∈ fills s -> fill_of id f = false) /\ released id s = 0.
Proof.
  intros [_ _ _ Hfr Hrr _] Hni. split.
  - intros f Hf. rewrite Forall_forall in Hfr. destruct (Hfr f Hf) as (H1 & H2 & _).
    unfold fill_of. rewrite !bool_decide_eq_false_2; [done| |]; by intros Heq; rewrite Heq in *.
  - unfold released. induction Hrr as [|t ts Ht _ IH]; simpl; [done|]. rewrite IH.
    unfold release_debits, same_reference. case_bool_decide as Hk; [|done].
    rewrite bool_decide_eq_false_2; [done|]. intros Heq. rewrite Heq in Ht. auto.
Qed.

(** A new row's hold is what was posted. *)
Lemma new_order_outstanding s o t :
  wired s -> o_id o ∉ ids s -> kind t = order_hold ->
  let s1 := set_orders (orders s ++ [o]) s in
  outstanding o (set_ledger (ledger s1 ++ [t]) s1) = o_holdAmount o.
Proof.
  intros Hw Hni Hk s1. destruct (unknown_id s (o_id o) Hw Hni) as [Hf Hr].
  unfold outstanding. rewrite released_app, release_debits_other by congruence.
  change (released (o_id o) s1) with (released (o_id o) s).
  unfold consumed. simpl. rewrite Hr, sum_if_none by done. lia.
Qed.

(** A new row with its hold posted keeps the books. *)
Lemma hold_step_core s o t :
  core s -> o_id o ∉ ids s -> order_row_ok o = true -> o_filledQty o = 0 ->
  Order.orderHoldsFunds (o_status o) = true ->
  postOrderHold (mkHold (o_id o) (o_user o) (o_holdAsset o) (o_holdAmount o)) = Ok t ->
  let s1 := set_orders (orders s ++ [o]) s in
  core (set_ledger (ledger s1 ++ [t]) s1).
Proof.
  intros (Hw & Hp & Ha) Hni Hok Hq Hlive Ht s1. set (s2 := set_ledger _ s1).
  pose proof Hw as [Hnd Hrows Hfids Hfr Hrr Hlocks].
  pose proof (fun r => order_hold_net r _ _ Ht) as Hnet.
  assert (Hk : kind t <> order_release) by (destruct (Hnet (houseFees "")) as [-> _]; done).
  assert (Hout : forall x, outstanding x s2 = outstanding x s).
  { intros x. unfold outstanding, s2. rewrite released_app, release_debits_other by done.
    change (consumed x (set_ledger _ s1)) with (consumed x s).
    change (released (o_id x) s1) with (released (o_id x) s). lia. }
  destruct (unknown_id s (o_id o) Hw Hni) as [Hnofill _].
  assert (Hnew : outstanding o s = o_holdAmount o).
  { rewrite <- (Hout o). apply new_order_outstanding; [done..|]. apply (Hnet (houseFees "")). }
  assert (Hids : ids s2 = ids s ++ [o_id o]) by (simpl; by rewrite fmap_app).
  split; [split|split].
  - rewrite Hids. apply NoDup_app. split; [done|]. split; [|apply NoDup_singleton].
    intros y Hy ->%list_elem_of_singleton. done.
  - simpl. apply Forall_app. split; [done|]. by constructor.
  - done.
  - rewrite Hids. eapply Forall_impl; [exact Hfr|]. intros f (? & ? & ?). set_solver.
  - rewrite Hids. simpl. apply Forall_app. split; [|by constructor].
    eapply Forall_impl; [exact Hrr|]. intros t' H' Hk'. specialize (H' Hk'). set_solver.
  - intros u a. unfold s2 at 1. rewrite credit_balance_app.
    change (credit_balance (userOrderLocked u a) s1) with (credit_balance (userOrderLocked u a) s).
    rewrite Hlocks. destruct (Hnet (userOrderLocked u a)) as [_ ->].
    rewrite (bool_decide_eq_false_2 _ (locked_ne_available _ _ _ _)), locked_eq. unfold total_held.
    change (orders s2) with (orders s ++ [o]). rewrite sum_if_app. simpl. rewrite Hout, Hnew.
    rewrite (sum_if_ext _ (order_of u a) (fun x => outstanding x s2) (fun x => outstanding x s))
      by (intros; split; [done|intros; apply Hout]).
    generalize (sum_if (order_of u a) (fun x => outstanding x s) (orders s)). intros held0. unfold order_of.
    destruct (bool_decide (o_user o = u)), (bool_decide (o_holdAsset o = a)); simpl; lia.
  - intros x [Hx| ->%list_elem_of_singleton]%elem_of_app; [by apply Hp|].
    rewrite Hq. symmetry. by apply sum_if_none.
  - intros x [Hx| ->%list_elem_of_singleton]%elem_of_app Hn.
    + specialize (Ha x Hx Hn). unfold hold_agrees in *. by rewrite Hout.
    + unfold hold_agrees. rewrite Hlive, Hout, Hnew. unfold order_row_ok in Hok. zbool. done.
Qed.

Lemma fee_legs_locked i legs u a : houseFeeLegs i = Ok legs -> net (on_account (userOrderLocked u a)) legs = 0.
Proof. intros [_ [[_ ->]|(_ & f & _ & ->)]]%houseFeeLegs_Ok; [done|]. solve_net. Qed.

(** They move no order lock. *)
Lemma posting_locked p t u a :
  about_orders p = false -> post p = Ok t ->
  kind t <> order_release /\ net (on_account (userOrderLocked u a)) (entries t) = 0.
Proof.
  destruct p as [i|i|i|i|i|i|i|i|i|i|i|i|i|i|i]; simpl; try done; intros _;
    try (intros H; inv_post H; split; [done|solve_net]; fail).
  - intros [_ ->]%postDeposit_Ok. split; [done|]. cbn [entries]. rewrite net_nonzero_legs. solve_net.
  - intros [_ (legs & -> & Hl)]%postWithdrawalSettlement_Ok. split; [done|]. cbn [entries].
    rewrite net_app, (fee_legs_locked _ _ _ _ Hl). solve_net.
  - unfold postAllocation. intros [_ (legs & Hl & ->)]%post_transfer; try done. split; [done|].
    cbn [entries]. rewrite net_app, (fee_legs_locked _ _ _ _ Hl). solve_net.
  - unfold postDeallocation. intros [_ (legs & Hl & ->)]%post_transfer; try done. split; [done|].
    cbn [entries]. rewrite net_app, (fee_legs_locked _ _ _ _ Hl). solve_net.
Qed.

Lemma posting_core p t s :
  about_orders p = false -> post p = Ok t -> core s -> core (set_ledger (ledger s ++ [t]) s).
Proof.
  intros Hp Ht (Hw & Hpr & Ha). pose proof (fun u a => posting_locked p t u a Hp Ht) as Hl.
  destruct (Hl "" "") as [Hk _]. set (s' := set_ledger _ s).
  assert (Hout : forall x, outstanding x s' = outstanding x s).
  { intros x. unfold outstanding, s'. rewrite released_app, release_debits_other by done.
    change (consumed x (set_ledger _ s)) with (consumed x s). lia. }
  pose proof Hw as [Hnd Hrows Hfids Hfr Hrr Hlocks].
  split; [split|split]; try done.
  - simpl. apply Forall_app. split; [done|]. by constructor.
  - intros u a. unfold s' at 1. rewrite credit_balance_app, Hlocks. destruct (Hl u a) as [_ ->].
    unfold total_held. rewrite Z.sub_0_r. apply sum_if_ext. intros x _. split; [done|]. intros _. symmetry. apply Hout.
  - intros x Hx Hn. specialize (Ha x Hx Hn). unfold hold_agrees in *. by rewrite Hout.
Qed.

(** ** The books before anything is posted, and funding them *)

Definition empty_store (us : gmap string AccountStatus) : Store := mkStore us [] [] [] [] [] ∅ [] [].

Lemma empty_books us : books_ok (empty_store us).
Proof.
  split.
  - split; try done; apply NoDup_nil_2.
  - intros o []%not_elem_of_nil.
  - intros o []%not_elem_of_nil.
  - intros u a ty _. unfold credit_balance. done.
Qed.

Lemma posting_books p s u s' :
  about_orders p = false -> books_ok s ->
  withTransaction (postLedger (post p)) s = Ok (u, s') -> books_ok s'.
Proof.
  intros Hp. apply commit_books; [apply grows_post|].
  intros Hc (t & Ht & -> & _)%postLedger_Ok. by apply (posting_core p).
Qed.

(** The tables after a list of postings, each in its own transaction. *)
Fixpoint fund (ps : list Posting) (s : Store) : result Store :=
  match ps with
  | [] => Ok s
  | p :: ps =>
      match withTransaction (postLedger (post p)) s with
      | Ok (_, s') => fund ps s'
      | Throw e => Throw e
      end
  end.

Lemma fund_books ps s s' :
  forallb (fun p => negb (about_orders p)) ps = true -> books_ok s -> fund ps s = Ok s' -> books_ok s'.
Proof.
  revert s. induction ps as [|p ps IH]; intros s Hp Hb H; simpl in *; [by injection H as <-|].
  apply andb_true_iff in Hp as [Hp Hps]. apply negb_true_iff in Hp.
  destruct (withTransaction _ s) as [[[] s1]|] eqn:E; [|done].
  apply (IH s1); [done| |done]. by eapply posting_books.
Qed.
