(* ===== verification/Gateway.v ===== *)
(** * The order gateway

    [apps/api/src/services/trading/order.service.ts] and the resolution of
    [workers/pending-engine-sweeper.ts]. Unlike settlement, a service call is several
    transactions with calls to the matching engine between them, so it runs in the
    monad [svc], where an exception keeps what was committed before it. The engine is
    a parameter: it answers a command, and it answers together with the tables as the
    other actors left them while it was being asked.

    Logging, change notifications and the choice of a market's engine are not
    modelled; the caller passes the market that [routable] found, and the clock. *)

From S2P Require Import Prelude Risk Decimal Assets Price Market Orders Ledger Postings States Store Events Settlement Books.
From Stdlib Require Import ZArith Lia.
From stdpp Require Import base list strings gmap pretty.

Open Scope string_scope.
Open Scope list_scope.
Open Scope Z_scope.

(** ** Service calls *)

Definition svc (A : Type) : Type := Store -> result A * Store.

#[export] Instance svc_ret : MRet svc := fun A a s => (Ok a, s).
#[export] Instance svc_bind : MBind svc := fun A B k m s =>
  match m s with
  | (Ok a, s') => k a s'
  | (Throw e, s') => (Throw e, s')
  end.

(** One committed transaction, or one statement outside any. *)
Definition commit {A} (m : tx A) : svc A := fun s =>
  match withTransaction m s with
  | Ok (a, s') => (Ok a, s')
  | Throw e => (Throw e, s)
  end.

Definition fails {A} (e : error) : svc A := fun s => (Throw e, s).
Definition lift_svc {A} (r : result A) : svc A := fun s => (r, s).
Definition fail_if (b : bool) (e : error) : svc unit := lift_svc (throw_if b e).

(** ** [engine-client.ts]: what the engine reports *)

Inductive EngineEvent :=
| e_accepted (seq : Z) (orderId : string) (restingQty : Z)
| e_rejected (seq : Z) (orderId reason : string)
| e_fill (seq : Z) (fillId takerOrderId makerOrderId : string) (takerSide : Side) (price qty : Z)
| e_cancelled (seq : Z) (orderId : string) (remainingQty : Z)
| e_expired (seq : Z) (orderId : string) (remainingQty : Z)
| e_status_changed (seq : Z).

Definition event_seq (e : EngineEvent) : Z :=
  match e with
  | e_accepted n _ _ | e_rejected n _ _ | e_fill n _ _ _ _ _ _ | e_cancelled n _ _
  | e_expired n _ _ | e_status_changed n => n
  end.

Inductive EngineResult :=
| engine_ok (seq : Z) (events : list EngineEvent)
| engine_refused (status : Z) (error : string)
| engine_ambiguous (cause : string).

Inductive LookupResult :=
| never_seen
| seen (seq : Z) (orderId : string)
| rebuilding
| unreachable (cause : string).

Record PlaceCommand := mkPlace {
  pl_orderId : string; pl_side : Side; pl_type : OrderType; pl_timeInForce : TimeInForce;
  pl_price : option Z; pl_qty : Z; pl_postOnly : bool; pl_accountId : string; pl_timestampMs : Z
}.

(** The commands the gateway sends. *)
Inductive EngineCommand :=
| cmd_place (command : PlaceCommand)
| cmd_cancel (orderId : string) (timestampMs : Z)
| cmd_amend (orderId newOrderId : string) (price qty timestampMs : Z).

(** ** [order.service.ts]: moving orders *)

Definition floorToTick (price tick : Z) : Z := Z.quot price tick * tick.
Definition ceilToTick (price tick : Z) : Z := Z.quot (price + tick - 1) tick * tick.

(** The transaction of [finalizeUnfilled]: the transition it wins, and the release. *)
Definition finalize_tx (order : OrderRecord) (from to : Order.OrderStatus) (rr : option string)
  : tx OrderRecord :=
  moved ← transition (o_id order) from to (mkPatch None None rr);
  match moved with
  | None => found ← findById (o_id order); mret (default order found)
  | Some m => _ ← releaseOutstanding m true; mret m
  end.

Definition finalizeUnfilled (order : OrderRecord) (from to : Order.OrderStatus) (reason : string)
  : svc OrderRecord :=
  commit (finalize_tx order from to
            (if bool_decide (to = Order.REJECTED) then Some reason else None)).

Fixpoint pending_cancel_loop (attempts : nat) (order : OrderRecord) : svc OrderRecord :=
  match attempts with
  | O => mret order
  | S attempts =>
      if negb (bool_decide (o_status order = Order.OPEN)) &&
         negb (bool_decide (o_status order = Order.PARTIALLY_FILLED)) then mret order else
      moved ← commit (transition (o_id order) (o_status order) Order.PENDING_CANCEL no_patch);
      match moved with
      | Some m => mret m
      | None =>
          found ← commit (findById (o_id order));
          pending_cancel_loop attempts (default order found)
      end
  end.

Definition toPendingCancel (start : OrderRecord) : svc OrderRecord := pending_cancel_loop 3 start.

Definition touches (event : EngineEvent) (orderId : string) : bool :=
  match event with
  | e_fill _ _ taker maker _ _ _ => bool_decide (taker = orderId) || bool_decide (maker = orderId)
  | e_status_changed _ => false
  | e_accepted _ id _ | e_rejected _ id _ | e_cancelled _ id _ | e_expired _ id _ =>
      bool_decide (id = orderId)
  end.

Definition is_fill (e : EngineEvent) : bool := match e with e_fill _ _ _ _ _ _ _ => true | _ => false end.
Definition is_expired (e : EngineEvent) : bool := match e with e_expired _ _ _ => true | _ => false end.
Definition rejected_reason (e : EngineEvent) : option string :=
  match e with e_rejected _ _ reason => Some reason | _ => None end.

Definition resolvePending (order : OrderRecord) (events : list EngineEvent) : svc OrderRecord :=
  let mine := filter (fun e => touches e (o_id order) = true) events in
  let filled := existsb is_fill mine in
  match head (omap rejected_reason mine) with
  | Some reason => finalizeUnfilled order Order.PENDING_ENGINE Order.REJECTED reason
  | None =>
      if existsb is_expired mine && negb filled
      then finalizeUnfilled order Order.PENDING_ENGINE Order.EXPIRED "expired_unfilled"
      else match mine with
           | [] => mret order
           | first :: _ =>
               moved ← commit (transition (o_id order) Order.PENDING_ENGINE Order.OPEN
                                (mkPatch None (Some (event_seq first)) None));
               match moved with
               | Some m => mret m
               | None => found ← commit (findById (o_id order)); mret (default order found)
               end
           end
  end.

Definition actOnPlacement (order : OrderRecord) (result : EngineResult) : svc OrderRecord :=
  match result with
  | engine_ambiguous _ => mret order
  | engine_refused status _ =>
      finalizeUnfilled order Order.PENDING_ENGINE Order.FAILED ("engine_refused_" +:+ pretty status)
  | engine_ok _ events => resolvePending order events
  end.

Definition failNeverSeen (order : OrderRecord) : svc OrderRecord :=
  finalizeUnfilled order Order.PENDING_ENGINE Order.FAILED "engine_never_received".

(** ** [order.service.ts]: admission *)

(** The notional of the live orders, at the reference for one without a price. *)
Fixpoint open_notional (reference : option Z) (live : list OrderRecord) : result Z :=
  match live with
  | [] => Ok 0
  | o :: live =>
      let remaining := o_qty o - o_filledQty o in
      let price := match o_price o with Some p => Some p | None => reference end in
      value ← match price with
              | None => Ok 0
              | Some p => if remaining <=? 0 then Ok 0 else notional p remaining
              end;
      rest ← open_notional reference live;
      Ok (value + rest)
  end.

Definition openNotionalFor (userId : string) (market : Market) (reference : option Z) : svc Z :=
  live ← commit (listOpenForUser userId (Market.id market));
  lift_svc (open_notional reference live).

Definition reason_text (r : RejectReason) : string :=
  match r with
  | UNKNOWN_MARKET => "UNKNOWN_MARKET" | MARKET_NOT_OPEN => "MARKET_NOT_OPEN"
  | NO_REFERENCE_PRICE => "NO_REFERENCE_PRICE" | TICK_VIOLATION => "TICK_VIOLATION"
  | LOT_VIOLATION => "LOT_VIOLATION" | BELOW_MIN_NOTIONAL => "BELOW_MIN_NOTIONAL"
  | OUTSIDE_COLLAR => "OUTSIDE_COLLAR" | NOTIONAL_OVERFLOW => "NOTIONAL_OVERFLOW"
  | QUANTITY_NOT_POSITIVE => "QUANTITY_NOT_POSITIVE" | PRICE_REQUIRED => "PRICE_REQUIRED"
  | PRICE_NOT_ALLOWED => "PRICE_NOT_ALLOWED" | POST_ONLY_REQUIRES_LIMIT => "POST_ONLY_REQUIRES_LIMIT"
  | DUPLICATE_CLIENT_ORDER_ID => "DUPLICATE_CLIENT_ORDER_ID"
  | POST_ONLY_WOULD_CROSS => "POST_ONLY_WOULD_CROSS" | SELF_TRADE_PREVENTED => "SELF_TRADE_PREVENTED"
  | UNKNOWN_ORDER => "UNKNOWN_ORDER"
  end.

(** What the risk rules are told about the open orders when an amend replaces one. *)
Definition exclude_count (count : Z) (excluded : option OrderRecord) : Z :=
  match excluded with None => count | Some _ => Z.max 0 (count - 1) end.

Definition exclude_notional (total : Z) (excluded : option OrderRecord) : result Z :=
  match excluded with
  | None => Ok total
  | Some old =>
      match o_price old with
      | None => Ok total
      | Some p =>
          let remaining := o_qty old - o_filledQty old in
          value ← (if remaining >? 0 then notional p remaining else Ok 0);
          Ok (total - value)
      end
  end.

(** The code's [admit], from the reference price the engine's book gave: structure, then risk. The
    decision is persisted whatever it is. *)
Definition admitOrder (policy : OrderRiskPolicy) (at_ : Z) (userId clientOrderId : string)
  (market : Market) (request : OrderRequest) (reference : option Z) (excluded : option OrderRecord)
  : svc (option Z) :=
  validation ← lift_svc (validateOrder request market reference);
  _ ← fail_if (negb (Orders.ok validation)) (ValidationError (map reason_text (reasons validation)));
  found ← commit (read (fun s => users s !! userId));
  status ← match found with Some st => mret st | None => fails (NotFoundError "user") end;
  count ← commit (countOpenForUser userId (Market.id market));
  total ← openNotionalFor userId market reference;
  openNotional ← lift_svc (exclude_notional total excluded);
  recent ← commit (listPlacementTimes userId (at_ - orderRateWindowSeconds policy * 1000));
  let decision := evaluateOrder
    (mkOrderRiskInput userId status (Market.id market) (Orders.qty request)
       (default 0 (val_notional validation)) (exclude_count count excluded) openNotional recent at_)
    policy in
  _ ← commit (record_decision (mkDecisionRow userId clientOrderId (Market.id market) decision));
  _ ← fail_if (bool_decide (d_verdict decision = deny))
        (PolicyDeniedError (toOrderClientMessage (d_codes decision)));
  mret reference.

(** ** [order.service.ts]: the hold *)

(** The [available] of [getUserTradingBalances] in one asset; the query returns the assets
    of the platform's cluster only. *)
Definition trading_available (cluster : Cluster) (userId asset : string) : tx Z :=
  read (fun s => if assetKeyInCluster asset cluster
                 then credit_balance (userTradingAvailable userId asset) s else 0).

(** The transaction of [createWithHold]: the row first, and its hold only if the row is new. *)
Definition hold_tx (cluster : Cluster) (input : OrderRecord) : tx (bool * OrderRecord) :=
  result ← createPending input;
  match result with
  | existing order => mret (false, order)
  | created order =>
      available ← trading_available cluster (o_user input) (o_holdAsset input);
      _ ← raise_if (available <? o_holdAmount input) InsufficientFundsError;
      _ ← postLedger (postOrderHold (mkHold (o_id order) (o_user input) (o_holdAsset input) (o_holdAmount input)));
      mret (true, order)
  end.

(** [createWithHold], returning whether the order is new. *)
Definition createWithHold (cluster : Cluster) (freshId userId clientOrderId : string) (at_ : Z)
  (market : Market) (request : OrderRequest) (hold : Hold) : svc (bool * OrderRecord) :=
  commit (hold_tx cluster
    (mkOrder freshId userId clientOrderId (Market.id market) (Orders.side request)
       (Orders.type request) (Orders.timeInForce request) (Orders.postOnly request)
       (Orders.price request) (Orders.qty request) 0 Order.PENDING_ENGINE (hold_asset hold)
       (hold_amount hold) None None at_)).

(** What the engine is sent: a market order goes as an IOC limit at the collar's edge. *)
Definition engineTerms (request : OrderRequest) (market : Market) (reference : option Z)
  : result (OrderType * TimeInForce * Z) :=
  match Orders.type request with
  | limit => Ok (limit, Orders.timeInForce request, default 0 (Orders.price request))
  | market_order =>
      match reference with
      | None => Throw (GenericError "unreachable: validated with a reference")
      | Some r =>
          band ← collarBand r market;
          Ok (limit, IOC,
              match Orders.side request with
              | buy => floorToTick (upper band) (tickSize market)
              | sell => ceilToTick (lower band) (tickSize market)
              end)
      end
  end.

(** ** [order.service.ts]: the service *)

Definition get (userId orderId : string) : svc OrderRecord :=
  found ← commit (findById orderId);
  match found with
  | None => fails (NotFoundError "Order not found")
  | Some order =>
      if bool_decide (o_user order = userId) then mret order else fails (NotFoundError "Order not found")
  end.

Record PlaceInput := mkPlaceInput {
  in_userId : string; in_clientOrderId : string; in_side : Side; in_type : OrderType;
  in_timeInForce : TimeInForce; in_price : option Z; in_qty : Z; in_postOnly : bool
}.

Section Service.
(** The engine's answer to a command, or what its client throws on one that cannot be read,
    and the tables once it has answered. *)
Context (engine : EngineCommand -> Store -> result EngineResult * Store).
(** The engine's book: unavailable, or its reference price. *)
Context (book : Store -> option (option Z)).
(** The ids of new rows and the clock. *)
Context (freshId : string) (at_ : Z).
Context (cluster : Cluster) (policy : OrderRiskPolicy) (market : Market).

Definition ask (command : EngineCommand) : svc EngineResult := fun s => engine command s.

Definition reference_price : svc (option Z) := fun s =>
  match book s with
  | None => (Throw (DependencyUnavailableError "matching-engine"), s)
  | Some reference => (Ok reference, s)
  end.

Definition place_request (input : PlaceInput) : OrderRequest :=
  let isMarket := bool_decide (in_type input = market_order) in
  mkRequest (in_clientOrderId input) (Market.id market) (in_side input) (in_type input)
    (if isMarket then IOC else in_timeInForce input)
    (if isMarket then None else in_price input) (in_qty input) (in_postOnly input)
    cancel_taker (in_userId input).

Definition place (input : PlaceInput) : svc OrderRecord :=
  found ← commit (findByClientOrderId (in_userId input) (in_clientOrderId input));
  match found with
  | Some order => mret order
  | None =>
      let request := place_request input in
      reference ← reference_price;
      _ ← admitOrder policy at_ (in_userId input) (in_clientOrderId input) market request reference None;
      hold ← lift_svc (computeHold request market reference);
      '(isNew, order) ← createWithHold cluster freshId (in_userId input) (in_clientOrderId input)
                          at_ market request hold;
      if negb isNew then mret order else
      '(ty, tif, price) ← lift_svc (engineTerms request market reference);
      result ← ask (cmd_place (mkPlace (o_id order) (Orders.side request) ty tif (Some price)
                       (Orders.qty request) (Orders.postOnly request) (in_userId input) at_));
      actOnPlacement order result
  end.

Definition cancelled_qty (orderId : string) (events : list EngineEvent) : option Z :=
  head (omap (fun e => match e with
                       | e_cancelled _ id n => if bool_decide (id = orderId) then Some n else None
                       | _ => None
                       end) events).

Definition cancel (userId orderId : string) : svc OrderRecord :=
  order ← get userId orderId;
  if Order.isTerminalOrder (o_status order) then mret order else
  _ ← fail_if (bool_decide (o_status order = Order.PENDING_ENGINE))
        (ConflictError "This order is still being placed. Try again in a moment.");
  current ← toPendingCancel order;
  if Order.isTerminalOrder (o_status current) then mret current else
  result ← ask (cmd_cancel orderId at_);
  match result with
  | engine_ok _ events =>
      if bool_decide (cancelled_qty orderId events = Some (o_qty current))
      then finalizeUnfilled current (o_status current) Order.CANCELLED "cancelled"
      else mret current
  | _ => mret current
  end.

Fixpoint cancel_each (userId : string) (live : list OrderRecord) : svc (list OrderRecord) :=
  match live with
  | [] => mret []
  | order :: live =>
      result ← (if bool_decide (o_status order = Order.PENDING_ENGINE) then mret order
                else fun s =>
                  match cancel userId (o_id order) s with
                  | (Ok r, s') => (Ok r, s')
                  | (Throw _, s') => (found ← commit (findById (o_id order)); mret (default order found)) s'
                  end);
      rest ← cancel_each userId live;
      mret (result :: rest)
  end.

Definition cancelAll (userId : string) : svc (list OrderRecord) :=
  live ← commit (listOpenForUser userId (Market.id market));
  cancel_each userId live.

Definition amend_request (old : OrderRecord) (userId clientOrderId : string) (price qty : Z)
  : OrderRequest :=
  mkRequest clientOrderId (Market.id market) (o_side old) limit GTC (Some price) qty false
    cancel_taker userId.

(** The engine answered the amend of [old] by [fresh]. *)
Definition settle_amend (old pendingOld fresh : OrderRecord) (result : EngineResult) : svc OrderRecord :=
  match result with
  | engine_refused status _ =>
      finalizeUnfilled fresh Order.PENDING_ENGINE Order.FAILED ("engine_refused_" +:+ pretty status)
  | engine_ambiguous _ => mret fresh
  | engine_ok _ events =>
      _ ← (if negb (Order.isTerminalOrder (o_status pendingOld)) &&
              bool_decide (cancelled_qty (o_id old) events = Some (o_qty old))
           then _ ← finalizeUnfilled pendingOld (o_status pendingOld) Order.CANCELLED "amended"; mret tt
           else mret tt);
      if negb (existsb (fun e => touches e (o_id fresh)) events)
      then finalizeUnfilled fresh Order.PENDING_ENGINE Order.REJECTED "UNKNOWN_ORDER"
      else resolvePending fresh events
  end.

Definition amend (userId orderId clientOrderId : string) (price qty : Z) : svc OrderRecord :=
  old ← get userId orderId;
  _ ← fail_if (negb (bool_decide (o_status old = Order.OPEN)) &&
               negb (bool_decide (o_status old = Order.PARTIALLY_FILLED)))
        (ConflictError "Only a resting order can be amended.");
  _ ← fail_if (negb (bool_decide (o_kind old = limit)))
        (ConflictError "Only a limit order can be amended.");
  found ← commit (findByClientOrderId userId clientOrderId);
  match found with
  | Some order => mret order
  | None =>
      let request := amend_request old userId clientOrderId price qty in
      reference ← reference_price;
      _ ← admitOrder policy at_ userId clientOrderId market request reference (Some old);
      hold ← lift_svc (computeHold request market reference);
      '(isNew, fresh) ← createWithHold cluster freshId userId clientOrderId at_ market request hold;
      if negb isNew then mret fresh else
      pendingOld ← toPendingCancel old;
      result ← ask (cmd_amend (o_id old) (o_id fresh) price qty at_);
      settle_amend old pendingOld fresh result
  end.
End Service.

(** ** [pending-engine-sweeper.ts] *)

Inductive SweepOutcome := resolved | failed | deferred.

Definition SKEW_MARGIN_MS : Z := 60000.

(** [resolve]: only the journal's "never seen", and only once the engine would refuse the
    request for its age, fails an order. [events] is the page after a sequence. *)
Definition sweep (lookup : LookupResult) (events : Z -> option (list EngineEvent))
  (toleranceSeconds at_ : Z) (order : OrderRecord) : svc SweepOutcome :=
  match lookup with
  | seen n _ =>
      match events (n - 1) with
      | None => mret deferred
      | Some page =>
          after ← resolvePending order (filter (fun e => event_seq e = n) page);
          mret (if bool_decide (o_status after = Order.PENDING_ENGINE) then deferred else resolved)
      end
  | never_seen =>
      if at_ - o_createdAt order <=? toleranceSeconds * 1000 + SKEW_MARGIN_MS then mret deferred
      else _ ← failNeverSeen order; mret failed
  | rebuilding | unreachable _ => mret deferred
  end.

(** ** Lemmas: what keeps the books *)

(** A service call that leaves agreeing books agreeing, whether it returns or throws. *)
Class KeepsBooks {A} (m : svc A) : Prop :=
  keeps_books : forall s r s', m s = (r, s') -> books_ok s -> books_ok s'.

#[export] Instance keeps_ret {A} (a : A) : KeepsBooks (mret a).
Proof. intros s r s' [= <- <-]. done. Qed.
#[export] Instance keeps_bind {A B} (m : svc A) (k : A -> svc B) :
  KeepsBooks m -> (forall a, KeepsBooks (k a)) -> KeepsBooks (m ≫= k).
Proof.
  intros Hm Hk s r s' H Hb. unfold mbind, svc_bind in H. destruct (m s) as [[a|e] s1] eqn:E.
  - eapply Hk; [exact H|]. by eapply Hm.
  - injection H as <- <-. by eapply Hm.
Qed.
#[export] Instance keeps_lift {A} (r : result A) : KeepsBooks (lift_svc r).
Proof. intros s r' s' [= <- <-]. done. Qed.
#[export] Instance keeps_fails {A} e : KeepsBooks (@fails A e).
Proof. intros s r' s' [= <- <-]. done. Qed.

Lemma commit_keeps {A} (m : tx A) :
  Grows m -> (forall s a s', core s -> m s = Ok (a, s') -> core s') -> KeepsBooks (commit m).
Proof.
  intros Hg Hc s r s' H Hb. unfold commit in H. destruct (withTransaction m s) as [[a s1]|e] eqn:E.
  - injection H as <- <-. exact (commit_books m s a s1 Hg (Hc s a s1) Hb E).
  - by injection H as <- <-.
Qed.

#[export] Instance keeps_read {A} (f : Store -> A) : KeepsBooks (commit (read f)).
Proof. apply commit_keeps; [apply _|]. intros s a s' Hc H. by inv_tx. Qed.
#[export] Instance keeps_findById id : KeepsBooks (commit (findById id)).
Proof. apply keeps_read. Qed.
#[export] Instance keeps_findClient u c : KeepsBooks (commit (findByClientOrderId u c)).
Proof. apply keeps_read. Qed.
#[export] Instance keeps_listOpen u m : KeepsBooks (commit (listOpenForUser u m)).
Proof. apply keeps_read. Qed.
#[export] Instance keeps_countOpen u m : KeepsBooks (commit (countOpenForUser u m)).
Proof. apply keeps_read. Qed.
#[export] Instance keeps_placements u t : KeepsBooks (commit (listPlacementTimes u t)).
Proof. apply keeps_read. Qed.

#[export] Instance keeps_decision row : KeepsBooks (commit (record_decision row)).
Proof.
  apply commit_keeps.
  - intros s a s' H. unfold record_decision in H. inv_tx. by apply extends_same.
  - intros s a s' (Hw & Hp & Ha) H. unfold record_decision in H. inv_tx.
    split; [|by split]. destruct Hw. by split.
Qed.

Lemma keeps_live_transition id from to patch :
  p_filledQty patch = None -> Order.orderHoldsFunds from = true -> Order.orderHoldsFunds to = true ->
  KeepsBooks (commit (transition id from to patch)).
Proof.
  intros Hp Hf Ht. apply commit_keeps; [apply _|]. intros s a s' Hc H. by apply transition_live_core in H.
Qed.

Lemma finalize_tx_Ok order from to rr s r s' :
  wired s -> finalize_tx order from to rr s = Ok (r, s') ->
  s' = s \/
  exists o s1, o_id o = o_id order /\ o_status o = from /\ r = patch_order to (mkPatch None None rr) o /\
    row_step o r s s1 /\ orders s' = orders s1 /\ fills s' = fills s /\ wired s' /\
    outstanding o s = o_holdAmount o /\
    (forall x, outstanding x s' = outstanding x s +
      (if bool_decide (o_id x = o_id o) then - o_holdAmount o else 0)) /\
    (forall a, credit_balance a s' = credit_balance a s
      + (if bool_decide (userTradingAvailable (o_user o) (o_holdAsset o) = a) then o_holdAmount o else 0)
      - (if bool_decide (userOrderLocked (o_user o) (o_holdAsset o) = a) then o_holdAmount o else 0)).
Proof.
  intros Hw H. unfold finalize_tx in H. inv_tx.
  match goal with H : transition _ _ _ _ _ = _ |- _ =>
    apply (transition_Ok _ _ _ _ _ _ _ (w_ids s Hw)) in H as [_ [[-> ->]|(o & Hid & Hs & -> & Hst)]] end.
  { inv_tx. match goal with H : findById _ _ = _ |- _ => apply findById_Ok in H as [-> _] end. by left. }
  right. inv_tx. match goal with H : row_step _ _ _ ?z |- _ => exists o, z end.
  pose proof (row_step_wired _ _ _ _ Hst Hw) as Hw1.
  pose proof (recordFill_elem _ _ _ _ Hst (w_ids s Hw)) as Ho1.
  match goal with H : releaseOutstanding _ _ _ = _ |- _ =>
    destruct (releaseOutstanding_Ok _ _ _ _ _ Hw1 Ho1 H) as (Hn & _ & Hall & Hord & Hf & Hw2 & Hout);
    pose proof (fun a => releaseOutstanding_credit _ _ _ _ _ a Hw1 Ho1 H) as Hcr end.
  specialize (Hall eq_refl). rewrite Hall in *. simpl in Hn, Hout, Hcr.
  split; [done|]. split; [done|]. split; [done|]. split; [done|]. split; [done|].
  destruct (row_step_fills _ _ _ _ Hst) as [Hf1 _]. split; [congruence|]. split; [done|].
  rewrite (row_step_outstanding _ _ _ _ Hst) in Hn.
  rewrite (outstanding_terms o (patch_order to (mkPatch None None rr) o) s s) in Hn;
    [|apply same_terms_patch|done..].
  split; [done|]. split.
  - intros y. by rewrite Hout, (row_step_outstanding _ _ _ _ Hst).
  - intros a. by rewrite Hcr, (row_step_credit _ _ _ _ Hst).
Qed.

Lemma finalize_tx_core order from to rr s r s' :
  Order.isTerminalOrder to = true -> core s -> finalize_tx order from to rr s = Ok (r, s') -> core s'.
Proof.
  intros Hto (Hw & Hp & Ha) H. apply finalize_tx_Ok in H; [|done].
  destruct H as [->|(o & s1 & Hid & _ & Hr & Hst & Hord & Hf & Hw' & Hn & Hout & _)]; [done|].
  split; [done|]. split.
  - pose proof (row_step_progress _ _ _ _ Hst _ (w_ids s Hw) Hp) as Hp1. intros x Hx.
    rewrite Hord in Hx. rewrite Hf. destruct (row_step_fills _ _ _ _ Hst) as [Hf1 _]. rewrite <- Hf1.
    rewrite <- (Hp1 x Hx), Hr. simpl. case_bool_decide; lia.
  - intros x Hx _. rewrite Hord in Hx.
    apply (row_step_elem _ _ _ _ Hst x (w_ids s Hw)) in Hx as [->|[Hx Hne]].
    + unfold hold_agrees. assert (Hs : o_status r = to) by (by rewrite Hr). rewrite Hs.
      destruct order_machine_holds with to as [Hm _]. rewrite Hm, Hto. simpl.
      rewrite Hout, (outstanding_terms o r s s), (row_step_id _ _ _ _ Hst), bool_decide_eq_true_2;
        [lia|done|by destruct Hst|done..].
    + specialize (Ha x Hx ltac:(set_solver)). unfold hold_agrees in *.
      rewrite Hout, bool_decide_eq_false_2 by done. by rewrite Z.add_0_r.
Qed.

Lemma keeps_finalize order from to reason :
  Order.isTerminalOrder to = true -> KeepsBooks (finalizeUnfilled order from to reason).
Proof.
  intros Hto. apply commit_keeps.
  - unfold finalize_tx, findById. solve_within.
  - intros s a s'. by apply finalize_tx_core.
Qed.

#[export] Instance keeps_pending_cancel n o : KeepsBooks (pending_cancel_loop n o).
Proof.
  revert o. induction n as [|n IH]; intros o; simpl; [apply _|].
  destruct (o_status o) eqn:Hs; simpl; try apply _;
    (apply keeps_bind; [by apply keeps_live_transition|]; intros [m|]; apply _).
Qed.

#[export] Instance keeps_toPendingCancel o : KeepsBooks (toPendingCancel o).
Proof. apply _. Qed.

#[export] Instance keeps_resolve o es : KeepsBooks (resolvePending o es).
Proof.
  unfold resolvePending. case_match; [by apply keeps_finalize|]. case_match; [by apply keeps_finalize|].
  case_match; [apply _|]. apply keeps_bind; [by apply keeps_live_transition|]. intros [m|]; apply _.
Qed.

#[export] Instance keeps_act o r : KeepsBooks (actOnPlacement o r).
Proof. destruct r; simpl; try apply _. by apply keeps_finalize. Qed.

(** ** Lemmas: taking a hold *)

Lemma createPending_Ok input s r s' :
  createPending input s = Ok (r, s') ->
  match r with
  | existing o => s' = s /\ o ∈ orders s /\ o_user o = o_user input /\ o_clientOrderId o = o_clientOrderId input
  | created o => s' = set_orders (orders s ++ [o]) s /\ o_id o = o_id input /\ (o_id o ∉ ids s) /\
      order_row_ok o = true /\ o_filledQty o = 0 /\ o_status o = Order.PENDING_ENGINE /\
      o_user o = o_user input /\ o_holdAsset o = o_holdAsset input /\
      o_holdAmount o = o_holdAmount input /\ o_side o = o_side input /\ o_qty o = o_qty input /\
      o_clientOrderId o = o_clientOrderId input /\
      forall x, x ∈ orders s -> ~ (o_user x = o_user input /\ o_clientOrderId x = o_clientOrderId input)
  end.
Proof.
  intros H. unfold createPending, findByClientOrderId in H. inv_tx. zbool.
  destruct (head (filter _ _)) as [o|] eqn:E; inv_tx.
  - apply head_filter_elem in E as (? & ? & ?). by split_and!.
  - match goal with H : findById _ _ = Ok (?f, _) |- _ => apply findById_Ok in H as [-> Hf]; destruct f end;
      inv_tx.
    split_and!; try done. intros x Hx Hc. by eapply head_filter_absent in E.
Qed.

Lemma hold_tx_Ok cluster input s isNew o s' :
  hold_tx cluster input s = Ok ((isNew, o), s') ->
  if isNew then
    (o_id o ∉ ids s) /\ order_row_ok o = true /\ o_filledQty o = 0 /\ o_status o = Order.PENDING_ENGINE /\
    o_user o = o_user input /\ o_holdAsset o = o_holdAsset input /\ o_holdAmount o = o_holdAmount input /\
    o_side o = o_side input /\ o_qty o = o_qty input /\ o_clientOrderId o = o_clientOrderId input /\
    (forall x, x ∈ orders s -> ~ (o_user x = o_user input /\ o_clientOrderId x = o_clientOrderId input)) /\
    assetKeyInCluster (o_holdAsset o) cluster = true /\
    o_holdAmount o <= credit_balance (userTradingAvailable (o_user o) (o_holdAsset o)) s /\
    exists t, postOrderHold (mkHold (o_id o) (o_user o) (o_holdAsset o) (o_holdAmount o)) = Ok t /\
      s' = set_ledger (ledger s ++ [t]) (set_orders (orders s ++ [o]) s)
  else s' = s /\ o ∈ orders s /\ o_user o = o_user input /\ o_clientOrderId o = o_clientOrderId input.
Proof.
  intros H. unfold hold_tx, trading_available in H. inv_tx.
  match goal with H : createPending _ _ = _ |- _ => apply createPending_Ok in H as Hc end.
  destruct x as [order|order]; inv_tx; simplify_eq; [|exact Hc]. zbool.
  destruct Hc as (-> & Hid & Hni & Hok & Hq & Hs & Hu & Ha & Hn & Hsd & Hqt & Hcl & Hnone).
  match goal with H : postLedger _ _ = _ |- _ => apply postLedger_Ok in H as (t & Ht & -> & _) end.
  assert (Hpos : 0 < o_holdAmount order) by (unfold order_row_ok in Hok; zbool; done).
  match goal with H : o_holdAmount input <= (if ?b then _ else _) |- _ => destruct b eqn:Hb; [|lia] end.
  rewrite Hu, Ha, Hn. split_and!; try done. exists t. by rewrite Hid in *.
Qed.

Lemma hold_tx_core cluster input s r s' :
  core s -> hold_tx cluster input s = Ok (r, s') -> core s'.
Proof.
  destruct r as [[|] o]; intros Hc H; apply hold_tx_Ok in H.
  - destruct H as (Hni & Hok & Hq & Hs & _ & _ & _ & _ & _ & _ & _ & _ & _ & t & Ht & ->).
    apply (hold_step_core s o t); try done. by rewrite Hs.
  - by destruct H as [-> _].
Qed.

Lemma hold_tx_grows cluster input : Grows (hold_tx cluster input).
Proof.
  intros s [[|] o] s' H; apply hold_tx_Ok in H as Hok.
  - destruct Hok as (_ & _ & _ & _ & _ & _ & _ & _ & _ & _ & _ & _ & _ & t & Ht & ->).
    exists [POrderHold (mkHold (o_id o) (o_user o) (o_holdAsset o) (o_holdAmount o))], [t].
    split; [by repeat constructor|done].
  - destruct Hok as [-> _]. reflexivity.
Qed.

#[export] Instance keeps_hold c f u cl t m rq h : KeepsBooks (createWithHold c f u cl t m rq h).
Proof. apply commit_keeps; [apply hold_tx_grows|intros ? ? ?; apply hold_tx_core]. Qed.

#[export] Instance keeps_admit p t u c m rq rf ex : KeepsBooks (admitOrder p t u c m rq rf ex).
Proof.
  unfold admitOrder, openNotionalFor, fail_if. repeat (apply keeps_bind; [try apply _|intros ?]); try apply _;
  case_match; apply _.
Qed.

#[export] Instance keeps_get u id : KeepsBooks (get u id).
Proof. unfold get. apply _ || (apply keeps_bind; [apply _|]; intros [o|]; [case_match|]; apply _). Qed.

Section ServiceKeeps.
Context (engine : EngineCommand -> Store -> result EngineResult * Store) (book : Store -> option (option Z)).
Context (freshId : string) (at_ : Z) (cluster : Cluster) (policy : OrderRiskPolicy) (market : Market).
(** Whatever the other actors do while the engine is asked keeps the books. *)
Context (Hengine : forall c s, books_ok s -> books_ok (engine c s).2).

#[local] Instance keeps_ask c : KeepsBooks (ask engine c).
Proof.
  intros s r s' H Hb. unfold ask in H. specialize (Hengine c s Hb). by rewrite H in Hengine.
Qed.

#[local] Instance keeps_reference : KeepsBooks (reference_price book).
Proof. intros s r s' H Hb. unfold reference_price in H. by destruct (book s); injection H as <- <-. Qed.

Lemma place_keeps input : KeepsBooks (place engine book freshId at_ cluster policy market input).
Proof.
  unfold place. apply keeps_bind; [apply _|]. intros [o|]; [apply _|].
  repeat (apply keeps_bind; [apply _|intros ?]). destruct a2 as [isNew o]. case_match; [apply _|].
  apply keeps_bind; [apply _|]. intros [[ty tif] p]. apply keeps_bind; [apply _|]. intros ?. apply _.
Qed.

#[local] Instance cancel_keeps u id : KeepsBooks (cancel engine at_ u id).
Proof.
  unfold cancel, fail_if. apply keeps_bind; [apply _|]. intros o. case_match; [apply _|].
  apply keeps_bind; [apply _|]. intros _. apply keeps_bind; [apply _|]. intros cur. case_match; [apply _|].
  apply keeps_bind; [apply _|]. intros [n es| |]; try apply _. case_match; [by apply keeps_finalize|apply _].
Qed.

Lemma cancelAll_keeps u : KeepsBooks (cancelAll engine at_ market u).
Proof.
  unfold cancelAll. apply keeps_bind; [apply _|]. intros live. induction live as [|o live IH]; simpl; [apply _|].
  apply keeps_bind; [|intros ?; apply keeps_bind; [apply IH|apply _]]. case_match; [apply _|].
  intros s r s' Hr Hb. destruct (cancel engine at_ u (o_id o) s) as [[c|e] s1] eqn:E.
  - injection Hr as <- <-. by eapply cancel_keeps.
  - assert (Hb1 : books_ok s1) by (by eapply cancel_keeps).
    assert (Hk : KeepsBooks (found ← commit (findById (o_id o)); mret (default o found))) by apply _.
    exact (Hk s1 r s' Hr Hb1).
Qed.

Lemma amend_keeps u id c p q : KeepsBooks (amend engine book freshId at_ cluster policy market u id c p q).
Proof.
  unfold amend, fail_if. repeat (apply keeps_bind; [apply _|intros ?]). case_match; [apply _|].
  repeat (apply keeps_bind; [apply _|intros ?]). destruct a6 as [isNew o]. case_match; [apply _|].
  repeat (apply keeps_bind; [apply _|intros ?]). unfold settle_amend. case_match; [|by apply keeps_finalize|apply _].
  apply keeps_bind; [case_match; [apply keeps_bind; [by apply keeps_finalize|apply _]|apply _]|].
  intros _. case_match; [by apply keeps_finalize|apply _].
Qed.
End ServiceKeeps.

Lemma sweep_keeps lk es tol t o : KeepsBooks (sweep lk es tol t o).
Proof.
  destruct lk; simpl; try apply _.
  - case_match; [apply _|]. apply keeps_bind; [by apply keeps_finalize|apply _].
  - case_match; [|apply _]. apply keeps_bind; apply _.
Qed.

(** ** Lemmas: what a service call does to the tables *)

Lemma commit_cases {A} (m : tx A) s r s' :
  commit m s = (r, s') ->
  (exists a, r = Ok a /\ m s = Ok (a, s')) \/ (exists e, r = Throw e /\ s' = s).
Proof.
  unfold commit. destruct (withTransaction m s) as [[a s1]|e] eqn:E; intros [= <- <-]; [left|right; eauto].
  apply withTransaction_Ok in E as [? _]. eauto.
Qed.

(** A finished order cannot be finalised, whatever the caller believes its status is. *)
Lemma finalize_finished order from to reason s r s' o :
  wired s -> o ∈ orders s -> o_id o = o_id order -> Order.isTerminalOrder (o_status o) = true ->
  finalizeUnfilled order from to reason s = (r, s') -> s' = s.
Proof.
  intros Hw Ho Hid Hterm [(a & -> & H)|(e & -> & ->)]%commit_cases; [|done].
  unfold finalize_tx in H. inv_tx. match goal with H : transition _ _ _ _ _ = _ |- _ =>
    apply (transition_Ok _ _ _ _ _ _ _ (w_ids s Hw)) in H as [Hcan [[-> ->]|(o1 & Hid1 & Hs1 & _ & Hst)]] end.
  - inv_tx. by match goal with H : findById _ _ = _ |- _ => apply findById_Ok in H as [-> _] end.
  - assert (o1 = o) as ->. { eapply (row_unique o_id); [apply Hw|by destruct Hst|done|congruence]. }
    rewrite Hs1 in Hterm. destruct (order_machine_holds from) as [_ Hm].
    rewrite (proj1 Hm Hterm to) in Hcan. done.
Qed.

Lemma transition_ledger id from to patch s r s' :
  commit (transition id from to patch) s = (r, s') -> ledger s' = ledger s.
Proof.
  intros [(a & _ & H)|(e & _ & ->)]%commit_cases; [|done]. unfold transition, update_order in H. inv_tx.
  match goal with H : (if ?b then _ else _) _ = _ |- _ => destruct b; [by inv_tx|] end.
  match goal with H : findById _ _ = _ |- _ => by apply findById_Ok in H as [-> _] end.
Qed.

Lemma commit_findById_ledger id s r s' : commit (findById id) s = (r, s') -> s' = s.
Proof. intros [(a & _ & H)|(e & _ & ->)]%commit_cases; [by apply findById_Ok in H as [-> _]|done]. Qed.

(** What the engine must report about an order for its hold to be released. *)
Definition proves_unfilled (orderId : string) (events : list EngineEvent) : Prop :=
  (exists n reason, e_rejected n orderId reason ∈ events) \/
  ((exists n remaining, e_expired n orderId remaining ∈ events) /\
   forall n f tk mk sd p q, e_fill n f tk mk sd p q ∈ events -> tk <> orderId /\ mk <> orderId).

Lemma resolve_needs_proof o es s r s' :
  resolvePending o es s = (r, s') -> ledger s' <> ledger s -> proves_unfilled (o_id o) es.
Proof.
  intros H Hl. unfold resolvePending in H. set (mine := filter _ es) in *.
  destruct (head (omap rejected_reason mine)) as [why|] eqn:Er.
  { left. destruct (omap rejected_reason mine) as [|w ws] eqn:Eo; [done|].
    assert (Hin : w ∈ omap rejected_reason mine) by (rewrite Eo; set_solver).
    apply list_elem_of_omap in Hin as (e & He & Hw). apply list_elem_of_filter in He as [Ht He].
    destruct e; try discriminate Hw. simpl in Ht. apply bool_decide_eq_true in Ht as ->. eauto. }
  destruct (existsb is_expired mine && negb (existsb is_fill mine)) eqn:Ex.
  { right. apply andb_true_iff in Ex as [Hx Hf]. apply negb_true_iff in Hf. split.
    - apply existsb_exists in Hx as (e & He%list_elem_of_In & Hx). apply list_elem_of_filter in He as [Ht He].
      destruct e; try discriminate Hx. simpl in Ht. apply bool_decide_eq_true in Ht as ->. eauto.
    - intros n f tk mk sd p q He. apply not_true_iff_false in Hf.
      destruct (decide (tk = o_id o \/ mk = o_id o)) as [Ht|Ht]; [|tauto]. destruct Hf.
      apply existsb_exists. exists (e_fill n f tk mk sd p q). split; [|done].
      apply list_elem_of_In, list_elem_of_filter. split; [|done]. simpl.
      apply orb_true_iff. rewrite !bool_decide_eq_true. done. }
  exfalso. apply Hl. destruct mine as [|e mine0]; [by injection H as <- <-|].
  unfold mbind, svc_bind in H. destruct (commit (transition _ _ _ _) s) as [[[m|]|e'] s1] eqn:E.
  - injection H as <- <-. by eapply transition_ledger.
  - destruct (commit (findById (o_id o)) s1) as [[f|e'] s2] eqn:E2; injection H as <- <-;
      apply commit_findById_ledger in E2 as ->; by eapply transition_ledger.
  - injection H as <- <-. by eapply transition_ledger.
Qed.

(** ** Lemmas: the protection price *)

Lemma floorToTick_spec p t : 0 <= p -> 0 < t -> (t | floorToTick p t) /\ 0 <= floorToTick p t <= p.
Proof.
  intros Hp Ht. unfold floorToTick. rewrite quot_nonneg by lia. split; [by eexists|].
  pose proof (Z.mul_div_le p t Ht). pose proof (Z.div_pos p t Hp Ht). nia.
Qed.

Lemma ceilToTick_spec p t : 0 <= p -> 0 < t -> (t | ceilToTick p t) /\ p <= ceilToTick p t.
Proof.
  intros Hp Ht. unfold ceilToTick. rewrite quot_nonneg by lia. split; [by eexists|].
  pose proof (Z.div_mod (p + t - 1) t ltac:(lia)). pose proof (Z.mod_pos_bound (p + t - 1) t Ht). nia.
Qed.

Lemma within_band p x m :
  0 <= p -> 0 <= x -> 0 < collarBps m -> Z.abs (p - x) * BPS_DENOMINATOR <= x * collarBps m ->
  lower (band_value x m) <= p <= upper (band_value x m).
Proof.
  intros Hp Hx Hc H. unfold band_value. simpl.
  assert (Hd : Z.abs (p - x) <= x * collarBps m / BPS_DENOMINATOR)
    by (apply Z.div_le_lower_bound; unfold BPS_DENOMINATOR in *; lia).
  lia.
Qed.

(** ** Properties *)

(** C25: no answer of the engine breaks the books. Whatever the engine and its book answer, and
    whatever the other actors do meanwhile as long as they keep the books themselves,
    placing, cancelling, cancelling all and amending orders, and sweeping stuck ones,
    leave books that agree agreeing, also when the call ends in an error. *)
Theorem gateway_keeps_books engine book freshId at_ cluster policy market s :
  (forall c s, books_ok s -> books_ok (engine c s).2) -> books_ok s ->
  (forall input, books_ok (place engine book freshId at_ cluster policy market input s).2) /\
  (forall u id, books_ok (cancel engine at_ u id s).2) /\
  (forall u, books_ok (cancelAll engine at_ market u s).2) /\
  (forall u id c p q, books_ok (amend engine book freshId at_ cluster policy market u id c p q s).2) /\
  (forall lk es tol o, books_ok (sweep lk es tol at_ o s).2).
Proof.
  intros He Hb.
  assert (Hk : forall A (m : svc A), KeepsBooks m -> books_ok (m s).2).
  { intros A m Hm. destruct (m s) as [r s'] eqn:E. by eapply Hm. }
  split; [intros; by apply Hk, place_keeps|]. split; [intros; by apply Hk, cancel_keeps|].
  split; [intros; by apply Hk, cancelAll_keeps|]. split; [intros; by apply Hk, amend_keeps|].
  intros; apply Hk, sweep_keeps.
Qed.

(** A hold is taken once and exactly. Creating an order either throws and changes nothing;
    or finds the user's order of that client id and changes nothing; or adds one live
    order that holds its whole amount, moved from what the user had available, which
    covered it, with no other account of the user touched; and creating it again under
    the same client id, with any terms, changes nothing. *)
Theorem hold_taken_once cluster freshId userId clientOrderId at_ market request hold s r s' :
  books_ok s ->
  createWithHold cluster freshId userId clientOrderId at_ market request hold s = (r, s') ->
  match r with
  | Throw _ => s' = s
  | Ok (false, o) => s' = s /\ o ∈ orders s /\ o_user o = userId /\ o_clientOrderId o = clientOrderId
  | Ok (true, o) =>
      orders s' = orders s ++ [o] /\ (o_id o ∉ ids s) /\ o_status o = Order.PENDING_ENGINE /\
      o_user o = userId /\ o_clientOrderId o = clientOrderId /\
      outstanding o s' = hold_amount hold /\
      hold_amount hold <= credit_balance (userTradingAvailable userId (hold_asset hold)) s /\
      (forall r, credit_balance r s' = credit_balance r s
         + (if bool_decide (userOrderLocked userId (hold_asset hold) = r) then hold_amount hold else 0)
         - (if bool_decide (userTradingAvailable userId (hold_asset hold) = r) then hold_amount hold else 0)) /\
      forall cluster2 freshId2 at2 market2 request2 hold2 s2,
        (createWithHold cluster2 freshId2 userId clientOrderId at2 market2 request2 hold2 s').2 = s2 -> s2 = s'
  end.
Proof.
  intros Hb [(a & -> & H)|(e & -> & ->)]%commit_cases; [|done].
  destruct a as [[|] o]; [|by apply hold_tx_Ok in H].
  apply hold_tx_Ok in H. simpl in H.
  destruct H as (Hni & Hok & Hq & Hs & Hu & Ha & Hn & _ & _ & Hcid & _ & _ & Hle & t & Ht & ->).
  pose proof (fun x => order_hold_net x _ _ Ht) as Hnet. simpl in Hnet. rewrite Hu, Ha, Hn in Hnet, Hle.
  do 5 (split; [done|]). split; [|split; [done|split]].
  - destruct Hb as [Hw _ _ _]. rewrite <- Hn. exact (new_order_outstanding s o t Hw Hni (proj1 (Hnet (houseFees "")))).
  - intros x. etrans; [exact (credit_balance_app x (set_orders (orders s ++ [o]) s) t)|].
    change (credit_balance x (set_orders _ s)) with (credit_balance x s).
    destruct (Hnet x) as [_ ->]. repeat case_bool_decide; lia.
  - intros cluster2 freshId2 at2 market2 request2 hold2 s2 <-.
    destruct (createWithHold _ _ _ _ _ _ _ _ _) as [r2 s2] eqn:E. simpl.
    apply commit_cases in E as [([isNew o2] & -> & H2)|(e & -> & ->)]; [|done].
    apply hold_tx_Ok in H2. destruct isNew; [|by destruct H2 as [-> _]].
    destruct H2 as (_ & _ & _ & _ & _ & _ & _ & _ & _ & _ & Hnone & _). simpl in Hnone.
    destruct (Hnone o); [set_solver|done].
Qed.

(** An unfilled order is finalised whole and once. Finalising an order either changes nothing, or
    the order was in the status expected, nothing of its hold was consumed, it is
    finished now and holds nothing, and exactly its whole hold went back from the lock
    to what its user has available, no other account moving; and finalising it again, from any
    status to any other, changes nothing. *)
Theorem unfilled_released_whole_once order from to reason s r s' :
  books_ok s -> Order.isTerminalOrder to = true -> finalizeUnfilled order from to reason s = (r, s') ->
  s' = s \/
  exists o o', o ∈ orders s /\ o_id o = o_id order /\ o_status o = from /\
    outstanding o s = o_holdAmount o /\
    o' ∈ orders s' /\ o_id o' = o_id order /\ o_status o' = to /\ outstanding o' s' = 0 /\
    (forall a, credit_balance a s' = credit_balance a s
      + (if bool_decide (userTradingAvailable (o_user o) (o_holdAsset o) = a) then o_holdAmount o else 0)
      - (if bool_decide (userOrderLocked (o_user o) (o_holdAsset o) = a) then o_holdAmount o else 0)) /\
    forall order2 from2 to2 reason2, o_id order2 = o_id order ->
      (finalizeUnfilled order2 from2 to2 reason2 s').2 = s'.
Proof.
  intros [Hw _ _ _] Hto [(a & -> & H)|(e & -> & ->)]%commit_cases; [|by left].
  apply finalize_tx_Ok in H; [|done].
  destruct H as [->|(o & s1 & Hid & Hs & Hr & Hst & Hord & Hf & Hw' & Hn & Hout & Hcr)]; [by left|right].
  assert (Ha : a ∈ orders s') by (rewrite Hord; exact (recordFill_elem _ _ _ _ Hst (w_ids s Hw))).
  pose proof (row_step_id _ _ _ _ Hst) as Haid.
  exists o, a. assert (Hsa : o_status a = to) by (by rewrite Hr).
  split; [by destruct Hst|]. do 3 (split; [done|]). split; [done|]. split; [congruence|]. split; [done|].
  split; [|split; [done|]].
  - rewrite Hout, (outstanding_terms o a s s), Haid, bool_decide_eq_true_2; [lia|done|by destruct Hst|done..].
  - intros order2 from2 to2 reason2 Hid2. destruct (finalizeUnfilled order2 from2 to2 reason2 s') as [r2 s2] eqn:E.
    simpl. eapply finalize_finished; [exact Hw'|exact Ha| | |exact E]; [congruence|by rewrite Hsa].
Qed.

(** A hold goes back only on proof. Acting on a placement's answer moves money only if the engine
    refused the request outright or its events reject the order, or expire it with no
    fill of it among them; an ambiguous answer changes nothing. Sweeping a stuck order
    moves money only on those events of the sequence the journal names, or on "never
    seen" once the order is older than the engine's tolerance and the skew. *)
Theorem release_needs_proof o result lookup events toleranceSeconds at_ s :
  (ledger (actOnPlacement o result s).2 <> ledger s ->
     (exists st e, result = engine_refused st e) \/
     (exists n es, result = engine_ok n es /\ proves_unfilled (o_id o) es)) /\
  (forall cause, result = engine_ambiguous cause -> actOnPlacement o result s = (Ok o, s)) /\
  (ledger (sweep lookup events toleranceSeconds at_ o s).2 <> ledger s ->
     (lookup = never_seen /\ toleranceSeconds * 1000 + SKEW_MARGIN_MS < at_ - o_createdAt o) \/
     (exists n id page, lookup = seen n id /\ events (n - 1) = Some page /\
        proves_unfilled (o_id o) (filter (fun e => event_seq e = n) page))).
Proof.
  split; [|split].
  - destruct result as [n es|st e|c]; simpl; [|eauto|done]. destruct (resolvePending o es s) as [r s'] eqn:E.
    simpl. intros Hl. right. exists n, es. split; [done|]. by eapply resolve_needs_proof.
  - by intros cause ->.
  - destruct lookup as [|n id| |]; simpl; try done.
    + destruct (Z.leb_spec (at_ - o_createdAt o) (toleranceSeconds * 1000 + SKEW_MARGIN_MS)); [done|]. auto.
    + destruct (events (n - 1)) as [page|] eqn:Ep; [|done]. unfold mbind, svc_bind.
      destruct (resolvePending o _ s) as [[m|e] s'] eqn:E; simpl; intros Hl; right; exists n, id, page;
        (split; [done|]); (split; [done|]); by eapply resolve_needs_proof.
Qed.


(** ** Witnesses *)

(** Two users with trading balances: deposited, locked and allocated to the clearing tier. *)
Definition demo_funding : list Posting :=
  [PDeposit (mkDeposit "d1" "alice" "devnet:USDC" 1000000000 None);
   PDeposit (mkDeposit "d2" "bob" "devnet:SOL" 5000000000 None);
   PWithdrawalLock (mkLock "w1" "alice" "devnet:USDC" 1000000000);
   PWithdrawalLock (mkLock "w2" "bob" "devnet:SOL" 5000000000);
   PAllocation (mkAllocation "w1" "alice" "devnet:USDC" 1000000000 None None);
   PAllocation (mkAllocation "w2" "bob" "devnet:SOL" 5000000000 None None)].

Definition demo_users : gmap string AccountStatus := {["alice" := active; "bob" := active]}.

Definition demo_funded : Store :=
  match fund demo_funding (empty_store demo_users) with Ok s => s | Throw _ => empty_store demo_users end.

Lemma demo_funded_ok : fund demo_funding (empty_store demo_users) = Ok demo_funded.
Proof. vm_compute. reflexivity. Qed.

Lemma demo_funded_books : books_ok demo_funded.
Proof.
  apply (fund_books demo_funding (empty_store demo_users)); [reflexivity|apply empty_books|apply demo_funded_ok].
Qed.

Definition demo_risk : OrderRiskPolicy :=
  mkOrderPolicy {["devnet:SOL-USDC" := 1000000000000]} 10 60 10 {["devnet:SOL-USDC" := 1000000000000]}.

(** An engine that rests every order and leaves the tables alone, and its book. *)
Definition resting_engine (c : EngineCommand) (s : Store) : result EngineResult * Store :=
  match c with
  | cmd_place p => (Ok (engine_ok 1 [e_accepted 1 (pl_orderId p) (pl_qty p)]), s)
  | cmd_cancel id _ => (Ok (engine_ok 2 [e_cancelled 2 id 2000000000]), s)
  | cmd_amend _ _ _ _ _ => (Ok (engine_ambiguous "timeout"), s)
  end.

Definition quiet_book (s : Store) : option (option Z) := Some (Some 150000000).

Lemma resting_engine_keeps c s : books_ok s -> books_ok (resting_engine c s).2.
Proof. by destruct c. Qed.

Definition alice_order : string := "00000000-0000-4000-8000-00000000000a".
Definition bob_order : string := "00000000-0000-4000-8000-00000000000b".

Definition alice_buys : PlaceInput :=
  mkPlaceInput "alice" "client-1" buy limit GTC (Some 150000000) 2000000000 false.
Definition bob_sells : PlaceInput :=
  mkPlaceInput "bob" "client-2" sell limit GTC (Some 150000000) 2000000000 false.

Definition demo_place (id : string) (input : PlaceInput) : svc OrderRecord :=
  place resting_engine quiet_book id 1000 devnet demo_risk demo_market input.

(** The placement goes through, and the order is resting with its hold taken. *)
Lemma demo_placed :
  exists o s, demo_place alice_order alice_buys demo_funded = (Ok o, s) /\ o_status o = Order.OPEN /\
    credit_balance (userOrderLocked "alice" "devnet:USDC") s = 300600000.
Proof. eexists _, _. split; [vm_compute; reflexivity|]. split; vm_compute; reflexivity. Qed.

Lemma gateway_keeps_books_witness :
  books_ok (demo_place alice_order alice_buys demo_funded).2 /\
  books_ok (cancel resting_engine 1000 "alice" alice_order (demo_place alice_order alice_buys demo_funded).2).2.
Proof.
  pose proof (gateway_keeps_books resting_engine quiet_book alice_order 1000 devnet demo_risk demo_market) as Hk.
  assert (H : books_ok (demo_place alice_order alice_buys demo_funded).2).
  - unfold demo_place. exact (proj1 (Hk demo_funded resting_engine_keeps demo_funded_books) alice_buys).
  - split; [exact H|]. exact (proj1 (proj2 (Hk _ resting_engine_keeps H)) "alice" alice_order).
Defined.

Definition alice_request : OrderRequest := place_request demo_market alice_buys.
Definition alice_hold : Hold := mkHoldTerms "devnet:USDC" 300600000 600000.

Lemma hold_taken_once_witness :
  exists o s, createWithHold devnet alice_order "alice" "client-1" 1000 demo_market alice_request alice_hold
                demo_funded = (Ok (true, o), s) /\
    outstanding o s = 300600000 /\
    credit_balance (userTradingAvailable "alice" "devnet:USDC") s =
      credit_balance (userTradingAvailable "alice" "devnet:USDC") demo_funded - 300600000 /\
    (createWithHold devnet bob_order "alice" "client-1" 2000 demo_market alice_request alice_hold s).2 = s.
Proof.
  eexists _, _. split; [vm_compute; reflexivity|].
  pose proof (hold_taken_once devnet alice_order "alice" "client-1" 1000 demo_market alice_request alice_hold
                demo_funded _ _ demo_funded_books ltac:(vm_compute; reflexivity)) as H.
  cbv beta iota in H. destruct H as (_ & _ & _ & _ & _ & Hout & _ & Hcr & Hagain).
  split; [exact Hout|]. split.
  - rewrite Hcr. rewrite bool_decide_eq_false_2 by discriminate. rewrite bool_decide_eq_true_2 by reflexivity.
    simpl. lia.
  - by apply (Hagain devnet bob_order 2000 demo_market alice_request alice_hold).
Defined.

(** The tables with alice's order waiting for the engine. *)
Definition demo_pending : Store :=
  (createWithHold devnet alice_order "alice" "client-1" 1000 demo_market alice_request alice_hold demo_funded).2.

Definition demo_order : OrderRecord :=
  match createWithHold devnet alice_order "alice" "client-1" 1000 demo_market alice_request alice_hold
          demo_funded with
  | (Ok (_, o), _) => o
  | _ => mkOrder "" "" "" "" buy limit GTC false None 0 0 Order.FAILED "" 0 None None 0
  end.

Lemma demo_pending_books : books_ok demo_pending.
Proof.
  unfold demo_pending. destruct (createWithHold _ _ _ _ _ _ _ _ _) as [r s] eqn:E.
  eapply (keeps_hold _ _ _ _ _ _ _ _); [exact E|apply demo_funded_books].
Qed.

Lemma unfilled_released_whole_once_witness :
  exists r s, finalizeUnfilled demo_order Order.PENDING_ENGINE Order.REJECTED "POST_ONLY_WOULD_CROSS"
                demo_pending = (r, s) /\
    (s = demo_pending \/
     exists o o', o ∈ orders demo_pending /\ o_id o = o_id demo_order /\ o_status o = Order.PENDING_ENGINE /\
       outstanding o demo_pending = o_holdAmount o /\
       o' ∈ orders s /\ o_id o' = o_id demo_order /\ o_status o' = Order.REJECTED /\ outstanding o' s = 0 /\
       (forall a, credit_balance a s = credit_balance a demo_pending
         + (if bool_decide (userTradingAvailable (o_user o) (o_holdAsset o) = a) then o_holdAmount o else 0)
         - (if bool_decide (userOrderLocked (o_user o) (o_holdAsset o) = a) then o_holdAmount o else 0)) /\
       forall order2 from2 to2 reason2, o_id order2 = o_id demo_order ->
         (finalizeUnfilled order2 from2 to2 reason2 s).2 = s).
Proof.
  eexists _, _. split; [vm_compute; reflexivity|].
  eapply (unfilled_released_whole_once demo_order Order.PENDING_ENGINE Order.REJECTED "POST_ONLY_WOULD_CROSS").
  - apply demo_pending_books.
  - reflexivity.
  - vm_compute. reflexivity.
Defined.

Lemma release_needs_proof_witness :
  (ledger (actOnPlacement demo_order (engine_ok 7 [e_rejected 7 alice_order "POST_ONLY_WOULD_CROSS"])
             demo_pending).2 <> ledger demo_pending) /\
  ((exists st e, engine_ok 7 [e_rejected 7 alice_order "POST_ONLY_WOULD_CROSS"] = engine_refused st e) \/
   (exists n es, engine_ok 7 [e_rejected 7 alice_order "POST_ONLY_WOULD_CROSS"] = engine_ok n es /\
      proves_unfilled (o_id demo_order) es)).
Proof.
  assert (H : ledger (actOnPlacement demo_order
                (engine_ok 7 [e_rejected 7 alice_order "POST_ONLY_WOULD_CROSS"]) demo_pending).2
              <> ledger demo_pending).
  - vm_compute. discriminate.
  - split; [exact H|].
    exact (proj1 (release_needs_proof demo_order (engine_ok 7 [e_rejected 7 alice_order "POST_ONLY_WOULD_CROSS"])
                    (unreachable "") (fun _ => None) 30 0 demo_pending) H).
Defined.

Definition market_buy : OrderRequest :=
  mkRequest "client-3" "devnet:SOL-USDC" buy market_order IOC None 2000000000 false cancel_taker "alice".

