(* ===== verification/System.v ===== *)
(** * The trading system

    The transactions that change the trading tables, from the gateway, the sweeper, the
    settlement worker and the services that post to the ledger, as the steps of one
    transition relation: each is one serialised transaction, in any order and for any
    arguments. What holds of every reachable state is therefore what holds however the
    actors interleave. *)

From S2P Require Import Prelude Risk Decimal Assets Price Market Orders Ledger Postings States Store Events Settlement Consumer Worker Books Gateway.
From Stdlib Require Import ZArith Lia.
From stdpp Require Import base list strings gmap relations.

Open Scope string_scope.
Open Scope list_scope.
Open Scope Z_scope.

(** ** The step relation *)

Inductive step_with (may_post : Posting -> bool) (s s' : Store) : Prop :=
| settles parse name market key event out :
    withTransaction (settle_event parse name market key event) s = Ok (out, s') -> step_with may_post s s'
| takes_hold cluster input r :
    withTransaction (hold_tx cluster input) s = Ok (r, s') -> step_with may_post s s'
| finalizes order from to rejectReason r :
    Order.isTerminalOrder to = true ->
    withTransaction (finalize_tx order from to rejectReason) s = Ok (r, s') -> step_with may_post s s'
| accepts orderId seq r :
    withTransaction (transition orderId Order.PENDING_ENGINE Order.OPEN (mkPatch None (Some seq) None)) s
      = Ok (r, s') -> step_with may_post s s'
| requests_cancel orderId from r :
    from = Order.OPEN \/ from = Order.PARTIALLY_FILLED ->
    withTransaction (transition orderId from Order.PENDING_CANCEL no_patch) s = Ok (r, s') -> step_with may_post s s'
| posts p u :
    may_post p = true -> withTransaction (postLedger (post p)) s = Ok (u, s') -> step_with may_post s s'.

Arguments settles {may_post s s'}.
Arguments takes_hold {may_post s s'}.
Arguments finalizes {may_post s s'}.
Arguments accepts {may_post s s'}.
Arguments requests_cancel {may_post s s'}.
Arguments posts {may_post s s'}.

(** The other services post anything that is not about orders. *)
Definition step : Store -> Store -> Prop := step_with (fun p => negb (about_orders p)).

(** What a reachable state satisfies: the books agree, and the ledger is a history of postings. *)
Definition sound (s : Store) : Prop := books_ok s /\ exists ps, all_entries s = history ps.

(** ** Lemmas *)

Lemma history_app ps qs : history (ps ++ qs) = history ps ++ history qs.
Proof. induction ps as [|p ps IH]; simpl; [done|]. by rewrite IH, app_assoc. Qed.

Lemma commit_history {A} (fn : tx A) s a s' :
  Grows fn -> withTransaction fn s = Ok (a, s') ->
  (exists ps, all_entries s = history ps) -> exists ps, all_entries s' = history ps.
Proof.
  intros Hg (Hrun & _)%withTransaction_Ok [ps Hps].
  destruct (Hg s a s' Hrun) as (qs & ts & Hqs & Hl). exists (ps ++ qs).
  rewrite history_app, <- (posted_history qs ts Hqs), <- Hps. unfold all_entries.
  by rewrite Hl, map_app, join_app.
Qed.

Lemma commit_sound {A} (fn : tx A) s a s' :
  Grows fn -> (forall s a s', core s -> fn s = Ok (a, s') -> core s') ->
  withTransaction fn s = Ok (a, s') -> sound s -> sound s'.
Proof.
  intros Hg Hk H [Hb Hh]. split; [|by eapply commit_history].
  exact (commit_books fn s a s' Hg (Hk s a s') Hb H).
Qed.

(** The advance of a worker's offset is no business of the books. *)
#[export] Instance advanceOffset_grows name market key : Grows (advanceOffset name market key).
Proof.
  intros s b s' H. unfold advanceOffset in H. inv_tx. apply extends_same. by case_match.
Qed.

Lemma core_offsets m s : core s -> core (set_offsets m s).
Proof. intros (Hw & Hp & Ha). split; [|by split]. destruct Hw. by split. Qed.

#[export] Instance settle_event_grows parse name market key event :
  Grows (settle_event parse name market key event).
Proof.
  unfold settle_event, consume. pose proof (apply_within extends market key event). solve_within.
Qed.

Lemma settle_event_core parse name market key event s out s' :
  core s -> settle_event parse name market key event s = Ok (out, s') -> core s'.
Proof.
  intros Hc H. unfold settle_event, consume, advanceOffset in H. inv_tx.
  match goal with H : apply_event _ _ _ = _ |- _ => apply apply_core in H; [|done] end.
  case_match; [by apply core_offsets|done].
Qed.

Lemma step_sound s s' : step s s' -> sound s -> sound s'.
Proof.
  intros [parse name market key event out H|cluster input r H|order from to rr r Hto H|id n r H|id from r Hf H|p u Hp H].
  - eapply commit_sound; [| |exact H]; [apply _|intros ? ? ?; apply settle_event_core].
  - eapply commit_sound; [| |exact H]; [apply hold_tx_grows|intros ? ? ?; apply hold_tx_core].
  - eapply commit_sound; [| |exact H]; [unfold finalize_tx, findById; solve_within|].
    intros ? ? ?. by apply finalize_tx_core.
  - eapply commit_sound; [| |exact H]; [apply (within_transition extends)|]. intros ? ? ? Hc Ht. by apply transition_live_core in Ht.
  - eapply commit_sound; [| |exact H]; [apply (within_transition extends)|]. intros ? ? ? Hc Ht.
    destruct Hf as [-> | ->]; by apply transition_live_core in Ht.
  - intros [Hb Hh]. split; [eapply posting_books; [by apply negb_true_iff|done..]|]. eapply commit_history; [apply grows_post|exact H|done].
Qed.

Lemma empty_sound us : sound (empty_store us).
Proof. split; [apply empty_books|]. by exists []. Qed.

Lemma reachable_sound us s : rtc step (empty_store us) s -> sound s.
Proof.
  intros H. remember (empty_store us) as s0. assert (Hs : sound s0) by (subst; apply empty_sound). clear Heqs0.
  induction H as [|s1 s2 s3 H12 _ IH]; [done|]. apply IH. by apply (step_sound s1).
Qed.

Lemma reconciled s cluster :
  books_ok s -> orderLockMismatches cluster s = Ok (0, s) /\ negativeTradingAccounts cluster s = Ok (0, s).
Proof.
  intros Hb. unfold orderLockMismatches, negativeTradingAccounts, read. split.
  - rewrite filter_none; [done|]. intros [u a] _ Hne. apply Hne. by apply books_locks.
  - rewrite filter_none; [done|]. intros [[u|] a ty] _ (Ho & Hty & _ & Hneg); [|done].
    simpl in Hty. pose proof (b_trading s Hb u a ty Hty). lia.
Qed.

Lemma fund_reachable ps s s' :
  forallb (fun p => negb (about_orders p)) ps = true -> fund ps s = Ok s' -> rtc step s s'.
Proof.
  revert s. induction ps as [|p ps IH]; intros s Hp H; simpl in *; [injection H as <-; apply rtc_refl|].
  apply andb_true_iff in Hp as [Hp Hps]. apply negb_true_iff in Hp.
  destruct (withTransaction _ s) as [[u s1]|] eqn:E; [|done].
  eapply rtc_l; [eapply posts; [by rewrite Hp|done]|]. by apply IH.
Qed.

Lemma hold_reachable cluster freshId u c t market request hold s r s' :
  createWithHold cluster freshId u c t market request hold s = (Ok r, s') -> rtc step s s'.
Proof.
  unfold createWithHold, commit. destruct (withTransaction _ s) as [[a s1]|] eqn:E; intros [= _ <-].
  apply rtc_once. by eapply takes_hold.
Qed.

(** ** A market of small lots *)

(** A coherent market whose lot is one base unit, and an order on it worth one quote unit. *)
Definition dust_market : Market :=
  mkMarket "devnet:SOL-USDC" devnet "SOL-USDC" "devnet:SOL" "devnet:USDC" 1 1 1 1000 open.

Definition dust_input : PlaceInput :=
  mkPlaceInput "alice" "client-1" buy limit GTC (Some 600000000) 3 false.

Definition dust_request : OrderRequest := place_request dust_market dust_input.
Definition dust_hold : Hold := mkHoldTerms "devnet:USDC" 1 0.

Definition dust_sale : OrderRequest :=
  place_request dust_market (mkPlaceInput "bob" "client-2" sell limit IOC (Some 600000000) 2 false).

Definition dust_buy_held : svc (bool * OrderRecord) :=
  createWithHold devnet alice_order "alice" "client-1" 1000 dust_market dust_request dust_hold.
Definition dust_sale_held : svc (bool * OrderRecord) :=
  createWithHold devnet bob_order "bob" "client-2" 1000 dust_market dust_sale (mkHoldTerms "devnet:SOL" 2 0).

(** Both orders held, the purchase first. *)
Definition dust_store : Store := (dust_sale_held (dust_buy_held demo_funded).2).2.

Definition demo_settlement_market : SettlementMarket :=
  mkSettlementMarket "devnet:SOL-USDC" "devnet:SOL" "devnet:USDC".

(** The sale takes two of the three units at the limit price. *)
Definition dust_fill : FillEvent :=
  mkFillEvent 2 "2:0" bob_order alice_order sell 600000000 2 1700000000000.

(** ** Properties *)

(** C1: the trading system is sound. From empty tables, after any sequence of transactions of the
    gateway, the sweeper, settlement and the services that post to the ledger, in any
    interleaving: what is locked for every user in every asset is what the user's live
    orders hold, every order's progress is the sum of its fills, live orders hold
    something and finished ones nothing, no trading account is negative, both
    reconciliation checks count no discrepancy, and the accounting equations of both
    tiers and the segregation of users' addresses hold of the ledger. *)
Theorem reachable_system_sound us s :
  rtc step (empty_store us) s ->
  books_ok s /\
  (forall cluster, orderLockMismatches cluster s = Ok (0, s) /\ negativeTradingAccounts cluster s = Ok (0, s)) /\
  tiers_agree (all_entries s).
Proof.
  intros [Hb [ps Hps]]%reachable_sound. split; [done|]. split; [intros; by apply reconciled|].
  rewrite Hps. apply history_tiers.
Qed.

(** Settlement keeps the books. If, before the transaction that applies one engine event and
    advances the worker's offset, what the
    ledger has locked for every user in every asset is what that user's orders still
    hold, every order's filled quantity is the sum of its fills, every live order holds
    something, every finished one exactly nothing and no trading account is negative,
    then the same is true after it commits, whichever event it was. *)
Theorem settlement_keeps_books parse name market key event s out s' :
  books_ok s -> withTransaction (settle_event parse name market key event) s = Ok (out, s') -> books_ok s'.
Proof. apply commit_books; [apply _|apply settle_event_core]. Qed.

(** C2: a fill settles exactly once. Applied to books that agree, a fill event either finds a fill of
    its id, reports a duplicate and leaves the orders, the fills and the ledger as they
    were, or finds none and adds exactly one row with its id and quantity for its two
    orders; and an event that has settled is a duplicate whenever it is applied again
    to books that still hold its fill. *)
Theorem fill_settles_exactly_once market key event s out s' :
  books_ok s -> Settlement.apply market key (fill event) s = Ok (out, s') ->
  let id := settlementFillId market (ev_fillId event) in
  ((id ∈ Store.f_fillId <$> fills s) /\ out = duplicate /\
   orders s' = orders s /\ fills s' = fills s /\ ledger s' = ledger s) \/
  ((id ∉ Store.f_fillId <$> fills s) /\
   (exists fees, out = fill_settled (m_quoteAsset market) fees (ev_timestampMs event)) /\
   (exists row, fills s' = fills s ++ [row] /\ Store.f_fillId row = id /\ Store.f_qty row = ev_qty event /\
      f_takerOrderId row = ev_takerOrderId event /\ f_makerOrderId row = ev_makerOrderId event) /\
   forall s1 key1 out1 s2, books_ok s1 -> fills s' ⊆ fills s1 ->
     Settlement.apply market key1 (fill event) s1 = Ok (out1, s2) ->
     out1 = duplicate /\ orders s2 = orders s1 /\ fills s2 = fills s1 /\ ledger s2 = ledger s1).
Proof.
  intros [Hc _]%books_ok_core H id. apply settleFill_Ok in H; [|done]. fold id in H.
  destruct H as [(-> & Hin & ss & ->)|(fees & row & -> & Hni & _ & Hf & Hid & Hq & Ht & Hm)]; [by left|].
  right. split; [done|]. split; [eauto|]. split; [eauto 10|].
  intros s1 key1 out1 s2 [Hc1 _]%books_ok_core Hsub H1. apply settleFill_Ok in H1; [|done].
  destruct H1 as [(-> & _ & ss & ->)|(? & ? & _ & Hni1 & _)]; [done|]. destruct Hni1. fold id. rewrite <- Hid.
  apply list_elem_of_fmap_2, Hsub. rewrite Hf. set_solver.
Qed.

(** C39: a legitimate partial fill can halt settlement. On a coherent market an order validates, is held
    for exactly the hold the gateway computes, and a fill of part of it at its own limit
    price consumes that hold to the last unit, because the notional of a part rounds to
    as much as the notional of the whole; the order is then live with nothing held and
    settlement stops at that event. *)
Theorem dust_fill_halts_settlement :
  market_wf dust_market /\
  (exists v, validateOrder dust_request dust_market (Some 600000000) = Ok v /\ Orders.ok v = true) /\
  computeHold dust_request dust_market (Some 600000000) = Ok dust_hold /\
  rtc step (empty_store demo_users) dust_store /\
  (exists o, o ∈ orders dust_store /\ o_id o = ev_makerOrderId dust_fill /\
     o_price o = Some (ev_price dust_fill) /\ o_filledQty o + ev_qty dust_fill < o_qty o) /\
  withTransaction (Settlement.apply demo_settlement_market (mkKey 2 0) (fill dust_fill)) dust_store
    = Throw (SettlementHaltError "holding_order_holds_nothing").
Proof.
  split; [split; vm_compute; repeat split; done|].
  split; [eexists; split; [vm_compute; reflexivity|reflexivity]|]. split; [vm_compute; reflexivity|].
  split.
  { assert (H1 : exists r, dust_buy_held demo_funded = (Ok r, (dust_buy_held demo_funded).2))
      by (eexists; vm_compute; reflexivity).
    assert (H2 : exists r, dust_sale_held (dust_buy_held demo_funded).2 = (Ok r, dust_store))
      by (eexists; vm_compute; reflexivity).
    destruct H1 as [r1 H1], H2 as [r2 H2].
    etrans; [apply (fund_reachable demo_funding); [reflexivity|apply demo_funded_ok]|].
    etrans; eapply hold_reachable; [exact H1|exact H2]. }
  split.
  { eexists. split; [vm_compute; left|]. vm_compute. done. }
  vm_compute. reflexivity.
Qed.

(** ** Witnesses *)

(** Bob's sale, held next to alice's purchase. *)
Definition bob_request : OrderRequest := place_request demo_market bob_sells.
Definition bob_hold : Hold := mkHoldTerms "devnet:SOL" 2000000000 0.

Definition demo_both : Store :=
  (createWithHold devnet bob_order "bob" "client-2" 1000 demo_market bob_request bob_hold demo_pending).2.

Lemma demo_both_reachable : rtc step (empty_store demo_users) demo_both.
Proof.
  etrans; [apply (fund_reachable demo_funding); [reflexivity|apply demo_funded_ok]|].
  assert (H1 : exists r, createWithHold devnet alice_order "alice" "client-1" 1000 demo_market alice_request
                 alice_hold demo_funded = (Ok r, demo_pending)) by (eexists; vm_compute; reflexivity).
  assert (H2 : exists r, createWithHold devnet bob_order "bob" "client-2" 1000 demo_market bob_request
                 bob_hold demo_pending = (Ok r, demo_both)) by (eexists; vm_compute; reflexivity).
  destruct H1 as [r1 H1], H2 as [r2 H2].
  etrans; eapply hold_reachable; [exact H1|exact H2].
Qed.

(** Alice's purchase takes half of bob's sale. *)
Definition demo_fill : FillEvent :=
  mkFillEvent 2 "2:0" alice_order bob_order buy 150000000 1000000000 1700000000000.

(** A text of the engine that the demonstrations leave as it is. *)
Definition demo_parse (text : string) : result value := Ok (v_string text).

Definition demo_settle (s : Store) : result (ApplyOutcome * Store) :=
  withTransaction (settle_event demo_parse "settlement" demo_settlement_market (mkKey 2 0) (fill demo_fill)) s.

Definition demo_settled : Store :=
  match demo_settle demo_both with Ok (_, s) => s | Throw _ => demo_both end.

Lemma demo_settle_ok :
  withTransaction (settle_event demo_parse "settlement" demo_settlement_market (mkKey 2 0) (fill demo_fill)) demo_both
    = Ok (fill_settled "devnet:USDC" 450000 1700000000000, demo_settled).
Proof. vm_compute. reflexivity. Qed.

Lemma reachable_system_sound_witness :
  rtc step (empty_store demo_users) demo_settled /\
  credit_balance (userOrderLocked "alice" "devnet:USDC") demo_settled = 150300000 /\ books_ok demo_settled.
Proof.
  assert (H : rtc step (empty_store demo_users) demo_settled).
  - etrans; [apply demo_both_reachable|]. apply rtc_once.
    eapply settles. exact demo_settle_ok.
  - split; [exact H|]. split; [vm_compute; reflexivity|].
    exact (proj1 (reachable_system_sound demo_users demo_settled H)).
Defined.

Lemma demo_both_books : books_ok demo_both.
Proof. exact (proj1 (reachable_sound demo_users demo_both demo_both_reachable)). Qed.

Lemma settlement_keeps_books_witness : books_ok demo_settled.
Proof.
  apply (settlement_keeps_books demo_parse "settlement" demo_settlement_market (mkKey 2 0) (fill demo_fill) demo_both
           (fill_settled "devnet:USDC" 450000 1700000000000)).
  - apply demo_both_books.
  - exact demo_settle_ok.
Defined.

(** The same tables without the worker's offset. *)
Definition demo_applied : Store := set_offsets ∅ demo_settled.

(** Applied again under a later key, the event is a duplicate. *)
Lemma fill_settles_exactly_once_witness :
  exists s2 out,
    Settlement.apply demo_settlement_market (mkKey 9 0) (fill demo_fill) demo_settled = Ok (out, s2) /\
    out = duplicate /\ orders s2 = orders demo_settled /\ ledger s2 = ledger demo_settled.
Proof.
  eexists _, _. split; [vm_compute; reflexivity|].
  assert (Hb : books_ok demo_settled).
  - apply (proj1 (B := exists ps, all_entries demo_settled = history ps)).
    apply (step_sound demo_both); [|exact (reachable_sound demo_users demo_both demo_both_reachable)].
    eapply settles. exact demo_settle_ok.
  - destruct (fill_settles_exactly_once demo_settlement_market (mkKey 2 0) demo_fill demo_both
                (fill_settled "devnet:USDC" 450000 1700000000000) demo_applied demo_both_books
                ltac:(vm_compute; reflexivity)) as [H|H].
    + destruct H as (_ & H & _). discriminate H.
    + destruct H as (_ & _ & _ & Hagain).
      destruct (Hagain demo_settled (mkKey 9 0) _ _ Hb (fun x H => H) ltac:(vm_compute; reflexivity))
        as (H1 & H2 & _ & H3).
      split; [exact H1|]. split; [exact H2|exact H3].
Defined.
