(* ===== verification/Pipeline.v ===== *)
(** * From the engine to the books

    Proofs about the settlement worker as a whole: [Consumer] running [Worker]'s instance
    over the tables of [System]. Its passes are transactions of the system, whatever the
    outside does in between; the witnesses run it over a scripted stream and journal; and
    what the worker never gets past is exhibited. No code is modelled here. *)

From S2P Require Import Prelude Assets Market Orders Ledger Postings States Store Events Settlement.
From S2P Require Import Books Gateway System Consumer Delivery Replay Source Worker.
From Stdlib Require Import ZArith Lia.
From stdpp Require Import base list strings gmap relations.

Open Scope string_scope.
Open Scope list_scope.
Open Scope Z_scope.

(** ** The worker, abstractly *)

Section Deliveries.
Context {Event Outcome W : Type} `{!Consumable Event Outcome} `{!World W}.
Context (parseEngineJson : string -> result value) (name market : string) (retries pages : nat).

Local Abbreviation Sys := (@Sys Event Outcome W).
Local Abbreviation run := (@run Event Outcome W).

(** What the others may do to the tables. *)
Context (T : Store -> Store -> Prop) `{!PreOrder T}.

(** An event that a worker at [o] may commit: it is at the key that follows, under its own
    sequence, and was decoded. *)
Definition due (o k : EventKey) (e : Event) : Prop :=
  follows o k = true /\ seq_of_event e = Store.seq k /\ exists raw, Consumer.decode raw = Ok e.

(** Runs of the abstract worker, from a position and tables to a position and tables, labelled
    with the events it reports. The others act; or it commits the event that is due, with the
    offset, and moves to its key; or it commits it and does not learn so. *)
Inductive delivery : EventKey -> Store -> list (EventKey * Event) -> EventKey -> Store -> Prop :=
| dv_end o d : delivery o d [] o d
| dv_others o d d1 es o' d' : T d d1 -> delivery o d1 es o' d' -> delivery o d es o' d'
| dv_seen o d k e out d1 es o' d' :
    due o k e -> withTransaction (consume name market k e) d = Ok (out, d1) ->
    delivery k d1 es o' d' -> delivery o d ((k, e) :: es) o' d'
| dv_unseen o d k e out d1 es o' d' :
    due o k e -> withTransaction (consume name market k e) d = Ok (out, d1) ->
    delivery o d1 es o' d' -> delivery o d es o' d'.

Lemma delivery_app o d es m dm es' o' d' :
  delivery o d es m dm -> delivery m dm es' o' d' -> delivery o d (es ++ es') o' d'.
Proof. induction 1; intros H'; simpl; [done|eapply dv_others|eapply dv_seen|eapply dv_unseen]; eauto. Qed.

(** A run of the abstract worker is one of any relation that its transactions respect. *)
Lemma delivery_within (R : Store -> Store -> Prop) `{!PreOrder R} o d es o' d' :
  (forall d d', T d d' -> R d d') ->
  (forall k e d out d', withTransaction (consume name market k e) d = Ok (out, d') -> R d d') ->
  delivery o d es o' d' -> R d d'.
Proof. intros HT Hc. induction 1; [done|etrans; [by apply HT|done]|etrans; [by eapply Hc|done]..]. Qed.

Record around : Prop := {
  ar_read (w : W) d : T d (source_read w d).1.2;
  ar_ack ids (w : W) d : T d (source_ack ids w d).1.2;
  ar_events after (w : W) d : T d (eventsAfter after w d).1.2;
  ar_last (w : W) d : T d (lastSeq w d).1.2;
  ar_connection key (w : W) d : T d (connection key w d).1.2
}.

Context (Har : around).

(** Between two states of the process there is such a run, whose label is what was reported. *)
Definition delivers (s s' : Sys) : Prop :=
  exists cs, calls s' = calls s ++ cs /\
  match offset s, offset s' with
  | Some o, Some o' => delivery o (db s) (applied_events cs) o' (db s')
  | None, None => True
  | _, _ => False
  end.

#[export] Instance delivers_preorder : PreOrder delivers.
Proof.
  split.
  - intros s. exists []. rewrite app_nil_r. split; [done|]. destruct (offset s); constructor.
  - intros s1 s2 s3 (cs & Hc & H) (cs' & Hc' & H'). exists (cs ++ cs').
    split; [by rewrite Hc', Hc, app_assoc|]. rewrite applied_events_app.
    destruct (offset s1), (offset s2), (offset s3); try done. by eapply delivery_app.
Qed.

Lemma delivers_bind {A B} (m : run A) (k : A -> run B) s :
  delivers s (m s).2 -> (forall a, (m s).1 = Ok a -> delivers (m s).2 (k a (m s).2).2) ->
  delivers s ((m ≫= k) s).2.
Proof.
  unfold mbind, run_bind. destruct (m s) as [[a|e] s1]; simpl; [|done]. intros H1 H2. etrans; [done|eauto].
Qed.

(** Computations that commit nothing of the worker's own. *)
Class Waits {A} (m : run A) := waits s :
  offset (m s).2 = offset s /\ T (db s) (db (m s).2) /\
  exists cs, calls (m s).2 = calls s ++ cs /\ applied_events cs = [].

Lemma waits_delivers {A} (m : run A) s : Waits m -> delivers s (m s).2.
Proof.
  intros Hm. destruct (Hm s) as (Ho & Ht & cs & Hc & Hn). exists cs. rewrite Hn, Ho. split; [done|].
  destruct (offset s); [|done]. eapply dv_others; [exact Ht|constructor].
Qed.

Lemma waits_same {A} (m : run A) : Still m -> (forall s, db (m s).2 = db s) -> Waits m.
Proof. intros Hm Hd s. destruct (Hm s) as (Ho & _ & Hc). by rewrite Hd. Qed.

#[export] Instance waits_ret {A} (a : A) : Waits (mret a).
Proof. by apply waits_same; [apply _|]. Qed.
#[export] Instance waits_gets {A} (f : Sys -> A) : Waits (gets f).
Proof. by apply waits_same; [apply _|]. Qed.
#[export] Instance waits_fails {A} e : Waits (fails e : run A).
Proof. by apply waits_same; [apply _|]. Qed.
#[export] Instance waits_of_result {A} (r : result A) : Waits (of_result r).
Proof. by apply waits_same; [apply _|]. Qed.
#[export] Instance waits_set_halted k r : Waits (set_halted k r).
Proof. by apply waits_same; [apply _|]. Qed.
#[export] Instance waits_set_lag n : Waits (set_lag n).
Proof. by apply waits_same; [apply _|]. Qed.
Lemma waits_call c : applied_of c = None -> Waits (call c).
Proof. intros Hc. apply waits_same; [by apply still_call|done]. Qed.
Lemma waits_ask {A} (f : W -> Store -> A * Store * W) : (forall w d, T d (f w d).1.2) -> Waits (ask f).
Proof.
  intros Hf s. destruct (still_ask f s) as (Ho & _ & Hc). split; [done|]. split; [|done].
  unfold ask. specialize (Hf (world s) (db s)). by destruct (f _ _) as [[a d] w].
Qed.
#[export] Instance waits_bind {A B} (m : run A) (k : A -> run B) :
  Waits m -> (forall a, Waits (k a)) -> Waits (m ≫= k).
Proof.
  intros Hm Hk s. unfold mbind, run_bind. destruct (Hm s) as (Ho & Ht & cs & Hc & Hn).
  destruct (m s) as [[a|e] s1]; simpl in *; [|eauto 10].
  destruct (Hk a s1) as (Ho' & Ht' & cs' & Hc' & Hn'). split; [congruence|]. split; [by etrans|].
  exists (cs ++ cs'). by rewrite Hc', Hc, app_assoc, applied_events_app, Hn, Hn'.
Qed.

Ltac solve_waits :=
  repeat first [apply waits_bind; [|intros ?] | apply _ | by apply waits_call | apply waits_ask; apply Har | case_match].

#[export] Instance waits_doHalt k r : Waits (doHalt k r).
Proof. unfold doHalt. solve_waits. Qed.
#[export] Instance waits_current_offset : Waits current_offset.
Proof. unfold current_offset. solve_waits. Qed.
#[export] Instance waits_refreshLag : Waits refreshLag.
Proof. unfold refreshLag. solve_waits. Qed.
#[export] Instance waits_acknowledge ids : Waits (acknowledge ids).
Proof. unfold acknowledge, ask_result. solve_waits. Qed.

Ltac waiting :=
  first [ reflexivity | apply waits_delivers; by solve_waits
        | apply delivers_bind; [by apply waits_delivers; solve_waits|intros ? ?] ].

(** One attempt: the others act, and then the event is committed or nothing is; what the process
    sees committed was. *)
Lemma attempt_delivers key event s :
  let r := attempt name market key event s in
  offset r.2 = offset s /\ calls r.2 = calls s /\ exists d1, T (db s) d1 /\
    ((db r.2 = d1 /\ forall out, r.1 <> Ok (Ok out)) \/
     exists out, withTransaction (consume name market key event) d1 = Ok (out, db r.2)).
Proof.
  simpl. unfold attempt, mbind, run_bind, ask. pose proof (ar_connection Har key (world s) (db s)) as Ht.
  destruct (connection key (world s) (db s)) as [[f d] w]. simpl in Ht.
  destruct f as [|e|e]; simpl; unfold transact; simpl.
  - destruct (withTransaction _ d) as [[a d1]|e'] eqn:E; simpl; (split; [done|split; [done|]]); exists d; (split; [done|]); eauto.
  - split; [done|]. split; [done|]. exists d. eauto.
  - destruct (withTransaction _ d) as [[a d1]|e'] eqn:E; simpl; (split; [done|split; [done|]]); exists d; (split; [done|]); eauto.
Qed.

Lemma attempt_loop_delivers n key event s o :
  offset s = Some o -> due o key event -> delivers s (attempt_loop name market n key event s).2.
Proof.
  intros Ho Hdue. revert s Ho. induction n as [|n IH]; intros s Ho; cbn [attempt_loop];
    unfold mbind at 1, run_bind at 1; pose proof (attempt_delivers key event s) as (Hof & Hc & d1 & Ht & Hd);
    destruct (attempt name market key event s) as [[[out|e]|e] s1]; cbn [fst snd] in *;
    (assert (Hun : forall s2 : Sys, delivers s1 s2 -> delivers s s2);
      [intros s2 H2; etrans; [|exact H2]; exists []; rewrite app_nil_r, Hof, Ho; split; [done|];
       eapply dv_others; [exact Ht|]; destruct Hd as [[-> _]|(out' & Hw)]; [constructor|by eapply dv_unseen; [..|constructor]]|]).
  all: try (by apply Hun); try (apply Hun; destruct (Consumer.haltReason e); [waiting|first [waiting|apply IH; by rewrite Hof]]).
  all: destruct Hd as [[_ Hno]|(out' & Hw)]; [by destruct (Hno out)|];
    exists [on_applied out key event]; simpl; rewrite Hc, Ho; (split; [done|]);
    eapply dv_others; [exact Ht|]; by eapply dv_seen; [..|constructor].
Qed.

Lemma applyOne_delivers item s :
  (forall o, offset s = Some o -> compareKeys item.1 o > 0 -> follows o item.1 = true) ->
  delivers s (applyOne name market retries item s).2.
Proof.
  intros Hf. unfold applyOne. apply delivers_bind; [by apply waits_delivers; solve_waits|].
  intros o Ho. simpl in *. injection Ho as Ho. destruct o as [o|]; [|waiting].
  destruct (Z.leb_spec (compareKeys item.1 o) 0); [waiting|].
  destruct (Consumer.decode item.2) as [event|e] eqn:Ed; [|waiting].
  destruct (Z.eqb_spec (seq_of_event event) (Store.seq item.1)); cbn [negb]; [|waiting].
  apply (attempt_loop_delivers _ _ _ _ o Ho). split; [apply Hf; [done|lia]|]. eauto.
Qed.

Lemma current_delivers {A} (k : EventKey -> run A) s :
  (forall o, offset s = Some o -> delivers s (k o s).2) -> delivers s ((current_offset ≫= k) s).2.
Proof.
  intros Hk. apply delivers_bind; [by apply waits_delivers; solve_waits|].
  intros o Ho. apply current_offset_at in Ho as [Ho Hs]. rewrite Hs. by apply Hk.
Qed.

Lemma recover_items_delivers items n s : delivers s (recover_items name market retries items n s).2.
Proof.
  revert n s. induction items as [|item items IH]; intros n s; simpl; [waiting|].
  apply current_delivers. intros o Ho. destruct (_ <=? 0); [apply IH|].
  destruct (follows o item.1) eqn:Hf; cbn [negb]; [|waiting].
  apply delivers_bind; [|intros [|] _; [apply IH|waiting]].
  apply applyOne_delivers. intros o' Ho' _. congruence.
Qed.

Lemma recover_loop_delivers fuel after n s :
  delivers s (recover_loop parseEngineJson name market retries fuel after n s).2.
Proof.
  revert after n s. induction fuel as [|fuel IH]; intros after n s; simpl; [waiting|].
  waiting. case_match; [|waiting]. case_match; [waiting|]. case_match; [|waiting].
  apply delivers_bind; [apply recover_items_delivers|]. intros [?|] _; [apply IH|waiting].
Qed.

Lemma recover_delivers cause s : delivers s (recover parseEngineJson name market retries pages cause s).2.
Proof.
  unfold recover. apply current_delivers. intros o _.
  apply delivers_bind; [apply recover_loop_delivers|]. intros r _. destruct r; waiting.
Qed.

Lemma run_entries_delivers sorted done s :
  delivers s (run_entries parseEngineJson name market retries pages sorted done s).2.
Proof.
  revert done s. induction sorted as [|entry sorted IH]; intros done s; simpl; [waiting|].
  waiting. simpl. case_match; [waiting|].
  assert (Hnext : forall s, (forall o, offset s = Some o -> follows o (en_key entry) = true) ->
    delivers s ((ok ← applyOne name market retries (entryToKeyed entry);
                 if negb ok then mret done
                 else run_entries parseEngineJson name market retries pages sorted (done ++ [en_id entry])) s).2).
  { intros s0 Hf. apply delivers_bind; [|intros [|] _; [apply IH|waiting]]. apply applyOne_delivers. auto. }
  apply current_delivers. intros o Ho. case_match; [apply IH|]. case_match.
  - apply Hnext. intros o' Ho'. congruence.
  - apply delivers_bind; [apply recover_delivers|]. intros [|] _; [|waiting].
    apply current_delivers. intros o1 Ho1. case_match; [apply IH|]. simpl.
    destruct (follows o1 (en_key entry)) eqn:Hf; cbn [negb]; [|waiting].
    apply Hnext. intros o' Ho'. congruence.
Qed.

Lemma pass_delivers start s : delivers s (pass parseEngineJson name market retries pages start s).2.
Proof.
  unfold pass, ask_result. waiting.
  apply delivers_bind; [|intros _ _; waiting].
  case_match; [apply delivers_bind; [apply recover_delivers|intros; waiting]|].
  case_match; [waiting; repeat case_match; try waiting; apply delivers_bind; [apply recover_delivers|intros; waiting]|].
  apply delivers_bind; [apply run_entries_delivers|intros; waiting].
Qed.

Lemma runOnce_delivers s : delivers s (runOnce parseEngineJson name market retries pages s).2.
Proof.
  destruct (halted s) eqn:Hh; [rewrite runOnce_idle by (left; congruence); reflexivity|].
  destruct (offset s) as [o|] eqn:Ho; [|rewrite runOnce_idle by (by right); reflexivity].
  rewrite (runOnce_pass _ _ _ _ _ s o) by done. exact (pass_delivers o (set_applied 0 s).2).
Qed.
End Deliveries.

(** ** The worker in the system *)

Section Worker.
Context {W : Type} `{!World W}.
Context (parseEngineJson : string -> result value) (name : string) (market : SettlementMarket).
Context (retries pages : nat).

#[local] Instance worker : Consumable SettlementEvent ApplyOutcome := settlement parseEngineJson market.

(** C4: the worker's loop refines the transactions of the system. Whatever the stream delivers, the
    engine answers and the connection loses, and whatever the gateway, the sweeper and the
    other services commit while it waits, a pass of a settlement worker that has an offset is
    a run of the abstract one: beside the others' transactions, every one it commits settles
    an event that was decoded, at the key that follows its offset and under its own sequence,
    and the offset moves only with such a commit; the events it reports are those it moved
    past, in order; those it committed without learning so are not. From reachable tables a
    pass therefore leaves reachable ones, on which the books agree; without an offset it does
    nothing. *)
Theorem worker_refines_system us s :
  around (W:=W) (rtc step) -> rtc step (empty_store us) (db s) ->
  let s' := (runOnce (Event:=SettlementEvent) (Outcome:=ApplyOutcome) parseEngineJson name (m_id market)
               retries pages s).2 in
  match offset s with
  | Some o => exists cs o', calls s' = calls s ++ cs /\ offset s' = Some o' /\
                delivery name (m_id market) (rtc step) o (db s) (applied_events cs) o' (db s')
  | None => s' = s
  end /\ rtc step (db s) (db s') /\ rtc step (empty_store us) (db s') /\ books_ok (db s').
Proof.
  intros Ho Hs. cbn zeta. set (s' := (runOnce _ _ _ _ _ s).2).
  assert (Hd : delivers name (m_id market) (rtc step) s s') by apply (runOnce_delivers parseEngineJson name (m_id market) retries pages (rtc step) Ho).
  assert (Hm : match offset s with
    | Some o => exists cs o', calls s' = calls s ++ cs /\ offset s' = Some o' /\
                  delivery name (m_id market) (rtc step) o (db s) (applied_events cs) o' (db s')
    | None => s' = s end).
  { destruct (offset s) as [o|] eqn:Eo; [|by unfold s'; rewrite runOnce_idle by (by right)].
    destruct Hd as (cs & Hc & H). rewrite Eo in H. destruct (offset s') as [o'|]; [|done]. by exists cs, o'. }
  split; [exact Hm|].
  assert (H : rtc step (db s) (db s')).
  { destruct (offset s) as [o|]; [|by rewrite Hm]. destruct Hm as (cs & o' & _ & _ & Hdel).
    eapply (delivery_within name (m_id market) (rtc step) (rtc step)); [done| |exact Hdel].
    intros k e d out d' Hw. apply rtc_once. by eapply settles. }
  split; [done|]. assert (Hr : rtc step (empty_store us) (db s')) by (by etrans).
  split; [done|]. exact (proj1 (reachable_sound us _ Hr)).
Qed.
End Worker.

(** ** A scripted world *)

(** What the stream answers to each read, in turn; nothing new after that. *)
Definition Script : Type := list (result ReadResult).

(** The engine's journal, served a page of commands at a time; no call is lost. *)
Definition scripted (journal : list (list value)) (page : nat) : World Script := {|
  source_read w d :=
    match w with [] => (Ok (read_entries []), d, []) | answer :: w => (answer, d, w) end;
  source_ack ids w d := (Ok tt, d, w);
  eventsAfter after w d := (Some (mjoin (take page (drop (Z.to_nat after) journal))), d, w);
  lastSeq w d := (Some (Z.of_nat (length journal)), d, w);
  connection key w d := (no_fault, d, w)
|}.

Lemma scripted_steps journal page : @around Script (scripted journal page) (rtc step).
Proof. split; intros; simpl; try case_match; apply rtc_refl. Qed.

Lemma scripted_honest journal page :
  (0 < page)%nat -> @honest_journal Script (scripted journal page) journal.
Proof.
  intros Hp a w d. exists (Nat.min page (length (drop a journal))). simpl. rewrite Nat2Z.id.
  split; [lia|]. split; [destruct (drop a journal); simpl; [done|lia]|].
  do 4 f_equal. destruct (Nat.min_spec page (length (drop a journal))) as [[_ ->]|[? ->]]; [done|].
  by rewrite !take_ge by lia.
Qed.

Lemma scripted_calm journal page : @calm Script (scripted journal page).
Proof. split; [done|by eexists _, _|by eexists]. Qed.

(** Bob's sale is accepted; then alice's purchase takes half of it and rests. *)
Definition demo_events : list (list SettlementEvent) :=
  [[accepted 1 bob_order 2000000000]; [fill demo_fill; accepted 2 alice_order 1000000000]].
Definition demo_journal : list (list value) := map (map engine_value) demo_events.

(** The texts of the stream's entries stand for the events of the journal. *)
Definition demo_texts : list (string * value) :=
  zip ["one"; "two"; "three"] (mjoin demo_journal).
Definition parse_text (text : string) : result value :=
  match find (fun p => bool_decide (p.1 = text)) demo_texts with
  | Some (_, v) => Ok v
  | None => Throw (UndecodableEventError "not JSON")
  end.

#[local] Instance demo_worker : Consumable SettlementEvent ApplyOutcome :=
  settlement parse_text demo_settlement_market.
#[local] Instance demo_world : World Script := scripted demo_journal 1.

Definition demo_pass (s : @Sys SettlementEvent ApplyOutcome Script) :
  result Z * @Sys SettlementEvent ApplyOutcome Script :=
  runOnce parse_text "settlement" "devnet:SOL-USDC" 5 3 s.

(** The worker at the start of the journal. *)
Definition demo_sys (w : Script) : @Sys SettlementEvent ApplyOutcome Script :=
  mkSys (Some (mkKey 0 0)) None None 0 [] demo_both w.

(** The stream out of order, with an entry from before the start. *)
Definition demo_stale : list StreamEntry := [mkEntry "0-1" (mkKey 0 0) "zero"].
Definition demo_fresh : list StreamEntry :=
  [mkEntry "1-1" (mkKey 1 0) "one"; mkEntry "2-1" (mkKey 2 0) "two"; mkEntry "2-2" (mkKey 2 1) "three"].
Definition demo_stream : list StreamEntry :=
  [mkEntry "2-2" (mkKey 2 1) "three"; mkEntry "1-1" (mkKey 1 0) "one";
   mkEntry "0-1" (mkKey 0 0) "zero"; mkEntry "2-1" (mkKey 2 0) "two"].

Definition demo_recovering := demo_sys [Ok reset].
Definition demo_streaming := demo_sys [Ok (read_entries demo_stream)].

Example demo_pass_applies :
  let s := (demo_pass demo_streaming).2 in
  (demo_pass demo_streaming).1 = Ok 3 /\ offset s = Some (mkKey 2 1) /\ halted s = None /\
  (o_status <$> orders (db s)) = [Order.PARTIALLY_FILLED; Order.PARTIALLY_FILLED].
Proof. vm_compute. repeat split. Qed.

(** ** What the worker never gets past *)

(** A stream that answers every read with the same thing. *)
Definition stuck (answer : result ReadResult) : World unit := {|
  source_read w d := (answer, d, w);
  source_ack ids w d := (Ok tt, d, w);
  eventsAfter after w d := (None, d, w);
  lastSeq w d := (None, d, w);
  connection key w d := (no_fault, d, w)
|}.

(** The same fill as [demo_fill], at an instant that is an [i64] but not a [Date]. *)
Definition late_fill : SettlementEvent :=
  fill (mkFillEvent 2 "2:0" alice_order bob_order buy 150000000 1000000000 (MAX_DATE_MS * 10)).
Definition parse_late (text : string) : result value := Ok (engine_value late_fill).

Definition late_read : result ReadResult := Ok (read_entries [mkEntry "2-1" (mkKey 2 0) "late"]).
Definition malformed_read : result ReadResult := read_entries <$> parse_all [("2-1", Some ["seq"; "2"; "event"; "late"])].

Definition stuck_pass (answer : result ReadResult) (s : @Sys SettlementEvent ApplyOutcome unit)
  : @Sys SettlementEvent ApplyOutcome unit :=
  (@runOnce _ _ _ (settlement parse_late demo_settlement_market) (stuck answer)
     parse_late "settlement" "devnet:SOL-USDC" 5 3 s).2.

(** Where a worker waits that has applied the first event. *)
Definition stuck_at (s : @Sys SettlementEvent ApplyOutcome unit) : Prop :=
  offset s = Some (mkKey 1 0) /\ halted s = None /\ db s = demo_both.

Lemma stuck_pass_stuck answer s :
  answer = late_read \/ answer = malformed_read -> stuck_at s -> stuck_at (stuck_pass answer s).
Proof.
  intros [-> | ->] (Ho & Hh & Hd); destruct s as [o h l n cs d []]; simpl in *; subst; vm_compute; done.
Qed.

(** Two kinds of event that can never be settled do not halt their market. A fill whose instant is
    an [i64] that decodes but is no [Date], of two live orders it would otherwise settle,
    and a stream entry without the fields it must have, leave the worker where it was pass
    after pass without end: it neither advances nor halts, although the worker promises to
    halt at an event that cannot be settled and names a reason for malformed entries. *)
Theorem unsettleable_events_never_halt n :
  decodeSettlementEvent parse_late (v_string "late") = Ok late_fill /\
  Worker.haltReason (MalformedStreamEntryError "2-1") = Some "malformed_stream_entry" /\
  malformed_read = Throw (MalformedStreamEntryError "2-1") /\
  (exists out s, withTransaction (Settlement.apply demo_settlement_market (mkKey 2 0) (fill demo_fill)) demo_both
     = Ok (out, s)) /\
  forall answer s, answer = late_read \/ answer = malformed_read -> stuck_at s ->
    stuck_at (Nat.iter n (stuck_pass answer) s).
Proof.
  split; [vm_compute; reflexivity|]. split; [reflexivity|]. split; [vm_compute; reflexivity|].
  split; [eexists _, _; vm_compute; reflexivity|].
  intros answer s Ha Hs. induction n as [|n IH]; simpl; [done|]. by apply stuck_pass_stuck.
Qed.

(** The journal with a third command whose event cannot be read. *)
Definition unreadable_world : World Script := scripted (demo_journal ++ [[v_null]]) 3.

(** an unreadable event of the journal halts its market at the wrong key. When recovery meets an
    event whose sequence cannot be read, the halt names the first key of the page it asked
    for: here a key that was applied before the pass began, and not the unread event's. *)
Theorem unreadable_event_halts_at_applied_key :
  let settled := (demo_pass demo_recovering).2 in
  let s := mkSys (offset settled) None None 0 [] (db settled) [Ok reset] in
  let s' := (@runOnce _ _ _ demo_worker unreadable_world parse_text "settlement" "devnet:SOL-USDC" 5 3 s).2 in
  offset s = Some (mkKey 2 1) /\ db s' = db s /\
  halted s' = Some (mkKey 2 0, "undecodable_event") /\ follows (mkKey 2 1) (mkKey 3 0) = true.
Proof. vm_compute. repeat split. Qed.

(** ** Witnesses *)

Lemma worker_refines_system_witness :
  (exists cs o', calls (demo_pass demo_streaming).2 = cs /\ (applied_events cs).*1 = [mkKey 1 0; mkKey 2 0; mkKey 2 1] /\
     delivery "settlement" "devnet:SOL-USDC" (rtc step) (mkKey 0 0) demo_both (applied_events cs) o' (db (demo_pass demo_streaming).2)) /\
  rtc step (empty_store demo_users) (db (demo_pass demo_streaming).2).
Proof.
  destruct (worker_refines_system parse_text "settlement" demo_settlement_market 5 3 demo_users
    demo_streaming (scripted_steps demo_journal 1) demo_both_reachable) as [(cs & o' & Hcs & _ & Hd) (_ & Hr & _)].
  split; [|exact Hr]. exists cs, o'. split; [exact Hcs|]. split; [|exact Hd].
  change (calls demo_streaming ++ cs) with cs in Hcs. unfold demo_pass in *. rewrite <- Hcs. vm_compute. reflexivity.
Defined.

Lemma settlement_owns_row : @owns_row SettlementEvent ApplyOutcome Script demo_worker demo_world "settlement" "devnet:SOL-USDC".
Proof.
  split; [|intros; simpl; by try case_match..]. intros key event d out d' H. unfold row.
  by rewrite (apply_within same_offsets _ _ _ _ _ _ H).
Qed.

Lemma applied_in_order_witness :
  exists cs, calls (demo_pass demo_streaming).2 = cs /\
  (applied_events cs).*1 = [mkKey 1 0; mkKey 2 0; mkKey 2 1] /\
  path (mkKey 0 0) (applied_events cs).*1 (mkKey 2 1).
Proof.
  assert (Hc : rtc (cycle parse_text "settlement" "devnet:SOL-USDC" 5 3) demo_streaming (demo_pass demo_streaming).2).
  { apply rtc_once. exists (db (demo_pass demo_streaming).2), (world (demo_pass demo_streaming).2).
    unfold demo_pass. by destruct (runOnce _ _ _ _ _ _) as [r []]. }
  destruct (applied_in_order parse_text "settlement" "devnet:SOL-USDC" 5 3 demo_streaming _ (mkKey 0 0) Hc eq_refl)
    as (cs & o' & Hcs & Ho & Hp & _).
  exists cs. split; [exact Hcs|]. assert (Ho' : o' = mkKey 2 1) by (vm_compute in Ho; congruence). subst o'.
  split; [|exact Hp]. change (calls demo_streaming ++ cs) with cs in Hcs. rewrite <- Hcs. vm_compute. reflexivity.
Defined.

Lemma acknowledged_is_committed_witness :
  exists s', demo_pass demo_streaming = (Ok 3, s') /\
  tracked "settlement" "devnet:SOL-USDC" (Some (mkKey 0 0)) s' /\
  offset s' = Some (mkKey 2 1) /\ calls s' ≫= acks_of = ["0-1"; "1-1"; "2-1"; "2-2"].
Proof.
  exists (demo_pass demo_streaming).2. split; [vm_compute; reflexivity|]. split; [|vm_compute; done].
  refine (proj1 (acknowledged_is_committed parse_text "settlement" "devnet:SOL-USDC" 5 3 (Some (mkKey 0 0))
    demo_streaming (demo_pass demo_streaming).2 (Ok 3) settlement_owns_row _ _)).
  - intros o [= <-]. vm_compute. reflexivity.
  - vm_compute. reflexivity.
Defined.

Definition demo_items : list KeyedRaw := items_after (mkKey 0 0) (key_commands 1 demo_journal).

Definition demo_replayed : Store :=
  match replay "settlement" "devnet:SOL-USDC" demo_items demo_both with Ok (_, d) => d | Throw _ => demo_both end.

Lemma demo_replay : replay "settlement" "devnet:SOL-USDC" demo_items demo_both = Ok (tt, demo_replayed).
Proof. vm_compute. reflexivity. Qed.

Lemma demo_journal_wf : commands_wf parse_text 1 demo_journal.
Proof. repeat split; try done; repeat constructor. Qed.


Lemma stream_equals_journal_witness :
  db (demo_pass demo_recovering).2 = db (demo_pass demo_streaming).2 /\
  offset (demo_pass demo_streaming).2 = Some (mkKey 2 1).
Proof.
  destruct (stream_equals_journal parse_text "settlement" "devnet:SOL-USDC" 5 3 demo_journal (mkKey 0 0)
    demo_replayed demo_recovering demo_streaming [] [] demo_stream demo_stale demo_fresh
    (scripted_calm demo_journal 1) (scripted_honest demo_journal 1 ltac:(lia)) demo_journal_wf
    (or_introl eq_refl) ltac:(vm_compute; lia) eq_refl eq_refl eq_refl eq_refl eq_refl eq_refl eq_refl
    ltac:(discriminate)) as (_ & Hd & Ho & _).
  - etrans; [apply (Permutation_cons_append [_; _; _])|apply perm_swap].
  - repeat constructor. vm_compute. discriminate.
  - repeat (constructor; [split; vm_compute; reflexivity|]). constructor.
  - exact demo_replay.
  - split; [exact Hd|]. vm_compute. reflexivity.
Defined.
