(* ===== verification/Coverage.v ===== *)
(** * Settlement makes progress

    [Books] shows that an applied event keeps the books. This file shows that a fill is
    applied: between two live orders whose holds were computed by [computeHold], at a
    price the buyer's hold was taken for, no halt, no constraint and no rejected posting
    stops it, and the hold is never overdrawn. *)

From S2P Require Import Prelude Risk Decimal Assets Price Market Orders Ledger Postings States Store Events Settlement Books Gateway System.
From Stdlib Require Import ZArith Lia.
From stdpp Require Import base list strings gmap relations.

Open Scope string_scope.
Open Scope list_scope.
Open Scope Z_scope.

(** ** Coverage *)

(** An order is covered at a price: a buy's hold is at least the reserve of its quantity at
    that price and each of its fills cost at most the reserve of what it filled; a sell
    holds at least its quantity. *)
Definition covered (cap : Z) (o : OrderRecord) (s : Store) : Prop :=
  match o_side o with
  | buy => 0 <= cap /\ reserve_value cap (o_qty o) <= o_holdAmount o /\
      Forall (fun f => fill_of (o_id o) f = true -> consumed_by o f <= reserve_value cap (Store.f_qty f)) (fills s)
  | sell => o_qty o <= o_holdAmount o
  end.

(** What the hold must still be worth for a quantity left to fill. *)
Definition needed (cap : Z) (o : OrderRecord) (remaining : Z) : Z :=
  match o_side o with buy => reserve_value cap remaining | sell => remaining end.

Definition fills_positive (s : Store) : Prop := Forall (fun f => 0 < Store.f_qty f) (fills s).

Lemma consumed_covered cap o s :
  covered cap o s -> fills_positive s -> o_side o = buy ->
  let filled := sum_if (fill_of (o_id o)) Store.f_qty (fills s) in
  0 <= filled /\ consumed o s <= reserve_value cap filled.
Proof.
  unfold covered, consumed, fills_positive. intros Hcov Hpos Hside. rewrite Hside in Hcov.
  destruct Hcov as (Hcap & _ & Hcost).
  induction (fills s) as [|f fs IH]; simpl.
  - split; [done|]. pose proof (reserve_value_bounds cap 0 Hcap ltac:(lia)). lia.
  - apply Forall_cons in Hpos as [Hf Hpos], Hcost as [Hc Hcost].
    destruct (IH Hcost Hpos) as [H0 H1]. destruct (fill_of (o_id o) f); [|by rewrite !Z.add_0_l].
    specialize (Hc eq_refl). split; [lia|].
    pose proof (reserve_value_add cap (Store.f_qty f) (sum_if (fill_of (o_id o)) Store.f_qty fs) Hcap ltac:(lia) H0).
    lia.
Qed.

(** While nothing was released, a covered order's hold is worth what is left to fill. *)
Lemma outstanding_covered cap o s :
  covered cap o s -> fills_positive s -> released (o_id o) s = 0 ->
  let filled := sum_if (fill_of (o_id o)) Store.f_qty (fills s) in
  filled <= o_qty o -> needed cap o (o_qty o - filled) <= outstanding o s.
Proof.
  intros Hcov Hpos Hrel filled Hle. unfold needed, outstanding. rewrite Hrel.
  destruct (o_side o) eqn:Hside.
  - destruct (consumed_covered cap o s Hcov Hpos Hside) as [H0 H1].
    unfold covered in Hcov. rewrite Hside in Hcov. destruct Hcov as (Hcap & Hres & _).
    pose proof (reserve_value_add cap filled (o_qty o - filled) Hcap H0 ltac:(lia)) as Ha.
    replace (filled + (o_qty o - filled)) with (o_qty o) in Ha by lia. fold filled in H1. lia.
  - unfold covered in Hcov. rewrite Hside in Hcov. unfold consumed.
    rewrite (sum_if_ext _ (fill_of (o_id o)) _ Store.f_qty).
    + fold filled. lia.
    + intros f _. split; [done|]. intros _. unfold consumed_by. by rewrite Hside.
Qed.

(** ** Steps that run *)

Lemma raise_if_runs b e s : b = false -> raise_if b e s = Ok (tt, s).
Proof. by intros ->. Qed.

(** Run the first computation of a sequence. *)
Ltac run := apply tx_bind_Ok; eexists _, _; split.

Lemma load_runs o m s :
  NoDup (ids s) -> o ∈ orders s -> ORDER_ID (o_id o) = true -> o_market o = m_id m ->
  load (o_id o) m s = Ok (o, s).
Proof.
  intros Hnd Ho Hid Hm. unfold load, halt_if.
  run; [apply raise_if_runs; by rewrite Hid|]. run; [by apply findById_row|]. simpl.
  run; [apply raise_if_runs; by rewrite bool_decide_eq_true_2|]. done.
Qed.

(** A snapshot holds the rates of a tier. *)
Definition rates_ok (r : FeeRates) : Prop :=
  exists t, t ∈ FEE_TIERS /\ r_makerBps r = makerBps t /\ r_takerBps r = takerBps t.

Definition snapshots_ok (s : Store) : Prop := Forall (fun x => rates_ok (rates_of x)) (snapshots s).

Definition notionals_nonneg (s : Store) : Prop := Forall (fun f => 0 <= f_notional f) (fills s).

Lemma tierForVolume_runs v : 0 <= v -> exists t, tierForVolume v = Ok t /\ t ∈ FEE_TIERS.
Proof.
  intros Hv. unfold tierForVolume. destruct (Z.ltb_spec v 0); [lia|]. eexists. split; [done|].
  unfold FEE_TIERS. simpl. repeat case_match; set_solver.
Qed.

Definition tier_snapshots (u q : string) (day : Z) (l : list FeeTierSnapshot) : list FeeTierSnapshot :=
  filter (fun x => s_user x = u /\ s_quoteAsset x = q /\ s_day x = day) l.

Lemma findTierSnapshot_runs u q day s :
  date_ok day = true -> findTierSnapshot u q day s = Ok (head (tier_snapshots u q day (snapshots s)), s).
Proof.
  intros Hd. unfold findTierSnapshot. run; [apply raise_if_runs; by rewrite Hd|]. done.
Qed.

Lemma insertTierSnapshot_runs x s :
  date_ok (s_day x) = true -> head (tier_snapshots (s_user x) (s_quoteAsset x) (s_day x) (snapshots s)) = None ->
  insertTierSnapshot x s = Ok (x, set_snapshots (snapshots s ++ [x]) s).
Proof.
  intros Hd Hnone. unfold insertTierSnapshot. run; [by apply findTierSnapshot_runs|]. rewrite Hnone.
  run; [reflexivity|]. run; [by apply findTierSnapshot_runs|]. simpl.
  unfold tier_snapshots in *. rewrite filter_app. destruct (filter _ (snapshots s)); [|done].
  rewrite filter_cons, decide_True by done. done.
Qed.

Lemma feeRatesFor_runs u q ts day s :
  utcDay ts = Ok day -> date_ok day = true -> snapshots_ok s -> notionals_nonneg s ->
  exists r ss, feeRatesFor u q ts s = Ok (r, set_snapshots ss s) /\ rates_ok r /\
    Forall (fun x => rates_ok (rates_of x)) ss.
Proof.
  intros Hday Hdate Hs Hn. unfold feeRatesFor.
  destruct (head (tier_snapshots u q day (snapshots s))) as [x|] eqn:E.
  - exists (rates_of x), (snapshots s). split; [|split; [|done]].
    + run; [by apply lift_Ok|]. run; [by apply findTierSnapshot_runs|]. rewrite E. by destruct s.
    + apply head_filter_elem in E as [Hx _]. unfold snapshots_ok in Hs. rewrite Forall_forall in Hs. by apply Hs.
  - set (v := volume_of u q (day * DAY_MS - WINDOW_DAYS * DAY_MS) (day * DAY_MS) s).
    assert (Hv : 0 <= v).
    { apply sum_if_nonneg. intros f Hf _. unfold notionals_nonneg in Hn. rewrite Forall_forall in Hn. by apply Hn. }
    destruct (tierForVolume_runs v Hv) as (t & Ht & Hin).
    set (x := mkSnapshot u q day v (tier t) (makerBps t) (takerBps t)).
    assert (Hx : rates_ok (rates_of x)) by (exists t; done).
    exists (rates_of x), (snapshots s ++ [x]). split; [|split; [done|]].
    + run; [by apply lift_Ok|]. run; [by apply findTierSnapshot_runs|]. rewrite E.
      run; [reflexivity|]. run; [by apply lift_Ok|]. run; [by apply (insertTierSnapshot_runs x)|]. done.
    + apply Forall_app. split; [done|]. by constructor.
Qed.

(** ** Updates of one row that run *)

Lemma update_order_runs o test f s :
  NoDup (ids s) -> o ∈ orders s -> test o = true -> order_row_ok (f o) = true ->
  exists n s', update_order (o_id o) test f s = Ok (n, s') /\ n <> 0%nat.
Proof.
  intros Hnd Ho Ht Hok. unfold update_order.
  set (matched := filter (fun x => row_hit (o_id o) test x = true) (orders s)).
  assert (Hin : o ∈ matched).
  { apply list_elem_of_filter. split; [|done]. unfold row_hit. by rewrite bool_decide_eq_true_2, Ht. }
  eexists (length matched), _. split.
  - run; [reflexivity|]. run; [apply raise_if_runs|].
    + apply negb_false_iff, forallb_forall. intros x Hx%list_elem_of_In.
      apply list_elem_of_filter in Hx as [Hh Hx]. unfold row_hit in Hh. apply andb_true_iff in Hh as [Hid _].
      apply bool_decide_eq_true in Hid. by rewrite (row_unique o_id (orders s) x o).
    + run; [reflexivity|]. done.
  - intros Hz. destruct matched; [set_solver|done].
Qed.

Lemma transition_runs o to patch s :
  NoDup (ids s) -> o ∈ orders s -> Order.canOrderTransition (o_status o) to = true ->
  order_row_ok (patch_order to patch o) = true ->
  exists s', transition (o_id o) (o_status o) to patch s = Ok (Some (patch_order to patch o), s').
Proof.
  intros Hnd Ho Hcan Hok. destruct (update_order_runs o (fun x => bool_decide (o_status x = o_status o))
    (patch_order to patch) s Hnd Ho) as (n & s' & Hu & Hn); [by apply bool_decide_eq_true|done|].
  exists s'. unfold transition. run; [apply raise_if_runs; by rewrite Hcan|]. run; [exact Hu|].
  apply Nat.eqb_neq in Hn. rewrite Hn.
  destruct (update_order_Ok _ _ _ _ _ _ Hnd (fun x => same_terms_patch _ _ x) Hu)
    as [[-> _]|(_ & x & Hid & _ & Hst)]; [done|].
  assert (x = o) as -> by (eapply (row_unique o_id); eauto; by destruct Hst).
  exact (row_step_find _ _ _ _ Hnd Hst).
Qed.

Lemma recordFill_runs o filled s :
  NoDup (ids s) -> o ∈ orders s -> o_filledQty o < filled ->
  order_row_ok (patch_order (o_status o) (mkPatch (Some filled) None None) o) = true ->
  exists s', Store.recordFill (o_id o) (o_status o) filled s
    = Ok (Some (patch_order (o_status o) (mkPatch (Some filled) None None) o), s').
Proof.
  intros Hnd Ho Hlt Hok. set (f := fun x => patch_order (o_status x) (mkPatch (Some filled) None None) x).
  destruct (update_order_runs o (fun x => bool_decide (o_status x = o_status o) && (o_filledQty x <? filled))
    f s Hnd Ho) as (n & s' & Hu & Hn); [|done|].
  { apply andb_true_iff. split; [by apply bool_decide_eq_true|by apply Z.ltb_lt]. }
  exists s'. unfold Store.recordFill. run; [exact Hu|]. apply Nat.eqb_neq in Hn. rewrite Hn.
  destruct (update_order_Ok _ _ _ _ _ _ Hnd (fun x => same_terms_patch _ _ x) Hu)
    as [[-> _]|(_ & x & Hid & _ & Hst)]; [done|].
  assert (x = o) as -> by (eapply (row_unique o_id); eauto; by destruct Hst).
  exact (row_step_find _ _ _ _ Hnd Hst).
Qed.

Lemma row_ok_filled o to seq filled :
  order_row_ok o = true -> 0 <= filled <= o_qty o ->
  order_row_ok (patch_order to (mkPatch (Some filled) seq None) o) = true.
Proof.
  unfold order_row_ok. simpl. intros H [H0 H1]. apply andb_true_iff in H as [H Hk]. zbool.
  rewrite Hk. rewrite !(proj2 (Z.ltb_lt _ _)), !(proj2 (Z.leb_le _ _)) by done. done.
Qed.

Lemma record_runs o traded key s :
  wired s -> o ∈ orders s -> Order.orderHoldsFunds (o_status o) = true -> 0 < traded ->
  o_filledQty o + traded <= o_qty o ->
  exists o' s', recordFill o traded key s = Ok (o', s').
Proof.
  intros Hw Ho Hlive Ht Hle. unfold recordFill. simpl.
  pose proof (w_rows s Hw) as Hrows. rewrite Forall_forall in Hrows. specialize (Hrows o Ho).
  assert (Hf : 0 <= o_filledQty o + traded <= o_qty o).
  { unfold order_row_ok in Hrows. zbool. lia. }
  assert (Hatt : exists o' s', record_attempt o (o_filledQty o + traded) key s = Ok (Some o', s')).
  { unfold record_attempt. destruct (o_filledQty o + traded =? o_qty o) eqn:Hc;
      destruct (o_status o) eqn:Hs; try discriminate Hlive; rewrite <- Hs;
      match goal with
      | |- exists _ _, transition _ _ ?to ?p _ = _ =>
          destruct (transition_runs o to p s (w_ids s Hw) Ho) as [s' Hs'];
          [by rewrite Hs|by apply row_ok_filled|by eexists _, s']
      | |- exists _ _, Store.recordFill _ _ _ _ = _ =>
          destruct (recordFill_runs o (o_filledQty o + traded) s (w_ids s Hw) Ho) as [s' Hs'];
          [lia|by apply row_ok_filled|by eexists _, s']
      end. }
  destruct Hatt as (o' & s' & Hatt). exists o', s'.
  run; [apply raise_if_runs; rewrite Z.gtb_ltb; apply Z.ltb_ge; lia|]. run; [exact Hatt|]. done.
Qed.

(** ** Postings that run *)

Lemma postLedger_runs p t s :
  post p = Ok t ->
  ((kind t = order_release \/ kind t = trade_settle) ->
   forall t', t' ∈ ledger s -> same_reference (kind t) (referenceId t) t' = false) ->
  postLedger (post p) s = Ok (tt, set_ledger (ledger s ++ [t]) s).
Proof.
  intros Hp Hnew. unfold postLedger, postTransaction. run; [by apply lift_Ok|]. run.
  - run; [reflexivity|]. apply raise_if_runs. apply andb_false_iff.
    destruct (decide (kind t = order_release \/ kind t = trade_settle)) as [Hk|Hk].
    + right. apply not_true_iff_false. intros (t' & Ht'%list_elem_of_In & Hsame)%existsb_exists.
      by rewrite Hnew in Hsame.
    + left. apply orb_false_iff. rewrite !bool_decide_eq_false. tauto.
  - run; [apply raise_if_runs|reflexivity]. apply negb_false_iff, forallb_forall. intros e He%list_elem_of_In.
    destruct (post_wf p t Hp) as [_ Hwf _ _]. rewrite Forall_forall in Hwf. apply Z.ltb_lt. by apply Hwf.
Qed.

Definition no_release (id : string) (s : Store) : Prop :=
  forall t, t ∈ ledger s -> same_reference order_release id t = false.

Lemma release_runs o s :
  wired s -> o ∈ orders s -> 0 <= outstanding o s -> (exists c, qualified c (o_holdAsset o)) ->
  no_release (o_id o) s ->
  exists n s', releaseOutstanding o false s = Ok (n, s') /\
    forall id, id <> o_id o -> no_release id s -> no_release id s'.
Proof.
  intros Hw Ho H0 Hq Hno. unfold releaseOutstanding.
  assert (Hout : outstandingHold (o_id o) s = Ok (Some (outstanding o s), s)).
  { unfold outstandingHold. run; [reflexivity|]. run; [apply findById_row; [apply Hw|done]|]. done. }
  destruct (Z.eqb_spec (outstanding o s) 0) as [Hz|Hz].
  - exists 0, s. split; [|done]. run; [exact Hout|]. simpl.
    run; [apply raise_if_runs; by apply Z.ltb_ge|]. run; [by apply raise_if_runs|].
    by rewrite (proj2 (Z.eqb_eq _ _) Hz).
  - set (i := mkHold (o_id o) (o_user o) (o_holdAsset o) (outstanding o s)).
    destruct (proj2 (post_two_legs order_release "order" (o_id o) "order release"
                (userOrderLocked (o_user o) (o_holdAsset o)) (userTradingAvailable (o_user o) (o_holdAsset o))
                (o_holdAsset o) (outstanding o s) eq_refl eq_refl)) as [t Ht]; [split; [lia|done]|].
    change (postOrderRelease i = Ok t) in Ht.
    destruct (hold_release_net (houseFees "") i t Ht) as (Hk & Href & _).
    exists (outstanding o s), (set_ledger (ledger s ++ [t]) s). split.
    + run; [exact Hout|]. simpl. run; [apply raise_if_runs; by apply Z.ltb_ge|].
      run; [by apply raise_if_runs|]. apply Z.eqb_neq in Hz. rewrite Hz.
      run; [|reflexivity]. apply (postLedger_runs (POrderRelease i)); [exact Ht|].
      intros _ t' Ht'. rewrite Hk, Href. by apply Hno.
    + intros id Hne Hid t' Ht'. simpl in Ht'. apply elem_of_app in Ht' as [Ht'|Ht'%list_elem_of_singleton].
      * by apply Hid.
      * subst t'. unfold same_reference. rewrite Href. rewrite (bool_decide_eq_false_2 (_ = id)) by (simpl; congruence).
        apply andb_false_r.
Qed.

(** ** One side of a fill *)

(** A side is ready: live, with the quantity left to fill, a hold that is not overdrawn, an
    asset the ledger can post in, and no release so far. *)
Record side_ready (o : OrderRecord) (traded : Z) (s : Store) : Prop := {
  sr_row : o ∈ orders s;
  sr_live : Order.orderHoldsFunds (o_status o) = true;
  sr_left : o_filledQty o + traded <= o_qty o;
  sr_held : 0 <= outstanding o s;
  sr_asset : exists c, qualified c (o_holdAsset o);
  sr_release : no_release (o_id o) s
}.

(** No account but an order lock goes down. *)
Definition free_grow (s s' : Store) : Prop :=
  forall r, acc_type r <> user_order_locked -> credit_balance r s <= credit_balance r s'.

Lemma record_side_runs o traded key s :
  wired s -> side_ready o traded s -> 0 < traded ->
  exists o' s', record_side o traded key s = Ok (tt, s') /\ wired s' /\
    o' ∈ orders s' /\ o_id o' = o_id o /\
    (if o_filledQty o + traded =? o_qty o
     then Order.orderHoldsFunds (o_status o') = false /\ outstanding o' s' = 0
     else Order.orderHoldsFunds (o_status o') = true /\ outstanding o' s' = outstanding o s) /\
    (forall x, x ∈ orders s -> o_id x <> o_id o ->
      x ∈ orders s' /\ outstanding x s' = outstanding x s /\ (no_release (o_id x) s -> no_release (o_id x) s')) /\
    free_grow s s'.
Proof.
  intros Hw [Ho Hlive Hleft Hheld Hasset Hrel] Ht.
  destruct (record_runs o traded key s Hw Ho Hlive Ht Hleft) as (o' & s1 & Hrec).
  destruct (record_loop_Ok _ _ _ _ _ _ _ (w_ids s Hw) Ho Hrec) as (Hst & Hq & _ & _ & Hfilled & Hlive').
  pose proof (row_step_wired _ _ _ _ Hst Hw) as Hw1. pose proof (row_step_id _ _ _ _ Hst) as Hid.
  pose proof (recordFill_elem _ _ _ _ Hst (w_ids s Hw)) as Ho1.
  assert (Hout1 : outstanding o' s1 = outstanding o s).
  { rewrite (row_step_outstanding _ _ _ _ Hst). apply outstanding_terms; [by destruct Hst|done..]. }
  assert (Hmem : forall x, x ∈ orders s -> o_id x <> o_id o -> x ∈ orders s1).
  { intros x Hx Hne. apply (row_step_elem _ _ _ _ Hst x (w_ids s Hw)). by right. }
  assert (Hled : ledger s1 = ledger s) by apply (row_step_fills _ _ _ _ Hst).
  assert (Hterms : same_terms o o') by (by destruct Hst).
  rewrite Hq in Hfilled. unfold record_side.
  destruct (Z.eqb_spec (o_filledQty o + traded) (o_qty o)) as [Hc|Hc].
  - assert (Hs : o_status o' = Order.FILLED) by tauto.
    destruct (release_runs o' s1 Hw1 Ho1) as (n & s2 & Hrun & Hno).
    { by rewrite Hout1. }
    { destruct Hterms as (_ & _ & _ & _ & _ & _ & _ & -> & _). done. }
    { intros t Htl. rewrite Hled in Htl. rewrite Hid. by apply Hrel. }
    destruct (releaseOutstanding_Ok _ _ _ _ _ Hw1 Ho1 Hrun) as (Hn & _ & _ & Hord & _ & Hw2 & Hout2).
    exists o', s2. split; [|split; [done|split; [by rewrite Hord|split; [done|split; [|split]]]]].
    + run; [exact Hrec|]. rewrite bool_decide_eq_true_2 by done. run; [exact Hrun|]. done.
    + split; [by rewrite Hs|]. rewrite Hout2, bool_decide_eq_true_2 by done. lia.
    + intros x Hx Hne. rewrite Hord. split; [by apply Hmem|]. split.
      * rewrite Hout2, bool_decide_eq_false_2 by congruence. rewrite (row_step_outstanding _ _ _ _ Hst). lia.
      * intros Hx0. apply Hno; [congruence|]. intros t Htl. rewrite Hled in Htl. by apply Hx0.
    + intros r Hr. rewrite (releaseOutstanding_credit _ _ _ _ _ r Hw1 Ho1 Hrun), (row_step_credit _ _ _ _ Hst).
      rewrite (bool_decide_eq_false_2 (userOrderLocked _ _ = r)) by (by intros <-). case_bool_decide; lia.
  - assert (Hs : o_status o' <> Order.FILLED) by tauto.
    exists o', s1. split; [|split; [done|split; [done|split; [done|split; [|split]]]]].
    + run; [exact Hrec|]. by rewrite bool_decide_eq_false_2.
    + split; [by apply Hlive'|done].
    + intros x Hx Hne. split; [by apply Hmem|]. split; [apply (row_step_outstanding _ _ _ _ Hst)|].
      intros Hx0 t Htl. rewrite Hled in Htl. by apply Hx0.
    + intros r _. by rewrite (row_step_credit _ _ _ _ Hst).
Qed.

Lemma check_runs o s :
  wired s -> o ∈ orders s -> 0 <= outstanding o s -> check_not_over_consumed o s = Ok (tt, s).
Proof.
  intros Hw Ho H0. unfold check_not_over_consumed. run.
  - unfold outstandingHold. run; [reflexivity|]. run; [apply findById_row; [apply Hw|done]|]. done.
  - apply raise_if_runs. by apply Z.ltb_ge.
Qed.

Lemma assertHoldAgrees_runs o s :
  wired s -> o ∈ orders s -> hold_agrees s o -> assertHoldAgrees (o_id o) s = Ok (tt, s).
Proof.
  intros Hw Ho Ha. unfold assertHoldAgrees. run; [apply findById_row; [apply Hw|done]|]. run.
  - unfold outstandingHold. run; [reflexivity|]. run; [apply findById_row; [apply Hw|done]|]. done.
  - unfold hold_agrees in Ha. simpl. destruct (Order.orderHoldsFunds (o_status o)); apply raise_if_runs.
    + by apply Z.leb_gt.
    + rewrite Ha. done.
Qed.

(** Both sides of a fill, from tables in which its row and its trade are. *)
Lemma sides_run taker maker traded key s :
  wired s -> o_id taker <> o_id maker -> 0 < traded ->
  side_ready taker traded s -> side_ready maker traded s ->
  (o_filledQty taker + traded <> o_qty taker -> 0 < outstanding taker s) ->
  (o_filledQty maker + traded <> o_qty maker -> 0 < outstanding maker s) ->
  exists s1 s2, record_side taker traded key s = Ok (tt, s1) /\ record_side maker traded key s1 = Ok (tt, s2) /\
    assertHoldAgrees (o_id taker) s2 = Ok (tt, s2) /\ assertHoldAgrees (o_id maker) s2 = Ok (tt, s2) /\
    free_grow s s2.
Proof.
  intros Hw Hne Ht Hrt Hrm Hpt Hpm.
  destruct (record_side_runs taker traded key s Hw Hrt Ht) as (tk & s1 & H1 & Hw1 & Htk & Htid & Hts & Hk1 & Hg1).
  destruct (Hk1 maker (sr_row _ _ _ Hrm) ltac:(congruence)) as (Hm1 & Hmo & Hmr).
  destruct (record_side_runs maker traded key s1 Hw1) as (mk & s2 & H2 & Hw2 & Hmk & Hmid & Hms & Hk2 & Hg2); [|done|].
  { destruct Hrm. split; try done; [by rewrite Hmo|auto]. }
  destruct (Hk2 tk Htk ltac:(congruence)) as (Htk2 & Hto & _).
  exists s1, s2. split; [done|]. split; [done|]. rewrite <- Htid, <- Hmid.
  split; [|split; [|intros r Hr; etrans; [by apply Hg1|by apply Hg2]]].
  - apply assertHoldAgrees_runs; [done..|]. unfold hold_agrees. rewrite Hto.
    destruct (Z.eqb_spec (o_filledQty taker + traded) (o_qty taker)); destruct Hts as [-> ->]; auto.
  - apply assertHoldAgrees_runs; [done..|]. unfold hold_agrees.
    destruct (Z.eqb_spec (o_filledQty maker + traded) (o_qty maker)); destruct Hms as [-> ->]; [done|].
    rewrite Hmo. auto.
Qed.

(** ** A fill that can settle *)

Section Settleable.
Context (market : SettlementMarket) (key : EventKey) (event : FillEvent) (taker maker : OrderRecord).
Context (cap : Z) (s : Store).

Definition the_buyer : OrderRecord := if bool_decide (ev_takerSide event = buy) then taker else maker.
Definition the_seller : OrderRecord := if bool_decide (ev_takerSide event = buy) then maker else taker.

(** The orders the event names: known, live, on opposite sides of this market, holding
    the assets it trades, with the quantity left. *)
Record orders_match : Prop := {
  om_taker : taker ∈ orders s; om_maker : maker ∈ orders s;
  om_taker_id : o_id taker = ev_takerOrderId event; om_maker_id : o_id maker = ev_makerOrderId event;
  om_shape : ORDER_ID (o_id taker) = true /\ ORDER_ID (o_id maker) = true;
  om_distinct : o_id taker <> o_id maker;
  om_market : o_market taker = m_id market /\ o_market maker = m_id market;
  om_taker_side : o_side taker = ev_takerSide event; om_maker_side : o_side maker <> o_side taker;
  om_quote : o_holdAsset the_buyer = m_quoteAsset market;
  om_base : o_holdAsset the_seller = m_baseAsset market;
  om_live : Order.orderHoldsFunds (o_status taker) = true /\ Order.orderHoldsFunds (o_status maker) = true;
  om_left : o_filledQty taker + ev_qty event <= o_qty taker /\ o_filledQty maker + ev_qty event <= o_qty maker
}.

(** The event: new, priced within what the buyer's hold was taken for, on a readable day. *)
Record event_fits : Prop := {
  ef_qty : 0 < ev_qty event; ef_price : 0 < ev_price event <= cap;
  ef_notional : notional_value cap (o_qty the_buyer) <= MAX_U64;
  ef_key : 0 < Store.seq key /\ 0 <= idx key;
  ef_new_key : forall f, f ∈ fills s -> ~ (f_market f = m_id market /\ f_key f = key);
  ef_new : settlementFillId market (ev_fillId event) ∉ Store.f_fillId <$> fills s;
  ef_day : exists day, utcDay (ev_timestampMs event) = Ok day /\ date_ok day = true;
  ef_assets : m_baseAsset market <> m_quoteAsset market /\
              exists c, qualified c (m_baseAsset market) /\ qualified c (m_quoteAsset market)
}.

(** The tables: what the gateway and settlement leave behind. *)
Record tables_ready : Prop := {
  tr_books : books_ok s;
  tr_covered : covered cap the_buyer s /\ covered 0 the_seller s;
  tr_fills : Forall (fun f => 0 < Store.f_qty f /\ 0 <= f_notional f) (fills s);
  tr_snapshots : snapshots_ok s;
  tr_released : no_release (o_id taker) s /\ no_release (o_id maker) s;
  tr_trades : forall t, t ∈ ledger s -> kind t = trade_settle -> referenceId t ∈ Store.f_fillId <$> fills s
}.

(** What is left of the purchase, if anything, is worth at least one unit of the quote asset. *)
Definition no_dust : Prop :=
  let left := o_qty the_buyer - o_filledQty the_buyer - ev_qty event in
  left = 0 \/ 0 < notional_value cap left.

Lemma fits_notional :
  orders_match -> event_fits -> tables_ready ->
  0 <= notional_value (ev_price event) (ev_qty event) <= MAX_U64 /\
  notional_value (ev_price event) (ev_qty event) <= notional_value cap (ev_qty event) /\
  0 <= o_filledQty taker /\ 0 <= o_filledQty maker.
Proof.
  intros Hm He Ht. pose proof (w_rows s (b_wired s (tr_books Ht))) as Hrows. rewrite Forall_forall in Hrows.
  pose proof (Hrows taker (om_taker Hm)) as Hrt. pose proof (Hrows maker (om_maker Hm)) as Hrm.
  unfold order_row_ok in Hrt, Hrm. zbool.
  destruct (om_left Hm) as [Hlt Hlm]. pose proof (ef_qty He). pose proof (ef_price He).
  assert (Hb : ev_qty event <= o_qty the_buyer) by (unfold the_buyer; destruct (ev_takerSide event); simpl; lia).
  pose proof (notional_value_mono (ev_price event) cap (ev_qty event) (ev_qty event) ltac:(lia) ltac:(lia)).
  pose proof (notional_value_mono cap cap (ev_qty event) (o_qty the_buyer) ltac:(lia) ltac:(lia)).
  pose proof (notional_value_nonneg (ev_price event) (ev_qty event) ltac:(lia) ltac:(lia)).
  pose proof (ef_notional He). lia.
Qed.

(** The amounts of the fill, at the two parties' rates. *)
Lemma amounts_run r1 r2 :
  orders_match -> event_fits -> tables_ready -> rates_ok r1 -> rates_ok r2 ->
  exists a, fillAmounts (mkFillTerms (ev_price event) (ev_qty event) (ev_takerSide event)
              (r_takerBps r1) (r_makerBps r2)) = Ok a /\
    fa_notional a = notional_value (ev_price event) (ev_qty event) /\
    buyerFee a = (if bool_decide (ev_takerSide event = buy) then takerFee a else makerFee a) /\
    sellerFee a = (if bool_decide (ev_takerSide event = buy) then makerFee a else takerFee a) /\
    0 <= takerFee a <= fa_notional a /\ 0 <= makerFee a <= fa_notional a /\
    0 <= fa_takerBps a <= 10000 /\ 0 <= fa_makerBps a <= 10000 /\
    buyerFee a <= fee_value (fa_notional a) WORST_CASE_TAKER_BPS.
Proof.
  intros Hm He Ht (t1 & H1 & _ & Hr1) (t2 & H2 & Hr2 & _).
  apply fee_tiers_bounds in H1, H2. rewrite WORST_CASE_value in *. rewrite Hr1, Hr2.
  destruct (fits_notional Hm He Ht) as (Hn & _). pose proof (ef_qty He). pose proof (ef_price He).
  destruct (fillAmounts_Ok (mkFillTerms (ev_price event) (ev_qty event) (ev_takerSide event)
              (takerBps t1) (makerBps t2))) as (a & Ha & Hna & Hbf & Hsf & Htb & Hmb & Htf & Hmf);
    simpl in *; try lia.
  exists a. split; [done|]. split; [done|].
  pose proof (fee_value_nonneg (fa_notional a) (takerBps t1) ltac:(lia) ltac:(lia)).
  pose proof (fee_value_nonneg (fa_notional a) (makerBps t2) ltac:(lia) ltac:(lia)).
  pose proof (fee_value_le (fa_notional a) (takerBps t1) ltac:(lia) ltac:(unfold BPS_DENOMINATOR; lia)).
  pose proof (fee_value_le (fa_notional a) (makerBps t2) ltac:(lia) ltac:(unfold BPS_DENOMINATOR; lia)).
  pose proof (fee_value_mono (fa_notional a) (fa_notional a) (takerBps t1) 20 ltac:(lia) ltac:(lia)).
  pose proof (fee_value_mono (fa_notional a) (fa_notional a) (makerBps t2) 20 ltac:(lia) ltac:(lia)).
  rewrite Hbf, Hsf, Htb, Hmb, Htf, Hmf. destruct (ev_takerSide event); simpl; split_and!; lia || done.
Qed.

Context (amounts : FillAmounts).

(** What [amounts_run] establishes. *)
Record amounts_fit : Prop := {
  af_notional : fa_notional amounts = notional_value (ev_price event) (ev_qty event);
  af_buyer : buyerFee amounts = (if bool_decide (ev_takerSide event = buy) then takerFee amounts else makerFee amounts);
  af_seller : sellerFee amounts = (if bool_decide (ev_takerSide event = buy) then makerFee amounts else takerFee amounts);
  af_taker : 0 <= takerFee amounts <= fa_notional amounts;
  af_maker : 0 <= makerFee amounts <= fa_notional amounts;
  af_takerBps : 0 <= fa_takerBps amounts <= 10000;
  af_makerBps : 0 <= fa_makerBps amounts <= 10000;
  af_worst : buyerFee amounts <= fee_value (fa_notional amounts) WORST_CASE_TAKER_BPS
}.

Lemma row_ok_fits :
  orders_match -> event_fits -> tables_ready -> amounts_fit ->
  fill_row_ok (fill_row market key event taker maker amounts) = true.
Proof.
  intros Hm He Ht Ha. destruct (fits_notional Hm He Ht) as (Hn & _). destruct Ha as [Hna _ _ Htf Hmf Htb Hmb _].
  destruct (ef_key He) as [Hseq Hidx]. pose proof (ef_qty He). pose proof (ef_price He) as [Hp _].
  destruct (ef_assets He) as [Hba _]. pose proof (om_distinct Hm).
  unfold fill_row_ok. simpl.
  rewrite !(proj2 (Z.ltb_lt _ _)), !(proj2 (Z.leb_le _ _)), !bool_decide_eq_false_2 by (done || lia). done.
Qed.

Lemma trade_fits :
  orders_match -> event_fits -> tables_ready -> amounts_fit ->
  exists t, postTradeSettlement (trade_of market event the_buyer the_seller amounts) = Ok t.
Proof.
  intros Hm He Ht Ha. destruct (fits_notional Hm He Ht) as (Hn & _).
  destruct Ha as [Hna Hbf Hsf Htf Hmf _ _ _]. destruct (ef_assets He) as [Hba [c [Hq1 Hq2]]].
  eexists. apply postTradeSettlement_Ok. split; [|reflexivity]. simpl. pose proof (ef_qty He).
  rewrite Hbf, Hsf. destruct (ev_takerSide event); simpl; split_and!; try lia; try done; exists c; auto.
Qed.

(** The buyer's fill costs at most its reserve, so what is left stays covered. *)
Lemma held_after (o : OrderRecord) taken :
  orders_match -> event_fits -> tables_ready -> amounts_fit -> no_dust ->
  (o = the_buyer /\ taken = fa_notional amounts + buyerFee amounts) \/ (o = the_seller /\ taken = ev_qty event) ->
  0 <= outstanding o s - taken /\
  (o_filledQty o + ev_qty event <> o_qty o -> 0 < outstanding o s - taken).
Proof.
  intros Hm He Ht Ha Hd Ho. destruct (fits_notional Hm He Ht) as (Hn & Hnc & Hft & Hfm).
  destruct (tr_covered Ht) as [Hcb Hcs]. pose proof (ef_qty He) as Hqty. pose proof (ef_price He) as Hprice.
  destruct (om_left Hm) as [Hlt Hlm]. destruct (tr_released Ht) as [Hrt Hrm].
  pose proof (b_progress s (tr_books Ht)) as Hprog.
  pose proof (Hprog taker (om_taker Hm)) as Hpt. pose proof (Hprog maker (om_maker Hm)) as Hpm.
  assert (Hpos : fills_positive s).
  { eapply Forall_impl; [apply (tr_fills Ht)|]. by intros f [? _]. }
  assert (Hrel : forall id, no_release id s -> released id s = 0).
  { intros id Hno. unfold released. rewrite (sum_if_ext _ (fun _ => true) _ (fun _ => 0)).
    - generalize (ledger s). induction l; simpl; lia.
    - intros t Hin. split; [done|]. intros _. unfold release_debits. by rewrite Hno. }
  assert (Hsides : o_side the_buyer = buy /\ o_side the_seller = sell).
  { pose proof (om_taker_side Hm). pose proof (om_maker_side Hm). unfold the_buyer, the_seller.
    destruct (ev_takerSide event), (o_side taker) eqn:E1, (o_side maker) eqn:E2; simpl; try done; congruence. }
  destruct Hsides as [Hsb Hss].
  assert (Hpb : (o_filledQty the_buyer + 0 = sum_if (fill_of (o_id the_buyer)) Store.f_qty (fills s) /\
                 released (o_id the_buyer) s = 0 /\ o_filledQty the_buyer + ev_qty event <= o_qty the_buyer) /\
                (o_filledQty the_seller + 0 = sum_if (fill_of (o_id the_seller)) Store.f_qty (fills s) /\
                 released (o_id the_seller) s = 0 /\ o_filledQty the_seller + ev_qty event <= o_qty the_seller)).
  { unfold the_buyer, the_seller. destruct (ev_takerSide event); simpl; auto 10. }
  destruct Hpb as [(Hfb & Hrb & Hlb) (Hfs & Hrs & Hls)].
  assert (Hf0 : 0 <= o_filledQty the_buyer) by (unfold the_buyer; destruct (ev_takerSide event); simpl; lia).
  destruct Ho as [[-> ->]|[-> ->]].
  - pose proof (outstanding_covered cap the_buyer s Hcb Hpos Hrb) as Hc. simpl in Hc.
    rewrite <- Hfb, Z.add_0_r in Hc. specialize (Hc ltac:(lia)). unfold needed in Hc. rewrite Hsb in Hc.
    set (left := o_qty the_buyer - o_filledQty the_buyer) in *.
    pose proof (reserve_value_add cap (ev_qty event) (left - ev_qty event) ltac:(lia) ltac:(lia) ltac:(lia)) as Hadd.
    replace (ev_qty event + (left - ev_qty event)) with left in Hadd by lia.
    assert (Hcost : fa_notional amounts + buyerFee amounts <= reserve_value cap (ev_qty event)).
    { pose proof (af_worst Ha). rewrite (af_notional Ha) in *. unfold reserve_value.
      pose proof (fee_value_mono (notional_value (ev_price event) (ev_qty event)) (notional_value cap (ev_qty event))
        WORST_CASE_TAKER_BPS WORST_CASE_TAKER_BPS ltac:(lia) ltac:(rewrite WORST_CASE_value; lia)). lia. }
    pose proof (reserve_value_bounds cap (left - ev_qty event) ltac:(lia) ltac:(lia)).
    split; [lia|]. intros Hne. destruct Hd as [Hd|Hd]; fold left in Hd; lia.
  - pose proof (outstanding_covered 0 the_seller s Hcs Hpos Hrs) as Hc. simpl in Hc.
    rewrite <- Hfs, Z.add_0_r in Hc. specialize (Hc ltac:(lia)). unfold needed in Hc. rewrite Hss in Hc. lia.
Qed.

(** From the tables with the fill's row in, everything that is left runs, and no account
    but an order lock goes down. *)
Lemma inserted_runs :
  orders_match -> event_fits -> tables_ready -> amounts_fit -> no_dust ->
  let row := fill_row market key event taker maker amounts in
  exists s', settle_inserted market key event taker maker the_buyer the_seller amounts
      (set_fills (fills s ++ [row]) s) =
    Ok (fill_settled (m_quoteAsset market) (buyerFee amounts + sellerFee amounts) (ev_timestampMs event), s') /\
    free_grow s s'.
Proof.
  intros Hm He Ht Ha Hd row. pose proof (b_wired s (tr_books Ht)) as Hw.
  destruct (trade_fits Hm He Ht Ha) as [t Hpost]. pose proof Hpost as Htt.
  apply postTradeSettlement_Ok in Htt as [_ Htt].
  set (s1 := set_fills (fills s ++ [row]) s). set (s2 := set_ledger (ledger s1 ++ [t]) s1).
  pose proof (om_taker_side Hm) as Hsd. pose proof (om_maker_side Hm) as Hsds.
  assert (Hw2 : wired s2).
  { apply (fill_step_wired market key event taker maker amounts s t); try done;
      [apply (om_taker Hm)|apply (om_maker Hm)|apply (om_distinct Hm)|apply (om_quote Hm)|apply (om_base Hm)
      |apply (af_buyer Ha)|apply (ef_new He)]. }
  assert (Hout : forall x, x ∈ orders s -> outstanding x s2 = outstanding x s +
    (if bool_decide (o_id x = o_id taker) then - taken_from_taker event amounts else 0) +
    (if bool_decide (o_id x = o_id maker) then - taken_from_maker event amounts else 0)).
  { apply (fill_step_outstanding market key event taker maker amounts s t); try done;
      [apply (om_taker Hm)|apply (om_maker Hm)|apply (om_distinct Hm)|apply (om_quote Hm)|apply (om_base Hm)
      |apply (af_buyer Ha)]. }
  pose proof (om_distinct Hm) as Hne. pose proof (Hout taker (om_taker Hm)) as Hot.
  pose proof (Hout maker (om_maker Hm)) as Hom.
  rewrite bool_decide_eq_true_2, bool_decide_eq_false_2, Z.add_0_r in Hot by done.
  rewrite bool_decide_eq_false_2, bool_decide_eq_true_2, Z.add_0_r in Hom by congruence.
  assert (Hheld : (0 <= outstanding taker s2 /\
                   (o_filledQty taker + ev_qty event <> o_qty taker -> 0 < outstanding taker s2)) /\
                  (0 <= outstanding maker s2 /\
                   (o_filledQty maker + ev_qty event <> o_qty maker -> 0 < outstanding maker s2))).
  { rewrite Hot, Hom. unfold taken_from_taker, taken_from_maker.
    split; rewrite ?Z.add_opp_r; apply held_after; try done;
      unfold the_buyer, the_seller; destruct (ev_takerSide event); simpl; auto. }
  destruct Hheld as [[Ht0 Ht1] [Hm0 Hm1]].
  assert (Hno : forall id, no_release id s -> no_release id s2).
  { intros id Hid x Hx. unfold s2 in Hx. simpl in Hx. apply elem_of_app in Hx as [Hx|Hx%list_elem_of_singleton].
    - by apply Hid.
    - subst x. by rewrite Htt. }
  assert (Hasset : forall o, o = taker \/ o = maker -> exists c, qualified c (o_holdAsset o)).
  { destruct (ef_assets He) as [_ [c [H1 H2]]]. pose proof (om_quote Hm) as Hq. pose proof (om_base Hm) as Hb.
    unfold the_buyer, the_seller in *. intros o [-> | ->]; exists c; destruct (ev_takerSide event); simpl in *; congruence. }
  destruct (om_live Hm) as [Hlt Hlm]. destruct (om_left Hm) as [Hqt Hqm]. destruct (tr_released Ht) as [Hrt Hrm].
  destruct (sides_run taker maker (ev_qty event) key s2 Hw2 Hne (ef_qty He)) as (s3 & s4 & H1 & H2 & H3 & H4 & Hg);
    [split; auto; apply (om_taker Hm)|split; auto; apply (om_maker Hm)|done|done|].
  assert (Hbs : (the_buyer ∈ orders s2 /\ 0 <= outstanding the_buyer s2) /\
                (the_seller ∈ orders s2 /\ 0 <= outstanding the_seller s2)).
  { pose proof (om_taker Hm). pose proof (om_maker Hm).
    unfold the_buyer, the_seller. destruct (ev_takerSide event); simpl; auto. }
  destruct Hbs as [[Hb1 Hb2] [Hs1 Hs2]].
  exists s4. split.
  - unfold settle_inserted. run; [apply (postLedger_runs (PTradeSettlement _) t); [exact Hpost|]|].
    + intros _ t' Ht'. apply not_true_iff_false. intros Hsame. unfold same_reference in Hsame. zbool.
      destruct Ht as [_ _ _ _ _ Htrades]. apply (ef_new He).
      assert (Hr : referenceId t = settlementFillId market (ev_fillId event)) by (by rewrite Htt).
      rewrite <- Hr. match goal with H : referenceId t' = _ |- _ => rewrite <- H end.
      apply Htrades; [done|]. rewrite Htt in *. done.
    + fold s1. fold s2. run; [by apply check_runs|]. run; [by apply check_runs|]. run; [exact H1|].
      run; [exact H2|]. run; [exact H3|]. run; [exact H4|]. done.
  - intros r Hr. etrans; [|by apply Hg]. unfold s2. rewrite credit_balance_app.
    change (credit_balance r s1) with (credit_balance r s).
    rewrite (trade_settlement_effect_net _ _ _ Hpost). simpl.
    rewrite !(bool_decide_eq_false_2 (userOrderLocked _ _ = r)) by (by intros <-).
    destruct Ha as [Hna Hbf Hsf Htf Hmf _ _ _]. destruct (fits_notional Hm He Ht) as (Hn & _).
    pose proof (ef_qty He). rewrite Hbf, Hsf. destruct (bool_decide (ev_takerSide event = buy));
      repeat case_bool_decide; lia.
Qed.
End Settleable.

(** The deferred constraints hold whenever no trading account is negative and the new
    transactions are postings. *)
Lemma constraints_hold s s' :
  extends s s' -> trading_nonneg s' -> deferred_ok s s' = true /\ balanced_ok s s' = true.
Proof.
  intros (ps & ts & Hps & Hl) Hnn. unfold deferred_ok, balanced_ok. rewrite Hl, drop_app_length. split.
  - apply forallb_forall. intros e _. unfold trading_debit. destruct (account e) as [[u|] a ty] eqn:Ea; simpl.
    + destruct (bool_decide _); simpl; [|done]. destruct (isTradingAccount ty) eqn:Hty; simpl; [|done].
      apply Z.leb_le. by apply Hnn.
    + by rewrite andb_false_r.
  - apply forallb_forall. intros t Ht%list_elem_of_In. apply isBalanced_true.
    apply list_elem_of_lookup in Ht as [i Hi]. destruct (Forall2_lookup_r _ _ _ _ _ Hps Hi) as (p & _ & Hp).
    by destruct (post_wf p t Hp).
Qed.

Lemma insertFill_runs f s :
  fill_row_ok f = true -> Store.f_fillId f ∉ Store.f_fillId <$> fills s ->
  (forall g, g ∈ fills s -> ~ (f_market g = f_market f /\ f_key g = f_key f)) ->
  insertFill f s = Ok (inserted, set_fills (fills s ++ [f]) s).
Proof.
  intros Hok Hnew Hkey. unfold insertFill. run; [reflexivity|]. run; [apply raise_if_runs; by rewrite Hok|].
  destruct (existsb (fun g => bool_decide (Store.f_fillId g = Store.f_fillId f)) (fills s)) eqn:E.
  - apply existsb_exists in E as (g & Hg%list_elem_of_In & Heq). zbool. destruct Hnew. rewrite <- Heq.
    by apply list_elem_of_fmap_2.
  - run; [apply raise_if_runs|]; [|run; reflexivity]. apply not_true_iff_false.
    intros (g & Hg%list_elem_of_In & Heq)%existsb_exists. zbool. by apply (Hkey g).
Qed.

(** A settled state's trading accounts stay non-negative: locks are holds, the rest only grew. *)
Lemma settled_trading s s' : books_ok s -> core s' -> free_grow s s' -> trading_nonneg s'.
Proof.
  intros Hb (Hw & _ & Ha) Hg u a ty Hty. destruct (decide (ty = user_order_locked)) as [->|Hne].
  - change (mkAccount (Some u) a user_order_locked) with (userOrderLocked u a). rewrite (w_locks s' Hw).
    apply sum_if_nonneg. intros o Ho _. specialize (Ha o Ho ltac:(set_solver)). unfold hold_agrees in Ha.
    destruct (Order.orderHoldsFunds _); lia.
  - etrans; [by apply (b_trading s Hb)|]. by apply Hg.
Qed.

(** Writing snapshots leaves every condition of a settleable fill as it was. *)
Lemma snapshots_conditions market key event taker maker cap s ss :
  Forall (fun x => rates_ok (rates_of x)) ss ->
  orders_match market event taker maker s -> event_fits market key event taker maker cap s ->
  tables_ready event taker maker cap s ->
  let s0 := set_snapshots ss s in
  orders_match market event taker maker s0 /\ event_fits market key event taker maker cap s0 /\
  tables_ready event taker maker cap s0.
Proof.
  intros Hss [] [] [Hb Hc Hf Hs Hr Ht] s0. split; [by split|]. split; [by split|]. split; try done.
  apply books_ok_core. apply books_ok_core in Hb as [Hcore Hnn]. split; [|done]. by apply set_snapshots_core.
Qed.

Lemma settleFill_runs market key event taker maker cap s :
  orders_match market event taker maker s -> event_fits market key event taker maker cap s ->
  tables_ready event taker maker cap s -> no_dust event taker maker cap ->
  exists fees s', settleFill market key event s
    = Ok (fill_settled (m_quoteAsset market) fees (ev_timestampMs event), s') /\ free_grow s s'.
Proof.
  intros Hm He Ht Hd. pose proof (w_ids s (b_wired s (tr_books _ _ _ _ _ Ht))) as Hnd.
  destruct (ef_day _ _ _ _ _ _ _ He) as (day & Hday & Hdate).
  assert (Hnn : notionals_nonneg s).
  { eapply Forall_impl; [apply (tr_fills _ _ _ _ _ Ht)|]. by intros f [_ ?]. }
  destruct (feeRatesFor_runs (o_user taker) (m_quoteAsset market) (ev_timestampMs event) day s Hday Hdate
              (tr_snapshots _ _ _ _ _ Ht) Hnn) as (r1 & ss1 & Hr1 & Hok1 & Hss1).
  destruct (feeRatesFor_runs (o_user maker) (m_quoteAsset market) (ev_timestampMs event) day (set_snapshots ss1 s)
              Hday Hdate Hss1 Hnn) as (r2 & ss2 & Hr2 & Hok2 & Hss2).
  destruct (snapshots_conditions market key event taker maker cap s ss1 Hss1 Hm He Ht) as (Hm1 & He1 & Ht1).
  destruct (snapshots_conditions market key event taker maker cap _ ss2 Hss2 Hm1 He1 Ht1) as (Hm2 & He2 & Ht2).
  set (s0 := set_snapshots ss2 (set_snapshots ss1 s)) in *.
  destruct (amounts_run market key event taker maker cap s0 r1 r2 Hm2 He2 Ht2 Hok1 Hok2) as (a & Ha & Hfit).
  assert (Haf : amounts_fit event a) by (destruct Hfit as (? & ? & ? & ? & ? & ? & ? & ?); by split).
  destruct (inserted_runs market key event taker maker cap s0 a Hm2 He2 Ht2 Haf Hd) as (s' & Hset & Hg).
  exists (buyerFee a + sellerFee a), s'. split; [|exact Hg].
  unfold settleFill. destruct (om_shape _ _ _ _ _ Hm) as [Hsh1 Hsh2]. destruct (om_market _ _ _ _ _ Hm) as [Hmk1 Hmk2].
  rewrite <- (om_taker_id _ _ _ _ _ Hm), <- (om_maker_id _ _ _ _ _ Hm).
  run; [by apply load_runs; [|apply (om_taker _ _ _ _ _ Hm)|..]|].
  run; [by apply load_runs; [|apply (om_maker _ _ _ _ _ Hm)|..]|].
  run.
  { apply raise_if_runs, orb_false_iff. split.
    - apply negb_false_iff, bool_decide_eq_true, (om_taker_side _ _ _ _ _ Hm).
    - apply bool_decide_eq_false, (om_maker_side _ _ _ _ _ Hm). }
  run.
  { apply raise_if_runs, orb_false_iff. split; apply negb_false_iff, bool_decide_eq_true.
    - apply (om_quote _ _ _ _ _ Hm).
    - apply (om_base _ _ _ _ _ Hm). }
  run; [exact Hr1|]. run; [exact Hr2|]. run; [by apply lift_Ok|].
  run; [apply insertFill_runs|exact Hset].
  - by apply (row_ok_fits market key event taker maker cap s0).
  - exact (ef_new _ _ _ _ _ _ _ He).
  - exact (ef_new_key _ _ _ _ _ _ _ He).
Qed.

(** ** Properties *)

(** C3: a fill the engine can make is settled. On books that agree, an event that fills two known,
    live orders of one market on opposite sides by no more than either has left, at a
    price no worse for the buyer than the one its hold was computed at, commits: no halt,
    no database constraint and no posting rule stops it, the holds are never overdrawn,
    and the outcome is a settled fill; provided what is left of the purchase is nothing or
    worth at least one quote unit. *)
Theorem fill_settles market key event taker maker cap s :
  orders_match market event taker maker s -> event_fits market key event taker maker cap s ->
  tables_ready event taker maker cap s -> no_dust event taker maker cap ->
  exists fees s',
    withTransaction (Settlement.apply market key (fill event)) s
      = Ok (fill_settled (m_quoteAsset market) fees (ev_timestampMs event), s').
Proof.
  intros Hm He Ht Hd. destruct (settleFill_runs market key event taker maker cap s Hm He Ht Hd)
    as (fees & s' & Hrun & Hg).
  pose proof (tr_books _ _ _ _ _ Ht) as Hb. pose proof Hb as [Hc _]%books_ok_core.
  exists fees, s'. apply withTransaction_Ok. split; [exact Hrun|].
  pose proof (apply_core market key (fill event) s _ s' Hc Hrun) as Hc'.
  apply constraints_hold; [exact (apply_within extends market key (fill event) s _ s' Hrun)|by apply (settled_trading s)].
Qed.

(** ** Witnesses *)

Definition pick (id : string) (s : Store) : OrderRecord :=
  match findById id s with
  | Ok (Some o, _) => o
  | _ => mkOrder "" "" "" "" buy limit GTC false None 0 0 Order.FAILED "" 0 None None 0
  end.

Lemma pick_row id s : existsb (fun o => bool_decide (o_id o = id)) (orders s) = true -> pick id s ∈ orders s.
Proof.
  intros (o & Ho%list_elem_of_In & Hid)%existsb_exists. unfold pick.
  destruct (findById id s) as [[r s']|e] eqn:E; [|done]. apply findById_Ok in E as [_ Hr].
  destruct r as [o'|]; [by destruct Hr|]. destruct Hr. zbool. rewrite <- Hid. by apply list_elem_of_fmap_2.
Qed.

Lemma fill_settles_witness :
  exists fees s',
    withTransaction (Settlement.apply demo_settlement_market (mkKey 2 0) (fill demo_fill)) demo_both
      = Ok (fill_settled "devnet:USDC" fees 1700000000000, s').
Proof.
  assert (Hf : fills demo_both = []) by (vm_compute; reflexivity).
  apply (fill_settles demo_settlement_market (mkKey 2 0) demo_fill (pick alice_order demo_both)
           (pick bob_order demo_both) 150000000 demo_both).
  - split.
    + apply pick_row. vm_compute. reflexivity.
    + apply pick_row. vm_compute. reflexivity.
    + vm_compute. reflexivity.
    + vm_compute. reflexivity.
    + split; vm_compute; reflexivity.
    + vm_compute. discriminate.
    + split; vm_compute; reflexivity.
    + vm_compute. reflexivity.
    + vm_compute. discriminate.
    + vm_compute. reflexivity.
    + vm_compute. reflexivity.
    + split; vm_compute; reflexivity.
    + split; vm_compute; discriminate.
  - split.
    + vm_compute. reflexivity.
    + split; vm_compute; [reflexivity|discriminate].
    + vm_compute. discriminate.
    + split; vm_compute; [reflexivity|discriminate].
    + rewrite Hf. intros f Hin. destruct (not_elem_of_nil f Hin).
    + rewrite Hf. apply not_elem_of_nil.
    + exists 19675. split; vm_compute; reflexivity.
    + split; [vm_compute; discriminate|]. exists devnet. split; eexists; vm_compute; reflexivity.
  - split.
    + apply demo_both_books.
    + split; unfold covered.
      * replace (o_side _) with buy by (vm_compute; reflexivity). split; [discriminate|].
        split; [vm_compute; discriminate|]. rewrite Hf. constructor.
      * replace (o_side _) with sell by (vm_compute; reflexivity). vm_compute. discriminate.
    + rewrite Hf. constructor.
    + unfold snapshots_ok. replace (snapshots demo_both) with (@nil FeeTierSnapshot) by (vm_compute; reflexivity).
      constructor.
    + split; unfold no_release; apply Forall_forall; vm_compute; repeat constructor.
    + apply (Forall_forall (fun t => kind t = trade_settle -> referenceId t ∈ Store.f_fillId <$> fills demo_both)).
      rewrite Hf. vm_compute. repeat (constructor; [intros H; discriminate H|]). constructor.
  - right. vm_compute. reflexivity.
Defined.
