(* ===== verification/Custody.v ===== *)
(** * The custody tables and their repositories

    [packages/db/src/repositories]: [withdrawal.repository.ts], [nonce.repository.ts],
    [signing-request.repository.ts] and [risk-decision.repository.ts], over the ledger
    and users of [Store], and the tables of wallets, addresses, deposits and cursors,
    whose other operations are in [Deposits]. As there, a table is the list of its rows, oldest first; the
    nonce accounts are in the order of their last update. A call is a step of [ctx],
    which aborts on an exception or a violated constraint of the migrations.

    Amounts are integers here: the text of an amount is checked by the routes. Not
    modelled: correlation ids, times other than a row's creation and settlement, the
    append-only transition log, links to ledger transactions, failure messages of
    signing requests, and the locks of [FOR UPDATE SKIP LOCKED] (a transaction is one
    step). *)

From S2P Require Import Prelude Risk Assets Ledger States Store.
From Stdlib Require Import ZArith Lia Ascii.
From stdpp Require Import base list strings gmap.

Open Scope string_scope.
Open Scope list_scope.
Open Scope Z_scope.

(** ** Rows *)

Inductive WithdrawalPurpose := external | allocation | deallocation.

#[export] Instance WithdrawalPurpose_eq_dec : EqDecision WithdrawalPurpose.
Proof. solve_decision. Defined.

(** What a transaction moves, from [packages/solana]: the instructions of a native or a token
    transfer on a durable nonce. Its bytes are its content; serializing them is left to
    the chain's library. *)
Inductive Message :=
| native_transfer (from feePayer to : string) (lamports : Z) (nonceAccount nonceAuthority nonce : string)
| token_transfer (owner feePayer destinationOwner mint : string) (amount : Z)
    (createDestinationAccount : bool) (nonceAccount nonceAuthority nonce : string).

#[export] Instance Message_eq_dec : EqDecision Message.
Proof. solve_decision. Defined.

(** A message with the signatures attached to it, by signer. *)
Record Signed := mkSigned { sg_message : Message; sg_signatures : list (string * string) }.

#[export] Instance Signed_eq_dec : EqDecision Signed.
Proof. solve_decision. Defined.

Record WithdrawalRecord := mkWithdrawal {
  wd_id : string;
  wd_user : string;
  wd_chain : string;
  wd_asset : string;
  wd_amount : Z;
  wd_networkFee : option Z;
  wd_destination : string;
  wd_purpose : WithdrawalPurpose;
  wd_status : Withdrawal.WithdrawalStatus;
  wd_idempotencyKey : string;
  wd_signAttempts : Z;
  wd_broadcastAttempts : Z;
  wd_expiryAttempts : Z;
  wd_signedTransaction : option Signed;
  wd_txSignature : option string;
  wd_nonceAccountId : option string;
  wd_nonceValue : option string;
  wd_failureReason : option string;
  wd_createdAt : Z;
  wd_settledAt : option Z
}.

Inductive NonceStatus := available | leased | retired.

#[export] Instance NonceStatus_eq_dec : EqDecision NonceStatus.
Proof. solve_decision. Defined.

Record NonceAccountRecord := mkNonce {
  na_id : string; na_chain : string; na_address : string; na_status : NonceStatus;
  na_leasedBy : option string
}.

Inductive SigningOutcome := requested | succeeded | failed.

#[export] Instance SigningOutcome_eq_dec : EqDecision SigningOutcome.
Proof. solve_decision. Defined.

Record SigningRequest := mkSigning {
  sr_withdrawalId : string; sr_requestId : string; sr_keyRef : string; sr_outcome : SigningOutcome
}.

(** A risk decision as persisted; the input snapshot is not kept. *)
Record WithdrawalDecisionRow := mkWithdrawalDecision { wr_withdrawalId : string; wr_decision : RiskDecision }.

(** [custody.repository.ts], [deposit.repository.ts] and [cursor.repository.ts]: whose the
    addresses are, what arrived at them, and how far each account was scanned. *)
Inductive WalletStatus := wallet_active | wallet_frozen | wallet_closed.

#[export] Instance WalletStatus_eq_dec : EqDecision WalletStatus.
Proof. solve_decision. Defined.

Record WalletRecord := mkWallet { wl_id : string; wl_user : string; wl_chain : string; wl_status : WalletStatus }.

Inductive CustodyRole := role_deposit | role_hot | role_warm | role_cold.

#[export] Instance CustodyRole_eq_dec : EqDecision CustodyRole.
Proof. solve_decision. Defined.

Record AddressRecord := mkAddress {
  ad_id : string; ad_wallet : string; ad_chain : string; ad_address : string;
  ad_role : CustodyRole; ad_active : bool  (** the status is [active], not [retired] *)
}.

Inductive DepositStatus := confirming | credited | ignored.

#[export] Instance DepositStatus_eq_dec : EqDecision DepositStatus.
Proof. solve_decision. Defined.

Record DepositRecord := mkDepositRow {
  dp_id : string; dp_wallet : string; dp_address : string; dp_user : string;
  dp_chain : string; dp_asset : string; dp_amount : Z; dp_rentReserved : Z;
  dp_txSignature : string; dp_instructionIndex : Z; dp_position : Z;
  dp_status : DepositStatus; dp_reason : option string
}.

Record CursorRecord := mkCursor {
  cu_addressId : string; cu_scanAddress : string; cu_chain : string;
  cu_signature : option string; cu_position : option Z
}.

(** The tables. *)
Record Custody := mkCustody {
  books : Store;
  wallets : list WalletRecord;
  addresses : list AddressRecord;
  deposits : list DepositRecord;
  cursors : list CursorRecord;
  withdrawals : list WithdrawalRecord;
  nonces : list NonceAccountRecord;
  signings : list SigningRequest;
  decided : list WithdrawalDecisionRow
}.

Definition set_books (b : Store) (s : Custody) : Custody :=
  mkCustody b (wallets s) (addresses s) (deposits s) (cursors s) (withdrawals s) (nonces s) (signings s) (decided s).
Definition set_deposits (ds : list DepositRecord) (s : Custody) : Custody :=
  mkCustody (books s) (wallets s) (addresses s) ds (cursors s) (withdrawals s) (nonces s) (signings s) (decided s).
Definition set_cursors (cs : list CursorRecord) (s : Custody) : Custody :=
  mkCustody (books s) (wallets s) (addresses s) (deposits s) cs (withdrawals s) (nonces s) (signings s) (decided s).
Definition set_withdrawals (ws : list WithdrawalRecord) (s : Custody) : Custody :=
  mkCustody (books s) (wallets s) (addresses s) (deposits s) (cursors s) ws (nonces s) (signings s) (decided s).
Definition set_nonces (ns : list NonceAccountRecord) (s : Custody) : Custody :=
  mkCustody (books s) (wallets s) (addresses s) (deposits s) (cursors s) (withdrawals s) ns (signings s) (decided s).
Definition set_signings (rs : list SigningRequest) (s : Custody) : Custody :=
  mkCustody (books s) (wallets s) (addresses s) (deposits s) (cursors s) (withdrawals s) (nonces s) rs (decided s).
Definition set_decided (ds : list WithdrawalDecisionRow) (s : Custody) : Custody :=
  mkCustody (books s) (wallets s) (addresses s) (deposits s) (cursors s) (withdrawals s) (nonces s) (signings s) ds.

(** ** Transactions *)

Definition ctx (A : Type) : Type := Custody -> result (A * Custody).

#[export] Instance ctx_ret : MRet ctx := fun A a s => Ok (a, s).
#[export] Instance ctx_bind : MBind ctx := fun A B k m s =>
  match m s with Ok (a, s') => k a s' | Throw e => Throw e end.

Definition query {A} (f : Custody -> A) : ctx A := fun s => Ok (f s, s).
Definition update (f : Custody -> Custody) : ctx unit := fun s => Ok (tt, f s).
Definition lift_ctx {A} (r : result A) : ctx A := fun s =>
  match r with Ok a => Ok (a, s) | Throw e => Throw e end.
Definition refuse_if (b : bool) (e : error) : ctx unit := lift_ctx (throw_if b e).

(** A call of a repository of [Store]. *)
Definition on_books {A} (m : tx A) : ctx A := fun s =>
  match m (books s) with Ok (a, b) => Ok (a, set_books b s) | Throw e => Throw e end.

(** [withTransaction]: the deferred constraints are those of the ledger. *)
Definition atomically {A} (fn : ctx A) : ctx A := fun s =>
  match fn s with
  | Throw e => Throw e
  | Ok (a, s') =>
      if deferred_ok (books s) (books s') && balanced_ok (books s) (books s')
      then Ok (a, s') else Throw check_violation
  end.

Definition missing_reference : error := ConstraintViolation "23503".

(** ** [custody.repository.ts] *)

Definition findByAddress (chain address : string) : ctx (option AddressRecord) :=
  query (fun s => head (filter (fun a => ad_chain a = chain /\ ad_address a = address) (addresses s))).

Definition findWalletById (id : string) : ctx (option WalletRecord) :=
  query (fun s => head (filter (fun w => wl_id w = id) (wallets s))).

(** ** [withdrawal.repository.ts] *)

(** The row checks of the withdrawals table. *)
Definition withdrawal_row_ok (w : WithdrawalRecord) : bool :=
  (0 <? wd_amount w) && (0 <=? default 0 (wd_networkFee w)) &&
  (0 <=? wd_signAttempts w) && (0 <=? wd_broadcastAttempts w) && (0 <=? wd_expiryAttempts w) &&
  existsb (assetKeyInCluster (wd_asset w)) CLUSTERS && str_includes SEPARATOR (wd_chain w) &&
  (bool_decide (wd_purpose w = external) || negb (bool_decide (wd_destination w = ""))).

Definition findById (id : string) : ctx (option WithdrawalRecord) :=
  query (fun s => head (filter (fun w => wd_id w = id) (withdrawals s))).

Definition findByIdempotencyKey (userId key : string) : ctx (option WithdrawalRecord) :=
  query (fun s => head (filter (fun w => wd_user w = userId /\ wd_idempotencyKey w = key) (withdrawals s))).

Inductive CreateWithdrawalResult :=
| created (withdrawal : WithdrawalRecord)
| existing (withdrawal : WithdrawalRecord).

Record CreateWithdrawalInput := mkCreate {
  ci_user : string; ci_chain : string; ci_asset : string; ci_amount : Z; ci_destination : string;
  ci_purpose : WithdrawalPurpose; ci_idempotencyKey : string
}.

(** [create], with the fresh id and the time of the database. *)
Definition create (id : string) (at_ : Z) (i : CreateWithdrawalInput) : ctx CreateWithdrawalResult :=
  let row := mkWithdrawal id (ci_user i) (ci_chain i) (ci_asset i) (ci_amount i) None (ci_destination i)
               (ci_purpose i) Withdrawal.REQUESTED (ci_idempotencyKey i) 0 0 0 None None None None None
               at_ None in
  _ ← refuse_if (negb (withdrawal_row_ok row)) check_violation;
  found ← findByIdempotencyKey (ci_user i) (ci_idempotencyKey i);
  match found with
  | Some withdrawal => mret (existing withdrawal)
  | None =>
      taken ← findById id;
      _ ← refuse_if (bool_decide (is_Some taken)) unique_violation;
      known ← query (fun s => users (books s) !! ci_user i);
      _ ← refuse_if (bool_decide (known = None)) missing_reference;
      _ ← update (fun s => set_withdrawals (withdrawals s ++ [row]) s);
      mret (created row)
  end.

Inductive RetryEdge := edge_sign | edge_broadcast | edge_expiry.

#[export] Instance RetryEdge_eq_dec : EqDecision RetryEdge.
Proof. solve_decision. Defined.

(** What a transition writes beside the status. *)
Record WithdrawalPatch := mkWithdrawalPatch {
  wp_signed : option (Signed * string * string);  (** the signed bytes, the nonce account, the nonce *)
  wp_networkFee : option Z;
  wp_settledAt : option Z;
  wp_failureReason : option string;
  wp_increment : option RetryEdge
}.

Definition no_change : WithdrawalPatch := mkWithdrawalPatch None None None None None.
Definition increment (edge : RetryEdge) : WithdrawalPatch :=
  mkWithdrawalPatch None None None None (Some edge).

Definition or_keep {A} (new old : option A) : option A := match new with Some a => Some a | None => old end.

Definition patch_withdrawal (to : Withdrawal.WithdrawalStatus) (p : WithdrawalPatch) (w : WithdrawalRecord)
  : WithdrawalRecord :=
  let bump edge n := if bool_decide (wp_increment p = Some edge) then n + 1 else n in
  mkWithdrawal (wd_id w) (wd_user w) (wd_chain w) (wd_asset w) (wd_amount w)
    (or_keep (wp_networkFee p) (wd_networkFee w)) (wd_destination w) (wd_purpose w) to
    (wd_idempotencyKey w) (bump edge_sign (wd_signAttempts w)) (bump edge_broadcast (wd_broadcastAttempts w))
    (bump edge_expiry (wd_expiryAttempts w))
    (or_keep (fst ∘ fst <$> wp_signed p) (wd_signedTransaction w)) (wd_txSignature w)
    (or_keep (snd ∘ fst <$> wp_signed p) (wd_nonceAccountId w)) (or_keep (snd <$> wp_signed p) (wd_nonceValue w))
    (or_keep (wp_failureReason p) (wd_failureReason w)) (wd_createdAt w) (or_keep (wp_settledAt p) (wd_settledAt w)).

(** [UPDATE withdrawals SET .. WHERE id = .. AND test], and how many rows matched. *)
Definition update_withdrawal (id : string) (test : WithdrawalRecord -> bool)
  (f : WithdrawalRecord -> WithdrawalRecord) : ctx nat :=
  let hit w := bool_decide (wd_id w = id) && test w in
  ws ← query withdrawals;
  let matched := filter (fun w => hit w = true) ws in
  _ ← refuse_if (negb (forallb (fun w => withdrawal_row_ok (f w)) matched)) check_violation;
  _ ← update (set_withdrawals (map (fun w => if hit w then f w else w) ws));
  mret (length matched).

(** [transition]: guarded on the status it leaves; nothing when another actor moved first. *)
Definition transition (id : string) (from to : Withdrawal.WithdrawalStatus) (p : WithdrawalPatch)
  : ctx (option WithdrawalRecord) :=
  _ ← refuse_if (negb (Withdrawal.canTransition from to)) (GenericError "illegal withdrawal transition");
  ns ← query nonces;
  _ ← refuse_if (match wp_signed p with
                 | Some (_, account, _) => negb (existsb (fun n => bool_decide (na_id n = account)) ns)
                 | None => false
                 end) missing_reference;
  count ← update_withdrawal id (fun w => bool_decide (wd_status w = from)) (patch_withdrawal to p);
  if (count =? 0)%nat then mret None else findById id.

Definition on_chain (status : Withdrawal.WithdrawalStatus) (chain : string) (s : Custody) : list WithdrawalRecord :=
  filter (fun w => wd_status w = status /\ wd_chain w = chain) (withdrawals s).

Definition listByStatus (status : Withdrawal.WithdrawalStatus) (limit : nat) (chain : string)
  : ctx (list WithdrawalRecord) := query (fun s => take limit (on_chain status chain s)).

(** [claimNext]: the oldest row in the status, moved. *)
Definition claimNext (status to : Withdrawal.WithdrawalStatus) (chain : string) : ctx (option WithdrawalRecord) :=
  next ← query (fun s => head (on_chain status chain s));
  match next with
  | None => mret None
  | Some w => transition (wd_id w) status to no_change
  end.

(** Newest first; a rejected withdrawal does not count. *)
Definition listRecentForUser (userId : string) (since : Z) : ctx (list WithdrawalRecord) :=
  query (fun s => reverse (filter (fun w => wd_user w = userId /\ since <= wd_createdAt w /\
                                            wd_status w <> Withdrawal.REJECTED) (withdrawals s))).

(** [GROUP BY destination] with the latest use of each. *)
Definition listPriorDestinations (userId : string) (since : Z) : ctx (list PriorDestination) :=
  query (fun s =>
    let used := filter (fun w => wd_user w = userId /\ since <= wd_createdAt w /\
      wd_status w ∈ [Withdrawal.SETTLED; Withdrawal.CONFIRMED; Withdrawal.BROADCAST]) (withdrawals s) in
    map (fun e => mkPrior e.1 e.2)
      (fold_left (fun m w => jset (wd_destination w)
                               (Z.max (wd_createdAt w) (default (wd_createdAt w) (jget (wd_destination w) m))) m)
         used [])).

(** [db.withdrawal.update({ where: { id }, data: { txSignature } })] *)
Definition recordSignature (id signature : string) : ctx unit :=
  count ← update_withdrawal id (fun _ => true) (fun w =>
    mkWithdrawal (wd_id w) (wd_user w) (wd_chain w) (wd_asset w) (wd_amount w) (wd_networkFee w)
      (wd_destination w) (wd_purpose w) (wd_status w) (wd_idempotencyKey w) (wd_signAttempts w)
      (wd_broadcastAttempts w) (wd_expiryAttempts w) (wd_signedTransaction w) (Some signature)
      (wd_nonceAccountId w) (wd_nonceValue w) (wd_failureReason w) (wd_createdAt w) (wd_settledAt w));
  refuse_if (count =? 0)%nat (NotFoundError "withdrawal").

(** ** [nonce.repository.ts] *)

(** An updated row becomes the last. *)
Definition update_nonces (hit : NonceAccountRecord -> bool) (f : NonceAccountRecord -> NonceAccountRecord)
  : ctx unit :=
  update (fun s => set_nonces (filter (fun n => hit n = false) (nonces s) ++
                               map f (filter (fun n => hit n = true) (nonces s))) s).

Definition lease (chain withdrawalId : string) : ctx (option NonceAccountRecord) :=
  ns ← query nonces;
  match head (filter (fun n => na_leasedBy n = Some withdrawalId) ns) with
  | Some held => mret (Some held)
  | None =>
      match head (filter (fun n => na_chain n = chain /\ na_status n = available) ns) with
      | None => mret None
      | Some next =>
          let taken := mkNonce (na_id next) (na_chain next) (na_address next) leased (Some withdrawalId) in
          _ ← update_nonces (fun n => bool_decide (na_id n = na_id next) && bool_decide (na_status n = available))
                (fun _ => taken);
          mret (Some taken)
      end
  end.

Definition release (withdrawalId : string) : ctx unit :=
  update_nonces (fun n => bool_decide (na_leasedBy n = Some withdrawalId))
    (fun n => mkNonce (na_id n) (na_chain n) (na_address n) available None).

Definition nonceById (id : string) : ctx (option NonceAccountRecord) :=
  query (fun s => head (filter (fun n => na_id n = id) (nonces s))).

Definition countAvailable (chain : string) : ctx Z :=
  query (fun s => Z.of_nat (length (filter (fun n => na_chain n = chain /\ na_status n = available) (nonces s)))).

(** ** [signing-request.repository.ts] *)

Definition findByRequestId (requestId : string) : ctx (option SigningRequest) :=
  query (fun s => head (filter (fun r => sr_requestId r = requestId) (signings s))).

Definition open (withdrawalId requestId keyRef : string) : ctx unit :=
  found ← findByRequestId requestId;
  _ ← refuse_if (bool_decide (is_Some found)) unique_violation;
  update (fun s => set_signings (signings s ++ [mkSigning withdrawalId requestId keyRef requested]) s).

Definition complete (hit : SigningRequest -> bool) (outcome : SigningOutcome) : ctx unit :=
  update (fun s => set_signings (map (fun r => if hit r
    then mkSigning (sr_withdrawalId r) (sr_requestId r) (sr_keyRef r) outcome else r) (signings s)) s).

Definition succeed (requestId : string) : ctx unit :=
  complete (fun r => bool_decide (sr_requestId r = requestId)) succeeded.

Definition failForWithdrawal (withdrawalId : string) : ctx unit :=
  complete (fun r => bool_decide (sr_withdrawalId r = withdrawalId) && bool_decide (sr_outcome r = requested)) failed.

(** ** [risk-decision.repository.ts] *)

Definition record (row : WithdrawalDecisionRow) : ctx unit :=
  ds ← query decided;
  _ ← refuse_if (existsb (fun d => bool_decide (wr_withdrawalId d = wr_withdrawalId row)) ds) unique_violation;
  update (fun s => set_decided (decided s ++ [row]) s).
