(* ===== verification/Withdrawals.v ===== *)
(** * The withdrawal service

    [apps/api/src/services/withdrawal.service.ts]. A service call is several
    transactions, in the monad [job], where an exception keeps what was committed
    before it and where, after each commit, the other actors may have changed the
    tables: [World]. The address validator, the price source, the house's addresses
    and the policy are parameters. Logging is not modelled, nor the creation of empty
    ledger accounts. *)

From S2P Require Import Prelude Risk Assets Ledger Postings States Store Custody.
From Stdlib Require Import ZArith Lia.
From stdpp Require Import base list strings gmap.

Open Scope string_scope.
Open Scope list_scope.
Open Scope Z_scope.

(** ** Jobs *)

(** What the others make of the tables after a commit. *)
Class Others (W : Type) := others : W -> Custody -> Custody * W.

Section Jobs.
Context {W : Type} `{!Others W}.

Record Proc := mkProc { db : Custody; world : W }.

Definition job (A : Type) : Type := Proc -> result A * Proc.

#[export] Instance job_ret : MRet job := fun A a s => (Ok a, s).
#[export] Instance job_bind : MBind job := fun A B k m s =>
  match m s with
  | (Ok a, s') => k a s'
  | (Throw e, s') => (Throw e, s')
  end.

Definition fails {A} (e : error) : job A := fun s => (Throw e, s).
Definition of_result {A} (r : result A) : job A := fun s => (r, s).

(** [try { m } catch (error) { handler }] *)
Definition catch {A} (m : job A) (handler : error -> job A) : job A := fun s =>
  match m s with
  | (Ok a, s') => (Ok a, s')
  | (Throw e, s') => handler e s'
  end.

Definition yield : job unit := fun s =>
  let (d, w) := others (world s) (db s) in (Ok tt, mkProc d w).

(** One committed transaction, or one statement outside any, and then the others. *)
Definition commit {A} (m : ctx A) : job A := fun s =>
  match atomically m (db s) with
  | Ok (a, d) => (Ok a, (yield (mkProc d (world s))).2)
  | Throw e => (Throw e, (yield s).2)
  end.

(** A call to the outside, during which the others act too. *)
Definition call {A} (f : W -> A * W) : job A := fun s =>
  let (a, w) := f (world s) in (Ok a, (yield (mkProc (db s) w)).2).

Definition call_result {A} (f : W -> result A * W) : job A := answer ← call f; of_result answer.

Definition get_world : job W := fun s => (Ok (world s), s).
End Jobs.

Arguments Proc : clear implicits.
Arguments mkProc {W} db world.
Arguments job : clear implicits.

(** ** Locks *)

(** [getUserBalance(..).available]: an unqualified asset throws. *)
Definition custody_available (userId asset : string) : ctx Z :=
  _ ← lift_ctx (parseLedgerAssetKey asset);
  query (fun s => credit_balance (userCustodyAvailable userId asset) (books s)).

Definition trading_available (userId asset : string) : ctx Z :=
  _ ← lift_ctx (parseLedgerAssetKey asset);
  query (fun s => credit_balance (userTradingAvailable userId asset) (books s)).

Definition lock_of (w : WithdrawalRecord) : WithdrawalLockPosting :=
  mkLock (wd_id w) (wd_user w) (wd_asset w) (wd_amount w).

Definition from_trading (w : WithdrawalRecord) : bool := bool_decide (wd_purpose w = deallocation).

(** The transaction of [lockFunds]: the balance, the lock and the transition are one. *)
Definition lock_tx (w : WithdrawalRecord) : ctx WithdrawalRecord :=
  spendable ← (if from_trading w then trading_available (wd_user w) (wd_asset w)
               else custody_available (wd_user w) (wd_asset w));
  _ ← refuse_if (spendable <? wd_amount w) InsufficientFundsError;
  _ ← on_books (postLedger ((if from_trading w then postTradingLock else postWithdrawalLock) (lock_of w)));
  locked ← transition (wd_id w) Withdrawal.APPROVED Withdrawal.FUNDS_LOCKED no_change;
  match locked with
  | None => lift_ctx (Throw (GenericError "withdrawal was not APPROVED when locking"))
  | Some locked => mret locked
  end.

(** The transaction of [releaseLock]. *)
Definition release_tx (w : WithdrawalRecord) : ctx unit :=
  on_books (postLedger ((if from_trading w then postTradingRelease else postWithdrawalRelease) (lock_of w))).

Section Service.
Context {W : Type} `{!Others W}.

(** What the chain's adapter says of a destination. *)
Inductive Safety := safe | unsafe_not_signable | unsafe.

Context (isSafeDestination : string -> Safety) (policy : RiskPolicy) (chain : string).
(** The price source, when configured; a failure to price is an unknown value. *)
Context (valuation : option (string -> Z -> Z -> result (option Z))) (platformAddresses : list string).
(** The fresh id of the withdrawal and the clock. *)
Context (freshId : string) (at_ : Z).

Definition lockFunds (w : WithdrawalRecord) : job W WithdrawalRecord := commit (lock_tx w).
Definition releaseLock (w : WithdrawalRecord) : job W unit := commit (release_tx w).

(** [lockFunds] or the rejection of what could not be locked. *)
Definition lock_or_reject (w : WithdrawalRecord) : job W WithdrawalRecord :=
  catch (lockFunds w) (fun e =>
    _ ← commit (transition (wd_id w) Withdrawal.APPROVED Withdrawal.REJECTED no_change);
    fails e).

Definition DAY_MS : Z := 24 * 60 * 60 * 1000.

Definition history_entry (w : WithdrawalRecord) : WithdrawalHistoryEntry :=
  Risk.mkEntry (wd_amount w) (wd_asset w) (wd_createdAt w).

Definition destination_check (destination : string) (owned : bool) : DestinationCheck :=
  match isSafeDestination destination with
  | safe => check_ok (owned || bool_decide (destination ∈ platformAddresses))
  | unsafe_not_signable => check_not_signable
  | unsafe => check_invalid
  end.

Definition value_of (asset : string) (amount : Z) : Optional :=
  match valuation with
  | None => Absent
  | Some price => match price asset amount at_ with Ok (Some v) => Value v | _ => Null end
  end.

Record RequestWithdrawalInput := mkRequest {
  rw_user : string; rw_asset : string; rw_amount : Z; rw_destination : string; rw_idempotencyKey : string
}.

Definition buildRiskInput (input : RequestWithdrawalInput) : job W RiskInput :=
  found ← commit (query (fun s => users (books s) !! rw_user input));
  status ← match found with Some st => mret st | None => fails (NotFoundError "user") end;
  recent ← commit (listRecentForUser (rw_user input) (at_ - DAY_MS));
  priors ← commit (listPriorDestinations (rw_user input)
                     (at_ - knownDestinationWindowDays policy * DAY_MS));
  owned ← commit (findByAddress chain (rw_destination input));
  mret (mkRiskInput (rw_user input) status (rw_asset input) (rw_amount input) (rw_destination input)
          (destination_check (rw_destination input) (bool_decide (is_Some owned))) priors (map history_entry recent)
          (value_of (rw_asset input) (rw_amount input)) at_).

(** [request] *)
Definition request (input : RequestWithdrawalInput) : job W WithdrawalRecord :=
  result ← commit (create freshId at_
    (mkCreate (rw_user input) chain (rw_asset input) (rw_amount input) (rw_destination input) external
       (rw_idempotencyKey input)));
  match result with
  | existing w => mret w
  | created w =>
      evaluating ← commit (transition (wd_id w) Withdrawal.REQUESTED Withdrawal.RISK_EVALUATING no_change);
      match evaluating with
      | None => mret w
      | Some _ =>
          riskInput ← buildRiskInput input;
          let decision := evaluate riskInput policy in
          _ ← commit (record (mkWithdrawalDecision (wd_id w) decision));
          match d_verdict decision with
          | deny =>
              _ ← commit (transition (wd_id w) Withdrawal.RISK_EVALUATING Withdrawal.REJECTED no_change);
              fails (PolicyDeniedError (toClientMessage (d_codes decision)))
          | review =>
              queued ← commit (transition (wd_id w) Withdrawal.RISK_EVALUATING Withdrawal.MANUAL_REVIEW no_change);
              mret (default w queued)
          | approve =>
              approved ← commit (transition (wd_id w) Withdrawal.RISK_EVALUATING Withdrawal.APPROVED no_change);
              match approved with
              | None => mret w
              | Some approved => lock_or_reject approved
              end
          end
      end
  end.

Record RequestInternalInput := mkInternal {
  ri_user : string; ri_asset : string; ri_amount : Z; ri_idempotencyKey : string;
  ri_purpose : WithdrawalPurpose; ri_destination : string
}.

(** [requestInternal] *)
Definition requestInternal (input : RequestInternalInput) : job W WithdrawalRecord :=
  result ← commit (create freshId at_
    (mkCreate (ri_user input) chain (ri_asset input) (ri_amount input) (ri_destination input)
       (ri_purpose input) (ri_idempotencyKey input)));
  match result with
  | existing w => mret w
  | created w =>
      evaluating ← commit (transition (wd_id w) Withdrawal.REQUESTED Withdrawal.RISK_EVALUATING no_change);
      match evaluating with
      | None => mret w
      | Some _ =>
          approved ← commit (transition (wd_id w) Withdrawal.RISK_EVALUATING Withdrawal.APPROVED no_change);
          match approved with
          | None => mret w
          | Some approved => lock_or_reject approved
          end
      end
  end.

(** [get] *)
Definition get (userId withdrawalId : string) : job W WithdrawalRecord :=
  found ← commit (findById withdrawalId);
  match found with
  | Some w => if bool_decide (wd_user w = userId) && bool_decide (wd_chain w = chain) then mret w
              else fails AuthorizationDeniedError
  | None => fails AuthorizationDeniedError
  end.

(** [listForReview] *)
Definition listForReview (limit : nat) : job W (list WithdrawalRecord) :=
  commit (listByStatus Withdrawal.MANUAL_REVIEW limit chain).

(** [approve] *)
Definition approve_withdrawal (withdrawalId : string) : job W WithdrawalRecord :=
  approved ← commit (transition withdrawalId Withdrawal.MANUAL_REVIEW Withdrawal.APPROVED no_change);
  match approved with
  | None => fails AuthorizationDeniedError
  | Some approved => lock_or_reject approved
  end.

(** [reject] *)
Definition reject_withdrawal (withdrawalId : string) : job W WithdrawalRecord :=
  rejected ← commit (transition withdrawalId Withdrawal.MANUAL_REVIEW Withdrawal.REJECTED no_change);
  match rejected with
  | None => fails AuthorizationDeniedError
  | Some rejected => mret rejected
  end.
End Service.
