(* ===== verification/Broadcaster.v ===== *)
(** * Building and broadcasting withdrawals

    [packages/solana/src/withdrawal-tx.ts], with the token transfer of [token.ts] and the
    nonce test of [nonce.ts]: the transactions a withdrawal is paid by, the attachment
    of signatures, and what the answers of the chain's RPC mean. The client of the RPC
    and [@solana/web3.js] are parameters; a transaction is its [Message], not its bytes. *)

From S2P Require Import Prelude Decimal Store Custody.
From Stdlib Require Import ZArith Lia Ascii.
From stdpp Require Import base list strings.

Open Scope string_scope.
Open Scope list_scope.
Open Scope Z_scope.

(** ** Transactions *)

Record UnsignedWithdrawal := mkUnsigned { message : Message; signers : list string }.

(** [[...new Set(xs)]] *)
Definition distinct (xs : list string) : list string :=
  fold_left (fun seen x => if bool_decide (x ∈ seen) then seen else seen ++ [x]) xs [].

Definition MAX_SAFE_INTEGER : Z := 9007199254740991.

Definition message_signers (m : Message) : list string :=
  match m with
  | native_transfer from feePayer _ _ _ authority _ => distinct [feePayer; from; authority]
  | token_transfer owner feePayer _ _ _ _ _ authority _ => distinct [feePayer; owner; authority]
  end.

Section Build.
(** [new PublicKey(address)] returns. *)
Context (isPublicKey : string -> bool).

Definition toPublicKey (address : string) : result string :=
  if isPublicKey address then Ok address else Throw (ChainError "Invalid Solana address").

(** [buildWithdrawalTransaction], with the fee payer the caller always names. *)
Definition buildWithdrawalTransaction (from feePayer to : string) (lamports : Z)
  (nonceAccount nonceAuthority nonce : string) : result UnsignedWithdrawal :=
  _ ← throw_if (lamports <=? 0) (ChainError "Withdrawal amount must be positive");
  _ ← throw_if (lamports >? MAX_SAFE_INTEGER) (ChainError "Withdrawal amount exceeds the SDK precision ceiling");
  _ ← for_each (fun a => _ ← toPublicKey a; Ok tt) [feePayer; nonceAccount; nonceAuthority; from; to];
  Ok (mkUnsigned (native_transfer from feePayer to lamports nonceAccount nonceAuthority nonce)
        (distinct [feePayer; from; nonceAuthority])).

(** [buildTokenTransferTransaction]; the token accounts derive from their owners and the mint. *)
Definition buildTokenTransferTransaction (owner feePayer destinationOwner mint : string) (amount : Z)
  (nonceAccount nonceAuthority nonce : string) (createDestinationAccount : bool) : result UnsignedWithdrawal :=
  _ ← throw_if (amount <=? 0) (ChainError "Token transfer amount must be positive");
  _ ← throw_if (amount >? MAX_U64) (ChainError "Token transfer amount exceeds u64");
  _ ← for_each (fun a => _ ← toPublicKey a; Ok tt)
        [destinationOwner; mint; feePayer; nonceAccount; nonceAuthority; owner];
  Ok (mkUnsigned (token_transfer owner feePayer destinationOwner mint amount createDestinationAccount
                    nonceAccount nonceAuthority nonce)
        (distinct [feePayer; owner; nonceAuthority])).
End Build.

(** [attachSignatures]: every signature is of the right length and of a signer of the message. *)
Definition attachSignatures (unsigned : UnsignedWithdrawal) (signatures : list (string * string)) : result Signed :=
  _ ← for_each (fun s =>
         _ ← throw_if (negb (String.length s.2 =? 64)%nat) (ChainError "Signature must be 64 bytes");
         throw_if (negb (bool_decide (s.1 ∈ message_signers (message unsigned))))
           (ChainError "not a signer of this transaction")) signatures;
  Ok (mkSigned (message unsigned) signatures).

(** ** Texts *)

Definition lower (a : ascii) : ascii :=
  if (65 <=? Z.of_nat (nat_of_ascii a)) && (Z.of_nat (nat_of_ascii a) <=? 90)
  then ascii_of_nat (nat_of_ascii a + 32) else a.

Fixpoint lowercase (s : string) : string :=
  match s with
  | EmptyString => EmptyString
  | String a s => String (lower a) (lowercase s)
  end.

(** [/pattern/.test(s)] for a pattern of ordinary characters. *)
Fixpoint occurs (pattern s : string) : bool :=
  String.prefix pattern s || match s with EmptyString => false | String _ s => occurs pattern s end.

(** [/pattern/i.test(message)] for a pattern without capital letters. *)
Definition mentions (pattern message : string) : bool := occurs pattern (lowercase message).

(** ** [rpc.ts]: calls to the chain *)

Definition isRetryable (e : error) : bool :=
  let m := error_message e in
  existsb (fun p => occurs p m) ["429"; "ETIMEDOUT"; "ECONNRESET"; "ENOTFOUND"; "502"; "503"; "504"] ||
  existsb (fun p => mentions p m)
    ["timeout"; "fetch failed"; "socket hang up"; "too many requests"; "service unavailable"].

Section Calls.
Context {W : Type}.

(** [rpc.call]: retried while the error is transient; what is left of it is a [ChainError]
    that names the operation only. *)
Fixpoint rpc_call {A} (operation : string) (maxRetries : nat) (fn : W -> result A * W) (w : W)
  : result A * W :=
  match fn w with
  | (Ok a, w) => (Ok a, w)
  | (Throw e, w) =>
      match maxRetries with
      | S maxRetries =>
          if isRetryable e then rpc_call operation maxRetries fn w
          else (Throw (ChainError ("Solana RPC call failed: " +:+ operation)), w)
      | O => (Throw (ChainError ("Solana RPC call failed: " +:+ operation)), w)
      end
  end.
End Calls.

(** ** Broadcasting *)

Inductive BroadcastOutcome :=
| submitted (signature : string)
| broadcast_rejected (reason : string)
| nonce_advanced.

(** A stable category rather than the driver's message. *)
Definition classify (message : string) : string :=
  if mentions "insufficient funds" message || mentions "insufficientfunds" message
  then "insufficient_chain_balance"
  else if mentions "blockhash not found" message || mentions "blockhashnotfound" message
  then "blockhash_not_found"
  else if mentions "429" message || mentions "rate" message then "rate_limited"
  else if mentions "timeout" message || mentions "etimedout" message then "timeout"
  else "rpc_rejected".

(** The characters of base 58. *)
Definition base58 (a : ascii) : bool :=
  let n := Z.of_nat (nat_of_ascii a) in
  ((49 <=? n) && (n <=? 57)) || ((65 <=? n) && (n <=? 90) && negb (n =? 73) && negb (n =? 79)) ||
  ((97 <=? n) && (n <=? 122) && negb (n =? 108)).

(** How many of the characters at the front, at most [limit], are of base 58. *)
Fixpoint run_length (limit : nat) (s : string) : nat :=
  match limit, s with
  | S limit, String a s => if base58 a then S (run_length limit s) else 0%nat
  | _, _ => 0%nat
  end.

(** The first run of eighty to ninety such characters. *)
Fixpoint extractSignature (message : string) : option string :=
  let n := run_length 90 message in
  if (80 <=? n)%nat then Some (String.substring 0 n message)
  else match message with EmptyString => None | String _ rest => extractSignature rest end.

(** The outcome of [broadcast], from what the call to the RPC returned or threw. *)
Definition read_broadcast (answer : result string) : BroadcastOutcome :=
  match answer with
  | Ok signature => submitted signature
  | Throw TransactionExpiredNonceInvalidError => nonce_advanced
  | Throw e =>
      let message := error_message e in
      if mentions "already been processed" message || mentions "alreadyprocessed" message
      then submitted (default "" (extractSignature message))
      else if mentions "nonce" message && (mentions "invalid" message || mentions "advanced" message)
      then nonce_advanced
      else broadcast_rejected (classify message)
  end.

Inductive FinalizedStatus := final | pending | status_failed.

(** From the status the RPC reports: whether the transaction failed, and whether it is finalized. *)
Definition read_status (answer : option (bool * bool)) : FinalizedStatus :=
  match answer with
  | None => pending
  | Some (err, finalized) => if err then status_failed else if finalized then final else pending
  end.

(** [state.nonce !== builtOn], or the account is gone. *)
Definition read_advanced (nonce : option string) (builtOn : string) : bool :=
  match nonce with None => true | Some n => negb (bool_decide (n = builtOn)) end.

(** The methods of the RPC's connection, as the code uses them. *)
Class Rpc (W : Type) := {
  (** Nothing if there is no such account; an account that does not parse has no nonce. *)
  getNonceAccount : string -> W -> result (option (option string)) * W;
  getTokenAccount : string -> string -> W -> result bool * W;
  sendRawTransaction : Signed -> W -> result string * W;
  getSignatureStatuses : string -> W -> result (option (bool * bool)) * W;
  getTransactionFee : string -> W -> result (option Z) * W
}.

Definition map_answer {A B W} (f : A -> B) (r : result A * W) : result B * W := (f <$> r.1, r.2).

Section Client.
Context {W : Type} `{!Rpc W} (maxRetries : nat).

Definition broadcast (signed : Signed) (w : W) : BroadcastOutcome * W :=
  let (answer, w) := rpc_call "sendRawTransaction" maxRetries (sendRawTransaction signed) w in
  (read_broadcast answer, w).

Definition getFinalizedStatus (signature : string) (w : W) : result FinalizedStatus * W :=
  map_answer read_status (rpc_call "getSignatureStatuses(withdrawal)" maxRetries (getSignatureStatuses signature) w).

Definition getPaidFee (signature : string) (w : W) : result (option Z) * W :=
  rpc_call "getTransaction(fee)" maxRetries (getTransactionFee signature) w.

(** [readNonce]: the nonce of an account, or nothing if there is none; an account of another
    kind is an error. *)
Definition parse_nonce (account : option (option string)) : result (option string) :=
  match account with
  | None => Ok None
  | Some (Some nonce) => Ok (Some nonce)
  | Some None => Throw (ChainError "Account is not a durable nonce account")
  end.

Definition readNonce (address : string) (w : W) : result (option string) * W :=
  let (answer, w) := rpc_call "getAccountInfo(nonce)" maxRetries (getNonceAccount address) w in
  (answer ≫= parse_nonce, w).

Definition hasAdvanced (address builtOn : string) (w : W) : result bool * W :=
  map_answer (fun nonce => read_advanced nonce builtOn) (readNonce address w).

(** [accountExists] of the token account of an owner and a mint. *)
Definition accountExists (owner mint : string) (w : W) : result bool * W :=
  rpc_call "getAccountInfo(exists)" maxRetries (getTokenAccount owner mint) w.
End Client.

(** ** Properties *)

(** What a call throws hides what went wrong. *)
Lemma rpc_call_throws {W A} operation n (fn : W -> result A * W) w e :
  (rpc_call operation n fn w).1 = Throw e -> e = ChainError ("Solana RPC call failed: " +:+ operation).
Proof.
  revert w. induction n as [|n IH]; intros w; simpl; destruct (fn w) as [[a|e'] w']; simpl; try congruence.
  destruct (isRetryable e'); [apply IH|simpl; congruence].
Qed.

(** A broadcast is never known to have expired or to be a repeat. Whatever the chain answers to
    the signed bytes, the outcome is either submitted or the one rejection [rpc_rejected]:
    the call to the RPC replaces every error by its own before the broadcaster looks for an
    advanced nonce, for bytes already processed or for a cause. *)
Theorem broadcast_classifies_nothing {W} `{!Rpc W} maxRetries signed (w : W) :
  (exists signature, (broadcast maxRetries signed w).1 = submitted signature /\
     (rpc_call "sendRawTransaction" maxRetries (sendRawTransaction signed) w).1 = Ok signature) \/
  (broadcast maxRetries signed w).1 = broadcast_rejected "rpc_rejected".
Proof.
  unfold broadcast. pose proof (rpc_call_throws "sendRawTransaction" maxRetries (sendRawTransaction signed) w) as H.
  destruct (rpc_call _ _ _ _) as [[signature|e] w']; simpl in *; [left; eauto|right]. by rewrite (H e eq_refl).
Qed.
