(* ===== verification/WithdrawalWorkers.v ===== *)
(** * The withdrawal workers

    [apps/api/src/workers/withdrawal-workers.ts]: the signing, broadcast and confirmation
    cycles that carry a withdrawal from its locked funds to settlement, and the retry
    edges. The chain, the signer and the key directory are a [Chain], which answers from
    a state of its own. Authorization proofs, logging, metrics and the dead-letter queue
    are not modelled. *)

From S2P Require Import Prelude Assets Ledger Postings States Store Custody Withdrawals Broadcaster.
From Stdlib Require Import ZArith Lia.
From stdpp Require Import base list strings gmap.

Open Scope string_scope.
Open Scope list_scope.
Open Scope Z_scope.

(** ** The outside *)

(** The chain's RPC, the directory of users' addresses with their keys, and the signer. *)
Class Chain (W : Type) := {
  chain_others :: Others W;
  chain_rpc :: Rpc W;
  resolve : string -> W -> result (string * string) * W;
  sign : string -> string -> Message -> W -> result string * W
}.

Record RetryBudgets := mkBudgets { b_sign : Z; b_broadcast : Z; b_expiry : Z }.

Section Workers.
Context {W : Type} `{!Chain W}.
Context (isPublicKey : string -> bool) (maxRetries : nat) (chain treasuryAddress keyRefId : string) (segregated : bool).
(** The clearing address and its key, when trading is on. *)
Context (clearing : option (string * string)) (budgets : RetryBudgets) (batchSize : nat).
Context (assets : AssetRegistry) (at_ : Z).

(** ** Giving up and retrying *)

(** [giveUp]: the lock is released before the terminal transition. *)
Definition giveUp (w : WithdrawalRecord) (from : Withdrawal.WithdrawalStatus) (reason : string) : job W unit :=
  _ ← releaseLock w;
  _ ← commit (release (wd_id w));
  _ ← commit (transition (wd_id w) from Withdrawal.FAILED (mkWithdrawalPatch None None None (Some reason) None));
  mret tt.

Definition attempts (edge : RetryEdge) (w : WithdrawalRecord) : Z :=
  match edge with
  | edge_sign => wd_signAttempts w
  | edge_broadcast => wd_broadcastAttempts w
  | edge_expiry => wd_expiryAttempts w
  end.

Definition budget (edge : RetryEdge) : Z :=
  match edge with
  | edge_sign => b_sign budgets
  | edge_broadcast => b_broadcast budgets
  | edge_expiry => b_expiry budgets
  end.

Definition edge_status (edge : RetryEdge) : Withdrawal.WithdrawalStatus :=
  match edge with
  | edge_sign => Withdrawal.SIGN_FAILED
  | edge_broadcast => Withdrawal.BROADCAST_FAILED
  | edge_expiry => Withdrawal.EXPIRED
  end.

Definition exhausted (edge : RetryEdge) : string :=
  match edge with
  | edge_sign => "SIGN_FAILED_budget_exhausted"
  | edge_broadcast => "BROADCAST_FAILED_budget_exhausted"
  | edge_expiry => "EXPIRED_budget_exhausted"
  end.

Definition retryOne (edge : RetryEdge) (w : WithdrawalRecord) : job W unit :=
  if attempts edge w >=? budget edge then giveUp w (edge_status edge) (exhausted edge) else
  _ ← (if bool_decide (edge = edge_expiry) then commit (release (wd_id w)) else mret tt);
  _ ← commit (transition (wd_id w) (edge_status edge) Withdrawal.FUNDS_LOCKED no_change);
  mret tt.

Fixpoint for_all {A} (xs : list A) (f : A -> job W unit) : job W unit :=
  match xs with
  | [] => mret tt
  | x :: xs => _ ← f x; for_all xs f
  end.

Definition processRetries : job W unit :=
  for_all [edge_sign; edge_broadcast; edge_expiry] (fun edge =>
    stuck ← commit (listByStatus (edge_status edge) batchSize chain);
    for_all stuck (retryOne edge)).

(** ** Signing *)

(** [buildTokenWithdrawal] *)
Definition buildTokenWithdrawal (w : WithdrawalRecord) (source nonceAccount nonce : string)
  : job W UnsignedWithdrawal :=
  key ← of_result (parseLedgerAssetKey (wd_asset w));
  _ ← of_result (for_each (fun a => _ ← toPublicKey isPublicKey a; Ok tt) [source; key.2; wd_destination w]);
  exists_ ← call_result (accountExists maxRetries (wd_destination w) key.2);
  of_result (buildTokenTransferTransaction isPublicKey source treasuryAddress (wd_destination w) key.2
               (wd_amount w) nonceAccount treasuryAddress nonce (negb exists_)).

(** Where the money leaves from, and the key that controls it. *)
Definition source_of (w : WithdrawalRecord) : job W (string * string) :=
  if bool_decide (wd_purpose w = deallocation)
  then match clearing with
       | None => fails (GenericError "a deallocation needs a clearing address, and none is configured")
       | Some c => mret c
       end
  else if segregated then call_result (resolve (wd_user w)) else mret (treasuryAddress, keyRefId).

(** A round of signing: whose signature, by which key, under which request. *)
Record Round := mkRound { rd_address : string; rd_keyRef : string; rd_requestId : string }.

Definition request_id (w : WithdrawalRecord) (nonce : string) : string :=
  "withdrawal:" +:+ wd_id w +:+ ":" +:+ nonce.

Definition rounds (unsigned : UnsignedWithdrawal) (source : string * string) (requestId : string) : list Round :=
  map (fun address =>
    if bool_decide (address = source.1) && negb (bool_decide (source.1 = treasuryAddress))
    then mkRound address source.2 (requestId +:+ ":source")
    else mkRound address keyRefId requestId) (signers unsigned).

Fixpoint sign_rounds (w : WithdrawalRecord) (m : Message) (rs : list Round) : job W (list (string * string)) :=
  match rs with
  | [] => mret []
  | r :: rs =>
      alreadyOpen ← commit (findByRequestId (rd_requestId r));
      _ ← match alreadyOpen with
          | Some _ => mret tt
          | None => commit (open (wd_id w) (rd_requestId r) (rd_keyRef r))
          end;
      signature ← call_result (sign (rd_requestId r) (rd_keyRef r) m);
      _ ← of_result (throw_if (negb (String.length signature =? 64)%nat) (GenericError "expected 64 bytes"));
      rest ← sign_rounds w m rs;
      mret ((rd_address r, signature) :: rest)
  end.

(** The body of the [try] of [signOne]. *)
Definition sign_claimed (w : WithdrawalRecord) : job W unit :=
  lease ← commit (lease chain (wd_id w));
  match lease with
  | None =>
      _ ← commit (transition (wd_id w) Withdrawal.SIGNING Withdrawal.SIGN_FAILED no_change); mret tt
  | Some account =>
      state ← call_result (readNonce maxRetries (na_address account));
      nonce ← match state with
              | None => fails (GenericError "nonce account has no on-chain state")
              | Some nonce => mret nonce
              end;
      source ← source_of w;
      unsigned ← (if isToken assets (wd_asset w)
                  then buildTokenWithdrawal w source.1 (na_address account) nonce
                  else of_result (buildWithdrawalTransaction isPublicKey source.1 treasuryAddress
                         (wd_destination w) (wd_amount w) (na_address account) treasuryAddress nonce));
      let rs := rounds unsigned source (request_id w nonce) in
      signatures ← sign_rounds w (message unsigned) rs;
      signed ← of_result (attachSignatures unsigned signatures);
      _ ← for_all rs (fun r => commit (succeed (rd_requestId r)));
      _ ← commit (transition (wd_id w) Withdrawal.SIGNING Withdrawal.SIGNED
                    (mkWithdrawalPatch (Some (signed, na_id account, nonce)) None None None None));
      mret tt
  end.

(** [signOne]: whether there was anything to sign. *)
Definition signOne : job W bool :=
  claimed ← commit (claimNext Withdrawal.FUNDS_LOCKED Withdrawal.SIGNING chain);
  match claimed with
  | None => mret false
  | Some w =>
      _ ← catch (sign_claimed w) (fun _ =>
            _ ← commit (failForWithdrawal (wd_id w));
            _ ← commit (transition (wd_id w) Withdrawal.SIGNING Withdrawal.SIGN_FAILED (increment edge_sign));
            mret tt);
      mret true
  end.

(** ** Broadcast *)

Definition fail_broadcast (w : WithdrawalRecord) : job W unit :=
  _ ← commit (transition (wd_id w) Withdrawal.BROADCAST Withdrawal.BROADCAST_FAILED (increment edge_broadcast));
  mret tt.

Definition expire (w : WithdrawalRecord) : job W unit :=
  _ ← commit (transition (wd_id w) Withdrawal.BROADCAST Withdrawal.EXPIRED (increment edge_expiry)); mret tt.

(** [broadcastOne] *)
Definition broadcastOne : job W bool :=
  claimed ← commit (claimNext Withdrawal.SIGNED Withdrawal.BROADCAST chain);
  match claimed with
  | None => mret false
  | Some w =>
      match wd_signedTransaction w with
      | None => _ ← fail_broadcast w; mret true
      | Some signed =>
          outcome ← call (broadcast maxRetries signed);
          _ ← match outcome with
              | submitted signature => commit (recordSignature (wd_id w) signature)
              | nonce_advanced => expire w
              | broadcast_rejected _ => fail_broadcast w
              end;
          mret true
      end
  end.

(** ** Confirmation and settlement *)

(** What the movement was decides how it posts; a fee of nothing is left out. *)
Definition settlement_posting (w : WithdrawalRecord) (fee : option Z) : result LedgerTransaction :=
  let networkFee := match fee with Some n => if n >? 0 then Some n else None | None => None end in
  let internal := mkAllocation (wd_id w) (wd_user w) (wd_asset w) (wd_amount w) networkFee
                    (Some (nativeKey assets)) in
  match wd_purpose w with
  | allocation => postAllocation internal
  | deallocation => postDeallocation internal
  | external => postWithdrawalSettlement (mkSettle (lock_of w) networkFee (nativeKey assets))
  end.

(** The transaction of [settle]: the posting, the transition and the nonce's return. *)
Definition settle_tx (w : WithdrawalRecord) (fee : option Z) : ctx unit :=
  _ ← on_books (postLedger (settlement_posting w fee));
  _ ← transition (wd_id w) Withdrawal.CONFIRMED Withdrawal.SETTLED
        (mkWithdrawalPatch None fee (Some at_) None None);
  release (wd_id w).

Definition settle (w : WithdrawalRecord) (fee : option Z) : job W unit := commit (settle_tx w fee).

(** [resolveAmbiguity]: broadcast and not seen final, has it landed? *)
Definition resolveAmbiguity (w : WithdrawalRecord) : job W unit :=
  match wd_nonceAccountId w, wd_nonceValue w with
  | Some account, Some nonce =>
      found ← commit (nonceById account);
      match found with
      | None => mret tt
      | Some lease =>
          advanced ← call_result (hasAdvanced maxRetries (na_address lease) nonce);
          if negb advanced
          then match wd_signedTransaction w with
               | Some signed => _ ← call (broadcast maxRetries signed); mret tt
               | None => mret tt
               end
          else expire w
      end
  | _, _ => mret tt
  end.

(** [if (!withdrawal.txSignature)]: nothing or the empty text. *)
Definition confirmOne (w : WithdrawalRecord) : job W unit :=
  let signature := default "" (wd_txSignature w) in
  if bool_decide (signature = "") then resolveAmbiguity w else
  status ← call_result (getFinalizedStatus maxRetries signature);
  match status with
  | pending => resolveAmbiguity w
  | status_failed => fail_broadcast w
  | final =>
      confirmed ← commit (transition (wd_id w) Withdrawal.BROADCAST Withdrawal.CONFIRMED no_change);
      match confirmed with
      | None => mret tt
      | Some confirmed =>
          fee ← call_result (getPaidFee maxRetries signature);
          settle confirmed fee
      end
  end.

(** ** Cycles *)

(** [while (processed < batchSize && (await one())) processed += 1;] *)
Fixpoint up_to (n : nat) (one : job W bool) (processed : Z) : job W Z :=
  match n with
  | O => mret processed
  | S n => more ← one; if more : bool then up_to n one (processed + 1) else mret processed
  end.

Definition runSigningCycle : job W Z := _ ← processRetries; up_to batchSize signOne 0.

Definition runBroadcastCycle : job W Z := up_to batchSize broadcastOne 0.

Definition runConfirmationCycle : job W Z :=
  waiting ← commit (listByStatus Withdrawal.BROADCAST batchSize chain);
  _ ← for_all waiting confirmOne;
  mret (Z.of_nat (length waiting)).

Definition runAllCycles : job W (Z * Z * Z) :=
  signed ← runSigningCycle;
  sent ← runBroadcastCycle;
  confirmed ← runConfirmationCycle;
  mret (signed, sent, confirmed).

(** [retry]: a terminal withdrawal is not resurrected. *)
Definition retry (withdrawalId : string) : job W unit :=
  found ← commit (findById withdrawalId);
  match found with
  | None => fails (GenericError "no longer exists")
  | Some w =>
      _ ← of_result (throw_if (Withdrawal.isTerminal (wd_status w)) (GenericError "is terminal"));
      _ ← runAllCycles;
      mret tt
  end.
End Workers.
