(* ===== verification/Locks.v ===== *)
(** * Locks: what the custody tiers keep for withdrawals

    Proofs about [Custody] and [Withdrawals]: for every user and asset, what the ledger
    has locked is the sum of the withdrawals that hold a lock, in the tier they leave.
    [minds] is what one actor may do to the tables without disturbing another's
    withdrawals; every transaction of the service and of trading minds it. No code is
    modelled here. *)

From S2P Require Import Prelude Risk Assets Ledger Postings States Store Books System Custody Withdrawals.
From Stdlib Require Import ZArith Lia.
From stdpp Require Import base list strings gmap relations.

Open Scope string_scope.
Open Scope list_scope.
Open Scope Z_scope.

(** ** Lock accounts *)

(** The account a withdrawal is locked in, by whether it leaves the clearing tier. *)
Definition lock_account (trading : bool) (u a : string) : AccountRef :=
  if trading then userTradingLocked u a else userCustodyLocked u a.

Definition at_lock (tier : bool) (user asset : string) (n : Z) (t : bool) (u a : string) : Z :=
  if bool_decide (tier = t) && bool_decide (user = u) && bool_decide (asset = a) then n else 0.

(** What a posting adds to a lock account. *)
Definition lock_delta (p : Posting) : bool -> string -> string -> Z :=
  match p with
  | PWithdrawalLock i => at_lock false (w_userId i) (w_asset i) (w_amount i)
  | PWithdrawalRelease i => at_lock false (w_userId i) (w_asset i) (- w_amount i)
  | PWithdrawalSettlement i =>
      at_lock false (w_userId (s_lock i)) (w_asset (s_lock i)) (- w_amount (s_lock i))
  | PAllocation i => at_lock false (a_userId i) (a_asset i) (- a_amount i)
  | PTradingLock i => at_lock true (w_userId i) (w_asset i) (w_amount i)
  | PTradingRelease i => at_lock true (w_userId i) (w_asset i) (- w_amount i)
  | PDeallocation i => at_lock true (a_userId i) (a_asset i) (- a_amount i)
  | _ => fun _ _ _ => 0
  end.

Definition about_locks (p : Posting) : bool :=
  match p with
  | PWithdrawalLock _ | PWithdrawalRelease _ | PWithdrawalSettlement _ | PAllocation _
  | PTradingLock _ | PTradingRelease _ | PDeallocation _ => true
  | _ => false
  end.

Lemma fee_legs_no_lock i legs t u a : houseFeeLegs i = Ok legs -> net (on_account (lock_account t u a)) legs = 0.
Proof. intros [_ [[_ ->]|(_ & f & _ & ->)]]%houseFeeLegs_Ok; [done|]. destruct t; solve_net. Qed.

Ltac solve_lock t :=
  unfold at_lock, lock_account; destruct t; unfold net, on_account, signedAmount; simpl;
  repeat (case_bool_decide; simpl); simplify_eq/=; try lia; unfold userTradingLocked, userCustodyLocked in *;
  congruence.

Lemma post_lock_net p x t u a :
  post p = Ok x -> net (on_account (lock_account t u a)) (entries x) = - lock_delta p t u a.
Proof.
  destruct p as [i|i|i|i|i|i|i|i|i|i|i|i|i|i|i]; simpl; try (intros H; inv_post H; solve_lock t; fail).
  - intros [_ ->]%postDeposit_Ok. cbn [entries]. rewrite net_nonzero_legs. solve_lock t.
  - intros [_ (legs & -> & Hl)]%postWithdrawalSettlement_Ok. cbn [entries].
    rewrite net_app, (fee_legs_no_lock _ _ t u a Hl). solve_lock t.
  - unfold postAllocation. intros [_ (legs & Hl & ->)]%post_transfer; try done. cbn [entries].
    rewrite net_app, (fee_legs_no_lock _ _ t u a Hl). solve_lock t.
  - unfold postDeallocation. intros [_ (legs & Hl & ->)]%post_transfer; try done. cbn [entries].
    rewrite net_app, (fee_legs_no_lock _ _ t u a Hl). solve_lock t.
  - intros H. rewrite (trade_settlement_effect_net _ _ _ H). unfold lock_account.
    destruct t; rewrite !bool_decide_eq_false_2 by done; lia.
Qed.

(** ** The invariant *)

Definition held (w : WithdrawalRecord) : bool := Withdrawal.holdsLock (wd_status w).

(** What a withdrawal keeps locked; nothing when its lock has just been released. *)
Definition share (X : gset string) (t : bool) (u a : string) (w : WithdrawalRecord) : Z :=
  if held w && negb (bool_decide (wd_id w ∈ X))
  then at_lock (from_trading w) (wd_user w) (wd_asset w) (wd_amount w) t u a else 0.

Definition locked_for (X : gset string) (t : bool) (u a : string) (ws : list WithdrawalRecord) : Z :=
  sum_if (fun _ => true) (share X t u a) ws.

(** The locks agree, but for the withdrawals of [X], whose locks have been released although
    they still are in a status that holds one. *)
Record holds (X : gset string) (s : Custody) : Prop := {
  h_ids : NoDup (wd_id <$> withdrawals s);
  h_rows : Forall (fun w => withdrawal_row_ok w = true) (withdrawals s);
  h_released : forall x, x ∈ X -> exists w, w ∈ withdrawals s /\ wd_id w = x /\ held w = true;
  h_locks : forall t u a, credit_balance (lock_account t u a) (books s) = locked_for X t u a (withdrawals s)
}.

Definition replace (w' : WithdrawalRecord) (ws : list WithdrawalRecord) : list WithdrawalRecord :=
  map (fun x => if bool_decide (wd_id x = wd_id w') then w' else x) ws.

Definition same_withdrawal (w w' : WithdrawalRecord) : Prop :=
  wd_id w' = wd_id w /\ wd_user w' = wd_user w /\ wd_asset w' = wd_asset w /\ wd_amount w' = wd_amount w /\
  wd_purpose w' = wd_purpose w /\ wd_destination w' = wd_destination w.

Lemma unique_row ws w x :
  NoDup (wd_id <$> ws) -> w ∈ ws -> x ∈ ws -> wd_id x = wd_id w -> x = w.
Proof. intros. by eapply (row_unique wd_id). Qed.

Lemma replace_ids w' ws : wd_id <$> replace w' ws = wd_id <$> ws.
Proof.
  induction ws as [|x ws IH]; [done|]. unfold replace in *. cbn [map]. rewrite !fmap_cons, IH. f_equal.
  case_bool_decide; congruence.
Qed.

Lemma replace_elem w w' ws x :
  NoDup (wd_id <$> ws) -> w ∈ ws -> wd_id w' = wd_id w ->
  x ∈ replace w' ws <-> x = w' \/ (x ∈ ws /\ wd_id x <> wd_id w).
Proof.
  intros Hnd Hw Hid. unfold replace. rewrite list_elem_of_fmap. split.
  - intros (y & -> & Hy). case_bool_decide as E; [by left|]. right. split; [done|congruence].
  - intros [->|[Hx Hne]].
    + exists w. by rewrite bool_decide_eq_true_2 by done.
    + exists x. by rewrite bool_decide_eq_false_2 by congruence.
Qed.

Lemma replace_self w ws : NoDup (wd_id <$> ws) -> w ∈ ws -> replace w ws = ws.
Proof.
  intros Hnd Hw. unfold replace. rewrite <- (map_id ws) at 2. apply map_ext_in. intros x Hx%list_elem_of_In.
  case_bool_decide; [|done]. symmetry. by eapply unique_row.
Qed.

Lemma locked_for_replace X X' t u a w w' ws :
  NoDup (wd_id <$> ws) -> w ∈ ws -> wd_id w' = wd_id w ->
  (forall x, x ∈ ws -> wd_id x <> wd_id w -> share X' t u a x = share X t u a x) ->
  locked_for X' t u a (replace w' ws) = locked_for X t u a ws + (share X' t u a w' - share X t u a w).
Proof.
  intros Hnd Hw Hid Hx. unfold locked_for, replace.
  assert (Hmap : forall (g : WithdrawalRecord -> WithdrawalRecord) (val : WithdrawalRecord -> Z) l,
            sum_if (fun _ => true) val (map g l) = sum_if (fun _ => true) (fun x => val (g x)) l)
    by (intros g val l; induction l; simpl; congruence).
  rewrite Hmap. rewrite (sum_if_at wd_id _ (share X t u a) _ ws w (share X' t u a w' - share X t u a w)); try done.
  intros y Hy. rewrite Hid. case_bool_decide as E; [|rewrite Hx by done; lia].
  rewrite (unique_row ws w y) by done. lia.
Qed.

(** One row changes, with what the ledger locks for it. *)
Lemma holds_replace X X' s b w w' :
  holds X s -> w ∈ withdrawals s -> same_withdrawal w w' -> withdrawal_row_ok w' = true ->
  (forall t u a, credit_balance (lock_account t u a) b =
     credit_balance (lock_account t u a) (books s) + (share X' t u a w' - share X t u a w)) ->
  (forall x, x <> wd_id w -> x ∈ X' <-> x ∈ X) -> (wd_id w ∈ X' -> held w' = true) ->
  holds X' (set_books b (set_withdrawals (replace w' (withdrawals s)) s)).
Proof.
  intros [Hnd Hrows Hrel Hl] Hw (Hid & _) Hok Hb HX Hheld. split; simpl.
  - by rewrite replace_ids.
  - apply Forall_forall. intros x [->|[Hx _]]%(replace_elem w); try done.
    rewrite Forall_forall in Hrows. by apply Hrows.
  - intros x Hx. destruct (decide (x = wd_id w)) as [->|Hne].
    + exists w'. rewrite (replace_elem w) by done. auto.
    + apply HX in Hx; [|done]. destruct (Hrel x Hx) as (y & Hy & <- & Hh). exists y.
      rewrite (replace_elem w) by done. auto.
  - intros t u a. rewrite Hb, Hl. symmetry. apply locked_for_replace; try done.
    intros x Hx Hne. unfold share. destruct (held x); [|done]. simpl.
    rewrite (bool_decide_ext (wd_id x ∈ X') (wd_id x ∈ X)); [done|by apply HX].
Qed.

Lemma set_books_same s : set_books (books s) s = s.
Proof. by destruct s. Qed.

(** ** What a transition does *)

Lemma ctx_bind_Ok {A B} (m : ctx A) (k : A -> ctx B) s b s' :
  (m ≫= k) s = Ok (b, s') <-> exists a s1, m s = Ok (a, s1) /\ k a s1 = Ok (b, s').
Proof. unfold mbind, ctx_bind. destruct (m s) as [[a s1]|]; naive_solver. Qed.

Lemma refuse_if_Ok c e s u s' : refuse_if c e s = Ok (u, s') -> c = false /\ s' = s.
Proof. destruct c; simpl; [done|]. by intros [= _ <-]. Qed.

Ltac inv_ctx :=
  repeat match goal with
  | H : (_ ≫= _) _ = Ok (_, _) |- _ => apply ctx_bind_Ok in H as (? & ? & ? & ?)
  | H : refuse_if _ _ _ = Ok (_, _) |- _ => apply refuse_if_Ok in H as [? ->]
  | H : query _ _ = Ok (_, _) |- _ => unfold query in H; first [injection H as <- <- | injection H as <-]
  | H : update _ _ = Ok (_, _) |- _ => unfold update in H; first [injection H as <- <- | injection H as <-]
  | H : mret _ _ = Ok (_, _) |- _ => unfold mret, ctx_ret in H; first [injection H as <- <- | injection H as <-]
  | H : lift_ctx (Throw _) _ = Ok _ |- _ => discriminate H
  end.

Lemma filter_hit id test ws :
  NoDup (wd_id <$> ws) ->
  filter (fun w => bool_decide (wd_id w = id) && test w = true) ws = [] \/
  exists w, w ∈ ws /\ wd_id w = id /\ test w = true /\
    filter (fun w => bool_decide (wd_id w = id) && test w = true) ws = [w].
Proof.
  induction ws as [|x ws IH]; [by left|]. rewrite fmap_cons. intros [Hni Hnd]%NoDup_cons.
  rewrite filter_cons. case_decide as E.
  - right. zbool. exists x. split; [left|]. split; [done|]. split; [done|]. f_equal. apply filter_none.
    intros y Hy Hhit. zbool. apply Hni. replace (wd_id x) with (wd_id y) by congruence. by apply list_elem_of_fmap_2.
  - destruct (IH Hnd) as [->|(w & Hw & ? & ? & ->)]; [by left|]. right. exists w.
    split; [by right|]. done.
Qed.

Lemma update_withdrawal_Ok id test f s n s' :
  NoDup (wd_id <$> withdrawals s) -> (forall w, wd_id (f w) = wd_id w) ->
  update_withdrawal id test f s = Ok (n, s') ->
  (n = 0%nat /\ s' = s /\ forall w, w ∈ withdrawals s -> wd_id w = id -> test w = false) \/
  (n = 1%nat /\ exists w, w ∈ withdrawals s /\ wd_id w = id /\ test w = true /\
     withdrawal_row_ok (f w) = true /\ s' = set_withdrawals (replace (f w) (withdrawals s)) s).
Proof.
  intros Hnd Hf H. unfold update_withdrawal in H. inv_ctx. zbool.
  destruct (filter_hit id test (withdrawals s) Hnd) as [E|(w & Hw & Hid & Ht & E)].
  - left. rewrite E. split; [done|].
    assert (Hno : forall w, w ∈ withdrawals s -> bool_decide (wd_id w = id) && test w = false).
    { intros w Hw. destruct (_ && _) eqn:Hhit; [|done].
      assert (Hin : w ∈ filter (fun w => bool_decide (wd_id w = id) && test w = true) (withdrawals s))
        by (by apply list_elem_of_filter). rewrite E in Hin. by apply not_elem_of_nil in Hin. }
    split.
    + rewrite (map_ext_in _ (fun w => w)), map_id; [by destruct s|]. intros w Hw%list_elem_of_In. by rewrite Hno.
    + intros w Hw Hid. specialize (Hno w Hw). by rewrite bool_decide_eq_true_2 in Hno.
  - right. rewrite E in *. simpl in *. zbool. split; [done|]. exists w. repeat split; try done.
    f_equal. unfold replace. apply map_ext_in. intros x Hx%list_elem_of_In. rewrite Hf.
    destruct (decide (wd_id x = wd_id w)) as [Hxid|Hne].
    + rewrite (unique_row (withdrawals s) w x) by done. rewrite !bool_decide_eq_true_2 by done. by rewrite Ht.
    + rewrite !bool_decide_eq_false_2 by congruence. done.
Qed.

Lemma findById_withdrawal w s : NoDup (wd_id <$> withdrawals s) -> w ∈ withdrawals s -> findById (wd_id w) s = Ok (Some w, s).
Proof.
  intros Hnd Hw. unfold findById, query. do 2 f_equal. destruct (head _) as [x|] eqn:E.
  - apply head_filter_elem in E as [Hx Hid]. f_equal. by eapply unique_row.
  - by apply (head_filter_absent _ _ w) in E.
Qed.

Lemma patch_same to p w : same_withdrawal w (patch_withdrawal to p w).
Proof. by repeat split. Qed.

Lemma transition_withdrawal id from to p s r s' :
  NoDup (wd_id <$> withdrawals s) -> transition id from to p s = Ok (r, s') ->
  Withdrawal.canTransition from to = true /\
  ((r = None /\ s' = s /\ forall w, w ∈ withdrawals s -> wd_id w = id -> wd_status w <> from) \/
   (exists w, w ∈ withdrawals s /\ wd_id w = id /\ wd_status w = from /\
      let w' := patch_withdrawal to p w in
      r = Some w' /\ withdrawal_row_ok w' = true /\ s' = set_withdrawals (replace w' (withdrawals s)) s)).
Proof.
  intros Hnd H. unfold transition in H. inv_ctx. zbool. split; [done|].
  match goal with H : update_withdrawal _ _ _ _ = _ |- _ => apply update_withdrawal_Ok in H; [|done|done];
    destruct H as [(-> & -> & Hno)|(-> & w & Hw & Hid & Ht & Hok & ->)] end; simpl in *; inv_ctx; zbool.
  - left. split; [done|]. split; [done|]. intros w Hw Hid. specialize (Hno w Hw Hid). by zbool.
  - right. exists w. repeat split; try done; subst id.
    + set (w' := patch_withdrawal to p w) in *. set (s1 := set_withdrawals _ s) in *.
      match goal with H : findById _ _ = _ |- _ => change (wd_id w) with (wd_id w') in H;
        rewrite (findById_withdrawal w' s1) in H; [by injection H as <- _| |] end.
      * simpl. by rewrite replace_ids.
      * simpl. apply (replace_elem w); auto.
    + match goal with H : findById _ _ = _ |- _ => unfold findById in H; inv_ctx end. done.
Qed.

Lemma update_withdrawal_hit test f s w :
  NoDup (wd_id <$> withdrawals s) -> w ∈ withdrawals s -> test w = true -> (forall x, wd_id (f x) = wd_id x) ->
  withdrawal_row_ok (f w) = true ->
  update_withdrawal (wd_id w) test f s = Ok (1%nat, set_withdrawals (replace (f w) (withdrawals s)) s).
Proof.
  intros Hnd Hw Ht Hf Hok.
  destruct (update_withdrawal (wd_id w) test f s) as [[n s']|e] eqn:E.
  - apply update_withdrawal_Ok in E as [(_ & _ & Hno)|(-> & x & Hx & Hid & _ & _ & ->)]; try done.
    + by rewrite (Hno w) in Ht.
    + by rewrite (unique_row _ w x Hnd Hw Hx Hid).
  - exfalso. unfold update_withdrawal, mbind, ctx_bind, query in E.
    destruct (filter_hit (wd_id w) test _ Hnd) as [Hnil|(x & Hx & Hid & _ & Hone)].
    + apply (elem_of_nil w). rewrite <- Hnil. apply list_elem_of_filter. by rewrite bool_decide_eq_true_2, Ht.
    + rewrite Hone in E. simpl in E. rewrite (unique_row _ w x Hnd Hw Hx Hid), Hok in E. done.
Qed.

Lemma patch_row_ok to p w :
  wp_networkFee p = None -> withdrawal_row_ok w = true -> withdrawal_row_ok (patch_withdrawal to p w) = true.
Proof.
  intros Hp. unfold withdrawal_row_ok. simpl. rewrite Hp. simpl. intros H. zbool.
  rewrite !andb_true_iff. repeat split;
    first [done | apply Z.ltb_lt; lia | apply Z.leb_le; lia |
      apply Z.leb_le; match goal with |- context [if ?b then _ else _] => destruct b end; lia].
Qed.

(** A legal transition of a row that is there goes through. *)
Lemma transition_hit to p s w :
  NoDup (wd_id <$> withdrawals s) -> w ∈ withdrawals s -> Withdrawal.canTransition (wd_status w) to = true ->
  wp_signed p = None -> withdrawal_row_ok (patch_withdrawal to p w) = true ->
  let w' := patch_withdrawal to p w in
  transition (wd_id w) (wd_status w) to p s = Ok (Some w', set_withdrawals (replace w' (withdrawals s)) s).
Proof.
  intros Hnd Hw Hc Hp Hok w'. unfold transition, mbind, ctx_bind, query, refuse_if. rewrite Hc, Hp. simpl.
  rewrite update_withdrawal_hit; try done; [|by apply bool_decide_eq_true_2]. simpl.
  set (s1 := set_withdrawals _ s). apply (findById_withdrawal w' s1); simpl; [by rewrite replace_ids|].
  apply (replace_elem w); auto.
Qed.

(** ** Minding the others' withdrawals *)

#[export] Instance same_withdrawal_preorder : PreOrder same_withdrawal.
Proof. split; [by repeat split|]. intros w1 w2 w3 (?&?&?&?&?&?) (?&?&?&?&?&?). repeat split; congruence. Qed.

(** A withdrawal never vanishes, and its terms never change. *)
Definition terms_kept (s s' : Custody) : Prop :=
  forall w, w ∈ withdrawals s -> exists w', w' ∈ withdrawals s' /\ same_withdrawal w w'.

#[export] Instance terms_kept_preorder : PreOrder terms_kept.
Proof.
  split; [intros s w Hw; by exists w|]. intros s1 s2 s3 H12 H23 w Hw.
  destruct (H12 w Hw) as (w2 & Hw2 & E2). destruct (H23 w2 Hw2) as (w3 & Hw3 & E3). exists w3.
  split; [done|by etrans].
Qed.

(** Moreover the locks stay right, and no withdrawal that holds one changes but those an actor may touch;
    the locks of these must be right to begin with. *)
Definition minds (mine : string -> Prop) (s s' : Custody) : Prop :=
  terms_kept s s' /\ forall X, (forall x, x ∈ X -> ~ mine x) -> holds X s ->
  holds X s' /\
  forall w, w ∈ withdrawals s -> held w = true -> ~ mine (wd_id w) -> w ∈ withdrawals s'.

Definition nobody (id : string) : Prop := False.

#[export] Instance minds_preorder mine : PreOrder (minds mine).
Proof.
  split; [intros s; split; [reflexivity|]; intros X _ HX; by split|].
  intros s1 s2 s3 [T12 H12] [T23 H23]. split; [by etrans|]. intros X Hm HX.
  destruct (H12 X Hm HX) as [HX2 K2]. destruct (H23 X Hm HX2) as [HX3 K3]. split; [done|]. auto.
Qed.

Lemma minds_weaken (mine mine' : string -> Prop) s s' :
  (forall x, mine x -> mine' x) -> minds mine s s' -> minds mine' s s'.
Proof.
  intros Hm [T H]. split; [done|]. intros X Hd HX. destruct (H X) as [HX' K]; [naive_solver|done|].
  split; [done|]. intros w Hw Hh Hn. apply K; auto.
Qed.

(** Nothing about withdrawals or locks changed. *)
Lemma minds_same mine s s' :
  withdrawals s' = withdrawals s ->
  (forall t u a, credit_balance (lock_account t u a) (books s') = credit_balance (lock_account t u a) (books s)) ->
  minds mine s s'.
Proof.
  intros Hw Hb. split; [intros w ?; exists w; by rewrite Hw|].
  intros X _ [Hnd Hr Hx Hl]. split; [|by rewrite Hw]. split; rewrite ?Hw; try done.
  intros t u a. by rewrite Hb.
Qed.

(** A relation between tables that only looks at withdrawals and at what is locked. *)
Class Watch (T : Custody -> Custody -> Prop) : Prop := {
  watch_preorder :: PreOrder T;
  watch_same s s' :
    withdrawals s' = withdrawals s ->
    (forall t u a, credit_balance (lock_account t u a) (books s') = credit_balance (lock_account t u a) (books s)) ->
    T s s'
}.

#[export] Instance minds_watch mine : Watch (minds mine).
Proof. split; [apply _|apply minds_same]. Qed.

#[export] Instance terms_watch : Watch terms_kept.
Proof. split; [apply _|]. intros s s' Hw _ w Hin. exists w. by rewrite Hw. Qed.

(** A transaction moves the tables along a relation. *)
Class Along (T : Custody -> Custody -> Prop) {A} (m : ctx A) : Prop :=
  along : forall s a s', m s = Ok (a, s') -> T s s'.

Abbreviation Mindful mine := (Along (minds mine)).

Lemma along_weaken T T' {A} (m : ctx A) : (forall s s', T s s' -> T' s s') -> Along T m -> Along T' m.
Proof. intros H Hm s a s' E. apply H. by eapply Hm. Qed.

Section Along.
Context (T : Custody -> Custody -> Prop) `{!Watch T}.

#[export] Instance along_ret {A} (a : A) : Along T (mret a).
Proof. intros s b s' H. inv_ctx. reflexivity. Qed.
#[export] Instance along_bind {A B} (m : ctx A) (k : A -> ctx B) :
  Along T m -> (forall a, Along T (k a)) -> Along T (m ≫= k).
Proof. intros Hm Hk s b s' H. inv_ctx. etrans; [by eapply Hm|by eapply Hk]. Qed.
#[export] Instance along_query {A} (f : Custody -> A) : Along T (query f).
Proof. intros s b s' H. inv_ctx. reflexivity. Qed.
#[export] Instance along_lift {A} (r : result A) : Along T (lift_ctx r).
Proof. intros s b s' H. destruct r; simpl in H; [injection H as _ <-; reflexivity|done]. Qed.
#[export] Instance along_refuse b e : Along T (refuse_if b e).
Proof. apply along_lift. Qed.
#[export] Instance along_nonces hit f : Along T (update_nonces hit f).
Proof. intros s b s' H. unfold update_nonces in H. inv_ctx. by apply watch_same. Qed.
#[export] Instance along_signings f : Along T (update (fun s => set_signings (f s) s)).
Proof. intros s b s' H. inv_ctx. by apply watch_same. Qed.
#[export] Instance along_decided f : Along T (update (fun s => set_decided (f s) s)).
Proof. intros s b s' H. inv_ctx. by apply watch_same. Qed.
End Along.

Ltac solve_along :=
  first [ apply _ | apply along_bind; [apply _| |intros ?]; solve_along | case_match; solve_along ].

Section Repositories.
Context (T : Custody -> Custody -> Prop) `{!Watch T}.

#[export] Instance along_lease chain id : Along T (lease chain id).
Proof. unfold lease. solve_along. Qed.
#[export] Instance along_release id : Along T (release id).
Proof. unfold release. solve_along. Qed.
#[export] Instance along_findById id : Along T (findById id).
Proof. unfold findById. solve_along. Qed.
#[export] Instance along_findByAddress chain a : Along T (findByAddress chain a).
Proof. unfold findByAddress. solve_along. Qed.
#[export] Instance along_record row : Along T (record row).
Proof. unfold record. solve_along. Qed.
#[export] Instance along_open id r k : Along T (open id r k).
Proof. unfold open, findByRequestId. solve_along. Qed.
#[export] Instance along_complete hit o : Along T (complete hit o).
Proof. unfold complete. solve_along. Qed.
End Repositories.

(** The share of a row only depends on its terms and on whether it holds a lock. *)
Lemma share_terms X t u a w w' :
  same_withdrawal w w' -> held w' = held w -> share X t u a w' = share X t u a w.
Proof. intros (Hi & Hu & Ha & Hn & Hp & _) Hh. unfold share, from_trading. by rewrite Hi, Hu, Ha, Hn, Hp, Hh. Qed.

Lemma holds_same_share X s w w' :
  holds X s -> w ∈ withdrawals s -> same_withdrawal w w' -> withdrawal_row_ok w' = true -> held w' = held w ->
  holds X (set_withdrawals (replace w' (withdrawals s)) s) /\
  forall x, x ∈ withdrawals s -> wd_id x <> wd_id w -> x ∈ replace w' (withdrawals s).
Proof.
  intros HX Hw Hs Hok Hh. pose proof HX as [Hnd _ Hrel _]. split.
  - rewrite <- (set_books_same s) at 2. apply (holds_replace X X s (books s) w w'); try done.
    + intros t u a. rewrite (share_terms X t u a w w') by done. lia.
    + intros (x & Hx & Hid & Hhx)%Hrel. rewrite Hh. by rewrite <- (unique_row _ w x Hnd Hw Hx Hid).
  - intros x Hx Hne. destruct Hs as (Hid & _). apply (replace_elem w); auto.
Qed.

Lemma transition_terms id from to p s r s' : transition id from to p s = Ok (r, s') -> terms_kept s s'.
Proof.
  intros H. unfold transition, update_withdrawal, findById in H. inv_ctx.
  assert (Ht : terms_kept s (set_withdrawals (map (fun w => if bool_decide (wd_id w = id) && bool_decide (wd_status w = from)
            then patch_withdrawal to p w else w) (withdrawals s)) s)).
  { intros w Hw. eexists. split; [by apply list_elem_of_fmap_2|]. simpl.
    destruct (bool_decide (wd_id w = id) && bool_decide (wd_status w = from)); [apply patch_same|reflexivity]. }
  case_match; inv_ctx; exact Ht.
Qed.

Lemma mindful_transition mine id from to p :
  Withdrawal.holdsLock to = Withdrawal.holdsLock from -> (Withdrawal.holdsLock from = true -> mine id) ->
  Mindful mine (transition id from to p).
Proof.
  intros Hh Hm s r s' H. split; [by eapply transition_terms|]. intros X _ HX.
  destruct (transition_withdrawal _ _ _ _ _ _ _ (h_ids X s HX) H) as [_ [(_ & -> & _)|(w & Hw & <- & <- & _ & Hok & ->)]].
  - by split.
  - destruct (holds_same_share X s w (patch_withdrawal to p w)) as [HX' K]; try done.
    split; [done|]. intros x Hx Hhx Hn. apply K; [done|]. intros Heq.
    rewrite (unique_row _ w x (h_ids X s HX) Hw Hx Heq) in *. auto.
Qed.

Lemma atomically_Ok {A} (m : ctx A) s a s' :
  atomically m s = Ok (a, s') -> m s = Ok (a, s') /\
  deferred_ok (books s) (books s') = true /\ balanced_ok (books s) (books s') = true.
Proof.
  unfold atomically. destruct (m s) as [[b s1]|]; [|done]. destruct (_ && _) eqn:E; [|done].
  intros [= -> ->]. by apply andb_true_iff in E.
Qed.

(** A transaction that posts nothing is not refused. *)
Lemma atomically_same {A} (m : ctx A) s a s' :
  m s = Ok (a, s') -> ledger (books s') = ledger (books s) -> atomically m s = Ok (a, s').
Proof. intros H Hl. unfold atomically, deferred_ok, balanced_ok. by rewrite H, Hl, drop_all. Qed.

(** ** The service *)

Lemma on_books_post p s u s' :
  on_books (postLedger (post p)) s = Ok (u, s') ->
  exists b, s' = set_books b s /\ forall t u a,
    credit_balance (lock_account t u a) b = credit_balance (lock_account t u a) (books s) + lock_delta p t u a.
Proof.
  unfold on_books. destruct (postLedger _ (books s)) as [[u' b]|] eqn:E; [|done]. intros [= -> <-].
  exists b. split; [done|]. apply postLedger_Ok in E as (x & Hx & -> & _). intros t u0 a.
  rewrite credit_balance_app, (post_lock_net p x) by done. lia.
Qed.

Lemma lock_posting w :
  postLedger ((if from_trading w then postTradingLock else postWithdrawalLock) (lock_of w)) =
  postLedger (post (if from_trading w then PTradingLock (lock_of w) else PWithdrawalLock (lock_of w))).
Proof. by destruct (from_trading w). Qed.

Lemma lock_posting_delta w t u a :
  lock_delta (if from_trading w then PTradingLock (lock_of w) else PWithdrawalLock (lock_of w)) t u a =
  at_lock (from_trading w) (wd_user w) (wd_asset w) (wd_amount w) t u a.
Proof. by destruct (from_trading w). Qed.

(** A record an actor has read stands for a row of the same terms. *)
Definition known (w : WithdrawalRecord) (s : Custody) : Prop :=
  exists x, x ∈ withdrawals s /\ same_withdrawal w x.

Lemma known_kept w s s' : terms_kept s s' -> known w s -> known w s'.
Proof. intros Ht (x & Hx & Hs). destruct (Ht x Hx) as (y & Hy & Hs'). exists y. split; [done|by etrans]. Qed.

Lemma available_Ok (f : string -> string -> AccountRef) u a s n s' :
  (_ ← lift_ctx (parseLedgerAssetKey a); query (fun s => credit_balance (f u a) (books s))) s = Ok (n, s') -> s' = s.
Proof. intros H. inv_ctx. destruct (parseLedgerAssetKey a); simpl in *; [|done]. congruence. Qed.

(** The lock and the status change in one step, for the withdrawal the record stands for. *)
Lemma lock_tx_minds w s r s' : known w s -> lock_tx w s = Ok (r, s') -> minds nobody s s'.
Proof.
  intros (x & Hx & Hs) H. unfold lock_tx in H. rewrite lock_posting in H.
  apply ctx_bind_Ok in H as (n & s1 & Hn & H).
  assert (s1 = s) as -> by (destruct (from_trading w); eapply available_Ok; exact Hn). inv_ctx.
  match goal with H : on_books _ _ = _ |- _ => apply on_books_post in H as (b & -> & Hb) end.
  setoid_rewrite lock_posting_delta in Hb.
  match goal with H : transition _ _ _ _ _ = _ |- _ => rename H into Ht end.
  match goal with H : match ?o with Some _ => _ | None => _ end _ = _ |- _ => destruct o; [|done] end. inv_ctx.
  split; [by apply transition_terms in Ht|]. intros X _ HX. pose proof HX as [Hnd Hr Hrel _].
  apply transition_withdrawal in Ht as [_ [(? & _)|(y & Hy & Hid & Hst & _ & Hok & ->)]]; [done| |done].
  assert (y = x) as -> by (eapply unique_row; try done; destruct Hs; congruence).
  assert (Hhx : held x = false) by (unfold held; by rewrite Hst).
  assert (HnX : wd_id x ∉ X).
  { intros (z & Hz & Hzid & Hhz)%Hrel. rewrite (unique_row _ x z Hnd Hx Hz Hzid) in Hhz. congruence. }
  split.
  - apply (holds_replace X X s b x); try done. intros t u a. rewrite Hb. f_equal.
    unfold share. rewrite Hhx. change (held (patch_withdrawal _ _ x)) with true. simpl.
    rewrite bool_decide_eq_false_2 by done. simpl. destruct Hs as (? & Hu & Ha & Hn' & Hp & _).
    unfold from_trading. simpl. rewrite Hu, Ha, Hn', Hp. lia.
  - intros z Hz Hhz _. simpl. apply (replace_elem x); try done. right. split; [done|]. intros Heq.
    rewrite (unique_row _ x z Hnd Hx Hz Heq) in Hhz. congruence.
Qed.

Lemma not_held_share X t u a w : held w = false -> share X t u a w = 0.
Proof. intros E. unfold share. by rewrite E. Qed.

Lemma create_minds id at_ i : Mindful nobody (create id at_ i).
Proof.
  intros s r s' H. unfold create, findByIdempotencyKey, findById in H. inv_ctx. zbool.
  match goal with H : match ?o with Some _ => _ | None => _ end _ = _ |- _ => destruct o; inv_ctx end; [reflexivity|].
  zbool. split; [intros w Hw; exists w; split; [simpl; apply elem_of_app; by left|reflexivity]|].
  intros X _ [Hnd Hr Hrel Hl]. split; [|intros w Hw _ _; simpl; apply elem_of_app; by left].
  match goal with H : ~ is_Some _ |- _ => rename H into Hno end.
  split; simpl.
  - rewrite fmap_app. apply NoDup_app. split; [done|]. split; [|apply NoDup_singleton].
    intros y (w & -> & Hw)%list_elem_of_fmap Hin. apply list_elem_of_singleton in Hin. simpl in Hin.
    apply Hno. destruct (head _) eqn:E; [by eexists|]. by apply (head_filter_absent _ _ w) in E.
  - apply Forall_app. split; [done|]. by repeat constructor.
  - intros y Hy. destruct (Hrel y Hy) as (w & Hw & ?). exists w. split; [apply elem_of_app; by left|done].
  - intros t u a. rewrite Hl. unfold locked_for. rewrite sum_if_app. simpl. rewrite not_held_share by done. lia.
Qed.
