(* ===== verification/Escrow.v ===== *)
(** * Escrow: the withdrawal service and workers keep the locks right

    Proofs about the jobs of [Withdrawals] and [WithdrawalWorkers], run beside actors that
    mind the withdrawals ([Locks]): a small program logic of jobs, whose steps move the
    tables along a preorder, then what each service call and each worker cycle guarantees.
    No code is modelled here. *)

From S2P Require Import Prelude Risk Assets Ledger Postings States Store Settlement Consumer Worker Books Gateway System Custody Withdrawals.
From S2P Require Import Broadcaster WithdrawalWorkers Locks.
From Stdlib Require Import ZArith Lia.
From stdpp Require Import base list strings gmap relations.

Open Scope string_scope.
Open Scope list_scope.
Open Scope Z_scope.

(** ** Moving along a preorder *)

Section Moves.
Context {W : Type} `{!Others W}.
(** What one actor and the others around it may do. *)
Context (T : Custody -> Custody -> Prop) `{!PreOrder T}.
Context (around : forall w d, T d (others w d).1).

Definition moves {A} (m : job W A) (s : Proc W) : Prop := T (db s) (db (m s).2).

Lemma moves_ret {A} (a : A) s : moves (mret a) s.
Proof. unfold moves. simpl. reflexivity. Qed.

Lemma moves_fails {A} e s : moves (@fails W A e) s.
Proof. unfold moves. simpl. reflexivity. Qed.

Lemma moves_of_result {A} (r : result A) s : moves (of_result r) s.
Proof. unfold moves. simpl. reflexivity. Qed.

Lemma moves_bind {A B} (m : job W A) (k : A -> job W B) s :
  moves m s -> (forall a s', m s = (Ok a, s') -> moves (k a) s') -> moves (m ≫= k) s.
Proof.
  unfold moves, mbind, job_bind. intros Hm Hk. destruct (m s) as [[a|e] s'] eqn:E; [|done].
  etrans; [exact Hm|]. by apply Hk.
Qed.

Lemma moves_catch {A} (m : job W A) h s :
  moves m s -> (forall e s', m s = (Throw e, s') -> moves (h e) s') -> moves (catch m h) s.
Proof.
  unfold moves, catch. intros Hm Hh. destruct (m s) as [[a|e] s'] eqn:E; [done|].
  etrans; [exact Hm|]. by apply Hh.
Qed.

Lemma moves_yield s : moves yield s.
Proof. unfold moves, yield. destruct (others _ _) as [d w] eqn:E. simpl. change d with (d, w).1. by rewrite <- E. Qed.

Lemma moves_atomically {A} (m : ctx A) s :
  (forall a d, atomically m (db s) = Ok (a, d) -> T (db s) d) -> moves (commit m) s.
Proof.
  unfold moves, commit. intros Hm. destruct (atomically m (db s)) as [[a d]|e] eqn:E; [|apply moves_yield].
  etrans; [by eapply Hm|]. apply (moves_yield (mkProc d (world s))).
Qed.

Lemma moves_commit {A} (m : ctx A) s :
  (forall a d, m (db s) = Ok (a, d) -> T (db s) d) -> moves (commit m) s.
Proof. intros Hm. apply moves_atomically. intros a d [E _]%atomically_Ok. by eapply Hm. Qed.

Lemma moves_commit_along {A} (m : ctx A) s : Along T m -> moves (commit m) s.
Proof. intros Hm. apply moves_commit. intros a d. apply Hm. Qed.

Lemma moves_call {A} (f : W -> A * W) s : moves (call f) s.
Proof. unfold moves, call. destruct (f (world s)) as [a w]. apply (moves_yield (mkProc (db s) w)). Qed.

Lemma moves_call_result {A} (f : W -> result A * W) s : moves (call_result f) s.
Proof. apply moves_bind; [apply moves_call|]. intros. apply moves_of_result. Qed.

Lemma moves_for_all {A} (xs : list A) f s : (forall x s, x ∈ xs -> moves (f x) s) -> moves (for_all xs f) s.
Proof.
  revert s. induction xs as [|x xs IH]; intros s Hf; cbn [for_all]; [apply moves_ret|].
  apply moves_bind; [apply Hf; by left|]. intros _ s' _. apply IH. intros y s0 Hy. apply Hf. by right.
Qed.

Lemma moves_up_to n one k s : (forall s, moves one s) -> moves (up_to n one k) s.
Proof.
  intros H. revert k s. induction n as [|n IH]; intros k s; cbn [up_to]; [apply moves_ret|].
  apply moves_bind; [done|]. intros more s' _. destruct more; [apply IH|apply moves_ret].
Qed.

Lemma job_bind_Ok {A B} (m : job W A) (k : A -> job W B) s b s' :
  (m ≫= k) s = (Ok b, s') -> exists a s1, m s = (Ok a, s1) /\ k a s1 = (Ok b, s').
Proof using. unfold mbind, job_bind. destruct (m s) as [[a|e] s1]; [eauto|done]. Qed.

(** What a committed transaction leaves, once the others have acted. *)
Lemma commit_inv {A} (m : ctx A) s r s' :
  commit m s = (r, s') ->
  (exists a d, r = Ok a /\ m (db s) = Ok (a, d) /\ T d (db s')) \/
  (exists e, r = Throw e /\ T (db s) (db s')).
Proof.
  unfold commit. destruct (atomically m (db s)) as [[a d]|e] eqn:E; intros [= <- <-].
  - left. apply atomically_Ok in E as [E _]. exists a, d. repeat split; [done|].
    apply (moves_yield (mkProc d (world s))).
  - right. exists e. split; [done|]. apply moves_yield.
Qed.
End Moves.

(** Walks a job; [own] shows that a committed transaction moves the tables along the relation. *)
Ltac step_moves around own :=
  first
  [ apply (moves_ret _) | apply (moves_fails _) | apply (moves_of_result _)
  | apply (moves_call_result _ around) | apply (moves_call _ around)
  | apply (moves_commit_along _ around); own
  | apply (moves_bind _); [|intros ? ? ?] | apply (moves_catch _); [|intros ? ? ?]
  | apply (moves_for_all _); intros ? ? ?
  | case_match ].

(** ** The service *)

Lemma findById_known id s w s' : findById id s = Ok (Some w, s') -> known w s'.
Proof.
  unfold findById, query. intros [= E <-]. apply head_filter_elem in E as [Hx _]. exists w. by split.
Qed.

Lemma transition_known id from to p s w s' : transition id from to p s = Ok (Some w, s') -> known w s'.
Proof.
  unfold transition. intros H. inv_ctx. case_match; inv_ctx; [done|]. by eapply findById_known.
Qed.

Lemma create_known id at_ i s w s' : create id at_ i s = Ok (created w, s') -> known w s'.
Proof.
  unfold create. intros H. inv_ctx. case_match; inv_ctx; [done|]. simplify_eq.
  eexists. split; [|reflexivity]. simpl. apply elem_of_app. right. by left.
Qed.

(** What the service's own transactions respect: none leaves or enters a status that holds a
    lock but the one that locks the funds. *)
Class Serves (T : Custody -> Custody -> Prop) : Prop := {
  serves_watch :: Watch T;
  serves_terms s s' : T s s' -> terms_kept s s';
  serves_create id at_ i : Along T (create id at_ i);
  serves_move id from to :
    Withdrawal.holdsLock from = false -> Withdrawal.holdsLock to = false -> Along T (transition id from to no_change);
  serves_lock w s r s' : known w s -> lock_tx w s = Ok (r, s') -> T s s'
}.

#[export] Instance minds_serves : Serves (minds nobody).
Proof.
  split; [apply _|by intros ? ? [? _]|apply create_minds| |apply lock_tx_minds].
  intros id from to Hf Ht. apply mindful_transition; congruence.
Qed.

Section Service.
Context {W : Type} `{!Others W}.
Context (T : Custody -> Custody -> Prop) `{!Serves T} (around : forall w d, T d (others w d).1).
Context (isSafeDestination : string -> Safety) (policy : RiskPolicy) (chain : string).
Context (valuation : option (string -> Z -> Z -> result (option Z))) (platformAddresses : list string).
Context (freshId : string) (at_ : Z).

Ltac service_step := step_moves around ltac:(solve_along).

Lemma commit_transition_known id from to p s w s' :
  commit (transition id from to p) s = (Ok (Some w), s') -> known w (db s').
Proof using T Serves0 around.
  intros [(a & d & Ha & E & HT)|(e & [=] & _)]%(commit_inv T around). simplify_eq.
  eapply known_kept; [by apply serves_terms|]. by eapply transition_known.
Qed.

Lemma unlocked_transition_moves id from to s :
  Withdrawal.holdsLock from = false -> Withdrawal.holdsLock to = false ->
  moves T (commit (transition id from to no_change)) s.
Proof using Serves0 around. intros Hf Ht. apply (moves_commit_along T around). by apply serves_move. Qed.

Lemma lock_or_reject_moves w s : known w (db s) -> moves T (lock_or_reject w) s.
Proof using Serves0 around.
  intros Hk. unfold lock_or_reject. apply (moves_catch T).
  - apply (moves_commit T around). intros a d. by apply serves_lock.
  - intros e s' _. apply (moves_bind T); [|intros; apply (moves_fails T)]. by apply unlocked_transition_moves.
Qed.

Lemma buildRiskInput_moves input s :
  moves T (buildRiskInput isSafeDestination policy chain valuation platformAddresses at_ input) s.
Proof using Serves0 around. unfold buildRiskInput. repeat service_step. Qed.

Lemma create_moves i s : moves T (commit (create freshId at_ i)) s.
Proof using Serves0 around. apply (moves_commit_along T around), serves_create. Qed.

Ltac service_moves :=
  repeat first
  [ apply create_moves | apply buildRiskInput_moves | apply unlocked_transition_moves; reflexivity
  | apply lock_or_reject_moves; eapply commit_transition_known; eassumption
  | service_step ].

Lemma request_moves input s :
  moves T (request isSafeDestination policy chain valuation platformAddresses freshId at_ input) s.
Proof using Serves0 around. unfold request. service_moves. Qed.

Lemma requestInternal_moves input s : moves T (requestInternal chain freshId at_ input) s.
Proof using Serves0 around. unfold requestInternal. service_moves. Qed.

Lemma approve_moves id s : moves T (approve_withdrawal id) s.
Proof using Serves0 around. unfold approve_withdrawal. service_moves. Qed.

Lemma reject_moves id s : moves T (reject_withdrawal id) s.
Proof using Serves0 around. unfold reject_withdrawal. service_moves. Qed.
End Service.

(** ** Trading *)

Definition same_locks (s s' : Store) : Prop :=
  forall t u a, credit_balance (lock_account t u a) s' = credit_balance (lock_account t u a) s.

Lemma about_orders_no_lock p t u a : about_locks p = false -> lock_delta p t u a = 0.
Proof. by destruct p. Qed.

Lemma post_same_locks p s u s' : about_locks p = false -> postLedger (post p) s = Ok (u, s') -> same_locks s s'.
Proof.
  intros Hp (x & Hx & -> & _)%postLedger_Ok t u0 a.
  rewrite credit_balance_app, (post_lock_net p x), about_orders_no_lock by done. lia.
Qed.

#[export] Instance footprint_locks : Footprint same_locks.
Proof.
  split; [|done..|].
  - split; [done|]. intros s1 s2 s3 H1 H2 t u a. by rewrite H2, H1.
  - intros p s u s' Hp. apply post_same_locks. by destruct p.
Qed.

(** The trading system, and the services that post what is no business of withdrawals. *)
Definition trading_step : Store -> Store -> Prop :=
  step_with (fun p => negb (about_orders p) && negb (about_locks p)).

#[export] Instance advanceOffset_same_locks name market key : Within same_locks (advanceOffset name market key).
Proof. intros s b s' H. unfold advanceOffset in H. inv_tx. by case_match. Qed.

Lemma commit_same_locks {A} (fn : tx A) s a s' :
  Within same_locks fn -> withTransaction fn s = Ok (a, s') -> same_locks s s'.
Proof. intros Hf (H & _)%withTransaction_Ok. by eapply Hf. Qed.

Lemma trading_step_same_locks s s' : trading_step s s' -> same_locks s s'.
Proof.
  intros [parse name market key event out H|cluster input r H|order from to rr r Hto H|id n r H|id from r Hf H|p u Hp H];
    (eapply commit_same_locks; [|exact H]).
  - unfold settle_event, consume. pose proof (apply_within same_locks market key event). solve_within.
  - unfold hold_tx, createPending, Gateway.trading_available. solve_within.
  - unfold finalize_tx, Store.findById. solve_within.
  - apply (within_transition same_locks).
  - apply (within_transition same_locks).
  - intros s1 v s2. apply andb_true_iff in Hp as [_ Hp%negb_true_iff]. by apply post_same_locks.
Qed.

(** Trading minds the withdrawals. *)
Lemma trading_minds s b : trading_step (books s) b -> minds nobody s (set_books b s).
Proof. intros H. apply minds_same; [done|]. simpl. by apply trading_step_same_locks. Qed.

(** ** The workers' transactions *)

Definition everybody (id : string) : Prop := True.

#[export] Instance mindful_recordSignature mine id sig : mine id -> Mindful mine (recordSignature id sig).
Proof.
  intros Hm s u s' H. unfold recordSignature in H. inv_ctx.
  match goal with H : update_withdrawal id _ ?f _ = _ |- _ => rename H into Hu; set (g := f) in * end.
  assert (Hsame : forall w, same_withdrawal w (g w)) by (by repeat split). split.
  - unfold update_withdrawal in Hu. inv_ctx. intros w Hw. eexists. split; [by apply list_elem_of_fmap_2|]. simpl.
    destruct (bool_decide _ && true); [apply Hsame|reflexivity].
  - intros X _ HX.
    destruct (update_withdrawal_Ok id _ g s _ _ (h_ids X s HX) (fun _ => eq_refl) Hu)
      as [(_ & -> & _)|(_ & w & Hw & <- & _ & Hok & ->)]; [by split|].
    destruct (holds_same_share X s w (g w)) as [HX' K]; try done.
    split; [done|]. intros y Hy Hh Hn. apply K; [done|]. intros E. apply Hn. by rewrite E.
Qed.

#[export] Instance mindful_claimNext status to chain :
  Withdrawal.holdsLock to = Withdrawal.holdsLock status -> Mindful everybody (claimNext status to chain).
Proof.
  intros Hh. unfold claimNext. apply along_bind; [apply _..|]. intros [w|]; [|apply _]. by apply mindful_transition.
Qed.

Lemma held_transition_minds id from to p :
  Withdrawal.holdsLock from = true -> Withdrawal.holdsLock to = true -> Mindful (eq id) (transition id from to p).
Proof. intros Hf Ht. apply mindful_transition; [congruence|done]. Qed.

(** Others keep what one has read of its own. *)
Lemma minds_row w X s s' : minds nobody s s' -> holds X s -> w ∈ withdrawals s -> held w = true ->
  holds X s' /\ w ∈ withdrawals s'.
Proof.
  intros [_ H] HX Hw Hh. destruct (H X) as [HX' K]; [by intros ? ? []|done|]. split; [done|]. apply K; try done. by intros [].
Qed.

(** A relation that assumes its own premise. *)
Lemma minds_assume mine s s' :
  terms_kept s s' -> (forall X, (forall x, x ∈ X -> ~ mine x) -> holds X s -> minds mine s s') -> minds mine s s'.
Proof. intros Ht H. split; [done|]. intros X Hm HX. destruct (H X Hm HX) as [_ K]. by apply K. Qed.

(** The lock of a row is gone from the ledger, and the row leaves its status after that. *)
Lemma holds_released X s b w :
  holds X s -> w ∈ withdrawals s -> held w = true -> wd_id w ∉ X ->
  (forall t u a, credit_balance (lock_account t u a) b = credit_balance (lock_account t u a) (books s) +
     at_lock (from_trading w) (wd_user w) (wd_asset w) (- wd_amount w) t u a) ->
  holds (X ∪ {[wd_id w]}) (set_books b s).
Proof.
  intros HX Hw Hh HnX Hb. pose proof HX as [Hnd Hr _ _].
  replace (set_books b s) with (set_books b (set_withdrawals (replace w (withdrawals s)) s))
    by (rewrite (replace_self w) by done; by destruct s).
  rewrite Forall_forall in Hr. apply (holds_replace X _ s b w w); try done; [by apply Hr| |set_solver].
  intros t u a. rewrite Hb. f_equal. unfold share. rewrite Hh, (bool_decide_eq_true_2 (wd_id w ∈ _)) by set_solver.
  rewrite bool_decide_eq_false_2 by done. simpl. unfold at_lock. destruct (_ && _); lia.
Qed.

Lemma holds_finished X s w to p :
  holds (X ∪ {[wd_id w]}) s -> w ∈ withdrawals s -> wd_id w ∉ X -> Withdrawal.holdsLock to = false ->
  withdrawal_row_ok (patch_withdrawal to p w) = true ->
  holds X (set_withdrawals (replace (patch_withdrawal to p w) (withdrawals s)) s).
Proof.
  intros HX Hw HnX Hto Hok. rewrite <- (set_books_same s) at 2.
  apply (holds_replace (X ∪ {[wd_id w]}) X s (books s) w); try done.
  - intros t u a. rewrite not_held_share by done. unfold share.
    rewrite (bool_decide_eq_true_2 (wd_id w ∈ _)) by set_solver. rewrite andb_false_r. lia.
  - set_solver.
Qed.
Lemma on_books_terms {A} (m : tx A) s a s' : on_books m s = Ok (a, s') -> terms_kept s s'.
Proof. unfold on_books. destruct (m (books s)) as [[b st]|]; [|done]. intros [= _ <-] w Hw. by exists w. Qed.

Lemma holds_nonces X ns s : holds X s -> holds X (set_nonces ns s).
Proof. intros [? ? ? ?]. by split. Qed.

Lemma release_posting w :
  postLedger ((if from_trading w then postTradingRelease else postWithdrawalRelease) (lock_of w)) =
  postLedger (post (if from_trading w then PTradingRelease (lock_of w) else PWithdrawalRelease (lock_of w))).
Proof. by destruct (from_trading w). Qed.

Lemma release_posting_delta w t u a :
  lock_delta (if from_trading w then PTradingRelease (lock_of w) else PWithdrawalRelease (lock_of w)) t u a =
  at_lock (from_trading w) (wd_user w) (wd_asset w) (- wd_amount w) t u a.
Proof. by destruct (from_trading w). Qed.

(** What [settle] posts, by the purpose of the withdrawal. *)
Lemma settlement_posting_delta assets w fee :
  exists p, settlement_posting assets w fee = post p /\ forall t u a,
    lock_delta p t u a = at_lock (from_trading w) (wd_user w) (wd_asset w) (- wd_amount w) t u a.
Proof.
  unfold settlement_posting, from_trading. destruct (wd_purpose w).
  - by eexists (PWithdrawalSettlement _).
  - by eexists (PAllocation _).
  - by eexists (PDeallocation _).
Qed.

Lemma settle_tx_terms assets at_ w fee s u s' : settle_tx assets at_ w fee s = Ok (u, s') -> terms_kept s s'.
Proof.
  unfold settle_tx, release, update_nonces. intros H.
  apply ctx_bind_Ok in H as (? & ? & Hb%on_books_terms & H). apply ctx_bind_Ok in H as (? & ? & Ht%transition_terms & H).
  inv_ctx. by etrans.
Qed.

Lemma settle_tx_minds assets at_ w fee s u s' :
  w ∈ withdrawals s -> wd_status w = Withdrawal.CONFIRMED -> settle_tx assets at_ w fee s = Ok (u, s') ->
  minds (eq (wd_id w)) s s'.
Proof.
  intros Hw Hst H. unfold settle_tx, release, update_nonces in H.
  destruct (settlement_posting_delta assets w fee) as (p & Ep & Hp). rewrite Ep in H.
  apply ctx_bind_Ok in H as (? & ? & (b & -> & Hb)%on_books_post & H). setoid_rewrite Hp in Hb.
  apply ctx_bind_Ok in H as (r & s1 & Ht & H). inv_ctx.
  split; [apply transition_terms in Ht; exact Ht|]. intros X Hd HX.
  assert (HnX : wd_id w ∉ X) by (intros Hin; by apply (Hd (wd_id w))).
  assert (Hheld : held w = true) by (unfold held; by rewrite Hst).
  assert (HX1 := holds_released X s b w HX Hw Hheld HnX Hb).
  apply transition_withdrawal in Ht as [_ [(_ & _ & Hno)|(y & Hy & Hid & _ & _ & Hok & ->)]]; [by destruct (Hno w)| |apply HX].
  rewrite (unique_row _ w y (h_ids X s HX) Hw Hy Hid) in *. split.
  - by apply holds_nonces, (holds_finished X (set_books b s)).
  - intros z Hz _ Hne. apply (replace_elem w); [apply HX|done..|]. right. split; [done|congruence].
Qed.

Section Workers.
Context {W : Type} `{!Chain W}.
Context (around : forall w d, minds nobody d (others w d).1).
Context (isPublicKey : string -> bool) (maxRetries : nat) (chain treasuryAddress keyRefId : string) (segregated : bool).
Context (clearing : option (string * string)) (budgets : RetryBudgets) (batchSize : nat).
Context (assets : AssetRegistry) (at_ : Z).

Lemma around_weaken mine w d : minds mine d (others w d).1.
Proof using around. eapply minds_weaken; [|apply around]. by intros. Qed.

Ltac worker_moves mine :=
  repeat
  step_moves (around_weaken mine)
    ltac:(first [by apply mindful_transition | by apply mindful_claimNext | by apply mindful_recordSignature | solve_along]).

Lemma sign_rounds_moves mine w m rs s : moves (minds mine) (sign_rounds w m rs) s.
Proof using around.
  revert s. induction rs as [|r rs IH]; intros s; cbn [sign_rounds]; [worker_moves mine|].
  unfold findByRequestId. worker_moves mine; apply IH.
Qed.

(** What is done with a claimed row touches no other. *)
Lemma sign_claimed_moves w s :
  moves (minds (eq (wd_id w)))
    (catch (sign_claimed isPublicKey maxRetries chain treasuryAddress keyRefId segregated clearing assets w) (fun _ =>
       _ ← commit (failForWithdrawal (wd_id w));
       _ ← commit (transition (wd_id w) Withdrawal.SIGNING Withdrawal.SIGN_FAILED (increment edge_sign));
       mret tt)) s.
Proof using around.
  unfold sign_claimed, source_of, buildTokenWithdrawal, failForWithdrawal, succeed.
  worker_moves (eq (wd_id w)); apply sign_rounds_moves.
Qed.

Lemma send_claimed_moves w s :
  moves (minds (eq (wd_id w)))
    (match wd_signedTransaction w with
     | None => _ ← fail_broadcast w; mret true
     | Some signed =>
         outcome ← call (broadcast maxRetries signed);
         _ ← match outcome with
             | submitted signature => commit (recordSignature (wd_id w) signature)
             | nonce_advanced => expire w
             | broadcast_rejected _ => fail_broadcast w
             end;
         mret true
     end) s.
Proof using around. unfold fail_broadcast, expire. worker_moves (eq (wd_id w)). Qed.

Lemma claim_moves status to s :
  Withdrawal.holdsLock to = Withdrawal.holdsLock status -> moves (minds everybody) (commit (claimNext status to chain)) s.
Proof using around. intros Hh. worker_moves everybody. Qed.

Lemma everybody_moves {A} mine (m : job W A) s : moves (minds mine) m s -> moves (minds everybody) m s.
Proof using. by apply minds_weaken. Qed.

Lemma signOne_moves s :
  moves (minds everybody) (signOne isPublicKey maxRetries chain treasuryAddress keyRefId segregated clearing assets) s.
Proof using around.
  unfold signOne. apply (moves_bind _); [by apply claim_moves|]. intros [w|] s1 _; [|apply (moves_ret _)].
  apply (moves_bind _); [eapply everybody_moves, sign_claimed_moves|]. intros. apply (moves_ret _).
Qed.

Lemma broadcastOne_moves s : moves (minds everybody) (broadcastOne maxRetries chain) s.
Proof using around.
  unfold broadcastOne. apply (moves_bind _); [by apply claim_moves|]. intros [w|] s1 _; [|apply (moves_ret _)].
  eapply everybody_moves, send_claimed_moves.
Qed.

(** ** Giving up and settling *)

Lemma commit_Ok {A} (m : ctx A) s a d :
  m (db s) = Ok (a, d) -> ledger (books d) = ledger (books (db s)) ->
  exists s', commit m s = (Ok a, s') /\ minds nobody d (db s').
Proof using around.
  intros H Hl. unfold commit. rewrite (atomically_same m (db s) a d) by done. eexists. split; [done|].
  exact (moves_yield (minds nobody) around (mkProc d (world s))).
Qed.


Lemma terms_own s s' : minds nobody s s' -> terms_kept s s'.
Proof using. by intros [H _]. Qed.

Lemma terms_around w d : terms_kept d (others w d).1.
Proof using around. apply terms_own, around. Qed.

Ltac terms_moves :=
  repeat step_moves terms_around
    ltac:(first [solve_along | intros ? ? ?; first
      [ by eapply transition_terms | by eapply on_books_terms | by eapply settle_tx_terms ]]).

Lemma release_tx_Ok w s u d :
  release_tx w s = Ok (u, d) -> exists b, d = set_books b s /\ forall t u a,
    credit_balance (lock_account t u a) b = credit_balance (lock_account t u a) (books s) +
      at_lock (from_trading w) (wd_user w) (wd_asset w) (- wd_amount w) t u a.
Proof using.
  unfold release_tx. rewrite release_posting. intros (b & -> & Hb)%on_books_post. exists b. split; [done|].
  intros t u0 a. rewrite Hb. by rewrite release_posting_delta.
Qed.

Lemma commit_hit to p s w X :
  holds X (db s) -> w ∈ withdrawals (db s) -> Withdrawal.canTransition (wd_status w) to = true ->
  wp_signed p = None -> wp_networkFee p = None ->
  let w' := patch_withdrawal to p w in
  exists s', commit (transition (wd_id w) (wd_status w) to p) s = (Ok (Some w'), s') /\
    withdrawal_row_ok w' = true /\ minds nobody (set_withdrawals (replace w' (withdrawals (db s))) (db s)) (db s').
Proof using around.
  intros [Hnd Hr _ _] Hw Hc Hp Hf w'. rewrite Forall_forall in Hr.
  assert (Hok : withdrawal_row_ok w' = true) by (apply patch_row_ok; [done|by apply Hr]).
  destruct (commit_Ok _ s _ _ (transition_hit to p (db s) w Hnd Hw Hc Hp Hok) eq_refl) as (s' & E & H). by exists s'.
Qed.

Lemma giveUp_moves w from reason s :
  w ∈ withdrawals (db s) -> held w = true -> from = wd_status w -> Withdrawal.canTransition from Withdrawal.FAILED = true ->
  moves (minds (eq (wd_id w))) (giveUp w from reason) s.
Proof using around.
  intros Hw Hh -> Hc. split; [unfold giveUp, releaseLock, release_tx; terms_moves|]. intros X Hd HX.
  assert (HnX : wd_id w ∉ X) by (intros Hin; by apply (Hd (wd_id w))).
  unfold giveUp, releaseLock, mbind, job_bind.
  destruct (commit (release_tx w) s) as [r s1] eqn:E1.
  apply (commit_inv (minds nobody) around) in E1 as [(u & d & -> & E1 & H1)|(e & -> & H1)].
  - apply release_tx_Ok in E1 as (b & -> & Hb).
    destruct (commit_Ok (release (wd_id w)) s1 tt _ eq_refl eq_refl) as (s2 & -> & H2).
    assert (HX1 : holds (X ∪ {[wd_id w]}) (set_books b (db s))) by by apply holds_released.
    assert (Hkept : forall x, x ∈ withdrawals (db s) -> held x = true ->
              holds (X ∪ {[wd_id w]}) (db s2) /\ x ∈ withdrawals (db s2)).
    { intros x Hx Hhx. destruct (minds_row x _ _ _ H1 HX1 Hx Hhx) as [HXs1 Hx1].
      apply (minds_row x _ _ _ H2); [by apply holds_nonces|done..]. }
    destruct (Hkept w Hw Hh) as [HX2 Hw2].
    destruct (commit_hit Withdrawal.FAILED (mkWithdrawalPatch None None None (Some reason) None) s2 w (X ∪ {[wd_id w]}))
      as (s3 & -> & Hok & H3); try done. simpl.
    assert (HX3 := holds_finished X (db s2) w Withdrawal.FAILED _ HX2 Hw2 HnX eq_refl Hok).
    destruct H3 as [_ H3]. destruct (H3 X) as [HX4 K]; [by intros ? ? []|done|]. split; [done|].
    intros x Hx Hhx Hne. destruct (Hkept x Hx Hhx) as [_ Hx2]. apply K; [|done|by intros []].
    apply (replace_elem w); [apply HX2|done..|]. right. split; [done|]. congruence.
  - destruct H1 as [_ H1]. destruct (H1 X) as [HX1 K]; [by intros ? ? []|done|]. split; [done|].
    intros x Hx Hhx _. apply K; [done..|by intros []].
Qed.

Lemma settle_moves w fee s :
  w ∈ withdrawals (db s) -> wd_status w = Withdrawal.CONFIRMED ->
  moves (minds (eq (wd_id w))) (settle assets at_ w fee) s.
Proof using around.
  intros Hw Hst. apply (moves_commit (minds (eq (wd_id w))) (around_weaken _)). intros u d. by apply settle_tx_minds.
Qed.

Ltac own_moves w := worker_moves (eq (wd_id w)).

Lemma expire_moves w s : moves (minds (eq (wd_id w))) (expire w) s.
Proof using around. unfold expire. own_moves w. Qed.

Lemma fail_broadcast_moves w s : moves (minds (eq (wd_id w))) (fail_broadcast w) s.
Proof using around. unfold fail_broadcast. own_moves w. Qed.

Lemma resolveAmbiguity_moves w s : moves (minds (eq (wd_id w))) (resolveAmbiguity maxRetries w) s.
Proof using around. unfold resolveAmbiguity, nonceById, expire. own_moves w. Qed.

(** What a transition leaves in the table, the others having acted. *)
Lemma confirmed_row id from to p s w s' X :
  Withdrawal.holdsLock from = true -> Withdrawal.holdsLock to = true -> id ∉ X -> holds X (db s) ->
  commit (transition id from to p) s = (Ok (Some w), s') ->
  wd_id w = id /\ wd_status w = to /\ holds X (db s') /\ w ∈ withdrawals (db s').
Proof using around.
  intros Hf Ht HnX HX [(a & d & [= <-] & E & H)|(e & [=] & _)]%(commit_inv (minds nobody) around).
  pose proof (held_transition_minds id from to p Hf Ht _ _ _ E) as [_ Hm].
  destruct (Hm X) as [HXd _]; [by intros x Hx ->|done|].
  apply transition_withdrawal in E as [_ [([=] & _)|(y & Hy & <- & _ & [= ->] & _ & ->)]]; [|apply HX].
  split; [done|]. split; [done|]. apply (minds_row _ _ _ _ H HXd); [|done].
  apply (replace_elem y); [apply HX|done..|by left].
Qed.

Lemma confirmOne_moves w s :
  moves (minds (eq (wd_id w))) (confirmOne maxRetries assets at_ w) s.
Proof using around.
  apply minds_assume; [unfold confirmOne, resolveAmbiguity, nonceById, expire, fail_broadcast, settle; terms_moves|].
  intros X Hd HX. assert (HnX : wd_id w ∉ X) by (intros Hin; by apply (Hd (wd_id w))).
  change (moves (minds (eq (wd_id w))) (confirmOne maxRetries assets at_ w) s).
  unfold confirmOne. case_match; [apply resolveAmbiguity_moves|].
  assert (Hcall : forall A (f : W -> result A * W) s r s', holds X (db s) -> call_result f s = (r, s') ->
            minds nobody (db s) (db s')).
  { intros A f s0 r s' _ E. pose proof (moves_call_result (minds nobody) around f s0) as Hm. unfold moves in Hm.
    by rewrite E in Hm. }
  apply (moves_bind _); [apply (moves_call_result _ (around_weaken _))|]. intros status s1 E1.
  destruct (Hcall _ _ _ _ _ HX E1) as [_ H1]. destruct (H1 X) as [HX1 _]; [by intros ? ? []|done|].
  destruct status; [|apply resolveAmbiguity_moves|apply fail_broadcast_moves].
  apply (moves_bind _); [own_moves w|]. intros [c|] s2 E2; [|apply (moves_ret _)].
  apply (confirmed_row _ _ _ _ _ _ _ X) in E2 as (Hid & Hst & HX2 & Hc); try done.
  apply (moves_bind _); [apply (moves_call_result _ (around_weaken _))|]. intros fee s3 E3.
  assert (Hheld : held c = true) by (unfold held; by rewrite Hst).
  destruct (minds_row c X _ _ (Hcall _ _ _ _ _ HX2 E3) HX2 Hc Hheld) as [_ Hc3].
  rewrite <- Hid. by apply settle_moves.
Qed.

Lemma retryOne_moves edge w s :
  w ∈ withdrawals (db s) -> wd_status w = edge_status edge ->
  moves (minds (eq (wd_id w))) (retryOne budgets edge w) s.
Proof using around.
  intros Hw Hst. unfold retryOne. case_match.
  - apply giveUp_moves; [done| |done|]; unfold held; rewrite ?Hst; by destruct edge.
  - destruct edge; unfold bool_decide; own_moves w.
Qed.

(** ** The cycles *)

Lemma moves_bind_holds {A B} mine (m : job W A) (k : A -> job W B) s :
  holds ∅ (db s) -> moves (minds mine) m s ->
  (forall a s', m s = (Ok a, s') -> holds ∅ (db s') -> moves (minds mine) (k a) s') ->
  moves (minds mine) (m ≫= k) s.
Proof using.
  intros H0 Hm Hk. apply (moves_bind _); [done|]. intros a s' E. apply Hk; [done|].
  destruct Hm as [_ Hm]. rewrite E in Hm. by apply (Hm ∅).
Qed.

(** A pass over rows read together touches each of them as it was read. *)
Lemma for_all_own (f : WithdrawalRecord -> job W unit) xs s :
  (forall x s, x ∈ xs -> x ∈ withdrawals (db s) -> moves (minds (eq (wd_id x))) (f x) s) ->
  NoDup (wd_id <$> xs) -> (forall x, x ∈ xs -> x ∈ withdrawals (db s) /\ held x = true) -> holds ∅ (db s) ->
  moves (minds (fun id => id ∈ wd_id <$> xs)) (for_all xs f) s.
Proof using.
  revert s. induction xs as [|x xs IH]; intros s Hf; cbn [for_all]; [intros; apply (moves_ret _)|].
  rewrite fmap_cons. intros [Hni Hnd]%NoDup_cons Hxs H0.
  assert (Hx : moves (minds (eq (wd_id x))) (f x) s) by (apply Hf; [left|apply Hxs; left]).
  apply moves_bind_holds; [done|eapply minds_weaken; [|exact Hx]; intros ? <-; by left|]. intros [] s' E H0'.
  eapply minds_weaken; [|apply IH]; try done; [intros id; by right|intros y s0 Hy; apply Hf; by right|]. intros y Hy.
  destruct (Hxs y) as [Hin Hh]; [by right|]. split; [|done].
  destruct Hx as [_ Hx]. rewrite E in Hx. destruct (Hx ∅) as [_ K]; [by intros|done|]. apply K; [done..|].
  intros Heq. apply Hni. rewrite Heq. by apply list_elem_of_fmap_2.
Qed.

Lemma listed_rows status limit s xs s' :
  Withdrawal.holdsLock status = true -> holds ∅ (db s) -> commit (listByStatus status limit chain) s = (Ok xs, s') ->
  NoDup (wd_id <$> xs) /\ holds ∅ (db s') /\
  forall x, x ∈ xs -> wd_status x = status /\ x ∈ withdrawals (db s') /\ held x = true.
Proof using around.
  intros Hst H0 [(a & d & [= <-] & E & H)|(e & [=] & _)]%(commit_inv (minds nobody) around).
  unfold listByStatus in E. inv_ctx.
  assert (Hsub : take limit (on_chain status chain (db s)) `sublist_of` withdrawals (db s)).
  { etrans; [apply sublist_take|]. apply sublist_filter. }
  split; [eapply sublist_NoDup; [apply (h_ids _ _ H0)|by apply fmap_sublist]|].
  destruct H as [_ H]. destruct (H ∅) as [H0' K]; [by intros|done|]. split; [done|]. intros x Hx.
  assert (Hs : wd_status x = status).
  { apply (elem_of_sublist _ (on_chain status chain (db s))) in Hx; [|apply sublist_take].
    by apply list_elem_of_filter in Hx as [[? _] _]. }
  split; [done|]. assert (Hh : held x = true) by (unfold held; by rewrite Hs). split; [|done].
  apply K; [by eapply elem_of_sublist|done|by intros []].
Qed.

(** One pass over the rows in a status that holds a lock. *)
Lemma pass_moves status limit f s :
  Withdrawal.holdsLock status = true -> holds ∅ (db s) ->
  (forall x s, wd_status x = status -> x ∈ withdrawals (db s) -> moves (minds (eq (wd_id x))) (f x) s) ->
  moves (minds everybody) (xs ← commit (listByStatus status limit chain); for_all xs f) s.
Proof using around.
  intros Hst H0 Hf. apply moves_bind_holds; [done|unfold listByStatus; worker_moves everybody|]. intros xs s' E _.
  apply listed_rows in E as (Hnd & H0' & Hxs); [|done..].
  eapply everybody_moves, for_all_own; [|done| |done].
  - intros x s1 Hx. apply Hf. by apply Hxs.
  - intros x Hx. by apply Hxs.
Qed.

Lemma processRetries_moves s :
  holds ∅ (db s) -> moves (minds everybody) (processRetries chain budgets batchSize) s.
Proof using around.
  intros H0. unfold processRetries. cbn [for_all].
  do 3 (apply moves_bind_holds;
    [done|apply pass_moves; [done|done|intros x s0 Hx Hin; by apply retryOne_moves]|intros [] ? _ ?]).
  apply (moves_ret _).
Qed.

Lemma runConfirmationCycle_moves s :
  holds ∅ (db s) -> moves (minds everybody) (runConfirmationCycle maxRetries chain batchSize assets at_) s.
Proof using around.
  intros H0. unfold runConfirmationCycle. apply moves_bind_holds; [done|unfold listByStatus; worker_moves everybody|].
  intros xs s' E _. apply listed_rows in E as (Hnd & H0' & Hxs); [|done..].
  apply moves_bind_holds; [done| |intros; apply (moves_ret _)].
  eapply everybody_moves, for_all_own; [intros; apply confirmOne_moves|done|intros x Hx; by apply Hxs|done].
Qed.

Lemma runAllCycles_moves s :
  holds ∅ (db s) ->
  moves (minds everybody)
    (runAllCycles isPublicKey maxRetries chain treasuryAddress keyRefId segregated clearing budgets batchSize assets at_) s.
Proof using around.
  intros H0. unfold runAllCycles, runSigningCycle, runBroadcastCycle.
  apply moves_bind_holds; [done| |intros n1 s1 _ H1].
  { apply moves_bind_holds; [done|by apply processRetries_moves|]. intros [] s1 _ H1.
    apply (moves_up_to _). intros s2. apply signOne_moves. }
  apply moves_bind_holds; [done|apply (moves_up_to _); intros; apply broadcastOne_moves|]. intros n2 s2 _ H2.
  apply moves_bind_holds; [done|by apply runConfirmationCycle_moves|]. intros n3 s3 _ _. apply (moves_ret _).
Qed.
End Workers.

(** ** Properties *)

(** C10: the withdrawal service keeps the locks. Beside actors that mind the withdrawals, if for
    every user and asset what each tier has locked is the sum of the withdrawals that hold
    a lock in it, then this is still so after any request, internal request, approval or
    rejection, whatever it returned or threw and at whichever of its commits the others
    came in between; and no withdrawal that holds a lock was changed. *)
Theorem service_keeps_locks {W} `{!Others W} isSafeDestination policy chain valuation platformAddresses freshId at_
  input internal id (s : Proc W) :
  (forall w d, minds nobody d (others w d).1) -> holds ∅ (db s) ->
  let kept s' := holds ∅ (db s') /\
    forall w, w ∈ withdrawals (db s) -> held w = true -> w ∈ withdrawals (db s') in
  kept (request isSafeDestination policy chain valuation platformAddresses freshId at_ input s).2 /\
  kept (requestInternal chain freshId at_ internal s).2 /\
  kept (approve_withdrawal id s).2 /\ kept (reject_withdrawal id s).2.
Proof.
  intros Ha H0 kept.
  assert (Hk : forall s' : Proc W, minds nobody (db s) (db s') -> kept s').
  { intros s' [_ H]. destruct (H ∅) as [H0' K]; [by intros|done|]. split; [done|]. intros w Hw Hh.
    apply K; [done..|by intros []]. }
  split; [|split; [|split]]; apply Hk.
  - by apply (request_moves (minds nobody)).
  - by apply (requestInternal_moves (minds nobody)).
  - by apply (approve_moves (minds nobody)).
  - by apply (reject_moves (minds nobody)).
Qed.

(** C9: the workers keep the locks. Beside actors that mind the withdrawals, if for every user
    and asset what each tier has locked is the sum of the withdrawals that hold a lock in
    it, then this is still so after a full pass of the workers, with its retries,
    give-ups, signings, broadcasts and settlements, whatever the chain, the signer and
    the key directory answered, and whether the pass ended or threw; and no withdrawal
    vanished or had its terms changed. *)
Theorem workers_keep_locks {W} `{!Chain W} isPublicKey maxRetries chain treasuryAddress keyRefId segregated clearing
  budgets batchSize assets at_ (s : Proc W) :
  (forall w d, minds nobody d (others w d).1) -> holds ∅ (db s) ->
  let s' := (runAllCycles isPublicKey maxRetries chain treasuryAddress keyRefId segregated clearing budgets batchSize
               assets at_ s).2 in
  holds ∅ (db s') /\
  forall w, w ∈ withdrawals (db s) -> exists w', w' ∈ withdrawals (db s') /\ same_withdrawal w w'.
Proof.
  intros Ha H0 s'.
  pose proof (runAllCycles_moves Ha isPublicKey maxRetries chain treasuryAddress keyRefId segregated clearing
                budgets batchSize assets at_ s H0) as [Ht H].
  split; [|exact Ht]. by apply (H ∅).
Qed.
