(* ===== verification/Payments.v ===== *)
(** * Payments: what is signed is what was asked for

    Proofs about the signing of withdrawals ([Withdrawals], [WithdrawalWorkers]): a signed
    transaction kept on a withdrawal pays its amount to its destination, from the source
    its purpose calls for, on the nonce it records. No code is modelled here. *)

From S2P Require Import Prelude Decimal Risk Assets Ledger Postings States Store Custody Withdrawals.
From S2P Require Import Broadcaster WithdrawalWorkers Locks Escrow.
From Stdlib Require Import ZArith Lia.
From stdpp Require Import base list strings gmap relations.

Open Scope string_scope.
Open Scope list_scope.
Open Scope Z_scope.

Section Payments.
Context (treasuryAddress : string) (segregated : bool) (clearing : option (string * string)) (assets : AssetRegistry).

(** The source a purpose calls for; a segregated user's address is the directory's answer. *)
Definition pays_from (w : WithdrawalRecord) (source : string) : Prop :=
  if bool_decide (wd_purpose w = deallocation) then exists key, clearing = Some (source, key)
  else segregated = true \/ source = treasuryAddress.

(** The message that pays a withdrawal on a nonce. *)
Definition pays (w : WithdrawalRecord) (nonce : string) (m : Message) : Prop :=
  match m with
  | native_transfer from feePayer to lamports _ authority nonce' =>
      isToken assets (wd_asset w) = false /\ to = wd_destination w /\ lamports = wd_amount w /\ pays_from w from /\
      feePayer = treasuryAddress /\ authority = treasuryAddress /\ nonce' = nonce
  | token_transfer owner feePayer to mint n _ _ authority nonce' =>
      isToken assets (wd_asset w) = true /\ to = wd_destination w /\ n = wd_amount w /\ pays_from w owner /\
      feePayer = treasuryAddress /\ authority = treasuryAddress /\ nonce' = nonce /\
      exists c, parseLedgerAssetKey (wd_asset w) = Ok (c, mint)
  end.

Definition signed_right (w : WithdrawalRecord) : Prop :=
  forall signed, wd_signedTransaction w = Some signed ->
  exists nonce, wd_nonceValue w = Some nonce /\ pays w nonce (sg_message signed).

Record all_right (s : Custody) : Prop := {
  r_ids : NoDup (wd_id <$> withdrawals s);
  r_rows w : w ∈ withdrawals s -> signed_right w
}.

Definition keeps_right (s s' : Custody) : Prop := terms_kept s s' /\ (all_right s -> all_right s').

#[export] Instance keeps_right_preorder : PreOrder keeps_right.
Proof. split; [by split|]. intros s1 s2 s3 [? ?] [? ?]. split; [by etrans|auto]. Qed.

Lemma keeps_right_same s s' : withdrawals s' = withdrawals s -> keeps_right s s'.
Proof.
  intros E. split; [intros w Hw; exists w; by rewrite E|]. intros [Hnd Hr]. split; by rewrite E.
Qed.

#[export] Instance keeps_right_watch : Watch keeps_right.
Proof. split; [apply _|]. intros s s' Hw _. by apply keeps_right_same. Qed.

Lemma pays_terms w w' nonce m : same_withdrawal w w' -> pays w nonce m -> pays w' nonce m.
Proof.
  intros (_ & _ & Ha & Hn & Hp & Hd). unfold pays, pays_from. destruct m; by rewrite Ha, Hn, Hp, Hd.
Qed.

Lemma right_replace s w w' :
  all_right s -> w ∈ withdrawals s -> wd_id w' = wd_id w -> signed_right w' ->
  all_right (set_withdrawals (replace w' (withdrawals s)) s).
Proof.
  intros [Hnd Hr] Hw Hid Hs. split; simpl; [by rewrite replace_ids|].
  intros x [->|[Hx _]]%(replace_elem w); [done|by apply Hr|done..].
Qed.

(** A transition is right when the row it writes is. *)
Lemma transition_right id from to p s r s' :
  (all_right s -> forall y, y ∈ withdrawals s -> wd_id y = id -> signed_right (patch_withdrawal to p y)) ->
  transition id from to p s = Ok (r, s') -> keeps_right s s'.
Proof.
  intros Hp H. split; [by eapply transition_terms|]. intros Hs.
  apply transition_withdrawal in H as [_ [(_ & -> & _)|(w & Hw & Hid & _ & _ & _ & ->)]]; [done| |apply Hs].
  apply (right_replace s w); auto.
Qed.

#[export] Instance transition_along_right id from to p : wp_signed p = None -> Along keeps_right (transition id from to p).
Proof.
  intros Hp s r s'. apply transition_right. intros [_ Hr] y Hy _ signed. simpl. rewrite Hp. simpl.
  intros Hsg. destruct (Hr y Hy signed Hsg) as (nonce & Hn & Hm). by exists nonce.
Qed.

Lemma on_books_right {A} (m : tx A) : Along keeps_right (on_books m).
Proof.
  intros s a s'. unfold on_books. destruct (m (books s)) as [[b st]|]; [|done]. intros [= _ <-].
  by apply keeps_right_same.
Qed.

#[export] Instance recordSignature_right id sig : Along keeps_right (recordSignature id sig).
Proof.
  intros s u s' H. destruct (mindful_recordSignature everybody id sig I s u s' H) as [Ht _]. split; [done|]. intros Hs.
  unfold recordSignature in H. inv_ctx.
  match goal with H : update_withdrawal id _ ?f _ = _ |- _ => rename H into Hu; set (g := f) in * end.
  destruct (update_withdrawal_Ok id _ g s _ _ (r_ids s Hs) (fun _ => eq_refl) Hu)
    as [(_ & -> & _)|(_ & w & Hw & <- & _ & _ & ->)]; [done|].
  apply (right_replace s w); try done. intros signed Hsg. by apply (r_rows s Hs w).
Qed.

#[export] Instance claimNext_right status to chain : Along keeps_right (claimNext status to chain).
Proof.
  unfold claimNext. apply along_bind; [apply _..|]. intros [w|]; [|apply _]. by apply transition_along_right.
Qed.

Lemma create_right id at_ i : Along keeps_right (create id at_ i).
Proof.
  intros s r s' H. destruct (create_minds id at_ i s r s' H) as [Ht Hm]. split; [done|]. intros [Hnd Hr].
  unfold create, findByIdempotencyKey, findById in H. inv_ctx. zbool.
  match goal with H : match ?o with Some _ => _ | None => _ end _ = _ |- _ => destruct o; inv_ctx end; [done|].
  zbool. match goal with H : ~ is_Some _ |- _ => rename H into Hno end. split; simpl.
  - rewrite fmap_app. apply NoDup_app. split; [done|]. split; [|apply NoDup_singleton].
    intros y (w & -> & Hw)%list_elem_of_fmap Hin. apply list_elem_of_singleton in Hin. simpl in Hin.
    apply Hno. destruct (head _) eqn:E; [by eexists|]. by apply (head_filter_absent _ _ w) in E.
  - intros w [Hw|Hw%list_elem_of_singleton]%elem_of_app; [by apply Hr|]. by subst w.
Qed.

#[export] Instance right_serves : Serves keeps_right.
Proof.
  split; [apply _|by intros ? ? [? _]|apply create_right| |].
  - intros id from to _ _. by apply transition_along_right.
  - intros w s r s' _. unfold lock_tx, trading_available, custody_available.
    assert (Along keeps_right (on_books (postLedger ((if from_trading w then postTradingLock else postWithdrawalLock)
              (lock_of w))))) by apply on_books_right.
    assert (Along keeps_right (transition (wd_id w) Withdrawal.APPROVED Withdrawal.FUNDS_LOCKED no_change))
      by by apply transition_along_right.
    match goal with |- ?m s = _ -> _ => assert (Hm : Along keeps_right m); [|by apply Hm] end.
    apply along_bind; [apply _|case_match; solve_along|]. intros n. repeat (apply along_bind; [apply _..|intros ?]).
    case_match; solve_along.
Qed.

(** ** Signing *)

Section Signing.
Context {W : Type} `{!Chain W} (around : forall w d, keeps_right d (others w d).1).
Context (isPublicKey : string -> bool) (maxRetries : nat) (chain keyRefId : string).
Context (budgets : RetryBudgets) (batchSize : nat) (at_ : Z).

Lemma of_result_Ok {A} (r : result A) (s : Proc W) a s' : of_result r s = (Ok a, s') -> r = Ok a /\ s' = s.
Proof using. by intros [= -> ->]. Qed.

Lemma source_pays w s source s' :
  source_of treasuryAddress keyRefId segregated clearing w s = (Ok source, s') -> pays_from w source.1.
Proof using.
  unfold source_of, pays_from. destruct (bool_decide (wd_purpose w = deallocation)).
  - destruct clearing as [[a k]|]; [|done]. intros [= <- _]. by eexists.
  - destruct segregated; [by left|]. intros [= <- _]. by right.
Qed.

Lemma native_pays w source account nonce unsigned :
  isToken assets (wd_asset w) = false -> pays_from w source ->
  buildWithdrawalTransaction isPublicKey source treasuryAddress (wd_destination w) (wd_amount w) account
    treasuryAddress nonce = Ok unsigned -> pays w nonce (message unsigned).
Proof using.
  intros Ht Hs H. unfold buildWithdrawalTransaction in H. inv_ok. by simpl.
Qed.

Lemma token_pays w source account nonce s unsigned s' :
  isToken assets (wd_asset w) = true -> pays_from w source ->
  buildTokenWithdrawal isPublicKey maxRetries treasuryAddress w source account nonce s = (Ok unsigned, s') ->
  pays w nonce (message unsigned).
Proof using.
  intros Ht Hs H. unfold buildTokenWithdrawal in H.
  apply job_bind_Ok in H as ([c mint] & s1 & [Hk ->]%of_result_Ok & H).
  apply job_bind_Ok in H as (? & s2 & _ & H). apply job_bind_Ok in H as (b & s3 & _ & [H ->]%of_result_Ok).
  unfold buildTokenTransferTransaction in H. inv_ok. simpl. repeat split; try done. by exists c.
Qed.

Lemma attach_message unsigned sigs signed : attachSignatures unsigned sigs = Ok signed -> sg_message signed = message unsigned.
Proof using. unfold attachSignatures. intros H. by inv_ok. Qed.

Lemma moves_bind_known {A B} w (m : job W A) (k : A -> job W B) s :
  known w (db s) -> moves keeps_right m s ->
  (forall a s', m s = (Ok a, s') -> known w (db s') -> moves keeps_right (k a) s') -> moves keeps_right (m ≫= k) s.
Proof using.
  intros Hk Hm Hn. apply (moves_bind _); [done|]. intros a s' E. apply Hn; [done|].
  unfold moves in Hm. rewrite E in Hm. by eapply known_kept; [apply Hm|].
Qed.

Ltac right_moves := repeat step_moves around ltac:(first [by apply transition_along_right | solve_along]).

Lemma sign_rounds_right w m rs s : moves keeps_right (sign_rounds w m rs) s.
Proof using around.
  revert s. induction rs as [|r rs IH]; intros s; cbn [sign_rounds]; [right_moves|].
  unfold findByRequestId. right_moves; apply IH.
Qed.

(** The row a signature is written to has the terms the message was built from. *)
Lemma signed_patch_right w signed account nonce s :
  known w s -> pays w nonce (sg_message signed) -> all_right s -> forall y, y ∈ withdrawals s -> wd_id y = wd_id w ->
  signed_right (patch_withdrawal Withdrawal.SIGNED
                  (mkWithdrawalPatch (Some (signed, account, nonce)) None None None None) y).
Proof using.
  intros (x & Hx & Hs) Hp [Hnd _] y Hy Hid signed' [= <-]. exists nonce. split; [done|]. simpl.
  assert (y = x) as -> by (apply (unique_row (withdrawals s)); try done; destruct Hs; congruence).
  apply (pays_terms w); [|done]. etrans; [exact Hs|]. by apply patch_same.
Qed.

Lemma sign_claimed_right w s :
  known w (db s) ->
  moves keeps_right (sign_claimed isPublicKey maxRetries chain treasuryAddress keyRefId segregated clearing assets w) s.
Proof using around.
  intros Hk. unfold sign_claimed. apply (moves_bind_known w); [done|right_moves|]. intros [account|] s1 _ Hk1;
    [|right_moves].
  apply (moves_bind_known w); [done|right_moves|]. intros state s2 _ Hk2.
  apply (moves_bind_known w); [done|right_moves|]. intros nonce s3 _ Hk3.
  apply (moves_bind_known w); [done|unfold source_of; right_moves|]. intros source s4 Hsource%source_pays Hk4.
  apply (moves_bind_known w); [done|unfold buildTokenWithdrawal; right_moves|]. intros unsigned s5 Hunsigned Hk5.
  assert (Hpays : pays w nonce (message unsigned)).
  { destruct (isToken assets (wd_asset w)) eqn:Ht; [by eapply token_pays|].
    apply of_result_Ok in Hunsigned as [Hu _]. by eapply native_pays. }
  apply (moves_bind_known w); [done|apply sign_rounds_right|]. intros signatures s6 _ Hk6.
  apply (moves_bind_known w); [done|right_moves|]. intros signed s7 [Hsigned%attach_message _]%of_result_Ok Hk7.
  apply (moves_bind_known w); [done|unfold succeed; right_moves|]. intros _ s8 _ Hk8.
  apply (moves_bind _); [|intros; apply (moves_ret _)]. apply (moves_commit _ around). intros r d.
  apply transition_right. intros Hr. apply signed_patch_right; [done|by rewrite Hsigned|done].
Qed.

Lemma signOne_right s :
  moves keeps_right (signOne isPublicKey maxRetries chain treasuryAddress keyRefId segregated clearing assets) s.
Proof using around.
  unfold signOne. apply (moves_bind _); [right_moves|]. intros [w|] s1 E; [|right_moves].
  apply (moves_bind _); [|intros; apply (moves_ret _)]. apply (moves_catch _).
  - apply sign_claimed_right. apply (commit_inv keeps_right around) in E as [(a & d & [= <-] & E & H)|(e & [=] & _)].
    eapply known_kept; [apply H|]. unfold claimNext in E. inv_ctx. case_match; [|by inv_ctx].
    by eapply transition_known.
  - intros e s2 _. unfold failForWithdrawal. right_moves.
Qed.

(** ** The other steps of a pass *)

Lemma settle_tx_right w fee : Along keeps_right (settle_tx assets at_ w fee).
Proof using.
  unfold settle_tx. apply along_bind; [apply _|apply on_books_right|]. intros _.
  apply along_bind; [apply _|by apply transition_along_right|]. intros _. solve_along.
Qed.

Lemma release_tx_right w : Along keeps_right (release_tx w).
Proof using. apply on_books_right. Qed.

Ltac pass_moves :=
  repeat step_moves around
    ltac:(first [by apply transition_along_right | by apply settle_tx_right | by apply release_tx_right | solve_along]).

Lemma processRetries_right s : moves keeps_right (processRetries chain budgets batchSize) s.
Proof using around.
  unfold processRetries. apply (moves_for_all _). intros edge s1 _.
  apply (moves_bind _); [unfold listByStatus; pass_moves|]. intros stuck s2 _. apply (moves_for_all _).
  intros w s3 _. unfold retryOne, giveUp, releaseLock. pass_moves.
Qed.

Lemma broadcastOne_right s : moves keeps_right (broadcastOne maxRetries chain) s.
Proof using around. unfold broadcastOne, fail_broadcast, expire. pass_moves. Qed.

Lemma confirmOne_right w s : moves keeps_right (confirmOne maxRetries assets at_ w) s.
Proof using around.
  unfold confirmOne, resolveAmbiguity, nonceById, expire, fail_broadcast, settle. pass_moves.
Qed.

Lemma runAllCycles_right s :
  moves keeps_right
    (runAllCycles isPublicKey maxRetries chain treasuryAddress keyRefId segregated clearing budgets batchSize assets at_) s.
Proof using around.
  unfold runAllCycles, runSigningCycle, runBroadcastCycle, runConfirmationCycle.
  apply (moves_bind _); [apply (moves_bind _); [apply processRetries_right|]|].
  { intros _ s1 _. apply (moves_up_to _). intros. apply signOne_right. }
  intros n1 s1 _. apply (moves_bind _); [apply (moves_up_to _); intros; apply broadcastOne_right|].
  intros n2 s2 _. apply (moves_bind _); [|intros; apply (moves_ret _)].
  apply (moves_bind _); [unfold listByStatus; pass_moves|]. intros waiting s3 _.
  apply (moves_bind _); [|intros; apply (moves_ret _)]. apply (moves_for_all _). intros. apply confirmOne_right.
Qed.
End Signing.
End Payments.

(** ** Properties *)

(** C11: what is signed is what was asked for. Beside actors that neither alter a withdrawal's terms
    nor sign for it, if every signed transaction kept on a withdrawal pays exactly its
    amount of its asset to its destination, with the treasury paying the fee, from the
    clearing address when it is a deallocation and from the treasury when addresses are
    not segregated, and on the nonce the withdrawal records, then this is still so after
    any pass of the workers and any call of the service, whatever the chain, the signer
    and the directory answered. *)
Theorem signed_pays_the_withdrawal {W} `{!Chain W} isPublicKey maxRetries chain treasuryAddress keyRefId segregated
  clearing budgets batchSize assets at_ isSafeDestination policy valuation platformAddresses freshId input internal id
  (s : Proc W) :
  let right := all_right treasuryAddress segregated clearing assets in
  (forall w d, keeps_right treasuryAddress segregated clearing assets d (others w d).1) -> right (db s) ->
  right (db (runAllCycles isPublicKey maxRetries chain treasuryAddress keyRefId segregated clearing budgets batchSize
               assets at_ s).2) /\
  right (db (request isSafeDestination policy chain valuation platformAddresses freshId at_ input s).2) /\
  right (db (requestInternal chain freshId at_ internal s).2) /\
  right (db (approve_withdrawal id s).2) /\ right (db (reject_withdrawal id s).2).
Proof.
  intros right Ha Hs.
  assert (Hk : forall s' : Proc W, keeps_right treasuryAddress segregated clearing assets (db s) (db s') -> right (db s')).
  { intros s' [_ H]. by apply H. }
  split; [|split; [|split; [|split]]]; apply Hk.
  - by apply runAllCycles_right.
  - by apply (request_moves (keeps_right _ _ _ _)).
  - by apply (requestInternal_moves (keeps_right _ _ _ _)).
  - by apply (approve_moves (keeps_right _ _ _ _)).
  - by apply (reject_moves (keeps_right _ _ _ _)).
Qed.
