(* ===== verification/Requests.v ===== *)
(** * Requests: what the withdrawal service does with one request

    Proofs about [Withdrawals.request] when nobody else acts: the decision it records, the
    status it leaves the withdrawal in, what it moves on the ledger, and that a repeated
    request changes nothing. No code is modelled here. *)

From S2P Require Import Prelude Risk Assets Ledger Postings States Store Books Custody Withdrawals Locks Escrow.
From Stdlib Require Import ZArith Lia.
From stdpp Require Import base list strings gmap relations.

Open Scope string_scope.
Open Scope list_scope.
Open Scope Z_scope.

(** ** Alone *)

Section Alone.
Context {W : Type} `{!Others W} (alone : forall w d, others w d = (d, w)).

Lemma commit_alone {A} (m : ctx A) (s : Proc W) :
  commit m s = match atomically m (db s) with
               | Ok (a, d) => (Ok a, mkProc d (world s))
               | Throw e => (Throw e, s)
               end.
Proof using alone.
  unfold commit, yield. destruct (atomically m (db s)) as [[a d]|e]; simpl; rewrite alone; [done|by destruct s].
Qed.

(** A transaction that posts nothing commits what it computed. *)
Lemma commit_same {A} (m : ctx A) (s : Proc W) a d :
  m (db s) = Ok (a, d) -> ledger (books d) = ledger (books (db s)) -> commit m s = (Ok a, mkProc d (world s)).
Proof using alone. intros H Hl. by rewrite commit_alone, (atomically_same m _ a d). Qed.

Lemma commit_query {A} (f : Custody -> A) (s : Proc W) : commit (query f) s = (Ok (f (db s)), s).
Proof using alone. rewrite (commit_same (query f) s (f (db s)) (db s)) by done. by destruct s. Qed.
End Alone.

(** ** One row at the end *)

Definition add_row (w : WithdrawalRecord) (s : Custody) : Custody := set_withdrawals (withdrawals s ++ [w]) s.

Definition fresh (id : string) (s : Custody) : Prop := id ∉ (wd_id <$> withdrawals s).

Lemma replace_last ws w w' : wd_id w' = wd_id w -> wd_id w ∉ (wd_id <$> ws) -> replace w' (ws ++ [w]) = ws ++ [w'].
Proof.
  intros Hid Hf. unfold replace. rewrite map_app. simpl. rewrite bool_decide_eq_true_2 by done. f_equal.
  rewrite <- (map_id ws) at 2. apply map_ext_in. intros x Hx%list_elem_of_In.
  rewrite bool_decide_eq_false_2; [done|]. intros E. apply Hf. rewrite <- Hid, <- E. by apply list_elem_of_fmap_2.
Qed.

Lemma add_row_ids w s : NoDup (wd_id <$> withdrawals s) -> fresh (wd_id w) s -> NoDup (wd_id <$> withdrawals (add_row w s)).
Proof.
  intros Hnd Hf. simpl. rewrite fmap_app. apply NoDup_app. split; [done|]. split; [|apply NoDup_singleton].
  intros x Hx Hin%list_elem_of_singleton. by subst x.
Qed.

(** The last row, moved. *)
Lemma transition_last to w s :
  NoDup (wd_id <$> withdrawals s) -> fresh (wd_id w) s -> withdrawal_row_ok w = true ->
  Withdrawal.canTransition (wd_status w) to = true ->
  transition (wd_id w) (wd_status w) to no_change (add_row w s) =
    Ok (Some (patch_withdrawal to no_change w), add_row (patch_withdrawal to no_change w) s).
Proof.
  intros Hnd Hf Hok Hc. rewrite (transition_hit to no_change (add_row w s) w).
  - simpl. by rewrite (replace_last (withdrawals s) w).
  - by apply add_row_ids.
  - simpl. apply elem_of_app. right. by left.
  - done.
  - done.
  - by apply patch_row_ok.
Qed.

(** ** One request *)

Section Request.
Context {W : Type} `{!Others W} (alone : forall w d, others w d = (d, w)).
Context (isSafeDestination : string -> Safety) (policy : RiskPolicy) (chain : string).
Context (valuation : option (string -> Z -> Z -> result (option Z))) (platformAddresses : list string).
Context (freshId : string) (at_ : Z) (input : RequestWithdrawalInput).

Definition requested_row (status : Withdrawal.WithdrawalStatus) : WithdrawalRecord :=
  mkWithdrawal freshId (rw_user input) chain (rw_asset input) (rw_amount input) None (rw_destination input) external
    status (rw_idempotencyKey input) 0 0 0 None None None None None at_ None.

Lemma requested_moves from to : patch_withdrawal to no_change (requested_row from) = requested_row to.
Proof using. done. Qed.

Lemma requested_ok from to : withdrawal_row_ok (requested_row from) = true -> withdrawal_row_ok (requested_row to) = true.
Proof using. done. Qed.

(** No row has the id or the user's key. *)
Definition first_time (s : Custody) : Prop :=
  NoDup (wd_id <$> withdrawals s) /\ fresh freshId s /\
  forall w, w ∈ withdrawals s -> wd_user w = rw_user input -> wd_idempotencyKey w <> rw_idempotencyKey input.

Lemma create_first s :
  first_time s -> withdrawal_row_ok (requested_row Withdrawal.REQUESTED) = true ->
  is_Some (users (books s) !! rw_user input) ->
  create freshId at_ (mkCreate (rw_user input) chain (rw_asset input) (rw_amount input) (rw_destination input) external
                        (rw_idempotencyKey input)) s =
    Ok (created (requested_row Withdrawal.REQUESTED), add_row (requested_row Withdrawal.REQUESTED) s).
Proof using.
  intros (_ & Hf & Hkey) Hok [st Hu].
  unfold create, mbind, ctx_bind, query, refuse_if, findByIdempotencyKey, findById. simpl.
  fold (requested_row Withdrawal.REQUESTED). rewrite Hok. simpl. rewrite filter_none; simpl.
  - rewrite filter_none; simpl; [by rewrite Hu|]. intros w Hw Hid. apply Hf. rewrite <- Hid. by apply list_elem_of_fmap_2.
  - intros w Hw [Hu' Hk]. by apply (Hkey w).
Qed.

Lemma move_alone from to (s : Proc W) d :
  db s = add_row (requested_row from) d -> NoDup (wd_id <$> withdrawals d) -> fresh freshId d ->
  withdrawal_row_ok (requested_row from) = true -> Withdrawal.canTransition from to = true ->
  commit (transition freshId from to no_change) s =
    (Ok (Some (requested_row to)), mkProc (add_row (requested_row to) d) (world s)).
Proof using alone.
  intros E Hnd Hf Hok Hc. apply (commit_same alone); rewrite E; [|done].
  by apply (transition_last to (requested_row from)).
Qed.

Lemma buildRiskInput_alone (s : Proc W) :
  is_Some (users (books (db s)) !! rw_user input) ->
  exists riskInput,
    buildRiskInput isSafeDestination policy chain valuation platformAddresses at_ input s = (Ok riskInput, s) /\
    Risk.asset riskInput = rw_asset input /\ Risk.amount riskInput = rw_amount input /\
    Risk.userId riskInput = rw_user input.
Proof using alone.
  intros [st Hu]. unfold buildRiskInput, listRecentForUser, listPriorDestinations, findByAddress, mbind, job_bind.
  rewrite (commit_query alone), Hu. simpl. rewrite !(commit_query alone). by eexists.
Qed.

Lemma record_alone (s : Proc W) row :
  (forall d, d ∈ decided (db s) -> wr_withdrawalId d <> wr_withdrawalId row) ->
  commit (record row) s = (Ok tt, mkProc (set_decided (decided (db s) ++ [row]) (db s)) (world s)).
Proof using alone.
  intros H. apply (commit_same alone); [|done]. unfold record, mbind, ctx_bind, query, refuse_if.
  replace (existsb _ _) with false; [done|]. symmetry. apply not_true_iff_false. intros (d & Hd & E)%existsb_exists.
  zbool. by apply (H d); [apply list_elem_of_In|].
Qed.

Lemma add_row_decided w s ds : set_decided ds (add_row w s) = add_row w (set_decided ds s).
Proof using. done. Qed.

(** The lock posts and the row moves, or the row is rejected and nothing is posted. *)
Lemma lock_alone (s : Proc W) d :
  db s = add_row (requested_row Withdrawal.APPROVED) d -> NoDup (wd_id <$> withdrawals d) -> fresh freshId d ->
  withdrawal_row_ok (requested_row Withdrawal.APPROVED) = true ->
  (exists b, postLedger (postWithdrawalLock (lock_of (requested_row Withdrawal.APPROVED))) (books d) = Ok (tt, b) /\
     rw_amount input <= credit_balance (userCustodyAvailable (rw_user input) (rw_asset input)) (books d) /\
     lock_or_reject (requested_row Withdrawal.APPROVED) s =
       (Ok (requested_row Withdrawal.FUNDS_LOCKED),
        mkProc (add_row (requested_row Withdrawal.FUNDS_LOCKED) (set_books b d)) (world s))) \/
  (exists e, lock_or_reject (requested_row Withdrawal.APPROVED) s =
     (Throw e, mkProc (add_row (requested_row Withdrawal.REJECTED) d) (world s))).
Proof using alone.
  intros E Hnd Hf Hok. unfold lock_or_reject, catch, lockFunds. rewrite (commit_alone alone).
  destruct (atomically _ (db s)) as [[r d']|e] eqn:Ha.
  - left. apply atomically_Ok in Ha as [Ha _]. unfold lock_tx, custody_available in Ha. cbn [from_trading requested_row] in Ha.
    replace (from_trading _) with false in Ha by done. inv_ctx.
    match goal with H : lift_ctx ?r _ = _ |- _ => destruct r; [simpl in H; injection H as _ <-|done] end.
    match goal with H : on_books _ _ = _ |- _ => rename H into Hb end. unfold on_books in Hb. rewrite E in Hb.
    destruct (postLedger _ _) as [[[] b]|] eqn:Hp; [|done]. injection Hb as _ <-.
    exists b. split; [done|]. zbool. rewrite E in *. split; [simpl in *; lia|].
    match goal with H : transition _ _ _ _ _ = _ |- _ =>
      assert (Hl := eq_trans (eq_sym (transition_last Withdrawal.FUNDS_LOCKED (requested_row Withdrawal.APPROVED)
                      (set_books b d) Hnd Hf Hok eq_refl)) H); injection Hl as <- <- end.
    inv_ctx. done.
  - right. exists e. unfold mbind, job_bind. cbn [wd_id requested_row].
    rewrite (move_alone Withdrawal.APPROVED Withdrawal.REJECTED s d E Hnd Hf Hok eq_refl). done.
Qed.

(** What a request leaves, by the verdict of the decision it records. *)
Definition request_outcome (s s' : Proc W) (r : result WithdrawalRecord) (decision : RiskDecision) : Prop :=
  let row := requested_row in
  decided (db s') = decided (db s) ++ [mkWithdrawalDecision freshId decision] /\
  match d_verdict decision with
  | deny =>
      r = Throw (PolicyDeniedError (toClientMessage (d_codes decision))) /\ books (db s') = books (db s) /\
      withdrawals (db s') = withdrawals (db s) ++ [row Withdrawal.REJECTED]
  | review =>
      r = Ok (row Withdrawal.MANUAL_REVIEW) /\ books (db s') = books (db s) /\
      withdrawals (db s') = withdrawals (db s) ++ [row Withdrawal.MANUAL_REVIEW]
  | approve =>
      (r = Ok (row Withdrawal.FUNDS_LOCKED) /\
       withdrawals (db s') = withdrawals (db s) ++ [row Withdrawal.FUNDS_LOCKED] /\
       rw_amount input <= credit_balance (userCustodyAvailable (rw_user input) (rw_asset input)) (books (db s)) /\
       postLedger (postWithdrawalLock (mkLock freshId (rw_user input) (rw_asset input) (rw_amount input)))
         (books (db s)) = Ok (tt, books (db s'))) \/
      (exists e, r = Throw e /\ books (db s') = books (db s) /\
         withdrawals (db s') = withdrawals (db s) ++ [row Withdrawal.REJECTED])
  end.

Lemma request_alone (s : Proc W) :
  first_time (db s) -> withdrawal_row_ok (requested_row Withdrawal.REQUESTED) = true ->
  is_Some (users (books (db s)) !! rw_user input) ->
  (forall d, d ∈ decided (db s) -> wr_withdrawalId d <> freshId) ->
  exists riskInput r s',
    request isSafeDestination policy chain valuation platformAddresses freshId at_ input s = (r, s') /\
    Risk.asset riskInput = rw_asset input /\ Risk.amount riskInput = rw_amount input /\
    Risk.userId riskInput = rw_user input /\ request_outcome s s' r (evaluate riskInput policy).
Proof using alone.
  intros Hfirst Hok Hu Hd. pose proof Hfirst as (Hnd & Hf & _).
  unfold request, mbind, job_bind.
  rewrite (commit_same alone _ s _ _ (create_first (db s) Hfirst Hok Hu) eq_refl).
  set (s1 := mkProc _ _). cbn [wd_id requested_row].
  rewrite (move_alone Withdrawal.REQUESTED Withdrawal.RISK_EVALUATING s1 (db s) eq_refl Hnd Hf Hok eq_refl).
  set (s2 := mkProc _ _).
  destruct (buildRiskInput_alone s2 Hu) as (riskInput & -> & Ha & Hn & Hus). exists riskInput.
  set (decision := evaluate riskInput policy).
  rewrite (record_alone s2 (mkWithdrawalDecision freshId decision) Hd). set (s3 := mkProc _ _).
  set (d := set_decided (decided (db s) ++ [mkWithdrawalDecision freshId decision]) (db s)).
  unfold request_outcome. destruct (d_verdict decision) eqn:Hv.
  - rewrite (move_alone Withdrawal.RISK_EVALUATING Withdrawal.APPROVED s3 d eq_refl Hnd Hf Hok eq_refl).
    set (s4 := mkProc _ _).
    destruct (lock_alone s4 d eq_refl Hnd Hf Hok) as [(b & Hb & Hle & ->)|[e ->]]; eexists _, _;
      (split; [reflexivity|]); repeat (split; [done|]); [left|right]; by eauto.
  - rewrite (move_alone Withdrawal.RISK_EVALUATING Withdrawal.REJECTED s3 d eq_refl Hnd Hf Hok eq_refl).
    eexists _, _. by split.
  - rewrite (move_alone Withdrawal.RISK_EVALUATING Withdrawal.MANUAL_REVIEW s3 d eq_refl Hnd Hf Hok eq_refl).
    eexists _, _. by split.
Qed.
End Request.

(** ** The same request again *)

Lemma findByKey_last u k w s :
  (forall x, x ∈ withdrawals s -> wd_user x = u -> wd_idempotencyKey x <> k) -> wd_user w = u -> wd_idempotencyKey w = k ->
  findByIdempotencyKey u k (add_row w s) = Ok (Some w, add_row w s).
Proof.
  intros Hno Hu Hk. unfold findByIdempotencyKey, query. do 2 f_equal. simpl. rewrite filter_app, filter_none; simpl.
  - rewrite filter_cons_True by done. done.
  - intros x Hx [Hxu Hxk]. by apply (Hno x).
Qed.

Lemma ctx_bind_eq {A B} (m : ctx A) (k : A -> ctx B) s a s1 : m s = Ok (a, s1) -> (m ≫= k) s = k a s1.
Proof. unfold mbind, ctx_bind. by intros ->. Qed.

Lemma request_again {W} `{!Others W} isSafeDestination policy chain valuation platformAddresses freshId at_ input
  (s : Proc W) d w :
  (forall w d, others w d = (d, w)) -> db s = add_row w d ->
  (forall x, x ∈ withdrawals d -> wd_user x = rw_user input -> wd_idempotencyKey x <> rw_idempotencyKey input) ->
  wd_user w = rw_user input -> wd_idempotencyKey w = rw_idempotencyKey input ->
  withdrawal_row_ok (requested_row chain freshId at_ input Withdrawal.REQUESTED) = true ->
  request isSafeDestination policy chain valuation platformAddresses freshId at_ input s = (Ok w, s).
Proof.
  intros alone E Hno Hu Hk Hok. unfold request, mbind, job_bind.
  rewrite (commit_same alone _ s (existing w) (db s)); [by destruct s| |done].
  unfold create. rewrite (ctx_bind_eq _ _ _ tt (db s)).
  - rewrite (ctx_bind_eq _ _ _ (Some w) (db s)); [done|]. rewrite E. by apply findByKey_last.
  - cbn [ci_user ci_chain ci_asset ci_amount ci_destination ci_purpose ci_idempotencyKey].
    fold (requested_row chain freshId at_ input Withdrawal.REQUESTED). by rewrite Hok.
Qed.

(** ** Properties *)

