(* ===== verification/Nonces.v ===== *)
(** * Nonces: one durable nonce account for one withdrawal

    Proofs about [Custody.lease] and [Custody.release]: they respect the constraints of the
    table of nonce accounts, which therefore never refuse them, and a lease is its
    withdrawal's alone until it is released. No code is modelled here. *)

From S2P Require Import Prelude Store Custody Locks.
From Stdlib Require Import ZArith Lia.
From stdpp Require Import base list strings gmap.

Open Scope string_scope.
Open Scope list_scope.
Open Scope Z_scope.

(** The constraints of the table: the primary key, one lease for a withdrawal, and a lessee
    exactly when leased. *)
Record nonces_ok (ns : list NonceAccountRecord) : Prop := {
  n_ids : NoDup (na_id <$> ns);
  n_one n1 n2 w : n1 ∈ ns -> n2 ∈ ns -> na_leasedBy n1 = Some w -> na_leasedBy n2 = Some w -> n1 = n2;
  n_lessee n : n ∈ ns -> na_status n = leased <-> is_Some (na_leasedBy n)
}.

(** The table after the rows of [hit] were updated. *)
Definition renewed (hit : NonceAccountRecord -> bool) (f : NonceAccountRecord -> NonceAccountRecord)
  (ns : list NonceAccountRecord) : list NonceAccountRecord :=
  filter (fun n => hit n = false) ns ++ map f (filter (fun n => hit n = true) ns).

Lemma renewed_elem hit f ns n :
  n ∈ renewed hit f ns <-> (n ∈ ns /\ hit n = false) \/ exists m, m ∈ ns /\ hit m = true /\ n = f m.
Proof.
  unfold renewed. rewrite elem_of_app, list_elem_of_filter, list_elem_of_fmap. setoid_rewrite list_elem_of_filter.
  naive_solver.
Qed.

Lemma renewed_ids hit f ns :
  (forall n, hit n = true -> na_id (f n) = na_id n) -> NoDup (na_id <$> ns) -> NoDup (na_id <$> renewed hit f ns).
Proof.
  intros Hf Hnd. unfold renewed. rewrite fmap_app. apply NoDup_app. split; [|split].
  - eapply sublist_NoDup; [exact Hnd|]. apply fmap_sublist, sublist_filter.
  - intros x (n & -> & [Hn Hin]%list_elem_of_filter)%list_elem_of_fmap.
    intros (m' & E & (m & -> & [Hm Hin']%list_elem_of_filter)%list_elem_of_fmap)%list_elem_of_fmap.
    rewrite Hf in E by done. rewrite (row_unique na_id ns n m) in Hn by done. congruence.
  - change (NoDup (map na_id (map f (filter (fun n => hit n = true) ns)))). rewrite map_map, (map_ext_in _ na_id).
    + eapply sublist_NoDup; [exact Hnd|]. apply fmap_sublist, sublist_filter.
    + intros n Hn%list_elem_of_In. apply Hf. by apply list_elem_of_filter in Hn as [? _].
Qed.

(** The account a free one becomes when a withdrawal leases it. *)
Definition leased_to (w : string) (n : NonceAccountRecord) : NonceAccountRecord :=
  mkNonce (na_id n) (na_chain n) (na_address n) leased (Some w).

Definition lessee (w : string) (ns : list NonceAccountRecord) : option NonceAccountRecord :=
  head (filter (fun n => na_leasedBy n = Some w) ns).

Definition spare (chain : string) (ns : list NonceAccountRecord) : option NonceAccountRecord :=
  head (filter (fun n => na_chain n = chain /\ na_status n = available) ns).

Lemma lease_eq chain w s :
  lease chain w s =
    match lessee w (nonces s) with
    | Some held => Ok (Some held, s)
    | None =>
        match spare chain (nonces s) with
        | None => Ok (None, s)
        | Some next =>
            Ok (Some (leased_to w next),
                set_nonces (renewed (fun n => bool_decide (na_id n = na_id next) && bool_decide (na_status n = available))
                              (fun _ => leased_to w next) (nonces s)) s)
        end
    end.
Proof.
  unfold lease, mbind, ctx_bind, query, lessee. destruct (head (filter (fun n => na_leasedBy n = Some w) _)); [done|].
  unfold spare. by destruct (head (filter (fun n => na_chain n = chain /\ _) _)).
Qed.

Lemma lessee_unique w ns n : nonces_ok ns -> n ∈ ns -> na_leasedBy n = Some w -> lessee w ns = Some n.
Proof.
  intros [_ Hone _] Hn Hw. unfold lessee. destruct (head _) as [m|] eqn:E.
  - apply head_filter_elem in E as [Hm Hmw]. f_equal. by apply (Hone m n w).
  - by apply (head_filter_absent _ _ n) in E.
Qed.

Section Lease.
Context (ns : list NonceAccountRecord) (Hok : nonces_ok ns) (w : string) (next : NonceAccountRecord).
Context (Hnext : next ∈ ns) (Hfree : na_status next = available).

Let hit (n : NonceAccountRecord) : bool := bool_decide (na_id n = na_id next) && bool_decide (na_status n = available).

Lemma hit_next n : n ∈ ns -> hit n = true <-> n = next.
Proof using Hok Hnext Hfree.
  intros Hn. unfold hit. rewrite andb_true_iff, !bool_decide_eq_true. split; [|by intros ->].
  intros [Hid _]. by eapply (row_unique na_id ns); [apply Hok|..].
Qed.

(** The rest of the table is as it was. *)
Lemma leased_elem n : n ∈ renewed hit (fun _ => leased_to w next) ns <-> n = leased_to w next \/ (n ∈ ns /\ n <> next).
Proof using Hok Hnext Hfree.
  rewrite renewed_elem. split.
  - intros [[Hn Hh]|(m & Hm & _ & ->)]; [right|by left]. split; [done|]. intros ->.
    by rewrite (proj2 (hit_next next Hnext) eq_refl) in Hh.
  - intros [->|[Hn Hne]]; [right; exists next; by rewrite (hit_next next Hnext)|left].
    split; [done|]. apply not_true_iff_false. by rewrite hit_next.
Qed.

Lemma leased_ok :
  (forall n, n ∈ ns -> na_leasedBy n <> Some w) -> nonces_ok (renewed hit (fun _ => leased_to w next) ns).
Proof using Hok Hnext Hfree.
  intros Hno. pose proof Hok as [Hnd Hone Hless]. split.
  - apply renewed_ids; [|done]. intros n Hh. apply andb_true_iff in Hh as [Hh _]. by apply bool_decide_eq_true in Hh.
  - intros n1 n2 w' H1 H2 L1 L2. apply leased_elem in H1 as [->|[H1 _]], H2 as [->|[H2 _]]; simplify_eq/=; try done.
    + by destruct (Hno n2 H2).
    + by destruct (Hno n1 H1).
    + by apply (Hone n1 n2 w').
  - intros n [->|[Hn _]]%leased_elem; [by simpl; split|by apply Hless].
Qed.
End Lease.

Definition freed (n : NonceAccountRecord) : NonceAccountRecord :=
  mkNonce (na_id n) (na_chain n) (na_address n) available None.

Lemma release_eq w s :
  release w s = Ok (tt, set_nonces (renewed (fun n => bool_decide (na_leasedBy n = Some w)) freed (nonces s)) s).
Proof. done. Qed.

Lemma released_ok w ns :
  nonces_ok ns -> let ns' := renewed (fun n => bool_decide (na_leasedBy n = Some w)) freed ns in
  nonces_ok ns' /\ forall m, m ∈ ns' -> na_leasedBy m <> Some w.
Proof.
  intros [Hnd Hone Hless] ns'.
  assert (Hin : forall m, m ∈ ns' -> (m ∈ ns /\ na_leasedBy m <> Some w) \/ na_leasedBy m = None /\ na_status m = available).
  { intros m [[Hm Hh]|(m' & _ & _ & ->)]%renewed_elem; [left; by zbool|by right]. }
  split; [split|].
  - by apply renewed_ids.
  - intros n1 n2 w' [[H1 _]|[E _]]%Hin [[H2 _]|[E' _]]%Hin L1 L2; try congruence. by apply (Hone n1 n2 w').
  - intros n [[Hn _]|[-> ->]]%Hin; [by apply Hless|]. split; [done|by intros []].
  - intros m [[_ Hm]|[-> _]]%Hin; done.
Qed.

(** A nonce account serves one withdrawal. On tables that satisfy the constraints of the nonce
    accounts, leasing for a withdrawal answers nothing exactly when the withdrawal holds
    no account and none of its chain is free, and changes nothing then. Otherwise the
    account it answers is leased to the withdrawal and to no other, every other
    withdrawal's account is what it was, leasing again answers the same account and
    changes nothing, and the constraints still hold, so that the table never refuses the
    update; and after the release the withdrawal holds none, and the constraints hold. *)
Theorem lease_exclusive chain w s r s' :
  nonces_ok (nonces s) -> lease chain w s = Ok (r, s') ->
  nonces_ok (nonces s') /\
  (forall w' n, w' <> w -> na_leasedBy n = Some w' -> n ∈ nonces s' <-> n ∈ nonces s) /\
  match r with
  | None => s' = s /\ (forall n, n ∈ nonces s -> na_leasedBy n <> Some w) /\
            (forall n, n ∈ nonces s -> na_chain n = chain -> na_status n <> available)
  | Some n => n ∈ nonces s' /\ na_status n = leased /\ na_leasedBy n = Some w /\ lease chain w s' = Ok (Some n, s') /\
              exists s'', release w s' = Ok (tt, s'') /\ nonces_ok (nonces s'') /\
                forall m, m ∈ nonces s'' -> na_leasedBy m <> Some w
  end.
Proof.
  intros Hok. rewrite lease_eq.
  assert (Hrel : forall s1, nonces_ok (nonces s1) -> exists s'', release w s1 = Ok (tt, s'') /\ nonces_ok (nonces s'') /\
            forall m, m ∈ nonces s'' -> na_leasedBy m <> Some w).
  { intros s1 H1. rewrite release_eq. eexists. split; [done|]. by apply released_ok. }
  destruct (lessee w (nonces s)) as [held|] eqn:El.
  - intros [= <- <-]. pose proof El as [Hheld Hw]%head_filter_elem. split; [done|]. split; [done|].
    split; [done|]. split; [apply (n_lessee _ Hok held Hheld); by rewrite Hw|]. split; [done|].
    split; [by rewrite lease_eq, El|by apply Hrel].
  - assert (Hno : forall n, n ∈ nonces s -> na_leasedBy n <> Some w).
    { intros n Hn Hw. by rewrite (lessee_unique w _ n) in El. }
    destruct (spare chain (nonces s)) as [next|] eqn:Es; intros [= <- <-].
    + pose proof Es as [Hnext [_ Hfree]]%head_filter_elem.
      assert (Hok' := leased_ok (nonces s) Hok w next Hnext Hfree Hno).
      assert (Hin : leased_to w next ∈ nonces (set_nonces (renewed _ (fun _ => leased_to w next) (nonces s)) s))
        by (apply leased_elem; [done..|by left]).
      split; [done|]. split.
      * intros w' n Hne Hn. simpl. rewrite leased_elem by done. split.
        -- intros [->|[? _]]; [|done]. simpl in Hn. congruence.
        -- intros Hn'. right. split; [done|]. intros ->.
           assert (Hl : na_status next = leased) by (apply (n_lessee _ Hok); [done|by rewrite Hn]). congruence.
      * split; [done|]. split; [done|]. split; [done|]. split; [|by apply Hrel].
        rewrite lease_eq. simpl. by rewrite (lessee_unique w _ (leased_to w next)).
    + split; [done|]. split; [done|]. split; [done|]. split; [done|]. intros n Hn Hc Hs.
      exact (head_filter_absent _ _ n Es Hn (conj Hc Hs)).
Qed.
