(* ===== verification/Stranded.v ===== *)
(** * Stranded withdrawals

    Proofs about the cycles of [WithdrawalWorkers]: which rows they never touch. A withdrawal
    that a stopped process left in [SIGNING] or [CONFIRMED] is picked up by no cycle. No
    code is modelled here. *)

From S2P Require Import Prelude Risk Assets Ledger Postings States Store Custody Withdrawals.
From S2P Require Import Broadcaster WithdrawalWorkers Locks Escrow.
From Stdlib Require Import ZArith Lia.
From stdpp Require Import base list strings gmap relations.

Open Scope string_scope.
Open Scope list_scope.
Open Scope Z_scope.

(** The locks stay right and the row of one withdrawal stays as it is. *)
Definition spares (w : WithdrawalRecord) (s s' : Custody) : Prop :=
  holds ∅ s -> w ∈ withdrawals s -> holds ∅ s' /\ w ∈ withdrawals s'.

#[export] Instance spares_preorder w : PreOrder (spares w).
Proof. split; [by intros s|]. intros s1 s2 s3 H12 H23 H0 Hw. destruct (H12 H0 Hw). by apply H23. Qed.

Lemma minds_spares mine w s s' : held w = true -> ~ mine (wd_id w) -> minds mine s s' -> spares w s s'.
Proof.
  intros Hh Hm [_ H] H0 Hw. destruct (H ∅) as [H0' K]; [by intros|done|]. split; [done|]. by apply K.
Qed.

Section Stranded.
Context {W : Type} `{!Chain W} (around : forall w d, minds nobody d (others w d).1).
Context (isPublicKey : string -> bool) (maxRetries : nat) (chain treasuryAddress keyRefId : string) (segregated : bool).
Context (clearing : option (string * string)) (budgets : RetryBudgets) (batchSize : nat).
Context (assets : AssetRegistry) (at_ : Z).
Context (w : WithdrawalRecord) (Hheld : held w = true).

Lemma around_spares v d : spares w d (others v d).1.
Proof using around Hheld. apply (minds_spares nobody); [done|by intros []|apply around]. Qed.

Lemma moves_spares {A} mine (m : job W A) s : ~ mine (wd_id w) -> moves (minds mine) m s -> moves (spares w) m s.
Proof using Hheld. intros Hm. by apply minds_spares. Qed.

(** In a job the row and the locks can be assumed at every point. *)
Lemma moves_spares_bind {A B} (m : job W A) (k : A -> job W B) s :
  moves (spares w) m s ->
  (forall a s', m s = (Ok a, s') -> holds ∅ (db s) -> w ∈ withdrawals (db s) ->
     holds ∅ (db s') -> w ∈ withdrawals (db s') -> moves (spares w) (k a) s') ->
  moves (spares w) (m ≫= k) s.
Proof using.
  intros Hm Hk H0 Hw. revert H0 Hw. unfold moves, mbind, job_bind in *. intros H0 Hw. destruct (Hm H0 Hw) as [H0' Hw'].
  destruct (m s) as [[a|e] s'] eqn:E; [|by split]. simpl in *. by apply (Hk a s').
Qed.

(** A pass over the rows in another status. *)
Lemma pass_spares status limit f s :
  Withdrawal.holdsLock status = true -> wd_status w <> status ->
  (forall x s, wd_status x = status -> x ∈ withdrawals (db s) -> moves (minds (eq (wd_id x))) (f x) s) ->
  moves (spares w) (xs ← commit (listByStatus status limit chain); for_all xs f) s.
Proof using around Hheld.
  intros Hst Hne Hf. apply moves_spares_bind.
  { apply (moves_commit_along _ around_spares). unfold listByStatus. intros s1 a s2 H. inv_ctx. reflexivity. }
  intros xs s' E H0 Hw H0' Hw'.
  destruct (listed_rows around chain status limit s xs s' Hst H0 E) as (Hnd & _ & Hxs).
  apply (moves_spares (fun id => id ∈ wd_id <$> xs)).
  - intros (x & Hid & Hx)%list_elem_of_fmap. destruct (Hxs x Hx) as (Hs & Hin & _).
    apply Hne. by rewrite (unique_row _ x w (h_ids _ _ H0') Hin Hw' Hid).
  - apply for_all_own; [|done| |done].
    + intros x s1 Hx. apply Hf. by apply Hxs.
    + intros x Hx. by apply Hxs.
Qed.

(** What a cycle claims is another withdrawal. *)
Lemma claim_spares status to s :
  Withdrawal.holdsLock status = true -> Withdrawal.holdsLock to = true -> wd_status w <> status ->
  moves (spares w) (commit (claimNext status to chain)) s /\
  forall c s', commit (claimNext status to chain) s = (Ok (Some c), s') -> holds ∅ (db s) -> w ∈ withdrawals (db s) ->
    wd_id c <> wd_id w.
Proof using around Hheld.
  intros Hst Hto Hne.
  assert (Hclaim : forall r d, claimNext status to chain (db s) = Ok (r, d) -> holds ∅ (db s) -> w ∈ withdrawals (db s) ->
            spares w (db s) d /\ forall c, r = Some c -> wd_id c <> wd_id w).
  { intros r d H H0 Hw. unfold claimNext in H. inv_ctx.
    match goal with H : match ?o with Some _ => _ | None => _ end _ = _ |- _ => destruct o as [x|] eqn:E end.
    - apply head_filter_elem in E as [Hx [Hxs _]].
      assert (Hid : wd_id x <> wd_id w) by (intros Hid; apply Hne; by rewrite (unique_row _ x w (h_ids _ _ H0) Hx Hw (eq_sym Hid))).
      match goal with H : transition _ _ _ _ _ = _ |- _ => rename H into Ht end.
      assert (Hm := held_transition_minds (wd_id x) status to no_change Hst Hto _ _ _ Ht).
      split; [by apply (minds_spares _ _ _ _ Hheld Hid Hm)|]. intros c ->.
      apply transition_withdrawal in Ht as [_ [[[=] _]|(y & _ & Hy & _ & [= ->] & _)]]; [|apply H0]. simpl. congruence.
    - inv_ctx. split; [done|]. by intros. }
  split.
  - apply (moves_commit _ around_spares). intros r d H H0 Hw. by apply (Hclaim r d H H0 Hw).
  - intros c s' [(r & d & [= <-] & E & _)|(e & [=] & _)]%(commit_inv _ around_spares) H0 Hw.
    by apply (proj2 (Hclaim _ _ E H0 Hw)).
Qed.

Context (Hstatus : wd_status w = Withdrawal.SIGNING \/ wd_status w = Withdrawal.CONFIRMED).

Lemma not_in status :
  status <> Withdrawal.SIGNING -> status <> Withdrawal.CONFIRMED -> wd_status w <> status.
Proof using Hstatus. intros H1 H2 E. rewrite E in Hstatus. by destruct Hstatus. Qed.

Lemma signOne_spares s :
  moves (spares w) (signOne isPublicKey maxRetries chain treasuryAddress keyRefId segregated clearing assets) s.
Proof using around Hheld Hstatus.
  destruct (claim_spares Withdrawal.FUNDS_LOCKED Withdrawal.SIGNING s) as [Hclaim Hother]; [done..|by apply not_in|].
  unfold signOne. apply moves_spares_bind; [done|]. intros [c|] s1 E H0 Hw _ _; [|apply (moves_ret _)].
  apply (moves_bind _); [|intros; apply (moves_ret _)].
  apply (moves_spares (eq (wd_id c))); [by apply (Hother c s1)|by apply sign_claimed_moves].
Qed.

Lemma broadcastOne_spares s : moves (spares w) (broadcastOne maxRetries chain) s.
Proof using around Hheld Hstatus.
  destruct (claim_spares Withdrawal.SIGNED Withdrawal.BROADCAST s) as [Hclaim Hother]; [done..|by apply not_in|].
  unfold broadcastOne. apply moves_spares_bind; [done|]. intros [c|] s1 E H0 Hw _ _; [|apply (moves_ret _)].
  apply (moves_spares (eq (wd_id c))); [by apply (Hother c s1)|by apply send_claimed_moves].
Qed.

Lemma runAllCycles_spares s :
  moves (spares w)
    (runAllCycles isPublicKey maxRetries chain treasuryAddress keyRefId segregated clearing budgets batchSize assets at_) s.
Proof using around Hheld Hstatus.
  unfold runAllCycles, runSigningCycle, runBroadcastCycle, runConfirmationCycle, processRetries. cbn [for_all].
  apply (moves_bind _); [apply (moves_bind _)|].
  - repeat (apply (moves_bind _); [apply pass_spares;
      [done|by apply not_in|intros x s0 Hx Hin; by apply retryOne_moves]|intros [] ? _]). apply (moves_ret _).
  - intros _ s1 _. apply (moves_up_to _). intros. apply signOne_spares.
  - intros n1 s1 _. apply (moves_bind _); [apply (moves_up_to _); intros; apply broadcastOne_spares|].
    intros n2 s2 _. apply (moves_bind _); [|intros; apply (moves_ret _)].
    assert (Hpass : moves (spares w) (xs ← commit (listByStatus Withdrawal.BROADCAST batchSize chain);
                      for_all xs (confirmOne maxRetries assets at_)) s2).
    { apply pass_spares; [done|by apply not_in|intros; by apply confirmOne_moves]. }
    unfold moves, mbind, job_bind in *. destruct (commit _ s2) as [[xs|e] s3]; [|done].
    by destruct (for_all xs _ s3) as [[[]|e] s4].
Qed.
End Stranded.

(** ** Properties *)

(** C17: a withdrawal found in [SIGNING] or [CONFIRMED] is stranded. Beside actors that mind the
    withdrawals, on tables whose locks agree, a withdrawal that is in one of these
    statuses when a pass of the workers begins, as a process leaves it that stops while
    signing or before settling, is exactly the same row when the pass ends: no cycle
    claims it, and its funds stay locked. *)
Theorem stopped_withdrawal_is_stranded {W} `{!Chain W} isPublicKey maxRetries chain treasuryAddress keyRefId segregated
  clearing budgets batchSize assets at_ w (s : Proc W) :
  (forall w d, minds nobody d (others w d).1) -> holds ∅ (db s) -> w ∈ withdrawals (db s) ->
  wd_status w = Withdrawal.SIGNING \/ wd_status w = Withdrawal.CONFIRMED ->
  let s' := (runAllCycles isPublicKey maxRetries chain treasuryAddress keyRefId segregated clearing budgets batchSize
               assets at_ s).2 in
  w ∈ withdrawals (db s') /\ holds ∅ (db s').
Proof.
  intros Ha H0 Hw Hst s'. assert (Hh : held w = true) by (unfold held; by destruct Hst as [-> | ->]).
  destruct (runAllCycles_spares Ha isPublicKey maxRetries chain treasuryAddress keyRefId segregated clearing budgets
              batchSize assets at_ w Hh Hst s H0 Hw). by split.
Qed.
