(* ===== verification/Resends.v ===== *)
(** * Resends: what a lost answer costs

    Proofs about a withdrawal whose signed transaction the node took, when the answer to it
    was lost: the broadcaster, the retries and the signer of [WithdrawalWorkers], run one
    after the other with nobody else acting. No code is modelled here. *)

From S2P Require Import Prelude Assets Ledger Postings States Store Custody Withdrawals Broadcaster WithdrawalWorkers.
From S2P Require Import Locks Requests Nonces.
From Stdlib Require Import ZArith Lia.
From stdpp Require Import base list strings gmap.

Open Scope string_scope.
Open Scope list_scope.
Open Scope Z_scope.

(** ** The one withdrawal in flight *)

(** The statuses out of which a worker takes a withdrawal before it is broadcast. *)
Definition taken_up : list Withdrawal.WithdrawalStatus :=
  [Withdrawal.FUNDS_LOCKED; Withdrawal.SIGNED; Withdrawal.SIGN_FAILED; Withdrawal.BROADCAST_FAILED; Withdrawal.EXPIRED].

(** A withdrawal is the last row, and no other of its chain is to be taken up. *)
Record in_flight (w : WithdrawalRecord) (d : Custody) : Prop := {
  fl_ids : NoDup (wd_id <$> withdrawals d);
  fl_fresh : Requests.fresh (wd_id w) d;
  fl_row : withdrawal_row_ok w = true;
  fl_idle x : x ∈ withdrawals d -> wd_chain x = wd_chain w -> wd_status x ∉ taken_up
}.

Lemma in_flight_patch to p w d : wp_networkFee p = None -> in_flight w d -> in_flight (patch_withdrawal to p w) d.
Proof. intros Hp [Hi Hf Hr Hidle]. split; try done. by apply patch_row_ok. Qed.

Lemma in_flight_tables w d d' : withdrawals d' = withdrawals d -> in_flight w d -> in_flight w d'.
Proof. intros E [Hi Hf Hr Hidle]. split; unfold Requests.fresh in *; rewrite ?E; done. Qed.

Lemma on_chain_flight status w d :
  in_flight w d -> status ∈ taken_up ->
  on_chain status (wd_chain w) (add_row w d) = if bool_decide (wd_status w = status) then [w] else [].
Proof.
  intros Hf Hs. unfold on_chain, add_row. simpl. rewrite filter_app, (filter_none _ (withdrawals d)).
  - rewrite filter_cons, filter_nil. case_bool_decide; case_decide; tauto.
  - intros x Hx [Hst Hc]. apply (fl_idle _ _ Hf x Hx Hc). by rewrite Hst.
Qed.

(** A legal transition of it goes through; a new signed transaction names a nonce account that is there. *)
Lemma transition_flight to p w d :
  in_flight w d -> Withdrawal.canTransition (wd_status w) to = true -> wp_networkFee p = None ->
  match wp_signed p with Some (_, account, _) => exists n, n ∈ nonces d /\ na_id n = account | None => True end ->
  transition (wd_id w) (wd_status w) to p (add_row w d) = Ok (Some (patch_withdrawal to p w), add_row (patch_withdrawal to p w) d).
Proof.
  intros [Hi Hf Hr _] Hc Hfee Hsigned. unfold transition, mbind, ctx_bind, query, refuse_if. rewrite Hc. cbn [negb].
  assert (Hin : w ∈ withdrawals (add_row w d)) by (simpl; apply elem_of_app; right; by left).
  assert (Hnd : NoDup (wd_id <$> withdrawals (add_row w d))) by (by apply add_row_ids).
  assert (Hmiss : match wp_signed p with Some (_, account, _) => negb (existsb (fun n => bool_decide (na_id n = account)) (nonces (add_row w d))) | None => false end = false).
  { destruct (wp_signed p) as [[[signed account] nonce]|]; [|done]. destruct Hsigned as (n & Hn & <-).
    by rewrite (existsb_some _ _ n) by (try apply bool_decide_eq_true; done). }
  cbn [lift_ctx throw_if]. rewrite Hmiss. cbn [lift_ctx throw_if].
  rewrite update_withdrawal_hit; try done; [|by apply bool_decide_eq_true_2|by apply patch_row_ok]. simpl.
  set (s1 := set_withdrawals _ _). etrans; [apply (findById_withdrawal (patch_withdrawal to p w) s1); simpl; [by rewrite replace_ids|apply (replace_elem w); auto]|].
  unfold s1. simpl. by rewrite (replace_last (withdrawals d) w).
Qed.

Section Resend.
Context {W : Type} `{!Chain W} (alone : forall w d, others w d = (d, w)).

Lemma commit_flight to p w d (v : W) :
  in_flight w d -> Withdrawal.canTransition (wd_status w) to = true -> wp_networkFee p = None ->
  match wp_signed p with Some (_, account, _) => exists n, n ∈ nonces d /\ na_id n = account | None => True end ->
  commit (transition (wd_id w) (wd_status w) to p) (mkProc (add_row w d) v) =
    (Ok (Some (patch_withdrawal to p w)), mkProc (add_row (patch_withdrawal to p w) d) v).
Proof using alone. intros. apply (commit_same alone); [by apply transition_flight|done]. Qed.

Lemma claim_flight to w d (v : W) :
  in_flight w d -> wd_status w ∈ taken_up -> Withdrawal.canTransition (wd_status w) to = true ->
  commit (claimNext (wd_status w) to (wd_chain w)) (mkProc (add_row w d) v) =
    (Ok (Some (patch_withdrawal to no_change w)), mkProc (add_row (patch_withdrawal to no_change w) d) v).
Proof using alone.
  intros Hf Hs Hc. apply (commit_same alone); [|done]. unfold claimNext, mbind, ctx_bind, query. cbn [db].
  rewrite (on_chain_flight (wd_status w) w d Hf Hs), bool_decide_eq_true_2 by done. simpl. by apply (transition_flight to no_change).
Qed.

Lemma call_alone {A} (f : W -> A * W) d v : call f (mkProc d v) = (Ok (f v).1, mkProc d (f v).2).
Proof using alone. unfold call, yield. simpl. destruct (f v) as [a v']. simpl. by rewrite alone. Qed.

Lemma job_run {A B} (m : job W A) (k : A -> job W B) s a s1 : m s = (Ok a, s1) -> (m ≫= k) s = k a s1.
Proof using. intros E. unfold mbind, job_bind. by rewrite E. Qed.

Context (maxRetries : nat) (budgets : RetryBudgets) (batchSize : nat).

(** *** The answer is lost *)

(** The row once the broadcast failed, and once it is to be signed again. *)
Definition failed_row (w : WithdrawalRecord) : WithdrawalRecord :=
  patch_withdrawal Withdrawal.BROADCAST_FAILED (increment edge_broadcast) (patch_withdrawal Withdrawal.BROADCAST no_change w).
Definition locked_row (w : WithdrawalRecord) : WithdrawalRecord :=
  patch_withdrawal Withdrawal.FUNDS_LOCKED no_change (failed_row w).

Lemma failed_flight w d : in_flight w d -> in_flight (failed_row w) d.
Proof using. intros. unfold failed_row. by apply in_flight_patch, in_flight_patch. Qed.

Lemma broadcast_lost w d v v' signed e :
  in_flight w d -> wd_status w = Withdrawal.SIGNED -> wd_signedTransaction w = Some signed ->
  rpc_call "sendRawTransaction" maxRetries (sendRawTransaction signed) v = (Throw e, v') ->
  broadcastOne maxRetries (wd_chain w) (mkProc (add_row w d) v) = (Ok true, mkProc (add_row (failed_row w) d) v').
Proof using alone.
  intros Hf Hst Hsg Hrpc. unfold broadcastOne. rewrite <- Hst.
  erewrite job_run by (apply (claim_flight Withdrawal.BROADCAST w d v Hf); rewrite Hst; [unfold taken_up; set_solver|done]).
  set (w1 := patch_withdrawal Withdrawal.BROADCAST no_change w). assert (Hf1 : in_flight w1 d) by by apply in_flight_patch.
  cbn beta iota. replace (wd_signedTransaction w1) with (Some signed) by done. cbn beta iota.
  assert (Hb : broadcast maxRetries signed v = (broadcast_rejected "rpc_rejected", v')).
  { pose proof (broadcast_classifies_nothing maxRetries signed v) as [(sig & _ & H)|H]; unfold broadcast in *; rewrite Hrpc in *; [done|].
    simpl in *. by rewrite H. }
  erewrite job_run by apply call_alone. rewrite Hb. cbn [fst snd].
  erewrite job_run; [reflexivity|]. unfold fail_broadcast.
  erewrite job_run by (apply (commit_flight _ _ w1 d v' Hf1); done). reflexivity.
Qed.

(** The pass that retries finds it, and nothing else to retry. *)
Lemma list_flight status w d v :
  in_flight w d -> status ∈ taken_up ->
  commit (listByStatus status (S batchSize) (wd_chain w)) (mkProc (add_row w d) v) =
    (Ok (if bool_decide (wd_status w = status) then [w] else []), mkProc (add_row w d) v).
Proof using alone.
  intros Hf Hs. unfold listByStatus. rewrite (commit_query alone). cbn [db]. rewrite (on_chain_flight status w d Hf Hs).
  case_bool_decide; simpl; by rewrite ?take_nil.
Qed.

Lemma retry_flight w d v :
  in_flight w d -> wd_status w = Withdrawal.BROADCAST_FAILED -> wd_broadcastAttempts w < b_broadcast budgets ->
  retryOne budgets edge_broadcast w (mkProc (add_row w d) v) =
    (Ok tt, mkProc (add_row (patch_withdrawal Withdrawal.FUNDS_LOCKED no_change w) d) v).
Proof using alone.
  intros Hf Hst Hb. unfold retryOne.
  assert (E : attempts edge_broadcast w >=? budget budgets edge_broadcast = false) by (unfold attempts, budget; rewrite Z.geb_leb; by apply Z.leb_gt).
  rewrite E. cbn [edge_status]. rewrite <- Hst. erewrite job_run by reflexivity.
  erewrite job_run by (apply commit_flight; rewrite ?Hst; done). reflexivity.
Qed.

Lemma retried w d v :
  in_flight w d -> wd_status w = Withdrawal.BROADCAST_FAILED -> wd_broadcastAttempts w < b_broadcast budgets ->
  processRetries (wd_chain w) budgets (S batchSize) (mkProc (add_row w d) v) =
    (Ok tt, mkProc (add_row (patch_withdrawal Withdrawal.FUNDS_LOCKED no_change w) d) v).
Proof using alone.
  intros Hf Hst Hb. unfold processRetries. cbn [for_all edge_status].
  erewrite job_run; cycle 1.
  { erewrite job_run by (apply list_flight; [done|unfold taken_up; set_solver]). rewrite Hst. reflexivity. }
  erewrite job_run; cycle 1.
  { erewrite job_run by (apply list_flight; [done|unfold taken_up; set_solver]). rewrite Hst. cbn [bool_decide decide_rel].
    rewrite bool_decide_eq_true_2 by done. cbn [for_all]. by erewrite job_run by (by apply retry_flight). }
  set (w1 := patch_withdrawal _ _ w). assert (Hf1 : in_flight w1 d) by by apply in_flight_patch.
  erewrite job_run; [reflexivity|]. change (wd_chain w) with (wd_chain w1).
  erewrite job_run by (apply list_flight; [done|unfold taken_up; set_solver]). reflexivity.
Qed.

(** *** It is sent again *)

Definition sent_row (w : WithdrawalRecord) (tx : string) : WithdrawalRecord :=
  mkWithdrawal (wd_id w) (wd_user w) (wd_chain w) (wd_asset w) (wd_amount w) (wd_networkFee w) (wd_destination w) (wd_purpose w)
    Withdrawal.BROADCAST (wd_idempotencyKey w) (wd_signAttempts w) (wd_broadcastAttempts w) (wd_expiryAttempts w)
    (wd_signedTransaction w) (Some tx) (wd_nonceAccountId w) (wd_nonceValue w) (wd_failureReason w) (wd_createdAt w) (wd_settledAt w).

Lemma broadcast_taken w d v v' signed tx :
  in_flight w d -> wd_status w = Withdrawal.SIGNED -> wd_signedTransaction w = Some signed ->
  rpc_call "sendRawTransaction" maxRetries (sendRawTransaction signed) v = (Ok tx, v') ->
  broadcastOne maxRetries (wd_chain w) (mkProc (add_row w d) v) = (Ok true, mkProc (add_row (sent_row w tx) d) v').
Proof using alone.
  intros Hf Hst Hsg Hrpc. unfold broadcastOne. rewrite <- Hst.
  erewrite job_run by (apply (claim_flight Withdrawal.BROADCAST w d v Hf); rewrite Hst; [unfold taken_up; set_solver|done]).
  set (w1 := patch_withdrawal Withdrawal.BROADCAST no_change w). assert (Hf1 : in_flight w1 d) by by apply in_flight_patch.
  cbn beta iota. replace (wd_signedTransaction w1) with (Some signed) by done. cbn beta iota.
  erewrite job_run by apply call_alone. unfold broadcast. rewrite Hrpc. cbn [fst snd read_broadcast].
  erewrite job_run; [reflexivity|]. apply (commit_same alone); [|done]. unfold recordSignature, mbind, ctx_bind. cbn [db].
  rewrite update_withdrawal_hit; [|by apply add_row_ids; apply Hf1|simpl; apply elem_of_app; right; by left|done|done|exact (fl_row _ _ Hf)].
  simpl. by rewrite (replace_last (withdrawals d) w1) by (try apply Hf1; done).
Qed.

(** *** It is signed again *)

Lemma call_result_alone {A} (f : W -> result A * W) d v a v' :
  f v = (Ok a, v') -> call_result f (mkProc d v) = (Ok a, mkProc d v').
Proof using alone. intros E. unfold call_result. erewrite job_run by apply call_alone. by rewrite E. Qed.

(** One round of signing, whether or not its request was open already. *)
Lemma sign_round w m d v address keyRef requestId signature v' :
  sign requestId keyRef m v = (Ok signature, v') -> String.length signature = 64%nat ->
  exists d', sign_rounds w m [mkRound address keyRef requestId] (mkProc (add_row w d) v) =
    (Ok [(address, signature)], mkProc (add_row w d') v') /\
    withdrawals d' = withdrawals d /\ nonces d' = nonces d /\ books d' = books d.
Proof using alone.
  intros Hs Hl. cbn [sign_rounds rd_requestId rd_keyRef rd_address]. unfold findByRequestId.
  erewrite job_run by (rewrite (commit_query alone); reflexivity). cbn [db]. cbn beta iota.
  assert (Hrest : forall d', (signature ← call_result (sign requestId keyRef m);
      _ ← of_result (throw_if (negb (String.length signature =? 64)%nat) (GenericError "expected 64 bytes"));
      rest ← mret []; mret ((address, signature) :: rest)) (mkProc (add_row w d') v) = (Ok [(address, signature)], mkProc (add_row w d') v')).
  { intros d'. erewrite job_run by (by apply call_result_alone). rewrite Hl. reflexivity. }
  destruct (head _) as [r|] eqn:E.
  - exists d. split; [|done]. erewrite job_run by reflexivity. apply Hrest.
  - exists (set_signings (signings d ++ [mkSigning (wd_id w) requestId keyRef requested]) d). split; [|done].
    erewrite job_run; [apply Hrest|]. apply (commit_same alone); [|done].
    unfold open, findByRequestId, mbind, ctx_bind, query, refuse_if. cbn [db]. by rewrite E.
Qed.

Context (isPublicKey : string -> bool) (treasuryAddress keyRefId : string).
Context (clearing : option (string * string)) (assets : AssetRegistry).

(** The message that pays a withdrawal of the native asset from the treasury, and the transaction. *)
Definition payment (w : WithdrawalRecord) (nonceAccount nonce : string) : Message :=
  native_transfer treasuryAddress treasuryAddress (wd_destination w) (wd_amount w) nonceAccount treasuryAddress nonce.

Definition payment_signed (w : WithdrawalRecord) (nonceAccount nonce signature : string) : Signed :=
  mkSigned (payment w nonceAccount nonce) [(treasuryAddress, signature)].

(** The withdrawals of this section. *)
Record payable (w : WithdrawalRecord) (account : NonceAccountRecord) : Prop := {
  pb_purpose : wd_purpose w <> deallocation;
  pb_native : isToken assets (wd_asset w) = false;
  pb_amount : 0 < wd_amount w <= MAX_SAFE_INTEGER;
  pb_keys : Forall (fun a => isPublicKey a = true) [treasuryAddress; na_address account; wd_destination w]
}.

Lemma distinct_once x : distinct [x; x; x] = [x].
Proof using. assert (E : bool_decide (x ∈ [x]) = true) by (apply bool_decide_eq_true_2; by left). unfold distinct. simpl. by rewrite !E. Qed.

Lemma payment_built w account nonce :
  payable w account ->
  buildWithdrawalTransaction isPublicKey treasuryAddress treasuryAddress (wd_destination w) (wd_amount w) (na_address account) treasuryAddress nonce =
    Ok (mkUnsigned (payment w (na_address account) nonce) [treasuryAddress]).
Proof using.
  intros [_ _ [Hpos Hmax] Hk]. inversion_clear Hk as [|? ? Ht Hk']. inversion_clear Hk' as [|? ? Ha Hk]. inversion_clear Hk as [|? ? Hd _].
  unfold buildWithdrawalTransaction. rewrite (proj2 (Z.leb_gt _ _)) by done. rewrite Z.gtb_ltb, (proj2 (Z.ltb_ge _ _)) by done.
  unfold toPublicKey. simpl. rewrite Ht, Ha, Hd. simpl. by rewrite distinct_once.
Qed.

(** The row that is signed. *)
Definition signed_row (w : WithdrawalRecord) (account : NonceAccountRecord) (nonce signature : string) : WithdrawalRecord :=
  patch_withdrawal Withdrawal.SIGNED
    (mkWithdrawalPatch (Some (payment_signed w (na_address account) nonce signature, na_id account, nonce)) None None None None)
    (patch_withdrawal Withdrawal.SIGNING no_change w).

Lemma signed_again w d v account nonce v1 signature v2 :
  in_flight w d -> wd_status w = Withdrawal.FUNDS_LOCKED -> payable w account -> lessee (wd_id w) (nonces d) = Some account ->
  readNonce maxRetries (na_address account) v = (Ok (Some nonce), v1) ->
  sign (request_id w nonce) keyRefId (payment w (na_address account) nonce) v1 = (Ok signature, v2) -> String.length signature = 64%nat ->
  exists d', signOne isPublicKey maxRetries (wd_chain w) treasuryAddress keyRefId false clearing assets (mkProc (add_row w d) v) =
    (Ok true, mkProc (add_row (signed_row w account nonce signature) d') v2) /\
    withdrawals d' = withdrawals d /\ nonces d' = nonces d /\ books d' = books d.
Proof using alone.
  intros Hf Hst Hp Hlease Hnonce Hsign Hlen. set (w1 := patch_withdrawal Withdrawal.SIGNING no_change w).
  assert (Hf1 : in_flight w1 d) by by apply in_flight_patch.
  destruct (sign_round w1 (payment w (na_address account) nonce) d v1 treasuryAddress keyRefId (request_id w nonce) signature v2 Hsign Hlen)
    as (d1 & Hround & Hw1 & Hn1 & Hb1).
  set (d2 := set_signings (map (fun r => if bool_decide (sr_requestId r = request_id w nonce)
    then mkSigning (sr_withdrawalId r) (sr_requestId r) (sr_keyRef r) succeeded else r) (signings d1)) d1).
  exists d2. split; [|done]. unfold signOne. rewrite <- Hst.
  erewrite job_run by (apply (claim_flight Withdrawal.SIGNING w d v Hf); rewrite Hst; [unfold taken_up; set_solver|done]).
  fold w1. cbn beta iota. erewrite job_run; [reflexivity|]. unfold catch.
  assert (E : sign_claimed isPublicKey maxRetries (wd_chain w) treasuryAddress keyRefId false clearing assets w1 (mkProc (add_row w1 d) v) =
    (Ok tt, mkProc (add_row (signed_row w account nonce signature) d2) v2)); [|by rewrite E].
  unfold sign_claimed. erewrite job_run; cycle 1.
  { apply (commit_same alone _ _ (Some account) (add_row w1 d)); [|done]. cbn [db]. rewrite lease_eq.
    change (lessee (wd_id w1) (nonces (add_row w1 d))) with (lessee (wd_id w) (nonces d)). by rewrite Hlease. }
  cbn beta iota. erewrite job_run by (by apply call_result_alone). cbn beta iota.
  erewrite job_run by reflexivity.
  erewrite (job_run (source_of _ _ _ _ _)); cycle 1.
  { unfold source_of. rewrite bool_decide_eq_false_2 by apply Hp. reflexivity. }
  cbn beta iota. change (wd_asset w1) with (wd_asset w). rewrite (pb_native _ _ Hp). cbn [fst snd].
  erewrite job_run; cycle 1.
  { unfold of_result. change (wd_destination w1) with (wd_destination w). change (wd_amount w1) with (wd_amount w). by rewrite payment_built. }
  cbn beta iota. unfold rounds. cbn [signers map fst snd message].
  rewrite bool_decide_eq_true_2 by done. cbn [negb andb]. change (request_id w1 nonce) with (request_id w nonce).
  erewrite job_run by exact Hround. cbn beta.
  erewrite job_run; cycle 1.
  { unfold of_result, attachSignatures. cbn [for_each snd fst message message_signers payment]. rewrite Hlen, distinct_once.
    rewrite bool_decide_eq_true_2 by by left. reflexivity. }
  cbn beta. cbn [for_all]. erewrite job_run; cycle 1.
  { erewrite job_run; [reflexivity|]. by apply (commit_same alone _ _ tt (add_row w1 d2)). }
  assert (Hf2 : in_flight w1 d2) by (by apply (in_flight_tables w1 d)).
  erewrite job_run; [reflexivity|].
  apply (commit_flight Withdrawal.SIGNED (mkWithdrawalPatch (Some (payment_signed w (na_address account) nonce signature, na_id account, nonce)) None None None None) w1 d2);
    try done. simpl. exists account. split; [|done]. rewrite Hn1.
  by apply head_Some_elem_of, list_elem_of_filter in Hlease as [_ ?].
Qed.

(** *** What has landed stays *)

Record chain_keeps (landed : W -> list Message) : Prop := {
  ck_nonce address v m : m ∈ landed v -> m ∈ landed (getNonceAccount address v).2;
  ck_sign id key message v m : m ∈ landed v -> m ∈ landed (sign id key message v).2;
  ck_send signed v m : m ∈ landed v -> m ∈ landed (sendRawTransaction signed v).2
}.

Lemma rpc_keeps {A} (landed : W -> list Message) operation n (f : W -> result A * W) m :
  (forall v, m ∈ landed v -> m ∈ landed (f v).2) -> forall v, m ∈ landed v -> m ∈ landed (rpc_call operation n f v).2.
Proof using.
  intros Hf. induction n as [|n IH]; intros v Hv; simpl; pose proof (Hf v Hv) as H; destruct (f v) as [[a|e] v1]; try done.
  destruct (isRetryable e); [by apply IH|done].
Qed.

(** C18: A lost answer pays twice. Take a withdrawal of the native asset from the treasury, signed, of
    an amount and between addresses that the builder accepts, with a nonce account leased and
    broadcasts left in its budget; the only one of its chain to be taken up, on a chain from
    which nothing that landed vanishes, with nobody else acting. The node takes its
    transaction and it lands, but no answer comes back, within as many calls as are made. Then
    the broadcaster fails it and the retry makes of the tables what they are whether or not it
    landed: a row whose funds are locked, to be signed. It is signed again, the signer
    answering, on the nonce that the first payment advanced, and sent; when this lands too, two
    different payments of its amount to its destination have, although the books hold the one
    lock of it that they held before, and its row the reference of the second payment alone. *)
Theorem lost_answer_pays_twice (landed : W -> list Message) w d v signed account old e v1 nonce v2 signature v3 tx v4 :
  chain_keeps landed -> in_flight w d -> wd_status w = Withdrawal.SIGNED -> payable w account ->
  wd_broadcastAttempts w + 1 < b_broadcast budgets -> lessee (wd_id w) (nonces d) = Some account ->
  wd_signedTransaction w = Some signed -> sg_message signed = payment w (na_address account) old ->
  rpc_call "sendRawTransaction" maxRetries (sendRawTransaction signed) v = (Throw e, v1) -> sg_message signed ∈ landed v1 ->
  readNonce maxRetries (na_address account) v1 = (Ok (Some nonce), v2) -> nonce <> old ->
  sign (request_id w nonce) keyRefId (payment w (na_address account) nonce) v2 = (Ok signature, v3) -> String.length signature = 64%nat ->
  rpc_call "sendRawTransaction" maxRetries (sendRawTransaction (payment_signed w (na_address account) nonce signature)) v3 = (Ok tx, v4) ->
  payment w (na_address account) nonce ∈ landed v4 ->
  let once := broadcastOne maxRetries (wd_chain w) (mkProc (add_row w d) v) in
  let retried := processRetries (wd_chain w) budgets (S batchSize) once.2 in
  let resigned := signOne isPublicKey maxRetries (wd_chain w) treasuryAddress keyRefId false clearing assets retried.2 in
  let twice := broadcastOne maxRetries (wd_chain w) resigned.2 in
  retried = (Ok tt, mkProc (add_row (locked_row w) d) v1) /\ resigned.1 = Ok true /\ twice.1 = Ok true /\
  (payment w (na_address account) old ∈ landed (world twice.2) /\ payment w (na_address account) nonce ∈ landed (world twice.2) /\
   payment w (na_address account) old <> payment w (na_address account) nonce) /\
  books (db twice.2) = books d /\
  exists w', withdrawals (db twice.2) = withdrawals d ++ [w'] /\ same_withdrawal w w' /\
    wd_status w' = Withdrawal.BROADCAST /\ wd_txSignature w' = Some tx.
Proof using alone.
  intros Hk Hf Hst Hp Hbudget Hlease Hsg Hold Hrpc1 Hland1 Hnonce Hne Hsign Hlen Hrpc2 Hland2. cbn zeta.
  rewrite (broadcast_lost w d v v1 signed e Hf Hst Hsg Hrpc1). cbn [snd].
  pose proof (retried (failed_row w) d v1 (failed_flight w d Hf) eq_refl Hbudget) as Hr.
  change (wd_chain (failed_row w)) with (wd_chain w) in Hr. fold (locked_row w) in Hr. rewrite Hr. cbn [snd].
  assert (Hf3 : in_flight (locked_row w) d) by (by apply in_flight_patch, failed_flight).
  destruct (signed_again (locked_row w) d v1 account nonce v2 signature v3 Hf3 eq_refl) as (d' & E & Hw & Hn & Hb); try done; [by destruct Hp; split|].
  change (wd_chain (locked_row w)) with (wd_chain w) in E. rewrite E. cbn [snd fst].
  set (w5 := signed_row (locked_row w) account nonce signature) in *.
  assert (Hf5 : in_flight w5 d') by (apply (in_flight_tables w5 d); [done|by apply in_flight_patch, in_flight_patch]).
  pose proof (broadcast_taken w5 d' v3 v4 _ tx Hf5 eq_refl eq_refl Hrpc2) as Hb2. change (wd_chain w5) with (wd_chain w) in Hb2. rewrite Hb2. cbn [fst snd world db].
  split; [done|]. split; [done|]. split; [done|]. split; [split; [|split; [done|by intros [= ->]]]|].
  - rewrite <- Hold. pose proof (rpc_keeps landed "getAccountInfo(nonce)" maxRetries (getNonceAccount (na_address account)) (sg_message signed) (fun u => ck_nonce landed Hk _ u _) v1 Hland1) as H2.
    assert (Hv2 : sg_message signed ∈ landed v2).
    { unfold readNonce in Hnonce. destruct (rpc_call "getAccountInfo(nonce)" _ _ v1) as [r u]. by injection Hnonce as _ <-. }
    pose proof (ck_sign landed Hk (request_id w nonce) keyRefId (payment w (na_address account) nonce) v2 _ Hv2) as Hv3. rewrite Hsign in Hv3.
    pose proof (rpc_keeps landed "sendRawTransaction" maxRetries (sendRawTransaction (payment_signed w (na_address account) nonce signature)) (sg_message signed) (fun u => ck_send landed Hk _ u _) v3 Hv3) as Hv4.
    by rewrite Hrpc2 in Hv4.
  - split; [exact Hb|]. exists (sent_row w5 tx). simpl. by rewrite Hw.
Qed.
End Resend.
