(* ===== verification/WithdrawalRuns.v ===== *)
(** * Withdrawals, run

    A toy chain with one nonce account, a user with funds, and the service and the workers
    of [Withdrawals] and [WithdrawalWorkers] run on them: the witnesses of the theorems on
    withdrawals, and what goes wrong when an answer is lost or a process stops between two
    commits. No code is modelled here. *)

From S2P Require Import Prelude Risk Assets Ledger Postings States Store Books Gateway Custody Withdrawals.
From S2P Require Import Broadcaster WithdrawalWorkers Locks Escrow Payments Requests Nonces Stranded Resends.
From Stdlib Require Import ZArith Lia.
From stdpp Require Import base list strings gmap relations.

Open Scope string_scope.
Open Scope list_scope.
Open Scope Z_scope.

(** ** A toy chain *)

(** One nonce account, the messages that landed, and how many answers will be lost. *)
Record Toy := mkToy { toy_nonce : nat; toy_landed : list Message; toy_lost : nat }.

Fixpoint tally (n : nat) : string := match n with O => "" | S n => "i" +:+ tally n end.

Definition nonce_of (m : Message) : string :=
  match m with
  | native_transfer _ _ _ _ _ _ nonce => nonce
  | token_transfer _ _ _ _ _ _ _ _ nonce => nonce
  end.

(** A transaction on the current nonce lands and advances it; its answer may be lost. *)
Definition toy_send (signed : Signed) (w : Toy) : result string * Toy :=
  let m := sg_message signed in
  let lands := bool_decide (nonce_of m = tally (toy_nonce w)) in
  let w' := mkToy (if lands then S (toy_nonce w) else toy_nonce w)
              (if lands then toy_landed w ++ [m] else toy_landed w) (Nat.pred (toy_lost w)) in
  (match toy_lost w with
   | S _ => Throw (GenericError "timeout after 10000ms: sendRawTransaction")
   | O => Ok ("tx" +:+ nonce_of m)
   end, w').

#[export] Instance toy_others : Others Toy := fun w d => (d, w).

#[export] Instance toy_rpc : Rpc Toy := {|
  getNonceAccount _ w := (Ok (Some (Some (tally (toy_nonce w)))), w);
  getTokenAccount _ _ w := (Ok true, w);
  sendRawTransaction := toy_send;
  getSignatureStatuses signature w :=
    (Ok (if existsb (fun m => bool_decide ("tx" +:+ nonce_of m = signature)) (toy_landed w)
         then Some (false, true) else None), w);
  getTransactionFee _ w := (Ok (Some 10), w)
|}.

Definition a_signature : string := tally 64.

#[export] Instance toy_chain : Chain Toy := {|
  resolve user w := (Ok ("treasury", "treasury-key"), w);
  sign _ _ _ w := (Ok a_signature, w)
|}.

(** ** A user with funds *)

Definition run_assets : AssetRegistry :=
  match createAssetRegistry devnet 9 [] with Ok r => r | Throw _ => mkAssetRegistry devnet "" [] [] [] 0 end.

Definition run_store : Store :=
  match fund [PDeposit (mkDeposit "d1" "alice" "devnet:SOL" 1000 None);
              PHouseFunding (mkHouse "h1" "devnet:SOL" 100)] (empty_store demo_users) with
  | Ok s => s | Throw _ => empty_store demo_users end.

Definition run_chain : string := "solana:devnet".

Definition run_custody : Custody :=
  mkCustody run_store [] [] [] [] [] [mkNonce "n1" run_chain "nonce-account" available None] [] [].

Definition run_policy : RiskPolicy :=
  mkPolicy ["devnet:SOL"] {["devnet:SOL" := mkLimits 1000 1500 1000]} 60 3 false Absent 90.

Definition run_input : RequestWithdrawalInput := mkRequest "alice" "devnet:SOL" 400 "destination" "key-1".

Definition run_request (id : string) (input : RequestWithdrawalInput) : job Toy WithdrawalRecord :=
  request (fun _ => safe) run_policy run_chain None [] id 1700000000000 input.

Definition run_cycles : job Toy (Z * Z * Z) :=
  runAllCycles (fun _ => true) 0 run_chain "treasury" "treasury-key" false None (mkBudgets 3 3 3) 10 run_assets
    1700000000000.

Definition after {A} (m : job Toy A) (s : Proc Toy) : Proc Toy := (m s).2.

Definition run_start (lost : nat) : Proc Toy := mkProc run_custody (mkToy 0 [] lost).

(** What the chain has paid to an address. *)
Definition paid (to : string) (w : Toy) : Z :=
  sum_if (fun _ => true) (fun m =>
    match m with
    | native_transfer _ _ to' lamports _ _ _ => if bool_decide (to' = to) then lamports else 0
    | token_transfer _ _ _ _ _ _ _ _ _ => 0
    end) (toy_landed w).

Definition balance (ref : AccountRef) (s : Proc Toy) : Z := credit_balance ref (books (db s)).

(** The one withdrawal of a run. *)
Definition the_withdrawal (s : Proc Toy) : option WithdrawalRecord := head (withdrawals (db s)).

(** A node that refuses every address, and one attempt at signing. *)
Definition failing_cycles : job Toy (Z * Z * Z) :=
  runAllCycles (fun _ => false) 0 run_chain "treasury" "treasury-key" false None (mkBudgets 1 3 3) 10 run_assets
    1700000000000.

Definition stop_after_release (s : Proc Toy) : Proc Toy :=
  match the_withdrawal s with Some w => after (releaseLock w) s | None => s end.

(** ** Properties *)

(** A lost answer, run to the end. Alice asks for 400 of the 1000 she has. The node takes the signed
    transaction, which lands, but its answer times out: the withdrawal goes to
    [BROADCAST_FAILED], the next pass signs it again on the nonce the first payment has
    advanced, and it lands again. The chain has paid 800 when the ledger settles 400. *)
Example lost_answer_run :
  let requested := after (run_request "w1" run_input) (run_start 1) in
  let once := after run_cycles requested in
  let twice := after run_cycles once in
  wd_status <$> the_withdrawal once = Some Withdrawal.BROADCAST_FAILED /\ paid "destination" (world once) = 400 /\
  wd_status <$> the_withdrawal twice = Some Withdrawal.SETTLED /\ paid "destination" (world twice) = 800 /\
  balance (userCustodyAvailable "alice" "devnet:SOL") twice = 600 /\
  balance (userCustodyLocked "alice" "devnet:SOL") twice = 0.
Proof. vm_compute. repeat split. Qed.

(** A process that stops while giving up releases the lock twice. The withdrawal of 400 cannot
    be signed and its budget is spent. Giving up releases its lock and the process stops
    before the withdrawal is [FAILED]; the next pass gives up again. Alice, who deposited
    1000 and was paid nothing, then has 1400 to spend. *)
Theorem giving_up_again_releases_twice :
  let requested := after (run_request "w1" run_input) (run_start 0) in
  let unsigned := after failing_cycles requested in
  let stopped := stop_after_release unsigned in
  let resumed := after failing_cycles stopped in
  wd_status <$> the_withdrawal unsigned = Some Withdrawal.SIGN_FAILED /\
  balance (userCustodyAvailable "alice" "devnet:SOL") stopped = 1000 /\
  wd_status <$> the_withdrawal resumed = Some Withdrawal.FAILED /\
  balance (userCustodyAvailable "alice" "devnet:SOL") resumed = 1400 /\
  balance (userCustodyLocked "alice" "devnet:SOL") resumed = -400.
Proof. vm_compute. repeat split. Qed.

(** A request counts itself. The policy allows 1000 in one withdrawal and 1500 in a day; alice,
    who has made none, asks for 800 of the 1000 she has, and is denied for the daily limit. *)
Theorem first_request_denied_by_itself :
  let denied := run_request "w1" (mkRequest "alice" "devnet:SOL" 800 "destination" "key-1") (run_start 0) in
  denied.1 = Throw (PolicyDeniedError (toClientMessage [DAILY_LIMIT])) /\
  (d_codes ∘ wr_decision) <$> decided (db denied.2) = [[DAILY_LIMIT]] /\
  wd_status <$> the_withdrawal denied.2 = Some Withdrawal.REJECTED.
Proof. vm_compute. repeat split. Qed.

(** ** Witnesses *)

Lemma toy_around (T : Custody -> Custody -> Prop) `{!PreOrder T} w d : T d (others (W:=Toy) w d).1.
Proof. reflexivity. Qed.

Lemma toy_minds w d : minds nobody d (others (W:=Toy) w d).1.
Proof. reflexivity. Qed.

Lemma fund_same_locks ps s s' :
  forallb (fun p => negb (about_locks p)) ps = true -> fund ps s = Ok s' -> same_locks s s'.
Proof.
  revert s. induction ps as [|p ps IH]; intros s Hp H; simpl in *; [by injection H as <-|].
  apply andb_true_iff in Hp as [Hp%negb_true_iff Hps].
  destruct (withTransaction _ s) as [[[] s1]|] eqn:E; [|done].
  etrans; [|by apply (IH s1)]. apply withTransaction_Ok in E as [E _]. by eapply post_same_locks.
Qed.

(** Nothing is locked to begin with: the tables hold no withdrawal. *)
Lemma run_holds lost : holds ∅ (db (run_start lost)).
Proof.
  split; simpl; [apply NoDup_nil_2|done|by intros|]. intros t u a.
  rewrite (fund_same_locks [PDeposit (mkDeposit "d1" "alice" "devnet:SOL" 1000 None);
             PHouseFunding (mkHouse "h1" "devnet:SOL" 100)] (empty_store demo_users) run_store);
    [by destruct t|reflexivity|vm_compute; reflexivity].
Qed.

(** The request locks the funds, and the locks agree. *)
Lemma service_keeps_locks_witness :
  (forall w d, minds nobody d (others (W:=Toy) w d).1) /\ holds ∅ (db (run_start 0)) /\
  wd_status <$> withdrawals (db (after (run_request "w1" run_input) (run_start 0))) = [Withdrawal.FUNDS_LOCKED] /\
  holds ∅ (db (after (run_request "w1" run_input) (run_start 0))).
Proof.
  split; [apply toy_minds|]. split; [apply run_holds|]. split; [vm_compute; reflexivity|].
  exact (proj1 (proj1 (service_keeps_locks (fun _ => safe) run_policy run_chain None [] "w1" 1700000000000 run_input
    (mkInternal "alice" "devnet:SOL" 1 "k" allocation "clearing") "w1" (run_start 0) toy_minds (run_holds 0)))).
Defined.

Lemma requested_holds lost : holds ∅ (db (after (run_request "w1" run_input) (run_start lost))).
Proof.
  destruct (request_moves (minds nobody) toy_minds (fun _ => safe) run_policy
              run_chain None [] "w1" 1700000000000 run_input (run_start lost)) as [_ H].
  by apply (H ∅); [|apply run_holds].
Qed.

(** From the request to settlement. *)
Lemma workers_keep_locks_witness :
  let requested := after (run_request "w1" run_input) (run_start 0) in
  holds ∅ (db requested) /\
  wd_status <$> withdrawals (db (after run_cycles requested)) = [Withdrawal.SETTLED] /\
  holds ∅ (db (after run_cycles requested)).
Proof.
  intros requested. assert (H0 : holds ∅ (db requested)) by apply requested_holds.
  split; [exact H0|]. split; [vm_compute; reflexivity|].
  exact (proj1 (workers_keep_locks (fun _ => true) 0 run_chain "treasury" "treasury-key" false None (mkBudgets 3 3 3)
    10 run_assets 1700000000000 requested toy_minds H0)).
Defined.

Lemma signed_pays_the_withdrawal_witness :
  let requested := after (run_request "w1" run_input) (run_start 0) in
  let signed := after run_cycles requested in
  (sg_message <$> (the_withdrawal signed ≫= wd_signedTransaction)) =
    Some (native_transfer "treasury" "treasury" "destination" 400 "nonce-account" "treasury" "") /\
  all_right "treasury" false None run_assets (db signed).
Proof.
  intros requested signed.
  assert (Hr : all_right "treasury" false None run_assets (db requested)).
  { split; [vm_compute; apply NoDup_singleton|].
    assert (H : Forall (fun w => wd_signedTransaction w = None) (withdrawals (db requested))) by (vm_compute; auto).
    intros w Hw sg Hsg. rewrite Forall_forall in H. rewrite (H w Hw) in Hsg. discriminate. }
  split; [vm_compute; reflexivity|].
  exact (proj1 (signed_pays_the_withdrawal (fun _ => true) 0 run_chain "treasury" "treasury-key" false None
    (mkBudgets 3 3 3) 10 run_assets 1700000000000 (fun _ => safe) run_policy None [] "w1" run_input
    (mkInternal "alice" "devnet:SOL" 1 "k" allocation "clearing") "w1" requested
    (toy_around (keeps_right _ _ _ _)) Hr)).
Defined.


Lemma run_nonces : nonces_ok (nonces run_custody).
Proof.
  split; [vm_compute; apply NoDup_singleton| |].
  - intros n1 n2 w ->%list_elem_of_singleton ->%list_elem_of_singleton. done.
  - intros n ->%list_elem_of_singleton. split; [done|by intros []].
Qed.

Definition run_leased : Custody :=
  set_nonces [mkNonce "n1" run_chain "nonce-account" leased (Some "w1")] run_custody.

Lemma lease_exclusive_witness :
  lease run_chain "w1" run_custody = Ok (Some (mkNonce "n1" run_chain "nonce-account" leased (Some "w1")), run_leased) /\
  nonces_ok (nonces run_leased) /\ lease run_chain "w2" run_leased = Ok (None, run_leased).
Proof.
  assert (E : lease run_chain "w1" run_custody =
            Ok (Some (mkNonce "n1" run_chain "nonce-account" leased (Some "w1")), run_leased)) by reflexivity.
  split; [exact E|]. split; [|reflexivity].
  exact (proj1 (lease_exclusive run_chain "w1" run_custody _ run_leased run_nonces E)).
Defined.

(** The process stops when the withdrawal is confirmed and not yet settled. *)
Definition run_stopped : Proc Toy :=
  let sent := after (broadcastOne 0 run_chain)
                (after (signOne (fun _ => true) 0 run_chain "treasury" "treasury-key" false None run_assets)
                   (after (run_request "w1" run_input) (run_start 0))) in
  after (commit (transition "w1" Withdrawal.BROADCAST Withdrawal.CONFIRMED no_change)) sent.

Lemma stopped_holds : holds ∅ (db run_stopped).
Proof.
  assert (Hstep : forall A (m : job Toy A) s, moves (minds everybody) m s -> holds ∅ (db s) -> holds ∅ (db (after m s))).
  { intros A m s [_ H] H0. by apply (H ∅). }
  unfold run_stopped.
  apply Hstep; [apply (moves_commit_along _ (toy_around _)); by apply mindful_transition|].
  apply Hstep; [apply broadcastOne_moves, toy_minds|]. apply Hstep; [apply signOne_moves, toy_minds|].
  apply requested_holds.
Qed.

Lemma stopped_withdrawal_is_stranded_witness :
  wd_status <$> the_withdrawal run_stopped = Some Withdrawal.CONFIRMED /\
  forall w, the_withdrawal run_stopped = Some w -> w ∈ withdrawals (db (after run_cycles run_stopped)).
Proof.
  assert (Hst : wd_status <$> the_withdrawal run_stopped = Some Withdrawal.CONFIRMED) by (vm_compute; reflexivity).
  split; [exact Hst|]. intros w Hw.
  assert (Hin : w ∈ withdrawals (db run_stopped)) by (by apply head_Some_elem_of).
  assert (Hs : wd_status w = Withdrawal.SIGNING \/ wd_status w = Withdrawal.CONFIRMED)
    by (right; rewrite Hw in Hst; simpl in Hst; congruence).
  exact (proj1 (stopped_withdrawal_is_stranded (fun _ => true) 0 run_chain "treasury" "treasury-key" false None
    (mkBudgets 3 3 3) 10 run_assets 1700000000000 w run_stopped toy_minds stopped_holds Hin Hs)).
Defined.

(** *** A lost answer *)

Lemma toy_keeps : chain_keeps toy_landed.
Proof.
  split; try done. intros signed v m Hm. simpl. case_bool_decide; [|done]. apply elem_of_app. by left.
Qed.

(** The withdrawal is signed, and the next answer will be lost. *)
Definition lost_start : Proc Toy :=
  after (signOne (fun _ => true) 0 run_chain "treasury" "treasury-key" false None run_assets)
    (after (run_request "w1" run_input) (run_start 1)).

Definition lost_account : NonceAccountRecord := mkNonce "n1" run_chain "nonce-account" leased (Some "w1").
Definition lost_row : WithdrawalRecord :=
  signed_row "treasury" (requested_row run_chain "w1" 1700000000000 run_input Withdrawal.FUNDS_LOCKED) lost_account "" a_signature.
Definition lost_tables : Custody := set_withdrawals [] (db lost_start).

Definition lost_twice : result bool * Proc Toy :=
  let once := broadcastOne 0 run_chain (mkProc (add_row lost_row lost_tables) (mkToy 0 [] 1)) in
  let retried := processRetries run_chain (mkBudgets 3 3 3) 10 once.2 in
  let resigned := signOne (fun _ => true) 0 run_chain "treasury" "treasury-key" false None run_assets retried.2 in
  broadcastOne 0 run_chain resigned.2.

Lemma lost_answer_pays_twice_witness :
  lost_start = mkProc (add_row lost_row lost_tables) (mkToy 0 [] 1) /\ paid "destination" (world lost_twice.2) = 800 /\
  books (db lost_twice.2) = books lost_tables /\
  exists w', withdrawals (db lost_twice.2) = [w'] /\ wd_amount w' = 400 /\ wd_txSignature w' = Some "txi".
Proof.
  split; [vm_compute; reflexivity|]. split; [vm_compute; reflexivity|].
  destruct (lost_answer_pays_twice (Chain0 := toy_chain) (fun _ _ => eq_refl) 0 (mkBudgets 3 3 3) 9 (fun _ => true) "treasury" "treasury-key" None run_assets
    toy_landed lost_row lost_tables (mkToy 0 [] 1)
    (payment_signed "treasury" (requested_row run_chain "w1" 1700000000000 run_input Withdrawal.FUNDS_LOCKED) "nonce-account" "" a_signature)
    lost_account "" (ChainError "Solana RPC call failed: sendRawTransaction")
    (mkToy 1 [payment "treasury" lost_row "nonce-account" ""] 0) "i" (mkToy 1 [payment "treasury" lost_row "nonce-account" ""] 0) a_signature
    (mkToy 1 [payment "treasury" lost_row "nonce-account" ""] 0) "txi"
    (mkToy 2 [payment "treasury" lost_row "nonce-account" ""; payment "treasury" lost_row "nonce-account" "i"] 0) toy_keeps)
    as (_ & _ & _ & _ & Hb & w' & Hw & (_ & _ & _ & Hn & _) & _ & Hs).
  - split; [apply NoDup_nil_2|apply not_elem_of_nil|vm_compute; reflexivity|]. intros x Hx. by apply not_elem_of_nil in Hx.
  - reflexivity.
  - split; [discriminate|vm_compute; reflexivity|vm_compute; by split|by repeat constructor].
  - vm_compute. reflexivity.
  - vm_compute. reflexivity.
  - reflexivity.
  - reflexivity.
  - vm_compute. reflexivity.
  - simpl. by left.
  - reflexivity.
  - discriminate.
  - reflexivity.
  - reflexivity.
  - vm_compute. reflexivity.
  - right. by left.
  - split; [exact Hb|]. exists w'. split; [exact Hw|]. split; [exact Hn|exact Hs].
Defined.
