(* ===== verification/Transfers.v ===== *)
(** * Incoming transfers: the read half of the chain adapter

    [packages/solana/src]: [transfers.ts], the parsing of [token.ts], the commitment levels
    of [rpc.ts], and of [adapter.ts] the page of transfers and the minimum balance of an
    account. The node and the parsing of public keys are parameters; a balance is the
    number the node's client hands over, as the integer it is. *)

From S2P Require Import Prelude Decimal Assets Store Custody Withdrawals Broadcaster.
From Stdlib Require Import ZArith Lia.
From stdpp Require Import base list strings gmap.

Open Scope string_scope.
Open Scope list_scope.
Open Scope Z_scope.

(** ** Confirmations *)

Inductive Confirmation := conf_seen | conf_probable | conf_final.

#[export] Instance Confirmation_eq_dec : EqDecision Confirmation.
Proof. solve_decision. Defined.

Inductive Commitment := c_processed | c_confirmed | c_finalized | c_recent | c_single | c_singleGossip | c_root | c_max.

Definition toConfirmation (commitment : option Commitment) : Confirmation :=
  match commitment with
  | Some c_finalized | Some c_max | Some c_root => conf_final
  | Some c_confirmed | Some c_single | Some c_singleGossip => conf_probable
  | _ => conf_seen
  end.

(** [toFinality], [finalized] against [confirmed]. *)
Definition toFinality (commitment : Commitment) : bool :=
  match commitment with c_finalized => true | _ => false end.

(** What a node says of a listed signature. *)
Inductive SignatureStatus := s_processed | s_confirmed | s_finalized.

Definition status_rank (status : SignatureStatus) : Z :=
  match status with s_processed => 0 | s_confirmed => 1 | s_finalized => 2 end.

Definition required_rank (required : Commitment) : Z :=
  match required with
  | c_finalized | c_max | c_root => 2
  | c_confirmed | c_single | c_singleGossip => 1
  | c_processed | c_recent => 0
  end.

Definition meetsCommitment (status : option SignatureStatus) (required : Commitment) : bool :=
  match status with
  | None => false
  | Some status => required_rank required <=? status_rank status
  end.

(** ** Transactions *)

Record TokenBalance := mkTokenBalance {
  tb_accountIndex : nat; tb_mint : string; tb_owner : option string; tb_programId : option string;
  tb_amount : Z; tb_decimals : Z
}.

Record TransactionMeta := mkMeta {
  m_failed : bool;  (** [err !== null] *)
  m_preBalances : list Z; m_postBalances : list Z;
  m_preTokenBalances : list TokenBalance; m_postTokenBalances : list TokenBalance
}.

Record ParsedTransaction := mkParsed {
  px_slot : Z; px_accountKeys : list string; px_meta : option TransactionMeta
}.

Record TransferEvent := mkTransfer {
  te_chain : string; te_asset : string; te_amount : Z; te_to : string; te_from : option string;
  te_txReference : string; te_instructionIndex : Z; te_position : Z; te_confirmation : Confirmation;
  te_metadata : list (string * string)
}.

(** ** Parsing *)

(** The loops [for (..) { .. events.push(..) }], whose body may throw. *)
Definition collect {A B} (f : nat -> A -> result (list B)) (xs : list A) : result (list B) :=
  found ← map_result (fun ix => f ix.1 ix.2) (imap pair xs); Ok (mjoin (M:=list) found).

(** The account that lost the most, the first of them when several did. *)
Definition inferSender (accountKeys : list string) (preBalances postBalances : list Z) (excludeIndex : nat)
  : option string :=
  (fold_left (fun best ix =>
     if bool_decide (ix.1 = excludeIndex) then best else
     match preBalances !! ix.1, postBalances !! ix.1 with
     | Some before, Some after =>
         let decrease := before - after in
         if best.2 <? decrease then (Some ix.2, decrease) else best
     | _, _ => best
     end) (imap pair accountKeys) (None, 0)).1.

Section Parse.
Context (cluster : Cluster) (txReference : string).

(** The body of the loop of [parseTransfers]: the event of one account. *)
Definition native_event (watchedAddresses : gset string) (slot : Z) (accountKeys : list string)
  (m : TransactionMeta) (index : nat) (address : string) : result (list TransferEvent) :=
  if negb (bool_decide (address ∈ watchedAddresses)) then Ok [] else
  match m_preBalances m !! index, m_postBalances m !! index with
  | Some before, Some after =>
      let delta := after - before in
      if delta <=? 0 then Ok [] else
      asset ← ledgerAssetKey cluster NATIVE_ASSET_KEY;
      Ok [mkTransfer (chainId cluster) asset delta address
            (inferSender accountKeys (m_preBalances m) (m_postBalances m) index)
            txReference (Z.of_nat index) slot (toConfirmation (Some c_finalized))
            (match head accountKeys with Some feePayer => [("feePayer", feePayer)] | None => [] end)]
  | _, _ => Ok []
  end.

Definition parseTransfers (transaction : ParsedTransaction) (watchedAddresses : gset string)
  : result (list TransferEvent) :=
  match px_meta transaction with
  | None => Ok []
  | Some m =>
      if m_failed m then Ok [] else
      if negb (length (m_preBalances m) =? length (m_postBalances m))%nat then Ok [] else
      collect (native_event watchedAddresses (px_slot transaction) (px_accountKeys transaction) m)
        (px_accountKeys transaction)
  end.

Definition TOKEN_PROGRAM_ID : string := "TokenkegQfeZyiNwAJbNbGKPFXCWuBvf9Ss623VQ5DA".

(** [new Map(pre.map(..)).get(index)?.uiTokenAmount.amount ?? '0']: the last entry wins. *)
Definition prior_amount (pre : list TokenBalance) (index : nat) : Z :=
  default 0 (tb_amount <$> last (filter (fun b => tb_accountIndex b = index) pre)).

(** The body of the loop of [parseTokenTransfers]: the event of one token account. *)
Definition token_event (watchedOwners : gset string) (transaction : ParsedTransaction) (m : TransactionMeta)
  (entry : TokenBalance) : result (list TransferEvent) :=
  match tb_owner entry with
  | None => Ok []
  | Some owner =>
      if negb (bool_decide (owner ∈ watchedOwners)) then Ok [] else
      if match tb_programId entry with
         | Some program => negb (bool_decide (program = TOKEN_PROGRAM_ID))
         | None => false
         end then Ok [] else
      let delta := tb_amount entry - prior_amount (m_preTokenBalances m) (tb_accountIndex entry) in
      if delta <=? 0 then Ok [] else
      asset ← ledgerAssetKey cluster (tb_mint entry);
      Ok [mkTransfer (chainId cluster) asset delta owner None txReference (Z.of_nat (tb_accountIndex entry))
            (px_slot transaction) (toConfirmation (Some c_finalized))
            [("tokenAccount", default "" (px_accountKeys transaction !! tb_accountIndex entry));
             ("decimals", String.string_of_list_ascii (to_text (tb_decimals entry)))]]
  end.

Definition parseTokenTransfers (transaction : ParsedTransaction) (watchedOwners : gset string)
  : result (list TransferEvent) :=
  match px_meta transaction with
  | None => Ok []
  | Some m =>
      if m_failed m then Ok [] else
      collect (fun _ => token_event watchedOwners transaction m) (m_postTokenBalances m)
  end.
End Parse.

(** ** The adapter *)

Record SignatureInfo := mkSignature { si_signature : string; si_failed : bool; si_status : option SignatureStatus }.

(** The node's answers, which others may interleave with. [getSignaturesForAddress] takes the
    address, the limit, [until] and whether finalized signatures only are listed; the
    account's size of [getMinimumBalanceForRentExemption] is always zero. Beside the node,
    the fresh ids of the host. *)
Class Node (W : Type) := {
  node_others :: Others W;
  getSignaturesForAddress : string -> Z -> option string -> bool -> W -> result (list SignatureInfo) * W;
  getParsedTransaction : string -> W -> result (option ParsedTransaction) * W;
  getMinimumBalanceForRentExemption : W -> result Z * W;
  newId : W -> string * W
}.

Record FetchTransfersRequest := mkFetch {
  fr_address : string; fr_creditTo : option string; fr_cursor : option string; fr_pageSize : Z
}.

Record TransferPage := mkPage { pg_transfers : list TransferEvent; pg_nextCursor : option string; pg_hasMore : bool }.

Section Adapter.
Context {W : Type} `{!Node W}.
(** [new PublicKey(address).toBase58()], where it does not throw. *)
Context (publicKey : string -> option string).
Context (cluster : Cluster) (commitment : Commitment) (maxRetries : nat).

Definition isPublicKey (address : string) : bool := bool_decide (is_Some (publicKey address)).

Definition normalize (address : string) : result string :=
  match publicKey address with Some key => Ok key | None => Throw (GenericError "Invalid public key input") end.

(** [nativeAmountKey] *)
Definition nativeAmountKey (assetKey : string) : result unit :=
  parsed ← parseLedgerAssetKey assetKey;
  _ ← throw_if (negb (bool_decide (parsed.1 = cluster))) (ChainError "asset of another cluster");
  throw_if (negb (bool_decide (parsed.2 = NATIVE_ASSET_KEY))) (ChainError "Unsupported asset for Solana in this phase").

Definition getMinimumAccountBalance (asset : string) : job W Z :=
  _ ← of_result (nativeAmountKey asset);
  call_result (rpc_call "getMinimumBalanceForRentExemption" maxRetries getMinimumBalanceForRentExemption).

(** The loop of [fetchTransfers] over the signatures, oldest first. *)
Fixpoint read_transactions (watchedAddresses watchedOwners : gset string) (ordered : list SignatureInfo)
  : job W (list TransferEvent) :=
  match ordered with
  | [] => mret []
  | entry :: ordered =>
      parsed ← call_result (rpc_call "getParsedTransaction" maxRetries (getParsedTransaction (si_signature entry)));
      found ← (match parsed with
               | None => mret []
               | Some t =>
                   natives ← of_result (parseTransfers cluster (si_signature entry) t watchedAddresses);
                   tokens ← of_result (parseTokenTransfers cluster (si_signature entry) t watchedOwners);
                   mret (natives ++ tokens)
               end);
      rest ← read_transactions watchedAddresses watchedOwners ordered;
      mret (found ++ rest)
  end.

Definition eligible (entry : SignatureInfo) : bool :=
  negb (si_failed entry) && meetsCommitment (si_status entry) commitment.

(** [fetchTransfers] *)
Definition fetchTransfers (request : FetchTransfersRequest) : job W TransferPage :=
  _ ← of_result (toPublicKey isPublicKey (fr_address request));
  pubkey ← of_result (normalize (fr_address request));
  let limit := Z.min (fr_pageSize request) 1000 in
  signatures ← call_result (rpc_call "getSignaturesForAddress" maxRetries
                  (getSignaturesForAddress pubkey limit (fr_cursor request) (toFinality commitment)));
  match signatures with
  | [] => mret (mkPage [] (fr_cursor request) false)
  | _ =>
      let ordered := reverse (filter (fun entry => eligible entry = true) signatures) in
      owner ← of_result (normalize (default (fr_address request) (fr_creditTo request)));
      transfers ← read_transactions {[pubkey]} {[owner]} ordered;
      mret (mkPage transfers (or_keep (si_signature <$> last ordered) (fr_cursor request))
              (limit <=? Z.of_nat (length signatures)))
  end.
End Adapter.

(** ** Properties of the parsing *)

Lemma collect_elem {A B} (f : nat -> A -> result (list B)) xs ys y :
  collect f xs = Ok ys -> y ∈ ys <-> exists i x l, xs !! i = Some x /\ f i x = Ok l /\ y ∈ l.
Proof.
  unfold collect. intros H. inv_ok. rewrite list_elem_of_join. split.
  - intros (l & Hy & Hl). apply (map_result_elem _ _ _ _ H) in Hl as ([i a] & Ha & Hf).
    apply elem_of_lookup_imap in Ha as (j & z & [= -> ->] & Hj). by exists j, z, l.
  - intros (i & a & l & Ha & Hf & Hy). exists l. split; [done|]. apply (map_result_elem _ _ _ _ H).
    exists (i, a). split; [|done]. apply elem_of_lookup_imap. by exists i, a.
Qed.

Lemma collect_total {A B} (f : nat -> A -> result (list B)) xs :
  (forall i x, xs !! i = Some x -> exists l, f i x = Ok l) -> exists ys, collect f xs = Ok ys.
Proof.
  intros H. unfold collect. destruct (map_result_total (fun ix => f ix.1 ix.2) (imap pair xs)) as [ys ->]; [|by eexists].
  intros [i x] Hx. apply elem_of_lookup_imap in Hx as (j & z & [= -> ->] & Hj). by apply H.
Qed.

(** When the body of iteration [i] makes at most one item, which carries [i], all are distinct. *)
Lemma collect_distinct {A B} (f : nat -> A -> result (list B)) (g : B -> Z) xs ys :
  (forall i x l, f i x = Ok l -> (g <$> l) = [] \/ (g <$> l) = [Z.of_nat i]) ->
  collect f xs = Ok ys -> NoDup (g <$> ys).
Proof.
  intros Hf H. unfold collect in H. inv_ok.
  enough (Hgen : forall n ls, map_result (fun ix => f ix.1 ix.2) (imap (fun i x => (n + i, x)%nat) xs) = Ok ls ->
            NoDup (g <$> mjoin (M:=list) ls) /\ forall z, z ∈ (g <$> mjoin (M:=list) ls) -> Z.of_nat n <= z)
    by (by apply (Hgen 0%nat)).
  clear -Hf. induction xs as [|x xs IH]; intros n ls H; simpl in H; inv_ok; simpl; [split; [constructor|set_solver]|].
  match goal with H : map_result _ _ = Ok ?l |- _ => rename H into Hm; destruct (IH (S n) l) as [Hnd Hge] end.
  { rewrite <- Hm. f_equal. apply imap_ext. intros i y _. simpl. f_equal. lia. }
  match goal with H : f _ _ = Ok _ |- _ => apply Hf in H as Hx end. rewrite fmap_app. split.
  - apply NoDup_app. split; [|split; [|done]].
    + destruct Hx as [->| ->]; [constructor|apply NoDup_singleton].
    + intros z Hz Hz'. apply Hge in Hz'. destruct Hx as [E|E]; rewrite E in Hz; set_unfold; lia.
  - intros z [Hz|Hz]%elem_of_app; [|apply Hge in Hz; lia]. destruct Hx as [E|E]; rewrite E in Hz; set_unfold; lia.
Qed.

(** What a transaction added to the balance of its account [k]. *)
Definition increase (m : TransactionMeta) (k : nat) (n : Z) : Prop :=
  exists before after, m_preBalances m !! k = Some before /\ m_postBalances m !! k = Some after /\
    n = after - before /\ 0 < n.

(** Parsing reports exactly the increases of the watched accounts. It never throws; a transaction
    that failed, or whose balances do not line up, reports nothing; any other reports one
    transfer for each watched account that it left with more than before, of the
    difference, under the account's index, and no two under one index. *)
Theorem parseTransfers_exact cluster txReference t watched :
  exists events, parseTransfers cluster txReference t watched = Ok events /\
    NoDup (te_instructionIndex <$> events) /\
    forall a n i, (exists e, e ∈ events /\ te_to e = a /\ te_amount e = n /\ te_instructionIndex e = i) <->
      exists m k, px_meta t = Some m /\ m_failed m = false /\
        length (m_preBalances m) = length (m_postBalances m) /\
        i = Z.of_nat k /\ px_accountKeys t !! k = Some a /\ a ∈ watched /\ increase m k n.
Proof.
  unfold parseTransfers. destruct (px_meta t) as [m|] eqn:Em.
  2: { exists []. split; [done|]. split; [constructor|]. intros a n i. split; [set_solver|]. by intros (? & ? & ? & _). }
  destruct (m_failed m) eqn:Ef.
  { exists []. split; [done|]. split; [constructor|]. intros a n i. split; [set_solver|]. intros (? & ? & [= <-] & ? & _). congruence. }
  destruct (Nat.eqb_spec (length (m_preBalances m)) (length (m_postBalances m))) as [El|El]; simpl.
  2: { exists []. split; [done|]. split; [constructor|]. intros a n i. split; [set_solver|]. by intros (? & ? & [= <-] & _ & ? & _). }
  set (f := native_event cluster txReference watched (px_slot t) (px_accountKeys t) m).
  assert (Hkey : ledgerAssetKey cluster NATIVE_ASSET_KEY = Ok (cluster_name cluster +:+ String SEPARATOR NATIVE_ASSET_KEY)) by done.
  assert (Hf : forall k a, exists l, f k a = Ok l /\
    forall e, e ∈ l -> te_to e = a /\ te_instructionIndex e = Z.of_nat k /\ a ∈ watched /\ increase m k (te_amount e)).
  { intros k a. unfold f, native_event. rewrite Hkey. case_bool_decide as Hw; simpl; [|eexists; split; [done|set_solver]].
    destruct (m_preBalances m !! k) as [before|] eqn:E1; [|eexists; split; [done|set_solver]].
    destruct (m_postBalances m !! k) as [after|] eqn:E2; [|eexists; split; [done|set_solver]].
    destruct (Z.leb_spec (after - before) 0); eexists; (split; [done|]); [set_solver|].
    intros e ->%list_elem_of_singleton. simpl. repeat (split; [done|]). by exists before, after. }
  destruct (collect_total f (px_accountKeys t)) as [events He]; [intros k a _; destruct (Hf k a) as (l & ? & _); eauto|].
  exists events. split; [done|]. split.
  - eapply collect_distinct; [|exact He]. intros k a l. unfold f, native_event. rewrite Hkey.
    repeat case_match; simpl; intros [= <-]; eauto.
  - intros a n i. split.
    + intros (e & (k & b & l & Hk & Hl & Hin)%(collect_elem _ _ _ e He) & <- & <- & <-).
      destruct (Hf k b) as (l' & E & Hall). rewrite Hl in E. injection E as <-. destruct (Hall e Hin) as (-> & -> & Hw & Hi). by exists m, k.
    + intros (m' & k & [= <-] & _ & _ & -> & Hk & Hw & before & after & E1 & E2 & -> & Hpos).
      assert (Hev : exists e, f k a = Ok [e] /\ te_to e = a /\ te_amount e = after - before /\ te_instructionIndex e = Z.of_nat k).
      { unfold f, native_event. rewrite Hkey, bool_decide_eq_true_2, E1, E2 by done. simpl.
        destruct (Z.leb_spec (after - before) 0); [lia|]. eexists. split; [done|]. done. }
      destruct Hev as (e & Hev & ? & ? & ?). exists e. split; [|done]. apply (collect_elem _ _ _ e He). exists k, a, [e].
      split; [done|]. split; [done|]. by left.
Qed.
