(* ===== verification/Deposits.v ===== *)
(** * Deposits: the pipeline and the indexer

    [apps/api/src/services/deposit.service.ts] and [apps/api/src/workers/indexer.ts], with
    the tables they work on: [deposit.repository.ts], [cursor.repository.ts] and the watch
    list of [custody.repository.ts]. A transfer's amount is the integer its decimal text
    denotes. Not modelled: the counts of a cycle, logs and metrics, the timer, times of
    rows, the columns' widths, and the creation of empty ledger accounts. *)

From S2P Require Import Prelude Assets Ledger Postings Store Custody Withdrawals Transfers.
From Stdlib Require Import ZArith Lia.
From stdpp Require Import base list strings gmap.

Open Scope string_scope.
Open Scope list_scope.
Open Scope Z_scope.

(** ** [deposit.repository.ts] *)

Record RecordDepositInput := mkDepositInput {
  di_walletId : string; di_addressId : string; di_userId : string; di_chain : string; di_asset : string;
  di_amount : Z; di_rentReserved : Z; di_txSignature : string; di_instructionIndex : Z; di_position : Z
}.

Inductive RecordDepositResult :=
| deposit_created (deposit : DepositRecord)
| deposit_duplicate.

(** The row checks of the deposits table. *)
Definition deposit_row_ok (d : DepositRecord) : bool :=
  existsb (assetKeyInCluster (dp_asset d)) CLUSTERS && str_includes SEPARATOR (dp_chain d).

(** The unique key of a transfer. *)
Definition transfer_key (d : DepositRecord) : string * string * Z :=
  (dp_chain d, dp_txSignature d, dp_instructionIndex d).

(** [INSERT .. ON CONFLICT (chain, tx_signature, instruction_index) DO NOTHING], with a fresh id. *)
Definition recordDeposit (id : string) (i : RecordDepositInput) : ctx RecordDepositResult :=
  let row := mkDepositRow id (di_walletId i) (di_addressId i) (di_userId i) (di_chain i) (di_asset i)
               (di_amount i) (di_rentReserved i) (di_txSignature i) (di_instructionIndex i) (di_position i)
               confirming None in
  _ ← refuse_if (negb (deposit_row_ok row)) check_violation;
  s ← query (fun s => s);
  if existsb (fun d => bool_decide (transfer_key d = transfer_key row)) (deposits s) then mret deposit_duplicate
  else
    _ ← refuse_if (existsb (fun d => bool_decide (dp_id d = id)) (deposits s)) unique_violation;
    _ ← refuse_if (negb (existsb (fun w => bool_decide (wl_id w = di_walletId i)) (wallets s)) ||
                   negb (existsb (fun a => bool_decide (ad_id a = di_addressId i)) (addresses s))) missing_reference;
    _ ← update (fun s => set_deposits (deposits s ++ [row]) s);
    mret (deposit_created row).

(** [db.deposit.update({ where: { id }, data: { status, reason } })] *)
Definition mark_deposit (id : string) (status : DepositStatus) (reason : option string) : ctx unit :=
  ds ← query deposits;
  _ ← refuse_if (negb (existsb (fun d => bool_decide (dp_id d = id)) ds)) (NotFoundError "deposit");
  update (set_deposits (map (fun d => if bool_decide (dp_id d = id)
    then mkDepositRow (dp_id d) (dp_wallet d) (dp_address d) (dp_user d) (dp_chain d) (dp_asset d) (dp_amount d)
           (dp_rentReserved d) (dp_txSignature d) (dp_instructionIndex d) (dp_position d) status (or_keep reason (dp_reason d))
    else d) ds)).

Definition markIgnored (id reason : string) : ctx unit := mark_deposit id ignored (Some reason).
Definition markCredited (id : string) : ctx unit := mark_deposit id credited None.

Definition findDeposit (id : string) : ctx (option DepositRecord) :=
  query (fun s => head (filter (fun d => dp_id d = id) (deposits s))).

Definition findByChainReference (chain txSignature : string) (instructionIndex : Z) : ctx (option DepositRecord) :=
  query (fun s => head (filter (fun d => transfer_key d = (chain, txSignature, instructionIndex)) (deposits s))).

(** Newest first. *)
Definition listForUser (userId : string) (limit : nat) (chain : string) : ctx (list DepositRecord) :=
  query (fun s => take limit (reverse (filter (fun d => dp_user d = userId /\ dp_chain d = chain) (deposits s)))).

(** [db.deposit.count({ where: { addressId } })] *)
Definition countDeposits (addressId : string) : ctx Z :=
  query (fun s => Z.of_nat (length (filter (fun d => dp_address d = addressId) (deposits s)))).

(** ** [cursor.repository.ts] *)

Definition cursor_at (addressId scanAddress : string) (c : CursorRecord) : bool :=
  bool_decide (cu_addressId c = addressId) && bool_decide (cu_scanAddress c = scanAddress).

Definition getCursor (addressId scanAddress : string) : ctx (option string) :=
  query (fun s => head (filter (fun c => cursor_at addressId scanAddress c = true) (cursors s)) ≫= cu_signature).

(** [upsert]: the new row, or what becomes of the stored one. *)
Definition upsert_cursor (row : CursorRecord) (f : CursorRecord -> CursorRecord) : ctx unit :=
  s ← query (fun s => s);
  let hit := cursor_at (cu_addressId row) (cu_scanAddress row) in
  if existsb hit (cursors s)
  then update (set_cursors (map (fun c => if hit c then f c else c) (cursors s)))
  else
    _ ← refuse_if (negb (str_includes SEPARATOR (cu_chain row))) check_violation;
    _ ← refuse_if (negb (existsb (fun a => bool_decide (ad_id a = cu_addressId row)) (addresses s))) missing_reference;
    update (set_cursors (cursors s ++ [row])).

Definition advance (addressId scanAddress chain signature : string) (position : option Z) : ctx unit :=
  upsert_cursor (mkCursor addressId scanAddress chain (Some signature) position)
    (fun c => mkCursor (cu_addressId c) (cu_scanAddress c) (cu_chain c) (Some signature) position).

Definition touch (addressId scanAddress chain : string) : ctx unit :=
  upsert_cursor (mkCursor addressId scanAddress chain None None) id.

(** ** [custody.repository.ts] *)

Record WatchedAddress := mkWatched {
  wa_addressId : string; wa_address : string; wa_chain : string; wa_walletId : string; wa_cursor : option string
}.

(** The active deposit addresses, oldest first, each with the cursor of its own account. *)
Definition listWatched (chain : string) (limit : nat) : ctx (list WatchedAddress) :=
  query (fun s =>
    map (fun a => mkWatched (ad_id a) (ad_address a) (ad_chain a) (ad_wallet a)
                    (head (filter (fun c => cursor_at (ad_id a) (ad_address a) c = true) (cursors s)) ≫= cu_signature))
      (take limit (filter (fun a => ad_chain a = chain /\ ad_active a = true /\ ad_role a = role_deposit) (addresses s)))).

(** ** [deposit.service.ts] *)

Inductive CreditOutcome :=
| out_credited (depositId : string)
| out_duplicate
| out_not_final
| out_ignored (reason : string).

#[export] Instance CreditOutcome_eq_dec : EqDecision CreditOutcome.
Proof. solve_decision. Defined.

(** The row of a transfer that arrived at an address of a wallet. *)
Definition deposit_input (wallet : WalletRecord) (address : AddressRecord) (event : TransferEvent) (rent : Z)
  : RecordDepositInput :=
  mkDepositInput (wl_id wallet) (ad_id address) (wl_user wallet) (te_chain event) (te_asset event)
    (te_amount event) rent (te_txReference event) (te_instructionIndex event) (te_position event).

(** The transaction that records a transfer of an asset that is not on the list. *)
Definition ignore_tx (id : string) (input : RecordDepositInput) (reason : string) : ctx CreditOutcome :=
  recorded ← recordDeposit id input;
  match recorded with
  | deposit_duplicate => mret out_duplicate
  | deposit_created d => _ ← markIgnored (dp_id d) reason; mret (out_ignored reason)
  end.

Definition deposit_posting (d : DepositRecord) : DepositPosting :=
  mkDeposit (dp_id d) (dp_user d) (dp_asset d) (dp_amount d)
    (if dp_rentReserved d >? 0 then Some (dp_rentReserved d) else None).

(** The transaction that records a transfer and posts it. *)
Definition credit_tx (id : string) (input : RecordDepositInput) : ctx CreditOutcome :=
  recorded ← recordDeposit id input;
  match recorded with
  | deposit_duplicate => mret out_duplicate
  | deposit_created d =>
      _ ← on_books (postLedger (postDeposit (deposit_posting d)));
      _ ← markCredited (dp_id d);
      mret (out_credited (dp_id d))
  end.

(** The label of a transfer that is not on the list. *)
Definition ignored_reason (event : TransferEvent) : string :=
  match jget "tokenAccount" (te_metadata event) with
  | Some _ => "mint_not_allowlisted"
  | None => "asset_not_allowlisted"
  end.

Section Deposits.
Context {W : Type} `{!Node W}.
Context (publicKey : string -> option string) (cluster : Cluster) (commitment : Commitment) (maxRetries : nat).
Context (assets : AssetRegistry).

Definition creditTransfer (event : TransferEvent) (rentReserved : Z) : job W CreditOutcome :=
  if negb (bool_decide (te_confirmation event = conf_final)) then mret out_not_final else
  address ← commit (findByAddress (te_chain event) (te_to event));
  match address with
  | None => mret (out_ignored "address_not_owned")
  | Some address =>
      wallet ← commit (findWalletById (ad_wallet address));
      match wallet with
      | None => mret (out_ignored "wallet_missing")
      | Some wallet =>
          if negb (bool_decide (wl_status wallet = wallet_active)) then mret (out_ignored "wallet_not_active") else
          id ← call newId;
          if negb (isAllowed assets (te_asset event)) then
            commit (ignore_tx id (deposit_input wallet address event 0) (ignored_reason event))
          else
            let applicableRent := if rentReserved >? te_amount event then te_amount event else rentReserved in
            commit (credit_tx id (deposit_input wallet address event applicableRent))
      end
  end.

(** ** [indexer.ts] *)

Context (chain : string) (pageSize : Z) (maxAddressesPerCycle : nat).
(** [deriveAssociatedTokenAddress], and whether [stop] was called. *)
Context (deriveAssociatedTokenAddress : string -> string -> result string) (stopping : W -> bool).

(** The loop over a page: the reference and position of the last transfer processed. *)
Fixpoint process (watched : WatchedAddress) (rentReserved : Z) (transfers : list TransferEvent)
  (highest : option (string * Z)) : job W (option (string * Z)) :=
  match transfers with
  | [] => mret highest
  | transfer :: transfers =>
      existing ← commit (countDeposits (wa_addressId watched));
      let applicableRent := if existing =? 0 then rentReserved else 0 in
      outcome ← creditTransfer transfer applicableRent;
      match outcome with
      | out_not_final => mret highest
      | _ => process watched rentReserved transfers (Some (te_txReference transfer, te_position transfer))
      end
  end.

Definition pollAddress (watched : WatchedAddress) (scanAddress cursorScanAddress : string) : job W unit :=
  let own := bool_decide (scanAddress = wa_address watched) in
  page ← fetchTransfers publicKey cluster commitment maxRetries
           (mkFetch scanAddress (if own then None else Some (wa_address watched)) (wa_cursor watched) pageSize);
  match pg_transfers page with
  | [] =>
      _ ← commit (touch (wa_addressId watched) cursorScanAddress chain);
      match pg_nextCursor page with
      | Some next =>
          if bool_decide (Some next = wa_cursor watched) then mret tt
          else commit (advance (wa_addressId watched) cursorScanAddress chain next None)
      | None => mret tt
      end
  | first :: _ =>
      rentReserved ← (if own then getMinimumAccountBalance cluster maxRetries (te_asset first) else mret 0);
      highest ← process watched rentReserved (pg_transfers page) None;
      match highest with
      | None => mret tt
      | Some (reference, position) =>
          commit (advance (wa_addressId watched) cursorScanAddress chain reference (Some position))
      end
  end.

Definition stopped : job W bool := fun s => (Ok (stopping (world s)), s).

(** [for (const x of xs) { if (stopping) break; body(x); }] *)
Fixpoint until_stopped {A} (xs : list A) (body : A -> job W unit) : job W unit :=
  match xs with
  | [] => mret tt
  | x :: xs => stop ← stopped; if (stop : bool) then mret tt else _ ← body x; until_stopped xs body
  end.

(** The accounts of an address, one per token on the list. *)
Definition tokenAccounts (watched : WatchedAddress) : result (list string) :=
  map_result (fun t => deriveAssociatedTokenAddress (wa_address watched) (mint t)) (tokens assets).

Definition poll_one (watched : WatchedAddress) : job W unit :=
  _ ← pollAddress watched (wa_address watched) (wa_address watched);
  accounts ← of_result (tokenAccounts watched);
  until_stopped accounts (fun account => pollAddress watched account account).

(** [runOnce]: an address that fails does not stop the cycle. *)
Definition runOnce : job W unit :=
  watched ← commit (listWatched chain maxAddressesPerCycle);
  until_stopped watched (fun a => catch (poll_one a) (fun _ => mret tt)).
End Deposits.
