(* ===== verification/Credits.v ===== *)
(** * Credits: what the deposit pipeline and the indexer guarantee

    Proofs about [Deposits] and [Transfers]: the rows of the deposits table account for the
    ledger's deposit postings, whoever else is at work; a transfer is credited once; a
    cursor passes only what was settled. No code is modelled here. *)

From S2P Require Import Prelude Risk Assets Ledger Postings States Store Books System Custody Withdrawals Broadcaster.
From S2P Require Import Coverage Locks Escrow Requests Transfers Deposits.
From Stdlib Require Import ZArith Lia.
From stdpp Require Import base list strings gmap relations.

Open Scope string_scope.
Open Scope list_scope.
Open Scope Z_scope.

(** ** The invariant *)

Definition is_deposit (t : LedgerTransaction) : bool := bool_decide (kind t = deposit).

Definition deposit_transactions (b : Store) : list LedgerTransaction := filter (fun t => is_deposit t = true) (ledger b).

Definition credited_rows (s : Custody) : list DepositRecord := filter (fun d => dp_status d = credited) (deposits s).

(** Every transfer has one row, which was decided when it was written, and the ledger's deposit
    transactions are the postings of the credited rows, in order. *)
Record accounted (s : Custody) : Prop := {
  ac_ids : NoDup (dp_id <$> deposits s);
  ac_keys : NoDup (transfer_key <$> deposits s);
  ac_decided : Forall (fun d => dp_status d <> confirming) (deposits s);
  ac_posted : (Ok <$> deposit_transactions (books s)) = (postDeposit ∘ deposit_posting <$> credited_rows s)
}.

(** What an actor leaves of the deposits: their rows, and the invariant. *)
Definition keeps_deposits (s s' : Custody) : Prop :=
  (forall d, d ∈ deposits s -> d ∈ deposits s') /\ (accounted s -> accounted s').

#[export] Instance keeps_deposits_preorder : PreOrder keeps_deposits.
Proof.
  split; [by split|]. intros s1 s2 s3 [R12 A12] [R23 A23]. split; auto.
Qed.

Lemma keeps_deposits_same s s' :
  deposits s' = deposits s -> deposit_transactions (books s') = deposit_transactions (books s) -> keeps_deposits s s'.
Proof.
  intros Hd Ht. split; [by rewrite Hd|]. intros [Hi Hk Hs Hp]. split; rewrite ?Hd; try done.
  unfold credited_rows. by rewrite Ht, Hd.
Qed.

(** ** Rows *)

Definition with_status (status : DepositStatus) (reason : option string) (d : DepositRecord) : DepositRecord :=
  mkDepositRow (dp_id d) (dp_wallet d) (dp_address d) (dp_user d) (dp_chain d) (dp_asset d) (dp_amount d)
    (dp_rentReserved d) (dp_txSignature d) (dp_instructionIndex d) (dp_position d) status (or_keep reason (dp_reason d)).

Definition input_row (id : string) (i : RecordDepositInput) : DepositRecord :=
  mkDepositRow id (di_walletId i) (di_addressId i) (di_userId i) (di_chain i) (di_asset i)
    (di_amount i) (di_rentReserved i) (di_txSignature i) (di_instructionIndex i) (di_position i) confirming None.

Definition add_deposit (d : DepositRecord) (s : Custody) : Custody := set_deposits (deposits s ++ [d]) s.

Lemma recordDeposit_Ok id i s r s' :
  recordDeposit id i s = Ok (r, s') ->
  (r = deposit_duplicate /\ s' = s /\ transfer_key (input_row id i) ∈ (transfer_key <$> deposits s)) \/
  (r = deposit_created (input_row id i) /\ s' = add_deposit (input_row id i) s /\
   (transfer_key (input_row id i) ∉ (transfer_key <$> deposits s)) /\ (id ∉ (dp_id <$> deposits s))).
Proof.
  unfold recordDeposit. intros H. inv_ctx. case_match eqn:E; inv_ctx.
  - left. split; [done|]. split; [done|]. apply existsb_exists in E as (d & Hd%list_elem_of_In & Heq). zbool.
    apply list_elem_of_fmap. by exists d.
  - right. split; [done|]. split; [done|].
    repeat match goal with H : existsb _ _ = false |- _ => rewrite existsb_none in H end.
    split; intros (d & Heq & Hd)%list_elem_of_fmap.
    + specialize (E d Hd). by zbool.
    + specialize (H0 d Hd). by zbool.
Qed.

Lemma mark_last status reason d s u s' :
  dp_id d ∉ (dp_id <$> deposits s) ->
  mark_deposit (dp_id d) status reason (add_deposit d s) = Ok (u, s') ->
  s' = add_deposit (with_status status reason d) s.
Proof.
  unfold mark_deposit. intros Hf H. inv_ctx. unfold add_deposit, set_deposits. simpl. f_equal.
  rewrite map_app. simpl. rewrite bool_decide_eq_true_2 by done. f_equal.
  rewrite <- (map_id (deposits s)) at 2. apply map_ext_in. intros x Hx%list_elem_of_In.
  rewrite bool_decide_eq_false_2; [done|]. intros E. apply Hf. rewrite <- E. by apply list_elem_of_fmap_2.
Qed.

Lemma add_deposit_keeps d s b :
  dp_status d <> confirming -> transfer_key d ∉ (transfer_key <$> deposits s) -> dp_id d ∉ (dp_id <$> deposits s) ->
  (Ok <$> deposit_transactions b) =
    (Ok <$> deposit_transactions (books s)) ++
    (if bool_decide (dp_status d = credited) then [postDeposit (deposit_posting d)] else []) ->
  keeps_deposits s (set_books b (add_deposit d s)).
Proof.
  intros Hs Hk Hi Ht. split; [intros x Hx; apply elem_of_app; by left|]. intros [Hnd Hnk Hd Hp].
  split; simpl; rewrite ?fmap_app.
  - apply NoDup_app. split; [done|]. split; [|apply NoDup_singleton]. by intros x Hx ->%list_elem_of_singleton.
  - apply NoDup_app. split; [done|]. split; [|apply NoDup_singleton]. by intros x Hx ->%list_elem_of_singleton.
  - apply Forall_app. split; [done|]. by apply Forall_singleton.
  - rewrite Ht, Hp. unfold credited_rows. simpl. rewrite filter_app, fmap_app. f_equal.
    rewrite filter_cons, filter_nil. case_bool_decide; case_decide; done.
Qed.

(** ** What an actor may do beside the others *)

(** It takes steps of the trading system's ledger ([System]), keeps the deposits, and minds the
    withdrawals. *)
Definition beside (s s' : Custody) : Prop :=
  rtc step (books s) (books s') /\ keeps_deposits s s' /\ minds nobody s s'.

#[export] Instance beside_preorder : PreOrder beside.
Proof.
  split; [intros s; unfold beside; split_and!; reflexivity|]. intros s1 s2 s3 (B12 & D12 & M12) (B23 & D23 & M23).
  unfold beside. split_and!; by etrans.
Qed.

(** Nothing changed but tables that nobody else reads. *)
Lemma beside_same s s' :
  books s' = books s -> deposits s' = deposits s -> withdrawals s' = withdrawals s -> beside s s'.
Proof.
  intros Hb Hd Hw. split_and!.
  - by rewrite Hb.
  - apply keeps_deposits_same; [done|]. by rewrite Hb.
  - apply minds_same; [done|]. intros. by rewrite Hb.
Qed.

Lemma posting_of_input id i status reason :
  deposit_posting (with_status status reason (input_row id i)) = deposit_posting (input_row id i).
Proof. done. Qed.

Lemma deposit_minds p u b s s' :
  postLedger (post (PDeposit p)) (books s) = Ok (u, b) -> withdrawals s' = withdrawals s -> books s' = b ->
  minds nobody s s'.
Proof.
  intros H Hw <-. apply minds_same; [done|]. intros t u0 a. symmetry. symmetry.
  exact (post_same_locks (PDeposit p) _ _ _ eq_refl H t u0 a).
Qed.

(** What the transactions of the pipeline leave. *)
Lemma credit_tx_row id i s r s' :
  credit_tx id i s = Ok (r, s') ->
  (r = out_duplicate /\ s' = s /\ transfer_key (input_row id i) ∈ (transfer_key <$> deposits s)) \/
  (r = out_credited id /\ exists b, recordDeposit id i s = Ok (deposit_created (input_row id i), add_deposit (input_row id i) s) /\
     postLedger (post (PDeposit (deposit_posting (input_row id i)))) (books s) = Ok (tt, b) /\
     s' = set_books b (add_deposit (with_status credited None (input_row id i)) s)).
Proof.
  intros H. unfold credit_tx in H. inv_ctx.
  match goal with H : recordDeposit _ _ _ = _ |- _ =>
    pose proof H as [(-> & -> & ?)|(-> & -> & Hk & Hi)]%recordDeposit_Ok; rename H into Hr end; inv_ctx; [by left|right].
  match goal with H : on_books _ _ = _ |- _ => unfold on_books in H; destruct (postLedger _ _) as [[[] b]|] eqn:Hp;
    [injection H as _ <-|done] end.
  match goal with H : markCredited _ _ = _ |- _ =>
    change (set_books b (add_deposit (input_row id i) s)) with (add_deposit (input_row id i) (set_books b s)) in H;
    apply mark_last in H as ->; [|done] end.
  split; [done|]. by exists b.
Qed.

Lemma ignore_tx_row id i reason s r s' :
  ignore_tx id i reason s = Ok (r, s') ->
  (r = out_duplicate /\ s' = s /\ transfer_key (input_row id i) ∈ (transfer_key <$> deposits s)) \/
  (r = out_ignored reason /\ recordDeposit id i s = Ok (deposit_created (input_row id i), add_deposit (input_row id i) s) /\
     s' = set_books (books s) (add_deposit (with_status ignored (Some reason) (input_row id i)) s)).
Proof.
  intros H. unfold ignore_tx in H. inv_ctx.
  match goal with H : recordDeposit _ _ _ = _ |- _ =>
    pose proof H as [(-> & -> & ?)|(-> & -> & Hk & Hi)]%recordDeposit_Ok; rename H into Hr end; inv_ctx; [by left|right].
  match goal with H : markIgnored _ _ _ = _ |- _ => apply mark_last in H as ->; [|done] end. done.
Qed.

Lemma recorded_new id i s r s' :
  recordDeposit id i s = Ok (deposit_created r, s') ->
  (transfer_key (input_row id i) ∉ (transfer_key <$> deposits s)) /\ (id ∉ (dp_id <$> deposits s)).
Proof. by intros [(? & _)|(_ & _ & ? & ?)]%recordDeposit_Ok. Qed.

Lemma credit_tx_beside id i s r s' : atomically (credit_tx id i) s = Ok (r, s') -> beside s s'.
Proof.
  intros ([(_ & -> & _)|(_ & b & [Hk Hi]%recorded_new & Hp & ->)]%credit_tx_row & Hd & Hb)%atomically_Ok; [reflexivity|].
  pose proof Hp as (t & Ht & Hl & _)%postLedger_Ok. split_and!.
  - apply rtc_once, (posts (PDeposit (deposit_posting (input_row id i))) tt); [done|]. by apply withTransaction_Ok.
  - apply add_deposit_keeps; try done. rewrite bool_decide_eq_true_2, posting_of_input, Hl by done.
    simpl in Ht. rewrite Ht. unfold deposit_transactions. simpl. rewrite filter_app, fmap_app. f_equal.
    apply postDeposit_Ok in Ht as [_ ->]. done.
  - by eapply deposit_minds.
Qed.

Lemma ignore_tx_beside id i reason s r s' : ignore_tx id i reason s = Ok (r, s') -> beside s s'.
Proof.
  intros [(_ & -> & _)|(_ & [Hk Hi]%recorded_new & ->)]%ignore_tx_row; [reflexivity|].
  split_and!; [done| |by apply minds_same].
  apply add_deposit_keeps; try done. by rewrite bool_decide_eq_false_2, app_nil_r.
Qed.

(** ** The indexer's jobs *)

(** A relation that the transactions of the pipeline respect. *)
Class Indexes (T : Custody -> Custody -> Prop) : Prop := {
  ix_preorder :: PreOrder T;
  ix_credit id i s r s' : atomically (credit_tx id i) s = Ok (r, s') -> T s s';
  ix_ignore id i reason s r s' : ignore_tx id i reason s = Ok (r, s') -> T s s'
}.

#[export] Instance beside_indexes : Indexes beside.
Proof. split; [apply _|exact credit_tx_beside|exact ignore_tx_beside]. Qed.

Section Jobs.
Context {W : Type} `{!Node W} (T : Custody -> Custody -> Prop) `{!Indexes T} (around : forall w d, T d (others w d).1).
Context (publicKey : string -> option string) (cluster : Cluster) (commitment : Commitment) (maxRetries : nat).
Context (assets : AssetRegistry).

#[export] Instance indexes_query {A} (f : Custody -> A) : Along T (query f).
Proof using Indexes0. intros s a s' H. inv_ctx. reflexivity. Qed.

Ltac index_step := step_moves around ltac:(apply indexes_query).

Lemma creditTransfer_moves event rent s : moves T (creditTransfer assets event rent) s.
Proof using Indexes0 around.
  unfold creditTransfer, findByAddress, findWalletById.
  repeat first [apply (moves_atomically _ around); intros ? ?; apply ix_credit
               |apply (moves_commit _ around); intros ? ?; apply ix_ignore|index_step].
Qed.

Lemma read_transactions_moves watched owners ordered s :
  moves T (read_transactions cluster maxRetries watched owners ordered) s.
Proof using Indexes0 around.
  revert s. induction ordered as [|e ordered IH]; intros s; cbn [read_transactions]; repeat first [apply IH|index_step].
Qed.

Lemma fetchTransfers_moves request s : moves T (fetchTransfers publicKey cluster commitment maxRetries request) s.
Proof using Indexes0 around. unfold fetchTransfers. repeat first [apply read_transactions_moves|index_step]. Qed.

Lemma getMinimumAccountBalance_moves asset s : moves T (getMinimumAccountBalance cluster maxRetries asset) s.
Proof using Indexes0 around. unfold getMinimumAccountBalance. repeat index_step. Qed.

Lemma process_moves watched rent transfers highest s : moves T (process assets watched rent transfers highest) s.
Proof using Indexes0 around.
  revert highest s. induction transfers as [|e transfers IH]; intros highest s; cbn [process]; [index_step|].
  unfold countDeposits. repeat first [apply creditTransfer_moves|apply IH|index_step].
Qed.
End Jobs.

#[export] Instance beside_upsert row f : Along beside (upsert_cursor row f).
Proof. intros s a s' H. unfold upsert_cursor in H. inv_ctx. case_match; inv_ctx; by apply beside_same. Qed.

Section Indexer.
Context {W : Type} `{!Node W} (around : forall w d, beside d (others w d).1).
Context (publicKey : string -> option string) (cluster : Cluster) (commitment : Commitment) (maxRetries : nat).
Context (assets : AssetRegistry) (chain : string) (pageSize : Z) (maxAddressesPerCycle : nat).
Context (derive : string -> string -> result string) (stopping : W -> bool).

Ltac index_step := step_moves around ltac:(first [apply (indexes_query beside)|apply beside_upsert]).

Lemma pollAddress_moves watched scan cursorScan s :
  moves beside (pollAddress publicKey cluster commitment maxRetries assets chain pageSize watched scan cursorScan) s.
Proof using around.
  unfold pollAddress, touch, advance.
  repeat first [by apply (fetchTransfers_moves beside)|by apply (getMinimumAccountBalance_moves beside)
               |by apply (process_moves beside)|index_step].
Qed.

Lemma until_stopped_moves {A} (xs : list A) body s :
  (forall x s, moves beside (body x) s) -> moves beside (until_stopped stopping xs body) s.
Proof using around.
  intros H. revert s. induction xs as [|x xs IH]; intros s; cbn [until_stopped]; [index_step|].
  apply (moves_bind _); [unfold moves; simpl; reflexivity|]. intros stop s1 _.
  destruct (stop : bool); repeat first [apply H|apply IH|index_step].
Qed.

Lemma runOnce_moves s :
  moves beside (runOnce publicKey cluster commitment maxRetries assets chain pageSize maxAddressesPerCycle derive stopping) s.
Proof using around.
  unfold runOnce, listWatched, poll_one.
  repeat first [apply until_stopped_moves; intros|apply pollAddress_moves|index_step].
Qed.
End Indexer.

(** C19: The indexer keeps the deposits accounted for. A cycle of the indexer, interleaved in any way
    with actors that themselves only take steps of the trading system's ledger, keep the
    deposits and mind the withdrawals, leaves every row of a deposit there, and the ledger's
    deposit transactions exactly the postings of the credited rows, one row per transfer;
    the books stay sound and every withdrawal keeps its lock. *)
Theorem indexer_keeps_accounts {W : Type} `{!Node W} publicKey cluster commitment maxRetries assets chain pageSize
    maxAddressesPerCycle derive (stopping : W -> bool) (s : Proc W) :
  (forall w d, beside d (others w d).1) ->
  sound (books (db s)) -> accounted (db s) -> holds ∅ (db s) ->
  let s' := (runOnce publicKey cluster commitment maxRetries assets chain pageSize maxAddressesPerCycle derive stopping s).2 in
  sound (books (db s')) /\ accounted (db s') /\ holds ∅ (db s') /\
  forall d, d ∈ deposits (db s) -> d ∈ deposits (db s').
Proof.
  intros around Hs Ha Hh s'.
  destruct (runOnce_moves around publicKey cluster commitment maxRetries assets chain pageSize maxAddressesPerCycle derive stopping s)
    as (B & [R A] & [_ M]). fold s' in B, R, A, M.
  split; [|split; [by apply A|split; [|exact R]]].
  - revert Hs. induction B as [|x y z Hxy _ IH]; [done|]. intros Hs. by apply IH, (step_sound x).
  - apply (M ∅); [set_solver|done].
Qed.

(** ** One transfer *)

(** What a deposit adds to what each account owes. *)
Definition deposit_delta (r : AccountRef) (d : DepositRecord) : Z :=
  (if bool_decide (r = userCustodyAvailable (dp_user d) (dp_asset d)) then dp_amount d - dp_rentReserved d else 0) +
  (if bool_decide (r = houseRent (dp_asset d)) then dp_rentReserved d else 0) -
  (if bool_decide (r = chainAssets (dp_user d) (dp_asset d)) then dp_amount d else 0).

Lemma deposit_posting_delta r d t :
  0 <= dp_rentReserved d -> postDeposit (deposit_posting d) = Ok t -> net (on_account r) (entries t) = - deposit_delta r d.
Proof.
  intros Hr [_ ->]%postDeposit_Ok. cbn [entries]. rewrite net_nonzero_legs. unfold deposit_posting, deposit_delta. simpl.
  replace (default 0 (if dp_rentReserved d >? 0 then Some (dp_rentReserved d) else None)) with (dp_rentReserved d)
    by (destruct (Z.gtb_spec (dp_rentReserved d) 0); simpl; lia).
  unfold net, on_account, signedAmount. simpl. repeat (case_bool_decide; simpl); subst; try done; lia.
Qed.

Lemma recordDeposit_new id i s :
  deposit_row_ok (input_row id i) = true -> transfer_key (input_row id i) ∉ (transfer_key <$> deposits s) ->
  id ∉ (dp_id <$> deposits s) -> (exists w, w ∈ wallets s /\ wl_id w = di_walletId i) ->
  (exists a, a ∈ addresses s /\ ad_id a = di_addressId i) ->
  recordDeposit id i s = Ok (deposit_created (input_row id i), add_deposit (input_row id i) s).
Proof.
  intros Hok Hk Hi (w & Hw & Hwi) (a & Ha & Hai). unfold recordDeposit, mbind, ctx_bind, query, refuse_if.
  fold (input_row id i). rewrite Hok. simpl.
  rewrite (proj2 (existsb_none _ (deposits s))), (proj2 (existsb_none _ (deposits s))).
  2: { intros d Hd. apply bool_decide_eq_false. intros <-. apply Hi. by apply list_elem_of_fmap_2. }
  2: { intros d Hd. apply bool_decide_eq_false. intros E. apply Hk, list_elem_of_fmap. by exists d. }
  simpl. rewrite (existsb_some _ (wallets s) w), (existsb_some _ (addresses s) a);
    try done; by apply bool_decide_eq_true.
Qed.

Lemma recordDeposit_again id i s :
  deposit_row_ok (input_row id i) = true -> transfer_key (input_row id i) ∈ (transfer_key <$> deposits s) ->
  recordDeposit id i s = Ok (deposit_duplicate, s).
Proof.
  intros Hok (d & E & Hd)%list_elem_of_fmap. unfold recordDeposit, mbind, ctx_bind, query, refuse_if.
  fold (input_row id i). rewrite Hok. simpl. by rewrite (existsb_some _ (deposits s) d) by (try apply bool_decide_eq_true; done).
Qed.

Lemma mark_added status reason d s :
  dp_id d ∉ (dp_id <$> deposits s) ->
  mark_deposit (dp_id d) status reason (add_deposit d s) = Ok (tt, add_deposit (with_status status reason d) s).
Proof.
  intros Hf. destruct (mark_deposit (dp_id d) status reason (add_deposit d s)) as [[[] s']|e] eqn:E.
  - by rewrite (mark_last status reason d s tt s' Hf E).
  - exfalso. unfold mark_deposit, mbind, ctx_bind, query, refuse_if in E. simpl in E.
    rewrite (existsb_some _ (deposits s ++ [d]) d) in E; [done| |by apply bool_decide_eq_true]. set_solver.
Qed.

(** What [recordDeposit] needs to make a row. *)
Record recordable (id : string) (i : RecordDepositInput) (s : Custody) : Prop := {
  rc_row : deposit_row_ok (input_row id i) = true;
  rc_key : transfer_key (input_row id i) ∉ (transfer_key <$> deposits s);
  rc_id : id ∉ (dp_id <$> deposits s);
  rc_wallet : exists w, w ∈ wallets s /\ wl_id w = di_walletId i;
  rc_address : exists a, a ∈ addresses s /\ ad_id a = di_addressId i
}.

Lemma credit_tx_runs id i s :
  trading_nonneg (books s) -> recordable id i s -> 0 <= di_rentReserved i ->
  admissible (PDeposit (deposit_posting (input_row id i))) ->
  exists b, atomically (credit_tx id i) s =
      Ok (out_credited id, set_books b (add_deposit (with_status credited None (input_row id i)) s)) /\
    forall r, credit_balance r b = credit_balance r (books s) + deposit_delta r (input_row id i).
Proof.
  intros Hnn [Hok Hk Hi Hw Ha] Hrent Hadm.
  assert (exists t, postDeposit (deposit_posting (input_row id i)) = Ok t) as [t Ht].
  { eexists. apply postDeposit_Ok. split; [done|reflexivity]. }
  set (b := set_ledger (ledger (books s) ++ [t]) (books s)).
  assert (Hb : forall r, credit_balance r b = credit_balance r (books s) + deposit_delta r (input_row id i)).
  { intros r. unfold b. rewrite credit_balance_app, (deposit_posting_delta r (input_row id i) t Hrent Ht). lia. }
  exists b. split; [|done].
  assert (Hpost : postLedger (postDeposit (deposit_posting (input_row id i))) (books s) = Ok (tt, b)).
  { apply (postLedger_runs (PDeposit (deposit_posting (input_row id i)))); [done|].
    pose proof Ht as [_ ->]%postDeposit_Ok. by intros [?|?]. }
  destruct (constraints_hold (books s) b) as [Hd Hbal].
  - exists [PDeposit (deposit_posting (input_row id i))], [t]. split; [by repeat constructor|done].
  - intros u a ty Hty. rewrite Hb. pose proof (Hnn u a ty Hty).
    unfold deposit_delta. rewrite !bool_decide_eq_false_2; [lia|intros [=]; by subst ty..].
  - unfold atomically, credit_tx, mbind, ctx_bind. rewrite recordDeposit_new by done. unfold on_books. simpl.
    rewrite Hpost.
    change (set_books b (add_deposit (input_row id i) s)) with (add_deposit (input_row id i) (set_books b s)).
    unfold markCredited. change id with (dp_id (input_row id i)) at 1. rewrite mark_added by done. simpl.
    by rewrite Hd, Hbal.
Qed.

Lemma ignore_tx_runs id i reason s :
  recordable id i s ->
  ignore_tx id i reason s = Ok (out_ignored reason, add_deposit (with_status ignored (Some reason) (input_row id i)) s).
Proof.
  intros [Hok Hk Hi Hw Ha]. unfold ignore_tx, mbind, ctx_bind. rewrite recordDeposit_new by done.
  unfold markIgnored. change id with (dp_id (input_row id i)) at 1. by rewrite mark_added.
Qed.

(** ** One transfer, whoever else is at work *)

Definition event_key (e : TransferEvent) : string * string * Z := (te_chain e, te_txReference e, te_instructionIndex e).

Definition recorded (e : TransferEvent) (s : Custody) : Prop := event_key e ∈ (transfer_key <$> deposits s).

#[export] Instance recorded_dec e s : Decision (recorded e s).
Proof. unfold recorded. apply _. Defined.

Lemma recorded_add e id w a rent status reason b s :
  recorded e (set_books b (add_deposit (with_status status reason (input_row id (deposit_input w a e rent))) s)).
Proof. unfold recorded. simpl. rewrite fmap_app. apply elem_of_app. right. by left. Qed.

Lemma recorded_again w a e rent id s :
  deposit_row_ok (input_row id (deposit_input w a e rent)) = true -> recorded e s ->
  atomically (credit_tx id (deposit_input w a e rent)) s = Ok (out_duplicate, s) /\
  forall reason, atomically (ignore_tx id (deposit_input w a e rent) reason) s = Ok (out_duplicate, s).
Proof.
  intros Hok Hk. split; [|intros reason]; (apply atomically_same; [|done]);
    unfold credit_tx, ignore_tx, mbind, ctx_bind; by rewrite (recordDeposit_again id (deposit_input w a e rent) s Hok Hk).
Qed.

(** Its address and the wallet of that. *)
Record owner (e : TransferEvent) (a : AddressRecord) (w : WalletRecord) (s : Custody) : Prop := {
  ow_address : findByAddress (te_chain e) (te_to e) s = Ok (Some a, s);
  ow_wallet : findWalletById (ad_wallet a) s = Ok (Some w, s)
}.

Lemma owner_rows e a w s : owner e a w s -> a ∈ addresses s /\ w ∈ wallets s /\ wl_id w = ad_wallet a.
Proof.
  intros [Ha Hw]. unfold findByAddress, findWalletById, query in *. injection Ha as Ha. injection Hw as Hw.
  apply head_Some_elem_of, list_elem_of_filter in Ha as [_ Ha]. by apply head_Some_elem_of, list_elem_of_filter in Hw as [? Hw].
Qed.

Lemma owner_same e a w s s' : addresses s' = addresses s -> wallets s' = wallets s -> owner e a w s -> owner e a w s'.
Proof.
  unfold findByAddress, findWalletById, query. intros Ha Hw [[= Ea] [= Ew]].
  split; unfold findByAddress, findWalletById, query; by rewrite ?Ha, ?Hw, ?Ea, ?Ew.
Qed.

(** What matters to the crediting of a transfer, and what the others may do to it: they drop no
    row of a deposit, keep its address and wallet, do not use the ids that this process is to
    draw, and keep the books sound. *)
Record spares (e : TransferEvent) (a : AddressRecord) (w : WalletRecord) (ours : string -> Prop) (s s' : Custody) : Prop := {
  sp_recorded : recorded e s -> recorded e s';
  sp_owner : owner e a w s -> owner e a w s';
  sp_ids id : ours id -> id ∉ (dp_id <$> deposits s) -> id ∉ (dp_id <$> deposits s');
  sp_books : sound (books s) -> sound (books s')
}.

#[export] Instance spares_preorder e a w ours : PreOrder (spares e a w ours).
Proof. split; [by split|]. intros s1 s2 s3 [] []. split; eauto. Qed.

Section Concurrent.
Context {W : Type} `{!Node W} (assets : AssetRegistry).
Context (e : TransferEvent) (a : AddressRecord) (w : WalletRecord) (ours : string -> Prop).

(** What the others make of the tables, in any number of acts. *)
Definition acts : Custody -> Custody -> Prop := rtc (fun d d' => exists w, d' = (others w d).1).

Lemma acts_around w' d : acts d (others w' d).1.
Proof. apply rtc_once. by exists w'. Qed.

(** The transaction at the end. *)
Definition recording (id : string) (rent : Z) : ctx CreditOutcome :=
  if isAllowed assets (te_asset e) then credit_tx id (deposit_input w a e (Z.min rent (te_amount e)))
  else ignore_tx id (deposit_input w a e 0) (ignored_reason e).

Context (around : forall w' d, spares e a w ours d (others w' d).1) (drawn : forall w', ours (newId w').1).

Lemma acts_spare d d' : acts d d' -> spares e a w ours d d'.
Proof using around. induction 1 as [|d1 d2 d3 [w' ->] _ IH]; [reflexivity|]. etrans; [apply around|exact IH]. Qed.

(** A final transfer to the address of an active wallet, up to that transaction. *)
Lemma creditTransfer_concurrent rent s :
  te_confirmation e = conf_final -> owner e a w (db s) -> wl_status w = wallet_active ->
  exists s1 id, acts (db s) (db s1) /\ ours id /\ creditTransfer assets e rent s = commit (recording id rent) s1.
Proof using around drawn.
  intros Hf Ho Hw. unfold creditTransfer. rewrite bool_decide_eq_true_2 by done. cbn [negb]. unfold mbind, job_bind.
  unfold commit at 1. rewrite (atomically_same _ _ _ _ (ow_address _ _ _ _ Ho) eq_refl).
  pose proof (moves_yield acts acts_around (mkProc (db s) (world s))) as T1. unfold moves in T1. simpl db in T1.
  set (s1 := (yield (mkProc (db s) (world s))).2) in *. assert (Ho1 := sp_owner _ _ _ _ _ _ (acts_spare _ _ T1) Ho).
  unfold commit at 1. rewrite (atomically_same _ _ _ _ (ow_wallet _ _ _ _ Ho1) eq_refl).
  pose proof (moves_yield acts acts_around (mkProc (db s1) (world s1))) as T2. unfold moves in T2. simpl db in T2.
  set (s2 := (yield (mkProc (db s1) (world s1))).2) in *. rewrite bool_decide_eq_true_2 by done. cbn [negb].
  unfold call at 1. pose proof (drawn (world s2)) as Hid. destruct (newId (world s2)) as [id w3]. simpl in Hid.
  pose proof (moves_yield acts acts_around (mkProc (db s2) w3)) as T3. unfold moves in T3. simpl db in T3.
  set (s3 := (yield (mkProc (db s2) w3)).2) in *. exists s3, id. split; [by etrans; [exact T1|etrans]|]. split; [done|]. unfold recording.
  replace (if rent >? te_amount e then te_amount e else rent) with (Z.min rent (te_amount e))
    by (destruct (Z.gtb_spec rent (te_amount e)); lia).
  by destruct (isAllowed assets (te_asset e)).
Qed.

Lemma commit_acts {A} (m : ctx A) s r d :
  atomically m (db s) = Ok (r, d) -> exists s', commit m s = (Ok r, s') /\ acts d (db s').
Proof using. intros E. unfold commit. rewrite E. eexists. split; [done|]. apply (moves_yield acts acts_around (mkProc d (world s))). Qed.

(** What one crediting does, of all transactions the one at the end: it finds the row, or writes it. *)
Definition credited_at (rent : Z) (outcome : CreditOutcome) (d d' : Custody) : Prop :=
  (recorded e d /\ outcome = out_duplicate /\ d' = d) \/
  (~ recorded e d /\ exists row, deposits d' = deposits d ++ [row] /\ transfer_key row = event_key e /\
     dp_user row = wl_user w /\ dp_asset row = te_asset e /\ dp_amount row = te_amount e /\
     if isAllowed assets (te_asset e) then
       outcome = out_credited (dp_id row) /\ dp_status row = credited /\ dp_rentReserved row = Z.min rent (te_amount e) /\
       forall r, credit_balance r (books d') = credit_balance r (books d) + deposit_delta r row
     else outcome = out_ignored (ignored_reason e) /\ dp_status row = ignored /\ books d' = books d).

Context (positive : 0 < te_amount e) (in_cluster : exists c, qualified c (te_asset e)).
Context (row_ok : forall id, deposit_row_ok (input_row id (deposit_input w a e 0)) = true).

Lemma recording_again id rent d : recorded e d -> atomically (recording id rent) d = Ok (out_duplicate, d).
Proof using row_ok. intros Hr. unfold recording. case_match; apply recorded_again; try done; apply (row_ok id). Qed.

Lemma recording_runs id rent d :
  0 <= rent -> owner e a w d -> sound (books d) -> id ∉ (dp_id <$> deposits d) ->
  exists outcome d', atomically (recording id rent) d = Ok (outcome, d') /\ credited_at rent outcome d d' /\
    owner e a w d' /\ recorded e d'.
Proof using positive in_cluster row_ok.
  intros Hrent Ho Hs Hid. destruct (decide (recorded e d)) as [Hr|Hr].
  { exists out_duplicate, d. split; [by apply recording_again|]. split; [by left|done]. }
  assert (Hrec : forall rent, recordable id (deposit_input w a e rent) d).
  { destruct (owner_rows _ _ _ _ Ho) as (Ha & Hwl & Hwid). intros r. split; [apply (row_ok id)|exact Hr|exact Hid|by exists w|by exists a]. }
  unfold recording, credited_at. destruct (isAllowed assets (te_asset e)).
  - set (input := deposit_input w a e (Z.min rent (te_amount e))) in *.
    destruct (credit_tx_runs id input d (b_trading _ (proj1 Hs)) (Hrec _)) as (b & E & Hb); [simpl; lia| |].
    { unfold deposit_posting. simpl. split; [done|]. split; [|done]. destruct (Z.min rent (te_amount e) >? 0); simpl; lia. }
    do 2 eexists. split; [exact E|]. split; [right; split; [done|]; by eexists|]. split; [by apply (owner_same _ _ _ d)|apply recorded_add].
  - pose proof (ignore_tx_runs id (deposit_input w a e 0) (ignored_reason e) d (Hrec _)) as E.
    do 2 eexists. split; [by apply (atomically_same _ _ _ _ E)|]. split; [right; split; [done|]; by eexists|].
    split; [by apply (owner_same _ _ _ d)|apply (recorded_add e id w a 0 ignored (Some (ignored_reason e)) (books d))].
Qed.

(** C20: A transfer is credited once, whoever else is at work. Let the others only drop no row of a
    deposit, keep this transfer's address and wallet, keep the books sound and leave alone the
    ids this process draws; let the books be sound and these ids unused to begin with; and let
    the transfer be final, of a positive amount of an asset of some cluster on a chain whose
    name says which, and to an address of an active wallet, and the rent asked for not
    negative. Then there is one moment, after acts of the others and before further ones, at
    which crediting it either finds its row and changes nothing, or writes it: if its asset
    is on the list, the user is owed the amount less the rent kept for the account, the house
    the rent, and the user's on-chain position is the amount more; if it is not, the ledger
    is as it was. And whenever it is credited again, with any rent, it is a duplicate, and
    the tables change by the acts of the others alone. *)
Theorem transfer_credited_once rent s :
  te_confirmation e = conf_final -> wl_status w = wallet_active -> 0 <= rent ->
  owner e a w (db s) -> sound (books (db s)) -> (forall id, ours id -> id ∉ (dp_id <$> deposits (db s))) ->
  exists outcome s', creditTransfer assets e rent s = (Ok outcome, s') /\
  (exists d d', acts (db s) d /\ credited_at rent outcome d d' /\ acts d' (db s')) /\
  forall rent' s2, acts (db s') (db s2) ->
    exists s2', creditTransfer assets e rent' s2 = (Ok out_duplicate, s2') /\ acts (db s2) (db s2').
Proof using around drawn positive in_cluster row_ok.
  intros Hf Hw Hrent Ho Hs Hids. destruct (creditTransfer_concurrent rent s Hf Ho Hw) as (s1 & id & T1 & Hid & ->).
  pose proof (acts_spare _ _ T1) as [_ Ho1 Hi1 Hb1].
  destruct (recording_runs id rent (db s1) Hrent (Ho1 Ho) (Hb1 Hs) (Hi1 id Hid (Hids id Hid))) as (outcome & d' & E & Hat & Hod & Hrd).
  destruct (commit_acts _ s1 _ _ E) as (s' & -> & T2). exists outcome, s'. split; [done|]. split; [by exists (db s1), d'|].
  intros rent' s2 T3. assert (T23 : acts d' (db s2)) by (by etrans). pose proof (acts_spare _ _ T23) as [Hr2 Ho2 _ _].
  destruct (creditTransfer_concurrent rent' s2 Hf (Ho2 Hod) Hw) as (s3 & id3 & T4 & _ & ->).
  pose proof (acts_spare _ _ T4) as [Hr3 _ _ _].
  destruct (commit_acts (recording id3 rent') s3 out_duplicate (db s3)) as (s4 & -> & T5); [by apply recording_again; auto|].
  exists s4. split; [done|]. by etrans.
Qed.
End Concurrent.
