(* ===== verification/Cursors.v ===== *)
(** * Cursors: how far the indexer believes to have read

    Proofs about the cursor that [Deposits.pollAddress] advances, beside others that drop no
    row of a deposit, keep addresses found and leave this cursor alone: it passes only
    transfers of the page that were settled. No code is modelled here. *)

From S2P Require Import Prelude Risk Assets Ledger Postings Store Books Custody Withdrawals Broadcaster Locks Escrow.
From S2P Require Import Transfers Deposits Credits.
From Stdlib Require Import ZArith Lia.
From stdpp Require Import base list strings gmap relations.

Open Scope string_scope.
Open Scope list_scope.
Open Scope Z_scope.

(** ** Settled transfers *)

(** The address a transfer went to, when it is ours. *)
Definition address_of (chain to : string) (s : Custody) : option AddressRecord :=
  head (filter (fun a => ad_chain a = chain /\ ad_address a = to) (addresses s)).

(** Nobody is owed a transfer to an address that is not ours or whose wallet is not active. *)
Definition not_owed (e : TransferEvent) (s : Custody) : Prop :=
  match address_of (te_chain e) (te_to e) s with
  | None => True
  | Some a =>
      match head (filter (fun w => wl_id w = ad_wallet a) (wallets s)) with
      | None => True
      | Some w => wl_status w <> wallet_active
      end
  end.

(** The value of a cursor. *)
Definition cursor_of (addressId scan : string) (s : Custody) : option string :=
  head (filter (fun c => cursor_at addressId scan c = true) (cursors s)) ≫= cu_signature.

(** What the others must leave: the rows of deposits, the addresses that are found, and this cursor.
    They may add deposits, addresses and wallets, and do with the wallets as they like. *)
Record steady (addressId scan : string) (s s' : Custody) : Prop := {
  st_recorded e : recorded e s -> recorded e s';
  st_address chain to a : address_of chain to s = Some a -> address_of chain to s' = Some a;
  st_cursor : cursor_of addressId scan s' = cursor_of addressId scan s
}.

#[export] Instance steady_preorder i a : PreOrder (steady i a).
Proof.
  split; [by split|]. intros s1 s2 s3 [K12 A12 C12] [K23 A23 C23]. split; [auto..|congruence].
Qed.

Lemma add_deposit_steady i a b d s : steady i a s (set_books b (add_deposit d s)).
Proof. split; try done. intros e He. unfold recorded. simpl. rewrite fmap_app. apply elem_of_app. by left. Qed.

#[export] Instance steady_indexes i a : Indexes (steady i a).
Proof.
  split; [apply _| |].
  - intros id input s r s' [H _]%atomically_Ok. apply credit_tx_row in H as [(_ & -> & _)|(_ & b & _ & _ & ->)]; [reflexivity|].
    apply add_deposit_steady.
  - intros id input reason s r s' [(_ & -> & _)|(_ & _ & ->)]%ignore_tx_row; [reflexivity|].
    apply add_deposit_steady.
Qed.

(** ** The cursor's row *)

Lemma cursor_at_same i a c : cursor_at i a c = true -> cu_addressId c = i /\ cu_scanAddress c = a.
Proof. unfold cursor_at. intros ?. by zbool. Qed.

Lemma upsert_cursor_Ok row f s u s' :
  upsert_cursor row f s = Ok (u, s') ->
  (forall c, cu_addressId (f c) = cu_addressId c /\ cu_scanAddress (f c) = cu_scanAddress c) ->
  s' = set_cursors (cursors s') s /\
  exists old, head (filter (fun c => cursor_at (cu_addressId row) (cu_scanAddress row) c = true) (cursors s)) = old /\
    head (filter (fun c => cursor_at (cu_addressId row) (cu_scanAddress row) c = true) (cursors s')) =
      Some (match old with Some c => f c | None => row end).
Proof.
  intros H Hf. unfold upsert_cursor in H. set (hit := cursor_at (cu_addressId row) (cu_scanAddress row)) in *.
  assert (Hhit : forall c, hit (f c) = hit c).
  { intros c. unfold hit, cursor_at. destruct (Hf c) as [-> ->]. done. }
  inv_ctx. case_match eqn:E; inv_ctx; (split; [done|]); eexists; (split; [reflexivity|]); simpl.
  - apply existsb_exists in E as (c & Hc%list_elem_of_In & Ht). induction (cursors s) as [|x xs IH]; [set_solver|].
    simpl. rewrite !filter_cons. destruct (hit x) eqn:Ex.
    + rewrite !decide_True by (rewrite ?Hhit; done). done.
    + rewrite !decide_False by congruence. apply IH. apply elem_of_cons in Hc as [->|?]; [congruence|done].
  - rewrite existsb_none in E. rewrite filter_app, (filter_none _ (cursors s)) by (intros c Hc; rewrite E; done).
    simpl. rewrite filter_cons, decide_True; [done|]. unfold hit, cursor_at. by rewrite !bool_decide_eq_true_2.
Qed.

Lemma advance_Ok i a chain signature position s u s' :
  advance i a chain signature position s = Ok (u, s') ->
  s' = set_cursors (cursors s') s /\ cursor_of i a s' = Some signature.
Proof.
  unfold advance. intros H. apply upsert_cursor_Ok in H as (Hs & old & _ & E); [|done]. split; [done|].
  unfold cursor_of. simpl in E. rewrite E. by destruct old.
Qed.

Lemma touch_Ok i a chain s u s' :
  touch i a chain s = Ok (u, s') -> s' = set_cursors (cursors s') s /\ cursor_of i a s' = cursor_of i a s.
Proof.
  unfold touch. intros H. apply upsert_cursor_Ok in H as (Hs & old & Eo & E); [|done]. split; [done|].
  unfold cursor_of. simpl in E, Eo. rewrite E, Eo. by destruct old.
Qed.

Section Cursor.
Context {W : Type} `{!Node W} (addressId scan : string) (around : forall w d, steady addressId scan d (others w d).1).
Context (publicKey : string -> option string) (cluster : Cluster) (commitment : Commitment) (maxRetries : nat).
Context (assets : AssetRegistry) (chain : string) (pageSize : Z).

(** *** What happens during a poll *)

(** The others act, or the indexer commits one of its transactions. *)
Inductive act : Custody -> Custody -> Prop :=
| act_others w d : act d (others w d).1
| act_credit id i d r d' : atomically (credit_tx id i) d = Ok (r, d') -> act d d'
| act_ignore id i reason d r d' : ignore_tx id i reason d = Ok (r, d') -> act d d'
| act_cursor row f d r d' : upsert_cursor row f d = Ok (r, d') -> act d d'.

Definition during : Custody -> Custody -> Prop := rtc act.

(** A transfer that was settled by the tables at the end, or during what led to them: it is final,
    and has its row, or was at some moment owed to nobody. *)
Definition settled (s : Custody) (e : TransferEvent) (s' : Custody) : Prop :=
  te_confirmation e = conf_final /\
  (recorded e s' \/ exists d, during s d /\ during d s' /\ not_owed e d).

(** The indexer's jobs take these acts, and until they write the cursor all is steady. *)
Definition meanwhile (s s' : Custody) : Prop := during s s' /\ steady addressId scan s s'.

#[export] Instance meanwhile_indexes : Indexes meanwhile.
Proof using.
  split.
  - split; [intros s; split; reflexivity|]. intros s1 s2 s3 [] []. split; by etrans.
  - intros id i s r s' H. split; [by eapply rtc_once, act_credit|by eapply (ix_credit (Indexes := steady_indexes addressId scan))].
  - intros id i reason s r s' H. split; [by eapply rtc_once, act_ignore|by eapply (ix_ignore (Indexes := steady_indexes addressId scan))].
Qed.

Lemma around_meanwhile w d : meanwhile d (others w d).1.
Proof using around. split; [by apply rtc_once, act_others|apply around]. Qed.

Abbreviation T := meanwhile.

Lemma settled_widen s0 s e s' s1 : during s0 s -> during s' s1 -> (recorded e s' -> recorded e s1) -> settled s e s' -> settled s0 e s1.
Proof using.
  intros H0 H1 Hr [Hf [He|(d & Hd & Hd' & Hn)]]; (split; [done|]); [left; auto|right].
  exists d. split; [by etrans|]. by split; [etrans|].
Qed.

Lemma settled_meanwhile s0 s e s' s1 : T s0 s -> T s' s1 -> settled s e s' -> settled s0 e s1.
Proof using. intros [H0 _] [H1 [Hr _ _]]. apply settled_widen; [done..|apply Hr]. Qed.

Lemma commit_query_inv {A} (f : Custody -> A) s r s' :
  commit (query f) s = (Ok r, s') -> r = f (db s) /\ T (db s) (db s').
Proof using around.
  intros [(a & d & [= ->] & Hq & Ht)|(e & [=] & _)]%(commit_inv T around_meanwhile). unfold query in Hq. by injection Hq as <- <-.
Qed.

(** A transfer the pipeline is done with is settled. *)
Lemma creditTransfer_settles e rent s out s' :
  creditTransfer assets e rent s = (Ok out, s') -> out <> out_not_final -> settled (db s) e (db s').
Proof using around.
  unfold creditTransfer. case_bool_decide as Hf; simpl; [|by intros [= <- _]].
  intros (a & s1 & [Ea T1]%commit_query_inv & H)%job_bind_Ok _. change (a = address_of (te_chain e) (te_to e) (db s)) in Ea.
  assert (Hno : forall s2 : Proc W, T (db s) (db s2) -> T (db s2) (db s') -> not_owed e (db s2) -> settled (db s) e (db s')).
  { intros s2 [T2 _] [T3 _] Hn. split; [done|right]. by exists (db s2). }
  destruct a as [a|]; [|injection H as _ <-; apply (Hno s); [reflexivity|done|unfold not_owed; by rewrite <- Ea]].
  apply job_bind_Ok in H as (w & s2 & [Ew T2]%commit_query_inv & H).
  assert (Hwallet : match w with Some w => wl_status w <> wallet_active | None => True end -> T (db s1) (db s') -> settled (db s) e (db s')).
  { intros Hw T3. apply (Hno s1); [done..|]. unfold not_owed. rewrite (st_address _ _ _ _ (proj2 T1) _ _ a) by done. rewrite <- Ew. by destruct w. }
  destruct w as [w|]; [|injection H as _ <-; by apply Hwallet].
  case_bool_decide as Hw; simpl in H; [|injection H as _ <-; by apply Hwallet].
  apply job_bind_Ok in H as (id & s3 & _ & H).
  assert (Hrow : forall b d, transfer_key d = event_key e -> T (set_books b (add_deposit d (db s3))) (db s') ->
            settled (db s) e (db s')).
  { intros b d Hd [_ Ht]. split; [done|left]. apply (st_recorded _ _ _ _ Ht). unfold recorded. simpl. rewrite fmap_app.
    apply elem_of_app. right. rewrite <- Hd. by left. }
  assert (Hdup : recorded e (db s3) -> T (db s3) (db s') -> settled (db s) e (db s')).
  { intros Hk [_ Ht]. split; [done|left]. by apply (st_recorded _ _ _ _ Ht). }
  destruct (isAllowed assets (te_asset e)); simpl in H;
    apply (commit_inv T around_meanwhile) in H as [(r & d & _ & Hm & Ht)|(? & [=] & _)].
  - apply credit_tx_row in Hm as [(_ & -> & Hk)|(_ & b & _ & _ & ->)]; [by apply Hdup|]. by eapply Hrow; [|exact Ht].
  - apply ignore_tx_row in Hm as [(_ & -> & Hk)|(_ & _ & ->)]; [by apply Hdup|]. by eapply Hrow; [|exact Ht].
Qed.

(** The loop over a page processes a prefix of it. *)
Lemma process_settles watched rent transfers highest s r s' :
  process assets watched rent transfers highest s = (Ok r, s') ->
  exists done rest, transfers = done ++ rest /\ Forall (fun e => settled (db s) e (db s')) done /\
    r = match last done with Some e => Some (te_txReference e, te_position e) | None => highest end.
Proof using around.
  revert highest s. induction transfers as [|e transfers IH]; intros highest s; cbn [process].
  { intros [= <- <-]. by exists [], []. }
  intros (n & s1 & [_ T1]%commit_query_inv & (out & s2 & Hc & H)%job_bind_Ok)%job_bind_Ok.
  destruct (decide (out = out_not_final)) as [->|Hne]; [injection H as <- <-; by exists [], (e :: transfers)|].
  assert (H' : process assets watched rent transfers (Some (te_txReference e, te_position e)) s2 = (Ok r, s'))
    by (by destruct out).
  clear H. rename H' into H.
  pose proof (process_moves T around_meanwhile assets watched rent transfers (Some (te_txReference e, te_position e)) s2) as T3.
  pose proof (creditTransfer_moves T around_meanwhile assets e (if n =? 0 then rent else 0) s1) as T2.
  unfold moves in T2, T3. rewrite Hc in T2. rewrite H in T3. simpl in T2, T3.
  apply IH in H as (ds & rest & -> & Hds & ->). exists (e :: ds), rest. split; [done|]. split.
  - constructor; [eapply settled_meanwhile; [exact T1|exact T3|by eapply creditTransfer_settles]|].
    eapply Forall_impl; [exact Hds|]. intros x. apply settled_meanwhile; [by etrans|reflexivity].
  - rewrite last_cons. by destruct (last ds).
Qed.

Lemma commit_advance signature position s r s' :
  commit (advance addressId scan chain signature position) s = (r, s') ->
  (exists d, during (db s) d /\ T d (db s') /\ d = set_cursors (cursors d) (db s) /\ cursor_of addressId scan (db s') = Some signature) \/
  cursor_of addressId scan (db s') = cursor_of addressId scan (db s).
Proof using around.
  intros [(a & d & _ & Ha & Ht)|(e & _ & [_ Ht])]%(commit_inv T around_meanwhile).
  - left. exists d. split; [by eapply rtc_once, act_cursor|]. apply advance_Ok in Ha as [Hd Hc].
    by rewrite (st_cursor _ _ _ _ (proj2 Ht)).
  - right. apply (st_cursor _ _ _ _ Ht).
Qed.

Lemma commit_touch s r s' :
  commit (touch addressId scan chain) s = (r, s') ->
  during (db s) (db s') /\ cursor_of addressId scan (db s') = cursor_of addressId scan (db s).
Proof using around.
  intros [(a & d & _ & Ht & [T1 T2])|(e & _ & [T1 T2])]%(commit_inv T around_meanwhile);
    rewrite (st_cursor _ _ _ _ T2); [|done].
  split; [etrans; [by eapply rtc_once, act_cursor|exact T1]|by apply touch_Ok in Ht as [_ ->]].
Qed.

(** What becomes of the cursor of an account that is polled. *)
Definition passes (watched : WatchedAddress) (account : string) (s s' : Proc W) : Prop :=
  exists request page s1, fetchTransfers publicKey cluster commitment maxRetries request s = (Ok page, s1) /\
    request = mkFetch account (if bool_decide (account = wa_address watched) then None else Some (wa_address watched)) (wa_cursor watched) pageSize /\
    ((pg_transfers page = [] /\ cursor_of addressId scan (db s') = pg_nextCursor page) \/
     exists processed e rest, pg_transfers page = processed ++ e :: rest /\
       cursor_of addressId scan (db s') = Some (te_txReference e) /\
       Forall (fun e => settled (db s) e (db s')) (processed ++ [e])).

Lemma poll_passes watched account s r s' :
  wa_addressId watched = addressId ->
  pollAddress publicKey cluster commitment maxRetries assets chain pageSize watched account scan s = (r, s') ->
  cursor_of addressId scan (db s') = cursor_of addressId scan (db s) \/ passes watched account s s'.
Proof using around.
  intros Hid H. unfold pollAddress, mbind, job_bind in H. rewrite Hid in H.
  set (request := mkFetch account _ _ _) in H.
  pose proof (fetchTransfers_moves T around_meanwhile publicKey cluster commitment maxRetries request s) as Tf. unfold moves in Tf.
  destruct (fetchTransfers _ _ _ _ request s) as [[page|e] s1] eqn:Ef; simpl in Tf;
    [|injection H as _ <-; left; apply (st_cursor _ _ _ _ (proj2 Tf))].
  assert (Hpage : forall P, (cursor_of addressId scan (db s') = cursor_of addressId scan (db s1) \/ P) ->
    cursor_of addressId scan (db s') = cursor_of addressId scan (db s) \/ P).
  { intros P [->|?]; [left; apply (st_cursor _ _ _ _ (proj2 Tf))|by right]. }
  apply Hpage.
  destruct (pg_transfers page) as [|first rest] eqn:Ep.
  - destruct (commit (touch _ _ _) s1) as [r1 s2] eqn:Et. apply commit_touch in Et as [_ E2].
    destruct r1 as [[]|e]; [|injection H as _ <-; by left].
    destruct (pg_nextCursor page) as [next|] eqn:En; [|injection H as _ <-; by left].
    case_bool_decide; [injection H as _ <-; by left|].
    apply commit_advance in H as [(d & _ & _ & _ & Hc)|Hc]; [right|left; by rewrite Hc].
    exists request, page, s1. repeat (split; [done|]). left. by rewrite Hc.
  - pose proof (getMinimumAccountBalance_moves T around_meanwhile cluster maxRetries (te_asset first) s1) as Tm. unfold moves in Tm.
    set (rent := if bool_decide (account = wa_address watched) then _ else _) in H.
    destruct (rent s1) as [[n|e] s2] eqn:Er; assert (T2 : T (db s1) (db s2)) by
      (unfold rent in Er; case_bool_decide; [rewrite Er in Tm; exact Tm|injection Er as _ <-; reflexivity]).
    2: { injection H as _ <-. left. apply (st_cursor _ _ _ _ (proj2 T2)). }
    pose proof (process_moves T around_meanwhile assets watched n (first :: rest) None s2) as Tp. unfold moves in Tp.
    destruct (process _ _ _ _ _ s2) as [[highest|e] s3] eqn:Epr; simpl in Tp;
      [|injection H as _ <-; left; by rewrite (st_cursor _ _ _ _ (proj2 Tp)), (st_cursor _ _ _ _ (proj2 T2))].
    assert (E3 : cursor_of addressId scan (db s3) = cursor_of addressId scan (db s1))
      by (by rewrite (st_cursor _ _ _ _ (proj2 Tp)), (st_cursor _ _ _ _ (proj2 T2))).
    apply process_settles in Epr as (ds & rest' & Eds & Hds & ->).
    destruct (last ds) as [e|] eqn:El; [|injection H as _ <-; by left].
    apply commit_advance in H as [(d & T4 & T5 & Hd & Hc)|Hc]; [right|left; by rewrite Hc].
    exists request, page, s1. repeat (split; [done|]). right.
    apply last_Some in El as [processed ->]. exists processed, e, rest'.
    split; [by rewrite Ep, Eds, <- app_assoc|]. split; [done|].
    eapply Forall_impl; [exact Hds|]. intros x. apply settled_widen; [by etrans; [apply Tf|apply T2]|by etrans; [|apply T5]|].
    intros Hx. apply (st_recorded _ _ _ _ (proj2 T5)). by rewrite Hd.
Qed.

(** C21: The cursor passes only what was settled. As long as the others drop no row of a deposit,
    keep the addresses that are found and leave this cursor alone, whatever else they do
    meanwhile, a poll of an account leaves its cursor where it was, or moves it to the last
    of the transfers it processed in order. Each of these is final, and has its row in the
    end or was at some moment of the poll owed to nobody: its address not ours, or the wallet
    of it not active. Only a page without transfers moves it to where the page ends. *)
Theorem cursor_passes_only_settled watched account s r s' :
  wa_addressId watched = addressId ->
  pollAddress publicKey cluster commitment maxRetries assets chain pageSize watched account scan s = (r, s') ->
  cursor_of addressId scan (db s') = cursor_of addressId scan (db s) \/
  exists request page s1, fetchTransfers publicKey cluster commitment maxRetries request s = (Ok page, s1) /\
    request = mkFetch account (if bool_decide (account = wa_address watched) then None else Some (wa_address watched)) (wa_cursor watched) pageSize /\
    ((pg_transfers page = [] /\ cursor_of addressId scan (db s') = pg_nextCursor page) \/
     exists processed e rest, pg_transfers page = processed ++ e :: rest /\
       cursor_of addressId scan (db s') = Some (te_txReference e) /\
       Forall (fun e => settled (db s) e (db s')) (processed ++ [e])).
Proof using around. apply poll_passes. Qed.
End Cursor.
