(* ===== verification/Bursts.v ===== *)
(** * Bursts: what a page of signatures leaves behind

    Proofs about the polls of an account, on a node that lists its signatures newest first:
    what a page reads is at its newest end, so that a cursor which has moved leaves behind it
    whatever the page had no room for. No code is modelled here. *)

From S2P Require Import Prelude Assets Store Custody Withdrawals Broadcaster Transfers Deposits Escrow Credits Cursors.
From Stdlib Require Import ZArith Lia.
From stdpp Require Import base list strings gmap relations.

Open Scope string_scope.
Open Scope list_scope.
Open Scope Z_scope.

(** ** A node that lists newest first *)

(** The signatures before [until]. *)
Fixpoint before_signature (until : option string) (xs : list SignatureInfo) : list SignatureInfo :=
  match xs with
  | [] => []
  | x :: xs => if bool_decide (until = Some (si_signature x)) then [] else x :: before_signature until xs
  end.

Lemma before_none xs : before_signature None xs = xs.
Proof. induction xs as [|x xs IH]; [done|]. simpl. by rewrite IH. Qed.

Lemma before_app until xs ys :
  (forall c, until = Some c -> c ∉ (si_signature <$> xs)) -> before_signature until (xs ++ ys) = xs ++ before_signature until ys.
Proof.
  intros H. induction xs as [|x xs IH]; [done|]. simpl. rewrite bool_decide_eq_false_2.
  - rewrite IH; [done|]. intros c Hc Hin. apply (H c Hc). by right.
  - intros Hc. apply (H _ Hc). by left.
Qed.

Lemma before_here c xs x ys :
  si_signature x = c -> c ∉ (si_signature <$> xs) -> before_signature (Some c) (xs ++ x :: ys) = xs.
Proof.
  intros Hx Hc. rewrite before_app by (by intros ? [= <-]). simpl. rewrite bool_decide_eq_true_2 by congruence. apply app_nil_r.
Qed.

Lemma before_prefix until xs : exists ys, xs = before_signature until xs ++ ys.
Proof.
  induction xs as [|x xs [ys IH]]; [by exists []|]. simpl. case_bool_decide; [by eexists|]. exists ys. simpl. by rewrite <- IH.
Qed.

Section Bursts.
Context {W : Type} `{!Node W} (publicKey : string -> option string) (cluster : Cluster) (commitment : Commitment).
Context (maxRetries : nat) (assets : AssetRegistry) (chain : string) (pageSize : Z).
Context (addressId scan : string) (around : forall w d, steady addressId scan d (others w d).1).
Context (history : W -> list SignatureInfo).

(** The history is at least as long. *)
Definition grows (w w' : W) : Prop := exists newer, history w' = newer ++ history w.

#[export] Instance grows_preorder : PreOrder grows.
Proof using.
  split; [intros w; by exists []|]. intros w1 w2 w3 [n1 H1] [n2 H2]. exists (n2 ++ n1). by rewrite H2, H1, app_assoc.
Qed.

(** The node lists the signatures of the account newest first, those before [until], as many as it
    is asked for; each is there once, and whatever happens only puts newer ones before it. *)
Record lists_newest : Prop := {
  ln_answer key limit until w l w' : publicKey scan = Some key ->
    getSignaturesForAddress key limit until (toFinality commitment) w = (Ok l, w') ->
    l = take (Z.to_nat limit) (before_signature until (history w));
  ln_once w : NoDup (si_signature <$> history w);
  ln_signatures key limit until fin w : grows w (getSignaturesForAddress key limit until fin w).2;
  ln_parsed signature w : grows w (getParsedTransaction signature w).2;
  ln_minimum w : grows w (getMinimumBalanceForRentExemption w).2;
  ln_id w : grows w (newId w).2;
  ln_others w d : grows w (others w d).2
}.

Context (node : lists_newest).

(** *** The history grows *)

Definition ages {A} (m : job W A) (s : Proc W) : Prop := grows (world s) (world (m s).2).

Lemma ages_still {A} (m : job W A) s : (m s).2 = s -> ages m s.
Proof using. unfold ages. by intros ->. Qed.

Lemma ages_bind {A B} (m : job W A) (k : A -> job W B) s :
  ages m s -> (forall a s', m s = (Ok a, s') -> ages (k a) s') -> ages (m ≫= k) s.
Proof using.
  unfold ages, mbind, job_bind. intros Hm Hk. destruct (m s) as [[a|e] s'] eqn:E; [|done]. etrans; [exact Hm|by apply Hk].
Qed.

Lemma ages_yield s : ages yield s.
Proof using node. unfold ages, yield. pose proof (ln_others node (world s) (db s)) as H. by destruct (others _ _). Qed.

Lemma ages_commit {A} (m : ctx A) s : ages (commit m) s.
Proof using node.
  unfold ages, commit. destruct (atomically m (db s)) as [[a d]|e]; [apply (ages_yield (mkProc d (world s)))|apply ages_yield].
Qed.

Lemma ages_call {A} (f : W -> A * W) s : (forall w, grows w (f w).2) -> ages (call f) s.
Proof using node.
  intros Hf. unfold ages, call. specialize (Hf (world s)). destruct (f (world s)) as [a w].
  etrans; [exact Hf|]. apply (ages_yield (mkProc (db s) w)).
Qed.

Lemma ages_rpc {A} operation n (f : W -> result A * W) : (forall w, grows w (f w).2) -> forall w, grows w (rpc_call operation n f w).2.
Proof using.
  intros Hf. induction n as [|n IH]; intros w; simpl; pose proof (Hf w) as H; destruct (f w) as [[a|e] w1]; try done.
  destruct (isRetryable e); [|done]. etrans; [exact H|apply IH].
Qed.

Ltac age_step := first
  [ by apply ages_still | apply ages_commit
  | apply ages_call; intros ?; first [apply ages_rpc; intros ?; apply node|apply node]
  | apply ages_bind; [|intros ? ? _] | progress unfold call_result | case_match ].

Lemma read_transactions_ages watched owners ordered s : ages (read_transactions cluster maxRetries watched owners ordered) s.
Proof using node.
  revert s. induction ordered as [|x ordered IH]; intros s; cbn [read_transactions]; repeat first [apply IH|age_step].
Qed.

Lemma fetchTransfers_ages request s : ages (fetchTransfers publicKey cluster commitment maxRetries request) s.
Proof using node. unfold fetchTransfers. repeat first [apply read_transactions_ages|age_step]. Qed.

Lemma process_ages watched rent transfers highest s : ages (process assets watched rent transfers highest) s.
Proof using node.
  revert highest s. induction transfers as [|e transfers IH]; intros highest s; cbn [process]; [age_step|].
  unfold creditTransfer. repeat first [apply IH|age_step].
Qed.

Lemma pollAddress_ages watched account cursor s :
  ages (pollAddress publicKey cluster commitment maxRetries assets chain pageSize watched account cursor) s.
Proof using node.
  unfold pollAddress, getMinimumAccountBalance. repeat first [apply fetchTransfers_ages|apply process_ages|age_step].
Qed.
(** The request of a poll of the address itself, and what its page goes through. *)
Definition request_of (watched : WatchedAddress) (account : string) : FetchTransfersRequest :=
  mkFetch account (if bool_decide (account = wa_address watched) then None else Some (wa_address watched)) (wa_cursor watched) pageSize.

Lemma poll_after_fetch watched account cursor s page s1 :
  fetchTransfers publicKey cluster commitment maxRetries (request_of watched account) s = (Ok page, s1) ->
  grows (world s1) (world (pollAddress publicKey cluster commitment maxRetries assets chain pageSize watched account cursor s).2).
Proof using node.
  intros Hf. unfold pollAddress, getMinimumAccountBalance. unfold mbind at 1, job_bind at 1. fold (request_of watched account). rewrite Hf.
  match goal with |- grows _ (world (?m s1).2) => change (ages m s1) end. repeat first [apply process_ages|age_step].
Qed.

(** *** What a page reads *)

Lemma rpc_call_Ok {A} operation n (f : W -> result A * W) w a w' :
  (forall w, grows w (f w).2) -> rpc_call operation n f w = (Ok a, w') -> exists w1, grows w w1 /\ f w1 = (Ok a, w').
Proof using.
  intros Hf. revert w. induction n as [|n IH]; intros w; simpl; pose proof (Hf w) as Hg; destruct (f w) as [[b|e] w1] eqn:E; simpl in Hg.
  - intros [= <- <-]. exists w. by split.
  - done.
  - intros [= <- <-]. exists w. by split.
  - destruct (isRetryable e); [|done]. intros (w2 & H2 & Hw)%IH. exists w2. split; [by etrans|done].
Qed.

Lemma parsed_reference tx t watched es e :
  parseTransfers cluster tx t watched = Ok es \/ parseTokenTransfers cluster tx t watched = Ok es -> e ∈ es -> te_txReference e = tx.
Proof using.
  clear -cluster. unfold parseTransfers, parseTokenTransfers. destruct (px_meta t) as [m|]; [|by intros [[= <-]|[= <-]] ?%not_elem_of_nil].
  destruct (m_failed m); [by intros [[= <-]|[= <-]] ?%not_elem_of_nil|].
  intros [H|H] He.
  - destruct (negb _); [injection H as <-; by apply not_elem_of_nil in He|].
    apply (collect_elem _ _ _ e H) in He as (i & x & l & _ & Hl & Hin). unfold native_event in Hl.
    repeat case_match; inv_ok; set_solver.
  - apply (collect_elem _ _ _ e H) in He as (i & x & l & _ & Hl & Hin). unfold token_event in Hl.
    repeat case_match; inv_ok; set_solver.
Qed.

Lemma read_transactions_references watched owners ordered s es s' e :
  read_transactions cluster maxRetries watched owners ordered s = (Ok es, s') -> e ∈ es ->
  te_txReference e ∈ (si_signature <$> ordered).
Proof using.
  revert s es s'. induction ordered as [|x ordered IH]; intros s es s'; cbn [read_transactions].
  { intros [= <- _] ?%not_elem_of_nil. done. }
  intros (parsed & s1 & _ & (found & s2 & Hf & (rest & s3 & Hr & [= <- _])%job_bind_Ok)%job_bind_Ok)%job_bind_Ok.
  rewrite fmap_cons, elem_of_cons. intros [He|He]%elem_of_app; [left|right; by eapply IH].
  destruct parsed as [t|]; [|injection Hf as <- _; by apply not_elem_of_nil in He].
  apply job_bind_Ok in Hf as (natives & s4 & [= Hn _] & (tokens & s5 & [= Ht _] & [= <- _])%job_bind_Ok).
  apply elem_of_app in He as [He|He].
  - eapply (parsed_reference _ t watched natives); [by left|done].
  - eapply (parsed_reference _ t owners tokens); [by right|done].
Qed.

(** The signatures a request is answered with. *)
Definition newest (limit : Z) (until : option string) (w : W) : list string :=
  si_signature <$> take (Z.to_nat limit) (before_signature until (history w)).

Lemma fetchTransfers_page request s page s' :
  fetchTransfers publicKey cluster commitment maxRetries request s = (Ok page, s') -> fr_address request = scan ->
  let read := newest (Z.min (fr_pageSize request) 1000) (fr_cursor request) in
  exists w, grows (world s) w /\ grows w (world s') /\
    (forall e, e ∈ pg_transfers page -> te_txReference e ∈ read w) /\
    (pg_nextCursor page = fr_cursor request \/ exists c, pg_nextCursor page = Some c /\ c ∈ read w).
Proof using node.
  intros H Hscan. unfold fetchTransfers in H. rewrite Hscan in H.
  apply job_bind_Ok in H as (checked & s1 & [= _ <-] & (key & s2 & [= Hkey <-] & H)%job_bind_Ok).
  assert (Hk : publicKey scan = Some key) by (unfold normalize in Hkey; destruct (publicKey scan); congruence). clear Hkey.
  apply job_bind_Ok in H as (l & s3 & Hl & H).
  apply job_bind_Ok in Hl as (answer & s4 & Ha & [= -> ->]). unfold call in Ha.
  destruct (rpc_call _ _ _ (world s)) as [a w1] eqn:E. injection Ha as -> <-.
  apply rpc_call_Ok in E as (w & Hw & E); [|intros; apply node].
  assert (Hw1 : grows w w1) by (pose proof (ln_signatures node key (Z.min (fr_pageSize request) 1000) (fr_cursor request) (toFinality commitment) w) as G; by rewrite E in G).
  apply (ln_answer node key) in E; [|done]. set (s3 := (yield (mkProc (db s) w1)).2) in *.
  assert (Hw3 : grows w (world s3)) by (etrans; [exact Hw1|apply (ages_yield (mkProc (db s) w1))]).
  exists w. split; [done|]. unfold newest. rewrite <- E. clear E checked. destruct l as [|x l].
  - injection H as <- <-. split; [done|]. split; [by intros e ?%not_elem_of_nil|]. by left.
  - set (ordered := reverse _) in H. assert (Hin : forall y, y ∈ ordered -> y ∈ x :: l).
    { intros y. unfold ordered. rewrite elem_of_reverse, list_elem_of_filter. tauto. }
    apply job_bind_Ok in H as (owner & s5 & [= _ <-] & (ts & s6 & Hr & [= <- <-])%job_bind_Ok). simpl.
    split.
    { etrans; [exact Hw3|]. pose proof (read_transactions_ages {[key]} {[owner]} ordered s3) as G. unfold ages in G. by rewrite Hr in G. }
    split.
    + intros e He. eapply read_transactions_references in Hr; [|exact He]. apply list_elem_of_fmap in Hr as (y & -> & Hy).
      apply (list_elem_of_fmap_2 si_signature (x :: l)). by apply Hin.
    + destruct (last ordered) as [y|] eqn:El; simpl; [right|by left]. exists (si_signature y). split; [done|].
      apply (list_elem_of_fmap_2 si_signature (x :: l)). apply Hin. by apply last_Some_elem_of.
Qed.

(** *** What a cursor leaves behind *)

Definition cursor_in (s : Proc W) : option string := cursor_of addressId scan (db s).

(** How many signatures a page has room for. *)
Definition room : Z := Z.min pageSize 1000.

(** A signature is older than what the cursor is at. *)
Definition passed_by (lost : string) (s : Proc W) : Prop :=
  exists c newer older, cursor_in s = Some (si_signature c) /\ history (world s) = newer ++ c :: older /\
    lost ∈ (si_signature <$> older).

(** A signature that a page, whenever it is asked for, has no room for. *)
Definition beyond (lost : string) (s : Proc W) : Prop :=
  forall w, grows (world s) w ->
    exists rest, history w = take (Z.to_nat room) (before_signature (cursor_in s) (history w)) ++ rest /\
      lost ∈ (si_signature <$> rest).

Lemma once_apart w xs ys x : history w = xs ++ ys -> x ∈ (si_signature <$> ys) -> x ∉ (si_signature <$> xs).
Proof using node.
  intros E Hy Hx. pose proof (ln_once node w) as Hnd. rewrite E, fmap_app in Hnd.
  apply NoDup_app in Hnd as (_ & Hnd & _). by apply (Hnd x).
Qed.

Lemma beyond_unread lost s w : beyond lost s -> grows (world s) w -> lost ∉ newest room (cursor_in s) w.
Proof using node. intros Hb Hw. destruct (Hb w Hw) as (rest & E & Hl). by eapply once_apart. Qed.

Lemma passed_beyond lost s : passed_by lost s -> beyond lost s.
Proof using node.
  intros (c & newer & older & Hc & Hh & Hl) w [more Hw]. rewrite Hh, app_assoc in Hw. exists (drop (Z.to_nat room) (more ++ newer) ++ c :: older).
  split.
  - rewrite Hc, Hw, (before_here (si_signature c)); [by rewrite app_assoc, take_drop|done|].
    eapply once_apart; [exact Hw|by left].
  - rewrite fmap_app. apply elem_of_app. right. by right.
Qed.

(** Fresh signatures that a page has no room for are still beyond it when more have come. *)
Lemma burst_beyond lost s :
  (forall c, cursor_in s = Some c -> c ∈ (si_signature <$> history (world s))) ->
  lost ∈ (si_signature <$> drop (Z.to_nat room) (before_signature (cursor_in s) (history (world s)))) -> beyond lost s.
Proof using node.
  intros Hc Hl w [more Hw]. assert (Hb : before_signature (cursor_in s) (history w) = more ++ before_signature (cursor_in s) (history (world s))).
  { rewrite Hw. apply before_app. intros c Hcur. eapply once_apart; [exact Hw|by apply Hc]. }
  destruct (before_prefix (cursor_in s) (history w)) as [ys Hys]. rewrite Hb in *.
  set (fresh := before_signature _ (history (world s))) in *.
  exists (drop (Z.to_nat room) (more ++ fresh) ++ ys). split; [by rewrite app_assoc, take_drop|].
  rewrite fmap_app. apply elem_of_app. left. apply list_elem_of_fmap in Hl as (x & -> & (i & Hi)%list_elem_of_lookup).
  apply list_elem_of_fmap_2, list_elem_of_lookup. rewrite lookup_drop in Hi. exists (length more + i)%nat.
  rewrite lookup_drop, lookup_app_r by lia. rewrite <- Hi. f_equal. lia.
Qed.

(** A page that is read from where the cursor is. *)
Definition fetched (s : Proc W) (page : TransferPage) : Prop :=
  exists request s1, fetchTransfers publicKey cluster commitment maxRetries request s = (Ok page, s1) /\
    fr_address request = scan /\ fr_cursor request = cursor_in s /\ fr_pageSize request = pageSize.

(** What goes on: the account is polled from its cursor, or anything else happens that leaves the
    cursor and puts only newer signatures before the others. *)
Inductive goes_on : Proc W -> Proc W -> Prop :=
| polled watched s :
    wa_addressId watched = addressId -> wa_cursor watched = cursor_in s ->
    goes_on s (pollAddress publicKey cluster commitment maxRetries assets chain pageSize watched scan scan s).2
| otherwise s s' : cursor_in s' = cursor_in s -> grows (world s) (world s') -> goes_on s s'.

Lemma poll_moves lost watched s :
  wa_addressId watched = addressId -> wa_cursor watched = cursor_in s -> beyond lost s ->
  let s' := (pollAddress publicKey cluster commitment maxRetries assets chain pageSize watched scan scan s).2 in
  cursor_in s' = cursor_in s \/ passed_by lost s'.
Proof using node around.
  intros Hid Hcur Hb s'. destruct (pollAddress _ _ _ _ _ _ _ watched scan scan s) as [r s2] eqn:E. simpl in s'. subst s'.
  destruct (poll_passes addressId scan around publicKey cluster commitment maxRetries assets chain pageSize watched scan s r s2 Hid E)
    as [Hsame|(request & page & s1 & Hf & -> & Hcase)]; [by left|].
  pose proof (poll_after_fetch watched scan scan s page s1 Hf) as Hbetween. rewrite E in Hbetween. simpl in Hbetween. rename s2 into s'.
  assert (Hmoved : forall c w, grows (world s) w -> grows w (world s') -> cursor_in s' = Some c -> c ∈ newest room (cursor_in s) w -> passed_by lost s').
  { intros c w Hw [more Hw'] Hc Hin. destruct (Hb w Hw) as (rest & Er & Hl). apply list_elem_of_fmap in Hin as (x & -> & Hx).
    apply list_elem_of_split in Hx as (l1 & l2 & El). exists x, (more ++ l1), (l2 ++ rest). split; [done|].
    rewrite Hw', Er, El, <- !app_assoc. split; [done|]. rewrite fmap_app. apply elem_of_app. by right. }
  destruct (fetchTransfers_page (request_of watched scan) s page s1 Hf eq_refl) as (w & Hw & Hw1 & Hrefs & Hnext). simpl in Hrefs, Hnext.
  rewrite Hcur in Hrefs, Hnext. assert (Hw' : grows w (world s')) by (by etrans). fold room in Hrefs, Hnext.
  destruct Hcase as [[_ Hc]|(processed & e & rest & Hp & Hc & _)]; fold (cursor_in s') in Hc.
  - destruct Hnext as [Hn|(c & Hn & Hin)]; [left; congruence|right]. apply (Hmoved c w); [done|done|congruence|done].
  - right. apply (Hmoved (te_txReference e) w); [done..|]. apply Hrefs. rewrite Hp. set_solver.
Qed.

Lemma passed_stays lost s s' : goes_on s s' -> passed_by lost s -> passed_by lost s'.
Proof using node around.
  intros Hgo Hp. assert (Hstay : forall s', cursor_in s' = cursor_in s -> grows (world s) (world s') -> passed_by lost s').
  { intros t Hc [more Hw]. destruct Hp as (c & newer & older & Hcur & Hh & Hl). exists c, (more ++ newer), older.
    rewrite Hc, Hw, Hh, app_assoc. done. }
  destruct Hgo as [watched s Hid Hcur|s s' Hc Hw]; [|by apply Hstay].
  destruct (poll_moves lost watched s Hid Hcur) as [Hsame|]; [by apply passed_beyond| |done].
  apply Hstay; [done|apply pollAddress_ages].
Qed.

Lemma beyond_unfetched lost s page e : beyond lost s -> fetched s page -> e ∈ pg_transfers page -> te_txReference e <> lost.
Proof using node.
  intros Hb (request & s1 & Hf & Hscan & Hcur & Hsize) He <-.
  destruct (fetchTransfers_page request s page s1 Hf Hscan) as (w & Hw & _ & Hrefs & _).
  apply (beyond_unread (te_txReference e) s w Hb Hw). rewrite Hcur, Hsize in Hrefs. by apply Hrefs.
Qed.

(** C22: A burst of deposits loses its oldest. Take a node that lists an account's signatures newest
    first and up to the cursor, each once, and only ever puts newer ones before them; a cursor
    that is at one of them, or at none yet; and others who leave the cursor, the addresses
    found and the rows of deposits alone. When more signatures have come since the cursor than
    a page holds, and a poll moves the cursor, those that the page had no room for are lost:
    neither its page has a transfer of theirs, nor the page of any later poll, however long
    polls and other acts go on; for the cursor is then, and stays, at a signature newer than
    they are. *)
Theorem burst_loses_oldest_deposit watched s lost :
  wa_addressId watched = addressId -> wa_cursor watched = cursor_in s ->
  (forall c, cursor_in s = Some c -> c ∈ (si_signature <$> history (world s))) ->
  lost ∈ (si_signature <$> drop (Z.to_nat room) (before_signature (cursor_in s) (history (world s)))) ->
  let s' := (pollAddress publicKey cluster commitment maxRetries assets chain pageSize watched scan scan s).2 in
  cursor_in s' <> cursor_in s ->
  (forall page e, fetched s page -> e ∈ pg_transfers page -> te_txReference e <> lost) /\
  forall later, rtc goes_on s' later ->
    passed_by lost later /\ forall page e, fetched later page -> e ∈ pg_transfers page -> te_txReference e <> lost.
Proof using node around.
  intros Hid Hcur Hknown Hlost s' Hmoved. assert (Hb := burst_beyond lost s Hknown Hlost).
  split; [intros page e; by apply beyond_unfetched|].
  assert (Hp : passed_by lost s') by (destruct (poll_moves lost watched s Hid Hcur Hb) as [Hsame|Hp]; [by destruct (Hmoved Hsame)|exact Hp]).
  intros later Hlater. clear Hmoved. clearbody s'. assert (Hpl : passed_by lost later).
  { revert Hp. induction Hlater as [|s1 s2 s3 Hgo _ IH]; [done|]. intros Hp. by apply IH, (passed_stays lost s1). }
  split; [done|]. intros page e. by apply beyond_unfetched, passed_beyond.
Qed.
End Bursts.
