(* ===== verification/DepositRuns.v ===== *)
(** * Deposits on a small chain

    A node that remembers its transactions, the deposit theorems applied to it, and two runs
    of the indexer on it. Of the code, nothing is modelled here. *)

From S2P Require Import Prelude Risk Assets Ledger Postings States Store Books Gateway System Custody Withdrawals Broadcaster.
From S2P Require Import Locks Escrow WithdrawalRuns Transfers Deposits Credits Cursors Bursts.
From Stdlib Require Import ZArith Lia.
From stdpp Require Import base list strings gmap relations pretty.

Open Scope string_scope.
Open Scope list_scope.
Open Scope Z_scope.

(** ** A small chain *)

(** The finalized transactions, newest first, with the accounts that list them; the rent of an
    account; and how many ids were made. *)
Record ToyNode := mkToyNode { tn_history : list (string * list string * ParsedTransaction); tn_rent : Z; tn_ids : nat }.

(** What the node lists for an account. *)
Definition toy_history (address : string) (w : ToyNode) : list SignatureInfo :=
  map (fun t => mkSignature t.1.1 false (Some s_finalized)) (filter (fun t => address ∈ t.1.2) (tn_history w)).

#[export] Instance toy_node : Node ToyNode := {|
  node_others w d := (d, w);
  getSignaturesForAddress address limit until _ w :=
    (Ok (take (Z.to_nat limit) (before_signature until (toy_history address w))), w);
  getParsedTransaction signature w :=
    (Ok (snd <$> head (filter (fun t => t.1.1 = signature) (tn_history w))), w);
  getMinimumBalanceForRentExemption w := (Ok (tn_rent w), w);
  newId w := ("deposit-" +:+ pretty (tn_ids w), mkToyNode (tn_history w) (tn_rent w) (S (tn_ids w)))
|}.

Definition usdc_mint : string := "EPjFWdd5AufqSSqeM2qN1xzybapC8G4wEGGkZwyTDt1v".

(** [lamports] from a stranger to [to]. *)
Definition sol_transfer (signature to : string) (lamports : Z) : string * list string * ParsedTransaction :=
  (signature, ["stranger"; to],
   mkParsed 7 ["stranger"; to] (Some (mkMeta false [5000; 0] [5000 - lamports; lamports] [] []))).

(** Tokens of a mint to [owner], in a transaction that creates the token account: the owner is
    among its accounts. *)
Definition token_arrival (signature owner tokenAccount mint : string) (amount : Z) : string * list string * ParsedTransaction :=
  (signature, ["stranger"; tokenAccount; owner; mint],
   mkParsed 6 ["stranger"; tokenAccount; owner; mint]
     (Some (mkMeta false [5000; 0; 0; 1] [4990; 10; 0; 1] []
              [mkTokenBalance 1 mint (Some owner) (Some TOKEN_PROGRAM_ID) amount 6]))).

(** ** A user with an address *)

Definition deposit_wallet : WalletRecord := mkWallet "w1" "alice" run_chain wallet_active.
Definition deposit_address : AddressRecord := mkAddress "a1" "w1" run_chain "addr" role_deposit true.

Definition deposit_tables : Custody :=
  mkCustody (empty_store demo_users) [deposit_wallet] [deposit_address] [] [] [] [] [] [].

Definition deposit_start (history : list (string * list string * ParsedTransaction)) : Proc ToyNode :=
  mkProc deposit_tables (mkToyNode history 10 0).

Definition deposit_cycle (pageSize : Z) : job ToyNode unit :=
  runOnce Some devnet c_finalized 0 run_assets run_chain pageSize 10 (fun owner mint => Ok (owner +:+ "/" +:+ mint))
    (fun _ => false).

Fixpoint deposit_cycles (pageSize : Z) (n : nat) (s : Proc ToyNode) : Proc ToyNode :=
  match n with O => s | S n => deposit_cycles pageSize n (deposit_cycle pageSize s).2 end.

Definition alice_sol (s : Proc ToyNode) : Z := credit_balance (userCustodyAvailable "alice" "devnet:SOL") (books (db s)).
Definition credited_transfers (s : Proc ToyNode) : list string := dp_txSignature <$> credited_rows (db s).

Definition three_arrivals : Proc ToyNode :=
  deposit_start [sol_transfer "t3" "addr" 100; sol_transfer "t2" "addr" 100; sol_transfer "t1" "addr" 100].

Definition junk_then_deposit : Proc ToyNode :=
  deposit_start [sol_transfer "t2" "addr" 100; token_arrival "t1" "addr" "junk-account" "junk-mint" 1].

(** ** Runs *)

Lemma cycles_fixed pageSize s n : (deposit_cycle pageSize s).2 = s -> deposit_cycles pageSize n s = s.
Proof. intros H. induction n as [|n IH]; [done|]. simpl. by rewrite H. Qed.

Lemma cycles_settle pageSize s n :
  (deposit_cycle pageSize (deposit_cycle pageSize s).2).2 = (deposit_cycle pageSize s).2 ->
  deposit_cycles pageSize (S n) s = (deposit_cycle pageSize s).2.
Proof. intros H. simpl. by apply cycles_fixed. Qed.

(** Three deposits between two polls, and a page that holds two signatures: however often the
    indexer polls again, the first is never credited. With a page of three, all are. *)
Example burst_of_three n :
  credited_transfers (deposit_cycles 2 (S n) three_arrivals) = ["t2"; "t3"] /\
  alice_sol (deposit_cycles 2 (S n) three_arrivals) = 190 /\
  credited_transfers (deposit_cycles 3 1 three_arrivals) = ["t1"; "t2"; "t3"] /\
  alice_sol (deposit_cycles 3 1 three_arrivals) = 290.
Proof.
  rewrite (cycles_settle 2 three_arrivals n) by (vm_compute; reflexivity). vm_compute. split_and!; reflexivity.
Qed.

(** A stranger's token blocks an address. One unit of a worthless token, sent to a deposit address in
    a transaction that creates its token account, is the first transfer of every page: the
    indexer asks for the rent of that token, which throws, and however often it polls, the
    deposits behind it are neither recorded nor credited and the cursor never exists.
    Without the token the deposit is credited at the first poll. *)
Theorem strange_token_blocks_address n :
  deposits (db (deposit_cycles 20 n junk_then_deposit)) = [] /\
  alice_sol (deposit_cycles 20 n junk_then_deposit) = 0 /\
  cursors (db (deposit_cycles 20 n junk_then_deposit)) = [] /\
  alice_sol (deposit_cycles 20 1 (deposit_start [sol_transfer "t2" "addr" 100])) = 90.
Proof.
  rewrite (cycles_fixed 20 junk_then_deposit n) by (vm_compute; reflexivity).
  vm_compute. split_and!; reflexivity.
Qed.

(** ** Witnesses *)

Lemma toy_alone (T : Custody -> Custody -> Prop) `{!PreOrder T} (w : ToyNode) d : T d (others w d).1.
Proof. reflexivity. Qed.

Lemma deposit_tables_right : accounted deposit_tables /\ holds ∅ deposit_tables.
Proof.
  split; (split; try by constructor).
  intros x Hx. by apply not_elem_of_empty in Hx.
Qed.

Lemma indexer_keeps_accounts_witness :
  credited_transfers (deposit_cycle 3 three_arrivals).2 = ["t1"; "t2"; "t3"] /\
  sound (books (db (deposit_cycle 3 three_arrivals).2)) /\ accounted (db (deposit_cycle 3 three_arrivals).2) /\
  holds ∅ (db (deposit_cycle 3 three_arrivals).2) /\
  forall d, d ∈ deposits (db three_arrivals) -> d ∈ deposits (db (deposit_cycle 3 three_arrivals).2).
Proof.
  split; [vm_compute; reflexivity|].
  exact (indexer_keeps_accounts Some devnet c_finalized 0 run_assets run_chain 3 10 (fun owner mint => Ok (owner +:+ "/" +:+ mint))
           (fun _ => false) three_arrivals (toy_alone beside) (empty_sound demo_users)
           (proj1 deposit_tables_right) (proj2 deposit_tables_right)).
Defined.

Definition a_transfer : TransferEvent :=
  mkTransfer run_chain "devnet:SOL" 100 "addr" None "t1" 1 7 conf_final [].

(** *** Another indexer *)

(** A node beside which another indexer works: while it has not, it credits [a_transfer] itself
    as soon as it can act. *)
#[local] Instance rival_node : Node (bool * ToyNode) := {|
  node_others (w : bool * ToyNode) d :=
    if w.1 then
      match atomically (credit_tx "rival" (deposit_input deposit_wallet deposit_address a_transfer 10)) d with
      | Ok (_, d) => (d, (false, w.2))
      | Throw _ => (d, w)
      end
    else (d, w);
  getSignaturesForAddress address limit until fin (w : bool * ToyNode) :=
    let (answer, t) := getSignaturesForAddress address limit until fin w.2 in (answer, (w.1, t));
  getParsedTransaction signature (w : bool * ToyNode) := let (answer, t) := getParsedTransaction signature w.2 in (answer, (w.1, t));
  getMinimumBalanceForRentExemption (w : bool * ToyNode) := let (answer, t) := getMinimumBalanceForRentExemption w.2 in (answer, (w.1, t));
  newId (w : bool * ToyNode) := let (id, t) := newId w.2 in (id, (w.1, t))
|}.

Definition drawn_ids (id : string) : Prop := exists n : nat, id = "deposit-" +:+ pretty n.

Lemma rival_spares (w : bool * ToyNode) d : spares a_transfer deposit_address deposit_wallet drawn_ids d (others w d).1.
Proof.
  unfold others. simpl. destruct w.1; [|reflexivity].
  destruct (atomically _ d) as [[r d']|] eqn:E; [|reflexivity]. pose proof (credit_tx_beside _ _ _ _ _ E) as (Hb & _ & _).
  apply atomically_Ok in E as ([(_ & -> & _)|(_ & b & _ & _ & ->)]%credit_tx_row & _ & _); [reflexivity|]. simpl in Hb. split.
  - intros _. apply recorded_add.
  - by apply owner_same.
  - intros id [n ->] Hid. simpl. rewrite fmap_app. intros [?|Hin]%elem_of_app; [done|]. apply list_elem_of_singleton in Hin. discriminate Hin.
  - simpl. intros Hs. induction Hb as [|x y z Hxy _ IH]; [done|]. by apply IH, (step_sound x).
Qed.

(** Whether the other indexer is at work or not: the transfer is credited by one of them. *)
Definition rival_start (busy : bool) : Proc (bool * ToyNode) := mkProc deposit_tables (busy, world three_arrivals).

Lemma transfer_credited_once_witness :
  (creditTransfer run_assets a_transfer 10 (rival_start true)).1 = Ok out_duplicate /\
  (creditTransfer run_assets a_transfer 10 (rival_start false)).1 = Ok (out_credited "deposit-0") /\
  forall busy, exists outcome s', creditTransfer run_assets a_transfer 10 (rival_start busy) = (Ok outcome, s') /\
    (exists d d', acts (W := bool * ToyNode) deposit_tables d /\
       credited_at run_assets a_transfer deposit_wallet 10 outcome d d' /\ acts (W := bool * ToyNode) d' (db s')) /\
    forall rent' s2, acts (W := bool * ToyNode) (db s') (db s2) ->
      exists s2', creditTransfer run_assets a_transfer rent' s2 = (Ok out_duplicate, s2') /\ acts (W := bool * ToyNode) (db s2) (db s2').
Proof.
  split; [vm_compute; reflexivity|]. split; [vm_compute; reflexivity|]. intros busy.
  refine (transfer_credited_once run_assets a_transfer deposit_address deposit_wallet drawn_ids rival_spares _ _ _ _ 10 (rival_start busy)
            eq_refl eq_refl _ _ (empty_sound demo_users) _).
  - intros w. by exists (tn_ids w.2).
  - reflexivity.
  - exists devnet. by exists "SOL".
  - reflexivity.
  - lia.
  - split; reflexivity.
  - intros id _. apply not_elem_of_nil.
Defined.

Definition watched_address : WatchedAddress := mkWatched "a1" "addr" run_chain "w1" None.

Definition one_poll : result unit * Proc ToyNode :=
  pollAddress Some devnet c_finalized 0 run_assets run_chain 3 watched_address "addr" "addr" three_arrivals.

Lemma cursor_passes_only_settled_witness :
  cursor_of "a1" "addr" (db one_poll.2) = Some "t3" /\
  (cursor_of "a1" "addr" (db one_poll.2) = cursor_of "a1" "addr" (db three_arrivals) \/
   exists request page s1, fetchTransfers Some devnet c_finalized 0 request three_arrivals = (Ok page, s1) /\
    request = mkFetch "addr" None None 3 /\
    ((pg_transfers page = [] /\ cursor_of "a1" "addr" (db one_poll.2) = pg_nextCursor page) \/
     exists processed e rest, pg_transfers page = processed ++ e :: rest /\
       cursor_of "a1" "addr" (db one_poll.2) = Some (te_txReference e) /\
       Forall (fun e => settled (W := ToyNode) (db three_arrivals) e (db one_poll.2)) (processed ++ [e]))).
Proof.
  split; [vm_compute; reflexivity|].
  exact (cursor_passes_only_settled "a1" "addr" (toy_alone (steady "a1" "addr")) Some devnet c_finalized 0 run_assets run_chain 3
           watched_address "addr" three_arrivals one_poll.1 one_poll.2 eq_refl (surjective_pairing _)).
Defined.

(** *** A burst *)

(** A node at which the three deposits have arrived, that counts the ids drawn. *)
#[local] Instance burst_node : Node nat := {|
  node_others (w : nat) d := (d, w);
  getSignaturesForAddress address limit until _ w :=
    (Ok (take (Z.to_nat limit) (before_signature until (toy_history address (world three_arrivals)))), w);
  getParsedTransaction signature w := ((getParsedTransaction signature (world three_arrivals)).1, w);
  getMinimumBalanceForRentExemption w := (Ok 10, w);
  newId w := ("deposit-" +:+ pretty w, S w)
|}.

Definition burst_history (w : nat) : list SignatureInfo := toy_history "addr" (world three_arrivals).

Lemma burst_lists : lists_newest (W := nat) Some c_finalized "addr" burst_history.
Proof.
  split; try (intros; by exists []).
  - by intros key limit until w l w' [= <-] [= <- <-].
  - intros w. apply (bool_decide_unpack _). vm_compute. exact I.
Qed.

Definition burst_start : Proc nat := mkProc deposit_tables 0%nat.

Lemma burst_loses_oldest_deposit_witness :
  let s' := (pollAddress Some devnet c_finalized 0 run_assets run_chain 2 watched_address "addr" "addr" burst_start).2 in
  cursor_in "a1" "addr" s' = Some "t3" /\
  forall later, rtc (goes_on Some devnet c_finalized 0 run_assets run_chain 2 "a1" "addr" burst_history) s' later ->
    forall page e, fetched Some devnet c_finalized 0 2 "a1" "addr" later page -> e ∈ pg_transfers page -> te_txReference e <> "t1".
Proof.
  intros s'. split; [vm_compute; reflexivity|]. intros later Hlater.
  refine (proj2 (proj2 (burst_loses_oldest_deposit Some devnet c_finalized 0 run_assets run_chain 2 "a1" "addr" (fun _ _ => reflexivity _)
           burst_history burst_lists watched_address burst_start "t1" eq_refl eq_refl _ _ _) later Hlater)).
  - intros c Hc. vm_compute in Hc. discriminate Hc.
  - vm_compute. left.
  - vm_compute. discriminate.
Defined.
