(* ===== verification/Reconciliation.v ===== *)
(** * Reconciliation: the books against the chain

    [apps/api/src/services/reconciliation.service.ts] and
    [clearing-reconciliation.service.ts], over the totals of
    [packages/db/src/repositories/ledger.repository.ts], with the balances the adapter of
    [packages/solana/src/adapter.ts] reads. The chain, the engine's depth of book and the
    ledger accounts that no entry has touched are parameters. Rows that the database
    sorts come in the order their accounts first appear; times and logging are left out. *)

From S2P Require Import Prelude Decimal Assets Price Orders Ledger Postings States Store Events Custody Withdrawals.
From S2P Require Import Broadcaster Transfers.
From Stdlib Require Import ZArith Lia.
From stdpp Require Import base list strings gmap.

Open Scope string_scope.
Open Scope list_scope.
Open Scope Z_scope.

(** ** [ledger.repository.ts] *)

Record AssetTotalsRow := mkAssetTotals {
  at_asset : string; at_userLiabilities : Z; at_chainAssets : Z; at_houseRent : Z; at_houseFees : Z
}.

Record SegregatedPositionRow := mkPosition {
  sp_ownerId : string; sp_asset : string; sp_chainAssets : Z; sp_liability : Z
}.

Record ClearingTotalsRow := mkClearingTotals {
  ct_asset : string; ct_tradingLiabilities : Z; ct_clearingAssets : Z; ct_houseTradingFees : Z
}.

Section Totals.
(** The ledger accounts without an entry: creating one is not modelled elsewhere. *)
Context (idle : list AccountRef).

Definition ledger_accounts (s : Store) : list AccountRef := remove_dups (map account (all_entries s) ++ idle).

(** [GROUP BY a.asset] over the accounts of one cluster. *)
Definition assets_of (test : AccountRef -> bool) (cluster : Cluster) (s : Store) : list string :=
  remove_dups (map acc_asset
    (filter (fun r => test r && assetKeyInCluster (acc_asset r) cluster = true) (ledger_accounts s))).

(** The joined entries of accounts of some types, by the asset of the account. *)
Definition of_types (tys : list AccountType) (a : string) (e : Entry) : bool :=
  bool_decide (acc_type (account e) ∈ tys) && bool_decide (acc_asset (account e) = a).

Definition debits_less_credits (test : Entry -> bool) (s : Store) : Z := net test (all_entries s).
Definition credits_less_debits (test : Entry -> bool) (s : Store) : Z := - net test (all_entries s).

Definition getAssetTotals (cluster : Cluster) : tx (list AssetTotalsRow) :=
  read (fun s => map (fun a => mkAssetTotals a
      (credits_less_debits (of_types [user_custody_available; user_custody_locked] a) s)
      (debits_less_credits (of_types [chain_assets] a) s)
      (credits_less_debits (of_types [house_rent] a) s)
      (credits_less_debits (of_types [house_fees] a) s))
    (assets_of (fun _ => true) cluster s)).

Definition getClearingTotals (cluster : Cluster) : tx (list ClearingTotalsRow) :=
  read (fun s => map (fun a => mkClearingTotals a
      (credits_less_debits (of_types [user_trading_available; user_order_locked; user_trading_locked] a) s)
      (debits_less_credits (of_types [clearing_assets] a) s)
      (credits_less_debits (of_types [house_trading_fees] a) s))
    (assets_of (fun r => bool_decide (acc_type r ∈ [user_trading_available; user_order_locked;
       user_trading_locked; clearing_assets; house_trading_fees])) cluster s)).

Definition of_owner (u : string) (e : Entry) : bool := bool_decide (ownerId (account e) = Some u).

(** [GROUP BY a.owner_id, a.asset .. HAVING], house accounts left out. *)
Definition getSegregatedPositions (cluster : Cluster) : tx (list SegregatedPositionRow) :=
  read (fun s =>
    let pairs := remove_dups (omap (fun r =>
      if assetKeyInCluster (acc_asset r) cluster then (fun u => (u, acc_asset r)) <$> ownerId r else None)
      (ledger_accounts s)) in
    filter (fun p => sp_chainAssets p <> 0 \/ sp_liability p <> 0)
      (map (fun ua => mkPosition ua.1 ua.2
         (debits_less_credits (fun e => of_owner ua.1 e && of_types [chain_assets] ua.2 e) s)
         (credits_less_debits (fun e => of_owner ua.1 e &&
            of_types [user_custody_available; user_custody_locked] ua.2 e) s)) pairs)).
End Totals.

(** ** [adapter.ts]: balances *)

(** The node's answers about balances: the lamports of an account, and for an owner and a mint
    the text of the amount of each token account, absent when it is not a string. *)
Class Balances (W : Type) := {
  balances_others :: Others W;
  rpcGetBalance : string -> W -> result Z * W;
  getParsedTokenAccountsByOwner : string -> string -> W -> result (list (option text)) * W
}.

Section AdapterBalance.
Context {W : Type} `{!Balances W} (isPublicKey : string -> bool) (cluster : Cluster) (maxRetries : nat).

(** The loop that adds up the token accounts. *)
Fixpoint add_accounts (total : Z) (accounts : list (option text)) : result Z :=
  match accounts with
  | [] => Ok total
  | Some amount :: accounts =>
      if unsigned_integer amount then add_accounts (total + digits_value amount) accounts
      else Throw (ChainError "unreadable token account")
  | None :: _ => Throw (ChainError "unreadable token account")
  end.

Definition adapter_getBalance (address asset : string) : job W Z :=
  parsed ← of_result (parseLedgerAssetKey asset);
  _ ← of_result (throw_if (negb (bool_decide (parsed.1 = cluster))) (ChainError "asset of another cluster"));
  owner ← of_result (toPublicKey isPublicKey address);
  if bool_decide (parsed.2 = NATIVE_ASSET_KEY)
  then call_result (rpc_call "getBalance" maxRetries (rpcGetBalance owner))
  else
    mint ← of_result (toPublicKey isPublicKey parsed.2);
    accounts ← call_result (rpc_call "getParsedTokenAccountsByOwner" maxRetries
                              (getParsedTokenAccountsByOwner owner mint));
    of_result (add_accounts 0 accounts).
End AdapterBalance.

(** ** [clearing-reconciliation.service.ts] *)

Inductive CheckStatus := clean | drift | inconclusive.

#[export] Instance CheckStatus_eq_dec : EqDecision CheckStatus.
Proof. solve_decision. Defined.

Inductive ClearingCheck := check_reserve | check_equation | check_book | check_order_locks.

#[export] Instance ClearingCheck_eq_dec : EqDecision ClearingCheck.
Proof. solve_decision. Defined.

Definition check_name (c : ClearingCheck) : string :=
  match c with
  | check_reserve => "reserve" | check_equation => "equation"
  | check_book => "book" | check_order_locks => "order_locks"
  end.

(** The numbers of a finding, by name; [None] is what could not be read. *)
Record ClearingFinding := mkFinding {
  cf_check : ClearingCheck; cf_subject : string; cf_status : CheckStatus; cf_detail : list (string * option Z)
}.

Record ClearingReport := mkClearingReport {
  cr_findings : list ClearingFinding; cr_negativeTradingAccounts : Z
}.

Record EngineDepth := mkDepth { dp_seq : Z; dp_bids : list (Z * Z); dp_asks : list (Z * Z) }.

(** What the service uses of a market's entry. *)
Record BookMarket := mkBookMarket { bm_symbol : string; bm_id : string }.

Section ClearingReconciliation.
Context {W : Type} `{!Others W} (idle : list AccountRef).
(** [reader.getBalance] and [engine.depth] *)
Context (getBalance : string -> string -> job W Z) (depth : string -> W -> option EngineDepth * W).
Context (cluster : Cluster) (clearingAddress nativeAsset : string) (reserve : Z).
Context (markets : list BookMarket) (consumer : string).

(** A balance, or [null] when it could not be read. *)
Definition try_balance (address asset : string) : job W (option Z) :=
  catch (n ← getBalance address asset; mret (Some n)) (fun _ => mret None).

Definition equation_finding (row : ClearingTotalsRow) : ClearingFinding :=
  let slack := ct_clearingAssets row - ct_tradingLiabilities row in
  mkFinding check_equation (ct_asset row)
    (if slack =? ct_houseTradingFees row then clean else drift)
    [("clearingAssets", Some (ct_clearingAssets row)); ("tradingLiabilities", Some (ct_tradingLiabilities row));
     ("houseTradingFees", Some (ct_houseTradingFees row)); ("unexplained", Some (slack - ct_houseTradingFees row))].

Definition reserve_finding (row : ClearingTotalsRow) (observed : option Z) : ClearingFinding :=
  let expected := if bool_decide (ct_asset row = nativeAsset) then reserve else 0 in
  let residual := (fun n => n - ct_clearingAssets row) <$> observed in
  mkFinding check_reserve (ct_asset row)
    (match residual with None => inconclusive | Some r => if r =? expected then clean else drift end)
    [("ledgerClearingAssets", Some (ct_clearingAssets row)); ("observed", observed);
     ("expectedResidual", Some expected); ("residual", residual)].

Fixpoint check_rows (totals : list ClearingTotalsRow) : job W (list ClearingFinding) :=
  match totals with
  | [] => mret []
  | row :: totals =>
      observed ← try_balance clearingAddress (ct_asset row);
      rest ← check_rows totals;
      mret (equation_finding row :: reserve_finding row observed :: rest)
  end.

Definition reserveAndEquation : job W (list ClearingFinding) :=
  totals ← commit (on_books (getClearingTotals idle cluster));
  check_rows totals.

(** [new Map(..)] over the levels of both sides, keyed by side and price. *)
Definition engine_levels (d : EngineDepth) : list ((Side * option Z) * Z) :=
  fold_left (fun m l => jset (sell, Some l.1) l.2 m) (dp_asks d)
    (fold_left (fun m l => jset (buy, Some l.1) l.2 m) (dp_bids d) []).

Definition database_levels (held : list HeldLevel) : list ((Side * option Z) * Z) :=
  fold_left (fun m l => jset (l_side l, l_price l) (l_qty l) m) held [].

Definition levels_in {V} (test : option V -> V -> bool) (ours theirs : list ((Side * option Z) * V)) : Z :=
  Z.of_nat (length (filter (fun l => test (jget l.1 ours) l.2 = true) theirs)).

Definition absent {V} (o : option V) (_ : V) : bool := match o with None => true | Some _ => false end.
Definition differs (o : option Z) (qty : Z) : bool := match o with None => false | Some n => negb (n =? qty) end.

Definition compare_book (subject : string) (d : EngineDepth) (held : list HeldLevel) : ClearingFinding :=
  let engine := engine_levels d in
  let database := database_levels held in
  let engineOnly := levels_in absent database engine in
  let differing := levels_in differs database engine in
  let databaseOnly := levels_in absent engine database in
  mkFinding check_book subject
    (if engineOnly + databaseOnly + differing =? 0 then clean else drift)
    [("seq", Some (dp_seq d)); ("levelsOnlyInEngine", Some engineOnly);
     ("levelsOnlyInDatabase", Some databaseOnly); ("levelsDiffering", Some differing)].

(** [book] *)
Definition book (entry : BookMarket) : job W ClearingFinding :=
  d ← call (depth (bm_id entry));
  offset ← commit (on_books (getOffset consumer (bm_id entry)));
  let unlike := mret (mkFinding check_book (bm_symbol entry) inconclusive
                  [("bookSeq", dp_seq <$> d); ("settledSeq", Store.seq <$> offset)]) in
  match d, offset with
  | Some d, Some offset =>
      if negb (Store.seq offset =? dp_seq d) then unlike else
      held ← commit (on_books (heldLevels (bm_id entry)));
      mret (compare_book (bm_symbol entry) d held)
  | _, _ => unlike
  end.

Fixpoint books_of (entries : list BookMarket) : job W (list ClearingFinding) :=
  match entries with
  | [] => mret []
  | entry :: entries => finding ← book entry; rest ← books_of entries; mret (finding :: rest)
  end.

Definition clearing_run : job W ClearingReport :=
  findings ← reserveAndEquation;
  books ← books_of markets;
  mismatches ← commit (on_books (orderLockMismatches cluster));
  negative ← commit (on_books (negativeTradingAccounts cluster));
  mret (mkClearingReport
    (findings ++ books ++
     [mkFinding check_order_locks (cluster_name cluster) (if mismatches =? 0 then clean else drift)
        [("mismatchedAccounts", Some mismatches)]])
    negative).
End ClearingReconciliation.

(** ** [reconciliation.service.ts] *)

(** The texts of [explain], with their numbers. *)
Inductive Explanation :=
| lower_bound (unread total : Z)
| books_match
| surplus (residual : Z)
| shortfall_in_flight (short withdrawalsInFlight : Z)
| shortfall_unexplained (short : Z).

Definition explain (residual checked total withdrawalsInFlight : Z) : Explanation :=
  if checked <? total then lower_bound (total - checked) total else
  if residual =? 0 then books_match else
  if residual >? 0 then surplus residual else
  if withdrawalsInFlight >? 0 then shortfall_in_flight (- residual) withdrawalsInFlight
  else shortfall_unexplained (- residual).

Record AssetReconciliation := mkAssetReport {
  ar_asset : string; ar_userLiabilities : Z; ar_ledgerChainAssets : Z; ar_observedChainAssets : Z;
  ar_houseRent : Z; ar_houseFees : Z; ar_residual : Z; ar_addressesChecked : Z;
  ar_explanation : Explanation; ar_unexplainedShortfall : bool
}.

Record UserReconciliation := mkUserReport {
  ur_userId : string; ur_asset : string; ur_observed : Z; ur_ledger : Z; ur_liability : Z;
  ur_residual : Z; ur_diverged : bool; ur_addressesChecked : Z
}.

Record ReconciliationReport := mkReport {
  rr_assets : list AssetReconciliation; rr_healthy : bool; rr_addressesConsidered : Z;
  rr_users : list UserReconciliation; rr_divergedUsers : Z; rr_withdrawalsInFlight : Z;
  rr_clearing : option ClearingReport
}.

(** [all.findIndex((e) => e.address === address)] *)
Definition findIndex (address : string) (all : list string) : option nat :=
  fst <$> list_find (fun a => a = address) all.

(** [all.filter((entry, index) => findIndex(..) === index)] *)
Definition distinct_addresses (all : list string) : list string :=
  omap (fun ia => if bool_decide (findIndex ia.2 all = Some ia.1) then Some ia.2 else None) (imap pair all).

(** [addressesByOwner] *)
Definition by_owner (rows : list (string * string)) : list (string * list string) :=
  fold_left (fun m r => jset r.2 (default [] (jget r.2 m) ++ [r.1]) m) rows [].

(** Which rows of the tables the addresses come from. *)
Definition active_addresses (chain : string) (s : Custody) : list AddressRecord :=
  filter (fun a => ad_chain a = chain /\ ad_active a = true) (addresses s).

Definition in_flight (s : Custody) : Z :=
  Z.of_nat (length (filter (fun w => wd_status w ∈ Withdrawal.IN_FLIGHT_WITHDRAWAL_STATUSES) (withdrawals s))).

(** The user of an address's wallet. *)
Definition address_owner (s : Custody) (a : AddressRecord) : option string :=
  wl_user <$> head (filter (fun w => wl_id w = ad_wallet a) (wallets s)).

(** The active addresses of the given users, each with its user. *)
Definition owned_addresses (chain : string) (owners : list string) (s : Custody) : list (string * string) :=
  omap (fun a => match address_owner s a with
                 | Some u => if bool_decide (u ∈ owners) then Some (ad_address a, u) else None
                 | None => None
                 end) (active_addresses chain s).

Section Reconciliation.
Context {W : Type} `{!Others W} (idle : list AccountRef).
Context (getBalance : string -> string -> job W Z).
Context (cluster : Cluster) (chain : string) (platformAddresses : list string).

(** The loop over the addresses: what they hold, and how many could be read. *)
Fixpoint observe (asset : string) (addresses : list string) (observed checked : Z) : job W (Z * Z) :=
  match addresses with
  | [] => mret (observed, checked)
  | address :: addresses =>
      balance ← try_balance getBalance address asset;
      match balance with
      | Some n => observe asset addresses (observed + n) (checked + 1)
      | None => observe asset addresses observed checked
      end
  end.

Definition asset_report (considered withdrawalsInFlight : Z) (row : AssetTotalsRow) (observed checked : Z)
  : AssetReconciliation :=
  let residual := observed - at_chainAssets row in
  mkAssetReport (at_asset row) (at_userLiabilities row) (at_chainAssets row) observed (at_houseRent row)
    (at_houseFees row) residual checked (explain residual checked considered withdrawalsInFlight)
    ((residual <? 0) && (withdrawalsInFlight =? 0)).

Fixpoint reconcile_assets (addresses : list string) (withdrawalsInFlight : Z) (totals : list AssetTotalsRow)
  : job W (list AssetReconciliation) :=
  match totals with
  | [] => mret []
  | row :: totals =>
      seen ← observe (at_asset row) addresses 0 0;
      rest ← reconcile_assets addresses withdrawalsInFlight totals;
      mret (asset_report (Z.of_nat (length addresses)) withdrawalsInFlight row seen.1 seen.2 :: rest)
  end.

(** [readBalance]: one read per address and asset, kept in the map [balances]. *)
Definition Cache : Type := list (string * option Z).

Definition cache_key (address asset : string) : string := address +:+ String SEPARATOR asset.

Definition readBalance (address asset : string) (balances : Cache) : job W (option Z * Cache) :=
  match jget (cache_key address asset) balances with
  | Some value => mret (value, balances)
  | None =>
      value ← try_balance getBalance address asset;
      mret (value, jset (cache_key address asset) value balances)
  end.

Fixpoint observe_own (asset : string) (owned : list string) (observed checked : Z) (balances : Cache)
  : job W (Z * Z * Cache) :=
  match owned with
  | [] => mret (observed, checked, balances)
  | address :: owned =>
      read ← readBalance address asset balances;
      match read.1 with
      | Some balance => observe_own asset owned (observed + balance) (checked + 1) read.2
      | None => observe_own asset owned observed checked read.2
      end
  end.

Definition user_report (position : SegregatedPositionRow) (owned : list string) (observed checked : Z)
  : UserReconciliation :=
  let residual := observed - sp_chainAssets position in
  mkUserReport (sp_ownerId position) (sp_asset position) observed (sp_chainAssets position)
    (sp_liability position) residual
    (negb (residual =? 0) && (0 <? Z.of_nat (length owned)) && (checked =? Z.of_nat (length owned))) checked.

Fixpoint reconcile_users (addressesByOwner : list (string * list string)) (balances : Cache)
  (positions : list SegregatedPositionRow) : job W (list UserReconciliation) :=
  match positions with
  | [] => mret []
  | position :: positions =>
      let owned := default [] (jget (sp_ownerId position) addressesByOwner) in
      seen ← observe_own (sp_asset position) owned 0 0 balances;
      rest ← reconcile_users addressesByOwner seen.2 positions;
      mret (user_report position owned seen.1.1 seen.1.2 :: rest)
  end.

(** [assets.every(..)] *)
Definition books_match_chain (considered : Z) (assets : list AssetReconciliation) : bool :=
  forallb (fun a => (ar_residual a =? 0) && (ar_addressesChecked a =? considered)) assets.

(** [run] *)
Definition run : job W ReconciliationReport :=
  totals ← commit (on_books (getAssetTotals idle cluster));
  depositAddresses ← commit (query (fun s => map ad_address (active_addresses chain s)));
  nonceAccounts ← commit (query (fun s => map na_address
                    (filter (fun n => na_chain n = chain /\ na_status n <> retired) (nonces s))));
  let addresses := distinct_addresses (depositAddresses ++ nonceAccounts ++ platformAddresses) in
  withdrawalsInFlight ← commit (query in_flight);
  assets ← reconcile_assets addresses withdrawalsInFlight totals;
  positions ← commit (on_books (getSegregatedPositions idle cluster));
  owned ← commit (query (owned_addresses chain (remove_dups (map sp_ownerId positions))));
  users ← reconcile_users (by_owner owned) [] positions;
  let divergedUsers := Z.of_nat (length (filter (fun u => ur_diverged u = true) users)) in
  mret (mkReport assets
    (books_match_chain (Z.of_nat (length addresses)) assets && (divergedUsers =? 0))
    (Z.of_nat (length addresses)) users divergedUsers withdrawalsInFlight None).
End Reconciliation.

(** ** [server.ts]: one report for all the clusters *)

Definition combine_reports (first : ReconciliationReport) (others : list ReconciliationReport)
  (clearing : option ClearingReport) : ReconciliationReport :=
  mkReport (mjoin (M:=list) (map rr_assets (first :: others)))
    (forallb rr_healthy (first :: others))
    (rr_addressesConsidered first) (rr_users first) (rr_divergedUsers first) (rr_withdrawalsInFlight first)
    clearing.

Section Scheduled.
Context {W : Type} `{!Others W}.

Fixpoint all_reports (runs : list (job W ReconciliationReport)) : job W (list ReconciliationReport) :=
  match runs with
  | [] => mret []
  | run :: runs => report ← run; rest ← all_reports runs; mret (report :: rest)
  end.

(** [run] of the worker: the clusters, the first of them in front, then the clearing tier. *)
Definition scheduled_run (first : job W ReconciliationReport) (others : list (job W ReconciliationReport))
  (clearing : option (job W ClearingReport)) : job W ReconciliationReport :=
  report ← first;
  rest ← all_reports others;
  match clearing with
  | None => mret (combine_reports report rest None)
  | Some clearing => found ← clearing; mret (combine_reports report rest (Some found))
  end.
End Scheduled.
