(* ===== verification/Reports.v ===== *)
(** * Reports: what reconciliation says, and what it means

    Proofs about [Reconciliation]: the report of a run against a chain that stands still,
    what a healthy one guarantees, what the checks of the clearing tier find on sound
    books, and an alarm that one unreadable address raises. No code is modelled here. *)

From S2P Require Import Prelude Decimal Assets Ledger Postings States Store Books System Custody Withdrawals Locks Escrow.
From S2P Require Import Reconciliation.
From Stdlib Require Import ZArith Lia.
From stdpp Require Import base list strings gmap.

Open Scope string_scope.
Open Scope list_scope.
Open Scope Z_scope.

(** ** Jobs that return *)

Section Returns.
Context {W : Type} `{!Others W}.
(** What holds of the tables throughout, whatever the others do. *)
Context (P : Custody -> Prop) (around : forall w d, P d -> P (others w d).1).

(** The job does not throw, keeps [P], and its value satisfies [Q]. *)
Definition returns {A} (m : job W A) (Q : A -> Prop) : Prop :=
  forall s, P (db s) -> exists a s', m s = (Ok a, s') /\ P (db s') /\ Q a.

Lemma returns_ret {A} (a : A) (Q : A -> Prop) : Q a -> returns (mret a) Q.
Proof using. intros HQ s Hs. by exists a, s. Qed.

Lemma returns_bind {A B} (m : job W A) (k : A -> job W B) (R : A -> Prop) (Q : B -> Prop) :
  returns m R -> (forall a, R a -> returns (k a) Q) -> returns (m ≫= k) Q.
Proof using.
  intros Hm Hk s Hs. destruct (Hm s Hs) as (a & s1 & E & Hs1 & Ha).
  destruct (Hk a Ha s1 Hs1) as (b & s2 & E2 & ? & ?). exists b, s2. split; [|done].
  unfold mbind, job_bind. by rewrite E.
Qed.

(** Reading the tables. *)
Lemma returns_commit {A} (m : ctx A) (f : Custody -> A) (Q : A -> Prop) :
  (forall d, m d = Ok (f d, d)) -> (forall d, P d -> Q (f d)) -> returns (commit m) Q.
Proof using around.
  intros Hm HQ s Hs. unfold commit. rewrite (atomically_same m (db s) (f (db s)) (db s)) by done.
  eexists _, _. split; [done|]. split; [|by apply HQ]. unfold yield. simpl.
  pose proof (around (world s) (db s) Hs) as Ho. by destruct (others (world s) (db s)).
Qed.

Lemma on_books_read {A} (f : Store -> A) d : on_books (read f) d = Ok (f (books d), d).
Proof using. unfold on_books, read. by destruct d. Qed.

Lemma returns_read {A} (f : Store -> A) (Q : A -> Prop) :
  (forall d, P d -> Q (f (books d))) -> returns (commit (on_books (read f))) Q.
Proof using around. intros HQ. apply (returns_commit _ (fun d => f (books d))); [|done]. intros d. apply on_books_read. Qed.

Lemma returns_query {A} (f : Custody -> A) (Q : A -> Prop) :
  (forall d, P d -> Q (f d)) -> returns (commit (query f)) Q.
Proof using around. intros HQ. by apply (returns_commit _ f). Qed.

Lemma returns_call {A} (f : W -> A * W) : returns (call f) (fun _ => True).
Proof using around.
  intros s Hs. unfold call, yield. destruct (f (world s)) as [a w]. eexists _, _. split; [done|]. split; [|done].
  simpl. pose proof (around w (db s) Hs) as Ho. by destruct (others w (db s)).
Qed.

(** The reading of a balance, when the reader keeps [P]. *)
Lemma returns_try_balance (getBalance : string -> string -> job W Z) a x (Q : option Z -> Prop) :
  (forall s, P (db s) -> P (db (getBalance a x s).2) /\
     Q (match (getBalance a x s).1 with Ok n => Some n | Throw _ => None end)) ->
  returns (try_balance getBalance a x) Q.
Proof using.
  intros Hr s Hs. destruct (Hr s Hs) as [Hp HQ]. unfold try_balance, catch, mbind, job_bind.
  destruct (getBalance a x s) as [[n|e] s']; simpl in *; by eexists _, _.
Qed.
End Returns.

(** ** The clearing tier *)

Lemma of_types_net tys a es :
  Forall entry_wf es -> net (of_types tys a) es = net (on_types tys a) es.
Proof.
  intros Hwf. apply sum_if_ext. intros e He. rewrite Forall_forall in Hwf.
  unfold of_types, on_types. by destruct (Hwf e He) as [_ ->].
Qed.

Lemma net_types_one ty a es : net (on_types [ty] a) es = net (on_type ty a) es.
Proof. rewrite net_types_cons by set_solver. rewrite net_types_nil. lia. Qed.

Lemma net_types_two t1 t2 a es :
  t1 <> t2 -> net (on_types [t1; t2] a) es = net (on_type t1 a) es + net (on_type t2 a) es.
Proof. intros. rewrite net_types_cons by set_solver. by rewrite net_types_one. Qed.

Lemma sound_entries s : sound s -> Forall entry_wf (all_entries s) /\ tiers_agree (all_entries s).
Proof. intros [_ [ps ->]]. split; [apply history_wf|apply history_tiers]. Qed.

Lemma equation_clean idle cluster row s :
  sound s -> row ∈ map (fun a => mkClearingTotals a
      (credits_less_debits (of_types [user_trading_available; user_order_locked; user_trading_locked] a) s)
      (debits_less_credits (of_types [clearing_assets] a) s)
      (credits_less_debits (of_types [house_trading_fees] a) s))
    (assets_of idle (fun r => bool_decide (acc_type r ∈ [user_trading_available; user_order_locked;
       user_trading_locked; clearing_assets; house_trading_fees])) cluster s) ->
  cf_status (equation_finding row) = clean.
Proof.
  intros [Hwf (_ & Hc & _)]%sound_entries (a & -> & _)%list_elem_of_fmap. unfold equation_finding. simpl.
  unfold credits_less_debits, debits_less_credits. rewrite !of_types_net by done.
  rewrite (net_types_cons user_trading_available), net_types_two, !net_types_one by (done || set_solver).
  specialize (Hc a). unfold Postings.held, Postings.owed in Hc. case_match eqn:E; [done|]. zbool.
  lia.
Qed.

Definition internal_checks_clean (f : ClearingFinding) : Prop :=
  cf_check f ∈ [check_equation; check_order_locks] -> cf_status f = clean.

Lemma external_clean f : cf_check f = check_book \/ cf_check f = check_reserve -> internal_checks_clean f.
Proof. intros [E|E]; unfold internal_checks_clean; rewrite E; set_solver. Qed.

Section Clearing.
Context {W : Type} `{!Others W} (idle : list AccountRef).
Context (getBalance : string -> string -> job W Z) (depth : string -> W -> option EngineDepth * W).
Context (cluster : Cluster) (clearingAddress nativeAsset : string) (reserve : Z).
Context (markets : list BookMarket) (consumer : string).
(** Neither the others nor the reader spoil the books. *)
Context (around : forall w d, sound (books d) -> sound (books (others w d).1)).
Context (reader : forall a x s, sound (books (db s)) -> sound (books (db (getBalance a x s).2))).

Abbreviation P := (fun d : Custody => sound (books d)).

Lemma check_rows_clean rows :
  Forall (fun row => cf_status (equation_finding row) = clean) rows ->
  returns P (check_rows getBalance clearingAddress nativeAsset reserve rows) (Forall internal_checks_clean).
Proof using around reader.
  induction 1 as [|row rows Hrow _ IH]; cbn [check_rows]; [by apply returns_ret|].
  eapply returns_bind; [apply (returns_try_balance P _ _ _ (fun _ => True)); intros s Hs; split; [by apply reader|done]|].
  intros observed _. eapply returns_bind; [exact IH|]. intros rest Hrest. apply returns_ret.
  constructor; [by intros _|]. constructor; [|done]. apply external_clean. by right.
Qed.

Lemma book_clean entry : returns P (book depth consumer entry) internal_checks_clean.
Proof using around.
  assert (Hb : forall n st d, internal_checks_clean (mkFinding check_book n st d)).
  { intros. apply external_clean. by left. }
  unfold book. eapply returns_bind; [by apply returns_call|]. intros d _.
  eapply returns_bind; [by apply (returns_read P around _ (fun _ => True))|]. intros offset _.
  destruct d as [d|], offset as [offset|]; try (apply returns_ret; apply Hb).
  case_match; [apply returns_ret; apply Hb|].
  eapply returns_bind; [by apply (returns_read P around _ (fun _ => True))|]. intros held _. apply returns_ret. apply Hb.
Qed.

Lemma books_of_clean entries : returns P (books_of depth consumer entries) (Forall internal_checks_clean).
Proof using around.
  induction entries as [|entry entries IH]; cbn [books_of]; [by apply returns_ret|].
  eapply returns_bind; [apply book_clean|]. intros f Hf. eapply returns_bind; [exact IH|]. intros fs Hfs.
  apply returns_ret. by constructor.
Qed.

(** The internal checks of the clearing tier never cry wolf. On sound books, beside
    actors that keep them sound and whatever the chain and the engines answer, the run
    returns a report, in which the equation holds of every asset, the locks match the orders
    and no trading account is negative. *)
Theorem clearing_report_clean s :
  sound (books (db s)) ->
  exists report s', clearing_run idle getBalance depth cluster clearingAddress nativeAsset reserve markets consumer s =
      (Ok report, s') /\
    sound (books (db s')) /\ cr_negativeTradingAccounts report = 0 /\
    forall f, f ∈ cr_findings report -> cf_check f ∈ [check_equation; check_order_locks] -> cf_status f = clean.
Proof using around reader.
  revert s.
  enough (Hr : returns P (clearing_run idle getBalance depth cluster clearingAddress nativeAsset reserve markets consumer)
            (fun r => cr_negativeTradingAccounts r = 0 /\ Forall internal_checks_clean (cr_findings r))).
  { intros s Hs. destruct (Hr s Hs) as (r & s' & E & ? & ? & Hf). exists r, s'. rewrite Forall_forall in Hf.
    split; [done|]. split; [done|]. split; [done|]. intros f ?. by apply Hf. }
  unfold clearing_run, reserveAndEquation. eapply returns_bind.
  { eapply returns_bind; [|intros rows Hrows; by apply check_rows_clean].
    apply returns_read; [done|]. intros d Hd. apply Forall_forall. intros row Hrow. by eapply equation_clean. }
  intros findings Hfindings. eapply returns_bind; [apply books_of_clean|]. intros bs Hbs.
  eapply returns_bind; [apply (returns_read P around _ (fun n => n = 0))|].
  { intros d [Hb _]. destruct (reconciled _ cluster Hb) as [H _]. unfold orderLockMismatches, read in H. by injection H. }
  intros ? ->. eapply returns_bind; [apply (returns_read P around _ (fun n => n = 0))|].
  { intros d [Hb _]. destruct (reconciled _ cluster Hb) as [_ H]. unfold negativeTradingAccounts, read in H. by injection H. }
  intros ? ->. apply returns_ret. split; [done|]. simpl. rewrite !Forall_app. split; [done|]. split; [done|].
  constructor; [by intros _|constructor].
Qed.
End Clearing.

(** ** The run against a chain that stands still *)

Lemma findIndex_app_notin a xs ys : a ∉ xs -> findIndex a (xs ++ a :: ys) = Some (length xs).
Proof.
  intros Hni. unfold findIndex. rewrite list_find_app_r; simpl; [by rewrite decide_True by done; simpl; f_equal; lia|].
  apply list_find_None, Forall_forall. intros x Hx ->. done.
Qed.

Lemma findIndex_lookup a xs i : findIndex a xs = Some i -> xs !! i = Some a.
Proof. unfold findIndex. intros ([j x] & (H & -> & _)%list_find_Some & ->)%fmap_Some. done. Qed.

(** The first occurrence of each address is kept, and no other. *)
Lemma distinct_addresses_spec all :
  NoDup (distinct_addresses all) /\ forall a, a ∈ distinct_addresses all <-> a ∈ all.
Proof.
  unfold distinct_addresses. split.
  - set (f := fun ia : nat * string => if bool_decide (findIndex ia.2 all = Some ia.1) then Some ia.2 else None).
    assert (Hin : forall l n x, x ∈ omap f (imap (fun i a => ((n + i)%nat, a)) l) ->
              exists i, (n <= i)%nat /\ findIndex x all = Some i).
    { intros l n x (ia & Hia & Hf)%list_elem_of_omap. apply elem_of_lookup_imap in Hia as (i & a & -> & _).
      unfold f in Hf. simpl in Hf. case_bool_decide; [|done]. injection Hf as <-. exists (n + i)%nat. split; [lia|done]. }
    enough (H : forall l n, NoDup (omap f (imap (fun i a => ((n + i)%nat, a)) l))) by (apply (H all 0%nat)).
    intros l. induction l as [|a l IH]; intros n; simpl; [constructor|].
    assert (E : imap ((fun i a0 => ((n + i)%nat, a0)) ∘ S) l = imap (fun i a0 => ((S n + i)%nat, a0)) l).
    { apply imap_ext. intros i x _. simpl. f_equal. lia. }
    rewrite E. unfold f at 1. simpl. case_bool_decide as Hi; [|apply (IH (S n))]. apply NoDup_cons. split; [|apply (IH (S n))].
    intros (i & Hle & Hfi)%(Hin l (S n)). rewrite Nat.add_0_r in Hi. rewrite Hi in Hfi. injection Hfi. lia.
  - intros a. rewrite list_elem_of_omap. split.
    + intros (ia & Hia & Hf). case_bool_decide; [|done]. injection Hf as <-.
      apply elem_of_lookup_imap in Hia as (i & x & -> & Hx). by apply list_elem_of_lookup_2 in Hx.
    + intros (xs & ys & -> & Hni)%list_elem_of_split_l. exists (length xs, a). split.
      * apply elem_of_lookup_imap. exists (length xs), a. split; [done|]. by apply list_lookup_middle.
      * simpl. by rewrite bool_decide_eq_true_2 by by apply findIndex_app_notin.
Qed.

Lemma distinct_addresses_perm all : distinct_addresses all ≡ₚ remove_dups all.
Proof.
  destruct (distinct_addresses_spec all) as [Hnd Hin]. apply NoDup_Permutation; [done|apply NoDup_remove_dups|].
  intros a. by rewrite elem_of_remove_dups.
Qed.

(** [addressesByOwner] holds the addresses of each owner, in order. *)
Lemma by_owner_get rows u :
  default [] (jget u (by_owner rows)) = map fst (filter (fun r => r.2 = u) rows).
Proof.
  unfold by_owner.
  enough (H : forall m, default [] (jget u (fold_left (fun m r => jset r.2 (default [] (jget r.2 m) ++ [r.1]) m) rows m)) =
            default [] (jget u m) ++ map fst (filter (fun r : string * string => r.2 = u) rows)) by apply (H []).
  induction rows as [|[a v] rows IH]; intros m; simpl; [by rewrite app_nil_r|]. rewrite IH, filter_cons. simpl.
  case_decide as E; [subst v; rewrite jget_jset_eq; simpl; by rewrite <- app_assoc|]. by rewrite jget_jset_ne.
Qed.

(** The active addresses of a user. *)
Definition own_addresses (chain : string) (s : Custody) (u : string) : list string :=
  map ad_address (filter (fun a => address_owner s a = Some u) (active_addresses chain s)).

Lemma owned_addresses_of chain owners s u :
  u ∈ owners -> map fst (filter (fun r => r.2 = u) (owned_addresses chain owners s)) = own_addresses chain s u.
Proof.
  intros Hu. unfold owned_addresses, own_addresses. induction (active_addresses chain s) as [|a l IH]; [done|].
  rewrite filter_cons. simpl. destruct (address_owner s a) as [v|] eqn:E; [|by rewrite decide_False].
  destruct (decide (v = u)) as [->|Hne].
  - rewrite bool_decide_eq_true_2, decide_True by done. simpl. by rewrite filter_cons, decide_True, <- IH.
  - rewrite decide_False by congruence. case_bool_decide; [|done]. by rewrite filter_cons, decide_False.
Qed.

Lemma cache_key_inj a x a' x' :
  str_includes SEPARATOR a = false -> str_includes SEPARATOR a' = false ->
  cache_key a x = cache_key a' x' -> a = a' /\ x = x'.
Proof.
  unfold cache_key. intros Ha Ha' E. apply (f_equal (split_first SEPARATOR)) in E.
  rewrite !split_first_app in E by done. by injection E.
Qed.

Lemma net_owner_types ty u a es :
  Forall entry_wf es -> net (fun e => of_owner u e && of_types [ty] a e) es = net (on_account (mkAccount (Some u) a ty)) es.
Proof.
  intros Hwf. apply sum_if_ext. intros e _. split; [|done]. unfold of_owner, of_types, on_account.
  destruct (account e) as [o b t]. simpl. repeat case_bool_decide; simplify_eq/=; try done; by (set_unfold; naive_solver).
Qed.

Lemma net_owner_custody u a es :
  Forall entry_wf es -> net (fun e => of_owner u e && of_types [user_custody_available; user_custody_locked] a e) es =
  net (on_account (userCustodyAvailable u a)) es + net (on_account (userCustodyLocked u a)) es.
Proof.
  intros Hwf. unfold net. induction Hwf as [|e es _ _ IH]; simpl; [done|]. rewrite IH. unfold of_owner, of_types, on_account,
    userCustodyAvailable, userCustodyLocked.
  destruct (account e) as [o b t]. simpl. repeat (case_bool_decide; simpl); simplify_eq; try lia; set_unfold; naive_solver lia.
Qed.

(** What a user is owed in the vault. *)
Definition owed_to (u a : string) (s : Store) : Z :=
  credit_balance (userCustodyAvailable u a) s + credit_balance (userCustodyLocked u a) s.
Section Still.
Context {W : Type} `{!Others W} (idle : list AccountRef).
Context (getBalance : string -> string -> job W Z).
Context (cluster : Cluster) (chain : string) (platformAddresses : list string).
(** Nobody else moves the tables, and an address holds, or does not say, the same all along. *)
Context (reads : string -> string -> option Z).
Context (still : forall w d, (others w d).1 = d).
Context (steady : forall a x s, db (getBalance a x s).2 = db s /\
  match (getBalance a x s).1 with Ok n => Some n | Throw _ => None end = reads a x).

(** What the readable ones among some addresses hold. *)
Definition readings (asset : string) (addresses : list string) : list Z := omap (fun a => reads a asset) addresses.

Lemma readings_cons asset a l :
  readings asset (a :: l) = match reads a asset with Some n => n :: readings asset l | None => readings asset l end.
Proof using. unfold readings. simpl. by destruct (reads a asset). Qed.

Definition platform_addresses (s : Custody) : list string :=
  remove_dups (map ad_address (active_addresses chain s) ++
               map na_address (filter (fun n => na_chain n = chain /\ na_status n <> retired) (nonces s)) ++
               platformAddresses).

Definition asset_totals (s : Store) : list AssetTotalsRow :=
  match getAssetTotals idle cluster s with Ok (rows, _) => rows | Throw _ => [] end.

Definition positions (s : Store) : list SegregatedPositionRow :=
  match getSegregatedPositions idle cluster s with Ok (rows, _) => rows | Throw _ => [] end.

Definition asset_report_of (s : Custody) (row : AssetTotalsRow) : AssetReconciliation :=
  let seen := readings (at_asset row) (platform_addresses s) in
  asset_report (Z.of_nat (length (platform_addresses s))) (in_flight s) row (zsum seen) (Z.of_nat (length seen)).

Definition user_report_of (s : Custody) (p : SegregatedPositionRow) : UserReconciliation :=
  let own := own_addresses chain s (sp_ownerId p) in
  let seen := readings (sp_asset p) own in
  user_report p own (zsum seen) (Z.of_nat (length seen)).

(** The report, without loops, caches or maps. *)
Definition report_of (s : Custody) : ReconciliationReport :=
  let considered := Z.of_nat (length (platform_addresses s)) in
  let assets := map (asset_report_of s) (asset_totals (books s)) in
  let users := map (user_report_of s) (positions (books s)) in
  let diverged := Z.of_nat (length (filter (fun u => ur_diverged u = true) users)) in
  mkReport assets (books_match_chain considered assets && (diverged =? 0)) considered users diverged (in_flight s) None.

Section On.
Context (d0 : Custody).
Abbreviation at_rest := (fun d : Custody => d = d0).

Lemma around_still w d : d = d0 -> (others w d).1 = d0.
Proof using still. intros ->. apply still. Qed.

Lemma returns_balance a x : returns at_rest (try_balance getBalance a x) (fun o => o = reads a x).
Proof using steady.
  apply (returns_try_balance at_rest). intros s Hs. destruct (steady a x s) as [-> Hr]. by split.
Qed.

Lemma observe_reads asset addrs o c :
  returns at_rest (observe getBalance asset addrs o c)
    (fun r => r = (o + zsum (readings asset addrs), c + Z.of_nat (length (readings asset addrs)))).
Proof using steady.
  revert o c. induction addrs as [|a addrs IH]; intros o c; cbn [observe].
  - apply returns_ret. simpl. rewrite zsum_nil. f_equal; lia.
  - eapply returns_bind; [apply returns_balance|]. intros b ->. rewrite readings_cons. destruct (reads a asset) as [n|].
    + intros s Hs. destruct (IH (o + n) (c + 1) s Hs) as (r & s' & E & ? & ->). eexists _, s'. split; [done|].
      split; [done|]. cbn [length]. rewrite zsum_cons. f_equal; lia.
    + apply IH.
Qed.

Lemma reconcile_assets_reads addrs n rows :
  returns at_rest (reconcile_assets getBalance addrs n rows)
    (fun r => r = map (fun row => asset_report (Z.of_nat (length addrs)) n row (zsum (readings (at_asset row) addrs))
                                    (Z.of_nat (length (readings (at_asset row) addrs)))) rows).
Proof using steady.
  induction rows as [|row rows IH]; cbn [reconcile_assets]; [by apply returns_ret|].
  eapply returns_bind; [apply observe_reads|]. intros seen ->. eapply returns_bind; [exact IH|]. intros rest ->.
  apply returns_ret. cbn [map fst snd]. by rewrite !Z.add_0_l.
Qed.

(** The cache holds what the chain says, under unambiguous keys. *)
Definition cache_ok (balances : Cache) : Prop :=
  forall k v, jget k balances = Some v ->
    exists a x, str_includes SEPARATOR a = false /\ k = cache_key a x /\ v = reads a x.

Lemma readBalance_reads a x balances :
  str_includes SEPARATOR a = false -> cache_ok balances ->
  returns at_rest (readBalance getBalance a x balances) (fun r => r.1 = reads a x /\ cache_ok r.2).
Proof using steady.
  intros Ha Hc. unfold readBalance. destruct (jget (cache_key a x) balances) as [v|] eqn:E.
  - apply returns_ret. split; [|done]. destruct (Hc _ _ E) as (a' & x' & Ha' & Hk & ->).
    by destruct (cache_key_inj _ _ _ _ Ha Ha' Hk) as [-> ->].
  - eapply returns_bind; [apply returns_balance|]. intros v ->. apply returns_ret. split; [done|].
    intros k v Hk. cbn [snd] in Hk. destruct (decide (cache_key a x = k)) as [<-|Hne].
    + rewrite jget_jset_eq in Hk. injection Hk as <-. by exists a, x.
    + rewrite jget_jset_ne in Hk by done. by apply Hc.
Qed.

Lemma observe_own_reads asset own o c balances :
  Forall (fun a => str_includes SEPARATOR a = false) own -> cache_ok balances ->
  returns at_rest (observe_own getBalance asset own o c balances)
    (fun r => r.1 = (o + zsum (readings asset own), c + Z.of_nat (length (readings asset own))) /\ cache_ok r.2).
Proof using steady.
  intros Ha. revert o c balances. induction Ha as [|a own Ha _ IH]; intros o c balances Hc; cbn [observe_own].
  - apply returns_ret. split; [|done]. simpl. rewrite zsum_nil. f_equal; lia.
  - eapply returns_bind; [by apply readBalance_reads|]. intros [v bs] [Hv Hbs]. cbn [fst snd] in Hv, Hbs |- *. rewrite Hv, readings_cons.
    destruct (reads a asset) as [n|]; [|by apply IH].
    intros s Hs. destruct (IH (o + n) (c + 1) bs Hbs s Hs) as (r & s' & E & ? & Er & ?). exists r, s'. split; [done|].
    split; [done|]. split; [|done]. rewrite Er. cbn [length]. rewrite zsum_cons. f_equal; lia.
Qed.

Lemma reconcile_users_reads owned balances ps :
  (forall p, p ∈ ps -> default [] (jget (sp_ownerId p) owned) = own_addresses chain d0 (sp_ownerId p)) ->
  (forall u, Forall (fun a => str_includes SEPARATOR a = false) (own_addresses chain d0 u)) -> cache_ok balances ->
  returns at_rest (reconcile_users getBalance owned balances ps) (fun r => r = map (user_report_of d0) ps).
Proof using steady.
  intros Hps Hown. revert balances. induction ps as [|p ps IH]; intros balances Hc; cbn [reconcile_users]; [by apply returns_ret|].
  rewrite (Hps p) by by left. eapply returns_bind; [by apply observe_own_reads|]. intros [[o c] bs] [[= -> ->] Hbs].
  eapply returns_bind; [apply IH; [|done]; intros q Hq; apply Hps; by right|]. intros rest ->. apply returns_ret.
  unfold user_report_of. cbn [map fst snd]. by rewrite !Z.add_0_l.
Qed.

Lemma readings_perm asset xs ys : xs ≡ₚ ys ->
  zsum (readings asset xs) = zsum (readings asset ys) /\ length (readings asset xs) = length (readings asset ys).
Proof using.
  intros H. assert (Hp : readings asset xs ≡ₚ readings asset ys) by (unfold readings; by rewrite H).
  split; [|by rewrite Hp]. induction Hp; rewrite ?zsum_cons; lia.
Qed.

Lemma own_addresses_plain u :
  Forall (fun a => str_includes SEPARATOR (ad_address a) = false) (addresses d0) ->
  Forall (fun a => str_includes SEPARATOR a = false) (own_addresses chain d0 u).
Proof using.
  intros H. apply Forall_forall. intros x (a & -> & Ha)%list_elem_of_fmap. rewrite Forall_forall in H. apply H.
  apply list_elem_of_filter in Ha as [_ Ha]. by apply list_elem_of_filter in Ha as [_ Ha].
Qed.

Lemma run_reports :
  Forall (fun a => str_includes SEPARATOR (ad_address a) = false) (addresses d0) ->
  returns at_rest (run idle getBalance cluster chain platformAddresses) (fun r => r = report_of d0).
Proof using still steady.
  intros Hplain. unfold run.
  eapply returns_bind; [apply (returns_read at_rest around_still _ (fun r => r = asset_totals (books d0))); by intros d ->|].
  intros totals ->. eapply returns_bind; [apply (returns_query at_rest around_still _ (fun r => r = map ad_address (active_addresses chain d0))); by intros d ->|].
  intros ? ->. eapply returns_bind; [apply (returns_query at_rest around_still _ (fun r => r = map na_address (filter (fun n => na_chain n = chain /\ na_status n <> retired) (nonces d0)))); by intros d ->|].
  intros ? ->. eapply returns_bind; [apply (returns_query at_rest around_still _ (fun r => r = in_flight d0)); by intros d ->|].
  intros ? ->. eapply returns_bind; [apply reconcile_assets_reads|]. intros assets ->.
  eapply returns_bind; [apply (returns_read at_rest around_still _ (fun r => r = positions (books d0))); by intros d ->|].
  intros ? ->. eapply returns_bind; [apply (returns_query at_rest around_still _ (fun r => r = owned_addresses chain (remove_dups (map sp_ownerId (positions (books d0)))) d0)); by intros d ->|].
  intros ? ->. eapply returns_bind; [apply reconcile_users_reads|].
  { intros p Hp. rewrite by_owner_get. apply owned_addresses_of. apply elem_of_remove_dups. by apply list_elem_of_fmap_2. }
  { intros u. by apply own_addresses_plain. }
  { by intros k v. }
  intros users ->. apply returns_ret. unfold report_of, asset_report_of.
  assert (Hp : distinct_addresses (map ad_address (active_addresses chain d0) ++
      map na_address (filter (fun n => na_chain n = chain /\ na_status n <> retired) (nonces d0)) ++ platformAddresses) ≡ₚ
    platform_addresses d0) by apply distinct_addresses_perm.
  rewrite (Permutation_length Hp). f_equal.
  - apply map_ext. intros row. by destruct (readings_perm (at_asset row) _ _ Hp) as [-> ->].
  - do 2 f_equal. apply map_ext. intros row. by destruct (readings_perm (at_asset row) _ _ Hp) as [-> ->].
Qed.
End On.

(** The reconciliation of the custody tier computes the report it describes: with every
    platform address counted once, whatever the lists repeat, each total the sum of what
    the readable addresses hold, each user compared with the user's own addresses, and one
    reading per address and asset standing for all. *)
Theorem run_exact s :
  Forall (fun a => str_includes SEPARATOR (ad_address a) = false) (addresses (db s)) ->
  exists s', run idle getBalance cluster chain platformAddresses s = (Ok (report_of (db s)), s') /\ db s' = db s.
Proof using still steady.
  intros Ha. destruct (run_reports (db s) Ha s eq_refl) as (r & s' & E & Hs & ->). by exists s'.
Qed.

(** *** What a healthy report guarantees *)

Lemma readings_all asset addrs :
  length (readings asset addrs) = length addrs -> forall a, a ∈ addrs -> is_Some (reads a asset).
Proof using.
  assert (Hle : forall l, (length (readings asset l) <= length l)%nat).
  { intros l. induction l as [|a l IH]; [done|]. rewrite readings_cons. destruct (reads a asset); simpl; lia. }
  induction addrs as [|b addrs IH]; intros H a Ha; [by apply not_elem_of_nil in Ha|].
  rewrite readings_cons in H. specialize (Hle addrs). apply elem_of_cons in Ha as [->|Ha].
  - destruct (reads b asset); [done|]. simpl in H. lia.
  - apply IH; [|done]. destruct (reads b asset); simpl in H; lia.
Qed.

Lemma readings_length asset addrs :
  (forall a, a ∈ addrs -> is_Some (reads a asset)) -> length (readings asset addrs) = length addrs.
Proof using.
  intros H. induction addrs as [|a addrs IH]; [done|]. rewrite readings_cons.
  destruct (H a ltac:(by left)) as [n ->]. simpl. rewrite IH; [done|]. intros b Hb. apply H. by right.
Qed.

Lemma own_in_platform s u a : a ∈ own_addresses chain s u -> a ∈ platform_addresses s.
Proof using.
  intros (x & -> & Hx)%list_elem_of_fmap. apply elem_of_remove_dups, elem_of_app. left. apply list_elem_of_fmap_2.
  by apply list_elem_of_filter in Hx as [_ ?].
Qed.

Lemma asset_totals_row a s :
  a ∈ assets_of idle (fun _ => true) cluster s -> exists row, row ∈ asset_totals s /\ at_asset row = a /\
    at_chainAssets row = debits_less_credits (of_types [chain_assets] a) s.
Proof using. intros Ha. unfold asset_totals. simpl. eexists. split; [by apply list_elem_of_fmap_2|]. done. Qed.

Lemma in_assets_of r s :
  r ∈ ledger_accounts idle s -> assetKeyInCluster (acc_asset r) cluster = true ->
  acc_asset r ∈ assets_of idle (fun _ => true) cluster s.
Proof using.
  intros Hr Hc. apply elem_of_remove_dups. apply list_elem_of_fmap_2. apply list_elem_of_filter. by rewrite Hc.
Qed.


(** The assets a report of the vault covers. *)
Abbreviation covered s := (assets_of idle (fun _ => true) cluster s).

Lemma healthy_asset s a :
  rr_healthy (report_of s) = true -> a ∈ covered (books s) ->
  (forall x, x ∈ platform_addresses s -> is_Some (reads x a)) /\
  zsum (readings a (platform_addresses s)) = debits_less_credits (of_types [chain_assets] a) (books s).
Proof using.
  intros [Hh _]%andb_true_iff (row & Hrow & <- & Hc)%asset_totals_row. rewrite <- Hc.
  unfold books_match_chain in Hh. rewrite forallb_forall in Hh.
  specialize (Hh (asset_report_of s row) ltac:(by apply list_elem_of_In, list_elem_of_fmap_2)).
  apply andb_true_iff in Hh as [Hr Hl]. apply Z.eqb_eq in Hr, Hl. simpl in Hr, Hl. split; [|lia].
  apply readings_all. lia.
Qed.

Lemma healthy_user s p :
  rr_healthy (report_of s) = true -> p ∈ positions (books s) -> ur_diverged (user_report_of s p) = false.
Proof using.
  intros [_ Hd]%andb_true_iff Hp. apply Z.eqb_eq in Hd. destruct (ur_diverged (user_report_of s p)) eqn:E; [|done].
  assert (Hin : user_report_of s p ∈ filter (fun u => ur_diverged u = true) (map (user_report_of s) (positions (books s)))).
  { apply list_elem_of_filter. split; [done|]. by apply list_elem_of_fmap_2. }
  destruct (filter _ _); [by apply not_elem_of_nil in Hin|]. simpl in Hd. lia.
Qed.

(** An account that owes or holds something has an entry. *)
Lemma account_in r s : net (on_account r) (all_entries s) <> 0 -> r ∈ ledger_accounts idle s.
Proof using.
  intros Hn. apply elem_of_remove_dups, elem_of_app. left. destruct (decide (r ∈ map account (all_entries s))) as [|Hni]; [done|].
  exfalso. apply Hn. apply sum_if_none. intros e He. apply bool_decide_eq_false. intros <-. apply Hni. by apply list_elem_of_fmap_2.
Qed.

(** What a user is owed makes a row among the positions, which says so. *)
Lemma owed_position u a s :
  sound s -> assetKeyInCluster a cluster = true -> 0 < owed_to u a s ->
  exists p, p ∈ positions s /\ sp_ownerId p = u /\ sp_asset p = a /\ owed_to u a s <= sp_chainAssets p.
Proof using.
  intros [Hwf (_ & _ & Hseg)]%sound_entries Hc Hpos. unfold owed_to, credit_balance in *.
  set (p := mkPosition u a
         (debits_less_credits (fun e => of_owner u e && of_types [chain_assets] a e) s)
         (credits_less_debits (fun e => of_owner u e && of_types [user_custody_available; user_custody_locked] a e) s)).
  assert (Hch : sp_chainAssets p = net (on_account (chainAssets u a)) (all_entries s)).
  { unfold p, debits_less_credits. simpl. by rewrite net_owner_types. }
  assert (Hl : sp_liability p = owed_to u a s).
  { unfold p, credits_less_debits, owed_to, credit_balance. simpl. rewrite net_owner_custody by done. lia. }
  specialize (Hseg u a). exists p. split; [|split; [done|]; split; [done|]; rewrite Hch; lia].
  unfold positions, getSegregatedPositions. cbn [read]. apply list_elem_of_filter.
  split; [right; rewrite Hl; unfold owed_to, credit_balance; lia|].
  apply list_elem_of_fmap. exists (u, a). split; [done|]. apply elem_of_remove_dups, list_elem_of_omap.
  assert (Hr : exists r, r ∈ ledger_accounts idle s /\ acc_asset r = a /\ ownerId r = Some u).
  { destruct (decide (net (on_account (userCustodyAvailable u a)) (all_entries s) = 0)) as [E|E].
    - exists (userCustodyLocked u a). split; [apply account_in; lia|done].
    - exists (userCustodyAvailable u a). split; [by apply account_in|done]. }
  destruct Hr as (r & Hr & <- & Ho). exists r. split; [done|]. by rewrite Hc, Ho.
Qed.

(** C23: a healthy report means the platform is solvent, when nothing moves under it. Let the books
    be sound and no address contain the separator; and let no table change during the run, nor
    what the node answers for the balance of an account. When the run then reports that the
    books match the chain, for every asset of the cluster the platform's addresses together
    hold exactly what the vault owes its users, with the rent and the fees the house keeps
    there, and every user who is owed something and has an address of his own finds at least
    that much at his own addresses. *)
Theorem healthy_report_solvent s report s' :
  sound (books (db s)) -> Forall (fun a => str_includes SEPARATOR (ad_address a) = false) (addresses (db s)) ->
  run idle getBalance cluster chain platformAddresses s = (Ok report, s') -> rr_healthy report = true ->
  (forall a, a ∈ covered (books (db s)) ->
     zsum (readings a (platform_addresses (db s))) =
       Postings.owed user_custody_available a (all_entries (books (db s))) +
       Postings.owed user_custody_locked a (all_entries (books (db s))) +
       Postings.owed house_rent a (all_entries (books (db s))) + Postings.owed house_fees a (all_entries (books (db s)))) /\
  (forall u a, assetKeyInCluster a cluster = true -> 0 < owed_to u a (books (db s)) ->
     own_addresses chain (db s) u <> [] ->
     owed_to u a (books (db s)) <= zsum (readings a (own_addresses chain (db s) u))).
Proof using still steady.
  intros Hs Hplain Hrun Hh. destruct (run_reports (db s) Hplain s eq_refl) as (r & s1 & E & _ & ->).
  rewrite Hrun in E. injection E as -> _. pose proof (sound_entries _ Hs) as [Hwf (Hv & _ & _)]. split.
  - intros a Ha. destruct (healthy_asset _ _ Hh Ha) as [_ ->]. rewrite <- Hv.
    unfold debits_less_credits, Postings.held. by rewrite of_types_net, net_types_one.
  - intros u a Hc Hpos Hown. destruct (owed_position u a _ Hs Hc Hpos) as (p & Hp & <- & <- & Hle).
    assert (Ha : sp_asset p ∈ covered (books (db s))).
    { unfold positions, getSegregatedPositions in Hp. cbn [read] in Hp. apply list_elem_of_filter in Hp as [_ Hp].
      apply list_elem_of_fmap in Hp as ([v b] & -> & Hp). apply elem_of_remove_dups, list_elem_of_omap in Hp as (r & Hr & Hf).
      simpl. destruct (assetKeyInCluster (acc_asset r) cluster) eqn:Er; [|done]. destruct (ownerId r); [|done].
      injection Hf as <- <-. by apply in_assets_of. }
    destruct (healthy_asset _ _ Hh Ha) as [Hread _]. pose proof (healthy_user _ _ Hh Hp) as Hd. unfold user_report_of in Hd.
    simpl in Hd. rewrite readings_length, Z.eqb_refl, andb_true_r in Hd by (intros x Hx; apply Hread; by eapply own_in_platform).
    destruct (own_addresses chain (db s) (sp_ownerId p)) as [|x xs] eqn:Ex; [done|].
    apply andb_false_iff in Hd as [Hd|Hd]; [|by apply Z.ltb_ge in Hd].
    apply negb_false_iff, Z.eqb_eq in Hd. lia.
Qed.

Lemma readings_but_one (holds : string -> Z) bad a addrs :
  NoDup addrs -> bad ∈ addrs ->
  (forall x, x ∈ addrs -> reads x a = if bool_decide (x = bad) then None else Some (holds x)) ->
  zsum (readings a addrs) = zsum (map holds addrs) - holds bad /\ S (length (readings a addrs)) = length addrs.
Proof using.
  intros Hnd. induction Hnd as [|b addrs Hni Hnd IH]; intros Hbad Hr; [by apply not_elem_of_nil in Hbad|].
  rewrite readings_cons. simpl map. rewrite zsum_cons, (Hr b) by by left.
  assert (Hr' : forall x, x ∈ addrs -> reads x a = if bool_decide (x = bad) then None else Some (holds x)).
  { intros x Hx. apply Hr. by right. }
  case_bool_decide as E; [subst b|].
  - assert (Hall : readings a addrs = map holds addrs).
    { clear -Hni Hr'. induction addrs as [|c addrs IH]; [done|]. rewrite readings_cons, (Hr' c) by by left.
      rewrite bool_decide_eq_false_2 by (intros ->; apply Hni; by left). simpl. f_equal. apply IH.
      - intros ?. apply Hni. by right.
      - intros x Hx. apply Hr'. by right. }
    rewrite Hall, length_map. split; [lia|done].
  - apply elem_of_cons in Hbad as [->|Hbad]; [done|]. destruct (IH Hbad Hr') as [IH1 IH2]. rewrite zsum_cons. simpl.
    split; lia.
Qed.

(** One address that cannot be read raises the alarm for missing money. With the platform's
    addresses holding exactly what the books say, no withdrawal in flight, and every address
    but one readable, a run reports the shortfall it calls unexplained, the worst thing the
    books can say, beside an explanation that says the total is only a lower bound. *)
Theorem unread_address_alarms s (holds : string -> Z) bad a :
  Forall (fun x => str_includes SEPARATOR (ad_address x) = false) (addresses (db s)) ->
  a ∈ covered (books (db s)) -> bad ∈ platform_addresses (db s) ->
  (forall x, x ∈ platform_addresses (db s) -> reads x a = if bool_decide (x = bad) then None else Some (holds x)) ->
  zsum (map holds (platform_addresses (db s))) = debits_less_credits (of_types [chain_assets] a) (books (db s)) ->
  0 < holds bad -> in_flight (db s) = 0 ->
  exists report s' row, run idle getBalance cluster chain platformAddresses s = (Ok report, s') /\
    row ∈ rr_assets report /\ ar_asset row = a /\ ar_unexplainedShortfall row = true /\
    ar_explanation row = lower_bound 1 (rr_addressesConsidered report).
Proof using still steady.
  intros Hplain Ha Hbad Hr Hsum Hpos Hfl. destruct (run_reports (db s) Hplain s eq_refl) as (r & s1 & E & _ & ->).
  destruct (asset_totals_row _ _ Ha) as (row & Hrow & <- & Hc).
  destruct (readings_but_one holds bad (at_asset row) (platform_addresses (db s))) as [Hz Hl]; [apply NoDup_remove_dups|done..|].
  exists (report_of (db s)), s1, (asset_report_of (db s) row). split; [done|]. split; [by apply list_elem_of_fmap_2|].
  split; [done|]. unfold asset_report_of, asset_report. cbn [ar_unexplainedShortfall ar_explanation]. rewrite Hfl, Z.eqb_refl, Hz, Hc. split.
  - rewrite andb_true_r. apply Z.ltb_lt. lia.
  - unfold explain. simpl rr_addressesConsidered. rewrite (proj2 (Z.ltb_lt _ _)) by lia. f_equal. lia.
Qed.
End Still.
