(* ===== verification/Alerts.v ===== *)
(** * Alerts: the reconciliation worker

    [apps/api/src/workers/reconciliation-worker.ts]: the streaks of drifting readings it keeps
    between cycles, and the alerts it raises. A cycle is given what the run it awaited
    returned or threw; the timer, the metrics and the correlation id are left out. *)

From S2P Require Import Prelude Decimal Assets Reconciliation.
From Stdlib Require Import ZArith Lia.
From stdpp Require Import base list strings.

Open Scope string_scope.
Open Scope list_scope.
Open Scope Z_scope.

(** ** The worker *)

(** The security events, with their count and target. *)
Inductive Alert :=
| drift_persisted (asset : string) (count : Z)
| book_mismatch_persisted (check : ClearingCheck) (subject : string) (count : Z)
| clearing_drift_persisted (check : ClearingCheck) (subject : string) (count : Z)
| negative_trading_balance (count : Z).

(** [const streaks = new Map<string, number>()] *)
Definition Streaks : Type := list (string * Z).

(** [streaks.delete(key)] *)
Definition jdelete (key : string) (m : list (string * Z)) : list (string * Z) := filter (fun kv => kv.1 <> key) m.

Definition streak (key : string) (streaks : Streaks) : Z := default 0 (jget key streaks).

Section Worker.
Context (consecutiveCyclesBeforeAlert : Z).

(** A loop whose body updates the streaks and may raise alerts. *)
Fixpoint raising {A} (body : A -> Streaks -> Streaks * list Alert) (xs : list A) (streaks : Streaks)
  : Streaks * list Alert :=
  match xs with
  | [] => (streaks, [])
  | x :: xs =>
      let (streaks, here) := body x streaks in
      let (streaks, later) := raising body xs streaks in
      (streaks, here ++ later)
  end.

Definition watch_asset (asset : AssetReconciliation) (streaks : Streaks) : Streaks * list Alert :=
  let drifting := negb (ar_residual asset =? 0) in
  let count := if drifting then streak (ar_asset asset) streaks + 1 else 0 in
  (if drifting then jset (ar_asset asset) count streaks else jdelete (ar_asset asset) streaks,
   if count =? consecutiveCyclesBeforeAlert then [drift_persisted (ar_asset asset) count] else []).

Definition finding_key (finding : ClearingFinding) : string :=
  check_name (cf_check finding) +:+ String SEPARATOR (cf_subject finding).

Definition finding_alert (finding : ClearingFinding) (count : Z) : Alert :=
  match cf_check finding with
  | check_book | check_order_locks => book_mismatch_persisted (cf_check finding) (cf_subject finding) count
  | _ => clearing_drift_persisted (cf_check finding) (cf_subject finding) count
  end.

Definition watch_finding (finding : ClearingFinding) (streaks : Streaks) : Streaks * list Alert :=
  match cf_status finding with
  | inconclusive => (streaks, [])
  | status =>
      let count := if bool_decide (status = drift) then streak (finding_key finding) streaks + 1 else 0 in
      (if count >? 0 then jset (finding_key finding) count streaks else jdelete (finding_key finding) streaks,
       if count =? consecutiveCyclesBeforeAlert then [finding_alert finding count] else [])
  end.

(** [clearing] *)
Definition watch_clearing (report : ClearingReport) (streaks : Streaks) : Streaks * list Alert :=
  let (streaks, alerts) := raising watch_finding (cr_findings report) streaks in
  (streaks, alerts ++ (if cr_negativeTradingAccounts report >? 0
                       then [negative_trading_balance (cr_negativeTradingAccounts report)] else [])).

(** [runOnce], as the timer calls it: a failed run changes nothing. *)
Definition worker_cycle (outcome : result ReconciliationReport) (streaks : Streaks) : Streaks * list Alert :=
  match outcome with
  | Throw _ => (streaks, [])
  | Ok report =>
      let (streaks, alerts) := raising watch_asset (rr_assets report) streaks in
      match rr_clearing report with
      | None => (streaks, alerts)
      | Some found => let (streaks, more) := watch_clearing found streaks in (streaks, alerts ++ more)
      end
  end.

(** The streaks after some cycles of a worker that has just started. *)
Definition streaks_after (cycles : list (result ReconciliationReport)) : Streaks :=
  fold_left (fun streaks outcome => (worker_cycle outcome streaks).1) cycles [].

(** ** What it should do *)

(** A reading that says something: of what, whether it drifts, and the alert it would be. *)
Record Reading := mkReading { rd_key : string; rd_drifting : bool; rd_alert : Z -> Alert }.

Definition asset_reading (asset : AssetReconciliation) : Reading :=
  mkReading (ar_asset asset) (negb (ar_residual asset =? 0)) (drift_persisted (ar_asset asset)).

Definition finding_readings (finding : ClearingFinding) : list Reading :=
  match cf_status finding with
  | inconclusive => []
  | status => [mkReading (finding_key finding) (bool_decide (status = drift)) (finding_alert finding)]
  end.

(** The conclusive readings of a cycle, in order; a failed cycle has none. *)
Definition conclusive (outcome : result ReconciliationReport) : list Reading :=
  match outcome with
  | Throw _ => []
  | Ok report =>
      map asset_reading (rr_assets report) ++
      match rr_clearing report with None => [] | Some found => mjoin (M:=list) (map finding_readings (cr_findings found)) end
  end.

(** How many readings of a key drifted in a row, the newest first. *)
Fixpoint drifts_in_a_row (key : string) (newest_first : list Reading) : Z :=
  match newest_first with
  | [] => 0
  | r :: older =>
      if negb (bool_decide (rd_key r = key)) then drifts_in_a_row key older
      else if rd_drifting r then drifts_in_a_row key older + 1 else 0
  end.

(** The alerts of some readings after the [older] ones: one for each reading that brings its
    row of drifts to exactly the threshold. *)
Fixpoint due (older rs : list Reading) : list Alert :=
  match rs with
  | [] => []
  | r :: rs =>
      let count := drifts_in_a_row (rd_key r) (r :: older) in
      (if count =? consecutiveCyclesBeforeAlert then [rd_alert r count] else []) ++ due (r :: older) rs
  end.

Definition due_negative (outcome : result ReconciliationReport) : list Alert :=
  match outcome with
  | Ok report =>
      match rr_clearing report with
      | Some found => if cr_negativeTradingAccounts found >? 0 then [negative_trading_balance (cr_negativeTradingAccounts found)] else []
      | None => []
      end
  | Throw _ => []
  end.

(** ** Lemmas *)

Lemma streak_jset k k' n m : streak k' (jset k n m) = if bool_decide (k = k') then n else streak k' m.
Proof. unfold streak. case_bool_decide as E; [subst; by rewrite jget_jset_eq|by rewrite jget_jset_ne]. Qed.

Lemma streak_jdelete k k' m : streak k' (jdelete k m) = if bool_decide (k = k') then 0 else streak k' m.
Proof.
  unfold streak, jdelete. induction m as [|[k0 v] m IH]; [simpl; by case_bool_decide|]. rewrite filter_cons. simpl.
  destruct (decide (k0 = k)) as [->|Hne].
  - rewrite decide_False by (intros ?; done). rewrite IH. case_bool_decide; [done|]. by rewrite decide_False.
  - rewrite decide_True by done. cbn [jget]. destruct (decide (k' = k0)) as [<-|]; [by rewrite bool_decide_eq_false_2|done].
Qed.

(** The map agrees with the rows of drifts of the past readings. *)
Definition agrees (streaks : Streaks) (older : list Reading) : Prop :=
  forall k, streak k streaks = drifts_in_a_row k older.

Lemma drifts_nonneg k older : 0 <= drifts_in_a_row k older.
Proof. induction older as [|r older IH]; simpl; [lia|]. repeat case_match; lia. Qed.

Lemma agrees_set streaks older r n :
  agrees streaks older -> rd_drifting r = true -> n = streak (rd_key r) streaks + 1 ->
  agrees (jset (rd_key r) n streaks) (r :: older).
Proof.
  intros Ha Hd -> k. rewrite streak_jset. simpl. rewrite Hd. case_bool_decide as E; simpl; [|apply Ha]. subst k. by rewrite Ha.
Qed.

Lemma agrees_delete streaks older r :
  agrees streaks older -> rd_drifting r = false -> agrees (jdelete (rd_key r) streaks) (r :: older).
Proof.
  intros Ha Hd k. rewrite streak_jdelete. simpl. rewrite Hd. case_bool_decide as E; simpl; [done|apply Ha].
Qed.

Lemma due_app older rs rs' : due older (rs ++ rs') = due older rs ++ due (reverse rs ++ older) rs'.
Proof.
  revert older. induction rs as [|r rs IH]; intros older; simpl; [done|]. by rewrite IH, reverse_cons, <- !app_assoc.
Qed.

(** A loop whose body does what is due for the readings of its element. *)
Lemma raising_due {A} (body : A -> Streaks -> Streaks * list Alert) (readings : A -> list Reading) :
  (forall x streaks older, agrees streaks older ->
     agrees (body x streaks).1 (reverse (readings x) ++ older) /\ (body x streaks).2 = due older (readings x)) ->
  forall xs streaks older, agrees streaks older ->
    agrees (raising body xs streaks).1 (reverse (mjoin (M:=list) (map readings xs)) ++ older) /\
    (raising body xs streaks).2 = due older (mjoin (M:=list) (map readings xs)).
Proof.
  intros Hbody xs.
  induction xs as [|x xs IH]; intros streaks older Ha; simpl; [done|].
  destruct (Hbody x streaks older Ha) as [Ha1 E1]. destruct (body x streaks) as [s1 a1]. simpl in Ha1, E1.
  destruct (IH s1 _ Ha1) as [Ha2 E2]. destruct (raising body xs s1) as [s2 a2]. simpl in Ha2, E2 |- *. split.
  - by rewrite reverse_app, <- app_assoc.
  - by rewrite due_app, E1, E2.
Qed.

Lemma watch_asset_due x streaks older :
  agrees streaks older ->
  agrees (watch_asset x streaks).1 (reverse [asset_reading x] ++ older) /\
  (watch_asset x streaks).2 = due older [asset_reading x].
Proof.
  intros Ha. unfold watch_asset. simpl. rewrite bool_decide_eq_true_2, app_nil_r by done. simpl.
  destruct (ar_residual x =? 0) eqn:E; simpl; (split; [|by rewrite ?Ha]).
  - apply (agrees_delete _ _ (asset_reading x)); [done|]. simpl. by rewrite E.
  - apply (agrees_set _ _ (asset_reading x)); [done| |done]. simpl. by rewrite E.
Qed.

Lemma watch_finding_due x streaks older :
  agrees streaks older ->
  agrees (watch_finding x streaks).1 (reverse (finding_readings x) ++ older) /\
  (watch_finding x streaks).2 = due older (finding_readings x).
Proof.
  intros Ha. unfold watch_finding, finding_readings. pose proof (drifts_nonneg (finding_key x) older).
  destruct (cf_status x) eqn:E; simpl; [|rewrite !Ha, (proj2 (Z.gtb_lt _ _)) by lia|done];
    rewrite bool_decide_eq_true_2, app_nil_r by done; simpl; (split; [|done]).
  - by apply (agrees_delete _ _ (mkReading (finding_key x) false (finding_alert x))).
  - apply (agrees_set _ _ (mkReading (finding_key x) true (finding_alert x))); [done..|]. simpl. by rewrite Ha.
Qed.

Lemma mjoin_singletons {A B} (f : A -> B) xs : mjoin (M:=list) (map (fun x => [f x]) xs) = map f xs.
Proof. induction xs as [|x xs IH]; simpl; [done|by f_equal]. Qed.

Lemma cycle_due outcome streaks older :
  agrees streaks older ->
  agrees (worker_cycle outcome streaks).1 (reverse (conclusive outcome) ++ older) /\
  (worker_cycle outcome streaks).2 = due older (conclusive outcome) ++ due_negative outcome.
Proof.
  intros Ha. destruct outcome as [report|e]; [|done]. unfold worker_cycle, conclusive, due_negative.
  destruct (raising_due watch_asset _ watch_asset_due (rr_assets report) streaks older Ha) as [Ha1 E1].
  rewrite mjoin_singletons in Ha1, E1.
  destruct (raising watch_asset _ _) as [s1 a1]. simpl in Ha1, E1. destruct (rr_clearing report) as [found|]; [|by rewrite !app_nil_r].
  destruct (raising_due watch_finding _ watch_finding_due (cr_findings found) s1 _ Ha1) as [Ha2 E2].
  unfold watch_clearing. destruct (raising watch_finding _ _) as [s2 a2]. simpl in Ha2, E2 |- *. split.
  - by rewrite reverse_app, <- app_assoc.
  - rewrite E1, E2, app_assoc. f_equal.
    by rewrite due_app.
Qed.

Lemma streaks_agree cycles :
  agrees (streaks_after cycles) (reverse (mjoin (M:=list) (map conclusive cycles))).
Proof.
  induction cycles as [|outcome cycles IH] using rev_ind; [by intros k|].
  unfold streaks_after. rewrite fold_left_app, map_app. simpl. rewrite join_app, reverse_app. simpl. rewrite app_nil_r.
  by apply cycle_due.
Qed.

(** ** Properties *)

(** C24: the worker alerts exactly when drift has persisted. After any cycles, some of which may have
    failed, the alerts of the next are one for each asset or check whose row of drifting
    readings this reading brings to exactly the threshold, counted over the readings that
    were conclusive, and one for negative trading balances, at every cycle that saw any. *)
Theorem worker_alerts_exactly past outcome :
  (worker_cycle outcome (streaks_after past)).2 =
    due (reverse (mjoin (M:=list) (map conclusive past))) (conclusive outcome) ++ due_negative outcome.
Proof. apply cycle_due, streaks_agree. Qed.
End Worker.
