(* ===== verification/ReportRuns.v ===== *)
(** * Reports on a small chain

    Books with a deposit, a nonce account and some house funds, a chain that holds them, and
    the theorems of [Reports] applied to both. No code is modelled here. *)

From S2P Require Import Prelude Risk Decimal Assets Ledger Postings States Store Books Gateway System Custody Withdrawals.
From S2P Require Import Broadcaster Locks Escrow WithdrawalRuns Transfers DepositRuns Reconciliation Reports.
From Stdlib Require Import ZArith Lia.
From stdpp Require Import base list strings gmap relations.

Open Scope string_scope.
Open Scope list_scope.
Open Scope Z_scope.

(** ** The books *)

Definition report_postings : list Posting :=
  [PDeposit (mkDeposit "d1" "alice" "devnet:SOL" 1000 (Some 10));
   PNonceAccountRent (mkHouse "n1" "devnet:SOL" 30);
   PHouseFunding (mkHouse "f1" "devnet:SOL" 500)].

Definition report_books : Store :=
  match fund report_postings (empty_store demo_users) with Ok s => s | Throw _ => empty_store demo_users end.

Lemma report_books_ok : fund report_postings (empty_store demo_users) = Ok report_books.
Proof. vm_compute. reflexivity. Qed.

Lemma report_books_sound : sound report_books.
Proof. apply (reachable_sound demo_users). by apply (fund_reachable report_postings); [|exact report_books_ok]. Qed.

(** Alice's address, a nonce account, and a treasury that the configuration names twice. *)
Definition report_tables : Custody :=
  mkCustody report_books [deposit_wallet] [deposit_address] [] [] []
    [mkNonce "n1" run_chain "nonce" available None] [] [].

(** ** The chain *)

(** Nobody else acts, and the node answers from a list of lamports; there are no tokens. *)
Definition toy_balances (lamports : list (string * Z)) : Balances unit := {|
  balances_others := fun w d => (d, w);
  rpcGetBalance a w := (match jget a lamports with Some n => Ok n | None => Throw (GenericError "timeout") end, w);
  getParsedTokenAccountsByOwner _ _ w := (Ok [], w)
|}.

Definition alone : Others unit := fun w d => (d, w).

Definition toy_getBalance (lamports : list (string * Z)) : string -> string -> job unit Z :=
  @adapter_getBalance unit (toy_balances lamports) (fun _ => true) devnet 0.

Definition toy_reads (lamports : list (string * Z)) (a x : string) : option Z :=
  match parseLedgerAssetKey x with
  | Ok (c, y) => if bool_decide (c = devnet) then if bool_decide (y = NATIVE_ASSET_KEY) then jget a lamports else Some 0 else None
  | Throw _ => None
  end.

Lemma toy_steady lamports a x s :
  db (toy_getBalance lamports a x s).2 = db s /\
  match (toy_getBalance lamports a x s).1 with Ok n => Some n | Throw _ => None end = toy_reads lamports a x.
Proof.
  unfold toy_getBalance, adapter_getBalance, toy_reads. destruct (parseLedgerAssetKey x) as [[c y]|e]; [|done].
  unfold mbind, job_bind, of_result, throw_if. simpl. case_bool_decide; simpl; [|done].
  case_bool_decide; simpl; [|done]. by destruct (jget a lamports).
Qed.

Definition report_run (lamports : list (string * Z)) (s : Proc unit) : result ReconciliationReport * Proc unit :=
  @run unit alone [] (toy_getBalance lamports) devnet run_chain ["treasury"; "treasury"] s.

Definition full_chain : list (string * Z) := [("addr", 1000); ("nonce", 30); ("treasury", 500)].
(** The node does not answer for the nonce account. *)
Definition patchy_chain : list (string * Z) := [("addr", 1000); ("treasury", 500)].

Definition report_start : Proc unit := mkProc report_tables tt.

Lemma report_plain : Forall (fun a => str_includes SEPARATOR (ad_address a) = false) (addresses (db report_start)).
Proof. by repeat constructor. Qed.

Example report_addresses : platform_addresses run_chain ["treasury"; "treasury"] report_tables = ["addr"; "nonce"; "treasury"].
Proof. vm_compute. reflexivity. Qed.

(** ** Witnesses *)

Lemma run_exact_witness :
  exists s', report_run full_chain report_start =
    (Ok (report_of [] devnet run_chain ["treasury"; "treasury"] (toy_reads full_chain) report_tables), s') /\ db s' = report_tables.
Proof.
  apply (@run_exact unit alone [] (toy_getBalance full_chain) devnet run_chain ["treasury"; "treasury"] (toy_reads full_chain)
           (fun _ _ => eq_refl) (toy_steady full_chain) report_start).
  by repeat constructor.
Defined.

Definition healthy_report : ReconciliationReport :=
  match report_run full_chain report_start with (Ok r, _) => r | _ => mkReport [] false 0 [] 0 0 None end.

Lemma healthy_run : report_run full_chain report_start = (Ok healthy_report, report_start).
Proof. vm_compute. reflexivity. Qed.

Lemma healthy_report_solvent_witness :
  rr_healthy healthy_report = true /\
  zsum (readings (toy_reads full_chain) "devnet:SOL" (platform_addresses run_chain ["treasury"; "treasury"] report_tables)) = 1530 /\
  0 < owed_to "alice" "devnet:SOL" report_books <=
    zsum (readings (toy_reads full_chain) "devnet:SOL" (own_addresses run_chain report_tables "alice")).
Proof.
  destruct (@healthy_report_solvent unit alone [] (toy_getBalance full_chain) devnet run_chain ["treasury"; "treasury"]
           (toy_reads full_chain) (fun _ _ => eq_refl) (toy_steady full_chain) report_start healthy_report report_start
           report_books_sound report_plain healthy_run eq_refl) as [Ht Hu].
  split; [reflexivity|]. split; [|split; [reflexivity|]].
  - refine (eq_trans (Ht "devnet:SOL" _) _); [apply (bool_decide_unpack _)|]; vm_compute; reflexivity.
  - apply (Hu "alice" "devnet:SOL"); [reflexivity|reflexivity|]. intros E. discriminate E.
Defined.

Lemma unread_address_alarms_witness :
  exists report s' row, report_run patchy_chain report_start = (Ok report, s') /\
    row ∈ rr_assets report /\ ar_asset row = "devnet:SOL" /\ ar_unexplainedShortfall row = true /\
    ar_explanation row = lower_bound 1 (rr_addressesConsidered report).
Proof.
  apply (@unread_address_alarms unit alone [] (toy_getBalance patchy_chain) devnet run_chain ["treasury"; "treasury"]
           (toy_reads patchy_chain) (fun _ _ => eq_refl) (toy_steady patchy_chain) report_start
           (fun x => default 0 (jget x full_chain)) "nonce" "devnet:SOL").
  - by repeat constructor.
  - apply (bool_decide_unpack _). vm_compute. reflexivity.
  - apply (bool_decide_unpack _). vm_compute. reflexivity.
  - intros x Hx. change (x ∈ platform_addresses run_chain ["treasury"; "treasury"] report_tables) in Hx.
    rewrite report_addresses in Hx. repeat (apply elem_of_cons in Hx as [->|Hx]; [vm_compute; reflexivity|]).
    by apply not_elem_of_nil in Hx.
  - vm_compute. reflexivity.
  - vm_compute. reflexivity.
  - reflexivity.
Defined.

(** A market whose book the engine reports with one level, which no order explains. *)
Definition toy_depth (_ : string) (w : unit) : option EngineDepth * unit := (Some (mkDepth 3 [(100, 5)] []), w).

Lemma clearing_report_clean_witness :
  exists report s', @clearing_run unit alone [] (toy_getBalance full_chain) toy_depth devnet "clearing" "devnet:SOL" 0
      [mkBookMarket "SOL-USDC" "devnet:SOL-USDC"] "settlement" (mkProc (set_books demo_funded report_tables) tt) = (Ok report, s') /\
    sound (books (db s')) /\ cr_negativeTradingAccounts report = 0 /\
    forall f, f ∈ cr_findings report -> cf_check f ∈ [check_equation; check_order_locks] -> cf_status f = clean.
Proof.
  apply (@clearing_report_clean unit alone [] (toy_getBalance full_chain) toy_depth devnet "clearing" "devnet:SOL" 0
           [mkBookMarket "SOL-USDC" "devnet:SOL-USDC"] "settlement").
  - intros w d H. exact H.
  - intros a x s H. rewrite (proj1 (toy_steady full_chain a x s)). exact H.
  - apply (reachable_sound demo_users). exact (fund_reachable demo_funding _ _ eq_refl demo_funded_ok).
Defined.
