(* ===== verification/Strategy.v ===== *)
(** * What the market maker wants resting

    [apps/api/src/services/market-maker/strategy.ts]: the ladder of quotes around a
    reference price, what a quote will hold, the quotes a budget covers and when the
    ladder is worth moving. Configured numbers are the integers the code makes of them. *)

From S2P Require Import Prelude Decimal Assets Price Market Orders.
From Stdlib Require Import ZArith Lia.
From stdpp Require Import base list strings sorting.

Open Scope string_scope.
Open Scope list_scope.
Open Scope Z_scope.

(** ** Quotes *)

Record QuoteConfig := mkConfig { levels : Z; halfSpreadBps : Z; levelStepBps : Z; levelQty : Z }.

Record Quote := mkQuote { q_side : Side; q_level : Z; q_price : Z; q_qty : Z }.

#[export] Instance Quote_eq_dec : EqDecision Quote.
Proof. solve_decision. Defined.

Definition BPS : Z := 10000.

Definition floorTo (value step : Z) : Z := Z.quot value step * step.
Definition ceilTo (value step : Z) : Z := Z.quot (value + step - 1) step * step.

(** [const within = (price) => ..] *)
Definition within (band : option CollarBand) (price : Z) : bool :=
  match band with None => true | Some b => (price >=? lower b) && (price <=? upper b) end.

Section Ladder.
Context (market : Market) (reference : Z) (config : QuoteConfig) (qty : Z) (band : option CollarBand).

(** The prices of one level, given those of the level before it. *)
Definition bid_at (level : Z) (lastBid : option Z) : Z :=
  let away := halfSpreadBps config + level * levelStepBps config in
  let bid := floorTo (Z.quot (reference * (BPS - away)) BPS) (tickSize market) in
  match lastBid with
  | Some last => if bid >=? last then last - tickSize market else bid
  | None => bid
  end.

Definition ask_at (level : Z) (lastAsk : option Z) (bid : Z) : Z :=
  let away := halfSpreadBps config + level * levelStepBps config in
  let ask := ceilTo (Z.quot (reference * (BPS + away)) BPS) (tickSize market) in
  let ask := match lastAsk with
             | Some last => if ask <=? last then last + tickSize market else ask
             | None => ask
             end in
  if ask <=? bid then bid + tickSize market else ask.

(** [if (within(price) && notional(price, qty) >= market.minNotional) quotes.push(..)] *)
Definition quote_if (side : Side) (level price : Z) (wanted : bool) : result (list Quote) :=
  if wanted && within band price
  then value ← notional price qty;
       Ok (if value >=? minNotional market then [mkQuote side level price qty] else [])
  else Ok [].

(** The loop over the levels. *)
Fixpoint ladder_from (n : nat) (level : Z) (lastBid lastAsk : option Z) : result (list Quote) :=
  match n with
  | O => Ok []
  | S n =>
      let bid := bid_at level lastBid in
      let ask := ask_at level lastAsk bid in
      bids ← quote_if buy level bid (bid >? 0);
      asks ← quote_if sell level ask true;
      rest ← ladder_from n (level + 1) (Some bid) (Some ask);
      Ok (bids ++ asks ++ rest)
  end.
End Ladder.

Definition ladder (reference : Z) (market : Market) (collarReference : option Z) (config : QuoteConfig)
  : result (list Quote) :=
  if (reference <=? 0) || (levels config <=? 0) then Ok [] else
  let qty := floorTo (levelQty config) (lotSize market) in
  if qty <=? 0 then Ok [] else
  band ← match collarReference with None => Ok None | Some r => b ← collarBand r market; Ok (Some b) end;
  ladder_from market reference config qty band (Z.to_nat (levels config)) 0 None None.

Definition holdFor (quote : Quote) : result Z :=
  match q_side quote with
  | sell => Ok (q_qty quote)
  | buy =>
      value ← notional (q_price quote) (q_qty quote);
      fee ← feeAmount value WORST_CASE_TAKER_BPS;
      Ok (value + fee)
  end.

(** [[...quotes].sort((a, b) => a.level - b.level)], which is stable. *)
Fixpoint insert_quote (q : Quote) (sorted : list Quote) : list Quote :=
  match sorted with
  | [] => [q]
  | x :: sorted => if q_level q <=? q_level x then q :: x :: sorted else x :: insert_quote q sorted
  end.

Definition by_level (quotes : list Quote) : list Quote := foldr insert_quote [] quotes.

(** The loop of [affordable] over what is left on each side. *)
Fixpoint afford (quotes : list Quote) (base quote : Z) : result (list Quote) :=
  match quotes with
  | [] => Ok []
  | candidate :: quotes =>
      cost ← holdFor candidate;
      match q_side candidate with
      | buy => if cost >? quote then afford quotes base quote
               else out ← afford quotes base (quote - cost); Ok (candidate :: out)
      | sell => if cost >? base then afford quotes base quote
                else out ← afford quotes (base - cost) quote; Ok (candidate :: out)
      end
  end.

Definition affordable (quotes : list Quote) (base quote : Z) : result (list Quote) :=
  afford (by_level quotes) base quote.

Definition shouldReanchor (anchor : option Z) (reference thresholdBps : Z) : bool :=
  match anchor with
  | None => true
  | Some anchor =>
      let moved := if reference >? anchor then reference - anchor else anchor - reference in
      moved * BPS >=? anchor * thresholdBps
  end.

(** ** Lemmas: the ladder *)

Lemma floorTo_divide v s : (s | floorTo v s).
Proof. unfold floorTo. by exists (Z.quot v s). Qed.

Lemma ceilTo_divide v s : (s | ceilTo v s).
Proof. unfold ceilTo. by exists (Z.quot (v + s - 1) s). Qed.

Section LadderLemmas.
Context (market : Market) (Hwf : market_wf market) (reference : Z) (config : QuoteConfig) (qty : Z) (band : option CollarBand).

Definition on_tick (o : option Z) : Prop := forall p, o = Some p -> (tickSize market | p).
Definition below (o : option Z) (p : Z) : Prop := forall last, o = Some last -> p < last.
Definition above (o : option Z) (p : Z) : Prop := forall last, o = Some last -> last < p.

Lemma bid_at_spec level last :
  on_tick last -> (tickSize market | bid_at market reference config level last) /\
    below last (bid_at market reference config level last).
Proof using Hwf.
  intros Ht. pose proof (wf_tick _ Hwf). unfold bid_at. set (b := floorTo _ _).
  assert (Hb : (tickSize market | b)) by apply floorTo_divide. destruct last as [p|]; [|by split].
  destruct (Z.geb_spec b p); (split; [|intros ? [= <-]; lia]); [|done].
  apply Z.divide_sub_r; [by apply Ht|apply Z.divide_refl].
Qed.

Lemma ask_at_spec level last bid :
  on_tick last -> (tickSize market | bid) ->
  (tickSize market | ask_at market reference config level last bid) /\
  above last (ask_at market reference config level last bid) /\ bid < ask_at market reference config level last bid.
Proof using Hwf.
  intros Ht Hb. pose proof (wf_tick _ Hwf). unfold ask_at. set (a := ceilTo _ _).
  assert (Ha : (tickSize market | a)) by apply ceilTo_divide.
  assert (Hn : forall p, (tickSize market | p) -> (tickSize market | p + tickSize market)).
  { intros p Hp. apply Z.divide_add_r; [done|apply Z.divide_refl]. }
  destruct last as [p|].
  - specialize (Ht p eq_refl). destruct (Z.leb_spec a p).
    + destruct (Z.leb_spec (p + tickSize market) bid); (split; [by auto|]; split; [intros ? [= <-]; lia|lia]).
    + destruct (Z.leb_spec a bid); (split; [by auto|]; split; [intros ? [= <-]; lia|lia]).
  - destruct (Z.leb_spec a bid); (split; [by auto|]; split; [by intros ?|lia]).
Qed.

(** What every quote of the ladder satisfies by itself. *)
Definition quotable (q : Quote) : Prop :=
  0 < q_price q /\ (tickSize market | q_price q) /\ q_qty q = qty /\ within band (q_price q) = true /\
  minNotional market <= notional_value (q_price q) qty <= MAX_U64.

Lemma quote_if_spec side level price wanted qs q :
  0 < qty -> (tickSize market | price) -> quote_if market qty band side level price wanted = Ok qs -> q ∈ qs ->
  quotable q /\ q_side q = side /\ q_level q = level /\ q_price q = price /\ qs = [q].
Proof using Hwf.
  intros Hq Ht H Hin. pose proof (wf_minNotional _ Hwf). unfold quote_if in H.
  destruct (wanted && within band price) eqn:E; [|injection H as <-; by apply not_elem_of_nil in Hin].
  apply andb_true_iff in E as [_ Hw]. inv_ok.
  match goal with H : notional _ _ = Ok _ |- _ => apply notional_Ok in H as (Hp & _ & -> & Hmax) end.
  destruct (Z.geb_spec (notional_value price qty) (minNotional market)); [|by apply not_elem_of_nil in Hin].
  apply list_elem_of_singleton in Hin as ->. unfold quotable. simpl.
  assert (price <> 0) by (intros ->; change (notional_value 0 qty) with 0 in *; lia).
  repeat split; try done; lia.
Qed.

(** How two quotes stand to each other. *)
Definition apart (x y : Quote) : Prop :=
  match q_side x, q_side y with
  | buy, sell => q_price x < q_price y
  | buy, buy => q_level x < q_level y -> q_price y < q_price x
  | sell, sell => q_level x < q_level y -> q_price x < q_price y
  | sell, buy => True
  end.

(** A quote lies beyond the prices of the levels before it. *)
Definition beyond (level : Z) (lastBid lastAsk : option Z) (q : Quote) : Prop :=
  level <= q_level q /\ match q_side q with buy => below lastBid (q_price q) | sell => above lastAsk (q_price q) end.

Lemma ladder_from_spec n level lastBid lastAsk qs :
  0 < qty -> on_tick lastBid -> on_tick lastAsk ->
  (forall b a, lastBid = Some b -> lastAsk = Some a -> b < a) ->
  ladder_from market reference config qty band n level lastBid lastAsk = Ok qs ->
  (forall q, q ∈ qs -> quotable q /\ beyond level lastBid lastAsk q) /\
  (forall x y, x ∈ qs -> y ∈ qs -> apart x y) /\ NoDup ((fun q => (q_side q, q_level q)) <$> qs).
Proof using Hwf.
  intros Hq. revert level lastBid lastAsk qs.
  induction n as [|n IH]; intros level lastBid lastAsk qs Hb Ha Hlt H; cbn [ladder_from] in H.
  { injection H as <-. split; [by intros q ?%not_elem_of_nil|]. split; [by intros x y ?%not_elem_of_nil|constructor]. }
  destruct (bid_at_spec level lastBid Hb) as [Hbt Hbb]. set (bid := bid_at _ _ _ level lastBid) in *.
  destruct (ask_at_spec level lastAsk bid Ha Hbt) as (Hat & Haa & Hba). set (ask := ask_at _ _ _ level lastAsk bid) in *.
  inv_ok. match goal with H : quote_if _ _ _ buy _ _ _ = Ok ?l |- _ => rename H into Ebids, l into bids end.
  match goal with H : quote_if _ _ _ sell _ _ _ = Ok ?l |- _ => rename H into Easks, l into asks end.
  match goal with H : ladder_from _ _ _ _ _ _ _ _ _ = Ok ?l |- _ => rename l into rest; apply IH in H as (Q1 & Q2 & Q3) end;
    [|by intros ? [= <-]|by intros ? [= <-]|by intros ? ? [= <-] [= <-]].
  assert (F1 : forall q, q ∈ bids -> quotable q /\ q_side q = buy /\ q_level q = level /\ q_price q = bid /\ bids = [q]).
  { intros q. by apply quote_if_spec with (wanted := bid >? 0). }
  assert (F2 : forall q, q ∈ asks -> quotable q /\ q_side q = sell /\ q_level q = level /\ q_price q = ask /\ asks = [q]).
  { intros q. by apply quote_if_spec with (wanted := true). }
  split; [|split].
  - intros q [Hin|[Hin|Hin]%elem_of_app]%elem_of_app.
    + destruct (F1 q Hin) as (? & Es & El & Ep & _). split; [done|]. unfold beyond. rewrite Es, El, Ep. split; [lia|done].
    + destruct (F2 q Hin) as (? & Es & El & Ep & _). split; [done|]. unfold beyond. rewrite Es, El, Ep. split; [lia|done].
    + destruct (Q1 q Hin) as [? [Hl Hs]]. split; [done|]. split; [lia|]. destruct (q_side q).
      * intros p Hp. specialize (Hs bid eq_refl). specialize (Hbb p Hp). lia.
      * intros p Hp. specialize (Hs ask eq_refl). specialize (Haa p Hp). lia.
  - assert (Hr : forall q, q ∈ rest -> level < q_level q /\ match q_side q with buy => q_price q < bid | sell => ask < q_price q end).
    { intros q Hin. destruct (Q1 q Hin) as [_ [Hl Hs]]. split; [lia|]. destruct (q_side q); by apply Hs. }
    intros x y [Hx|[Hx|Hx]%elem_of_app]%elem_of_app [Hy|[Hy|Hy]%elem_of_app]%elem_of_app; [..|by apply Q2];
      repeat match goal with
      | H : _ ∈ bids |- _ => apply F1 in H as (_ & ? & ? & ? & _)
      | H : _ ∈ asks |- _ => apply F2 in H as (_ & ? & ? & ? & _)
      | H : _ ∈ rest |- _ => apply Hr in H as (? & ?)
      end; unfold apart; destruct (q_side x), (q_side y); try done; lia.
  - assert (Hhere : forall qs s p w, quote_if market qty band s level p w = Ok qs -> (tickSize market | p) ->
              NoDup ((fun q => (q_side q, q_level q)) <$> qs) /\
              forall k, k ∈ ((fun q => (q_side q, q_level q)) <$> qs) -> k = (s, level)).
    { intros qs s p w Hqs Hp. destruct qs as [|q qs]; [split; [constructor|by intros k ?%not_elem_of_nil]|].
      destruct (quote_if_spec s level p w _ q Hq Hp Hqs ltac:(by left)) as (_ & Es & El & _ & E). injection E as ->. simpl.
      split; [apply NoDup_singleton|]. intros k ->%list_elem_of_singleton. by rewrite Es, El. }
    destruct (Hhere _ _ _ _ Ebids Hbt) as [N1 K1]. destruct (Hhere _ _ _ _ Easks Hat) as [N2 K2].
    assert (K3 : forall k, k ∈ ((fun q => (q_side q, q_level q)) <$> rest) -> level < k.2).
    { intros k (q & -> & Hin)%list_elem_of_fmap. destruct (Q1 q Hin) as [_ [Hl _]]. simpl. lia. }
    rewrite !fmap_app. apply NoDup_app. split; [done|]. split.
    + intros k Hk [Hk'|Hk']%elem_of_app; apply K1 in Hk; subst k; [by apply K2 in Hk'|apply K3 in Hk'; simpl in Hk'; lia].
    + apply NoDup_app. split; [done|]. split; [|done]. intros k Hk Hk'. apply K2 in Hk. subst k. apply K3 in Hk'. simpl in Hk'. lia.
Qed.
End LadderLemmas.

Lemma floorTo_pos v s : 0 < floorTo v s -> 0 < s -> 0 < v.
Proof.
  unfold floorTo. intros H Hs. destruct (Z.lt_ge_cases 0 v); [done|]. exfalso.
  assert (Z.quot v s <= 0); [|nia]. destruct (Z.eq_dec v 0) as [->|]; [by rewrite Z.quot_0_l by lia|].
  rewrite <- (Z.opp_involutive v), Z.quot_opp_l by lia. pose proof (Z.quot_pos (- v) s). lia.
Qed.

Lemma ladder_Ok reference m collarReference config quotes :
  ladder reference m collarReference config = Ok quotes -> quotes <> [] ->
  exists qty band, 0 < reference /\ qty = floorTo (levelQty config) (lotSize m) /\ 0 < qty /\
    match collarReference with None => band = None | Some r => exists b, collarBand r m = Ok b /\ band = Some b end /\
    ladder_from m reference config qty band (Z.to_nat (levels config)) 0 None None = Ok quotes.
Proof.
  unfold ladder. intros H Hne. destruct (Z.leb_spec reference 0); simpl in H; [by injection H as <-|].
  destruct (levels config <=? 0); [by injection H as <-|].
  destruct (Z.leb_spec (floorTo (levelQty config) (lotSize m)) 0); [by injection H as <-|].
  inv_ok. match goal with H : match collarReference with _ => _ end = Ok ?b |- _ => exists (floorTo (levelQty config) (lotSize m)), b; rename H into Hb end.
  split; [done|]. split; [done|]. split; [done|]. split; [|done]. destruct collarReference as [r|]; inv_ok; eauto.
Qed.

(** The order a quote becomes. *)
Definition quote_request (m : Market) (userId clientOrderId : string) (q : Quote) : OrderRequest :=
  mkRequest clientOrderId (id m) (q_side q) limit GTC (Some (q_price q)) (q_qty q) false cancel_taker userId.

Lemma quotable_rejects m qty band collarReference q userId clientOrderId why :
  market_wf m -> status m = open -> opt_nonneg collarReference -> 0 < qty -> (lotSize m | qty) ->
  match collarReference with None => band = None | Some r => exists b, collarBand r m = Ok b /\ band = Some b end ->
  quotable m qty band q ->
  rejects (quote_request m userId clientOrderId q) m collarReference why ->
  why = NOTIONAL_OVERFLOW /\ q_side q = buy /\ MAX_U64 < reserve_value (q_price q) (q_qty q).
Proof.
  intros Hwf Hst Hr Hq Hlot Hband (Hp & Htick & Hqty & Hw & Hmin & Hmax) Hwhy.
  pose proof (wf_collar _ Hwf). unfold quote_request in Hwhy.
  destruct why; unfold rejects, judged_at, reserve_price, limit_price in Hwhy; simpl in Hwhy; try done.
  - rewrite Hst in Hwhy. naive_solver.
  - by destruct Hwhy.
  - by destruct Hwhy as (p & [= <-] & Hn).
  - rewrite Hqty in Hwhy. by destruct Hwhy.
  - destruct Hwhy as (p & [= <-] & _ & _ & Hb). rewrite Hqty in Hb. lia.
  - destruct Hwhy as (p & x & [= <-] & -> & Hb). destruct Hband as (b & Eb & ->).
    rewrite collarBand_value in Eb by (apply Hr || lia; done). injection Eb as <-.
    assert (withinCollar (q_price q) (band_value x m) = true) as Hin by exact Hw.
    apply withinCollar_value in Hin; [lia|lia|by apply Hr|lia].
  - destruct Hwhy as [_ [(p & [= <-] & Hb)|(Hs & p & [= <-] & Hb)]]; [rewrite Hqty in Hb; lia|done].
  - lia.
  - naive_solver.
  - naive_solver.
  - naive_solver.
Qed.

(** What the gateway computes for a quote that can be held. *)
Lemma holdFor_computeHold m userId clientOrderId q reference :
  0 < q_qty q -> holdFor q = hold_amount <$> computeHold (quote_request m userId clientOrderId q) m reference.
Proof.
  intros Hq. unfold holdFor, computeHold, quote_request. simpl. destruct (Z.leb_spec (q_qty q) 0); [lia|].
  destruct (q_side q); [|done]. destruct (notional (q_price q) (q_qty q)) as [v|]; [|done]. simpl.
  by destruct (feeAmount v WORST_CASE_TAKER_BPS).
Qed.

(** ** Lemmas: what a budget covers *)

Definition hold_of (q : Quote) : Z := match holdFor q with Ok n => n | Throw _ => 0 end.
Definition is_side (side : Side) (q : Quote) : bool := bool_decide (q_side q = side).

(** What the quotes of a side hold together. *)
Definition spent (side : Side) (qs : list Quote) : Z := sum_if (is_side side) hold_of qs.

Lemma insert_quote_perm q qs : insert_quote q qs ≡ₚ q :: qs.
Proof.
  induction qs as [|x qs IH]; simpl; [done|]. case_match; [done|]. rewrite IH. apply Permutation_swap.
Qed.

Lemma by_level_perm qs : by_level qs ≡ₚ qs.
Proof. induction qs as [|q qs IH]; simpl; [done|]. by rewrite insert_quote_perm, IH. Qed.

Definition level_le (x y : Quote) : Prop := q_level x <= q_level y.

Lemma insert_quote_sorted q qs : Sorted level_le qs -> Sorted level_le (insert_quote q qs).
Proof.
  induction qs as [|x qs IH]; intros Hs; simpl; [repeat constructor|].
  destruct (Z.leb_spec (q_level q) (q_level x)); [constructor; [done|by constructor]|].
  apply Sorted_inv in Hs as [Hs Hx]. constructor; [by apply IH|]. destruct qs as [|y qs]; simpl.
  - constructor. unfold level_le. lia.
  - apply HdRel_inv in Hx. case_match; constructor; [unfold level_le; lia|exact Hx].
Qed.

Lemma by_level_sorted qs : Sorted level_le (by_level qs).
Proof. induction qs as [|q qs IH]; simpl; [constructor|]. by apply insert_quote_sorted. Qed.

Lemma holdFor_nonneg q n : holdFor q = Ok n -> 0 <= q_qty q -> 0 <= n.
Proof.
  unfold holdFor. destruct (q_side q); [|by intros [= <-]]. intros H _. inv_ok.
  repeat match goal with
  | H : notional _ _ = Ok _ |- _ => apply notional_Ok in H as (? & ? & -> & _)
  | H : feeAmount _ _ = Ok _ |- _ => apply feeAmount_Ok in H as (? & ? & ->) end.
  pose proof (fee_value_nonneg (notional_value (q_price q) (q_qty q)) WORST_CASE_TAKER_BPS). lia.
Qed.

Lemma hold_of_nonneg q : 0 <= q_qty q -> 0 <= hold_of q.
Proof. intros Hq. unfold hold_of. destruct (holdFor q) eqn:E; [by eapply holdFor_nonneg|lia]. Qed.

Lemma spent_nonneg side qs : Forall (fun q => 0 <= q_qty q) qs -> 0 <= spent side qs.
Proof. intros H. apply sum_if_nonneg. intros q Hq _. rewrite Forall_forall in H. by apply hold_of_nonneg, H. Qed.

Lemma spent_cons side q qs :
  spent side (q :: qs) = (if is_side side q then hold_of q else 0) + spent side qs.
Proof. done. Qed.

Lemma spent_perm side qs qs' : qs ≡ₚ qs' -> spent side qs = spent side qs'.
Proof. unfold spent. induction 1; simpl; lia. Qed.

(** Within the budget, and everything when the budget covers everything. *)
Lemma afford_spec qs base quote out :
  afford qs base quote = Ok out -> Forall (fun q => 0 <= q_qty q) qs -> 0 <= base -> 0 <= quote ->
  out `sublist_of` qs /\ spent sell out <= base /\ spent buy out <= quote /\
  (spent sell qs <= base -> spent buy qs <= quote -> out = qs).
Proof.
  revert base quote out. induction qs as [|q qs IH]; intros base quote out H Hq Hb Hu; cbn [afford] in H.
  { injection H as <-. split; [done|]. unfold spent. simpl. by repeat split. }
  apply bind_Ok in H as (cost & Hc & H). inversion_clear Hq as [|? ? Hq0 Hqs]. pose proof (holdFor_nonneg q cost Hc Hq0).
  assert (Hh : hold_of q = cost) by (unfold hold_of; by rewrite Hc).
  pose proof (spent_nonneg sell qs Hqs). pose proof (spent_nonneg buy qs Hqs).
  rewrite !spent_cons, Hh. unfold is_side. destruct (q_side q) eqn:Es; simpl.
  - destruct (Z.gtb_spec cost quote).
    + destruct (IH _ _ _ H Hqs Hb Hu) as (Hsub & ? & ? & Hall). split; [by constructor|]. split; [done|]. split; [done|]. intros ? ?. exfalso. lia.
    + inv_ok. match goal with H : afford _ _ _ = Ok ?l |- _ => destruct (IH _ _ _ H Hqs Hb ltac:(lia)) as (Hsub & ? & ? & Hall); rename l into rest end.
      split; [by constructor|]. rewrite !spent_cons. unfold is_side. rewrite Es. simpl. split; [lia|]. split; [lia|].
      intros ? ?. f_equal. apply Hall; lia.
  - destruct (Z.gtb_spec cost base).
    + destruct (IH _ _ _ H Hqs Hb Hu) as (Hsub & ? & ? & Hall). split; [by constructor|]. split; [done|]. split; [done|]. intros ? ?. exfalso. lia.
    + inv_ok. match goal with H : afford _ _ _ = Ok ?l |- _ => destruct (IH _ _ _ H Hqs ltac:(lia) Hu) as (Hsub & ? & ? & Hall); rename l into rest end.
      split; [by constructor|]. rewrite !spent_cons. unfold is_side. rewrite Es. simpl. split; [lia|]. split; [lia|].
      intros ? ?. f_equal. apply Hall; lia.
Qed.

(** ** Properties *)

(** The ladder is a ladder, and the gateway takes its quotes. On a coherent open market, whatever
    the configuration: every bid is below every ask, each level is strictly further out than
    the ones before it, no side quotes a level twice, and the order of every quote is refused
    by the gateway's validation in one case only, a purchase whose hold does not fit 64 bits. *)
Theorem ladder_sound m reference collarReference config quotes :
  market_wf m -> status m = open -> opt_nonneg collarReference ->
  ladder reference m collarReference config = Ok quotes ->
  (forall x y, x ∈ quotes -> y ∈ quotes -> apart x y) /\
  NoDup ((fun q => (q_side q, q_level q)) <$> quotes) /\
  forall q userId clientOrderId, q ∈ quotes ->
    exists v, validateOrder (quote_request m userId clientOrderId q) m collarReference = Ok v /\
      (Orders.ok v = true <-> q_side q = sell \/ reserve_value (q_price q) (q_qty q) <= MAX_U64).
Proof.
  intros Hwf Hst Hr H. destruct (decide (quotes = [])) as [->|Hne].
  { split; [by intros x y ?%not_elem_of_nil|]. split; [constructor|]. by intros q u c ?%not_elem_of_nil. }
  destruct (ladder_Ok _ _ _ _ _ H Hne) as (qty & band & Href & Hqty & Hpos & Hband & Hl).
  apply (ladder_from_spec m Hwf) in Hl as (Hq & Hap & Hnd); [|done|by intros ?..].
  split; [done|]. split; [done|]. intros q userId clientOrderId Hin. destruct (Hq q Hin) as [Hqt _].
  assert (Hlot : (lotSize m | qty)) by (rewrite Hqty; apply floorTo_divide).
  pose proof (quotable_rejects m qty band collarReference q userId clientOrderId) as Hrej.
  destruct (validateOrder_complete (quote_request m userId clientOrderId q) m collarReference) as (v & Hv & _ & Hok); [done| |done|].
  { intros p [= <-]. destruct Hqt; lia. }
  exists v. split; [done|]. rewrite Hok. split.
  - intros Hno. destruct (q_side q) eqn:Es; [right|by left]. destruct (Z.le_gt_cases (reserve_value (q_price q) (q_qty q)) MAX_U64); [done|].
    exfalso. apply (Hno NOTIONAL_OVERFLOW). destruct Hqt as (_ & _ & Eq & _). simpl. split; [lia|]. right. split; [done|]. by exists (q_price q).
  - intros Hor why Hwhy. destruct (Hrej why Hwf Hst Hr Hpos Hlot Hband Hqt Hwhy) as (_ & Es & Hov). destruct Hor; [congruence|lia].
Qed.

(** Never more than the budget, and best levels first. What is affordable is a part of the
    quotes in the order of their levels, holds no more than the budget on either side, and is
    all of them when the budget covers them all. *)
Theorem affordable_within_budget quotes base quote out :
  affordable quotes base quote = Ok out -> Forall (fun q => 0 <= q_qty q) quotes -> 0 <= base -> 0 <= quote ->
  out `sublist_of` by_level quotes /\ Sorted level_le (by_level quotes) /\ by_level quotes ≡ₚ quotes /\
  spent sell out <= base /\ spent buy out <= quote /\
  (spent sell quotes <= base -> spent buy quotes <= quote -> out = by_level quotes).
Proof.
  intros H Hq Hb Hu. assert (Hp : Forall (fun q => 0 <= q_qty q) (by_level quotes)) by by rewrite by_level_perm.
  destruct (afford_spec _ _ _ _ H Hp Hb Hu) as (? & ? & ? & Hall).
  assert (Hs : forall side, spent side (by_level quotes) = spent side quotes).
  { intros side. apply spent_perm, by_level_perm. }
  rewrite !Hs in Hall. repeat (split; [done || apply by_level_sorted || apply by_level_perm|]). done.
Qed.

(** *** Witnesses *)

Definition maker_market : Market :=
  mkMarket "devnet:SOL-USDC" devnet "SOL-USDC" "devnet:SOL" "devnet:USDC" 1000 1000000 1000 1000 open.

Definition maker_config : QuoteConfig := mkConfig 5 10 10 1000000000.

Definition maker_quotes : list Quote :=
  match ladder 150000000 maker_market (Some 150000000) maker_config with Ok qs => qs | Throw _ => [] end.

Example maker_bids : map q_price (filter (fun q => q_side q = buy) maker_quotes) =
  [149850000; 149700000; 149550000; 149400000; 149250000].
Proof. vm_compute. reflexivity. Qed.

Lemma maker_market_wf : market_wf maker_market.
Proof. split; vm_compute; done. Qed.

Lemma ladder_sound_witness :
  length maker_quotes = 10%nat /\
  (forall x y, x ∈ maker_quotes -> y ∈ maker_quotes -> apart x y) /\
  exists v, validateOrder (quote_request maker_market "mm" "mm:1" (mkQuote buy 0 149850000 1000000000)) maker_market (Some 150000000) = Ok v /\
    Orders.ok v = true.
Proof.
  split; [vm_compute; reflexivity|].
  destruct (ladder_sound maker_market 150000000 (Some 150000000) maker_config maker_quotes maker_market_wf eq_refl
              ltac:(by intros r [= <-]) ltac:(vm_compute; reflexivity)) as (Hap & _ & Hv).
  split; [exact Hap|]. destruct (Hv (mkQuote buy 0 149850000 1000000000) "mm" "mm:1") as (v & E & Hok).
  - apply (bool_decide_unpack _). vm_compute. reflexivity.
  - exists v. split; [exact E|]. apply Hok. right. vm_compute. discriminate.
Defined.
