(* ===== verification/Walk.v ===== *)
(** * Where the market maker quotes around

    [apps/api/src/services/market-maker/reference-price.ts]: the deterministic walk, with
    the 32-bit arithmetic of its hash, and the reading of an exchange's last trade. The
    clock and the exchange's answer are parameters; an observation is its price, its time
    and its generation. *)

From S2P Require Import Prelude Decimal Assets.
From Stdlib Require Import ZArith Lia Ascii.
From stdpp Require Import base list strings pretty.

Open Scope string_scope.
Open Scope list_scope.
Open Scope Z_scope.

(** ** Numbers as the 32-bit operators read them *)

(** [x >>> 0] and the signed reading of an operand. *)
Definition u32 (x : Z) : Z := x mod 2 ^ 32.
Definition i32 (x : Z) : Z := let m := u32 x in if m <? 2 ^ 31 then m else m - 2 ^ 32.

(** [x ^ y], [x >>> n] and [Math.imul(x, y)] *)
Definition xor32 (x y : Z) : Z := i32 (Z.lxor (u32 x) (u32 y)).
Definition shr32 (x n : Z) : Z := Z.shiftr (u32 x) n.
Definition imul (x y : Z) : Z := i32 (u32 x * u32 y).

(** ** The walk *)

(** A 32-bit mix of three integers. *)
Definition hash (seed symbol n : Z) : Z :=
  let h := u32 (xor32 (xor32 seed (imul symbol 0x9e3779b1)) (imul n 0x85ebca6b)) in
  let h := u32 (imul (xor32 h (shr32 h 16)) 0x7feb352d) in
  let h := u32 (imul (xor32 h (shr32 h 15)) 0x846ca68b) in
  u32 (xor32 h (shr32 h 16)).

Definition symbolId (symbol : string) : Z :=
  fold_left (fun id c => u32 (imul id 31 + code c)) (text_of symbol) 0.

Definition UNIT : Z := 1000000.

(** A lattice value in [[-UNIT, UNIT]]. *)
Definition lattice (seed octave id c : Z) : Z := Z.rem (hash (seed + octave) id c) 2000001 - UNIT.

(** One octave at step [n]: the lattice interpolated over its period. *)
Definition octave_at (seed id n octave period : Z) : Z :=
  let cell := n / period in
  let within := n - cell * period in
  let a := lattice seed octave id cell in
  let b := lattice seed octave id (cell + 1) in
  a + Z.quot ((b - a) * within) period.

(** The octaves, with their periods and shares. *)
Definition OCTAVES : list (Z * Z * Z) := [(1, 240, 6); (2, 40, 3); (3, 6, 1)].

Definition walkOffset (seed : Z) (symbol : string) (n : Z) : Z :=
  let id := symbolId symbol in
  let '(total, weight) :=
    fold_left (fun tw o => let '(octave, period, share) := o in
                 (tw.1 + share * octave_at seed id n octave period, tw.2 + share)) OCTAVES (0, 0) in
  Z.quot total weight.

Record ReferencePrice := mkReferencePrice { rp_price : Z; rp_observedAt : Z; rp_generation : string }.

Record ReferenceMarket := mkReferenceMarket {
  rm_symbol : string; rm_tickSize : Z; rm_baseDecimals : Z; rm_quoteDecimals : Z
}.

Record RandomWalkOptions := mkWalk {
  ws_seed : Z; ws_start : list (string * Z); ws_bandBps : option Z; ws_stepMs : Z
}.

(** [createRandomWalkSource]: a band outside (0, 10000) is refused. *)
Definition walk_band (options : RandomWalkOptions) : result Z :=
  let band := default 300 (ws_bandBps options) in
  _ ← throw_if ((band <=? 0) || (band >=? 10000)) RangeError; Ok band.

(** The source's price at a time of its clock. *)
Definition walk_price (options : RandomWalkOptions) (band now : Z) (market : ReferenceMarket) : option ReferencePrice :=
  match jget (rm_symbol market) (ws_start options) with
  | None => None
  | Some start =>
      if start <=? 0 then None else
      let n := now / ws_stepMs options in
      let offset := walkOffset (ws_seed options) (rm_symbol market) n in
      let raw := start + Z.quot (start * band * offset) (10000 * UNIT) in
      let ticks := Z.quot raw (rm_tickSize market) in
      Some (mkReferencePrice ((if ticks <? 1 then 1 else ticks) * rm_tickSize market)
              (n * ws_stepMs options) ("rw:" +:+ pretty n))
  end.

(** ** An exchange's last trade *)

(** A trade of the answer, once its schema has accepted it. *)
Record ExchangeTrade := mkExchangeTrade { xt_id : Z; xt_price : text; xt_time : Z }.

(** [const [whole = '0', fraction = ''] = price.split('.')]: the parts before the first and the
    second dot. *)
Definition split_price (price : text) : text * text :=
  let not_dot c := negb (bool_decide (c = dot_char)) in
  let (whole, rest) := span not_dot price in
  match rest with [] => (whole, []) | _ :: rest => (whole, (span not_dot rest).1) end.

Definition exchange_price (symbols : list (string * string)) (market : ReferenceMarket)
  (answer : string -> option (list ExchangeTrade)) : result (option ReferencePrice) :=
  match jget (rm_symbol market) symbols with
  | None => Ok None
  | Some ticker =>
      match answer ticker with
      | None => Ok None
      | Some trades =>
          match last trades with
          | None => Ok None
          | Some trade =>
              decimals ← priceDecimals (rm_baseDecimals market) (rm_quoteDecimals market);
              let '(whole, fraction) := split_price (xt_price trade) in
              let kept := take (Z.to_nat decimals) fraction in
              scaled ← parseDecimal (whole ++ dot_char :: (match kept with [] => [zero_char] | _ => kept end)) decimals;
              match scaled with
              | parsed value =>
                  if value <=? 0 then Ok None else
                  let ticks := Z.quot value (rm_tickSize market) in
                  if ticks <? 1 then Ok None else
                  Ok (Some (mkReferencePrice (ticks * rm_tickSize market) (xt_time trade) ("bn:" +:+ pretty (xt_id trade))))
              | _ => Ok None
              end
          end
      end
  end.

(** ** Lemmas *)

Lemma u32_range x : 0 <= u32 x < 2 ^ 32.
Proof. apply Z.mod_pos_bound. lia. Qed.

Lemma lattice_range seed octave id c : - UNIT <= lattice seed octave id c <= UNIT.
Proof.
  unfold lattice, hash, UNIT. set (h := u32 _).
  assert (0 <= Z.rem h 2000001 < 2000001); [|lia]. apply Z.rem_bound_pos; [apply u32_range|lia].
Qed.

(** Interpolating between two values stays between them. *)
Lemma interpolate_between a b w p :
  0 <= w < p -> Z.min a b <= a + Z.quot ((b - a) * w) p <= Z.max a b.
Proof.
  intros Hw. destruct (Z.le_ge_cases a b).
  - rewrite Z.quot_div_nonneg by nia. pose proof (Z.div_pos ((b - a) * w) p ltac:(nia) ltac:(lia)).
    assert ((b - a) * w / p <= b - a) by (apply Z.div_le_upper_bound; nia). lia.
  - replace ((b - a) * w) with (- ((a - b) * w)) by lia. rewrite Z.quot_opp_l, Z.quot_div_nonneg by nia.
    pose proof (Z.div_pos ((a - b) * w) p ltac:(nia) ltac:(lia)).
    assert ((a - b) * w / p <= a - b) by (apply Z.div_le_upper_bound; nia). lia.
Qed.

Lemma octave_range seed id n octave period : 0 < period -> - UNIT <= octave_at seed id n octave period <= UNIT.
Proof.
  intros Hp. unfold octave_at.
  pose proof (lattice_range seed octave id (n / period)). pose proof (lattice_range seed octave id (n / period + 1)).
  pose proof (interpolate_between (lattice seed octave id (n / period)) (lattice seed octave id (n / period + 1))
                (n - n / period * period) period) as Hi.
  assert (0 <= n - n / period * period < period); [|lia].
  pose proof (Z.mod_pos_bound n period Hp). rewrite (Z.mod_eq n period) in * by lia. lia.
Qed.

(** A truncated quotient of something within a bound is within the bound's quotient. *)
Lemma quot_within x b d : 0 < d -> - b <= x <= b -> - Z.quot b d <= Z.quot x d <= Z.quot b d.
Proof.
  intros Hd Hx. rewrite <- Z.quot_opp_l by lia. split; apply Z.quot_le_mono; lia.
Qed.

Lemma walkOffset_range seed symbol n : - UNIT <= walkOffset seed symbol n <= UNIT.
Proof.
  unfold walkOffset. cbn [fold_left OCTAVES fst snd]. set (id := symbolId symbol).
  pose proof (octave_range seed id n 1 240 ltac:(lia)). pose proof (octave_range seed id n 2 40 ltac:(lia)).
  pose proof (octave_range seed id n 3 6 ltac:(lia)).
  apply (quot_within _ (10 * UNIT) 10); unfold UNIT in *; lia.
Qed.

(** The bounds, on the price the walk computes. *)
Lemma walk_bounds options band now market start p :
  walk_band options = Ok band -> 0 < rm_tickSize market -> 0 < ws_stepMs options ->
  jget (rm_symbol market) (ws_start options) = Some start ->
  walk_price options band now market = Some p ->
  0 < start /\ (rm_tickSize market | rp_price p) /\ rm_tickSize market <= rp_price p /\
  start - start * band / 10000 - rm_tickSize market < rp_price p /\
  (rm_tickSize market <= start - start * band / 10000 -> rp_price p <= start + start * band / 10000).
Proof.
  intros Hb Ht Hs Hst Hp.
  unfold walk_band, walk_price in *. inv_ok. zbool.
  match goal with H : (_ >=? _) = false |- _ => rewrite Z.geb_leb in H; apply Z.leb_gt in H end.
  set (band := default 300 (ws_bandBps options)) in *. rewrite Hst in Hp.
  destruct (Z.leb_spec start 0); [done|]. split; [done|].
  pose proof (walkOffset_range (ws_seed options) (rm_symbol market) (now / ws_stepMs options)) as Ho.
  set (o := walkOffset _ _ _) in *. set (t := rm_tickSize market) in *.
  assert (Hq : - (start * band / 10000) <= Z.quot (start * band * o) (10000 * UNIT) <= start * band / 10000).
  { rewrite <- (Z.quot_div_nonneg (start * band)) by nia. rewrite <- (Z.quot_mul_cancel_r (start * band) 10000 UNIT) by done.
    apply quot_within; [done|]. assert (0 < start * band) as HD by (clearbody band; nia).
    generalize dependent (start * band). clear -Ho. unfold UNIT in *. intros D HD. clearbody o. nia. }
  assert (Hk : start * band / 10000 < start) by (apply Z.div_lt_upper_bound; nia).
  set (k := start * band / 10000) in *. set (raw := start + Z.quot _ _) in *.
  assert (Hraw : start - k <= raw <= start + k) by (unfold raw; lia). clearbody raw k.
  injection Hp as <-. cbn [rp_price]. set (ticks := Z.quot raw t).
  assert (Hticks : ticks * t <= raw < ticks * t + t).
  { unfold ticks. rewrite Z.quot_div_nonneg by lia. pose proof (Z.mul_div_le raw t Ht). pose proof (Z.mul_succ_div_gt raw t Ht). lia. }
  clearbody ticks t. destruct (Z.ltb_spec ticks 1).
  - assert (ticks <= 0) by lia. assert (raw < t) by nia.
    split; [apply Z.divide_mul_r, Z.divide_refl|]. split; [lia|]. split; [lia|]. lia.
  - split; [apply Z.divide_mul_r, Z.divide_refl|]. split; [nia|]. split; [lia|]. lia.
Qed.

(** ** Properties *)

(** The walk stays in its band. Whatever the seed, the symbol and the time, a price it gives is on
    a tick and at least one tick, is above the bottom of the band around the start by less than
    a tick's rounding and never above its top unless the band lies under one tick; and asking
    again within the same step gives the same price and generation. *)
Theorem walk_in_band options band now market start p :
  walk_band options = Ok band -> 0 < rm_tickSize market -> 0 < ws_stepMs options ->
  jget (rm_symbol market) (ws_start options) = Some start ->
  walk_price options band now market = Some p ->
  0 < start /\ (rm_tickSize market | rp_price p) /\ rm_tickSize market <= rp_price p /\
  start - start * band / 10000 - rm_tickSize market < rp_price p /\
  (rm_tickSize market <= start - start * band / 10000 -> rp_price p <= start + start * band / 10000) /\
  forall now', (now / ws_stepMs options = now' / ws_stepMs options)%Z -> walk_price options band now' market = Some p.
Proof.
  intros Hb Ht Hs Hst Hp. destruct (walk_bounds _ _ _ _ _ _ Hb Ht Hs Hst Hp) as (? & ? & ? & ? & ?).
  repeat (split; [done|]). intros now' E. unfold walk_price in *. by rewrite <- E.
Qed.

(** *** A walk of the code's test *)

Definition demo_walk : RandomWalkOptions := mkWalk 7 [("SOL-USDC", 150000000)] None 1000.
Definition demo_reference_market : ReferenceMarket := mkReferenceMarket "SOL-USDC" 1000 9 6.

Definition demo_walk_price : ReferencePrice :=
  default (mkReferencePrice 0 0 "") (walk_price demo_walk 300 1700000000000 demo_reference_market).

Lemma walk_in_band_witness :
  145500000 - 1000 < rp_price demo_walk_price <= 154500000 /\ (1000 | rp_price demo_walk_price) /\
  walk_price demo_walk 300 1700000000999 demo_reference_market = Some demo_walk_price.
Proof.
  destruct (walk_in_band demo_walk 300 1700000000000 demo_reference_market 150000000 demo_walk_price eq_refl eq_refl eq_refl
              eq_refl ltac:(vm_compute; reflexivity)) as (_ & Hd & _ & Hlo & Hhi & Hsame).
  split; [split; [exact Hlo|exact (Hhi ltac:(vm_compute; discriminate))]|]. split; [exact Hd|]. apply Hsame. reflexivity.
Defined.
