(* ===== verification/Registry.v ===== *)
(** * The market registry

    [apps/api/src/services/trading/markets.ts]: the configured markets, made coherent at
    start, and the answer to whether a market may be routed to, which is what its engine
    last said of itself, for as long as the cache keeps it. What an engine answers and when
    is an argument. Logging is not modelled. *)

From S2P Require Import Prelude Decimal Assets Price Market.
From Stdlib Require Import ZArith Lia.
From stdpp Require Import base list strings.

Open Scope string_scope.
Open Scope list_scope.
Open Scope Z_scope.

(** ** Data *)

(** The engine of an entry is an argument of what asks it. *)
Record MarketEntry := mkEntry {
  me_symbol : string;
  me_market : Market;
  me_baseSymbol : string;
  me_quoteSymbol : string;
  me_baseDecimals : Z;
  me_quoteDecimals : Z
}.

Inductive Unroutable := unknown_market | engine_unreachable | engine_disagrees.

Inductive Routability := route_ok (market : Market) | route_no (reason : Unroutable).

(** [EngineHealth], what [check] reads of it. *)
Record EngineHealth := mkHealth {
  h_market : string;
  h_status : MarketStatus;
  h_tickSize : Z;
  h_lotSize : Z;
  h_minNotional : Z;
  h_collarBps : Z
}.

(** One of the configured [markets]. *)
Record ConfiguredMarket := mkConfigured {
  cm_symbol : string;
  cm_tickSize : text;
  cm_lotSize : text;
  cm_minNotional : text;
  cm_collarBps : Z
}.

(** ** Construction *)

Definition symbol_keys (assets : AssetRegistry) (symbol : string) : list string :=
  filter (fun k => symbolOf assets k = symbol) (keys assets).

Definition assetBySymbol (assets : AssetRegistry) (symbol : string) : result string :=
  match symbol_keys assets symbol with
  | [] => Throw (GenericError "market asset is not allowlisted")
  | [k] => Ok k
  | _ => Throw (GenericError "market asset is ambiguous")
  end.

Definition registry_entry (cluster : Cluster) (assets : AssetRegistry) (engines : list string)
    (definition : ConfiguredMarket) : result MarketEntry :=
  let parts := split_on (chr 45) (cm_symbol definition) in
  let base := default "" (parts !! 0%nat) in
  let quote := default "" (parts !! 1%nat) in
  baseAsset ← assetBySymbol assets base;
  quoteAsset ← assetBySymbol assets quote;
  _ ← throw_if (negb (bool_decide (cm_symbol definition ∈ engines))) (GenericError "no engine configured");
  market ← createMarket (mkMarketDefinition cluster (cm_symbol definition) baseAsset quoteAsset
             (cm_tickSize definition) (cm_lotSize definition) (cm_minNotional definition)
             (cm_collarBps definition) (Some pre_open));
  Ok (mkEntry (cm_symbol definition) market base quote (decimalsOf assets baseAsset) (decimalsOf assets quoteAsset)).

(** [entries] of [createMarketRegistry]. *)
Definition registry_entries (cluster : Cluster) (assets : AssetRegistry) (engines : list string)
    (markets : list ConfiguredMarket) : result (list MarketEntry) :=
  map_result (registry_entry cluster assets engines) markets.

(** [new Map(entries.map((entry) => [entry.symbol, entry]))]: of two entries of one symbol the last. *)
Definition bySymbol (entries : list MarketEntry) : list (string * MarketEntry) :=
  fold_left (fun m e => jset (me_symbol e) e m) entries [].

(** [markets.get(symbol)] *)
Definition market_get (entries : list MarketEntry) (symbol : string) : option MarketEntry :=
  jget symbol (bySymbol entries).

(** ** Routability *)

(** [disagreements] *)
Definition disagreements (entry : MarketEntry) (health : EngineHealth) : list string :=
  let m := me_market entry in
  (if negb (bool_decide (h_market health = Market.id m)) then ["market"] else []) ++
  (if negb (h_tickSize health =? tickSize m) then ["tick_size"] else []) ++
  (if negb (h_lotSize health =? lotSize m) then ["lot_size"] else []) ++
  (if negb (h_minNotional health =? minNotional m) then ["min_notional"] else []) ++
  (if negb (h_collarBps health =? collarBps m) then ["collar_bps"] else []).

(** [{ ...entry.market, status: health.status }] *)
Definition with_status (m : Market) (s : MarketStatus) : Market :=
  mkMarket (Market.id m) (Market.cluster m) (market_symbol m) (baseAsset m) (quoteAsset m)
    (tickSize m) (lotSize m) (minNotional m) (collarBps m) s.

Definition check (entry : MarketEntry) (health : option EngineHealth) : Routability :=
  match health with
  | None => route_no engine_unreachable
  | Some health =>
      if (0 <? length (disagreements entry health))%nat then route_no engine_disagrees
      else route_ok (with_status (me_market entry) (h_status health))
  end.

Record Cached := mkCached { ca_at : Z; ca_result : Routability }.

Definition RouteCache : Type := list (string * Cached).

(** [routable]: the clock when it is called, and, should the engine be asked, what it answers
    and the clock when it has. *)
Definition routable (entries : list MarketEntry) (ttl : Z) (symbol : string)
    (calledAt : Z) (health : option EngineHealth) (answeredAt : Z) (cache : RouteCache) : Routability * RouteCache :=
  match market_get entries symbol with
  | None => (route_no unknown_market, cache)
  | Some entry =>
      let asked := let result := check entry health in (result, jset symbol (mkCached answeredAt result) cache) in
      match jget symbol cache with
      | Some cached => if calledAt - ca_at cached <? ttl then (ca_result cached, cache) else asked
      | None => asked
      end
  end.

(** [verifyAll], one answer and clock reading for each entry. *)
Fixpoint verifyAll (entries : list MarketEntry) (answers : list (option EngineHealth * Z)) (cache : RouteCache) : RouteCache :=
  match entries, answers with
  | entry :: entries, (health, answeredAt) :: answers =>
      verifyAll entries answers (jset (me_symbol entry) (mkCached answeredAt (check entry health)) cache)
  | _, _ => cache
  end.

(** [wireAsset] *)
Definition wireAsset (assetKey : string) : string :=
  match parseLedgerAssetKey assetKey with
  | Ok (_, asset) => asset
  | Throw _ => assetKey
  end.

(** ** A history of calls *)

Inductive Call :=
| c_routable (symbol : string) (calledAt : Z) (health : option EngineHealth) (answeredAt : Z)
| c_verifyAll (answers : list (option EngineHealth * Z)).

Definition perform (entries : list MarketEntry) (ttl : Z) (cache : RouteCache) (call : Call) : RouteCache :=
  match call with
  | c_routable symbol calledAt health answeredAt => (routable entries ttl symbol calledAt health answeredAt cache).2
  | c_verifyAll answers => verifyAll entries answers cache
  end.

(** What an entry's engine was heard to answer in a call, and when, should it be asked. *)
Definition heard (entries : list MarketEntry) (entry : MarketEntry) (call : Call) (health : option EngineHealth) (at_ : Z) : Prop :=
  match call with
  | c_routable symbol _ h t => market_get entries symbol = Some entry /\ h = health /\ t = at_
  | c_verifyAll answers => (entry, (health, at_)) ∈ zip entries answers
  end.

(** ** Lemmas *)

Lemma bySymbol_get entries symbol entry :
  market_get entries symbol = Some entry -> entry ∈ entries /\ me_symbol entry = symbol.
Proof.
  unfold market_get, bySymbol. assert (forall m, jget symbol (fold_left (fun m e => jset (me_symbol e) e m) entries m) = Some entry ->
    jget symbol m = Some entry \/ entry ∈ entries /\ me_symbol entry = symbol) as H.
  { induction entries as [|e entries IH]; intros m Hm; simpl in *; [by left|].
    destruct (IH _ Hm) as [Hj|[? ?]]; [|right; split; [by right|done]].
    destruct (decide (symbol = me_symbol e)) as [->|Hne].
    - rewrite jget_jset_eq in Hj. injection Hj as ->. right. by split; [left|].
    - rewrite jget_jset_ne in Hj by auto. by left. }
  intros Hm. destruct (H [] Hm) as [Hj|]; [done|done].
Qed.

Lemma disagreements_nil entry health :
  disagreements entry health = [] <->
  h_market health = Market.id (me_market entry) /\ h_tickSize health = tickSize (me_market entry) /\
  h_lotSize health = lotSize (me_market entry) /\ h_minNotional health = minNotional (me_market entry) /\
  h_collarBps health = collarBps (me_market entry).
Proof.
  unfold disagreements. destruct (bool_decide_reflect (h_market health = Market.id (me_market entry)));
  destruct (Z.eqb_spec (h_tickSize health) (tickSize (me_market entry)));
  destruct (Z.eqb_spec (h_lotSize health) (lotSize (me_market entry)));
  destruct (Z.eqb_spec (h_minNotional health) (minNotional (me_market entry)));
  destruct (Z.eqb_spec (h_collarBps health) (collarBps (me_market entry))); simpl; naive_solver.
Qed.

(** Every cached answer was given by the check of an entry against what was heard. *)
Definition cache_heard (entries : list MarketEntry) (calls : list Call) (cache : RouteCache) : Prop :=
  forall symbol cached, jget symbol cache = Some cached ->
    exists entry health call, entry ∈ entries /\ me_symbol entry = symbol /\ call ∈ calls /\
      heard entries entry call health (ca_at cached) /\ ca_result cached = check entry health.

Lemma cache_heard_weaken entries calls call cache :
  cache_heard entries calls cache -> cache_heard entries (calls ++ [call]) cache.
Proof.
  intros H symbol cached Hj. destruct (H _ _ Hj) as (e & h & c & ? & ? & ? & ?).
  exists e, h, c. rewrite elem_of_app. auto.
Qed.

Lemma cache_heard_set entries calls call cache entry health at_ :
  cache_heard entries calls cache -> entry ∈ entries -> call ∈ calls -> heard entries entry call health at_ ->
  cache_heard entries calls (jset (me_symbol entry) (mkCached at_ (check entry health)) cache).
Proof.
  intros Hc Hin Hcall Hh symbol cached Hj. destruct (decide (me_symbol entry = symbol)) as [<-|Hne].
  - rewrite jget_jset_eq in Hj. injection Hj as <-. by exists entry, health, call.
  - rewrite jget_jset_ne in Hj by auto. by apply Hc.
Qed.

Lemma routable_cache entries ttl symbol calledAt health answeredAt cache :
  (routable entries ttl symbol calledAt health answeredAt cache).2 = cache \/
  exists entry, market_get entries symbol = Some entry /\
    (routable entries ttl symbol calledAt health answeredAt cache).1 = check entry health /\
    (routable entries ttl symbol calledAt health answeredAt cache).2 = jset symbol (mkCached answeredAt (check entry health)) cache.
Proof.
  unfold routable. destruct (market_get entries symbol) as [entry|] eqn:Em; [|by left].
  destruct (jget symbol cache) as [cached|]; [|by right; exists entry]. case_match; [by left|by right; exists entry].
Qed.

Lemma verifyAll_heard entries calls (es : list MarketEntry) answers answers0 cache :
  c_verifyAll answers0 ∈ calls -> (forall e, e ∈ es -> e ∈ entries) -> (forall p, p ∈ zip es answers -> p ∈ zip entries answers0) ->
  cache_heard entries calls cache -> cache_heard entries calls (verifyAll es answers cache).
Proof.
  intros Hc. revert answers cache. induction es as [|e es IH]; intros [|[h t] answers] cache He Hz H; simpl; try done.
  apply IH; [intros; apply He; by right|intros; apply Hz; by right|].
  eapply cache_heard_set; [done|apply He; by left|exact Hc|]. simpl. apply Hz. by left.
Qed.

Lemma perform_heard entries ttl calls call cache :
  cache_heard entries calls cache -> cache_heard entries (calls ++ [call]) (perform entries ttl cache call).
Proof.
  intros H%(cache_heard_weaken _ _ call). destruct call as [symbol calledAt health answeredAt|answers]; simpl.
  - destruct (routable_cache entries ttl symbol calledAt health answeredAt cache) as [-> |(e & Em & _ & ->)]; [done|].
    apply bySymbol_get in Em as Hin. destruct Hin as [Hin Hs]. subst symbol.
    eapply cache_heard_set; [done|done|apply elem_of_app; right; by left|done].
  - eapply verifyAll_heard; [apply elem_of_app; right; by left|done|done|done].
Qed.

Lemma performed_heard entries ttl calls : cache_heard entries calls (fold_left (perform entries ttl) calls []).
Proof.
  induction calls as [|call calls IH] using rev_ind; [by intros ? ?|]. rewrite fold_left_app. simpl. by apply perform_heard.
Qed.

Lemma check_ok entry health m :
  check entry health = route_ok m -> exists h, health = Some h /\ disagreements entry h = [] /\ m = with_status (me_market entry) (h_status h).
Proof.
  unfold check. destruct health as [h|]; [|done]. destruct (disagreements entry h) eqn:E; [|done].
  intros [= <-]. by exists h.
Qed.

Lemma createMarket_fields d m :
  createMarket d = Ok m -> baseAsset m = def_baseAsset d /\ quoteAsset m = def_quoteAsset d /\ market_symbol m = def_symbol d.
Proof. unfold createMarket. intros H. by inv_ok. Qed.

Lemma assetBySymbol_Ok assets symbol k :
  assetBySymbol assets symbol = Ok k <-> symbol_keys assets symbol = [k].
Proof. unfold assetBySymbol. destruct (symbol_keys assets symbol) as [|? [|? ?]]; naive_solver. Qed.

(** ** Properties *)

(** A market is routed on its engine's own word. Whatever was asked of the registry and
    answered by the engines before, a market that is handed out for trading is a configured
    one with the status its engine gave, its engine gave exactly the configured tick, lot,
    minimum notional, collar and market id, and it did so in this call or less than the time
    to live before it. *)
Theorem routed_on_the_engines_word entries ttl calls symbol calledAt health answeredAt m :
  let this := c_routable symbol calledAt health answeredAt in
  (routable entries ttl symbol calledAt health answeredAt (fold_left (perform entries ttl) calls [])).1 = route_ok m ->
  exists entry h at_ call,
    entry ∈ entries /\ me_symbol entry = symbol /\ m = with_status (me_market entry) (h_status h) /\
    h_market h = Market.id (me_market entry) /\ h_tickSize h = tickSize (me_market entry) /\
    h_lotSize h = lotSize (me_market entry) /\ h_minNotional h = minNotional (me_market entry) /\
    h_collarBps h = collarBps (me_market entry) /\
    heard entries entry call (Some h) at_ /\ (call = this \/ call ∈ calls /\ calledAt - at_ < ttl).
Proof.
  intros this H. pose proof (performed_heard entries ttl calls) as Hc. set (cache := fold_left _ _ _) in *.
  unfold routable in H. destruct (market_get entries symbol) as [entry|] eqn:Em; [|done].
  apply bySymbol_get in Em as Hin. destruct Hin as [Hin Hs].
  assert (Hnow : check entry health = route_ok m -> exists entry h at_ call,
    entry ∈ entries /\ me_symbol entry = symbol /\ m = with_status (me_market entry) (h_status h) /\
    disagreements entry h = [] /\ heard entries entry call (Some h) at_ /\ (call = this \/ call ∈ calls /\ calledAt - at_ < ttl)).
  { intros (h & -> & Hd & ->)%check_ok. exists entry, h, answeredAt, this. by repeat (split; [done|]); left. }
  assert (Hall : exists entry h at_ call,
    entry ∈ entries /\ me_symbol entry = symbol /\ m = with_status (me_market entry) (h_status h) /\
    disagreements entry h = [] /\ heard entries entry call (Some h) at_ /\ (call = this \/ call ∈ calls /\ calledAt - at_ < ttl)).
  { destruct (jget symbol cache) as [cached|] eqn:Ec; [|by apply Hnow]. destruct (Z.ltb_spec (calledAt - ca_at cached) ttl); [|by apply Hnow].
    simpl in H. destruct (Hc _ _ Ec) as (e & health' & call & ? & ? & ? & Hh & Er). rewrite H in Er. symmetry in Er.
    apply check_ok in Er as (h & -> & Hd & ->). exists e, h, (ca_at cached), call. repeat (split; [done|]). by right. }
  destruct Hall as (e & h & t & call & ? & ? & ? & Hd & ? & ?). apply disagreements_nil in Hd as (? & ? & ? & ? & ?).
  exists e, h, t, call. by repeat (split; [done|]).
Qed.

(** C29: A registry is made of coherent markets over assets it can custody, or not at all. Every entry
    of a registry that was built is a configured market, well formed and not yet trading. Its
    name's first part, before the dash, is the symbol of its base asset and the second, after
    it, of its quote asset; each of the two is listed, and is the only one listed under its
    symbol; its decimals are theirs, and an engine is configured for it. *)
Theorem registry_coherent cluster assets engines markets entries entry :
  registry_entries cluster assets engines markets = Ok entries -> entry ∈ entries ->
  market_wf (me_market entry) /\ status (me_market entry) = pre_open /\ market_symbol (me_market entry) = me_symbol entry /\
  me_symbol entry ∈ map cm_symbol markets /\
  me_baseSymbol entry = default "" (split_on (chr 45) (me_symbol entry) !! 0%nat) /\
  me_quoteSymbol entry = default "" (split_on (chr 45) (me_symbol entry) !! 1%nat) /\
  symbol_keys assets (me_baseSymbol entry) = [baseAsset (me_market entry)] /\
  symbol_keys assets (me_quoteSymbol entry) = [quoteAsset (me_market entry)] /\
  me_baseDecimals entry = decimalsOf assets (baseAsset (me_market entry)) /\
  me_quoteDecimals entry = decimalsOf assets (quoteAsset (me_market entry)) /\ me_symbol entry ∈ engines.
Proof.
  intros H Hin. destruct (proj1 (map_result_elem _ _ _ _ H) Hin) as (d & Hc & Hd). unfold registry_entry in Hd. inv_ok.
  match goal with H : createMarket _ = Ok ?m |- _ => destruct (createMarket_coherent _ _ H) as (Hwf & _ & _ & Hst);
    pose proof (createMarket_fields _ _ H) as (Hb & Hq & Hsym) end.
  repeat match goal with H : assetBySymbol _ _ = Ok _ |- _ => apply assetBySymbol_Ok in H end. simpl in *.
  rewrite Hb, Hq, Hsym. zbool. specialize (Hst _ eq_refl). split; [exact Hwf|]. split_and!; try done. by apply list_elem_of_fmap_2.
Qed.

(** ** Witnesses *)

Definition demo_assets : AssetRegistry :=
  match createAssetRegistry devnet 9 [mkTokenAsset "USDC" "USDCmint" 6] with
  | Ok r => r
  | Throw _ => mkAssetRegistry devnet "" [] [] [] 0
  end.

Definition demo_configured : ConfiguredMarket :=
  mkConfigured "SOL-USDC" (text_of "1000") (text_of "10000000") (text_of "1000000") 1000.

Definition demo_entries : list MarketEntry :=
  match registry_entries devnet demo_assets ["SOL-USDC"] [demo_configured] with Ok es => es | Throw _ => [] end.

Definition demo_health (s : MarketStatus) : EngineHealth := mkHealth "devnet:SOL-USDC" s 1000 10000000 1000000 1000.

Lemma registry_coherent_witness :
  exists entry, demo_entries = [entry] /\ market_wf (me_market entry) /\ me_baseSymbol entry = "SOL" /\
    me_quoteSymbol entry = "USDC" /\ me_baseDecimals entry = 9 /\ me_quoteDecimals entry = 6.
Proof.
  destruct (registry_entries devnet demo_assets ["SOL-USDC"] [demo_configured]) as [es|] eqn:E; [|vm_compute in E; discriminate].
  assert (Hes : es = demo_entries) by (unfold demo_entries; by rewrite E). vm_compute in Hes. destruct es as [|entry [|]]; try discriminate.
  exists entry. split; [rewrite Hes; vm_compute; reflexivity|].
  destruct (registry_coherent devnet demo_assets ["SOL-USDC"] [demo_configured] [entry] entry E ltac:(by left)) as (Hwf & _ & _ & _ & Hb & Hq & _).
  split; [exact Hwf|]. rewrite Hb, Hq. injection Hes as ->. repeat split.
Defined.

(** The engine opened, was asked, halted, and is still routed from the cache a second later;
    after the time to live its halt is seen. *)
Definition opened_then_halted : list Call := [c_routable "SOL-USDC" 1000 (Some (demo_health open)) 1010].

Lemma routed_on_the_engines_word_witness :
  (exists m, (routable demo_entries 2000 "SOL-USDC" 2000 (Some (demo_health halted)) 2010
     (fold_left (perform demo_entries 2000) opened_then_halted [])).1 = route_ok m /\ status m = open /\
     exists entry h at_ call, entry ∈ demo_entries /\ heard demo_entries entry call (Some h) at_ /\ status m = h_status h) /\
  exists m, (routable demo_entries 2000 "SOL-USDC" 3500 (Some (demo_health halted)) 3510
     (fold_left (perform demo_entries 2000) opened_then_halted [])).1 = route_ok m /\ status m = halted.
Proof.
  split; [eexists; split; [vm_compute; reflexivity|split; [reflexivity|]]|eexists; split; [vm_compute; reflexivity|reflexivity]].
  destruct (routed_on_the_engines_word demo_entries 2000 opened_then_halted "SOL-USDC" 2000 (Some (demo_health halted)) 2010 _
    ltac:(vm_compute; reflexivity)) as (entry & h & at_ & call & Hin & _ & -> & _ & _ & _ & _ & _ & Hh & _).
  exists entry, h, at_, call. split; [exact Hin|]. split; [exact Hh|reflexivity].
Defined.
