(* ===== verification/Maker.v ===== *)
(** * The market maker

    [apps/api/src/services/market-maker/market-maker.ts]: a user that quotes a ladder
    through the order service and through nothing else. The order service is the interface
    [Desk]; that [Gateway] implements it is proved here. What the maker asks of the outside
    (whether fills settle, the engine's market and book, the reference price, the clock) is
    the class [Surroundings], during whose answers the other actors may act. Logging, metrics
    and the timer are not modelled. *)

From S2P Require Import Prelude Risk Decimal Assets Price Market Orders Ledger Postings States Store Events Settlement Books Gateway.
From S2P Require Import Strategy Walk Registry.
From Stdlib Require Import ZArith Lia.
From stdpp Require Import base list strings gmap pretty.

Open Scope string_scope.
Open Scope list_scope.
Open Scope Z_scope.

(** ** [order.repository.ts] and [order.service.ts]: a page of orders *)

(** [orderBy: [{ createdAt: 'desc' }, { id: 'desc' }]] *)
Definition newer (x y : OrderRecord) : bool :=
  (o_createdAt y <? o_createdAt x) || ((o_createdAt y =? o_createdAt x) && String.ltb (o_id y) (o_id x)).

Fixpoint insert_newest (o : OrderRecord) (sorted : list OrderRecord) : list OrderRecord :=
  match sorted with
  | [] => [o]
  | x :: sorted => if newer o x then o :: x :: sorted else x :: insert_newest o sorted
  end.

(** [pageForUser], open orders of a market only and without a cursor, as the maker asks. *)
Definition pageForUser (userId market : string) (limit : nat) : tx (list OrderRecord) :=
  read (fun s => take limit (foldr insert_newest [] (open_rows userId market s))).

(** ** The maker's surroundings *)

Inductive SettlementState := live | delayed | settlement_halted | disabled.

#[export] Instance SettlementState_eq_dec : EqDecision SettlementState.
Proof. solve_decision. Defined.

(** The order service: its two calls, on a market's entry. *)
Class Desk := {
  desk_place : MarketEntry -> PlaceInput -> svc OrderRecord;
  desk_cancel : string -> string -> svc OrderRecord
}.

(** What is asked of the outside: the state of settlement, the market as its engine has it, the
    reference price, the engine's book, and the clock. *)
Class Surroundings := {
  settlementState : string -> svc SettlementState;
  market_routable : string -> svc Routability;
  source_price : ReferenceMarket -> svc (option ReferencePrice);
  engine_book : string -> svc (option (option Z));
  clock_now : svc Z
}.

(** Where a ladder was anchored, and the generation of that price. *)
Record Anchor := mkAnchor { an_price : Z; an_generation : string }.

(** The maker's memory beside the tables. *)
Record Shop := mkShop {
  ready : bool; anchors : list (string * Anchor); pulled : list (string * string); tables : Store
}.

Definition set_ready (b : bool) (s : Shop) : Shop := mkShop b (anchors s) (pulled s) (tables s).
Definition set_anchors (m : list (string * Anchor)) (s : Shop) : Shop := mkShop (ready s) m (pulled s) (tables s).
Definition set_pulled (m : list (string * string)) (s : Shop) : Shop := mkShop (ready s) (anchors s) m (tables s).

Definition act (A : Type) : Type := Shop -> result A * Shop.

#[export] Instance act_ret : MRet act := fun A a s => (Ok a, s).
#[export] Instance act_bind : MBind act := fun A B k m s =>
  match m s with
  | (Ok a, s') => k a s'
  | (Throw e, s') => (Throw e, s')
  end.

(** A call of a service, over the tables. *)
Definition calling {A} (m : svc A) : act A := fun s =>
  let (r, t) := m (tables s) in (r, mkShop (ready s) (anchors s) (pulled s) t).

Definition remember (f : Shop -> Shop) : act unit := fun s => (Ok tt, f s).
Definition recall {A} (f : Shop -> A) : act A := fun s => (Ok (f s), s).

(** [try { m } catch { }] *)
Definition attempt {A} (m : act A) : act unit := fun s => (Ok tt, (m s).2).

Definition forget {V} (key : string) (m : list (string * V)) : list (string * V) :=
  filter (fun kv => kv.1 <> key) m.

(** [for (const x of xs) await f(x)] *)
Fixpoint each {A} (xs : list A) (f : A -> act unit) : act unit :=
  match xs with
  | [] => mret tt
  | x :: xs => _ ← f x; each xs f
  end.

Definition OPEN_PAGE : nat := 200.

(** ** The maker *)

Section Maker.
Context {desk : Desk} {around : Surroundings}.
Context (cluster : Cluster) (userId : string) (entries : list MarketEntry) (quoting : list (string * Z)).
Context (levels halfSpreadBps levelStepBps staleMs : Z).

Definition openOrders (symbol : string) : act (list OrderRecord) :=
  match market_get entries symbol with
  | None => fun s => (Throw (NotFoundError "Unknown market"), s)
  | Some entry => calling (commit (pageForUser userId (Market.id (me_market entry)) OPEN_PAGE))
  end.

Definition cancel_quote (order : OrderRecord) : act unit :=
  if bool_decide (o_status order = Order.PENDING_ENGINE) then mret tt
  else attempt (calling (desk_cancel userId (o_id order))).

(** [pull]: cancel everything resting in a market. *)
Definition pull (symbol reason : string) : act unit :=
  _ ← remember (fun s => set_pulled (jset symbol reason (pulled s)) s);
  _ ← remember (fun s => set_anchors (forget symbol (anchors s)) s);
  resting ← openOrders symbol;
  each resting cancel_quote.

Definition side_name (side : Side) : string := match side with buy => "buy" | sell => "sell" end.

Definition quote_id (symbol generation : string) (quote : Quote) : string :=
  "mm:" +:+ symbol +:+ ":" +:+ generation +:+ ":" +:+ side_name (q_side quote) +:+ ":" +:+ pretty (q_level quote).

Definition quote_input (symbol generation : string) (quote : Quote) : PlaceInput :=
  mkPlaceInput userId (quote_id symbol generation quote) (q_side quote) limit GTC (Some (q_price quote)) (q_qty quote) false.

Definition place_quote (entry : MarketEntry) (generation : string) (quote : Quote) : act unit :=
  attempt (calling (desk_place entry (quote_input (me_symbol entry) generation quote))).

(** [matches] *)
Definition matches (order : OrderRecord) (quote : Quote) : bool :=
  bool_decide (o_side order = q_side quote) && bool_decide (o_price order = Some (q_price quote)) &&
  (o_qty order - o_filledQty order =? q_qty quote).

(** [held]: what the kept quotes of a side hold already. *)
Definition held_by (side : Side) (wanted : list Quote) (kept : list OrderRecord) : result Z :=
  fold_left (fun sum quote => total ← sum; cost ← holdFor quote; Ok (total + cost))
    (filter (fun quote => bool_decide (q_side quote = side) && existsb (fun order => matches order quote) kept = true) wanted)
    (Ok 0).

(** The loop over the open orders: what is wanted is kept, the rest cancelled. *)
Fixpoint keep_wanted (wanted : list Quote) (resting : list OrderRecord) : act (list OrderRecord) :=
  match resting with
  | [] => mret []
  | order :: resting =>
      if existsb (matches order) wanted
      then rest ← keep_wanted wanted resting; mret (order :: rest)
      else _ ← cancel_quote order; keep_wanted wanted resting
  end.

(** [ledger.getUserTradingBalances], the two rows that are looked up in it. *)
Definition trading_balances (baseAsset quoteAsset : string) : tx (Z * Z) :=
  base ← trading_available cluster userId baseAsset;
  quote ← trading_available cluster userId quoteAsset;
  mret (base, quote).

Definition of_math {A} (r : result A) : act A := fun s => (r, s).

(** The second half of [quoteMarket]: the ladder at the anchor, and what it takes to rest it. *)
Definition requote (entry : MarketEntry) (market : Market) (anchored : Anchor) (config : QuoteConfig) : act unit :=
  let symbol := me_symbol entry in
  book ← calling (engine_book symbol);
  wanted ← of_math (ladder (an_price anchored) market (mjoin book) config);
  resting ← openOrders symbol;
  kept ← keep_wanted wanted resting;
  '(base, quote) ← calling (commit (trading_balances (baseAsset (me_market entry)) (quoteAsset (me_market entry))));
  heldBase ← of_math (held_by sell wanted kept);
  heldQuote ← of_math (held_by buy wanted kept);
  funded ← of_math (affordable wanted (base + heldBase) (quote + heldQuote));
  _ ← remember (fun s =>
        if (length funded <? length wanted)%nat && bool_decide (jget (symbol +:+ ":funds") (pulled s) = None)
        then set_pulled (jset (symbol +:+ ":funds") "short" (pulled s)) s
        else if (length funded =? length wanted)%nat then set_pulled (forget (symbol +:+ ":funds") (pulled s)) s
        else s);
  each (filter (fun quote => existsb (fun order => matches order quote) kept = false) funded)
    (place_quote entry (an_generation anchored)).

Definition quoteMarket (entry : MarketEntry) (config : QuoteConfig) : act unit :=
  let symbol := me_symbol entry in
  settlement ← calling (settlementState symbol);
  match settlement with
  | settlement_halted => pull symbol "settlement_halted"
  | delayed => pull symbol "settlement_delayed"
  | live | disabled =>
      found ← calling (market_routable symbol);
      match found with
      | route_no _ => pull symbol "market_not_open"
      | route_ok market =>
          if negb (bool_decide (status market = Market.open)) then pull symbol "market_not_open" else
          reference ← calling (source_price (mkReferenceMarket symbol (tickSize (me_market entry))
                                               (me_baseDecimals entry) (me_quoteDecimals entry)));
          now ← calling clock_now;
          match reference with
          | None => pull symbol "reference_stale"
          | Some reference =>
              if now - rp_observedAt reference >? staleMs then pull symbol "reference_stale" else
              _ ← remember (fun s => set_pulled (forget symbol (pulled s)) s);
              anchor ← recall (fun s => jget symbol (anchors s));
              let anchored := match anchor with
                              | Some a => if shouldReanchor (Some (an_price a)) (rp_price reference) (levelStepBps)
                                          then mkAnchor (rp_price reference) (rp_generation reference) else a
                              | None => mkAnchor (rp_price reference) (rp_generation reference)
                              end in
              _ ← remember (fun s => set_anchors (jset symbol anchored (anchors s)) s);
              requote entry market anchored config
          end
      end
  end.

(** [runOnce]: one market failing does not stop the next. *)
Definition maker_runOnce : act unit :=
  started ← recall ready;
  if negb started then mret tt else
  each quoting (fun sq =>
    match market_get entries sq.1 with
    | None => mret tt
    | Some entry => attempt (quoteMarket entry (mkConfig levels halfSpreadBps levelStepBps sq.2))
    end).

(** [stop]: cancel what is resting, market by market. *)
Definition maker_stop : act unit :=
  started ← recall ready;
  if negb started then mret tt else
  _ ← remember (set_ready false);
  each quoting (fun sq =>
    match market_get entries sq.1 with
    | None => mret tt
    | Some _ => attempt (resting ← openOrders sq.1; each resting cancel_quote)
    end).

(** [init]: an existing user and something to quote. *)
Definition maker_init : act bool :=
  user ← calling (commit (read (fun s => users s !! userId)));
  if bool_decide (user = None) then mret false else
  if negb (existsb (fun sq => bool_decide (is_Some (market_get entries sq.1))) quoting) then mret false else
  _ ← remember (set_ready true);
  mret true.
End Maker.

(** [OrderService], as the gateway implements it: the market is asked for first, and the engine
    is that of the market. *)
Definition gateway_desk {around : Surroundings} (engines : string -> EngineCommand -> Store -> result EngineResult * Store)
  (book : MarketEntry -> Store -> option (option Z)) (freshId : PlaceInput -> string) (at_ : Z) (cluster : Cluster)
  (policy : Risk.OrderRiskPolicy) : Desk := {|
  desk_place := fun entry input =>
    found ← market_routable (me_symbol entry);
    match found with
    | route_no _ => fails (DependencyUnavailableError ("matching-engine:" +:+ me_symbol entry))
    | route_ok market => Gateway.place (engines (Market.id market)) (book entry) (freshId input) at_ cluster policy market input
    end;
  desk_cancel := fun userId orderId =>
    order ← Gateway.get userId orderId;
    Gateway.cancel (engines (o_market order)) at_ userId orderId
|}.

(** ** Lemmas: what the maker leaves as it was *)

(** A step of the maker that leaves agreeing books agreeing, whether it returns or throws. *)
Class Careful {A} (m : act A) : Prop :=
  careful : forall s, books_ok (tables s) -> books_ok (tables (m s).2).

#[export] Instance careful_ret {A} (a : A) : Careful (mret a).
Proof. by intros s. Qed.
#[export] Instance careful_bind {A B} (m : act A) (k : A -> act B) :
  Careful m -> (forall a, Careful (k a)) -> Careful (m ≫= k).
Proof.
  intros Hm Hk s Hs. unfold mbind, act_bind. specialize (Hm s Hs). destruct (m s) as [[x|e] s1]; [by apply (Hk x)|done].
Qed.
#[export] Instance careful_calling {A} (m : svc A) : KeepsBooks m -> Careful (calling m).
Proof.
  intros Hm s Hs. unfold calling. destruct (m (tables s)) as [r t] eqn:E. simpl. by eapply Hm.
Qed.
#[export] Instance careful_attempt {A} (m : act A) : Careful m -> Careful (attempt m).
Proof. intros Hm s Hs. by apply Hm. Qed.
#[export] Instance careful_recall {A} (f : Shop -> A) : Careful (recall f).
Proof. by intros s. Qed.
#[export] Instance careful_math {A} (r : result A) : Careful (of_math r).
Proof. by intros s. Qed.
#[export] Instance careful_each {A} (xs : list A) (f : A -> act unit) : (forall x, Careful (f x)) -> Careful (each xs f).
Proof. intros Hf. induction xs; simpl; apply _. Qed.

Lemma careful_remember f : (forall s, tables (f s) = tables s) -> Careful (remember f).
Proof. intros Hf s Hs. simpl. by rewrite Hf. Qed.

#[local] Hint Extern 0 (Careful (remember _)) =>
  apply careful_remember; intros; repeat case_match; reflexivity : typeclass_instances.

#[export] Instance keeps_page u m n : KeepsBooks (commit (pageForUser u m n)).
Proof. apply keeps_read. Qed.
#[export] Instance keeps_balances c u b q : KeepsBooks (commit (trading_balances c u b q)).
Proof.
  apply commit_keeps; [apply _|]. intros s a s' Hc H. unfold trading_balances, trading_available in H. by inv_tx.
Qed.

(** What the other actors do while the maker asks keeps the books. *)
Class FairSurroundings (around : Surroundings) : Prop := {
  fair_settlement symbol : KeepsBooks (settlementState symbol);
  fair_routable symbol : KeepsBooks (market_routable symbol);
  fair_price market : KeepsBooks (source_price market);
  fair_book symbol : KeepsBooks (engine_book symbol);
  fair_clock : KeepsBooks clock_now
}.

(** What the order service promises the maker. *)
Class FairDesk (desk : Desk) : Prop := {
  fair_place entry input : KeepsBooks (desk_place entry input);
  fair_cancel userId orderId : KeepsBooks (desk_cancel userId orderId)
}.

#[export] Existing Instances fair_settlement fair_routable fair_price fair_book fair_clock fair_place fair_cancel.

Lemma gateway_desk_fair {around : Surroundings} engines book freshId at_ cluster policy :
  FairSurroundings around -> (forall m c s, books_ok s -> books_ok (engines m c s).2) ->
  FairDesk (gateway_desk engines book freshId at_ cluster policy).
Proof.
  intros Ha He. split.
  - intros entry input. apply keeps_bind; [apply _|]. intros [m|]; [|apply _].
    exact (place_keeps (engines (Market.id m)) (book entry) (freshId input) at_ cluster policy m (He _) input).
  - intros u o. apply keeps_bind; [apply _|]. intros order. exact (cancel_keeps (engines (o_market order)) at_ (He _) u o).
Qed.

Section Careful.
Context {desk : Desk} {around : Surroundings} {Hdesk : FairDesk desk} {Haround : FairSurroundings around}.
Context (cluster : Cluster) (userId : string) (entries : list MarketEntry).

#[export] Instance careful_openOrders symbol : Careful (openOrders userId entries symbol).
Proof. unfold openOrders. case_match; [apply _|by intros s]. Qed.
#[export] Instance careful_cancel order : Careful (cancel_quote userId order).
Proof using Hdesk. unfold cancel_quote. case_match; apply _. Qed.
#[export] Instance careful_pull symbol reason : Careful (pull userId entries symbol reason).
Proof using Hdesk. unfold pull. apply _. Qed.
#[export] Instance careful_place entry generation quote : Careful (place_quote userId entry generation quote).
Proof using Hdesk. unfold place_quote. apply _. Qed.
#[export] Instance careful_keep wanted resting : Careful (keep_wanted userId wanted resting).
Proof using Hdesk. induction resting; simpl; [apply _|]. case_match; apply _. Qed.
#[export] Instance careful_requote entry market anchored config :
  Careful (requote cluster userId entries entry market anchored config).
Proof using Hdesk Haround. unfold requote. repeat (apply careful_bind; [apply _|intros ?]); case_match. apply _. Qed.
#[export] Instance careful_quoteMarket step stale entry config :
  Careful (quoteMarket cluster userId entries step stale entry config).
Proof using Hdesk Haround.
  unfold quoteMarket. apply careful_bind; [apply _|]. intros [| | |]; try apply _;
    (apply careful_bind; [apply _|]; intros [m|]; [|apply _]; case_match; [apply _|];
     repeat (apply careful_bind; [apply _|intros ?]); case_match; [|apply _]; case_match; apply _).
Qed.

Lemma careful_runOnce quoting levels half step stale :
  Careful (maker_runOnce cluster userId entries quoting levels half step stale).
Proof using Hdesk Haround.
  unfold maker_runOnce. apply careful_bind; [apply _|]. intros started. case_match; [apply _|].
  apply careful_each. intros sq. case_match; apply _.
Qed.

Lemma careful_stop quoting : Careful (maker_stop userId entries quoting).
Proof using Hdesk.
  unfold maker_stop. apply careful_bind; [apply _|]. intros started. case_match; [apply _|].
  apply careful_bind; [apply _|]. intros _. apply careful_each. intros sq. case_match; apply _.
Qed.

Lemma careful_init quoting : Careful (maker_init userId entries quoting).
Proof. unfold maker_init. apply careful_bind; [apply _|]. intros user. case_match; [apply _|]. case_match; apply _. Qed.
End Careful.

(** What keeps a market from being quoted: how the surroundings answer, in the order they are
    asked, the tables they leave and the reason that is recorded. *)
Inductive unquotable {around : Surroundings} (stale : Z) (entry : MarketEntry) (s : Store) : string -> Store -> Prop :=
| behind state t :
    settlementState (me_symbol entry) s = (Ok state, t) -> state = settlement_halted \/ state = delayed ->
    unquotable stale entry s (if decide (state = delayed) then "settlement_delayed" else "settlement_halted") t
| closed state t found t' :
    settlementState (me_symbol entry) s = (Ok state, t) -> state = live \/ state = disabled ->
    market_routable (me_symbol entry) t = (Ok found, t') -> (forall m, found = route_ok m -> status m <> Market.open) ->
    unquotable stale entry s "market_not_open" t'
| unseen state t m t' reference t'' now t''' :
    settlementState (me_symbol entry) s = (Ok state, t) -> state = live \/ state = disabled ->
    market_routable (me_symbol entry) t = (Ok (route_ok m), t') -> status m = Market.open ->
    source_price (mkReferenceMarket (me_symbol entry) (tickSize (me_market entry)) (me_baseDecimals entry) (me_quoteDecimals entry)) t'
      = (Ok reference, t'') -> clock_now t'' = (Ok now, t''') ->
    (forall r, reference = Some r -> stale < now - rp_observedAt r) ->
    unquotable stale entry s "reference_stale" t'''.

Definition with_tables (t : Store) (s : Shop) : Shop := mkShop (ready s) (anchors s) (pulled s) t.

(** ** Lemmas: a market that is pulled *)

Lemma quoteMarket_pulls {around : Surroundings} (desk : Desk) cluster userId entries step config stale entry s reason t :
  unquotable stale entry (tables s) reason t ->
  quoteMarket cluster userId entries step stale entry config s =
    pull userId entries (me_symbol entry) reason (with_tables t s).
Proof.
  intros H. unfold quoteMarket, calling, with_tables. unfold mbind at 1, act_bind at 1.
  destruct H as [state t Hs Hst|state t found u Hs Hst Hm Hno|state t m u reference v now w Hs Hst Hm Hop Hp Hc Hold].
  - rewrite Hs. by destruct Hst as [-> | ->].
  - rewrite Hs. destruct Hst as [-> | ->]; unfold mbind at 1, act_bind at 1; simpl; rewrite Hm; (destruct found as [m|why]; [|done]);
      rewrite bool_decide_eq_false_2 by (by apply Hno); done.
  - rewrite Hs. destruct Hst as [-> | ->]; unfold mbind at 1, act_bind at 1; simpl; rewrite Hm, bool_decide_eq_true_2 by done;
      unfold mbind at 1, act_bind at 1; simpl; rewrite Hp; unfold mbind at 1, act_bind at 1; simpl; rewrite Hc;
      (destruct reference as [r|]; [|done]); specialize (Hold r eq_refl);
      (replace (now - rp_observedAt r >? stale) with true by (symmetry; apply Z.gtb_lt; lia)); done.
Qed.

#[local] Arguments shouldReanchor : simpl never.

(** Where the reference has not moved a level from the anchor, the pass quotes at the anchor:
    the new price and the new generation are forgotten. *)
Lemma quoteMarket_steady {around : Surroundings} (desk : Desk) cluster userId entries step config stale entry s a
    state t m u reference v now w :
  settlementState (me_symbol entry) (tables s) = (Ok state, t) -> state = live \/ state = disabled ->
  market_routable (me_symbol entry) t = (Ok (route_ok m), u) -> status m = Market.open ->
  source_price (mkReferenceMarket (me_symbol entry) (tickSize (me_market entry)) (me_baseDecimals entry) (me_quoteDecimals entry)) u
    = (Ok (Some reference), v) -> clock_now v = (Ok now, w) -> now - rp_observedAt reference <= stale ->
  jget (me_symbol entry) (anchors s) = Some a -> shouldReanchor (Some (an_price a)) (rp_price reference) step = false ->
  quoteMarket cluster userId entries step stale entry config s =
    requote cluster userId entries entry m a config
      (set_anchors (jset (me_symbol entry) a (anchors s))
        (set_pulled (forget (me_symbol entry) (pulled s)) (with_tables w s))).
Proof.
  intros Hs Hst Hm Hop Hp Hc Hold Ha Hre. unfold quoteMarket, calling, with_tables, recall, remember.
  unfold mbind at 1, act_bind at 1. rewrite Hs.
  destruct Hst as [-> | ->]; unfold mbind at 1, act_bind at 1; simpl; rewrite Hm, bool_decide_eq_true_2 by done;
    unfold mbind at 1, act_bind at 1; simpl; rewrite Hp; unfold mbind at 1, act_bind at 1; simpl; rewrite Hc;
    (replace (now - rp_observedAt reference >? stale) with false by (symmetry; rewrite Z.gtb_ltb; apply Z.ltb_ge; lia));
    unfold mbind at 1, act_bind at 1, mbind at 1, act_bind at 1, mbind at 1, act_bind at 1; simpl; by rewrite Ha, Hre.
Qed.

(** A step that keeps the anchors it finds. *)
Definition keeps_anchors {A} (m : act A) : Prop := forall s, anchors (m s).2 = anchors s.

Lemma anchors_calling {A} (m : svc A) : keeps_anchors (calling m).
Proof. intros s. unfold calling. by destruct (m (tables s)). Qed.

Lemma anchors_bind {A B} (m : act A) (k : A -> act B) :
  keeps_anchors m -> (forall a, keeps_anchors (k a)) -> keeps_anchors (m ≫= k).
Proof.
  intros Hm Hk s. unfold mbind, act_bind. specialize (Hm s). destruct (m s) as [[a|e] s1]; [by rewrite Hk|done].
Qed.

Lemma anchors_each {A} (xs : list A) (f : A -> act unit) : (forall x, keeps_anchors (f x)) -> keeps_anchors (each xs f).
Proof. intros Hf. induction xs as [|x xs IH]; [done|]. by apply anchors_bind. Qed.

Lemma anchors_cancel {desk : Desk} userId order : keeps_anchors (cancel_quote userId order).
Proof.
  unfold cancel_quote. case_match; [done|]. intros s. apply (anchors_calling (desk_cancel userId (o_id order)) s).
Qed.

Lemma jget_forget {V} key (m : list (string * V)) : jget key (forget key m) = None.
Proof.
  unfold forget. induction m as [|[k v] m IH]; [done|]. destruct (decide (k = key)) as [->|Hne].
  - rewrite filter_cons_False by (simpl; tauto). done.
  - rewrite filter_cons_True by done. simpl. rewrite decide_False by done. done.
Qed.

Lemma pull_forgets {desk : Desk} userId entries symbol reason s :
  jget symbol (anchors (pull userId entries symbol reason s).2) = None.
Proof.
  unfold pull, remember. unfold mbind at 1, act_bind at 1. unfold mbind at 1, act_bind at 1.
  set (s' := set_anchors _ _). assert (Hs : jget symbol (anchors s') = None) by apply jget_forget.
  assert (Hk : keeps_anchors (resting ← openOrders userId entries symbol; each resting (cancel_quote userId))).
  { apply anchors_bind; [|intros resting; apply anchors_each, anchors_cancel].
    unfold openOrders. case_match; [apply anchors_calling|done]. }
  by rewrite Hk.
Qed.

Lemma pull_cancels (desk desk' : Desk) userId entries symbol reason s :
  (forall u o, @desk_cancel desk' u o = @desk_cancel desk u o) ->
  pull (desk := desk) userId entries symbol reason s = pull (desk := desk') userId entries symbol reason s.
Proof.
  intros Hc. assert (Hq : forall o, cancel_quote (desk := desk) userId o = cancel_quote (desk := desk') userId o).
  { intros o. unfold cancel_quote. by rewrite Hc. }
  assert (He : forall resting s, each resting (cancel_quote (desk := desk) userId) s = each resting (cancel_quote (desk := desk') userId) s).
  { induction resting as [|o resting IH]; intros z; [done|]. simpl. rewrite Hq. unfold mbind, act_bind.
    destruct (cancel_quote userId o z) as [[a|e] z1]; [apply IH|done]. }
  unfold pull, mbind, act_bind. simpl. destruct (openOrders _ _ _ _) as [[resting|e] s1]; [apply He|done].
Qed.

(** ** Runs *)

(** A market that is open, with a reference price that was observed at a time. *)
Definition calm (price observedAt : Z) (generation : string) : Surroundings := {|
  settlementState := fun _ => mret live;
  market_routable := fun _ => mret (route_ok demo_market);
  source_price := fun _ => mret (Some (mkReferencePrice price observedAt generation));
  engine_book := fun _ => mret (Some (Some 150000000));
  clock_now := mret 1000
|}.

Definition demo_entry : MarketEntry := mkEntry "SOL-USDC" demo_market "SOL" "USDC" 9 6.

(** Alice is the maker: she has quote, and no base. *)
Definition calm_pass (price observedAt : Z) (generation : string) (s : Shop) : Shop :=
  (maker_runOnce (desk := gateway_desk (around := calm price observedAt generation) (fun _ => resting_engine) (fun _ => quiet_book)
      in_clientOrderId 1000 devnet demo_risk) (around := calm price observedAt generation)
    devnet "alice" [demo_entry] [("SOL-USDC", 2000000000)] 3 10 10 500 s).2.

Definition opened : Shop := (maker_init "alice" [demo_entry] [("SOL-USDC", 2000000000)] (mkShop false [] [] demo_funded)).2.

Definition resting_bids (s : Shop) : list (string * option Z) :=
  map (fun o => (o_clientOrderId o, o_price o)) (open_rows "alice" "devnet:SOL-USDC" (tables s)).

(** A ladder of the first generation; the same after a pass in which the reference was stale;
    and after the pass in which the reference was back. *)
Definition quoted : Shop := calm_pass 150000000 900 "g1" opened.
Definition pulled_once : Shop := calm_pass 150000000 400 "g1" quoted.
Definition back_again : Shop := calm_pass 150000000 900 "g1" pulled_once.

Definition calm_passes (observations : list (Z * string)) (s : Shop) : Shop :=
  fold_left (fun s pg => calm_pass pg.1 900 pg.2 s) observations s.

(** What a pass does where the ladder stays where it is, whatever the observation. *)
Lemma calm_steady p g s a :
  jget "SOL-USDC" (anchors s) = Some a -> shouldReanchor (Some (an_price a)) p 10 = false ->
  shouldReanchor (Some (an_price a)) 150000000 10 = false ->
  calm_pass p 900 g s = calm_pass 150000000 900 "g1" s.
Proof.
  intros Ha Hp Hq. unfold calm_pass, maker_runOnce, recall. unfold mbind, act_bind. cbn [fst snd].
  destruct (ready s); [|done]. cbn [negb]. f_equal. cbn [each]. unfold mbind, act_bind, attempt.
  match goal with |- context [market_get ?es ?x] => change (market_get es x) with (Some demo_entry) end. cbv iota beta.
  assert (Hs : forall p g d, shouldReanchor (Some (an_price a)) p 10 = false ->
    quoteMarket (desk := d) (around := calm p 900 g) devnet "alice" [demo_entry] 10 500 demo_entry (mkConfig 3 10 10 2000000000) s =
    requote (desk := d) (around := calm p 900 g) devnet "alice" [demo_entry] demo_entry demo_market a (mkConfig 3 10 10 2000000000)
      (set_anchors (jset "SOL-USDC" a (anchors s)) (set_pulled (forget "SOL-USDC" (pulled s)) (with_tables (tables s) s)))).
  { intros p' g' d Hp'. eapply (quoteMarket_steady (around := calm p' 900 g')); try reflexivity; [by left|done|exact Ha|done]. }
  cbn [fst snd]. rewrite !Hs by done. reflexivity.
Qed.

Lemma back_again_fixed : calm_pass 150000000 900 "g1" back_again = back_again.
Proof. vm_compute. reflexivity. Qed.

Lemma back_again_anchor : jget "SOL-USDC" (anchors back_again) = Some (mkAnchor 150000000 "g1").
Proof. vm_compute. reflexivity. Qed.

Lemma steady_passes observations s :
  jget "SOL-USDC" (anchors s) = Some (mkAnchor 150000000 "g1") -> calm_pass 150000000 900 "g1" s = s ->
  Forall (fun pg => Z.abs (pg.1 - 150000000) < 150000) observations -> calm_passes observations s = s.
Proof.
  intros Ha Hs H. induction H as [|[p g] observations Hp _ IH]; [done|].
  change (calm_passes ((p, g) :: observations) s) with (calm_passes observations (calm_pass p 900 g s)).
  rewrite (calm_steady p g s (mkAnchor 150000000 "g1") Ha); [by rewrite Hs| |done].
  unfold shouldReanchor. simpl in Hp. cbn [an_price]. unfold BPS.
  destruct (Z.gtb_spec p 150000000); rewrite Z.geb_leb; apply Z.leb_gt; lia.
Qed.

(** ** Properties *)

(** The maker has no exemption. A pass over its markets, a stop and a start leave books that
    agree agreeing, whatever they find and whether their calls succeed or throw, because the
    order service keeps them: a quote's hold is the hold of any order, posted and released
    like one. The gateway is such an order service, provided its engine is. *)
Theorem maker_keeps_books {around : Surroundings} cluster userId entries quoting levels half step stale
    engines book freshId at_ policy s :
  let desk := gateway_desk engines book freshId at_ cluster policy in
  FairSurroundings around -> (forall m c s, books_ok s -> books_ok (engines m c s).2) -> books_ok (tables s) ->
  books_ok (tables (maker_runOnce cluster userId entries quoting levels half step stale s).2) /\
  books_ok (tables (maker_stop userId entries quoting s).2) /\
  books_ok (tables (maker_init userId entries quoting s).2).
Proof.
  intros desk Haround He Hs. pose proof (gateway_desk_fair engines book freshId at_ cluster policy Haround He) as Hdesk.
  split_and!; [by apply careful_runOnce|by apply careful_stop|by apply careful_init].
Qed.


(** A market that cannot be seen is not quoted. When its settlement is behind, its market is
    not open, or its reference price is missing or too old, the pass forgets where the ladder
    was anchored and cancels what it finds resting; whatever the order service would do with
    a placement, the pass comes out the same: it places nothing. *)
Theorem unquotable_only_pulls {around : Surroundings} (desk : Desk) cluster userId entries step stale entry config s reason t :
  unquotable stale entry (tables s) reason t ->
  quoteMarket cluster userId entries step stale entry config s =
    pull userId entries (me_symbol entry) reason (with_tables t s) /\
  jget (me_symbol entry) (anchors (quoteMarket cluster userId entries step stale entry config s).2) = None /\
  forall desk' : Desk, (forall u o, @desk_cancel desk' u o = @desk_cancel desk u o) ->
    quoteMarket (desk := desk') cluster userId entries step stale entry config s =
    quoteMarket (desk := desk) cluster userId entries step stale entry config s.
Proof.
  intros H. pose proof (quoteMarket_pulls desk cluster userId entries step config _ _ _ _ _ H) as E.
  split; [exact E|]. split; [rewrite E; apply pull_forgets|].
  intros desk' Hc. rewrite (quoteMarket_pulls desk' cluster userId entries step config _ _ _ _ _ H), E.
  symmetry. apply pull_cancels. done.
Qed.


(** A ladder that was pulled stays down. After one pass in which the reference was stale, and
    with the reference back, the same generation is quoted again and the order service returns
    the cancelled orders: nothing rests. New generations do not help: as long as no
    observation is a level away from the anchor, however many passes are made and whatever
    their generations, nothing rests. An observation a level away brings the ladder back. *)
Theorem pulled_ladder_stays_down observations :
  Forall (fun pg => Z.abs (pg.1 - 150000000) < 150000) observations ->
  length (resting_bids quoted) = 3%nat /\ resting_bids pulled_once = [] /\
  resting_bids (calm_passes observations back_again) = [] /\
  length (resting_bids (calm_pass 150150000 900 "g9" back_again)) = 3%nat.
Proof.
  intros H. split; [vm_compute; reflexivity|]. split; [vm_compute; reflexivity|]. split; [|vm_compute; reflexivity].
  rewrite (steady_passes observations back_again back_again_anchor back_again_fixed H). vm_compute. reflexivity.
Qed.

(** ** Witnesses *)

Lemma calm_fair p t g : FairSurroundings (calm p t g).
Proof. split; intros; apply keeps_ret. Qed.

Lemma maker_keeps_books_witness :
  length (resting_bids (calm_pass 150000000 900 "g1" opened)) = 3%nat /\
  books_ok (tables (calm_pass 150000000 900 "g1" opened)).
Proof.
  split; [vm_compute; reflexivity|].
  exact (proj1 (@maker_keeps_books (calm 150000000 900 "g1") devnet "alice" [demo_entry] [("SOL-USDC", 2000000000)] 3 10 10 500
    (fun _ => resting_engine) (fun _ => quiet_book) in_clientOrderId 1000 demo_risk opened
    (calm_fair 150000000 900 "g1") (fun _ => resting_engine_keeps) demo_funded_books)).
Defined.

Definition calm_desk (p t : Z) (g : string) : Desk :=
  gateway_desk (around := calm p t g) (fun _ => resting_engine) (fun _ => quiet_book) in_clientOrderId 1000 devnet demo_risk.

Lemma unquotable_only_pulls_witness :
  unquotable (around := calm 150000000 400 "g1") 500 demo_entry (tables quoted) "reference_stale" (tables quoted) /\
  jget "SOL-USDC" (anchors quoted) = Some (mkAnchor 150000000 "g1") /\
  jget "SOL-USDC" (anchors (quoteMarket (desk := calm_desk 150000000 400 "g1") (around := calm 150000000 400 "g1")
    devnet "alice" [demo_entry] 10 500 demo_entry (mkConfig 3 10 10 2000000000) quoted).2) = None.
Proof.
  assert (H : unquotable (around := calm 150000000 400 "g1") 500 demo_entry (tables quoted) "reference_stale" (tables quoted)).
  { eapply unseen; try reflexivity; [by left|]. intros r [= <-]. done. }
  split; [exact H|]. split; [vm_compute; reflexivity|].
  exact (proj1 (proj2 (unquotable_only_pulls (around := calm 150000000 400 "g1") (calm_desk 150000000 400 "g1") devnet "alice"
    [demo_entry] 10 500 demo_entry (mkConfig 3 10 10 2000000000) quoted "reference_stale" (tables quoted) H))).
Defined.

Lemma pulled_ladder_stays_down_witness :
  resting_bids (calm_passes [(150100000, "g2"); (149900000, "g3"); (150000000, "g4")] back_again) = [].
Proof.
  exact (proj1 (proj2 (proj2 (pulled_ladder_stays_down [(150100000, "g2"); (149900000, "g3"); (150000000, "g4")]
    ltac:(repeat constructor))))).
Defined.
