(* ===== verification/Tape.v ===== *)
(** * The public trade tape

    [packages/db/src/repositories/market-data.repository.ts]: trades, the candles computed
    from them and the queries over both; and
    [apps/api/src/services/market-data/tape-consumer.ts], the consumer that records the
    fills of one market's stream. A timestamp is milliseconds since the epoch. Statements
    over one table are read as SQL defines them: what [ORDER BY] leaves open is the order
    of the table. *)

From Stdlib Require Import ZArith Lia Ascii.
From stdpp Require Import base list strings gmap sorting.
From S2P Require Import Prelude Decimal Assets Price Orders Store Events Consumer Worker.

Open Scope string_scope.
Open Scope list_scope.
Open Scope Z_scope.

(** ** Aggregates *)

(** [(array_agg(x ORDER BY key ASC))[1]] and [DESC], over a group that is not empty. *)
Definition first_by {A} (key : A -> EventKey) (x : A) (xs : list A) : A :=
  fold_left (fun a b => if key_lt (key b) (key a) then b else a) xs x.
Definition last_by {A} (key : A -> EventKey) (x : A) (xs : list A) : A :=
  fold_left (fun a b => if key_lt (key a) (key b) then b else a) xs x.

Definition maximum {A} (f : A -> Z) (x : A) (xs : list A) : Z := fold_left (fun m y => Z.max m (f y)) xs (f x).
Definition minimum {A} (f : A -> Z) (x : A) (xs : list A) : Z := fold_left (fun m y => Z.min m (f y)) xs (f x).
Definition total {A} (f : A -> Z) (xs : list A) : Z := zsum (map f xs).

(** [date_bin(width, at, EPOCH)] *)
Definition date_bin (width at_ : Z) : Z := at_ / width * width.
Definition MINUTE : Z := 60000.

(** ** The tables *)

Definition trade_key (t : TradeRow) : EventKey := mkKey (tr_seq t) (tr_index t).

(** The row checks of the two tables. *)
Definition trade_row_ok (t : TradeRow) : bool :=
  (tr_seq t >? 0) && (tr_index t >=? 0) && (tr_price t >? 0) && (tr_qty t >? 0) && (tr_quoteQty t >=? 0).

Definition candle_row_ok (c : CandleRow) : bool :=
  (cd_low c >? 0) && (cd_low c <=? cd_open c) && (cd_low c <=? cd_close c) && (cd_high c >=? cd_open c) &&
  (cd_high c >=? cd_close c) && (cd_tradeCount c >? 0) && (cd_baseVolume c >? 0) && (cd_quoteVolume c >=? 0) &&
  (cd_bucket c =? date_bin MINUTE (cd_bucket c)).

(** [SELECT .. FROM trades WHERE .. GROUP BY market, minute]: the candle of one group. *)
Definition candle_of (market : string) (bucket : Z) (rows : list TradeRow) : option CandleRow :=
  match rows with
  | [] => None
  | t :: ts =>
      let first := first_by trade_key t ts in
      let last := last_by trade_key t ts in
      Some (mkCandleRow market bucket (tr_price first) (maximum tr_price t ts) (minimum tr_price t ts) (tr_price last)
        (mkKey (minimum tr_seq t ts) (tr_index first)) (mkKey (maximum tr_seq t ts) (tr_index last))
        (total tr_qty rows) (total tr_quoteQty rows) (Z.of_nat (length rows)))
  end.

Definition minute_of (t : TradeRow) : Z := date_bin MINUTE (tr_at t).

(** [candlesOf(where)] over the trades of one market, the minutes in the order they appear. *)
Definition candlesOf (market : string) (rows : list TradeRow) : list CandleRow :=
  omap (fun bucket => candle_of market bucket (filter (fun t => minute_of t = bucket) rows))
    (remove_dups (map minute_of rows)).

Definition of_market (market : string) (s : Store) : list TradeRow := filter (fun t => tr_market t = market) (trades s).

(** ** The repository *)

Definition MAX_INT4 : Z := 2 ^ 31 - 1.
Definition MAX_INT8 : Z := 2 ^ 63 - 1.
Definition out_of_range : error := ConstraintViolation "22003".

(** [insertTrade]: false when the key is there already. *)
Definition insertTrade (t : TradeRow) : tx bool :=
  _ ← raise_if ((tr_seq t >? MAX_INT8) || (tr_index t >? MAX_INT4)) out_of_range;
  _ ← raise_if (negb (trade_row_ok t)) check_violation;
  s ← read (fun s => s);
  if existsb (fun u => bool_decide (tr_market u = tr_market t) && bool_decide (trade_key u = trade_key t)) (trades s)
  then mret false
  else _ ← write (set_trades (trades s ++ [t])); mret true.

Definition same_candle (c d : CandleRow) : bool :=
  bool_decide (cd_market c = cd_market d) && (cd_bucket c =? cd_bucket d).

(** [INSERT .. ON CONFLICT (market, bucket_start) DO UPDATE] *)
Definition upsert_candle (c : CandleRow) (cs : list CandleRow) : list CandleRow :=
  if existsb (same_candle c) cs then map (fun d => if same_candle c d then c else d) cs else cs ++ [c].

Fixpoint upsert_candles (rows : list CandleRow) : tx unit :=
  match rows with
  | [] => mret tt
  | c :: rows =>
      _ ← raise_if (negb (candle_row_ok c)) check_violation;
      _ ← write (fun s => set_candles (upsert_candle c (candles s)) s);
      upsert_candles rows
  end.

Definition recomputeCandle (market : string) (at_ : Z) : tx unit :=
  let bucket := date_bin MINUTE at_ in
  rows ← read (fun s => filter (fun t => bucket <= tr_at t < bucket + MINUTE) (of_market market s));
  upsert_candles (candlesOf market rows).

Definition rebuildCandles (market : string) : tx Z :=
  _ ← write (fun s => set_candles (filter (fun c => cd_market c <> market) (candles s)) s);
  rows ← read (fun s => candlesOf market (of_market market s));
  _ ← raise_if (negb (forallb candle_row_ok rows)) check_violation;
  _ ← write (fun s => set_candles (candles s ++ rows) s);
  mret (Z.of_nat (length rows)).

(** *** Queries *)

(** [ORDER BY seq DESC, fill_index DESC] *)
Fixpoint insert_trade (t : TradeRow) (sorted : list TradeRow) : list TradeRow :=
  match sorted with
  | [] => [t]
  | u :: sorted => if key_lt (trade_key u) (trade_key t) then t :: u :: sorted else u :: insert_trade t sorted
  end.

Definition newest_trades (ts : list TradeRow) : list TradeRow := foldr insert_trade [] ts.

(** [AND (seq, fill_index) < before] *)
Definition older (before : option EventKey) (t : TradeRow) : bool :=
  match before with Some k => key_lt (trade_key t) k | None => true end.

Definition listTrades (market : string) (limit : nat) (before : option EventKey) (s : Store) : list TradeRow :=
  take limit (newest_trades (filter (fun t => older before t = true) (of_market market s))).

Record CandleRecord := mkCandleRecord {
  cr_bucket : Z; cr_open : Z; cr_high : Z; cr_low : Z; cr_close : Z; cr_base : Z; cr_quote : Z; cr_count : Z
}.

(** [SELECT date_bin(width, ..), .. GROUP BY 1 ORDER BY 1 ASC] *)
Definition by_bucket {A} (bin : A -> Z) (record : Z -> list A -> option CandleRecord) (rows : list A) : list CandleRecord :=
  omap (fun b => record b (filter (fun x => bin x = b) rows)) (merge_sort Z.le (remove_dups (map bin rows))).

(** A record from the candles of its group. *)
Definition record_of_candles (bucket : Z) (cs : list CandleRow) : option CandleRecord :=
  match cs with
  | [] => None
  | c :: rest =>
      Some (mkCandleRecord bucket (cd_open (first_by cd_openKey c rest)) (maximum cd_high c rest) (minimum cd_low c rest)
        (cd_close (last_by cd_closeKey c rest)) (total cd_baseVolume cs) (total cd_quoteVolume cs) (total cd_tradeCount cs))
  end.

(** The same from the trades of its group. *)
Definition record_of_trades (bucket : Z) (ts : list TradeRow) : option CandleRecord :=
  match ts with
  | [] => None
  | t :: rest =>
      Some (mkCandleRecord bucket (tr_price (first_by trade_key t rest)) (maximum tr_price t rest) (minimum tr_price t rest)
        (tr_price (last_by trade_key t rest)) (total tr_qty ts) (total tr_quoteQty ts) (Z.of_nat (length ts)))
  end.

Definition listCandles (market : string) (intervalSeconds from to : Z) (limit : nat) (s : Store) : list CandleRecord :=
  let rows := filter (fun c => cd_market c = market /\ from <= cd_bucket c < to) (candles s) in
  rev (take limit (rev (by_bucket (fun c => date_bin (intervalSeconds * 1000) (cd_bucket c)) record_of_candles rows))).

Definition candlesFromTrades (market : string) (intervalSeconds from to : Z) (s : Store) : list CandleRecord :=
  by_bucket (fun t => date_bin (intervalSeconds * 1000) (tr_at t)) record_of_trades
    (filter (fun t => from <= tr_at t < to) (of_market market s)).

Record Ticker := mkTicker {
  tk_last : option (Z * Z);
  tk_window : option CandleRecord
}.

Definition DAY : Z := 86400000.

(** [ticker]: of the window's record, what is returned is all but the close and the count. *)
Definition ticker (market : string) (now : Z) (s : Store) : Ticker :=
  mkTicker ((fun t => (tr_price t, tr_at t)) <$> head (newest_trades (of_market market s)))
    (record_of_candles (date_bin MINUTE (now - DAY))
      (filter (fun c => cd_market c = market /\ date_bin MINUTE (now - DAY) <= cd_bucket c < now) (candles s))).

(** ** The consumer *)

Definition MARKET_DATA_CONSUMER : string := "market-data".

Inductive TapeOutcome := recorded | duplicate | noop.

Definition MAX_SAFE_INTEGER : Z := 2 ^ 53 - 1.

Definition fill_id_mismatch : error := TapeHaltError "fill_id_mismatch".

(** [/^(\d+):(\d+)$/] and the checks on its two numbers. *)
Definition fillIndex (event : FillEvent) : result Z :=
  let (before, rest) := span is_digit (text_of (ev_fillId event)) in
  match before, rest with
  | _ :: _, colon :: after =>
      if bool_decide (colon = chr 58) && negb (bool_decide (after = [])) && forallb is_digit after
      then _ ← throw_if (negb (digits_value before =? ev_seq event)) fill_id_mismatch;
           _ ← throw_if (digits_value after >? MAX_SAFE_INTEGER) fill_id_mismatch;
           Ok (digits_value after)
      else Throw fill_id_mismatch
  | _, _ => Throw fill_id_mismatch
  end.

(** [new Date(Number(ms))], when it is written: a date is at most 8.64e15 milliseconds from
    the epoch, and an invalid one cannot be. *)
Definition js_date (ms : Z) : result Z :=
  if Z.abs ms <=? 8640000000000000 then Ok ms else Throw RangeError.

Definition trade_of (market : string) (event : FillEvent) : result TradeRow :=
  index ← fillIndex event;
  quoteQty ← notional (ev_price event) (ev_qty event);
  at_ ← js_date (ev_timestampMs event);
  Ok (mkTradeRow market (ev_seq event) index (ev_price event) (ev_qty event) quoteQty (ev_takerSide event) at_).

(** [apply] *)
Definition tape_apply (market : string) (event : SettlementEvent) : tx TapeOutcome :=
  match event with
  | fill e =>
      t ← lift (trade_of market e);
      fresh ← insertTrade t;
      if negb fresh then mret duplicate else
      _ ← recomputeCandle market (tr_at t);
      mret recorded
  | _ => mret noop
  end.

Definition tape_haltReason (e : error) : option string :=
  match e with
  | TapeHaltError reason => Some reason
  | UndecodableEventError _ => Some "undecodable_event"
  | MalformedStreamEntryError _ => Some "malformed_stream_entry"
  | e => constraintHaltReason e
  end.

(** [createTapeConsumer]: what the tape of one market gives its consumer. *)
Definition tape (parseEngineJson : string -> result value) (market : string) : Consumable SettlementEvent TapeOutcome := {|
  decode := decodeSettlementEvent parseEngineJson;
  seq_of_event := event_seq;
  apply_event := fun _ event => tape_apply market event;
  Consumer.haltReason := tape_haltReason
|}.
