(* ===== verification/Candles.v ===== *)
(** * Candles and their trades

    What [Tape] keeps true of the two public tables: a candle is the aggregate of the trades
    of its minute, through every event the consumer applies and every rebuild, and candles
    of any interval that are aggregated from candles are those aggregated from trades. *)

From Stdlib Require Import ZArith Lia.
From stdpp Require Import base list strings gmap sorting.
From S2P Require Import Prelude Decimal Assets Price Orders Store Events Consumer Worker Tape.

Open Scope string_scope.
Open Scope list_scope.
Open Scope Z_scope.

(** ** Lemmas: aggregates *)

Definition precedes (a b : EventKey) : Prop := seq a < seq b \/ seq a = seq b /\ idx a < idx b.

Lemma key_lt_precedes a b : key_lt a b = true <-> precedes a b.
Proof. unfold key_lt, precedes. rewrite orb_true_iff, andb_true_iff, !Z.ltb_lt, Z.eqb_eq. done. Qed.

Lemma precedes_total a b : precedes a b \/ a = b \/ precedes b a.
Proof. unfold precedes. destruct a as [s i], b as [s' i']. simpl. destruct (Z.lt_trichotomy s s') as [|[->|]]; [auto| |auto].
  destruct (Z.lt_trichotomy i i') as [|[->|]]; auto. Qed.

(** The element that comes first by a key: no other comes before it. *)
Lemma first_by_spec {A} (key : A -> EventKey) x xs :
  first_by key x xs ∈ x :: xs /\ forall y, y ∈ x :: xs -> ~ precedes (key y) (key (first_by key x xs)).
Proof.
  unfold first_by. revert x. induction xs as [|z xs IH]; intros x; simpl.
  - split; [by left|]. intros y ->%list_elem_of_singleton. unfold precedes. lia.
  - destruct (key_lt (key z) (key x)) eqn:E.
    + destruct (IH z) as [Hin Hmin]. split; [by right|]. intros y [->|Hy]%elem_of_cons; [|by apply Hmin].
      apply key_lt_precedes in E. specialize (Hmin z ltac:(by left)). unfold precedes in *. lia.
    + destruct (IH x) as [Hin Hmin]. split; [apply elem_of_cons in Hin as [->|Hin]; [by left|by right; right]|].
      intros y [->|[->|Hy]%elem_of_cons]%elem_of_cons; [apply Hmin; by left| |apply Hmin; by right].
      assert (Hn : ~ precedes (key z) (key x)) by (rewrite <- key_lt_precedes, E; done).
      specialize (Hmin x ltac:(by left)). unfold precedes in *. lia.
Qed.

Lemma last_by_spec {A} (key : A -> EventKey) x xs :
  last_by key x xs ∈ x :: xs /\ forall y, y ∈ x :: xs -> ~ precedes (key (last_by key x xs)) (key y).
Proof.
  unfold last_by. revert x. induction xs as [|z xs IH]; intros x; simpl.
  - split; [by left|]. intros y ->%list_elem_of_singleton. unfold precedes. lia.
  - destruct (key_lt (key x) (key z)) eqn:E.
    + destruct (IH z) as [Hin Hmin]. split; [by right|]. intros y [->|Hy]%elem_of_cons; [|by apply Hmin].
      apply key_lt_precedes in E. specialize (Hmin z ltac:(by left)). unfold precedes in *. lia.
    + destruct (IH x) as [Hin Hmin]. split; [apply elem_of_cons in Hin as [->|Hin]; [by left|by right; right]|].
      intros y [->|[->|Hy]%elem_of_cons]%elem_of_cons; [apply Hmin; by left| |apply Hmin; by right].
      assert (Hn : ~ precedes (key x) (key z)) by (rewrite <- key_lt_precedes, E; done).
      specialize (Hmin x ltac:(by left)). unfold precedes in *. lia.
Qed.

Lemma maximum_spec {A} (f : A -> Z) x xs :
  (exists y, y ∈ x :: xs /\ maximum f x xs = f y) /\ forall y, y ∈ x :: xs -> f y <= maximum f x xs.
Proof.
  unfold maximum. assert (forall m, (fold_left (fun m y => Z.max m (f y)) xs m = m \/ exists y, y ∈ xs /\ fold_left (fun m y => Z.max m (f y)) xs m = f y) /\
    m <= fold_left (fun m y => Z.max m (f y)) xs m /\ forall y, y ∈ xs -> f y <= fold_left (fun m y => Z.max m (f y)) xs m) as H.
  { induction xs as [|z xs IH]; intros m; simpl; [split; [by left|]; split; [lia|]; by intros y ?%not_elem_of_nil|].
    destruct (IH (Z.max m (f z))) as (Hm & Hle & Hall). split; [|split; [lia|]].
    - destruct Hm as [Hm|(y & Hy & Hm)]; [|right; exists y; split; [by right|done]]. rewrite Hm.
      destruct (Z.max_spec m (f z)) as [[? ->]|[? ->]]; [right; exists z; split; [by left|done]|by left].
    - intros y [->|Hy]%elem_of_cons; [lia|by apply Hall]. }
  destruct (H (f x)) as (Hm & Hle & Hall). split.
  - destruct Hm as [Hm|(y & Hy & Hm)]; [exists x; split; [by left|done]|exists y; split; [by right|done]].
  - intros y [->|Hy]%elem_of_cons; [done|by apply Hall].
Qed.

Lemma minimum_maximum {A} (f : A -> Z) x xs : minimum f x xs = - maximum (fun y => - f y) x xs.
Proof.
  unfold minimum, maximum. assert (forall m, fold_left (fun m y => Z.min m (f y)) xs m = - fold_left (fun m y => Z.max m (- f y)) xs (- m)) as H.
  { induction xs as [|z xs IH]; intros m; simpl; [lia|]. rewrite IH. f_equal. f_equal. lia. }
  by rewrite H.
Qed.

Lemma minimum_spec {A} (f : A -> Z) x xs :
  (exists y, y ∈ x :: xs /\ minimum f x xs = f y) /\ forall y, y ∈ x :: xs -> minimum f x xs <= f y.
Proof.
  rewrite minimum_maximum. destruct (maximum_spec (fun y => - f y) x xs) as [(y & Hy & E) Hall].
  split; [exists y; split; [done|]; rewrite E; lia|]. intros z Hz. specialize (Hall z Hz). simpl in Hall. lia.
Qed.

Lemma total_cons {A} (f : A -> Z) x xs : total f (x :: xs) = f x + total f xs.
Proof. unfold total. simpl. by rewrite zsum_cons. Qed.

Lemma total_le {A} (f : A -> Z) xs : (forall x, x ∈ xs -> 0 <= f x) -> 0 <= total f xs.
Proof.
  induction xs as [|x xs IH]; intros H; [done|]. rewrite total_cons. specialize (IH ltac:(intros; apply H; by right)).
  specialize (H x ltac:(by left)). lia.
Qed.

(** ** Lemmas: groups *)

Lemma date_bin_spec w t : 0 < w -> date_bin w t <= t < date_bin w t + w /\ (w | date_bin w t).
Proof. intros Hw. unfold date_bin. pose proof (Z.div_mod t w). pose proof (Z.mod_pos_bound t w). split; [lia|]. by exists (t / w). Qed.

Lemma date_bin_unique w t b : 0 < w -> (w | b) -> b <= t < b + w -> date_bin w t = b.
Proof.
  intros Hw [q ->] H. unfold date_bin. f_equal. symmetry. apply (Z.div_unique t w q (t - q * w)); lia.
Qed.

Lemma date_bin_id w b : 0 < w -> (w | b) -> date_bin w b = b.
Proof. intros Hw Hb. apply date_bin_unique; [done|done|lia]. Qed.

(** The trades of a market's minute. *)
Definition minute_trades (market : string) (bucket : Z) (s : Store) : list TradeRow :=
  filter (fun t => minute_of t = bucket) (of_market market s).

Lemma candle_of_at m b rows c : candle_of m b rows = Some c -> cd_market c = m /\ cd_bucket c = b.
Proof. destruct rows; simpl; [done|]. by intros [= <-]. Qed.

Lemma candlesOf_elem m rows c :
  c ∈ candlesOf m rows <-> candle_of m (cd_bucket c) (filter (fun t => minute_of t = cd_bucket c) rows) = Some c.
Proof.
  unfold candlesOf. rewrite list_elem_of_omap. split.
  - intros (b & _ & H). apply candle_of_at in H as Hb. destruct Hb as [_ ->]. done.
  - intros H. exists (cd_bucket c). split; [|done]. apply elem_of_remove_dups.
    destruct (filter _ rows) as [|t ts] eqn:E; [done|].
    assert (t ∈ filter (fun t => minute_of t = cd_bucket c) rows) as [<- Ht]%list_elem_of_filter by (rewrite E; by left).
    by apply list_elem_of_fmap_2.
Qed.

Lemma candlesOf_buckets m rows : NoDup (map cd_bucket (candlesOf m rows)).
Proof.
  unfold candlesOf. generalize (NoDup_remove_dups (map minute_of rows)). induction (remove_dups (map minute_of rows)) as [|b bs IH]; intros H; [constructor|].
  apply NoDup_cons in H as [Hb H]. simpl. destruct (candle_of m b _) as [c|] eqn:E; simpl; [|by apply IH].
  apply candle_of_at in E as [_ Ec]. constructor; [|by apply IH]. rewrite Ec.
  intros (d & Hd & (b' & Hb' & E')%list_elem_of_omap)%list_elem_of_fmap. apply candle_of_at in E' as [_ E']. congruence.
Qed.

Lemma candle_of_ok m b rows c :
  Forall (fun t => trade_row_ok t = true) rows -> b = date_bin MINUTE b -> candle_of m b rows = Some c -> candle_row_ok c = true.
Proof.
  intros Hok Hb H. destruct rows as [|t ts]; [done|]. injection H as <-. rewrite Forall_forall in Hok.
  assert (Hpos : forall x, x ∈ t :: ts -> 0 < tr_price x /\ 0 < tr_qty x /\ 0 <= tr_quoteQty x).
  { intros x Hx%Hok. unfold trade_row_ok in Hx. rewrite !andb_true_iff, !Z.gtb_lt, !Z.geb_le in Hx. lia. }
  destruct (first_by_spec trade_key t ts) as [Hf _], (last_by_spec trade_key t ts) as [Hl _].
  destruct (maximum_spec tr_price t ts) as [_ Hmax], (minimum_spec tr_price t ts) as [(y & Hy & Ey) Hmin].
  pose proof (Hmax _ Hf). pose proof (Hmax _ Hl). pose proof (Hmin _ Hf). pose proof (Hmin _ Hl).
  pose proof (proj1 (Hpos _ Hy)). pose proof (Hpos t ltac:(by left)).
  assert (0 <= total tr_qty ts) by (apply total_le; intros x Hx; specialize (Hpos x ltac:(by right)); lia).
  assert (0 <= total tr_quoteQty (t :: ts)) by (apply total_le; intros x Hx; specialize (Hpos x Hx); lia).
  unfold candle_row_ok. cbn [cd_low cd_open cd_close cd_high cd_tradeCount cd_baseVolume cd_quoteVolume cd_bucket].
  rewrite (total_cons tr_qty). rewrite !andb_true_iff, !Z.gtb_lt, !Z.geb_le, !Z.leb_le, Z.eqb_eq. simpl length.
  repeat split; try lia; done.
Qed.

(** ** The invariant *)

Record tape_ok (s : Store) : Prop := {
  to_keys : NoDup (map (fun t => (tr_market t, trade_key t)) (trades s));
  to_rows : Forall (fun t => trade_row_ok t = true) (trades s);
  to_candle_keys : NoDup (map (fun c => (cd_market c, cd_bucket c)) (candles s));
  to_candles : forall c, c ∈ candles s <->
    candle_of (cd_market c) (cd_bucket c) (minute_trades (cd_market c) (cd_bucket c) s) = Some c
}.

Lemma minute_rows market at_ s :
  filter (fun t => date_bin MINUTE at_ <= tr_at t < date_bin MINUTE at_ + MINUTE) (of_market market s) =
  minute_trades market (date_bin MINUTE at_) s.
Proof.
  unfold minute_trades. apply list_filter_iff. intros t. unfold minute_of. split.
  - intros H. apply date_bin_unique; [done|apply date_bin_spec; done|done].
  - intros <-. by apply date_bin_spec.
Qed.

Lemma minute_rows_all market b (rows : list TradeRow) :
  rows <> [] -> (forall t, t ∈ rows -> minute_of t = b) ->
  candlesOf market rows = match candle_of market b rows with Some c => [c] | None => [] end.
Proof.
  intros Hne H. unfold candlesOf. assert (Hd : remove_dups (map minute_of rows) = [b]).
  { assert (Hp : remove_dups (map minute_of rows) ≡ₚ [b]).
    { apply NoDup_Permutation; [apply NoDup_remove_dups|apply NoDup_singleton|]. intros x.
      rewrite elem_of_remove_dups, list_elem_of_fmap, list_elem_of_singleton. split.
      - intros (t & -> & Ht). by apply H.
      - intros ->. destruct rows as [|t rows]; [done|]. exists t. split; [symmetry; apply H; by left|by left]. }
    by apply Permutation_singleton_r. }
  rewrite Hd. simpl. rewrite (filter_all (fun t => minute_of t = b)) by done. by destruct (candle_of market b rows).
Qed.

Lemma same_candle_spec c d : same_candle c d = true <-> cd_market c = cd_market d /\ cd_bucket c = cd_bucket d.
Proof. unfold same_candle. rewrite andb_true_iff, bool_decide_eq_true, Z.eqb_eq. done. Qed.

Lemma upsert_elem c cs d : d ∈ upsert_candle c cs <-> d = c \/ d ∈ cs /\ same_candle c d = false.
Proof.
  unfold upsert_candle. destruct (existsb (same_candle c) cs) eqn:E.
  - apply existsb_exists in E as (x & Hx & Ex). rewrite list_elem_of_fmap. split.
    + intros (y & -> & Hy). destruct (same_candle c y) eqn:Ey; [by left|by right].
    + intros [->|[Hd Ed]]; [exists x; rewrite Ex; split; [done|by apply list_elem_of_In]|exists d; by rewrite Ed].
  - rewrite elem_of_app, list_elem_of_singleton. split; [|tauto]. intros [Hd| ->]; [right|by left]. split; [done|].
    apply existsb_none with (x := d) in E; done.
Qed.

Lemma upsert_keys c cs :
  NoDup (map (fun c => (cd_market c, cd_bucket c)) cs) ->
  NoDup (map (fun c => (cd_market c, cd_bucket c)) (upsert_candle c cs)).
Proof.
  intros H. unfold upsert_candle. destruct (existsb (same_candle c) cs) eqn:E.
  - replace (map _ (map _ cs)) with (map (fun c => (cd_market c, cd_bucket c)) cs); [done|]. rewrite map_map. apply map_ext.
    intros d. destruct (same_candle c d) eqn:Ed; [|done]. apply same_candle_spec in Ed as [? ?]. congruence.
  - rewrite map_app. apply NoDup_app. split; [done|]. split; [|apply NoDup_singleton].
    intros k (d & -> & Hd)%list_elem_of_fmap Hk%list_elem_of_singleton. apply existsb_none with (x := d) in E; [|done].
    assert (same_candle c d = true) by (apply same_candle_spec; by injection Hk as -> ->). congruence.
Qed.

Lemma minute_trades_snoc m b t s :
  minute_trades m b (set_trades (trades s ++ [t]) s) =
  minute_trades m b s ++ (if decide (tr_market t = m /\ minute_of t = b) then [t] else []).
Proof.
  unfold minute_trades, of_market. simpl trades. rewrite !filter_app. f_equal.
  destruct (decide (tr_market t = m)) as [Hm|Hm].
  - rewrite (filter_cons_True (fun t => tr_market t = m)) by done. rewrite filter_nil.
    destruct (decide (minute_of t = b)); [rewrite filter_cons_True, decide_True by done; done|].
    rewrite filter_cons_False, decide_False by tauto. done.
  - rewrite (filter_cons_False (fun t => tr_market t = m)) by done. rewrite decide_False by tauto. done.
Qed.

(** The trade and its candle, in one transaction, leave every candle right. *)
Lemma record_trade_ok t s c :
  tape_ok s -> trade_row_ok t = true -> (tr_market t, trade_key t) ∉ map (fun t => (tr_market t, trade_key t)) (trades s) ->
  candle_of (tr_market t) (minute_of t) (minute_trades (tr_market t) (minute_of t) (set_trades (trades s ++ [t]) s)) = Some c ->
  tape_ok (set_candles (upsert_candle c (candles s)) (set_trades (trades s ++ [t]) s)).
Proof.
  intros [Hk Hr Hck Hc] Ht Hnew Ec. pose proof (candle_of_at _ _ _ _ Ec) as [Em Eb]. split; simpl.
  - rewrite map_app. apply NoDup_app. split; [done|]. split; [|apply NoDup_singleton].
    intros k Hin ->%list_elem_of_singleton. done.
  - apply Forall_app. split; [done|]. by constructor.
  - by apply upsert_keys.
  - intros d. rewrite upsert_elem.
    change (minute_trades (cd_market d) (cd_bucket d) (set_candles (upsert_candle c (candles s)) (set_trades (trades s ++ [t]) s)))
      with (minute_trades (cd_market d) (cd_bucket d) (set_trades (trades s ++ [t]) s)).
    destruct (same_candle c d) eqn:E.
    + apply same_candle_spec in E as [Em' Eb']. rewrite <- Em', <- Eb', Em, Eb, Ec. split.
      * by intros [->|[_ ?]].
      * intros [= ->]. by left.
    + rewrite minute_trades_snoc, decide_False, app_nil_r.
      * rewrite <- Hc. split; [intros [->|[? _]]; [|done]|auto]. by rewrite (proj2 (same_candle_spec c c)) in E by done.
      * intros [E1 E2]. rewrite (proj2 (same_candle_spec c d)) in E; [done|]. by rewrite Em, Eb.
Qed.

Lemma minute_trades_nonempty t s : t ∈ trades s -> minute_trades (tr_market t) (minute_of t) s <> [].
Proof.
  intros Ht E. assert (t ∈ minute_trades (tr_market t) (minute_of t) s) as Hin by (unfold minute_trades, of_market; rewrite !list_elem_of_filter; done).
  rewrite E in Hin. by apply not_elem_of_nil in Hin.
Qed.

Lemma minute_trades_elem m b s t : t ∈ minute_trades m b s <-> t ∈ trades s /\ tr_market t = m /\ minute_of t = b.
Proof. unfold minute_trades, of_market. rewrite !list_elem_of_filter. tauto. Qed.

(** [recomputeCandle] does not fail, and sets the candle of its minute. *)
Lemma recomputeCandle_Ok t s :
  t ∈ trades s -> Forall (fun t => trade_row_ok t = true) (trades s) ->
  exists c, candle_of (tr_market t) (minute_of t) (minute_trades (tr_market t) (minute_of t) s) = Some c /\
    recomputeCandle (tr_market t) (tr_at t) s = Ok (tt, set_candles (upsert_candle c (candles s)) s).
Proof.
  intros Ht Hr. pose proof (minute_trades_nonempty t s Ht) as Hne.
  assert (He : exists c, candle_of (tr_market t) (minute_of t) (minute_trades (tr_market t) (minute_of t) s) = Some c).
  { destruct (minute_trades _ _ s); [done|]. eauto. }
  destruct He as [c Ec]. exists c. split; [done|].
  unfold recomputeCandle, mbind, tx_bind, read. rewrite minute_rows. change (date_bin MINUTE (tr_at t)) with (minute_of t).
  rewrite (minute_rows_all _ (minute_of t)); [|done|by intros x (_ & _ & ?)%minute_trades_elem].
  rewrite Ec. simpl. unfold mbind, tx_bind, raise_if, lift, throw_if, write.
  assert (Hok : candle_row_ok c = true); [|by rewrite Hok].
  eapply candle_of_ok; [| |exact Ec].
  - apply Forall_forall. intros x (Hx & _)%minute_trades_elem. rewrite Forall_forall in Hr. by apply Hr.
  - unfold minute_of. symmetry. apply date_bin_id; [done|]. by apply date_bin_spec.
Qed.

(** ** Lemmas: what a transaction of the tape does *)

(** The key of a trade, and the keys that are there. *)
Definition row_key (t : TradeRow) : string * EventKey := (tr_market t, trade_key t).

Lemma known_key t (rows : list TradeRow) :
  existsb (fun u => bool_decide (tr_market u = tr_market t) && bool_decide (trade_key u = trade_key t)) rows = true <->
  row_key t ∈ map row_key rows.
Proof.
  rewrite existsb_exists, list_elem_of_fmap. unfold row_key. split.
  - intros (u & Hu & [Hm%bool_decide_eq_true Hk%bool_decide_eq_true]%andb_true_iff). exists u. rewrite Hm, Hk.
    split; [done|by apply list_elem_of_In].
  - intros (u & [Hm Hk]%pair_eq & Hu). exists u. rewrite andb_true_iff, !bool_decide_eq_true.
    split; [by apply list_elem_of_In|by split].
Qed.

(** A trade whose numbers fit the columns. *)
Definition fits (t : TradeRow) : Prop := trade_row_ok t = true /\ tr_seq t <= MAX_INT8 /\ tr_index t <= MAX_INT4.

Lemma insertTrade_fits t s :
  fits t -> insertTrade t s = if decide (row_key t ∈ map row_key (trades s)) then Ok (false, s)
                              else Ok (true, set_trades (trades s ++ [t]) s).
Proof.
  intros (Hok & Hs & Hi). unfold insertTrade, mbind, tx_bind, raise_if, lift, throw_if, read, write.
  replace ((tr_seq t >? MAX_INT8) || (tr_index t >? MAX_INT4)) with false by (symmetry; rewrite orb_false_iff, !Z.gtb_ltb, !Z.ltb_ge; lia).
  rewrite Hok. simpl. destruct (existsb _ (trades s)) eqn:E.
  - apply known_key in E. by rewrite decide_True.
  - rewrite decide_False; [done|]. rewrite <- known_key, E. done.
Qed.

Lemma insertTrade_Ok t s fresh s' : insertTrade t s = Ok (fresh, s') -> fits t.
Proof.
  unfold insertTrade. intros H. apply tx_bind_Ok in H as (u & s1 & [Hr ->]%raise_if_Ok & H).
  apply tx_bind_Ok in H as (v & s2 & [Hok ->]%raise_if_Ok & _). apply negb_false_iff in Hok.
  apply orb_false_iff in Hr as [Hs Hi]. rewrite Z.gtb_ltb, Z.ltb_ge in Hs, Hi. by split.
Qed.

(** What the tape makes of a fill that fits, whatever is there. *)
Lemma tape_fill m e t s :
  trade_of m e = Ok t -> fits t -> tape_ok s -> exists s',
    tape_apply m (fill e) s = Ok (if decide (row_key t ∈ map row_key (trades s)) then duplicate else recorded, s') /\ tape_ok s' /\
    if decide (row_key t ∈ map row_key (trades s)) then s' = s
    else exists cs, s' = set_candles cs (set_trades (trades s ++ [t]) s).
Proof.
  intros Ht Hfit Hok. unfold tape_apply. unfold mbind, tx_bind. unfold lift at 1. rewrite Ht, insertTrade_fits by done.
  assert (Hm : tr_market t = m).
  { unfold trade_of in Ht. inv_ok. done. }
  destruct (decide _) as [Hin|Hnew]; simpl; [by exists s|].
  destruct (recomputeCandle_Ok t (set_trades (trades s ++ [t]) s)) as (c & Ec & Er).
  - simpl. apply elem_of_app. right. by left.
  - simpl. apply Forall_app. split; [apply Hok|]. constructor; [apply Hfit|constructor].
  - rewrite <- Hm, Er. eexists. split; [reflexivity|]. split; [|by eexists].
    simpl. apply record_trade_ok; [done|apply Hfit|done|done].
Qed.

Lemma tape_apply_ok m event s o s' : tape_apply m event s = Ok (o, s') -> tape_ok s -> tape_ok s'.
Proof.
  intros H Hok. destruct event as [e| | | | |]; try by (simpl in H; inv_tx).
  destruct (trade_of m e) as [t|] eqn:Et; [|by unfold tape_apply, mbind, tx_bind, lift in H; rewrite Et in H].
  assert (Hfit : fits t).
  { unfold tape_apply in H. apply tx_bind_Ok in H as (t' & s1 & H1 & H). apply lift_Ok in H1 as [E ->]. rewrite Et in E. injection E as <-.
    apply tx_bind_Ok in H as (f & s2 & H2 & _). by eapply insertTrade_Ok. }
  destruct (tape_fill m e t s Et Hfit Hok) as (s1 & E & Hs1 & _). rewrite E in H. by injection H as _ <-.
Qed.

Lemma rebuilt_elem m s c :
  tape_ok s -> c ∈ filter (fun c => cd_market c <> m) (candles s) ++ candlesOf m (of_market m s) <-> c ∈ candles s.
Proof.
  intros Hok. rewrite elem_of_app, list_elem_of_filter, candlesOf_elem, (to_candles s Hok c). unfold minute_trades. split.
  - intros [[_ H]|H]; [done|]. apply candle_of_at in H as Hm. destruct Hm as [-> _]. done.
  - intros H. destruct (decide (cd_market c = m)) as [<-|]; [by right|by left].
Qed.

Lemma rebuildCandles_Ok m s :
  tape_ok s -> exists n s', rebuildCandles m s = Ok (n, s') /\ candles s' ≡ₚ candles s /\
    s' = set_candles (candles s') s /\ tape_ok s'.
Proof.
  intros Hok. unfold rebuildCandles, mbind, tx_bind, read, write, raise_if, lift, throw_if, mret, tx_ret.
  set (s1 := set_candles _ s). change (of_market m s1) with (of_market m s).
  assert (Hrows : forallb candle_row_ok (candlesOf m (of_market m s)) = true).
  { apply forallb_forall. intros c Hc%list_elem_of_In%candlesOf_elem. eapply candle_of_ok; [| |exact Hc].
    - apply Forall_forall. intros t Ht. apply list_elem_of_filter in Ht as [_ Ht]. apply list_elem_of_filter in Ht as [_ Ht].
      pose proof (to_rows s Hok) as Hr. rewrite Forall_forall in Hr. by apply Hr.
    - destruct (filter (fun t => minute_of t = cd_bucket c) (of_market m s)) as [|t ts] eqn:E; [done|].
      assert (Ht : t ∈ filter (fun t => minute_of t = cd_bucket c) (of_market m s)) by (rewrite E; by left).
      apply list_elem_of_filter in Ht as [<- _]. unfold minute_of. symmetry. apply date_bin_id; [done|by apply date_bin_spec]. }
  rewrite Hrows. simpl. eexists _, _. split; [reflexivity|]. simpl.
  set (cs := filter _ (candles s) ++ candlesOf m (of_market m s)).
  assert (Hp : cs ≡ₚ candles s).
  { apply NoDup_Permutation; [|eapply NoDup_fmap_1, to_candle_keys; done|intros c; by apply rebuilt_elem].
    unfold cs. apply NoDup_app. split; [apply NoDup_filter; eapply NoDup_fmap_1, to_candle_keys; done|]. split.
    - intros c [Hne _]%list_elem_of_filter Hc%candlesOf_elem. by apply candle_of_at in Hc as [? _].
    - eapply NoDup_fmap_1, candlesOf_buckets. }
  split; [exact Hp|]. split; [done|]. destruct Hok as [Hk Hr Hck Hc]. split; simpl; [done|done| |].
  - by rewrite Hp.
  - intros c. change (minute_trades (cd_market c) (cd_bucket c) (set_candles cs s1)) with (minute_trades (cd_market c) (cd_bucket c) s).
    rewrite <- Hc. by rewrite Hp.
Qed.

(** ** Lemmas: aggregates of aggregates *)

(** Two ways to walk the same trades come first at the same one. *)
Lemma first_unique {A} (key : A -> EventKey) x xs y :
  (forall a b, a ∈ x :: xs -> b ∈ x :: xs -> key a = key b -> a = b) ->
  y ∈ x :: xs -> (forall z, z ∈ x :: xs -> ~ precedes (key z) (key y)) -> first_by key x xs = y.
Proof.
  intros Hinj Hy Hmin. destruct (first_by_spec key x xs) as [Hin Hfirst]. apply Hinj; [done|done|].
  destruct (precedes_total (key (first_by key x xs)) (key y)) as [H|[H|H]]; [by apply Hmin in H|done|by apply Hfirst in H].
Qed.

Lemma last_unique {A} (key : A -> EventKey) x xs y :
  (forall a b, a ∈ x :: xs -> b ∈ x :: xs -> key a = key b -> a = b) ->
  y ∈ x :: xs -> (forall z, z ∈ x :: xs -> ~ precedes (key y) (key z)) -> last_by key x xs = y.
Proof.
  intros Hinj Hy Hmin. destruct (last_by_spec key x xs) as [Hin Hlast]. apply Hinj; [done|done|].
  destruct (precedes_total (key (last_by key x xs)) (key y)) as [H|[H|H]]; [by apply Hlast in H|done|by apply Hmin in H].
Qed.

(** The seq of the candle's keys is that of its first and last trades. *)
Lemma candle_keys m b t ts c :
  candle_of m b (t :: ts) = Some c ->
  cd_openKey c = trade_key (first_by trade_key t ts) /\ cd_closeKey c = trade_key (last_by trade_key t ts).
Proof.
  intros H. assert (Hmin : minimum tr_seq t ts = tr_seq (first_by trade_key t ts)).
  { destruct (first_by_spec trade_key t ts) as [Hin Hfirst]. destruct (minimum_spec tr_seq t ts) as [(y & Hy & E) Hall].
    specialize (Hall _ Hin). specialize (Hfirst _ Hy). unfold precedes in Hfirst. simpl in Hfirst. lia. }
  assert (Hmax : maximum tr_seq t ts = tr_seq (last_by trade_key t ts)).
  { destruct (last_by_spec trade_key t ts) as [Hin Hlast]. destruct (maximum_spec tr_seq t ts) as [(y & Hy & E) Hall].
    specialize (Hall _ Hin). specialize (Hlast _ Hy). unfold precedes in Hlast. simpl in Hlast. lia. }
  simpl in H. rewrite Hmin, Hmax in H. by injection H as <-.
Qed.

Lemma total_perm {A} (f : A -> Z) xs ys : xs ≡ₚ ys -> total f xs = total f ys.
Proof. induction 1; rewrite ?total_cons; lia. Qed.

Lemma total_app {A} (f : A -> Z) xs ys : total f (xs ++ ys) = total f xs + total f ys.
Proof. induction xs as [|x xs IH]; simpl; [done|]. rewrite !total_cons, IH. lia. Qed.

Lemma total_length {A} (xs : list A) : total (fun _ => 1) xs = Z.of_nat (length xs).
Proof. induction xs as [|x xs IH]; [done|]. rewrite total_cons, IH. simpl. lia. Qed.

Section Groups.
Context (m : string) (G : list TradeRow) (Cs : list CandleRow).
Context (Hnd : NoDup (map cd_bucket Cs)).
Context (Hc : forall c, c ∈ Cs -> candle_of m (cd_bucket c) (filter (fun t => minute_of t = cd_bucket c) G) = Some c).
Context (Hg : forall t, t ∈ G -> exists c, c ∈ Cs /\ cd_bucket c = minute_of t).

(** What a candle of the group says, by its trades. *)
Lemma group_candle c :
  c ∈ Cs ->
  (exists t0 t1, t0 ∈ G /\ t1 ∈ G /\ cd_openKey c = trade_key t0 /\ cd_open c = tr_price t0 /\
    cd_closeKey c = trade_key t1 /\ cd_close c = tr_price t1) /\
  (exists h l, h ∈ G /\ l ∈ G /\ cd_high c = tr_price h /\ cd_low c = tr_price l) /\
  forall t, t ∈ G -> minute_of t = cd_bucket c ->
    ~ precedes (trade_key t) (cd_openKey c) /\ ~ precedes (cd_closeKey c) (trade_key t) /\ cd_low c <= tr_price t <= cd_high c.
Proof using Hc.
  intros Hin. specialize (Hc c Hin). destruct (filter (fun t => minute_of t = cd_bucket c) G) as [|t ts] eqn:E; [done|].
  assert (Hsub : forall x, x ∈ t :: ts <-> x ∈ G /\ minute_of x = cd_bucket c).
  { intros x. rewrite <- E, list_elem_of_filter. tauto. }
  destruct (candle_keys _ _ _ _ _ Hc) as [Ek El].
  destruct (first_by_spec trade_key t ts) as [F1 F2], (last_by_spec trade_key t ts) as [L1 L2].
  destruct (maximum_spec tr_price t ts) as [(h & Hh & Eh) Hmax], (minimum_spec tr_price t ts) as [(l & Hl & Emin) Hmin].
  assert (E' : cd_open c = tr_price (first_by trade_key t ts) /\ cd_close c = tr_price (last_by trade_key t ts) /\
    cd_high c = maximum tr_price t ts /\ cd_low c = minimum tr_price t ts) by (injection Hc as <-; done).
  destruct E' as (Eo & Ec & Ehi & Elo). apply Hsub in F1 as F1', L1 as L1', Hh as Hh', Hl as Hl'.
  split; [exists (first_by trade_key t ts), (last_by trade_key t ts); tauto|].
  split; [exists h, l; rewrite Ehi, Elo; tauto|].
  intros x Hx Hm. assert (Hxin : x ∈ t :: ts) by (by apply Hsub). rewrite Ek, El, Ehi, Elo.
  split; [by apply F2|]. split; [by apply L2|]. split; [by apply Hmin|by apply Hmax].
Qed.

Lemma group_totals :
  total cd_baseVolume Cs = total tr_qty G /\ total cd_quoteVolume Cs = total tr_quoteQty G /\
  total cd_tradeCount Cs = Z.of_nat (length G).
Proof using Hc Hnd Hg.
  revert G Hc Hg Hnd. induction Cs as [|c cs IH]; intros ts Hc Hg Hnd.
  { destruct ts as [|t ts]; [done|]. destruct (Hg t ltac:(by left)) as (c & Hin & _). by apply not_elem_of_nil in Hin. }
  apply NoDup_cons in Hnd as [Hnew Hnd]. pose proof (Hc c ltac:(by left)) as Hcc.
  destruct (IH (filter (fun t => minute_of t <> cd_bucket c) ts)) as (E1 & E2 & E3).
  - intros d Hd. rewrite list_filter_filter. rewrite <- (Hc d) by (by right). f_equal. apply list_filter_iff. intros t.
    split; [tauto|]. intros E. split; [done|]. rewrite E. intros E'. apply Hnew. rewrite <- E'. by apply list_elem_of_fmap_2.
  - intros t [Hne Ht]%list_elem_of_filter. destruct (Hg t Ht) as (d & [->|Hd]%elem_of_cons & E); [by rewrite E in Hne|]. by exists d.
  - done.
  - assert (Hp : ts ≡ₚ filter (fun t => minute_of t = cd_bucket c) ts ++ filter (fun t => minute_of t <> cd_bucket c) ts).
    { symmetry. apply filter_app_complement. }
    pose proof (total_perm tr_qty _ _ Hp) as P1. pose proof (total_perm tr_quoteQty _ _ Hp) as P2. pose proof (Permutation_length Hp) as P3.
    rewrite total_app in P1, P2. rewrite length_app in P3. rewrite !total_cons, E1, E2, E3, P1, P2, P3.
    destruct (filter (fun t => minute_of t = cd_bucket c) ts) as [|x xs]; [done|]. injection Hcc as <-. simpl. lia.
Qed.

End Groups.

Lemma record_of_group m G Cs b :
  (forall a b, a ∈ G -> b ∈ G -> trade_key a = trade_key b -> a = b) -> NoDup (map cd_bucket Cs) ->
  (forall c, c ∈ Cs -> candle_of m (cd_bucket c) (filter (fun t => minute_of t = cd_bucket c) G) = Some c) ->
  (forall t, t ∈ G -> exists c, c ∈ Cs /\ cd_bucket c = minute_of t) ->
  record_of_candles b Cs = record_of_trades b G.
Proof.
  intros Hkeys Hnd Hc Hg. destruct (group_totals m G Cs Hnd Hc Hg) as (T1 & T2 & T3).
  pose proof (group_candle m G Cs Hc) as group_candle. clear Hnd Hc. destruct Cs as [|c cs] eqn:ECs, G as [|t ts] eqn:EG; try done.
  - destruct (group_candle c ltac:(by left)) as ((t & _ & Hin & _) & _). by apply not_elem_of_nil in Hin.
  - unfold record_of_candles, record_of_trades. rewrite T1, T2, T3. repeat f_equal.
    + destruct (first_by_spec cd_openKey c cs) as [F1 F2]. destruct (group_candle _ F1) as ((t0 & _ & Ht0 & _ & Ek & Eo & _) & _ & _).
      rewrite Eo. f_equal. symmetry. apply first_unique; [done|done|]. intros z Hz Hlt.
      destruct (Hg z Hz) as (d & Hd & Ed). destruct (group_candle d Hd) as (_ & _ & Hb). destruct (Hb z Hz (eq_sym Ed)) as (Hn & _).
      specialize (F2 d Hd). rewrite Ek in F2. unfold precedes in *. lia.
    + destruct (maximum_spec cd_high c cs) as [(d & Hd & E) Hall]. destruct (maximum_spec tr_price t ts) as [(u & Hu & E') Hall'].
      destruct (group_candle d Hd) as (_ & (h & _ & Hh & _ & Eh & _) & _). specialize (Hall' h Hh).
      destruct (Hg u Hu) as (e & He & Ee). destruct (group_candle e He) as (_ & _ & Hb). destruct (Hb u Hu (eq_sym Ee)) as (_ & _ & ?).
      specialize (Hall e He). lia.
    + destruct (minimum_spec cd_low c cs) as [(d & Hd & E) Hall]. destruct (minimum_spec tr_price t ts) as [(u & Hu & E') Hall'].
      destruct (group_candle d Hd) as (_ & (_ & l & _ & Hl & _ & El) & _). specialize (Hall' l Hl).
      destruct (Hg u Hu) as (e & He & Ee). destruct (group_candle e He) as (_ & _ & Hb). destruct (Hb u Hu (eq_sym Ee)) as (_ & _ & ?).
      specialize (Hall e He). lia.
    + destruct (last_by_spec cd_closeKey c cs) as [F1 F2]. destruct (group_candle _ F1) as ((_ & t1 & _ & Ht1 & _ & _ & Ek & Eo) & _ & _).
      rewrite Eo. f_equal. symmetry. apply last_unique; [done|done|]. intros z Hz Hlt.
      destruct (Hg z Hz) as (d & Hd & Ed). destruct (group_candle d Hd) as (_ & _ & Hb). destruct (Hb z Hz (eq_sym Ed)) as (_ & Hn & _).
      specialize (F2 d Hd). rewrite Ek in F2. unfold precedes in *. lia.
Qed.

Lemma date_bin_minute w t : 0 < w -> (MINUTE | w) -> date_bin w (date_bin MINUTE t) = date_bin w t.
Proof.
  intros Hw Hm. destruct (date_bin_spec w t Hw) as [Hb Hd]. apply date_bin_unique; [done|done|].
  destruct (date_bin_spec MINUTE t) as [[Hlo Hhi] [q Hq]]; [done|]. destruct Hm as [k ->], Hd as [j Hj].
  rewrite Hj in *. rewrite Hq in *. unfold MINUTE in *. split; [|lia]. nia.
Qed.

Lemma in_minutes from to t : (MINUTE | from) -> (MINUTE | to) -> from <= t < to <-> from <= date_bin MINUTE t < to.
Proof.
  intros [a ->] [b ->]. destruct (date_bin_spec MINUTE t) as [H [q E]]; [done|]. rewrite E in *. unfold MINUTE in *. lia.
Qed.

(** The queries' buckets depend on the values that are binned only. *)
Lemma buckets_eq (xs ys : list Z) : (forall b, b ∈ xs <-> b ∈ ys) -> merge_sort Z.le (remove_dups xs) = merge_sort Z.le (remove_dups ys).
Proof.
  intros H. apply (Sorted_unique Z.le); [apply (Sorted_merge_sort Z.le)|apply (Sorted_merge_sort Z.le)|].
  rewrite !merge_sort_Permutation. apply NoDup_Permutation; [apply NoDup_remove_dups|apply NoDup_remove_dups|].
  intros b. by rewrite !elem_of_remove_dups.
Qed.

Lemma omap_ext_in {A B} (f g : A -> option B) (xs : list A) : (forall x, x ∈ xs -> f x = g x) -> omap f xs = omap g xs.
Proof.
  induction xs as [|x xs IH]; intros H; [done|]. simpl. rewrite (H x) by (by left).
  specialize (IH ltac:(intros y Hy; apply H; by right)). destruct (g x); [by f_equal|done].
Qed.

Lemma NoDup_map_filter {A B} (f : A -> B) (P : A -> Prop) `{forall x, Decision (P x)} (l : list A) :
  NoDup (map f l) -> NoDup (map f (filter P l)).
Proof.
  induction l as [|x l IH]; intros Hn; [constructor|]. apply NoDup_cons in Hn as [Hx Hn]. destruct (decide (P x)) as [Hp|Hp].
  - rewrite filter_cons_True by done. constructor; [|by apply IH]. intros (y & E & [_ Hy]%list_elem_of_filter)%list_elem_of_fmap.
    apply Hx. rewrite E. by apply list_elem_of_fmap_2.
  - rewrite filter_cons_False by done. by apply IH.
Qed.

Lemma all_records_agree m w from to s :
  tape_ok s -> 0 < w -> (MINUTE | w) -> (MINUTE | from) -> (MINUTE | to) ->
  by_bucket (fun c => date_bin w (cd_bucket c)) record_of_candles
    (filter (fun c => cd_market c = m /\ from <= cd_bucket c < to) (candles s)) =
  by_bucket (fun t => date_bin w (tr_at t)) record_of_trades (filter (fun t => from <= tr_at t < to) (of_market m s)).
Proof.
  intros Hok Hw Hmw Hfrom Hto. set (R := filter _ (candles s)). set (T := filter _ (of_market m s)).
  assert (HT : forall t, t ∈ T <-> t ∈ trades s /\ tr_market t = m /\ from <= minute_of t < to).
  { intros t. unfold T, of_market. rewrite !list_elem_of_filter, (in_minutes from to) by done. unfold minute_of. tauto. }
  assert (HR : forall c, c ∈ R <-> c ∈ candles s /\ cd_market c = m /\ from <= cd_bucket c < to).
  { intros c. unfold R. rewrite list_elem_of_filter. tauto. }
  (* the minute of a candle of the range is wholly in the range *)
  assert (Hgroup : forall c, c ∈ R -> candle_of m (cd_bucket c) (filter (fun t => minute_of t = cd_bucket c) T) = Some c).
  { intros c (Hc & Hm & Hb)%HR. apply (to_candles s Hok) in Hc. rewrite Hm in Hc. rewrite <- Hc. f_equal. unfold T, minute_trades.
    rewrite list_filter_filter. apply list_filter_iff. intros t. split; [tauto|]. intros E. split; [done|].
    apply (in_minutes from to); [done|done|]. unfold minute_of in E. by rewrite E. }
  assert (Hcandle : forall t, t ∈ T -> exists c, c ∈ R /\ cd_bucket c = minute_of t).
  { intros t (Ht & Hm & Hb)%HT. pose proof (minute_trades_nonempty t s Ht) as Hne.
    destruct (candle_of (tr_market t) (minute_of t) (minute_trades (tr_market t) (minute_of t) s)) as [c|] eqn:E;
      [|by destruct (minute_trades (tr_market t) (minute_of t) s)].
    pose proof (candle_of_at _ _ _ _ E) as [Em Eb]. exists c. split; [|done]. apply HR. rewrite Em, Eb. split; [|done].
    apply (to_candles s Hok). by rewrite Em, Eb. }
  assert (Hbin : forall t, date_bin w (tr_at t) = date_bin w (minute_of t)) by (intros t; symmetry; by apply date_bin_minute).
  unfold by_bucket. rewrite (buckets_eq (map (fun c => date_bin w (cd_bucket c)) R) (map (fun t => date_bin w (tr_at t)) T)).
  - apply omap_ext_in. intros b _. apply (record_of_group m).
    + intros x y [_ (Hx & Hmx & _)%HT]%list_elem_of_filter [_ (Hy & Hmy & _)%HT]%list_elem_of_filter E.
      pose proof (to_keys s Hok) as Hk. apply list_elem_of_lookup in Hx as [i Hi], Hy as [j Hj].
      assert (i = j) as ->; [|congruence]. eapply (NoDup_lookup (map (fun t => (tr_market t, trade_key t)) (trades s))); [done| |].
      * rewrite list_lookup_fmap, Hi. done.
      * rewrite list_lookup_fmap, Hj. simpl. by rewrite E, Hmx, Hmy.
    + apply (NoDup_fmap_1 (fun b => (m, b))). rewrite <- list_fmap_compose.
      rewrite (list_fmap_ext _ (fun c => (cd_market c, cd_bucket c))).
      * apply NoDup_map_filter, NoDup_map_filter. apply (to_candle_keys s Hok).
      * intros i c Hc%list_elem_of_lookup_2. apply list_elem_of_filter in Hc as [_ (_ & -> & _)%HR]. done.
    + intros c [Eb Hc]%list_elem_of_filter. rewrite <- (Hgroup c Hc). f_equal. rewrite list_filter_filter. apply list_filter_iff.
      intros t. rewrite Hbin. split; [tauto|]. intros E. split; [done|]. by rewrite E.
    + intros t [Eb Ht]%list_elem_of_filter. destruct (Hcandle t Ht) as (c & Hc & Ec). exists c. split; [|done].
      apply list_elem_of_filter. split; [|done]. by rewrite Ec, <- Hbin.
  - intros b. rewrite !list_elem_of_fmap. split.
    + intros (c & -> & Hc). specialize (Hgroup c Hc). destruct (filter _ T) as [|t ts] eqn:E; [done|].
      assert (Ht : t ∈ filter (fun t => minute_of t = cd_bucket c) T) by (rewrite E; by left).
      apply list_elem_of_filter in Ht as [Em Ht]. exists t. split; [|done]. by rewrite Hbin, Em.
    + intros (t & -> & Ht). destruct (Hcandle t Ht) as (c & Hc & Ec). exists c. split; [|done]. by rewrite Ec, Hbin.
Qed.

(** ** Lemmas: fill ids *)

Lemma fillIndex_value e n k :
  0 <= n -> 0 <= k <= MAX_SAFE_INTEGER -> text_of (ev_fillId e) = to_digits n ++ chr 58 :: to_digits k ->
  fillIndex e = if n =? ev_seq e then Ok k else Throw fill_id_mismatch.
Proof.
  intros Hn Hk E. unfold fillIndex. rewrite E. rewrite (span_app is_digit (to_digits n)); [|apply to_digits_digits; lia|done].
  destruct (to_digits n) as [|d ds] eqn:Ed; [by destruct (to_digits_nonempty n ltac:(lia))|]. rewrite <- Ed.
  rewrite bool_decide_eq_true_2 by done. rewrite bool_decide_eq_false_2 by (apply to_digits_nonempty; lia).
  assert (Hd : forallb is_digit (to_digits k) = true).
  { apply forallb_forall. intros a Ha. pose proof (to_digits_digits k ltac:(lia)) as Hall. rewrite Forall_forall in Hall. apply Hall. by apply list_elem_of_In. }
  rewrite Hd, !digits_value_to_digits by lia. simpl. destruct (n =? ev_seq e); [|done]. simpl.
  replace (k >? MAX_SAFE_INTEGER) with false by (symmetry; rewrite Z.gtb_ltb; apply Z.ltb_ge; lia). done.
Qed.

(** ** Properties *)

(** What may happen to the public tables: the transaction of an event, on the tape of any
    market and under any name, a rebuild, and what leaves both tables alone. *)
Inductive tape_step : Store -> Store -> Prop :=
| step_event parse market name key event o s s' :
    @consume _ _ (tape parse market) name market key event s = Ok (o, s') -> tape_step s s'
| step_rebuild market n s s' : rebuildCandles market s = Ok (n, s') -> tape_step s s'
| step_other s s' : trades s' = trades s -> candles s' = candles s -> tape_step s s'.

Lemma tape_ok_same s s' : trades s' = trades s -> candles s' = candles s -> tape_ok s -> tape_ok s'.
Proof.
  intros Et Ec [Hk Hr Hck Hc]. split; rewrite ?Et, ?Ec; try done. intros c. rewrite Hc. unfold minute_trades, of_market. by rewrite Et.
Qed.

Lemma tape_grows m event s o s' : tape_apply m event s = Ok (o, s') -> tape_ok s -> trades s `prefix_of` trades s'.
Proof.
  intros H Hok. destruct event as [e| | | | |]; try by (simpl in H; inv_tx).
  unfold tape_apply in H. apply tx_bind_Ok in H as (t & s1 & [Et ->]%lift_Ok & H). pose proof H as H0.
  apply tx_bind_Ok in H0 as (f & s2 & Hi & _). apply insertTrade_Ok in Hi.
  destruct (tape_fill m e t s Et Hi Hok) as (s3 & E & _ & Hs).
  assert (tape_apply m (fill e) s = Ok (o, s')) as E'.
  { unfold tape_apply, mbind, tx_bind. unfold lift at 1. rewrite Et. exact H. }
  rewrite E in E'. injection E' as _ <-. destruct (decide _); [by subst|]. destruct Hs as [cs ->]. simpl. by eexists.
Qed.

Lemma tape_step_keeps s s' : tape_step s s' -> tape_ok s -> tape_ok s' /\ trades s `prefix_of` trades s'.
Proof.
  intros [parse market name key event o s0 s1 H|market n s0 s1 H|s0 s1 Et Ec] Hok.
  - unfold consume in H. apply tx_bind_Ok in H as (o' & s2 & H & Ha). simpl in H.
    pose proof (tape_apply_ok _ _ _ _ _ H Hok) as H2. pose proof (tape_grows _ _ _ _ _ H Hok) as Hg.
    assert (trades s1 = trades s2 /\ candles s1 = candles s2) as [E1 E2].
    { unfold advanceOffset in Ha. inv_tx. case_match; done. }
    split; [by eapply tape_ok_same|by rewrite E1].
  - destruct (rebuildCandles_Ok market s0 Hok) as (n' & s2 & E & _ & Hs & H2). rewrite E in H. injection H as _ <-.
    split; [done|]. rewrite Hs. done.
  - split; [by eapply tape_ok_same|by rewrite Et].
Qed.

Lemma tape_ok_reachable s0 s : rtc tape_step s0 s -> tape_ok s0 -> tape_ok s.
Proof. induction 1 as [|s0 s1 s2 H1 _ IH]; intros Hok; [done|]. apply IH. by eapply tape_step_keeps. Qed.

Lemma tape_ok_empty s : trades s = [] -> candles s = [] -> tape_ok s.
Proof.
  intros Et Ec. split; rewrite ?Et, ?Ec; try constructor; try by intros ?%not_elem_of_nil.
  unfold minute_trades, of_market. rewrite Et. done.
Qed.

(** Candles are their trades. From empty public tables, whatever events are applied on
    whatever tapes in whatever order, repeated or late, and whatever is rebuilt in between:
    there is one candle for each minute of a market that traded, and it is the aggregate of
    that minute's trades; a rebuild, which recomputes the market from its trades alone,
    succeeds and gives back the rows that were there; and no step loses or alters a trade. *)
Theorem candles_follow_trades s0 s :
  trades s0 = [] -> candles s0 = [] -> rtc tape_step s0 s ->
  (forall c, c ∈ candles s <-> candle_of (cd_market c) (cd_bucket c) (minute_trades (cd_market c) (cd_bucket c) s) = Some c) /\
  NoDup (map (fun c => (cd_market c, cd_bucket c)) (candles s)) /\
  (forall market, exists n s', rebuildCandles market s = Ok (n, s') /\ candles s' ≡ₚ candles s /\ trades s' = trades s) /\
  forall s', tape_step s s' -> trades s `prefix_of` trades s'.
Proof.
  intros Et Ec H. pose proof (tape_ok_reachable _ _ H (tape_ok_empty _ Et Ec)) as Hok.
  split; [apply Hok|]. split; [apply Hok|]. split.
  - intros market. destruct (rebuildCandles_Ok market s Hok) as (n & s' & E & Hp & Hs & _). exists n, s'.
    split; [done|]. split; [done|]. by rewrite Hs.
  - intros s' Hs. by apply (tape_step_keeps s s' Hs Hok).
Qed.

(** A fill is recorded once, as it was matched. On tables the tape made, a fill whose id names
    its own sequence and whose numbers fit is recorded with the integer both legs settle at,
    unless a trade of its key is there, when nothing changes; its transaction touches the two
    public tables and no other. A fill whose id names another sequence halts the tape. *)
Theorem fill_recorded_once market e k s :
  tape_ok s -> 0 < ev_seq e <= MAX_INT8 -> 0 <= k <= MAX_INT4 -> 0 < ev_price e -> 0 < ev_qty e ->
  notional_value (ev_price e) (ev_qty e) <= MAX_U64 -> Z.abs (ev_timestampMs e) <= 8640000000000000 ->
  let t := mkTradeRow market (ev_seq e) k (ev_price e) (ev_qty e) (notional_value (ev_price e) (ev_qty e))
             (ev_takerSide e) (ev_timestampMs e) in
  (text_of (ev_fillId e) = to_digits (ev_seq e) ++ chr 58 :: to_digits k ->
   (row_key t ∈ map row_key (trades s) /\ tape_apply market (fill e) s = Ok (duplicate, s)) \/
   (row_key t ∉ map row_key (trades s) /\ exists cs,
      tape_apply market (fill e) s = Ok (recorded, set_candles cs (set_trades (trades s ++ [t]) s)))) /\
  (forall n, 0 < n -> n <> ev_seq e -> text_of (ev_fillId e) = to_digits n ++ chr 58 :: to_digits k ->
   exists err, tape_apply market (fill e) s = Throw err /\ tape_haltReason err = Some "fill_id_mismatch").
Proof.
  intros Hok Hs Hk Hp Hq Hn Ht t. unfold MAX_INT4 in Hk. split.
  - intros E. assert (Et : trade_of market e = Ok t).
    { unfold trade_of. rewrite (fillIndex_value e (ev_seq e) k) by (unfold MAX_SAFE_INTEGER; lia || done). rewrite Z.eqb_refl. simpl.
      rewrite (proj2 (notional_Ok _ _ (notional_value (ev_price e) (ev_qty e)))) by (repeat split; lia). simpl.
      unfold js_date. by rewrite (proj2 (Z.leb_le _ _) Ht). }
    assert (Hfit : fits t).
    { split; [|unfold MAX_INT4, t; simpl; lia]. unfold trade_row_ok, t. simpl. rewrite !andb_true_iff, !Z.gtb_lt, !Z.geb_le.
      pose proof (proj1 (notional_Ok (ev_price e) (ev_qty e) (notional_value (ev_price e) (ev_qty e)))) as Hv.
      assert (0 <= notional_value (ev_price e) (ev_qty e)) by (unfold notional_value; apply Z.div_pos; [nia|done]). lia. }
    destruct (tape_fill market e t s Et Hfit Hok) as (s' & E' & _ & Hs'). destruct (decide (row_key t ∈ map row_key (trades s))); [left|right].
    + subst s'. done.
    + split; [done|]. destruct Hs' as [cs ->]. by exists cs.
  - intros n Hn0 Hne E. exists fill_id_mismatch. split; [|done]. unfold tape_apply, mbind, tx_bind. unfold lift at 1. unfold trade_of.
    rewrite (fillIndex_value e n k) by (unfold MAX_SAFE_INTEGER; lia || done). by rewrite (proj2 (Z.eqb_neq _ _) Hne).
Qed.

(** Candles of any interval agree with the trades. On tables the tape made, for every interval
    that is a whole number of minutes and every range between whole minutes, the candles
    served, which are aggregated from the one-minute rows, are the newest of those computed
    directly from the trades: the same buckets in the same order, with the same open, high,
    low, close, volumes and count. *)
Theorem served_candles_agree market intervalSeconds from to limit s :
  tape_ok s -> 0 < intervalSeconds -> (60 | intervalSeconds) -> (MINUTE | from) -> (MINUTE | to) ->
  listCandles market intervalSeconds from to limit s =
    rev (take limit (rev (candlesFromTrades market intervalSeconds from to s))) /\
  ((length (candlesFromTrades market intervalSeconds from to s) <= limit)%nat ->
   listCandles market intervalSeconds from to limit s = candlesFromTrades market intervalSeconds from to s).
Proof.
  intros Hok Hi [q Hq] Hfrom Hto.
  assert (E : listCandles market intervalSeconds from to limit s = rev (take limit (rev (candlesFromTrades market intervalSeconds from to s)))).
  { unfold listCandles, candlesFromTrades. rewrite (all_records_agree market (intervalSeconds * 1000) from to s Hok); [done|lia| |done|done].
    exists q. unfold MINUTE. lia. }
  split; [exact E|]. intros Hl. rewrite E, take_ge by (by rewrite length_rev). apply rev_involutive.
Qed.

(** A fill whose notional does not fit 64 bits cannot be recorded and does not halt the tape:
    the consumer tries it again in every pass. *)
Theorem unrecordable_fill_does_not_halt market e k s :
  0 <= k <= MAX_SAFE_INTEGER -> 0 < ev_seq e -> text_of (ev_fillId e) = to_digits (ev_seq e) ++ chr 58 :: to_digits k ->
  0 < ev_price e -> 0 < ev_qty e -> MAX_U64 < notional_value (ev_price e) (ev_qty e) ->
  exists err, tape_apply market (fill e) s = Throw err /\ tape_haltReason err = None.
Proof.
  intros Hk Hs E Hp Hq Hn. unfold tape_apply, mbind, tx_bind. unfold lift at 1. unfold trade_of.
  rewrite (fillIndex_value e (ev_seq e) k) by (lia || done). rewrite Z.eqb_refl. simpl.
  destruct (notional (ev_price e) (ev_qty e)) as [v|err] eqn:En; [apply notional_Ok in En; lia|]. exists err. split; [done|].
  unfold notional in En. destruct ((ev_price e <? 0) || (ev_qty e <? 0)); [by injection En as <-|]. case_match; [by injection En as <-|done].
Qed.

(** ** Witnesses *)

Definition no_tables : Store := mkStore ∅ [] [] [] [] [] ∅ [] [].

Definition a_fill (n price ms : Z) : SettlementEvent :=
  fill (mkFillEvent n (String.string_of_list_ascii (to_digits n ++ chr 58 :: to_digits 0)) "taker" "maker" buy price 2000000000 ms).

(** Three trades, the last of them with a timestamp of the first's minute. *)
Definition taped : Store :=
  match (_ ← tape_apply "devnet:SOL-USDC" (a_fill 1 150000000 10000); _ ← tape_apply "devnet:SOL-USDC" (a_fill 2 151000000 70000);
         tape_apply "devnet:SOL-USDC" (a_fill 3 149000000 20000)) no_tables with
  | Ok (_, s) => s
  | Throw _ => no_tables
  end.

Example taped_candles : map (fun c => (cd_bucket c, cd_open c, cd_close c, cd_tradeCount c)) (candles taped) =
  [(0, 150000000, 149000000, 2); (60000, 151000000, 151000000, 1)].
Proof. vm_compute. reflexivity. Qed.

Lemma taped_ok : tape_ok taped.
Proof.
  assert (E : (_ ← tape_apply "devnet:SOL-USDC" (a_fill 1 150000000 10000); _ ← tape_apply "devnet:SOL-USDC" (a_fill 2 151000000 70000);
         tape_apply "devnet:SOL-USDC" (a_fill 3 149000000 20000)) no_tables = Ok (recorded, taped)) by (vm_compute; reflexivity).
  apply tx_bind_Ok in E as (o1 & s1 & E1 & E). apply tx_bind_Ok in E as (o2 & s2 & E2 & E3).
  by apply (tape_apply_ok _ _ _ _ _ E3), (tape_apply_ok _ _ _ _ _ E2), (tape_apply_ok _ _ _ _ _ E1), tape_ok_empty.
Qed.

Definition first_taped : Store :=
  match @consume _ _ (tape (fun _ => Throw TypeError) "devnet:SOL-USDC") "market-data" "devnet:SOL-USDC" (mkKey 1 0) (a_fill 1 150000000 10000) no_tables with
  | Ok (_, s) => s
  | Throw _ => no_tables
  end.

Lemma candles_follow_trades_witness :
  length (candles first_taped) = 1%nat /\ NoDup (map (fun c => (cd_market c, cd_bucket c)) (candles first_taped)).
Proof.
  split; [vm_compute; reflexivity|].
  refine (proj1 (proj2 (candles_follow_trades no_tables first_taped eq_refl eq_refl _))).
  apply rtc_once. eapply (step_event (fun _ => Throw TypeError) "devnet:SOL-USDC" "market-data" (mkKey 1 0) (a_fill 1 150000000 10000) recorded).
  vm_compute. reflexivity.
Defined.

Lemma fill_recorded_once_witness :
  tape_apply "devnet:SOL-USDC" (a_fill 1 150000000 10000) taped = Ok (duplicate, taped).
Proof.
  destruct (proj1 (fill_recorded_once "devnet:SOL-USDC" (mkFillEvent 1 "1:0" "taker" "maker" buy 150000000 2000000000 10000) 0 taped taped_ok
    ltac:(vm_compute; split; [reflexivity|discriminate]) ltac:(vm_compute; split; discriminate) ltac:(reflexivity) ltac:(reflexivity)
    ltac:(vm_compute; discriminate) ltac:(vm_compute; discriminate)) ltac:(vm_compute; reflexivity)) as [[_ H]|[H _]].
  - exact H.
  - exfalso. apply H. apply (bool_decide_unpack _). vm_compute. reflexivity.
Defined.

Lemma served_candles_agree_witness :
  map (fun c => (cr_bucket c, cr_open c, cr_high c, cr_low c, cr_close c)) (listCandles "devnet:SOL-USDC" 300 0 600000 5 taped) =
    [(0, 150000000, 151000000, 149000000, 149000000)] /\
  listCandles "devnet:SOL-USDC" 300 0 600000 5 taped = candlesFromTrades "devnet:SOL-USDC" 300 0 600000 taped.
Proof.
  split; [vm_compute; reflexivity|].
  apply (proj2 (served_candles_agree "devnet:SOL-USDC" 300 0 600000 5 taped taped_ok ltac:(reflexivity)
    ltac:(by exists 5) ltac:(by exists 0) ltac:(by exists 10))).
  apply (Nat.leb_le _ _). vm_compute. reflexivity.
Defined.
