(* ===== verification/Fanout.v ===== *)
(** * The live book and tape

    [apps/api/src/services/market-data/book-mirror.ts] and [fanout.ts]: a copy of one
    market's book, made of a snapshot and the level changes of the sequences after it, and
    the reader of the engine's stream that keeps it and tells subscribers. The stream and the
    engine are the class [Feed]. Listeners are one log of messages: a listener that throws
    stops nothing. Metrics, logging and the pauses of the loop are not modelled. *)

From Stdlib Require Import ZArith Lia.
From stdpp Require Import base list strings gmap sorting.
From S2P Require Import Prelude Decimal Assets Orders Store Events.
From S2P Require Reconciliation.

Open Scope string_scope.
Open Scope list_scope.
Open Scope Z_scope.

Notation EngineDepth := Reconciliation.EngineDepth.

(** ** The mirror *)

Record LevelChange := mkChange { lc_side : Side; lc_price : Z; lc_qty : Z }.

(** The two maps from price to quantity. *)
Record Sides := mkSides { bids : gmap Z Z; asks : gmap Z Z }.

Record BookMirror := mkMirror { bm_seq : Z; bm_sides : Sides }.

Definition side_of_snapshot (levels : list (Z * Z)) : gmap Z Z :=
  fold_left (fun m l => if l.2 >? 0 then <[l.1 := l.2]> m else m) levels ∅.

Definition createBookMirror (snapshot : EngineDepth) : BookMirror :=
  mkMirror (Reconciliation.dp_seq snapshot)
    (mkSides (side_of_snapshot (Reconciliation.dp_bids snapshot)) (side_of_snapshot (Reconciliation.dp_asks snapshot))).

Definition set_level (change : LevelChange) (side : gmap Z Z) : gmap Z Z :=
  if lc_qty change =? 0 then delete (lc_price change) side else <[lc_price change := lc_qty change]> side.

Definition apply_change (sides : Sides) (change : LevelChange) : Sides :=
  match lc_side change with
  | buy => mkSides (set_level change (bids sides)) (asks sides)
  | sell => mkSides (bids sides) (set_level change (asks sides))
  end.

Definition apply_changes (changes : list LevelChange) (sides : Sides) : Sides := fold_left apply_change changes sides.

(** [apply] *)
Definition mirror_apply (next : Z) (changes : list LevelChange) (m : BookMirror) : BookMirror :=
  mkMirror next (apply_changes changes (bm_sides m)).

Record BookView := mkView { vw_seq : Z; vw_bids : list (Z * Z); vw_asks : list (Z * Z); vw_truncated : bool }.

(** [sorted] *)
Definition sorted_side (side : gmap Z Z) (descending : bool) (max : nat) : list (Z * Z) :=
  let prices := merge_sort Z.le (map fst (map_to_list side)) in
  map (fun price => (price, default 0 (side !! price))) (take max (if descending then rev prices else prices)).

(** [view] *)
Definition view_of (seq : Z) (sides : Sides) (maxLevels : nat) : BookView :=
  mkView seq (sorted_side (bids sides) true maxLevels) (sorted_side (asks sides) false maxLevels)
    ((maxLevels <? size (bids sides))%nat || (maxLevels <? size (asks sides))%nat).

Definition view (maxLevels : nat) (m : BookMirror) : BookView := view_of (bm_seq m) (bm_sides m) maxLevels.

(** ** Entries and messages *)

Record FanoutEntry := mkFanoutEntry { fe_seq : Z; fe_idx : Z; fe_raw : string; fe_levels : option string }.

Record PublicTrade := mkPublicTrade {
  pt_id : string; pt_seq : Z; pt_price : Z; pt_qty : Z; pt_takerSide : Side; pt_timestampMs : Z
}.

Inductive FanoutMessage :=
| m_snapshot (book : BookView)
| m_delta (seq : Z) (changes : list LevelChange)
| m_resync
| m_trade (trade : PublicTrade).

Definition toBigInt (v : option value) : result Z :=
  match v with
  | Some (v_bigint n) => Ok n
  | Some (v_number (Some n)) => Ok n
  | Some (v_string s) =>
      let t := text_of s in
      if negb (bool_decide (t = [])) && forallb is_digit t then Ok (digits_value t) else Throw TypeError
  | _ => Throw TypeError
  end.

(** One element of [levels]; no field of one that is not an object is a side. *)
Definition parse_level (item : value) : result LevelChange :=
  let level := default [] (object_fields item) in
  side ← match jget "side" level with
         | Some (v_string s) => if bool_decide (s = "buy") then Ok buy else if bool_decide (s = "sell") then Ok sell else Throw TypeError
         | _ => Throw TypeError
         end;
  price ← toBigInt (jget "price" level);
  qty ← toBigInt (jget "qty" level);
  _ ← throw_if ((price <=? 0) || (qty <? 0)) RangeError;
  Ok (mkChange side price qty).

Definition parseLevels (parseEngineJson : string -> result value) (raw : string) : result (list LevelChange) :=
  v ← parseEngineJson raw;
  match v with
  | v_array items => map_result parse_level items
  | _ => Throw TypeError
  end.

Definition public_trade (e : FillEvent) : PublicTrade :=
  mkPublicTrade (ev_fillId e) (ev_seq e) (ev_price e) (ev_qty e) (ev_takerSide e) (ev_timestampMs e).

(** *** The Redis source *)

(** [new Map] of the fields of an entry, which come as names and values in turn. *)
Fixpoint fields_map (fields : list string) : list (string * string) :=
  match fields with
  | name :: v :: fields =>
      let rest := fields_map fields in
      match jget name rest with Some _ => rest | None => (name, v) :: rest end
  | _ => []
  end.

Definition digits (s : string) : bool := negb (bool_decide (s = "")) && forallb is_digit (text_of s).

(** One entry of [XREAD]'s reply; [malformed stream entry] is a [TypeError]. *)
Definition redis_entry (fields : list string) : result FanoutEntry :=
  let map := fields_map fields in
  match jget "seq" map, jget "idx" map, jget "event" map with
  | Some seq, Some idx, Some raw =>
      if digits seq && digits idx
      then Ok (mkFanoutEntry (digits_value (text_of seq)) (digits_value (text_of idx)) raw (jget "levels" map))
      else Throw TypeError
  | _, _, _ => Throw TypeError
  end.

(** [read]: the remembered id moves with each entry that is looked at, the malformed one
    included, and the entries read before it are lost to this read. *)
Fixpoint redis_entries (lastId : string) (reply : list (string * list string)) : result (list FanoutEntry) * string :=
  match reply with
  | [] => (Ok [], lastId)
  | (id, fields) :: reply =>
      match redis_entry fields with
      | Throw e => (Throw e, id)
      | Ok entry =>
          let (out, lastId) := redis_entries id reply in
          (entries ← out; Ok (entry :: entries), lastId)
      end
  end.

(** ** The fan-out *)

(** The stream, read from a remembered position, and the engine. *)
Class Feed (W : Type) := {
  seekToEnd : W -> result unit * W;
  stream_read : W -> result (list FanoutEntry) * W;
  depth : W -> option EngineDepth * W;
  engine_lastSeq : W -> option Z * W
}.

Record Pending := mkPending { pd_seq : Z; pd_nextIdx : Z; pd_trades : list PublicTrade }.

Section Fanout.
Context {W : Type} `{!Feed W} (parseEngineJson : string -> result value) (maxLevels idleBehindLimit : nat).

Record Fan := mkFan {
  mirror : option BookMirror;
  pending : option Pending;
  idleBehind : nat;
  emitted : list FanoutMessage;
  feed : W
}.

Definition emit (message : FanoutMessage) (f : Fan) : Fan :=
  mkFan (mirror f) (pending f) (idleBehind f) (emitted f ++ [message]) (feed f).

Definition invalidate (f : Fan) : Fan :=
  match mirror f with
  | None => f
  | Some _ => emit m_resync (mkFan None None 0 (emitted f) (feed f))
  end.

(** [resync]: position first, snapshot second. *)
Definition resync (f : Fan) : result unit * Fan :=
  let (sought, w) := seekToEnd (feed f) in
  let f := mkFan (mirror f) (pending f) (idleBehind f) (emitted f) w in
  match sought with
  | Throw e => (Throw e, f)
  | Ok _ =>
      let (answer, w) := depth (feed f) in
      match answer with
      | None => (Ok tt, mkFan (mirror f) (pending f) (idleBehind f) (emitted f) w)
      | Some d =>
          let m := createBookMirror d in
          (Ok tt, emit (m_snapshot (view maxLevels m)) (mkFan (Some m) None 0 (emitted f) w))
      end
  end.

(** What is read of an entry: the trade it may be, and the changes it may end with. *)
Definition read_entry (entry : FanoutEntry) : result (list PublicTrade * option (list LevelChange)) :=
  event ← decodeSettlementEvent parseEngineJson (v_string (fe_raw entry));
  _ ← throw_if (negb (event_seq event =? fe_seq entry)) TypeError;
  let trades := match event with fill e => [public_trade e] | _ => [] end in
  changes ← match fe_levels entry with
            | None => Ok None
            | Some levels => cs ← parseLevels parseEngineJson levels; Ok (Some cs)
            end;
  Ok (trades, changes).

(** [process]: false when the mirror was invalidated and the batch must stop. *)
Definition process (entry : FanoutEntry) (f : Fan) : bool * Fan :=
  match mirror f with
  | None => (false, f)
  | Some m =>
      if fe_seq entry <=? bm_seq m then (true, f) else
      if negb (fe_seq entry =? bm_seq m + 1) then (false, invalidate f) else
      let p := default (mkPending (fe_seq entry) 0 []) (pending f) in
      let f := mkFan (mirror f) (Some p) (idleBehind f) (emitted f) (feed f) in
      if fe_idx entry <? pd_nextIdx p then (true, f) else
      if negb (fe_idx entry =? pd_nextIdx p) then (false, invalidate f) else
      match read_entry entry with
      | Throw _ => (false, invalidate f)
      | Ok (trades, changes) =>
          let p := mkPending (pd_seq p) (pd_nextIdx p + 1) (pd_trades p ++ trades) in
          match changes with
          | None => (true, mkFan (mirror f) (Some p) (idleBehind f) (emitted f) (feed f))
          | Some changes =>
              let f := mkFan (Some (mirror_apply (pd_seq p) changes m)) None (idleBehind f) (emitted f) (feed f) in
              let f := fold_left (fun f t => emit (m_trade t) f) (pd_trades p) f in
              (true, emit (m_delta (pd_seq p) changes) f)
          end
      end
  end.

(** [for (const entry of entries) if (!process(entry)) break;] *)
Fixpoint process_all (entries : list FanoutEntry) (f : Fan) : Fan :=
  match entries with
  | [] => f
  | entry :: entries => let (go, f) := process entry f in if go then process_all entries f else f
  end.

(** An empty read: quiet is only that if the engine agrees. *)
Definition idle (f : Fan) : Fan :=
  let (last, w) := engine_lastSeq (feed f) in
  let f := mkFan (mirror f) (pending f) (idleBehind f) (emitted f) w in
  match last, mirror f with
  | Some last, Some m =>
      if last >? bm_seq m then
        let f := mkFan (mirror f) (pending f) (S (idleBehind f)) (emitted f) (feed f) in
        if (idleBehindLimit <=? idleBehind f)%nat then invalidate f else f
      else mkFan (mirror f) (pending f) 0 (emitted f) (feed f)
  | _, _ => f
  end.

Definition runOnce (f : Fan) : result unit * Fan :=
  let (ready, f) := match mirror f with None => resync f | Some _ => (Ok tt, f) end in
  match ready, mirror f with
  | Throw e, _ => (Throw e, f)
  | Ok _, None => (Ok tt, f)
  | Ok _, Some _ =>
      let (answer, w) := stream_read (feed f) in
      let f := mkFan (mirror f) (pending f) (idleBehind f) (emitted f) w in
      match answer with
      | Throw e => (Throw e, f)
      | Ok [] => (Ok tt, idle f)
      | Ok entries => (Ok tt, process_all entries (mkFan (mirror f) (pending f) 0 (emitted f) w))
      end
  end.

(** One turn of the loop of [start]: a failure costs the book. *)
Definition cycle (f : Fan) : Fan :=
  match runOnce f with
  | (Ok _, f) => f
  | (Throw _, f) => invalidate f
  end.

(** [book()] *)
Definition book (f : Fan) : option BookView := view maxLevels <$> mirror f.

Fixpoint cycles (n : nat) (f : Fan) : Fan := match n with O => f | S n => cycles n (cycle f) end.

Definition fan_start (w : W) : Fan := mkFan None None 0 [] w.
End Fanout.
