(* ===== verification/Fidelity.v ===== *)
(** * What subscribers are told

    [Fanout] against the engine's own history: its book after each sequence, the events of a
    sequence and the level changes it ends with. Whatever the stream loses, repeats or
    reorders, and whatever cannot be read, the book that is vouched for is the engine's, and
    the messages told are a history of it. *)

From Stdlib Require Import ZArith Lia.
From stdpp Require Import base list strings gmap sorting.
From S2P Require Import Prelude Decimal Assets Orders Store Events Fanout.
From S2P Require Reconciliation.

Open Scope string_scope.
Open Scope list_scope.
Open Scope Z_scope.

(** The engine's history: its book after a sequence, the events of a sequence, and the level
    changes published with its last. *)
Record History := mkHistory {
  truth : Z -> Sides;
  events_of : Z -> list SettlementEvent;
  changes_of : Z -> list LevelChange
}.

Definition consistent (h : History) : Prop :=
  forall n, truth h (n + 1) = apply_changes (changes_of h (n + 1)) (truth h n).

Definition trades_in (events : list SettlementEvent) : list PublicTrade :=
  omap (fun e => match e with fill e => Some (public_trade e) | _ => None end) events.

#[local] Arguments trades_in : simpl never.

(** A snapshot that is the engine's book. *)
Definition genuine_depth (h : History) (d : Reconciliation.EngineDepth) : Prop :=
  bm_sides (createBookMirror d) = truth h (Reconciliation.dp_seq d).

(** An entry that says nothing untrue: what can be read of it is what the engine did. *)
Record genuine (parse : string -> result value) (h : History) (e : FanoutEntry) : Prop := {
  g_idx : 0 <= fe_idx e;
  g_event ev : decodeSettlementEvent parse (v_string (fe_raw e)) = Ok ev -> event_seq ev = fe_seq e ->
    events_of h (fe_seq e) !! Z.to_nat (fe_idx e) = Some ev;
  g_levels raw cs : fe_levels e = Some raw -> parseLevels parse raw = Ok cs ->
    cs = changes_of h (fe_seq e) /\ fe_idx e + 1 = Z.of_nat (length (events_of h (fe_seq e)))
}.

(** A stream of genuine entries, in any order, with any losses and repetitions. *)
Class HonestFeed {W} (F : Feed W) (parse : string -> result value) (h : History) : Prop := {
  honest_read w entries w' : stream_read w = (Ok entries, w') -> Forall (genuine parse h) entries;
  honest_depth w d w' : depth w = (Some d, w') -> genuine_depth h d
}.

(** A log of messages that tells the engine's history: from a snapshot on, each sequence's
    trades and then its changes, no sequence left out, until a resync; and the sequence the
    log has reached, if its last snapshot still stands. *)
Inductive tells (h : History) (maxLevels : nat) : list FanoutMessage -> option Z -> Prop :=
| tells_nothing : tells h maxLevels [] None
| tells_snapshot log n : tells h maxLevels log None ->
    tells h maxLevels (log ++ [m_snapshot (view_of n (truth h n) maxLevels)]) (Some n)
| tells_sequence log n : tells h maxLevels log (Some n) ->
    tells h maxLevels (log ++ map m_trade (trades_in (events_of h (n + 1))) ++ [m_delta (n + 1) (changes_of h (n + 1))]) (Some (n + 1))
| tells_resync log n : tells h maxLevels log (Some n) -> tells h maxLevels (log ++ [m_resync]) None.

Section Fidelity.
Context {W : Type} {F : Feed W} (parse : string -> result value) (maxLevels idleBehindLimit : nat).
Context (h : History) (Hh : consistent h) {Hfeed : HonestFeed F parse h}.

Record faithful (f : Fan (W := W)) : Prop := {
  fa_log : tells h maxLevels (emitted f) (bm_seq <$> mirror f);
  fa_book m : mirror f = Some m -> bm_sides m = truth h (bm_seq m);
  fa_pending m p : mirror f = Some m -> pending f = Some p ->
    pd_seq p = bm_seq m + 1 /\ 0 <= pd_nextIdx p /\
    pd_trades p = trades_in (take (Z.to_nat (pd_nextIdx p)) (events_of h (pd_seq p)))
}.

Lemma faithful_invalidate f : faithful f -> faithful (invalidate f).
Proof.
  intros [Hl Hb Hp]. unfold invalidate. destruct (mirror f) as [m|] eqn:E; [|by split; rewrite ?E].
  split; simpl; [by eapply tells_resync|done|done].
Qed.

(** What does not touch the mirror, the pending sequence or the log. *)
Lemma faithful_same f f' :
  mirror f' = mirror f -> pending f' = pending f -> emitted f' = emitted f -> faithful f -> faithful f'.
Proof. intros Em Ep El [Hl Hb Hp]. split; rewrite ?Em, ?Ep, ?El; done. Qed.

Lemma emit_trades ts (f : Fan (W := W)) :
  fold_left (fun f t => emit (m_trade t) f) ts f =
  mkFan (mirror f) (pending f) (idleBehind f) (emitted f ++ map m_trade ts) (feed f).
Proof.
  revert f. induction ts as [|t ts IH]; intros f; simpl; [by rewrite app_nil_r; destruct f|].
  rewrite IH. simpl. by rewrite <- app_assoc.
Qed.

Lemma read_entry_genuine e trades changes :
  genuine parse h e -> read_entry parse e = Ok (trades, changes) ->
  exists ev, events_of h (fe_seq e) !! Z.to_nat (fe_idx e) = Some ev /\ trades = trades_in [ev] /\
    forall cs, changes = Some cs -> cs = changes_of h (fe_seq e) /\ fe_idx e + 1 = Z.of_nat (length (events_of h (fe_seq e))).
Proof.
  intros [Hi He Hl] H. unfold read_entry in H. apply bind_Ok in H as (ev & Hd & H). apply bind_Ok in H as (u & Hs%throw_if_Ok & H).
  apply negb_false_iff, Z.eqb_eq in Hs. apply bind_Ok in H as (cs' & Hc & [= <- <-]). exists ev. split; [by apply He|].
  split; [by destruct ev|]. intros cs ->. destruct (fe_levels e) as [raw|] eqn:El; [|done].
  apply bind_Ok in Hc as (cs' & Hp & [= ->]). by eapply Hl.
Qed.

Lemma trades_in_snoc events i ev :
  events !! i = Some ev -> trades_in (take (S i) events) = trades_in (take i events) ++ trades_in [ev].
Proof. intros H. rewrite (take_S_r _ _ _ H). unfold trades_in. by rewrite omap_app. Qed.

Lemma faithful_process e f : genuine parse h e -> faithful f -> faithful (process parse e f).2.
Proof using Hh.
  intros Hg Hf. unfold process. destruct (mirror f) as [m|] eqn:Em; [|done].
  destruct (Z.leb_spec (fe_seq e) (bm_seq m)) as [|Hnew]; [done|].
  destruct (Z.eqb_spec (fe_seq e) (bm_seq m + 1)) as [Hs|]; simpl; [|by apply faithful_invalidate].
  set (p := default (mkPending (fe_seq e) 0 []) (pending f)).
  assert (Hp : pd_seq p = fe_seq e /\ 0 <= pd_nextIdx p /\ pd_trades p = trades_in (take (Z.to_nat (pd_nextIdx p)) (events_of h (pd_seq p)))).
  { unfold p. destruct (pending f) as [q|] eqn:Ep; simpl; [|done]. destruct (fa_pending f Hf m q Em Ep) as (-> & ? & ?). by rewrite Hs. }
  assert (Hf' : faithful (mkFan (mirror f) (Some p) (idleBehind f) (emitted f) (feed f))).
  { destruct Hf as [Hl Hb _]. split; simpl; [done|done|]. intros m' p' Em' [= <-]. rewrite Em in Em'. injection Em' as <-. rewrite <- Hs. tauto. }
  rewrite <- Em. destruct (Z.ltb_spec (fe_idx e) (pd_nextIdx p)); [done|].
  destruct (Z.eqb_spec (fe_idx e) (pd_nextIdx p)) as [Ei|]; simpl; [|by apply faithful_invalidate].
  destruct (read_entry parse e) as [[trades changes]|] eqn:Er; [|by apply faithful_invalidate].
  destruct (read_entry_genuine e trades changes Hg Er) as (ev & Hev & -> & Hc). destruct Hp as (Eps & Hpos & Ept).
  assert (Et : pd_trades p ++ trades_in [ev] = trades_in (take (Z.to_nat (pd_nextIdx p + 1)) (events_of h (fe_seq e)))).
  { rewrite Ept, Eps. replace (Z.to_nat (pd_nextIdx p + 1)) with (S (Z.to_nat (pd_nextIdx p))) by lia.
    rewrite Ei in Hev. by rewrite (trades_in_snoc _ _ ev Hev). }
  destruct changes as [cs|].
  - destruct (Hc cs eq_refl) as [-> Hlen]. rewrite emit_trades. simpl. rewrite Et, take_ge by lia. rewrite Eps, Hs.
    destruct Hf as [Hl Hb _]. rewrite Em in Hl. simpl in Hl. split; simpl.
    + rewrite <- app_assoc. by apply tells_sequence.
    + intros m' [= <-]. simpl. rewrite Hh, (Hb m Em). done.
    + done.
  - split; simpl; [apply Hf|apply Hf|]. intros m' p' Em' [= <-]. rewrite Em in Em'. injection Em' as <-. simpl.
    split; [by rewrite Eps|]. split; [lia|]. by rewrite Et, Eps.
Qed.

Lemma faithful_process_all es f : Forall (genuine parse h) es -> faithful f -> faithful (process_all parse es f).
Proof using Hh.
  intros H. revert f. induction H as [|e es He _ IH]; intros f Hf; simpl; [done|].
  pose proof (faithful_process e f He Hf) as Hp. destruct (process parse e f) as [[] f']; [by apply IH|done].
Qed.

Lemma faithful_resync f : mirror f = None -> faithful f -> faithful (resync maxLevels f).2.
Proof using Hfeed.
  intros Em Hf. unfold resync. destruct (seekToEnd (feed f)) as [[u|e] w]; [|by eapply faithful_same, Hf]. simpl.
  destruct (depth w) as [[d|] w'] eqn:Ed; [|by eapply faithful_same, Hf]. pose proof (honest_depth _ _ _ Ed) as Hd.
  destruct Hf as [Hl _ _]. rewrite Em in Hl. split; simpl; [|by intros m [= <-]|done].
  unfold view. rewrite Hd. by apply tells_snapshot.
Qed.

Lemma faithful_idle f : faithful f -> faithful (idle idleBehindLimit f).
Proof.
  intros Hf. unfold idle. destruct (engine_lastSeq (feed f)) as [last w]. simpl.
  destruct last as [last|]; [|by eapply faithful_same, Hf]. destruct (mirror f) as [m|] eqn:Em; [|by eapply faithful_same, Hf].
  destruct (last >? bm_seq m); [|by eapply faithful_same, Hf]. case_match; [apply faithful_invalidate|]; by eapply faithful_same, Hf.
Qed.

Lemma faithful_cycle f : faithful f -> faithful (cycle parse maxLevels idleBehindLimit f).
Proof using Hh Hfeed.
  intros Hf. unfold cycle. assert (H : faithful (runOnce parse maxLevels idleBehindLimit f).2).
  { unfold runOnce. set (start := match mirror f with None => resync maxLevels f | Some _ => (Ok tt, f) end).
    assert (Hs : faithful start.2) by (unfold start; destruct (mirror f) eqn:Em; [done|by apply faithful_resync]).
    destruct start as [[u|e] f0]; simpl in Hs; [|done]. destruct (mirror f0) as [m|] eqn:Em; [|done].
    destruct (stream_read (feed f0)) as [[entries|e] w] eqn:Er; [|by eapply faithful_same, Hs].
    destruct entries as [|entry entries]; [apply faithful_idle; by eapply faithful_same, Hs|].
    apply faithful_process_all; [by eapply honest_read|by eapply faithful_same, Hs]. }
  destruct (runOnce parse maxLevels idleBehindLimit f) as [[u|e] f']; [done|by apply faithful_invalidate].
Qed.

Lemma faithful_cycles n f : faithful f -> faithful (cycles parse maxLevels idleBehindLimit n f).
Proof using Hh Hfeed. revert f. induction n as [|n IH]; intros f Hf; [done|]. simpl. apply IH. by apply faithful_cycle. Qed.

(** *** A sequence that arrives whole *)

(** The entries of a sequence as the engine publishes them, all of them readable. *)
Definition published (n : Z) (es : list FanoutEntry) : Prop :=
  length es = length (events_of h n) /\
  forall i e, es !! i = Some e ->
    fe_seq e = n /\ fe_idx e = Z.of_nat i /\
    exists ev, events_of h n !! i = Some ev /\
      read_entry parse e = Ok (trades_in [ev], if (S i =? length es)%nat then Some (changes_of h n) else None).

Definition half_way (n : Z) (k : nat) (p : option Pending) : Prop :=
  default (mkPending n 0 []) p = mkPending n (Z.of_nat k) (trades_in (take k (events_of h n))).

Lemma process_stale e (f : Fan (W := W)) m : mirror f = Some m -> fe_seq e <= bm_seq m -> process parse e f = (true, f).
Proof. intros Em Hs. unfold process. rewrite Em. by rewrite (proj2 (Z.leb_le _ _) Hs). Qed.

Lemma process_all_stale entries (f : Fan (W := W)) m :
  mirror f = Some m -> (forall e, e ∈ entries -> fe_seq e <= bm_seq m) -> process_all parse entries f = f.
Proof.
  intros Em. induction entries as [|e entries IH]; intros Hs; simpl; [done|].
  rewrite (process_stale e f m Em) by (apply Hs; by left). apply IH. intros x Hx. apply Hs. by right.
Qed.

Lemma process_rest n es entries k (f : Fan (W := W)) m :
  published (n + 1) es -> mirror f = Some m -> bm_seq m = n -> half_way (n + 1) k (pending f) -> (k < length es)%nat ->
  filter (fun e => n < fe_seq e) entries = drop k es ->
  let f' := process_all parse entries f in
  mirror f' = Some (mirror_apply (n + 1) (changes_of h (n + 1)) m) /\ pending f' = None /\
  emitted f' = emitted f ++ map m_trade (trades_in (events_of h (n + 1))) ++ [m_delta (n + 1) (changes_of h (n + 1))].
Proof.
  intros Hpub. revert k f. induction entries as [|e entries IH]; intros k f Em En Hk Hlt Hfil.
  { exfalso. rewrite filter_nil in Hfil. apply (f_equal length) in Hfil. rewrite length_drop in Hfil. simpl in Hfil. lia. }
  destruct (Z.le_gt_cases (fe_seq e) n) as [Hstale|Hfresh].
  { rewrite filter_cons_False in Hfil by lia. simpl. rewrite (process_stale e f m Em) by lia. by apply (IH k). }
  rewrite filter_cons_True in Hfil by lia. destruct (es !! k) as [x|] eqn:Ek; [|apply lookup_ge_None_1 in Ek; lia].
  rewrite (drop_S _ _ _ Ek) in Hfil. injection Hfil as -> Hfil. destruct Hpub as [Hlen Hpub].
  destruct (Hpub k x Ek) as (Es & Ei & ev & Hev & Hread). cbn [process_all]. unfold process. rewrite Em, Es.
  replace (n + 1 <=? bm_seq m) with false by (symmetry; apply Z.leb_gt; lia). rewrite En, Z.eqb_refl. cbn [negb].
  unfold half_way in Hk. rewrite Hk. cbn [pd_nextIdx pd_seq pd_trades]. rewrite Ei, Z.ltb_irrefl, Z.eqb_refl. cbn [negb].
  rewrite Hread. rewrite <- (trades_in_snoc _ _ _ Hev). destruct (Nat.eqb_spec (S k) (length es)) as [Hlast|Hmore].
  - rewrite emit_trades. cbn [process_all emit mirror pending emitted feed idleBehind].
    assert (Hst : forall e, e ∈ entries -> fe_seq e <= n).
    { intros y Hy. destruct (Z.le_gt_cases (fe_seq y) n) as [|Hg]; [done|]. assert (Hin : y ∈ filter (fun e => n < fe_seq e) entries) by (apply list_elem_of_filter; split; [lia|done]).
      rewrite Hfil, drop_ge in Hin by lia. by apply not_elem_of_nil in Hin. }
    erewrite process_all_stale; [|reflexivity|simpl; intros y Hy; specialize (Hst y Hy); lia]. simpl.
    rewrite take_ge by lia. by rewrite <- app_assoc.
  - pose proof (lookup_lt_Some _ _ _ Ek). rewrite <- Em.
    refine (IH (S k) (mkFan (mirror f) (Some (mkPending (n + 1) (Z.of_nat k + 1) (trades_in (take (S k) (events_of h (n + 1)))))) (idleBehind f) (emitted f) (feed f)) _ En _ _ Hfil); [done| |lia].
    unfold half_way. simpl. f_equal. lia.
Qed.
End Fidelity.

(** ** Properties *)

(** The book that is vouched for is the engine's. Let the stream lose, repeat and reorder what
    it likes, let entries be unreadable and the engine silent, provided what can be read is
    true: after any number of turns of the loop the book handed out is the engine's book at
    the sequence it names, and the messages told are a history of the engine: a snapshot,
    then every following sequence, its trades before its changes and none of them twice or
    left out, until a resync says that nothing before it can be trusted. *)
Theorem vouched_book_is_the_engines {W} {F : Feed W} parse maxLevels idleBehindLimit h n w :
  consistent h -> HonestFeed F parse h ->
  let f := cycles parse maxLevels idleBehindLimit n (fan_start w) in
  tells h maxLevels (emitted f) (vw_seq <$> book maxLevels f) /\
  forall v, book maxLevels f = Some v -> v = view_of (vw_seq v) (truth h (vw_seq v)) maxLevels.
Proof.
  intros Hh Hfeed f. assert (Hf : faithful maxLevels h f).
  { apply faithful_cycles; [done|done|]. split; simpl; [constructor|done|done]. }
  destruct Hf as [Hl Hb _]. unfold book. split; [by destruct (mirror f)|].
  intros v. destruct (mirror f) as [m|] eqn:Em; [|done]. intros [= <-]. unfold view. simpl. by rewrite (Hb m eq_refl).
Qed.

(** A sequence that arrives whole is told. With a book at a sequence and nothing half read, a
    batch that holds the entries of the next in order, among any older ones, brings the
    mirror to it and tells its trades and its changes. *)
Theorem whole_sequence_is_told {W} {F : Feed W} parse h n es entries (f : Fan (W := W)) m :
  published parse h (n + 1) es -> es <> [] -> filter (fun e => n < fe_seq e) entries = es ->
  mirror f = Some m -> bm_seq m = n -> pending f = None ->
  let f' := process_all parse entries f in
  mirror f' = Some (mirror_apply (n + 1) (changes_of h (n + 1)) m) /\ pending f' = None /\
  emitted f' = emitted f ++ map m_trade (trades_in (events_of h (n + 1))) ++ [m_delta (n + 1) (changes_of h (n + 1))].
Proof.
  intros Hpub Hne Hfil Em En Ep. apply (process_rest parse h n es entries 0 f m Hpub Em En); [|destruct es; [done|simpl; lia]|done].
  unfold half_way. by rewrite Ep.
Qed.

(** ** Witnesses *)

(** An order rests, and part of it trades. *)
Definition rests : SettlementEvent := accepted 1 "o1" 5.
Definition trades_some : SettlementEvent := fill (mkFillEvent 2 "2:0" "o2" "o1" sell 100 2 1000).
Definition taker_done : SettlementEvent := accepted 2 "o2" 0.

Definition level (price qty : string) : value :=
  v_array [v_object [("side", v_string "buy"); ("price", v_string price); ("qty", v_string qty)]].

Definition toy_parse (s : string) : result value :=
  if bool_decide (s = "rests") then Ok (engine_value rests)
  else if bool_decide (s = "trades") then Ok (engine_value trades_some)
  else if bool_decide (s = "done") then Ok (engine_value taker_done)
  else if bool_decide (s = "five") then Ok (level "100" "5")
  else if bool_decide (s = "three") then Ok (level "100" "3")
  else Throw TypeError.

Definition toy_sides (n : Z) : Sides :=
  mkSides (if n <=? 0 then ∅ else if n =? 1 then {[100 := 5]} else {[100 := 3]}) ∅.

Definition toy_history : History := mkHistory toy_sides
  (fun n => if n =? 1 then [rests] else if n =? 2 then [trades_some; taker_done] else [])
  (fun n => if n =? 1 then [mkChange buy 100 5] else if n =? 2 then [mkChange buy 100 3] else []).

Lemma toy_consistent : consistent toy_history.
Proof.
  intros n. simpl. destruct (Z.eq_dec n 0) as [->|]; [by vm_compute|]. destruct (Z.eq_dec n 1) as [->|]; [by vm_compute|].
  rewrite (proj2 (Z.eqb_neq (n + 1) 1)), (proj2 (Z.eqb_neq (n + 1) 2)) by lia. simpl. unfold toy_sides.
  destruct (Z.leb_spec n 0), (Z.leb_spec (n + 1) 0); try lia; [done|].
  by rewrite !(proj2 (Z.eqb_neq _ 1)) by lia.
Qed.

Definition first_entry : FanoutEntry := mkFanoutEntry 1 0 "rests" (Some "five").
Definition second_entries : list FanoutEntry := [mkFanoutEntry 2 0 "trades" None; mkFanoutEntry 2 1 "done" (Some "three")].

(** The first sequence twice; the first half of the second and, after a loss, an entry that
    cannot be read; from then on the second whole. The position is the number of reads. *)
Definition toy_reads (n : nat) : list FanoutEntry :=
  match n with
  | 0%nat => [first_entry; first_entry]
  | 1%nat => [mkFanoutEntry 2 0 "trades" None; mkFanoutEntry 2 1 "garbage" None]
  | _ => first_entry :: second_entries
  end.

#[local] Instance toy_feed : Feed nat := {
  seekToEnd := fun n => (Ok tt, n);
  stream_read := fun n => (Ok (toy_reads n), S n);
  depth := fun n => (Some (if (n <=? 0)%nat then Reconciliation.mkDepth 0 [] [] else Reconciliation.mkDepth 1 [(100, 5)] []), n);
  engine_lastSeq := fun n => (Some 2, n)
}.

Lemma toy_genuine e : e ∈ first_entry :: second_entries ++ [mkFanoutEntry 2 1 "garbage" None] -> genuine toy_parse toy_history e.
Proof.
  intros H. repeat (apply elem_of_cons in H as [->|H]); [..|by apply not_elem_of_nil in H];
    (split; [done|intros ev Hd _; vm_compute in Hd; try discriminate; injection Hd as <-; reflexivity
            |intros raw cs Hr Hp; try discriminate; injection Hr as <-; vm_compute in Hp; injection Hp as <-; split; reflexivity]).
Qed.

#[local] Instance toy_honest : HonestFeed toy_feed toy_parse toy_history.
Proof.
  split.
  - intros w entries w' [= <- _]. apply Forall_forall. intros e He. apply toy_genuine.
    destruct w as [|[|w]]; simpl in He; set_solver.
  - intros w d w' [= <- _]. destruct w; reflexivity.
Qed.

Definition toy_fan (n : nat) : Fan (W := nat) := cycles toy_parse 10 2 n (fan_start 0%nat).

Lemma vouched_book_is_the_engines_witness :
  length (emitted (toy_fan 4)) = 6%nat /\ book 10 (toy_fan 2) = None /\
  book 10 (toy_fan 4) = Some (mkView 2 [(100, 3)] [] false) /\
  tells toy_history 10 (emitted (toy_fan 4)) (vw_seq <$> book 10 (toy_fan 4)).
Proof.
  split; [vm_compute; reflexivity|]. split; [vm_compute; reflexivity|]. split; [vm_compute; reflexivity|].
  exact (proj1 (vouched_book_is_the_engines toy_parse 10 2 toy_history 4 0%nat toy_consistent toy_honest)).
Defined.

Lemma whole_sequence_is_told_witness :
  bm_seq <$> mirror (process_all toy_parse (first_entry :: second_entries) (toy_fan 1)) = Some 2.
Proof.
  destruct (whole_sequence_is_told toy_parse toy_history 1 second_entries (first_entry :: second_entries) (toy_fan 1)
    (mkMirror 1 (toy_sides 1))) as (H & _).
  - split; [reflexivity|]. intros [|[|i]] e [= <-]; (split; [reflexivity|]; split; [reflexivity|]); eexists; split; reflexivity.
  - discriminate.
  - vm_compute. reflexivity.
  - vm_compute. reflexivity.
  - reflexivity.
  - vm_compute. reflexivity.
  - rewrite H. reflexivity.
Defined.
