(* ===== verification/Portfolio.v ===== *)
(** * Portfolio valuation

    [packages/portfolio/src]: money.ts, ranges.ts and series.ts, and what
    [apps/api/src/services/portfolio.service.ts] assembles around them, over the queries of
    [price.repository.ts] and the entries of [ledger.repository.ts]. Instants are
    milliseconds, dollars are micro-dollars. The order of [localeCompare] is an argument. *)

From Stdlib Require Import ZArith Lia Ascii.
From stdpp Require Import base list strings.
From S2P Require Import Prelude Decimal Assets Ledger.

Open Scope string_scope.
Open Scope list_scope.
Open Scope Z_scope.

(** ** [money.ts] *)

Definition USD_MICROS : Z := 1000000.

(** [/^-?\d+(\.\d+)?$/], and the parts of what it matches. *)
Definition match_usd (s : text) : option (bool * text * text) :=
  let (negative, unsigned) := match s with
                              | a :: s' => if bool_decide (a = minus_char) then (true, s') else (false, s)
                              | [] => (false, [])
                              end in
  let (whole, rest) := span is_digit unsigned in
  match whole, rest with
  | [], _ => None
  | _, [] => Some (negative, whole, [])
  | _, a :: fraction =>
      if bool_decide (a = dot_char) && negb (bool_decide (fraction = [])) && forallb is_digit fraction
      then Some (negative, whole, fraction) else None
  end.

Definition parseUsd (value : text) : result Z :=
  match match_usd (trim value) with
  | None => Throw TypeError
  | Some (negative, whole, fraction) =>
      let micros := digits_value whole * USD_MICROS + digits_value (take 6 (pad_end 6 fraction)) in
      Ok (if negative then - micros else micros)
  end.

Definition formatUsd (micros : Z) : text :=
  let negative := micros <? 0 in
  let absolute := if negative then - micros else micros in
  (if negative then [minus_char] else []) ++ to_digits (Z.quot absolute USD_MICROS) ++
    dot_char :: pad_start 6 (to_digits (Z.rem absolute USD_MICROS)).

Definition valueOf (amount priceMicros decimals : Z) : result Z :=
  if (decimals <? 0) || (decimals >? 30) then Throw TypeError
  else Ok (Z.quot (amount * priceMicros) (10 ^ decimals)).

Definition shareBps (part total : Z) : Z := if total =? 0 then 0 else Z.quot (part * 10000) total.

(** ** [ranges.ts] *)

Inductive PortfolioRange := range_24h | range_7d | range_30d | range_all.

Definition DAY_MS : Z := 86400000.

Record RangeShape := mkShape { spanMs : option Z; points : Z }.

Definition SHAPES (range : PortfolioRange) : RangeShape :=
  match range with
  | range_24h => mkShape (Some DAY_MS) 24
  | range_7d => mkShape (Some (7 * DAY_MS)) 28
  | range_30d => mkShape (Some (30 * DAY_MS)) 30
  | range_all => mkShape None 40
  end.

Definition isPortfolioRange (value : string) : bool := bool_decide (value ∈ ["24h"; "7d"; "30d"; "all"]).

Definition windowStart (range : PortfolioRange) (now : Z) (since : option Z) : Z :=
  match spanMs (SHAPES range) with
  | None => default (now - DAY_MS) since
  | Some span => now - span
  end.

(** [Math.round(start + (span / intervals) * index)]. The division is one of doubles, whose
    error here is under a thousandth of a millisecond; the number of intervals of every range
    is odd, so the exact quotient is at least 1/78 away from where the rounding changes. *)
Definition instant (start span intervals index : Z) : Z :=
  (2 * (start * intervals + span * index) + intervals) / (2 * intervals).

Definition bucketsFor (range : PortfolioRange) (now : Z) (since : option Z) : list Z :=
  let start := windowStart range now since in
  let points := points (SHAPES range) in
  let span := now - start in
  if span <=? 0 then [now] else
  map (instant start span (points - 1)) (seqZ 0 (points - 1)) ++ [now].

(** ** [series.ts] *)

Record TimedEntry := mkTimed { te_asset : string; te_amount : Z; te_direction : Direction; te_at : Z }.

Record PriceTick := mkTick { pk_asset : string; pk_priceUsd : text; pk_at : Z }.

Record Holding := mkHolding { hd_asset : string; hd_amount : Z; hd_valueUsd : option Z }.

Record PortfolioPoint := mkPoint { pp_at : Z; pp_totalUsd : Z; pp_holdings : list Holding; pp_complete : bool }.

(** [{ index, last }] of one asset's ticks. *)
Record Walk := mkWalk { wk_index : nat; wk_last : option PriceTick }.

Section Series.
Context (locale_le : string -> string -> bool) (prices : list (string * list PriceTick)) (decimalsOf : string -> Z).

(** [[...balances].sort(([a], [b]) => a.localeCompare(b))] *)
Fixpoint insert_locale (x : string * Z) (sorted : list (string * Z)) : list (string * Z) :=
  match sorted with
  | [] => [x]
  | y :: sorted => if locale_le x.1 y.1 then x :: y :: sorted else y :: insert_locale x sorted
  end.

Definition sort_locale (balances : list (string * Z)) : list (string * Z) := foldr insert_locale [] balances.

Definition signed_amount (e : TimedEntry) : Z :=
  match te_direction e with Credit => te_amount e | Debit => - te_amount e end.

(** [while (cursor < entries.length)], the entries that are left for the cursor. *)
Fixpoint advance_entries (entries : list TimedEntry) (at_ : Z) (balances : list (string * Z))
  : list TimedEntry * list (string * Z) :=
  match entries with
  | [] => ([], balances)
  | e :: rest =>
      if te_at e >? at_ then (entries, balances)
      else advance_entries rest at_ (jadd (te_asset e) (signed_amount e) balances)
  end.

(** [while (walk.index < ticks.length)], over the ticks from the index on. *)
Fixpoint walk_on (ticks : list PriceTick) (at_ : Z) (walk : Walk) : Walk :=
  match ticks with
  | [] => walk
  | t :: ticks => if pk_at t >? at_ then walk else walk_on ticks at_ (mkWalk (S (wk_index walk)) (Some t))
  end.

Definition priceAt (ticks : list PriceTick) (at_ : Z) (walks : list (string * Walk)) (asset : string)
  : result (option Z) * list (string * Walk) :=
  let walk := default (mkWalk 0 None) (jget asset walks) in
  let walk := walk_on (drop (wk_index walk) ticks) at_ walk in
  (match wk_last walk with
   | None => Ok None
   | Some t => micros ← parseUsd (pk_priceUsd t); Ok (Some micros)
   end, jset asset walk walks).

(** What one holding adds to a point, once its price is known. *)
Definition hold_one (asset : string) (amount : Z) (price : option Z) (acc : Z * list Holding * bool)
  : result (Z * list Holding * bool) :=
  let '(total, holdings, complete) := acc in
  match price with
  | None => Ok (total, holdings ++ [mkHolding asset amount None], if amount =? 0 then complete else false)
  | Some priceMicros =>
      value ← valueOf amount priceMicros (decimalsOf asset);
      Ok (total + value, holdings ++ [mkHolding asset amount (Some value)], complete)
  end.

(** [for (const [asset, amount] of ..)] *)
Fixpoint hold_all (balances : list (string * Z)) (at_ : Z) (walks : list (string * Walk)) (acc : Z * list Holding * bool)
  : result ((Z * list Holding * bool) * list (string * Walk)) :=
  match balances with
  | [] => Ok (acc, walks)
  | (asset, amount) :: balances =>
      let (price, walks) := priceAt (default [] (jget asset prices)) at_ walks asset in
      price ← price;
      acc ← hold_one asset amount price acc;
      hold_all balances at_ walks acc
  end.

(** [for (const at of input.buckets)] *)
Fixpoint series_from (buckets : list Z) (entries : list TimedEntry) (balances : list (string * Z))
    (walks : list (string * Walk)) : result (list PortfolioPoint) :=
  match buckets with
  | [] => Ok []
  | at_ :: buckets =>
      let (entries, balances) := advance_entries entries at_ balances in
      '(total, holdings, complete, walks) ← hold_all (sort_locale balances) at_ walks (0, [], true);
      rest ← series_from buckets entries balances walks;
      Ok (mkPoint at_ total holdings complete :: rest)
  end.

Definition projectSeries (entries : list TimedEntry) (buckets : list Z) : result (list PortfolioPoint) :=
  series_from buckets entries [] [].
End Series.

Record AssetAllocation := mkAlloc {
  al_asset : string; al_amount : Z; al_valueUsd : option Z; al_shareBps : Z; al_changeUsd : option Z
}.

Record PortfolioSummary := mkSummary {
  sm_totalUsd : Z; sm_changeUsd : option Z; sm_changeBps : option Z; sm_allocations : list AssetAllocation; sm_complete : bool
}.

(** [new Map(holdings.map(..))], of which the value of an asset, or null, is looked up. *)
Definition value_before (previous : option PortfolioPoint) (asset : string) : option Z :=
  mjoin (jget asset (fold_left (fun m h => jset (hd_asset h) (hd_valueUsd h) m)
           (default [] (pp_holdings <$> previous)) [])).

Definition summarise (current : PortfolioPoint) (previous : option PortfolioPoint) : PortfolioSummary :=
  let allocation h :=
    let earlier := value_before previous (hd_asset h) in
    mkAlloc (hd_asset h) (hd_amount h) (hd_valueUsd h)
      (match hd_valueUsd h with None => 0 | Some v => shareBps v (pp_totalUsd current) end)
      (match hd_valueUsd h, earlier with Some v, Some e => Some (v - e) | _, _ => None end) in
  let changeUsd := (fun p => pp_totalUsd current - pp_totalUsd p) <$> previous in
  mkSummary (pp_totalUsd current) changeUsd
    (match previous, changeUsd with
     | Some p, Some change => if pp_totalUsd p =? 0 then None else Some (Z.quot (change * 10000) (pp_totalUsd p))
     | _, _ => None
     end)
    (map allocation (pp_holdings current))
    (pp_complete current && default true (pp_complete <$> previous)).

(** ** The queries *)

(** A row of [ledger_entries] joined to its account, in the order of [(created_at, id)]. *)
Record EntryRow := mkEntryRow { er_account : AccountRef; er_amount : Z; er_direction : Direction; er_createdAt : Z }.

Definition available_of (userId : string) (cluster : Cluster) (until : Z) (r : EntryRow) : bool :=
  bool_decide (ownerId (er_account r) = Some userId) && bool_decide (acc_type (er_account r) = user_custody_available) &&
  assetKeyInCluster (acc_asset (er_account r)) cluster && (er_createdAt r <=? until).

Definition getUserAvailableEntries (rows : list EntryRow) (userId : string) (cluster : Cluster) (until : Z) (limit : nat)
  : list EntryRow :=
  take limit (filter (fun r => available_of userId cluster until r = true) rows).

(** A row of [asset_price_ticks]. *)
Record TickRow := mkTickRow { tk_cluster : Cluster; tk_asset : string; tk_priceUsd : text; tk_recordedAt : Z }.

(** [ORDER BY asset, recorded_at], of the rows in the order they come. *)
Definition tick_le (x y : TickRow) : bool :=
  if decide (tk_asset x = tk_asset y) then tk_recordedAt x <=? tk_recordedAt y else String.leb (tk_asset x) (tk_asset y).

Fixpoint insert_tick (t : TickRow) (sorted : list TickRow) : list TickRow :=
  match sorted with
  | [] => [t]
  | u :: sorted => if tick_le t u then t :: u :: sorted else u :: insert_tick t sorted
  end.

Definition sort_ticks (ts : list TickRow) : list TickRow := foldr insert_tick [] ts.

Definition ticks_of (table : list TickRow) (cluster : Cluster) (asset : string) : list TickRow :=
  filter (fun t => tk_cluster t = cluster /\ tk_asset t = asset) table.

(** [ORDER BY recorded_at DESC LIMIT 1] of an asset's ticks before an instant. *)
Definition last_before (table : list TickRow) (cluster : Cluster) (asset : string) (from : Z) : list TickRow :=
  match last (sort_ticks (filter (fun t => tk_recordedAt t < from) (ticks_of table cluster asset))) with
  | Some t => [t]
  | None => []
  end.

Definition seriesFor (table : list TickRow) (cluster : Cluster) (assets : list string) (from to : Z) : list TickRow :=
  match assets with
  | [] => []
  | _ => sort_ticks
           (filter (fun t => tk_cluster t = cluster /\ tk_asset t ∈ assets /\ from <= tk_recordedAt t <= to) table ++
            mjoin (map (fun a => last_before table cluster a from) assets))
  end.

(** ** The service *)

Definition MAX_ENTRIES : nat := Z.to_nat 20000.

Section Service.
Context (locale_le : string -> string -> bool) (registry : AssetRegistry) (cluster : Cluster).
Context (ledger_rows : list EntryRow) (tick_table : list TickRow).

Definition timed (r : EntryRow) : TimedEntry :=
  mkTimed (acc_asset (er_account r)) (er_amount r) (er_direction r) (er_createdAt r).

(** The entries one valuation reads. *)
Definition valued_entries (userId : string) (now : Z) : list TimedEntry :=
  map timed (take MAX_ENTRIES (getUserAvailableEntries ledger_rows userId cluster now (S MAX_ENTRIES))).

(** [byAsset], the rows back under their qualified keys. *)
Fixpoint by_asset (rows : list TickRow) (m : list (string * list PriceTick)) : result (list (string * list PriceTick)) :=
  match rows with
  | [] => Ok m
  | row :: rows =>
      key ← ledgerAssetKey cluster (tk_asset row);
      by_asset rows (jset key (default [] (jget key m) ++ [mkTick key (tk_priceUsd row) (tk_recordedAt row)]) m)
  end.

(** [[...new Set(entries.map((entry) => entry.asset))]] *)
Definition held_assets (entries : list TimedEntry) : list string :=
  map fst (group_sum te_asset (fun _ => 0) entries).

Definition valueAt (userId : string) (buckets : list Z) (now : Z) : result (list PortfolioPoint * bool) :=
  let rows := getUserAvailableEntries ledger_rows userId cluster now (S MAX_ENTRIES) in
  let truncated := (MAX_ENTRIES <? length rows)%nat in
  let entries := map timed (take MAX_ENTRIES rows) in
  let from := default now (head buckets) in
  assets ← map_result (fun key => snd <$> parseLedgerAssetKey key) (held_assets entries);
  byAsset ← by_asset (seriesFor tick_table cluster assets from now) [];
  points ← projectSeries locale_le byAsset (decimalsOf registry) entries buckets;
  Ok (points, truncated).

Definition firstEntryAt (userId : string) (now : Z) : option Z :=
  er_createdAt <$> head (getUserAvailableEntries ledger_rows userId cluster now 1).

Definition history (userId : string) (range : PortfolioRange) (now : Z) : result (list PortfolioPoint * bool) :=
  let since := match range with range_all => firstEntryAt userId now | _ => None end in
  valueAt userId (bucketsFor range now since) now.

Definition summary (userId : string) (now : Z) : result (PortfolioSummary * bool) :=
  '(points, truncated) ← valueAt userId [now - DAY_MS; now] now;
  match points with
  | previous :: current :: _ => Ok (summarise current (Some previous), truncated)
  | _ => Throw (GenericError "valuation produced no current point")
  end.
End Service.
