(* ===== verification/Valuation.v ===== *)
(** * A valuation is its definition

    The one-pass series of [Portfolio] against a definition without cursors: a point is the
    sum of the entries up to its instant, valued at the last price at or before it. The
    window of prices that is read is enough, and the instants of a range are in order. *)

From Stdlib Require Import ZArith Lia Ascii.
From stdpp Require Import base list sets strings sorting.
From S2P Require Import Prelude Decimal Assets Ledger Portfolio.

Open Scope string_scope.
Open Scope list_scope.
Open Scope Z_scope.

(** ** The definition *)

Definition balances_at (entries : list TimedEntry) (at_ : Z) : list (string * Z) :=
  group_sum te_asset signed_amount (filter (fun e => te_at e <= at_) entries).

Definition price_of (price : option text) : result (option Z) :=
  match price with None => Ok None | Some p => micros ← parseUsd p; Ok (Some micros) end.

Section PointAt.
Context (locale_le : string -> string -> bool) (decimalsOf : string -> Z) (price : string -> Z -> option text).

(** Every holding at its price, in order. *)
Fixpoint valued (balances : list (string * Z)) (at_ : Z) (acc : Z * list Holding * bool) : result (Z * list Holding * bool) :=
  match balances with
  | [] => Ok acc
  | (asset, amount) :: balances =>
      micros ← price_of (price asset at_);
      acc ← hold_one decimalsOf asset amount micros acc;
      valued balances at_ acc
  end.

Definition point_at (entries : list TimedEntry) (at_ : Z) : result PortfolioPoint :=
  '(total, holdings, complete) ← valued (sort_locale locale_le (balances_at entries at_)) at_ (0, [], true);
  Ok (mkPoint at_ total holdings complete).
End PointAt.

(** The last of an ascending list that is not after an instant. *)
Definition tick_at (ticks : list PriceTick) (at_ : Z) : option PriceTick := last (filter (fun t => pk_at t <= at_) ticks).

(** ** Lemmas: sorted lists *)

Definition ascending {A} (time : A -> Z) : list A -> Prop := StronglySorted (fun x y => time x <= time y).

Lemma ascending_app {A} (time : A -> Z) xs ys :
  ascending time (xs ++ ys) <-> ascending time xs /\ ascending time ys /\ forall x y, x ∈ xs -> y ∈ ys -> time x <= time y.
Proof.
  unfold ascending. rewrite StronglySorted_app. naive_solver.
Qed.

Lemma ascending_filter {A} (time : A -> Z) xs t :
  ascending time xs -> exists pre post, xs = pre ++ post /\ pre = filter (fun x => time x <= t) xs /\
    Forall (fun x => time x <= t) pre /\ Forall (fun x => t < time x) post.
Proof.
  induction xs as [|x xs IH]; intros H; [by exists [], []|]. apply StronglySorted_inv in H as [H Hx]. destruct (IH H) as (pre & post & -> & E & Hp & Hq).
  destruct (decide (time x <= t)) as [Hle|Hgt].
  - exists (x :: pre), post. rewrite filter_cons_True by done. rewrite <- E. split; [done|]. split; [done|]. split; [by constructor|done].
  - exists [], (x :: pre ++ post). rewrite filter_cons_False by done. assert (pre = []) as ->.
    { destruct pre as [|y pre]; [done|]. apply Forall_inv in Hp. rewrite Forall_forall in Hx. specialize (Hx y ltac:(by left)). lia. }
    rewrite <- E. split; [done|]. split; [done|]. split; [constructor|]. constructor; [lia|done].
Qed.

(** ** Lemmas: the pass over the buckets *)

Section Pass.
Context (locale_le : string -> string -> bool) (prices : list (string * list PriceTick)) (decimalsOf : string -> Z).
Context (Hticks : forall asset ticks, jget asset prices = Some ticks -> ascending pk_at ticks).

Definition ticks_for (asset : string) : list PriceTick := default [] (jget asset prices).

Lemma ticks_ascending asset : ascending pk_at (ticks_for asset).
Proof using Hticks. unfold ticks_for. destruct (jget asset prices) eqn:E; [by eapply Hticks|constructor]. Qed.

Lemma advance_spec entries done_ at_ :
  ascending te_at (done_ ++ entries) -> Forall (fun e => te_at e <= at_) done_ ->
  exists more rest, entries = more ++ rest /\ done_ ++ more = filter (fun e => te_at e <= at_) (done_ ++ entries) /\
    Forall (fun e => te_at e <= at_) (done_ ++ more) /\
    advance_entries entries at_ (group_sum te_asset signed_amount done_) = (rest, group_sum te_asset signed_amount (done_ ++ more)).
Proof.
  revert done_. induction entries as [|e entries IH]; intros done_ Ha Hd.
  - exists [], []. split; [done|]. rewrite app_nil_r. split; [|done]. rewrite filter_all; [done|]. by apply Forall_forall.
  - simpl. destruct (Z.gtb_spec (te_at e) at_) as [Hgt|Hle].
    + exists [], (e :: entries). rewrite app_nil_r. split; [done|]. split; [|done]. rewrite filter_app, filter_all by (by apply Forall_forall).
      rewrite (filter_none (fun e => te_at e <= at_) (e :: entries)); [by rewrite app_nil_r|].
      apply ascending_app in Ha as (_ & Ha & _). apply StronglySorted_inv in Ha as [_ Ha]. rewrite Forall_forall in Ha.
      intros x [->|Hx]%elem_of_cons; [lia|]. specialize (Ha x Hx). simpl in Ha. lia.
    + destruct (IH (done_ ++ [e])) as (more & rest & -> & E & Hf & Hadv).
      * by rewrite <- app_assoc.
      * apply Forall_app. split; [done|]. constructor; [lia|constructor].
      * exists (e :: more), rest. rewrite <- app_assoc in E, Hf, Hadv. simpl in E, Hf, Hadv. rewrite <- app_assoc in E. simpl in E. split; [done|]. split; [done|]. split; [done|].
        rewrite <- Hadv. f_equal. unfold group_sum. by rewrite fold_left_app.
Qed.

(** A walk that has read what lies before every bucket still to come. *)
Definition walk_ok (asset : string) (buckets : list Z) (walk : Walk) : Prop :=
  exists pre post, ticks_for asset = pre ++ post /\ walk = mkWalk (length pre) (last pre) /\
    forall b, b ∈ buckets -> Forall (fun t => pk_at t <= b) pre.

Lemma walk_on_spec asset at_ pre post :
  ticks_for asset = pre ++ post -> Forall (fun t => pk_at t <= at_) pre ->
  exists more rest, post = more ++ rest /\ Forall (fun t => pk_at t <= at_) (pre ++ more) /\
    walk_on post at_ (mkWalk (length pre) (last pre)) = mkWalk (length (pre ++ more)) (last (pre ++ more)) /\
    last (pre ++ more) = tick_at (ticks_for asset) at_.
Proof using Hticks.
  intros E Hp. pose proof (ticks_ascending asset) as Ha. rewrite E in Ha. rewrite E. clear E.
  revert pre Hp Ha. induction post as [|t post IH]; intros pre Hp Ha.
  - exists [], []. rewrite !app_nil_r. split; [done|]. split; [done|]. split; [done|]. unfold tick_at. rewrite filter_all; [done|]. by apply Forall_forall.
  - simpl. destruct (Z.gtb_spec (pk_at t) at_) as [Hgt|Hle].
    + exists [], (t :: post). rewrite app_nil_r. split; [done|]. split; [done|]. split; [done|]. unfold tick_at.
      rewrite filter_app, filter_all by (by apply Forall_forall). rewrite (filter_none _ (t :: post)); [by rewrite app_nil_r|].
      apply ascending_app in Ha as (_ & Ha & _). apply StronglySorted_inv in Ha as [_ Ha]. rewrite Forall_forall in Ha.
      intros x [->|Hx]%elem_of_cons; [lia|]. specialize (Ha x Hx). simpl in Ha. lia.
    + destruct (IH (pre ++ [t])) as (more & rest & -> & Hf & Hw & Hl).
      * apply Forall_app. split; [done|]. constructor; [lia|constructor].
      * by rewrite <- app_assoc.
      * exists (t :: more), rest. rewrite <- app_assoc in Hf, Hw, Hl. simpl in Hf, Hw, Hl. rewrite <- app_assoc in Hl. simpl in Hl. split; [done|]. split; [done|]. split; [|done].
        rewrite <- Hw. f_equal. rewrite length_app, last_snoc. simpl. f_equal. lia.
Qed.

Lemma priceAt_spec asset at_ buckets walks :
  (forall a w, jget a walks = Some w -> walk_ok a (at_ :: buckets) w) -> (forall b, b ∈ buckets -> at_ <= b) ->
  exists w, priceAt (ticks_for asset) at_ walks asset = (price_of (pk_priceUsd <$> tick_at (ticks_for asset) at_), jset asset w walks) /\
    walk_ok asset (at_ :: buckets) w.
Proof using Hticks.
  intros Hw Hb. unfold priceAt.
  assert (H0 : walk_ok asset (at_ :: buckets) (default (mkWalk 0 None) (jget asset walks))).
  { destruct (jget asset walks) as [w|] eqn:E; simpl; [by apply Hw|]. exists [], (ticks_for asset). split; [done|]. split; [done|]. intros; constructor. }
  destruct H0 as (pre & post & E & -> & Hpre). destruct (walk_on_spec asset at_ pre post E) as (more & rest & -> & Hf & Hwalk & Hl).
  { apply Hpre. by left. }
  replace (drop (wk_index (mkWalk (length pre) (last pre))) (ticks_for asset)) with (more ++ rest) by (rewrite E; simpl; by rewrite drop_app_length).
  rewrite Hwalk. exists (mkWalk (length (pre ++ more)) (last (pre ++ more))). split; [f_equal; cbn [wk_last]; rewrite Hl; by destruct (tick_at _ _)|]. exists (pre ++ more), rest. rewrite E, <- app_assoc. split; [done|]. split; [done|].
  intros b [->|Hin]%elem_of_cons; [done|]. eapply Forall_impl; [exact Hf|]. intros t Ht. simpl in Ht. specialize (Hb b Hin). lia.
Qed.

Lemma hold_all_spec balances at_ buckets walks acc :
  (forall a w, jget a walks = Some w -> walk_ok a (at_ :: buckets) w) -> (forall b, b ∈ buckets -> at_ <= b) ->
  match valued decimalsOf (fun a t => pk_priceUsd <$> tick_at (ticks_for a) t) balances at_ acc with
  | Ok acc' => exists walks', hold_all prices decimalsOf balances at_ walks acc = Ok (acc', walks') /\
      forall a w, jget a walks' = Some w -> walk_ok a (at_ :: buckets) w
  | Throw e => hold_all prices decimalsOf balances at_ walks acc = Throw e
  end.
Proof using Hticks.
  revert walks acc. induction balances as [|[asset amount] balances IH]; intros walks acc Hw Hb; cbn [hold_all valued]; [by exists walks|].
  destruct (priceAt_spec asset at_ buckets walks Hw Hb) as (w & E & Hok). change (default [] (jget asset prices)) with (ticks_for asset). rewrite E. clear E.
  destruct (price_of (pk_priceUsd <$> tick_at (ticks_for asset) at_)) as [price|e]; simpl; [|done].
  destruct (hold_one decimalsOf asset amount price acc) as [acc'|e]; simpl; [|done]. apply IH; [|done].
  intros a w' Ha. destruct (decide (a = asset)) as [->|Hne]; [rewrite jget_jset_eq in Ha; by injection Ha as <-|].
  rewrite jget_jset_ne in Ha by auto. by apply Hw.
Qed.

Lemma series_spec buckets done_ entries walks :
  ascending te_at (done_ ++ entries) -> ascending id buckets -> (forall b, b ∈ buckets -> Forall (fun e => te_at e <= b) done_) ->
  (forall a w, jget a walks = Some w -> walk_ok a buckets w) ->
  series_from locale_le prices decimalsOf buckets entries (group_sum te_asset signed_amount done_) walks =
  map_result (point_at locale_le decimalsOf (fun a t => pk_priceUsd <$> tick_at (ticks_for a) t) (done_ ++ entries)) buckets.
Proof using Hticks.
  revert done_ entries walks. induction buckets as [|at_ buckets IH]; intros done_ entries walks Ha Hb Hd Hw; [done|].
  apply StronglySorted_inv in Hb as [Hb Hall]. rewrite Forall_forall in Hall. unfold id in Hall.
  destruct (advance_spec entries done_ at_ Ha) as (more & rest & -> & Efil & Hf & Hadv); [apply Hd; by left|].
  cbn [series_from map_result]. rewrite Hadv.
  assert (Ept : forall price, point_at locale_le decimalsOf price (done_ ++ more ++ rest) at_ =
    ('(total, holdings, complete) ← valued decimalsOf price (sort_locale locale_le (group_sum te_asset signed_amount (done_ ++ more))) at_ (0, [], true);
     Ok (mkPoint at_ total holdings complete))) by (intros; unfold point_at, balances_at; by rewrite <- Efil).
  rewrite Ept.
  pose proof (hold_all_spec (sort_locale locale_le (group_sum te_asset signed_amount (done_ ++ more))) at_ buckets walks (0, [], true) Hw Hall) as Hh.
  destruct (valued _ _ _ at_ _) as [[[total holdings] complete]|e]; [|by rewrite Hh]. destruct Hh as (walks' & -> & Hw').
  simpl. rewrite IH; [by rewrite <- app_assoc|by rewrite <- app_assoc|done| |].
  - intros b Hin. eapply Forall_impl; [exact Hf|]. intros e He. simpl in He. specialize (Hall b Hin). lia.
  - intros a w Hj. destruct (Hw' a w Hj) as (pre & post & E & -> & Hpre). exists pre, post. split; [done|]. split; [done|].
    intros b Hin. apply Hpre. by right.
Qed.
End Pass.

(** ** The definition, on the price table *)

Definition later (best : option TickRow) (t : TickRow) : option TickRow :=
  match best with Some b => if tk_recordedAt b <? tk_recordedAt t then Some t else best | None => Some t end.

(** The newest row of an asset at or before an instant. *)
Definition latest_row (table : list TickRow) (cluster : Cluster) (key : string) (at_ : Z) : option TickRow :=
  fold_left later (filter (fun t => tk_cluster t = cluster /\ ledgerAssetKey cluster (tk_asset t) = Ok key /\ tk_recordedAt t <= at_) table) None.

Definition latest_price (table : list TickRow) (cluster : Cluster) (key : string) (at_ : Z) : option text :=
  tk_priceUsd <$> latest_row table cluster key at_.

(** No asset was given two prices at one instant. *)
Definition unambiguous (table : list TickRow) : Prop :=
  forall x y, x ∈ table -> y ∈ table -> tk_cluster x = tk_cluster y -> tk_asset x = tk_asset y ->
    tk_recordedAt x = tk_recordedAt y -> tk_priceUsd x = tk_priceUsd y.

(** Every account of the ledger is in a well-formed asset. *)
Definition well_keyed (rows : list EntryRow) : Prop :=
  forall r, r ∈ rows -> exists c a, a <> "" /\ ledgerAssetKey c a = Ok (acc_asset (er_account r)).

(** ** Lemmas: newest elements *)

Definition max_of {A} (time : A -> Z) (xs : list A) (o : option A) : Prop :=
  match o with None => xs = [] | Some x => x ∈ xs /\ forall y, y ∈ xs -> time y <= time x end.

Lemma last_max {A} (time : A -> Z) xs : ascending time xs -> max_of time xs (last xs).
Proof.
  induction xs as [|x xs IH] using rev_ind; intros H; [done|]. rewrite last_snoc. apply ascending_app in H as (_ & _ & H).
  split; [set_solver|]. intros y [Hy|Hy]%elem_of_app; [apply H; set_solver|]. apply list_elem_of_singleton in Hy as ->. lia.
Qed.

Lemma later_max xs : max_of tk_recordedAt xs (fold_left later xs None).
Proof.
  induction xs as [|x xs IH] using rev_ind; [done|]. rewrite fold_left_app. cbn [fold_left].
  destruct (fold_left later xs None) as [b|]; simpl in IH |- *; [|subst; set_solver]. destruct IH as [Hb Hm].
  destruct (Z.ltb_spec (tk_recordedAt b) (tk_recordedAt x)); (split; [set_solver|]); intros y [Hy|Hy]%elem_of_app;
    try (apply list_elem_of_singleton in Hy as ->); try specialize (Hm y Hy); lia.
Qed.

(** A part of a list that has something as new as everything of the list has its newest. *)
Lemma max_of_part {A} (time : A -> Z) xs ys o o' :
  max_of time xs o -> max_of time ys o' -> (forall x, x ∈ xs -> x ∈ ys) ->
  (forall y, y ∈ ys -> exists x, x ∈ xs /\ time y <= time x) ->
  match o, o' with None, None => True | Some x, Some y => x ∈ ys /\ y ∈ ys /\ time x = time y | _, _ => False end.
Proof.
  intros Hx Hy Hsub Hdom. destruct o as [x|], o' as [y|]; simpl in Hx, Hy; subst.
  - destruct Hx as [Hx Hmx], Hy as [Hy Hmy]. split; [by apply Hsub|]. split; [done|].
    destruct (Hdom y Hy) as (z & Hz & Hle). pose proof (Hmx z Hz). pose proof (Hmy x (Hsub x Hx)). lia.
  - destruct Hx as [Hx _]. apply Hsub in Hx. set_solver.
  - destruct Hy as [Hy _]. destruct (Hdom y Hy) as (z & Hz & _). set_solver.
  - done.
Qed.

(** ** Lemmas: the order of the ticks *)

Lemma tick_le_trans x y z : tick_le x y = true -> tick_le y z = true -> tick_le x z = true.
Proof.
  unfold tick_le. intros Hxy Hyz. destruct (decide (tk_asset x = tk_asset y)) as [E|N]; destruct (decide (tk_asset y = tk_asset z)) as [E'|N'].
  - rewrite decide_True by congruence. zbool. apply Z.leb_le. lia.
  - rewrite decide_False by congruence. by rewrite E.
  - rewrite decide_False by congruence. by rewrite <- E'.
  - destruct (decide (tk_asset x = tk_asset z)) as [E''|].
    + rewrite <- E'' in Hyz. exfalso. apply N. by apply String.leb_antisym.
    + apply Is_true_true in Hxy, Hyz. apply Is_true_true. exact (transitivity (R := String.le) Hxy Hyz).
Qed.

Lemma tick_le_total x y : tick_le x y = false -> tick_le y x = true.
Proof.
  unfold tick_le. destruct (decide (tk_asset x = tk_asset y)) as [E|N].
  - rewrite decide_True by done. intros. zbool. apply Z.leb_le. lia.
  - rewrite decide_False by done. intros H. destruct (String.leb_total (tk_asset x) (tk_asset y)) as [H'|H']; congruence.
Qed.

Lemma insert_tick_perm t ts : insert_tick t ts ≡ₚ t :: ts.
Proof. induction ts as [|u ts IH]; simpl; [done|]. destruct (tick_le t u); [done|]. rewrite IH. constructor. Qed.

Lemma sort_ticks_perm ts : sort_ticks ts ≡ₚ ts.
Proof. induction ts as [|t ts IH]; simpl; [done|]. by rewrite insert_tick_perm, IH. Qed.

Lemma insert_tick_sorted t ts :
  StronglySorted (fun x y => tick_le x y = true) ts -> StronglySorted (fun x y => tick_le x y = true) (insert_tick t ts).
Proof.
  induction ts as [|u ts IH]; intros H; simpl; [by repeat constructor|]. pose proof H as H'. apply StronglySorted_inv in H as [H Hu].
  destruct (tick_le t u) eqn:E.
  - constructor; [done|]. constructor; [done|]. eapply Forall_impl; [exact Hu|]. intros v Hv. by eapply tick_le_trans.
  - constructor; [by apply IH|]. rewrite insert_tick_perm. constructor; [by apply tick_le_total|done].
Qed.

Lemma sort_ticks_sorted ts : StronglySorted (fun x y => tick_le x y = true) (sort_ticks ts).
Proof. induction ts as [|t ts IH]; simpl; [constructor|]. by apply insert_tick_sorted. Qed.

Lemma StronglySorted_filter {A} (R : relation A) (P : A -> Prop) `{forall x, Decision (P x)} xs :
  StronglySorted R xs -> StronglySorted R (filter P xs).
Proof.
  induction 1 as [|x xs Hs IH Hx]; [constructor|]. rewrite filter_cons. case_decide; [|done]. constructor; [done|].
  rewrite Forall_forall in Hx |- *. intros y [_ Hy]%list_elem_of_filter. by apply Hx.
Qed.

Lemma StronglySorted_weaken {A} (R R' : relation A) xs :
  (forall x y, x ∈ xs -> y ∈ xs -> R x y -> R' x y) -> StronglySorted R xs -> StronglySorted R' xs.
Proof.
  intros HR. induction 1 as [|x xs Hs IH Hx]; constructor; [apply IH; intros; apply HR; set_solver|].
  rewrite Forall_forall in Hx |- *. intros y Hy. apply HR; [set_solver..|]. by apply Hx.
Qed.

(** ** Lemmas: the rows under their keys *)

Lemma ledgerAssetKey_inj c a b k : ledgerAssetKey c a = Ok k -> ledgerAssetKey c b = Ok k -> a = b.
Proof. intros [_ ->]%ledgerAssetKey_Ok [_ E]%ledgerAssetKey_Ok. apply (inj (String.append (cluster_name c))) in E. by injection E. Qed.

Definition tick_of (key : string) (r : TickRow) : PriceTick := mkTick key (tk_priceUsd r) (tk_recordedAt r).

Lemma by_asset_spec cluster rows m :
  (forall r, r ∈ rows -> exists k, ledgerAssetKey cluster (tk_asset r) = Ok k) ->
  exists m', by_asset cluster rows m = Ok m' /\ forall k,
    default [] (jget k m') = default [] (jget k m) ++ map (tick_of k) (filter (fun r => ledgerAssetKey cluster (tk_asset r) = Ok k) rows).
Proof.
  revert m. induction rows as [|r rows IH]; intros m Hk; simpl; [exists m; split; [done|]; intros; by rewrite app_nil_r|].
  destruct (Hk r ltac:(by left)) as [k E]. rewrite E. simpl.
  destruct (IH (jset k (default [] (jget k m) ++ [mkTick k (tk_priceUsd r) (tk_recordedAt r)]) m)) as (m' & -> & Hm'); [intros; apply Hk; by right|].
  exists m'. split; [done|]. intros k'. rewrite Hm', filter_cons. destruct (decide (k' = k)) as [->|Hne].
  - rewrite jget_jset_eq, decide_True by done. simpl. by rewrite <- app_assoc.
  - rewrite jget_jset_ne, decide_False by congruence. done.
Qed.

Section Table.
Context (table : list TickRow) (cluster : Cluster) (assets : list string) (from to : Z).

Lemma last_before_max a :
  max_of tk_recordedAt (filter (fun t => tk_recordedAt t < from) (ticks_of table cluster a)) (head (last_before table cluster a from)).
Proof.
  unfold last_before. set (xs := filter _ _).
  assert (Ha : ascending tk_recordedAt (sort_ticks xs)).
  { eapply StronglySorted_weaken; [|apply sort_ticks_sorted]. intros x y Hx Hy. rewrite sort_ticks_perm in Hx, Hy. unfold xs, ticks_of in Hx, Hy.
    rewrite !list_elem_of_filter in Hx, Hy. unfold tick_le. rewrite decide_True by naive_solver. apply Z.leb_le. }
  apply last_max in Ha. destruct (last (sort_ticks xs)) as [t|]; simpl in Ha |- *.
  - destruct Ha as [Ht Hm]. rewrite sort_ticks_perm in Ht. split; [done|]. intros y Hy. apply Hm. by rewrite sort_ticks_perm.
  - apply Permutation_nil. rewrite <- Ha. apply sort_ticks_perm.
Qed.

Lemma seriesFor_elem t : t ∈ seriesFor table cluster assets from to <->
  (t ∈ table /\ tk_cluster t = cluster /\ tk_asset t ∈ assets /\ from <= tk_recordedAt t <= to) \/
  (exists a, a ∈ assets /\ t ∈ last_before table cluster a from).
Proof.
  unfold seriesFor. destruct assets as [|a0 rest] eqn:E; [set_solver|]. rewrite <- E, sort_ticks_perm, elem_of_app, list_elem_of_filter, list_elem_of_join.
  setoid_rewrite list_elem_of_fmap. naive_solver.
Qed.

Lemma last_before_elem t a : t ∈ last_before table cluster a from ->
  t ∈ table /\ tk_cluster t = cluster /\ tk_asset t = a /\ tk_recordedAt t < from.
Proof.
  intros Ht. pose proof (last_before_max a) as Hm. assert (head (last_before table cluster a from) = Some t) as E.
  { unfold last_before in *. destruct (last _); [|set_solver]. by apply list_elem_of_singleton in Ht as ->. }
  rewrite E in Hm. destruct Hm as [Hm _]. unfold ticks_of in Hm. rewrite !list_elem_of_filter in Hm. naive_solver.
Qed.

Lemma seriesFor_sub t :
  t ∈ seriesFor table cluster assets from to -> t ∈ table /\ tk_cluster t = cluster /\ tk_asset t ∈ assets.
Proof. intros [?|(a & Ha & (? & ? & <- & _)%last_before_elem)]%seriesFor_elem; naive_solver. Qed.

Lemma by_asset_total : (forall a, a ∈ assets -> exists k, ledgerAssetKey cluster a = Ok k) -> exists m, by_asset cluster (seriesFor table cluster assets from to) [] = Ok m /\ forall k,
  ticks_for m k = map (tick_of k) (filter (fun r => ledgerAssetKey cluster (tk_asset r) = Ok k) (seriesFor table cluster assets from to)).
Proof.
  intros Hassets. destruct (by_asset_spec cluster (seriesFor table cluster assets from to) []) as (m & E & Hm).
  - intros r (_ & _ & Hr)%seriesFor_sub. by apply Hassets.
  - by exists m.
Qed.

Lemma rows_ascending k :
  ascending tk_recordedAt (filter (fun r => ledgerAssetKey cluster (tk_asset r) = Ok k) (seriesFor table cluster assets from to)).
Proof.
  apply StronglySorted_weaken with (fun x y => tick_le x y = true).
  - intros x y [Hx _]%list_elem_of_filter [Hy _]%list_elem_of_filter. unfold tick_le.
    rewrite decide_True by exact (ledgerAssetKey_inj _ _ _ _ Hx Hy). apply Z.leb_le.
  - apply StronglySorted_filter. unfold seriesFor. destruct assets; [constructor|apply sort_ticks_sorted].
Qed.

Lemma ascending_map {A B} (f : A -> B) (time : B -> Z) xs : ascending (fun x => time (f x)) xs -> ascending time (map f xs).
Proof. induction 1 as [|x xs Hs IH Hx]; simpl; constructor; [done|]. by apply Forall_map. Qed.

Lemma map_ticks_ascending m k :
  (forall k, ticks_for m k = map (tick_of k) (filter (fun r => ledgerAssetKey cluster (tk_asset r) = Ok k) (seriesFor table cluster assets from to))) ->
  ascending pk_at (ticks_for m k).
Proof. intros ->. apply ascending_map, rows_ascending. Qed.

Lemma filter_tick_of k at_ rows :
  filter (fun t => pk_at t <= at_) (map (tick_of k) rows) = map (tick_of k) (filter (fun r => tk_recordedAt r <= at_) rows).
Proof. induction rows as [|r rows IH]; [done|]. simpl. rewrite !filter_cons. simpl. by case_decide; rewrite IH. Qed.

(** The window that is read knows, at each of its instants, the newest price of the table. *)
Lemma window_price a key m at_ :
  unambiguous table -> ledgerAssetKey cluster a = Ok key -> a ∈ assets -> from <= at_ <= to ->
  (forall k, ticks_for m k = map (tick_of k) (filter (fun r => ledgerAssetKey cluster (tk_asset r) = Ok k) (seriesFor table cluster assets from to))) ->
  pk_priceUsd <$> tick_at (ticks_for m key) at_ = latest_price table cluster key at_.
Proof.
  intros Hu Hkey Ha Hat Hm. unfold latest_price, latest_row, tick_at. rewrite Hm. clear Hm.
  set (rows := filter (fun r => ledgerAssetKey cluster (tk_asset r) = Ok key) _).
  set (ys := filter _ table).
  rewrite filter_tick_of, fmap_last. set (xs := filter (fun r => tk_recordedAt r <= at_) rows).
  assert (Hx : max_of tk_recordedAt xs (last xs)) by (apply last_max, StronglySorted_filter, rows_ascending).
  assert (Hmem : forall r, r ∈ xs <-> tk_recordedAt r <= at_ /\ tk_asset r = a /\ r ∈ seriesFor table cluster assets from to).
  { intros r. unfold xs, rows. rewrite !list_elem_of_filter. split; [|naive_solver].
    intros (? & Hk & ?). split_and!; [done| |done]. by eapply ledgerAssetKey_inj. }
  assert (Hys : forall r, r ∈ ys <-> r ∈ table /\ tk_cluster r = cluster /\ tk_asset r = a /\ tk_recordedAt r <= at_).
  { intros r. unfold ys. rewrite list_elem_of_filter. split; [|naive_solver].
    intros ((? & Hk & ?) & ?). split_and!; [done..| |done]. by eapply ledgerAssetKey_inj. }
  assert (Hsub : forall r, r ∈ xs -> r ∈ ys).
  { intros r (? & ? & (? & ? & ?)%seriesFor_sub)%Hmem. by apply Hys. }
  assert (Hdom : forall r, r ∈ ys -> exists x, x ∈ xs /\ tk_recordedAt r <= tk_recordedAt x).
  { intros r (Hin & Hc & Has & Hle)%Hys. destruct (decide (from <= tk_recordedAt r)).
    - exists r. split; [|lia]. apply Hmem. split_and!; [done..|]. apply seriesFor_elem. left. rewrite Has. split_and!; [done..|lia].
    - pose proof (last_before_max a) as Hlb. assert (Hr : r ∈ filter (fun t => tk_recordedAt t < from) (ticks_of table cluster a)).
      { unfold ticks_of. rewrite !list_elem_of_filter. split; [lia|done]. }
      destruct (head (last_before table cluster a from)) as [x|] eqn:E; simpl in Hlb; [|rewrite Hlb in Hr; set_solver].
      apply head_Some_elem_of in E. pose proof (last_before_elem _ _ E) as (? & ? & ? & ?). exists x. split; [|by apply Hlb].
      apply Hmem. split_and!; [lia|done|]. apply seriesFor_elem. right. by exists a. }
  pose proof (max_of_part tk_recordedAt xs ys _ _ Hx (later_max ys) Hsub Hdom) as Hpart.
  destruct (last xs) as [x|], (fold_left later ys None) as [y|]; simpl; [|done..].
  destruct Hpart as (Hxx & Hyy & Heq). apply Hys in Hxx as (? & ? & ? & ?), Hyy as (? & ? & ? & ?). f_equal. apply Hu; congruence.
Qed.
End Table.

(** ** Lemmas: the instants of a range *)

Lemma instant_mono start span n i j : 0 <= span -> 0 < n -> i <= j -> instant start span n i <= instant start span n j.
Proof. intros. unfold instant. apply Z.div_le_mono; nia. Qed.

Lemma instant_last start span n i : 0 <= span -> 0 < n -> i <= n - 1 -> instant start span n i <= start + span.
Proof.
  intros. unfold instant. assert ((2 * (start * n + span * i) + n) / (2 * n) < start + span + 1); [|lia]. apply Z.div_lt_upper_bound; nia.
Qed.

Lemma seqZ_ascending {A} (f : Z -> A) (time : A -> Z) m n :
  (forall i j, i <= j -> time (f i) <= time (f j)) -> ascending time (map f (seqZ m n)).
Proof.
  intros Hf. apply ascending_map. unfold seqZ. apply StronglySorted_weaken with (fun x y => x <= y); [intros; by apply Hf|].
  generalize 0%nat. induction (Z.to_nat n) as [|k IH]; intros s; simpl; constructor; [apply IH|].
  apply Forall_forall. intros y (i & -> & Hi)%list_elem_of_fmap. apply elem_of_seq in Hi. lia.
Qed.

Lemma bucketsFor_ordered range now since :
  ascending id (bucketsFor range now since) /\ (forall b, b ∈ bucketsFor range now since -> b <= now) /\
  last (bucketsFor range now since) = Some now.
Proof.
  unfold bucketsFor. set (start := windowStart _ _ _). set (n := points (SHAPES range)).
  assert (Hn : 2 <= n) by (by destruct range). destruct (Z.leb_spec (now - start) 0) as [|Hspan].
  - split; [repeat constructor|]. split; [|done]. intros b Hb. apply list_elem_of_singleton in Hb as ->. lia.
  - assert (Hall : forall b, b ∈ map (instant start (now - start) (n - 1)) (seqZ 0 (n - 1)) -> b <= now).
    { intros b (i & -> & Hi)%list_elem_of_fmap. apply elem_of_seqZ in Hi. pose proof (instant_last start (now - start) (n - 1) i). lia. }
    split; [|split; [|by rewrite last_snoc]].
    + apply ascending_app. split; [|split; [repeat constructor|]].
      * apply seqZ_ascending. intros i j Hij. apply instant_mono; [lia..|done].
      * intros x y Hx Hy. apply list_elem_of_singleton in Hy as ->. by apply Hall.
    + intros b [Hb|Hb]%elem_of_app; [by apply Hall|]. apply list_elem_of_singleton in Hb as ->. done.
Qed.

(** ** Lemmas: what a point asks the prices for *)

Lemma insert_locale_perm locale_le x xs : insert_locale locale_le x xs ≡ₚ x :: xs.
Proof. induction xs as [|y xs IH]; simpl; [done|]. destruct (locale_le _ _); [done|]. rewrite IH. constructor. Qed.

Lemma sort_locale_perm locale_le xs : sort_locale locale_le xs ≡ₚ xs.
Proof. induction xs as [|x xs IH]; simpl; [done|]. by rewrite insert_locale_perm, IH. Qed.

Lemma valued_ext decimalsOf price price' balances at_ acc :
  (forall k, k ∈ balances.*1 -> price k at_ = price' k at_) ->
  valued decimalsOf price balances at_ acc = valued decimalsOf price' balances at_ acc.
Proof.
  revert acc. induction balances as [|[k amount] balances IH]; intros acc Hk; [done|]. cbn [valued].
  rewrite (Hk k) by set_solver. destruct (price_of _) as [micros|e]; [|done]. simpl.
  destruct (hold_one decimalsOf k amount micros acc) as [acc'|e]; [|done]. simpl. apply IH. set_solver.
Qed.

Lemma point_at_ext locale_le decimalsOf price price' entries at_ :
  (forall k, k ∈ map te_asset entries -> price k at_ = price' k at_) ->
  point_at locale_le decimalsOf price entries at_ = point_at locale_le decimalsOf price' entries at_.
Proof.
  intros Hk. unfold point_at. rewrite (valued_ext decimalsOf price price'); [done|]. intros k Hin. apply Hk.
  rewrite sort_locale_perm in Hin. apply group_sum_keys in Hin. apply list_elem_of_fmap in Hin as (e & -> & He).
  apply list_elem_of_fmap. exists e. split; [done|]. apply list_elem_of_filter in He. apply He.
Qed.

Lemma map_result_ext {A B} (f g : A -> result B) xs : (forall x, x ∈ xs -> f x = g x) -> map_result f xs = map_result g xs.
Proof. induction xs as [|x xs IH]; intros H; simpl; [done|]. rewrite H by set_solver. rewrite IH by set_solver. done. Qed.

Lemma map_result_last {A B} (f : A -> result B) xs ys x :
  map_result f xs = Ok ys -> last xs = Some x -> exists y, f x = Ok y /\ last ys = Some y.
Proof.
  revert ys. induction xs as [|x0 [|x1 xs] IH]; intros ys Hm Hl; [done|simpl in Hm; inv_ok; simpl in *; simplify_eq; by eexists|].
  cbn [map_result] in Hm. apply bind_Ok in Hm as (y0 & _ & (ys' & Hys & [= <-])%bind_Ok).
  destruct (IH ys' Hys Hl) as (y & Hy & Hlast). exists y. split; [done|]. by rewrite last_cons, Hlast.
Qed.

(** ** Lemmas: the service *)

Lemma elem_of_take_sub {A} n (xs : list A) x : x ∈ take n xs -> x ∈ xs.
Proof. intros H. rewrite <- (take_drop n xs). set_solver. Qed.

Section Services.
Context (locale_le : string -> string -> bool) (registry : AssetRegistry) (cluster : Cluster).
Context (rows : list EntryRow) (table : list TickRow).
Context (Hrows : ascending er_createdAt rows) (Hkeys : well_keyed rows) (Hticks : unambiguous table).

(** The point of a user at an instant, by definition. *)
Definition defined_point (userId : string) (now at_ : Z) : result PortfolioPoint :=
  point_at locale_le (decimalsOf registry) (latest_price table cluster) (valued_entries cluster rows userId now) at_.

Definition is_truncated (userId : string) (now : Z) : bool :=
  (MAX_ENTRIES <? length (getUserAvailableEntries rows userId cluster now (S MAX_ENTRIES)))%nat.

Lemma valued_ascending userId now : ascending te_at (valued_entries cluster rows userId now).
Proof using Hrows.
  apply ascending_map. unfold valued_entries, getUserAvailableEntries. rewrite take_take.
  apply StronglySorted_app_1_l with (drop (MAX_ENTRIES `min` S MAX_ENTRIES) (filter (fun r => available_of userId cluster now r = true) rows)).
  rewrite take_drop. by apply StronglySorted_filter.
Qed.

Lemma valued_key userId now k : k ∈ map te_asset (valued_entries cluster rows userId now) ->
  exists a, parseLedgerAssetKey k = Ok (cluster, a) /\ ledgerAssetKey cluster a = Ok k.
Proof using Hkeys.
  intros (e & -> & (r & -> & [Hav Hr]%elem_of_take_sub%elem_of_take_sub%list_elem_of_filter)%list_elem_of_fmap)%list_elem_of_fmap.
  destruct (Hkeys r Hr) as (c & a & Ha & Hk). pose proof Hk as Hk'. apply ledgerAssetKey_Ok in Hk' as [Hs E].
  unfold available_of in Hav. rewrite E, prefix_cluster in Hav. zbool. subst c. simpl. rewrite E.
  exists a. split; [by apply parseLedgerAssetKey_Ok|by apply ledgerAssetKey_Ok].
Qed.

Lemma held_assets_elem entries k : k ∈ held_assets entries <-> k ∈ map te_asset entries.
Proof. unfold held_assets. change (map fst ?m) with (m.*1). by rewrite group_sum_keys. Qed.

Lemma valueAt_pointwise userId buckets now :
  ascending id buckets -> (forall b, b ∈ buckets -> b <= now) ->
  valueAt locale_le registry cluster rows table userId buckets now =
    (points ← map_result (defined_point userId now) buckets; Ok (points, is_truncated userId now)).
Proof using Hrows Hkeys Hticks.
  intros Hb Hnow. unfold valueAt. change (map timed (take MAX_ENTRIES _)) with (valued_entries cluster rows userId now).
  set (entries := valued_entries cluster rows userId now). set (from := default now (head buckets)).
  destruct (map_result_total (fun key => snd <$> parseLedgerAssetKey key) (held_assets entries)) as [assets Hassets].
  { intros k (a & -> & _)%held_assets_elem%valued_key. by exists a. }
  rewrite Hassets. simpl.
  destruct (by_asset_total table cluster assets from now) as (m & -> & Hm).
  { intros a (k & (a' & E & Hk)%held_assets_elem%valued_key & Ek)%(map_result_elem _ _ _ _ Hassets). rewrite E in Ek. injection Ek as <-. by exists k. }
  simpl. unfold projectSeries.
  pose proof (series_spec locale_le m (decimalsOf registry)) as Hspec.
  specialize (Hspec ltac:(intros k ts Hk; pose proof (map_ticks_ascending _ _ _ _ _ m k Hm) as Ha; unfold ticks_for in Ha; rewrite Hk in Ha; exact Ha)).
  specialize (Hspec buckets [] entries []). change (group_sum te_asset signed_amount []) with (@nil (string * Z)) in Hspec.
  rewrite Hspec; [|apply valued_ascending|done|intros; constructor|done]. simpl.
  rewrite (map_result_ext _ (defined_point userId now)); [done|].
  intros b Hin. apply point_at_ext. intros k Hk. pose proof Hk as (a & Hp & Ha)%valued_key.
  apply (window_price table cluster assets from now a k m b); [done..| | |done].
  - apply (map_result_elem _ _ _ _ Hassets). exists k. rewrite Hp. split; [by apply held_assets_elem|done].
  - split; [|by apply Hnow]. unfold from. destruct buckets as [|b0 buckets']; [set_solver|]. simpl.
    apply StronglySorted_inv in Hb as [_ Hb]. rewrite Forall_forall in Hb. apply elem_of_cons in Hin as [->|Hin]; [lia|by apply Hb].
Qed.
Lemma untruncated_entries userId now :
  is_truncated userId now = false ->
  valued_entries cluster rows userId now = map timed (filter (fun r => available_of userId cluster now r = true) rows).
Proof.
  clear Hrows Hkeys Hticks.
  unfold is_truncated, valued_entries, getUserAvailableEntries. rewrite take_take. intros Ht%Nat.ltb_ge.
  set (xs := filter _ rows) in *. rewrite length_take in Ht. rewrite Nat.min_l by lia. by rewrite take_ge by lia.
Qed.
End Services.

(** ** Lemmas: dollars *)

Lemma to_digits_length k n : 0 <= n < 10 ^ Z.of_nat (S k) -> (length (to_digits n) <= S k)%nat.
Proof.
  revert n. induction k as [|k IH]; intros n Hn; rewrite to_digits_eq by lia; destruct (Z.ltb_spec n 10) as [|Hge]; simpl; try lia.
  rewrite length_app. simpl. specialize (IH (n / 10)). rewrite Nat2Z.inj_succ, Z.pow_succ_r in Hn by lia.
  assert (0 <= n / 10 < 10 ^ Z.of_nat (S k)) by (split; [apply Z.div_pos; lia|apply Z.div_lt_upper_bound; lia]). lia.
Qed.

Lemma match_usd_render (negative : bool) w f :
  w <> [] -> Forall (fun a => is_digit a = true) w -> f <> [] -> Forall (fun a => is_digit a = true) f ->
  match_usd ((if negative then [minus_char] else []) ++ w ++ dot_char :: f) = Some (negative, w, f).
Proof.
  intros Hw Hdw Hf Hdf. assert (Hspan : span is_digit (w ++ dot_char :: f) = (w, dot_char :: f)) by (by apply span_app).
  assert (Hall : forallb is_digit f = true).
  { apply forallb_forall. intros x Hx. rewrite Forall_forall in Hdf. apply Hdf. by apply list_elem_of_In. }
  unfold match_usd. destruct negative; simpl.
  - rewrite Hspan. destruct w as [|a w]; [done|]. rewrite Hall. by rewrite (bool_decide_eq_false_2 (f = [])).
  - destruct w as [|a w]; [done|]. simpl in Hspan |- *. apply Forall_cons in Hdw as [Ha _].
    rewrite nonzero_digit_not_minus by done. simpl. rewrite Hspan, Hall. by rewrite (bool_decide_eq_false_2 (f = [])).
Qed.

(** ** Properties *)

(** What is sent as dollars reads back as the same micro-dollars, of any size and sign. *)
Theorem usd_roundtrip micros : parseUsd (formatUsd micros) = Ok micros.
Proof.
  unfold formatUsd. set (a := if micros <? 0 then - micros else micros).
  assert (Ha : 0 <= a) by (unfold a; destruct (Z.ltb_spec micros 0); lia).
  assert (Hr : 0 <= Z.rem a USD_MICROS < 10 ^ Z.of_nat 6) by (apply Z.rem_bound_pos; [done|reflexivity]).
  assert (Hq : 0 <= Z.quot a USD_MICROS) by (apply Z.quot_pos; [done|reflexivity]).
  set (w := to_digits (Z.quot a USD_MICROS)). set (f := pad_start 6 (to_digits (Z.rem a USD_MICROS))).
  assert (Hdw : Forall (fun a => is_digit a = true) w) by (by apply to_digits_digits).
  assert (Hdf : Forall (fun a => is_digit a = true) f) by (apply pad_start_digits, to_digits_digits; lia).
  assert (Hlf : length f = 6%nat).
  { pose proof (to_digits_length 5 (Z.rem a USD_MICROS) Hr). unfold f, pad_start. rewrite length_app, length_replicate. lia. }
  assert (Hf : f <> []) by (by destruct f). assert (Hw : w <> []) by (by apply to_digits_nonempty).
  unfold parseUsd. rewrite trim_id.
  - rewrite match_usd_render by done. unfold pad_end. rewrite Hlf, app_nil_r, take_ge by lia.
    assert (Hvf : digits_value f = Z.rem a USD_MICROS) by (unfold f; rewrite pad_start_value; apply digits_value_to_digits; lia).
    rewrite Hvf. unfold w. rewrite digits_value_to_digits by lia.
    replace (_ * USD_MICROS + _) with a by (pose proof (Z.quot_rem' a USD_MICROS) as Hqr; unfold USD_MICROS in *; lia).
    unfold a. destruct (Z.ltb_spec micros 0); f_equal; lia.
  - assert (Hsp : forall l, Forall (fun a => is_digit a = true) l -> Forall (fun a => is_space a = false) l).
    { intros l Hl. eapply Forall_impl; [exact Hl|]. apply digit_not_space. }
    apply Forall_app. split; [destruct (micros <? 0); repeat constructor|]. apply Forall_app. split; [auto|]. constructor; auto.
Qed.

Lemma quot_shares values total :
  Forall (fun v => 0 <= v) values -> 0 < total ->
  0 <= zsum (map (fun v => shareBps v total) values) /\
  zsum (map (fun v => shareBps v total) values) * total <= zsum values * 10000 < (zsum (map (fun v => shareBps v total) values) + Z.of_nat (length values) + 1) * total.
Proof.
  intros Hv Ht. induction Hv as [|v values Hv0 Hv IH]; [change (zsum _) with 0; cbn [length]; lia|].
  cbn [map length]. rewrite !zsum_cons. unfold shareBps at 1 3 5. destruct (Z.eqb_spec total 0); [lia|].
  rewrite Z.quot_div_nonneg by lia. pose proof (Z.div_pos (v * 10000) total ltac:(lia) Ht).
  pose proof (Z.mul_div_le (v * 10000) total Ht). pose proof (Z.mul_succ_div_gt (v * 10000) total Ht). nia.
Qed.

(** The shares of a portfolio that owes nothing never exceed the whole, and rounding loses
    less than a basis point for each priced holding. *)
Theorem shares_bounded current previous :
  let values := omap hd_valueUsd (pp_holdings current) in
  Forall (fun v => 0 <= v) values -> pp_totalUsd current = zsum values -> 0 < zsum values ->
  let shares := zsum (map al_shareBps (sm_allocations (summarise current previous))) in
  10000 - Z.of_nat (length values) <= shares <= 10000.
Proof.
  intros values Hv Htot Hpos shares.
  assert (Hs : shares = zsum (map (fun v => shareBps v (pp_totalUsd current)) values)).
  { unfold shares, values. simpl. clear. induction (pp_holdings current) as [|h hs IH]; [done|].
    cbn [map omap list_omap]. rewrite zsum_cons, IH. cbn [al_shareBps]. by destruct (hd_valueUsd h); simpl; rewrite ?zsum_cons. }
  rewrite Hs, Htot. pose proof (quot_shares values (zsum values) Hv Hpos). nia.
Qed.

(** C36: The portfolio series is its definition. Over entries in the order the query returns
    them and a price table that gives an asset one price at an instant, every point of the
    chart is what a reader would compute by hand: the sum of the entries up to the instant,
    each holding at the newest price of the whole price table at or before it, never a later
    one. It does not matter where the cursor or a walk stood, which other instants are
    charted, or that only a window of prices is read. The headline figures compare two such
    points, and the right edge of every chart is the headline. *)
Theorem history_is_pointwise locale_le registry cluster rows table userId range now :
  ascending er_createdAt rows -> well_keyed rows -> unambiguous table ->
  let point := defined_point locale_le registry cluster rows table userId now in
  let since := match range with range_all => firstEntryAt cluster rows userId now | _ => None end in
  history locale_le registry cluster rows table userId range now =
    (points ← map_result point (bucketsFor range now since); Ok (points, is_truncated cluster rows userId now)) /\
  summary locale_le registry cluster rows table userId now =
    (previous ← point (now - DAY_MS); current ← point now;
     Ok (summarise current (Some previous), is_truncated cluster rows userId now)) /\
  (forall points t s t', history locale_le registry cluster rows table userId range now = Ok (points, t) ->
     summary locale_le registry cluster rows table userId now = Ok (s, t') ->
     pp_totalUsd <$> last points = Some (sm_totalUsd s)) /\
  (is_truncated cluster rows userId now = false ->
     valued_entries cluster rows userId now = map timed (filter (fun r => available_of userId cluster now r = true) rows)).
Proof.
  intros Hrows Hkeys Hu point since. destruct (bucketsFor_ordered range now since) as (Hasc & Hnow & Hlast).
  assert (Hh : history locale_le registry cluster rows table userId range now =
    (points ← map_result point (bucketsFor range now since); Ok (points, is_truncated cluster rows userId now))) by (by apply valueAt_pointwise).
  assert (Hs : summary locale_le registry cluster rows table userId now =
    (previous ← point (now - DAY_MS); current ← point now;
     Ok (summarise current (Some previous), is_truncated cluster rows userId now))).
  { unfold summary. rewrite valueAt_pointwise; try done.
    - simpl. unfold point. destruct (defined_point _ _ _ _ _ _ _ (now - DAY_MS)); [|done]. simpl. by destruct (defined_point _ _ _ _ _ _ _ now).
    - repeat constructor. unfold id, DAY_MS. lia.
    - intros b. rewrite elem_of_cons, list_elem_of_singleton. unfold DAY_MS. lia. }
  split; [done|]. split; [done|]. split; [|apply untruncated_entries].
  intros points t s t' H1 H2. rewrite Hh in H1. rewrite Hs in H2. inv_ok.
  destruct (map_result_last _ _ _ _ H1 Hlast) as (p & Hp & ->). simpl. congruence.
Qed.

(** ** Witnesses *)

(** A user who deposits two SOL and later withdraws half of one, over three observed prices. *)
Definition demo_account : AccountRef := mkAccount (Some "alice") "devnet:SOL" user_custody_available.
Definition demo_rows : list EntryRow :=
  [mkEntryRow demo_account 2000000000 Credit 1000; mkEntryRow demo_account 500000000 Debit 90000000].
Definition demo_table : list TickRow :=
  [mkTickRow devnet "SOL" (text_of "110.500000") 88000000; mkTickRow devnet "SOL" (text_of "100.000000") 500; mkTickRow devnet "SOL" (text_of "90.250000") 100000001].
Definition demo_registry : AssetRegistry := mkAssetRegistry devnet "devnet:SOL" [] ["devnet:SOL"] [] 9.

Example demo_summary :
  summary String.leb demo_registry devnet demo_rows demo_table "alice" 100000000 =
  Ok (mkSummary 165750000 (Some (-34250000)) (Some (-1712))
       [mkAlloc "devnet:SOL" 1500000000 (Some 165750000) 10000 (Some (-34250000))] true, false).
Proof. vm_compute. reflexivity. Qed.

Example demo_history :
  (fun '(points, t) => (length points, map pp_totalUsd (take 2 points), pp_totalUsd <$> last points, t)) <$>
    history String.leb demo_registry devnet demo_rows demo_table "alice" range_24h 100000000 =
  Ok (24%nat, [200000000; 200000000], Some 165750000, false).
Proof. vm_compute. reflexivity. Qed.

Lemma history_is_pointwise_witness :
  exists points t s t', history String.leb demo_registry devnet demo_rows demo_table "alice" range_24h 100000000 = Ok (points, t) /\
    summary String.leb demo_registry devnet demo_rows demo_table "alice" 100000000 = Ok (s, t') /\
    pp_totalUsd <$> last points = Some (sm_totalUsd s).
Proof.
  destruct (history_is_pointwise String.leb demo_registry devnet demo_rows demo_table "alice" range_24h 100000000) as (_ & _ & H & _).
  - repeat constructor; vm_compute; discriminate.
  - intros r [->|[->|Hr]%elem_of_cons]%elem_of_cons; [exists devnet, "SOL"; by split..|set_solver].
  - intros x y Hx Hy _ _ Ht. unfold demo_table in Hx, Hy. set_solver.
  - destruct (history _ _ _ _ _ _ _ _) as [[points t]|] eqn:E; [|vm_compute in E; discriminate].
    destruct (summary _ _ _ _ _ _ _) as [[s t']|] eqn:E'; [|vm_compute in E'; discriminate].
    exists points, t, s, t'. split; [done|]. split; [done|]. exact (H points t s t' eq_refl eq_refl).
Defined.
