(* ===== verification/Auth.v ===== *)
(** * Authentication: tables, sessions and ceremonies

    [packages/auth/src]: session/manager.ts, challenge/store.ts, webauthn/service.ts,
    webauthn/clone-detection.ts and csrf.ts, with the repositories of users, credentials,
    sessions and recovery codes in [packages/db/src/repositories]. Instants are
    milliseconds; an operation reads the clock once. What is generated at random (row ids,
    tokens, ceremony ids, challenges) is an argument. The WebAuthn library and the hash of
    a token are parameters. Not modelled: addresses and agents of clients, names and
    transports of credentials, metadata of audit rows, logs. *)

From Stdlib Require Import ZArith Lia Ascii.
From stdpp Require Import base list strings.
From S2P Require Import Prelude Assets.

Open Scope string_scope.
Open Scope list_scope.
Open Scope Z_scope.

(** ** The tables *)

Inductive UserStatus := user_active | user_suspended | user_closed.

Record UserRecord := mkUser { us_id : string; us_email : option string; us_displayName : option string; us_status : UserStatus }.

Inductive CredentialType := webauthn | password | totp.

Record Credential := mkCredential {
  cd_id : string; cd_userId : string; cd_type : CredentialType; cd_revokedAt : option Z; cd_lastUsedAt : option Z;
  cd_credentialId : option string; cd_publicKey : option string; cd_signCount : option Z;
  cd_totpSecretEncrypted : option string; cd_totpConfirmedAt : option Z
}.

Record SessionRecord := mkSession {
  se_id : string; se_userId : string; se_tokenHash : string; se_createdAt : Z; se_lastSeenAt : Z; se_expiresAt : Z;
  se_revokedAt : option Z; se_stepUpAt : option Z
}.

Record RecoveryCode := mkRecoveryCode { rc_userId : string; rc_codeHash : string; rc_usedAt : option Z }.

Record AuditRow := mkAudit { au_actor : option string; au_event : string; au_targetId : option string }.

Inductive CeremonyKind := registration | authentication | stepup.

Record CeremonyRecord := mkCeremony {
  ce_kind : CeremonyKind; ce_challenge : string; ce_userId : option string;
  ce_pendingEmail : option string; ce_pendingDisplayName : option string
}.

(** The database, and the ceremonies that the cache keeps with the instant they expire. *)
Record AuthState := mkAuth {
  users : list UserRecord; credentials : list Credential; sessions : list SessionRecord;
  recoveryCodes : list RecoveryCode; audits : list AuditRow; ceremonies : list (string * (CeremonyRecord * Z))
}.

Definition no_accounts : AuthState := mkAuth [] [] [] [] [] [].

Definition set_users x s := mkAuth x (credentials s) (sessions s) (recoveryCodes s) (audits s) (ceremonies s).
Definition set_credentials x s := mkAuth (users s) x (sessions s) (recoveryCodes s) (audits s) (ceremonies s).
Definition set_sessions x s := mkAuth (users s) (credentials s) x (recoveryCodes s) (audits s) (ceremonies s).
Definition set_recoveryCodes x s := mkAuth (users s) (credentials s) (sessions s) x (audits s) (ceremonies s).
Definition set_audits x s := mkAuth (users s) (credentials s) (sessions s) (recoveryCodes s) x (ceremonies s).
Definition set_ceremonies x s := mkAuth (users s) (credentials s) (sessions s) (recoveryCodes s) (audits s) x.

#[export] Instance UserStatus_eq_dec : EqDecision UserStatus.
Proof. solve_decision. Defined.
#[export] Instance CredentialType_eq_dec : EqDecision CredentialType.
Proof. solve_decision. Defined.
#[export] Instance CeremonyKind_eq_dec : EqDecision CeremonyKind.
Proof. solve_decision. Defined.

(** ** Actions: what a request has done stays done when it throws *)

Definition act (A : Type) : Type := AuthState -> result A * AuthState.

#[export] Instance act_ret : MRet act := fun A a s => (Ok a, s).
#[export] Instance act_bind : MBind act := fun A B k m s =>
  match m s with (Ok a, s') => k a s' | (Throw e, s') => (Throw e, s') end.

Definition look {A} (f : AuthState -> A) : act A := fun s => (Ok (f s), s).
Definition here : act AuthState := fun s => (Ok s, s).
Definition change (f : AuthState -> AuthState) : act unit := fun s => (Ok tt, f s).
Definition fails {A} (e : error) : act A := fun s => (Throw e, s).
Definition lift_act {A} (r : result A) : act A := fun s => (r, s).
Definition unless (b : bool) (e : error) : act unit := if b then mret tt else fails e.
Definition rescue {A} (m : act A) (handler : error -> act A) : act A := fun s =>
  match m s with (Ok a, s') => (Ok a, s') | (Throw e, s') => handler e s' end.

(** [withTransaction]: a transaction that throws leaves the tables as they were. *)
Definition committed {A} (m : act A) : act A := fun s =>
  match m s with (Ok a, s') => (Ok a, s') | (Throw e, _) => (Throw e, s) end.

Definition unique_key : error := ConstraintViolation "P2002".
Definition missing_user : error := ConstraintViolation "P2003".
Definition missing_row : error := ConstraintViolation "P2025".

Definition has_user (userId : string) (s : AuthState) : bool := existsb (fun u => bool_decide (us_id u = userId)) (users s).

(** ** [user.repository.ts] *)

Definition findUserById (id : string) : act (option UserRecord) := look (fun s => head (filter (fun u => us_id u = id) (users s))).

Definition findByEmail (email : string) : act (option UserRecord) := look (fun s => head (filter (fun u => us_email u = Some email) (users s))).

Definition createUser (id : string) (email displayName : option string) : act UserRecord :=
  s ← here;
  let user := mkUser id email displayName user_active in
  _ ← unless (negb (existsb (fun u => bool_decide (us_id u = id) || bool_decide (email <> None /\ us_email u = email)) (users s))) unique_key;
  _ ← change (set_users (users s ++ [user]));
  mret user.

(** [or_given patch old]: a field that is patched only when it is given. *)
Definition or_given (patch old : option string) : option string := match patch with Some _ => patch | None => old end.

Definition updateUserRow (id : string) (email displayName : option string) : act UserRecord :=
  s ← here;
  match head (filter (fun u => us_id u = id) (users s)) with
  | None => fails missing_row
  | Some user =>
      let user := mkUser id (or_given email (us_email user)) (or_given displayName (us_displayName user)) (us_status user) in
      _ ← unless (negb (existsb (fun u => bool_decide (us_id u <> id) && bool_decide (email <> None /\ us_email u = email)) (users s))) unique_key;
      _ ← change (set_users (map (fun u => if bool_decide (us_id u = id) then user else u) (users s)));
      mret user
  end.

(** ** [credential.repository.ts] *)

Definition createCredential (row : Credential) : act unit :=
  s ← here;
  _ ← unless (has_user (cd_userId row) s) missing_user;
  _ ← unless (negb (existsb (fun c => bool_decide (cd_id c = cd_id row) ||
        bool_decide (cd_credentialId row <> None /\ cd_credentialId c = cd_credentialId row)) (credentials s))) unique_key;
  change (set_credentials (credentials s ++ [row])).

Definition createWebAuthn (id userId credentialId publicKey : string) (signCount : Z) : act unit :=
  createCredential (mkCredential id userId webauthn None None (Some credentialId) (Some publicKey) (Some signCount) None None).

(** [toWebAuthnRecord] has the key material of the row, and a count of zero where there is none. *)
Record WebAuthnCredentialRecord := mkWebAuthn { wa_id : string; wa_userId : string; wa_credentialId : string; wa_publicKey : string; wa_signCount : Z }.

Definition toWebAuthnRecord (row : Credential) : result WebAuthnCredentialRecord :=
  match cd_credentialId row, cd_publicKey row with
  | Some credentialId, Some publicKey =>
      Ok (mkWebAuthn (cd_id row) (cd_userId row) credentialId publicKey (default 0 (cd_signCount row)))
  | _, _ => Throw (GenericError "credential has no key material")
  end.

Definition findWebAuthnByCredentialId (credentialId : string) : act (option WebAuthnCredentialRecord) :=
  row ← look (fun s => head (filter (fun c => cd_credentialId c = Some credentialId) (credentials s)));
  match row with
  | None => mret None
  | Some row =>
      if negb (bool_decide (cd_type row = webauthn)) || negb (bool_decide (cd_revokedAt row = None)) then mret None
      else record ← lift_act (toWebAuthnRecord row); mret (Some record)
  end.

Definition findCredentialById (id : string) : act (option Credential) := look (fun s => head (filter (fun c => cd_id c = id) (credentials s))).

(** A row that is a way in: [type: { in: ['webauthn', 'password'] }], not revoked. *)
Definition is_factor (userId : string) (c : Credential) : bool :=
  bool_decide (cd_userId c = userId) && bool_decide (cd_revokedAt c = None) && negb (bool_decide (cd_type c = totp)).

Definition factors (userId : string) (s : AuthState) : list Credential := filter (fun c => is_factor userId c = true) (credentials s).

Definition countActiveAuthFactors (userId : string) : act Z := look (fun s => Z.of_nat (length (factors userId s))).

Definition update_credential (id : string) (f : Credential -> Credential) : act unit :=
  s ← here;
  _ ← unless (existsb (fun c => bool_decide (cd_id c = id)) (credentials s)) missing_row;
  change (set_credentials (map (fun c => if bool_decide (cd_id c = id) then f c else c) (credentials s))).

Definition used (now : Z) (signCount : option Z) (c : Credential) : Credential :=
  mkCredential (cd_id c) (cd_userId c) (cd_type c) (cd_revokedAt c) (Some now) (cd_credentialId c) (cd_publicKey c)
    (match signCount with Some n => Some n | None => cd_signCount c end) (cd_totpSecretEncrypted c) (cd_totpConfirmedAt c).

Definition recordUse (id : string) (signCount : option Z) (now : Z) : act unit := update_credential id (used now signCount).

Definition revoked (now : Z) (c : Credential) : Credential :=
  mkCredential (cd_id c) (cd_userId c) (cd_type c) (Some now) (cd_lastUsedAt c) (cd_credentialId c) (cd_publicKey c)
    (cd_signCount c) (cd_totpSecretEncrypted c) (cd_totpConfirmedAt c).

(** [updateMany] scoped to the owner, of a row that is not revoked yet. *)
Definition revocable (id userId : string) (c : Credential) : bool :=
  bool_decide (cd_id c = id) && bool_decide (cd_userId c = userId) && bool_decide (cd_revokedAt c = None).

Definition revokeCredentialRow (id userId : string) (now : Z) : act bool :=
  s ← here;
  _ ← change (set_credentials (map (fun c => if revocable id userId c then revoked now c else c) (credentials s)));
  mret (existsb (revocable id userId) (credentials s)).

Definition createTotp (id userId secretEncrypted : string) : act unit :=
  createCredential (mkCredential id userId totp None None None None None (Some secretEncrypted) None).

Definition totp_confirmed (now : Z) (c : Credential) : Credential :=
  mkCredential (cd_id c) (cd_userId c) (cd_type c) (cd_revokedAt c) (cd_lastUsedAt c) (cd_credentialId c) (cd_publicKey c)
    (cd_signCount c) (cd_totpSecretEncrypted c) (Some now).

Definition confirmTotp (id : string) (now : Z) : act unit := update_credential id (totp_confirmed now).

Definition findUnconfirmedTotp (id userId : string) : act (option Credential) := look (fun s =>
  head (filter (fun c => cd_id c = id /\ cd_userId c = userId /\ cd_type c = totp /\ cd_totpConfirmedAt c = None /\ cd_revokedAt c = None) (credentials s))).

Definition findConfirmedTotp (userId : string) : act (option Credential) := look (fun s =>
  head (filter (fun c => cd_userId c = userId /\ cd_type c = totp /\ cd_totpConfirmedAt c <> None /\ cd_revokedAt c = None) (credentials s))).

(** ** [recovery-code.repository.ts] *)

Definition deleteAllForUser (userId : string) : act unit :=
  change (fun s => set_recoveryCodes (filter (fun r => rc_userId r <> userId) (recoveryCodes s)) s).

Definition replaceAllForUser (userId : string) (hashes : list string) : act unit :=
  _ ← deleteAllForUser userId;
  s ← here;
  _ ← unless (has_user userId s) missing_user;
  _ ← unless (bool_decide (NoDup hashes) && negb (existsb (fun r => bool_decide (rc_codeHash r ∈ hashes)) (recoveryCodes s))) unique_key;
  change (set_recoveryCodes (recoveryCodes s ++ map (fun h => mkRecoveryCode userId h None) hashes)).

(** ** The audit log *)

Definition append_audit (row : AuditRow) : act unit := change (fun s => set_audits (audits s ++ [row]) s).

(** ** [session.repository.ts] *)

Definition createSession (row : SessionRecord) : act unit :=
  s ← here;
  _ ← unless (has_user (se_userId row) s) missing_user;
  _ ← unless (negb (existsb (fun t => bool_decide (se_id t = se_id row) || bool_decide (se_tokenHash t = se_tokenHash row)) (sessions s))) unique_key;
  change (set_sessions (sessions s ++ [row])).

Definition findLiveByTokenHash (tokenHash : string) (now : Z) : act (option SessionRecord) :=
  row ← look (fun s => head (filter (fun t => se_tokenHash t = tokenHash) (sessions s)));
  mret (match row with
        | None => None
        | Some row => if negb (bool_decide (se_revokedAt row = None)) then None else if se_expiresAt row <=? now then None else Some row
        end).

Definition update_session (id : string) (f : SessionRecord -> SessionRecord) : act unit :=
  s ← here;
  _ ← unless (existsb (fun t => bool_decide (se_id t = id)) (sessions s)) missing_row;
  change (set_sessions (map (fun t => if bool_decide (se_id t = id) then f t else t) (sessions s))).

Definition seen (now : Z) (t : SessionRecord) : SessionRecord :=
  mkSession (se_id t) (se_userId t) (se_tokenHash t) (se_createdAt t) now (se_expiresAt t) (se_revokedAt t) (se_stepUpAt t).

Definition touch (id : string) (now : Z) : act unit := update_session id (seen now).

Definition stepped (at_ : Z) (t : SessionRecord) : SessionRecord :=
  mkSession (se_id t) (se_userId t) (se_tokenHash t) (se_createdAt t) (se_lastSeenAt t) (se_expiresAt t) (se_revokedAt t) (Some at_).

Definition stampStepUp (id : string) (at_ : Z) : act unit := update_session id (stepped at_).

Definition ended (now : Z) (t : SessionRecord) : SessionRecord :=
  mkSession (se_id t) (se_userId t) (se_tokenHash t) (se_createdAt t) (se_lastSeenAt t) (se_expiresAt t) (Some now) (se_stepUpAt t).

Definition revoke_sessions (p : SessionRecord -> bool) (now : Z) : act nat :=
  s ← here;
  let hit t := bool_decide (se_revokedAt t = None) && p t in
  _ ← change (set_sessions (map (fun t => if hit t then ended now t else t) (sessions s)));
  mret (length (filter (fun t => hit t = true) (sessions s))).

Definition revokeSession (id userId : string) (now : Z) : act bool :=
  count ← revoke_sessions (fun t => bool_decide (se_id t = id) && bool_decide (se_userId t = userId)) now;
  mret (count =? 1)%nat.

Definition revokeAllForUser (userId : string) (exceptId : option string) (now : Z) : act nat :=
  revoke_sessions (fun t => bool_decide (se_userId t = userId) && negb (bool_decide (exceptId = Some (se_id t)))) now.

(** ** [challenge/store.ts] *)

(** [SET key record EX ttl] *)
Definition put_ceremony (ttlSeconds : Z) (ceremonyId : string) (record : CeremonyRecord) (now : Z) : act unit :=
  change (fun s => set_ceremonies (jset ceremonyId (record, now + ttlSeconds * 1000) (ceremonies s)) s).

(** [GETDEL key], which finds nothing once the key has expired. *)
Definition consume_ceremony (ceremonyId : string) (now : Z) : act (option CeremonyRecord) :=
  s ← here;
  _ ← change (set_ceremonies (filter (fun kv => kv.1 <> ceremonyId) (ceremonies s)));
  mret (match jget ceremonyId (ceremonies s) with
        | Some (record, expires) => if expires <=? now then None else Some record
        | None => None
        end).

(** ** [session/manager.ts] *)

Record SessionPolicy := mkPolicy { idleTtlSeconds : Z; absoluteTtlSeconds : Z; stepUpMaxAgeSeconds : Z }.

Section Manager.
Context (hashToken : string -> string) (policy : SessionPolicy).

(** [issue]: a token and the row of its hash. *)
Definition issue (sessionId token userId : string) (steppedUp : bool) (now : Z) : act SessionRecord :=
  let session := mkSession sessionId userId (hashToken token) now now (now + absoluteTtlSeconds policy * 1000) None
                   (if steppedUp then Some now else None) in
  _ ← createSession session;
  mret session.

Definition resolve (token : string) (now : Z) : act (option SessionRecord) :=
  session ← findLiveByTokenHash (hashToken token) now;
  match session with
  | None => mret None
  | Some session =>
      if se_lastSeenAt session + idleTtlSeconds policy * 1000 <=? now then
        _ ← revokeSession (se_id session) (se_userId session) now;
        mret None
      else
        _ ← touch (se_id session) now;
        mret (Some (seen now session))
  end.

Definition rotate (sessionId token : string) (current : SessionRecord) (steppedUp : bool) (now : Z) : act SessionRecord :=
  issued ← issue sessionId token (se_userId current) steppedUp now;
  _ ← revokeSession (se_id current) (se_userId current) now;
  mret issued.

Definition requireStepUp (session : SessionRecord) (maxAgeSeconds : Z) (now : Z) : result unit :=
  if negb (bool_decide (se_revokedAt session = None)) then Throw SessionExpiredError
  else match se_stepUpAt session with
       | None => Throw (StepUpRequiredError maxAgeSeconds)
       | Some at_ => throw_if (now - at_ >? maxAgeSeconds * 1000) (StepUpRequiredError maxAgeSeconds)
       end.
End Manager.

(** ** [webauthn/clone-detection.ts] *)

(** Whether the counter is suspicious. *)
Definition detectClone (storedSignCount receivedSignCount : Z) : bool :=
  if storedSignCount =? 0 then false else if receivedSignCount >? storedSignCount then false else true.

(** ** [webauthn/service.ts] *)

(** [registrationInfo], as far as it is kept. *)
Record RegistrationInfo := mkRegInfo { ri_credentialId : string; ri_publicKey : string; ri_counter : Z }.

Record RegistrationOutcome := mkRegOutcome {
  ro_info : RegistrationInfo; ro_userId : option string; ro_pendingEmail : option string; ro_pendingDisplayName : option string
}.

Record AuthenticationOutcome := mkAuthOutcome { ao_credentialId : string; ao_newSignCount : Z; ao_userId : option string }.

(** The WebAuthn library, for the configured relying party: a response names its credential,
    and is verified against a challenge. A verification may throw, find the response not
    verified, or return what was registered and the new counter. *)
Class Library (Response : Type) := {
  response_id : Response -> string;
  verifyRegistrationResponse : Response -> string -> result (option RegistrationInfo);
  verifyAuthenticationResponse : Response -> string -> WebAuthnCredentialRecord -> bool -> result (option Z)
}.

Section WebAuthn.
Context {Response : Type} `{Library Response} (ttlSeconds : Z).

Definition beginRegistration (ceremonyId challenge : string) (userId pendingEmail pendingDisplayName : option string) (now : Z) : act unit :=
  put_ceremony ttlSeconds ceremonyId (mkCeremony registration challenge userId pendingEmail pendingDisplayName) now.

Definition finishRegistration (ceremonyId : string) (response : Response) (now : Z) : act RegistrationOutcome :=
  ceremony ← consume_ceremony ceremonyId now;
  match ceremony with
  | Some (mkCeremony registration challenge userId pendingEmail pendingDisplayName) =>
      verification ← lift_act (verifyRegistrationResponse response challenge);
      match verification with
      | None => fails AuthenticationFailedError
      | Some info => mret (mkRegOutcome info userId pendingEmail pendingDisplayName)
      end
  | _ => fails ChallengeInvalidError
  end.

Definition beginAuthentication (ceremonyId challenge : string) (kind : CeremonyKind) (userId : option string) (now : Z) : act unit :=
  put_ceremony ttlSeconds ceremonyId (mkCeremony kind challenge userId None None) now.

Definition finishAuthentication (ceremonyId : string) (response : Response)
    (lookup : string -> act (option WebAuthnCredentialRecord)) (now : Z) : act AuthenticationOutcome :=
  ceremony ← consume_ceremony ceremonyId now;
  match ceremony with
  | None => fails ChallengeInvalidError
  | Some ceremony =>
      if bool_decide (ce_kind ceremony = registration) then fails ChallengeInvalidError else
      stored ← lookup (response_id response);
      match stored with
      | None => fails AuthenticationFailedError
      | Some stored =>
          belongs ← (if bool_decide (ce_userId ceremony <> None) && bool_decide (ce_kind ceremony = stepup)
                     then found ← lookup (response_id response); mret (bool_decide (found <> None)) else mret true);
          _ ← unless belongs AuthenticationFailedError;
          verification ← lift_act (verifyAuthenticationResponse response (ce_challenge ceremony) stored
                                     (bool_decide (ce_kind ceremony = stepup)));
          match verification with
          | None => fails AuthenticationFailedError
          | Some newSignCount =>
              _ ← unless (negb (detectClone (wa_signCount stored) newSignCount)) CredentialCloneSuspectedError;
              mret (mkAuthOutcome (wa_credentialId stored) newSignCount (ce_userId ceremony))
          end
      end
  end.
End WebAuthn.

(** ** [csrf.ts] *)

Definition SAFE_METHODS : list string := ["GET"; "HEAD"; "OPTIONS"].

(** The reason a request is refused, if it is. The method is in upper case already. *)
Definition checkCsrf (method : string) (origin secFetchSite : option string) (expectedOrigin : string) : option string :=
  if bool_decide (method ∈ SAFE_METHODS) then None
  else if bool_decide (secFetchSite = Some "none") then Some "sec_fetch_site_none"
  else match origin with
       | None => Some "origin_absent"
       | Some origin => if bool_decide (origin = expectedOrigin) then None else Some "origin_mismatch"
       end.
