(* ===== verification/Login.v ===== *)
(** * Authentication: services, guards and routes

    registration.service.ts, login.service.ts, step-up.service.ts, totp.service.ts and
    account.service.ts of [apps/api/src/services], the guards of middleware/guards.ts and
    the routes of routes/auth.routes.ts with their controllers, over [Auth]. A request is
    one step. Not modelled: rate limits, the shaping of replies, cookies' attributes. *)

From Stdlib Require Import ZArith Lia Ascii.
From stdpp Require Import base list strings.
From S2P Require Import Prelude Decimal Assets Auth.

Open Scope string_scope.
Open Scope list_scope.
Open Scope Z_scope.

(** What one request draws at random. *)
Record Draws := mkDraws {
  dr_ceremonyId : string; dr_challenge : string; dr_rowId : string; dr_userId : string; dr_sessionId : string; dr_token : string;
  dr_secret : string; dr_codes : list string
}.

(** The time-based codes of the library, the cipher of secrets, and the hash of a code. *)
Class TotpLibrary := {
  validate : string -> string -> Z -> bool;
  encryptSecret : string -> string;
  decryptSecret : string -> result string;
  hashRecoveryCode : string -> string
}.

Record Config := mkConfig {
  cf_policy : SessionPolicy; cf_ceremonyTtl : Z; cf_webOrigin : string; cf_strictMaxAge : Z;
  cf_reviewThreshold : string -> option Z
}.

Section Services.
Context {Response : Type} `{Library Response} `{TotpLibrary} (hashToken : string -> string) (config : Config).

Definition issue_session (d : Draws) (userId : string) (now : Z) : act SessionRecord :=
  issue hashToken (cf_policy config) (dr_sessionId d) (dr_token d) userId true now.

(** ** [registration.service.ts] *)

Definition registration_begin (d : Draws) (email displayName userId : option string) (now : Z) : act unit :=
  beginRegistration (cf_ceremonyTtl config) (dr_ceremonyId d) (dr_challenge d) userId email displayName now.

(** The transaction of [finish]: the user, unless there is one, and the credential. *)
Definition registration_tx (d : Draws) (existing : option string) (outcome : RegistrationOutcome) : act string :=
  userId ← match existing with
           | Some userId => mret userId
           | None =>
               _ ← match ro_pendingEmail outcome with
                   | None => mret tt
                   | Some email => taken ← findByEmail email;
                                   unless (bool_decide (taken = None)) (ConflictError "Registration could not be completed")
                   end;
               user ← createUser (dr_userId d) (ro_pendingEmail outcome) (ro_pendingDisplayName outcome);
               _ ← append_audit (mkAudit (Some (us_id user)) "user.created" None);
               mret (us_id user)
           end;
  let info := ro_info outcome in
  _ ← createWebAuthn (dr_rowId d) userId (ri_credentialId info) (ri_publicKey info) (ri_counter info);
  _ ← append_audit (mkAudit (Some userId) "credential.registered" (Some (dr_rowId d)));
  mret userId.

(** The token of the new session, if there is one. *)
Definition registration_finish (d : Draws) (ceremonyId : string) (response : Response) (userId sessionId : option string) (now : Z)
  : act (string * option string) :=
  outcome ← finishRegistration ceremonyId response now;
  let existing := match userId with Some u => Some u | None => ro_userId outcome end in
  user ← committed (registration_tx d existing outcome);
  match existing with
  | None =>
      _ ← issue_session d user now;
      mret (user, Some (dr_token d))
  | Some _ =>
      _ ← match sessionId with Some kept => _ ← revokeAllForUser user (Some kept) now; mret tt | None => mret tt end;
      mret (user, None)
  end.

(** ** [login.service.ts] *)

Definition login_begin (d : Draws) (now : Z) : act unit :=
  beginAuthentication (cf_ceremonyTtl config) (dr_ceremonyId d) (dr_challenge d) authentication None now.

(** The user and the token of the session. Every failure of the ceremony is one error. *)
Definition login_finish (d : Draws) (ceremonyId : string) (response : Response) (now : Z) : act (string * string) :=
  outcome ← rescue (finishAuthentication ceremonyId response findWebAuthnByCredentialId now) (fun e =>
    _ ← (if bool_decide (e = CredentialCloneSuspectedError) then append_audit (mkAudit None "credential.clone_suspected" None) else mret tt);
    fails AuthenticationFailedError);
  stored ← findWebAuthnByCredentialId (ao_credentialId outcome);
  match stored with
  | None => fails AuthenticationFailedError
  | Some stored =>
      user ← findUserById (wa_userId stored);
      match user with
      | None => fails AuthenticationFailedError
      | Some user =>
          _ ← unless (bool_decide (us_status user = user_active)) AuthenticationFailedError;
          _ ← recordUse (wa_id stored) (Some (ao_newSignCount outcome)) now;
          issued ← issue_session d (us_id user) now;
          _ ← append_audit (mkAudit (Some (us_id user)) "auth.login.succeeded" (Some (se_id issued)));
          mret (us_id user, dr_token d)
      end
  end.

(** ** [step-up.service.ts] *)

Definition stepup_begin (d : Draws) (userId : string) (now : Z) : act unit :=
  beginAuthentication (cf_ceremonyTtl config) (dr_ceremonyId d) (dr_challenge d) stepup (Some userId) now.

(** The lookup of [finish]: a credential of the session's user. *)
Definition own_credential (userId credentialId : string) : act (option WebAuthnCredentialRecord) :=
  stored ← findWebAuthnByCredentialId credentialId;
  mret (match stored with Some c => if bool_decide (wa_userId c = userId) then Some c else None | None => None end).

Definition stepup_finish (ceremonyId : string) (response : Response) (session : SessionRecord) (now : Z) : act Z :=
  outcome ← rescue (finishAuthentication ceremonyId response (own_credential (se_userId session)) now)
              (fun _ => fails AuthenticationFailedError);
  stored ← findWebAuthnByCredentialId (ao_credentialId outcome);
  _ ← match stored with Some c => recordUse (wa_id c) (Some (ao_newSignCount outcome)) now | None => mret tt end;
  _ ← stampStepUp (se_id session) now;
  _ ← append_audit (mkAudit (Some (se_userId session)) "auth.stepup.succeeded" (Some (se_id session)));
  mret now.

(** ** [totp.service.ts] *)

Definition totp_enroll (d : Draws) (userId : string) : act (string * string) :=
  _ ← createTotp (dr_rowId d) userId (encryptSecret (dr_secret d));
  mret (dr_secret d, dr_rowId d).

Definition totp_confirm (d : Draws) (userId enrollmentId code : string) (sessionId : option string) (now : Z) : act (list string) :=
  pending ← findUnconfirmedTotp enrollmentId userId;
  match pending ≫= cd_totpSecretEncrypted with
  | None => fails (NotFoundError "No pending enrollment found")
  | Some encrypted =>
      secret ← lift_act (decryptSecret encrypted);
      _ ← unless (validate secret code now) (ValidationError ["That code is not valid"]);
      _ ← committed (
        _ ← confirmTotp enrollmentId now;
        _ ← replaceAllForUser userId (map hashRecoveryCode (dr_codes d));
        append_audit (mkAudit (Some userId) "totp.enrolled" (Some enrollmentId)));
      _ ← match sessionId with Some kept => _ ← revokeAllForUser userId (Some kept) now; mret tt | None => mret tt end;
      mret (dr_codes d)
  end.

Definition totp_disable (userId : string) (now : Z) : act unit :=
  confirmed ← findConfirmedTotp userId;
  match confirmed with
  | None => fails (NotFoundError "Two-factor authentication is not enabled")
  | Some confirmed => committed (
      _ ← revokeCredentialRow (cd_id confirmed) userId now;
      _ ← deleteAllForUser userId;
      append_audit (mkAudit (Some userId) "totp.disabled" (Some (cd_id confirmed))))
  end.

(** ** [account.service.ts] *)

Definition updateUser (userId : string) (email displayName : option string) : act UserRecord :=
  _ ← match email with
      | None => mret tt
      | Some e => taken ← findByEmail e;
                  unless (match taken with Some u => bool_decide (us_id u = userId) | None => true end)
                    (ConflictError "That email address is not available")
      end;
  updated ← updateUserRow userId email displayName;
  _ ← append_audit (mkAudit (Some userId) "user.updated" None);
  mret updated.

Definition revokeCredential (userId credentialId : string) (now : Z) : act unit := committed (
  credential ← findCredentialById credentialId;
  match credential with
  | None => fails (NotFoundError "Credential not found")
  | Some credential =>
      _ ← unless (bool_decide (cd_userId credential = userId)) (NotFoundError "Credential not found");
      _ ← (if bool_decide (cd_type credential = totp) then mret tt
           else remaining ← countActiveAuthFactors userId; unless (negb (remaining <=? 1)) LastFactorProtectedError);
      revoked ← revokeCredentialRow credentialId userId now;
      _ ← unless revoked (NotFoundError "Credential not found");
      append_audit (mkAudit (Some userId) "credential.revoked" (Some credentialId))
  end).

Definition account_revokeSession (userId sessionId : string) (now : Z) : act unit :=
  revoked ← revokeSession sessionId userId now;
  _ ← unless revoked (NotFoundError "Session not found");
  append_audit (mkAudit (Some userId) "session.revoked" (Some sessionId)).

(** ** [guards.ts] *)

Record Headers := mkHeaders { rq_method : string; rq_origin : option string; rq_secFetchSite : option string; rq_cookie : option string }.

Definition csrfGuard (h : Headers) : act unit :=
  match checkCsrf (rq_method h) (rq_origin h) (rq_secFetchSite h) (cf_webOrigin config) with
  | None => mret tt
  | Some _ => fails AuthorizationDeniedError
  end.

Definition sessionGuard (h : Headers) (now : Z) : act SessionRecord :=
  match rq_cookie h with
  | None => fails AuthenticationRequiredError
  | Some token =>
      _ ← unless (negb (bool_decide (token = ""))) AuthenticationRequiredError;
      context ← resolve hashToken (cf_policy config) token now;
      match context with None => fails AuthenticationRequiredError | Some session => mret session end
  end.

Definition stepUpGuard (session : SessionRecord) (now : Z) : act unit :=
  lift_act (requireStepUp session (stepUpMaxAgeSeconds (cf_policy config)) now).

(** The amount and the asset are those of a body that has not been validated. *)
Definition is_large (amount asset : option string) : bool :=
  match amount, asset with
  | Some amount, Some asset =>
      let digits := text_of amount in
      if negb (bool_decide (digits = [])) && forallb is_digit digits then
        match cf_reviewThreshold config asset with Some threshold => digits_value digits >=? threshold | None => true end
      else true
  | _, _ => true
  end.

Definition withdrawalStepUpGuard (session : SessionRecord) (amount asset : option string) (now : Z) : act unit :=
  lift_act (requireStepUp session (if is_large amount asset then cf_strictMaxAge config else stepUpMaxAgeSeconds (cf_policy config)) now).

(** ** [auth.routes.ts] with [auth.controller.ts] *)

Inductive Body :=
| register_options (email displayName : option string)
| register_verify (ceremonyId : string) (response : Response)
| login_options
| login_verify (ceremonyId : string) (response : Response)
| logout
| current_session
| step_up_options
| step_up_verify (ceremonyId : string) (response : Response)
| delete_credential (credentialId : string)
| delete_session (sessionId : string)
| totp_start
| totp_verify (enrollmentId code : string)
| totp_delete
| update_me (email displayName : option string).

(** What a caller gets: whose account the reply is about, and a token for the cookie. *)
Record Reply := mkReply { rp_userId : option string; rp_token : option string }.

Definition done_for (userId : string) : Reply := mkReply (Some userId) None.

(** A route behind the guards of origin and session. *)
Definition signed_in (h : Headers) (now : Z) (handler : SessionRecord -> act unit) : act Reply :=
  _ ← csrfGuard h;
  session ← sessionGuard h now;
  _ ← handler session;
  mret (done_for (se_userId session)).

Definition serve (h : Headers) (body : Body) (d : Draws) (now : Z) : act Reply :=
  match body with
  | register_options email displayName =>
      _ ← csrfGuard h;
      _ ← registration_begin d email displayName None now;
      mret (mkReply None None)
  | register_verify ceremonyId response =>
      _ ← csrfGuard h;
      '(user, token) ← registration_finish d ceremonyId response None None now;
      mret (mkReply (Some user) token)
  | login_options =>
      _ ← csrfGuard h;
      _ ← login_begin d now;
      mret (mkReply None None)
  | login_verify ceremonyId response =>
      _ ← csrfGuard h;
      '(user, token) ← login_finish d ceremonyId response now;
      mret (mkReply (Some user) (Some token))
  | logout => signed_in h now (fun session => account_revokeSession (se_userId session) (se_id session) now)
  | current_session =>
      session ← sessionGuard h now;
      mret (done_for (se_userId session))
  | step_up_options => signed_in h now (fun session => stepup_begin d (se_userId session) now)
  | step_up_verify ceremonyId response =>
      signed_in h now (fun session => _ ← stepup_finish ceremonyId response session now; mret tt)
  | delete_credential credentialId =>
      signed_in h now (fun session =>
        _ ← stepUpGuard session now; revokeCredential (se_userId session) credentialId now)
  | delete_session sessionId => signed_in h now (fun session => account_revokeSession (se_userId session) sessionId now)
  | totp_start => signed_in h now (fun session => _ ← stepUpGuard session now; _ ← totp_enroll d (se_userId session); mret tt)
  | totp_verify enrollmentId code =>
      signed_in h now (fun session =>
        _ ← totp_confirm d (se_userId session) enrollmentId code (Some (se_id session)) now; mret tt)
  | totp_delete => signed_in h now (fun session => _ ← stepUpGuard session now; totp_disable (se_userId session) now)
  | update_me email displayName => signed_in h now (fun session => _ ← updateUser (se_userId session) email displayName; mret tt)
  end.

(** ** Histories *)

Record Request := mkRequest { rq_headers : Headers; rq_body : Body; rq_draws : Draws; rq_now : Z }.

Definition answer (r : Request) (s : AuthState) : result Reply * AuthState := serve (rq_headers r) (rq_body r) (rq_draws r) (rq_now r) s.

(** A request that was answered, the state it found and the reply. *)
Record Served := mkServed { sv_request : Request; sv_before : AuthState; sv_reply : result Reply }.

(** The requests answered so far, newest first, on a clock that does not go back. *)
Inductive History : list Served -> AuthState -> Prop :=
| history_start : History [] no_accounts
| history_next trace s r :
    History trace s -> (forall e, e ∈ trace -> rq_now (sv_request e) <= rq_now r) ->
    History (mkServed r s (answer r s).1 :: trace) (answer r s).2.
End Services.
