(* ===== verification/Sessions.v ===== *)
(** * What a session proves

    Theorems about [Auth] and [Login]: a session that is accepted was earned by an assertion
    with a credential of its user, within its two clocks; a ceremony answers once. *)

From Stdlib Require Import ZArith Lia Ascii.
From stdpp Require Import base list sets strings.
From S2P Require Import Prelude Decimal Assets Auth Login.

Open Scope string_scope.
Open Scope list_scope.
Open Scope Z_scope.

(** ** Lemmas: actions *)

Lemma act_bind_Ok {A B} (m : act A) (k : A -> act B) s b s' :
  (m ≫= k) s = (Ok b, s') <-> exists a s1, m s = (Ok a, s1) /\ k a s1 = (Ok b, s').
Proof. unfold mbind, act_bind. destruct (m s) as [[a|e] s1]; naive_solver. Qed.

Lemma unless_Ok b e s u s' : unless b e s = (Ok u, s') <-> b = true /\ s' = s.
Proof. unfold unless, fails. destruct b, u; unfold mret, act_ret; naive_solver. Qed.

(** A part of the state that an action leaves alone. *)
Class Frame {X A} (part : AuthState -> X) (m : act A) : Prop := frame : forall s, part (m s).2 = part s.

#[export] Instance frame_bind {X A B} (part : AuthState -> X) (m : act A) (k : A -> act B) :
  Frame part m -> (forall a, Frame part (k a)) -> Frame part (m ≫= k).
Proof.
  intros Hm Hk s. unfold mbind, act_bind. specialize (Hm s). destruct (m s) as [[a|e] s1]; simpl in *; [|done].
  by rewrite (Hk a s1).
Qed.

#[export] Instance frame_ret {X A} (part : AuthState -> X) (a : A) : Frame part (mret a : act A).
Proof. done. Qed.
#[export] Instance frame_look {X A} (part : AuthState -> X) (f : AuthState -> A) : Frame part (look f).
Proof. done. Qed.
#[export] Instance frame_here {X} (part : AuthState -> X) : Frame part here.
Proof. done. Qed.
#[export] Instance frame_fails {X A} (part : AuthState -> X) e : Frame part (fails e : act A).
Proof. done. Qed.
#[export] Instance frame_lift {X A} (part : AuthState -> X) (r : result A) : Frame part (lift_act r).
Proof. done. Qed.
#[export] Instance frame_unless {X} (part : AuthState -> X) b e : Frame part (unless b e).
Proof. by destruct b. Qed.
#[export] Instance frame_rescue {X A} (part : AuthState -> X) (m : act A) h :
  Frame part m -> (forall e, Frame part (h e)) -> Frame part (rescue m h).
Proof.
  intros Hm Hh s. unfold rescue. specialize (Hm s). destruct (m s) as [[a|e] s1]; simpl in *; [done|]. by rewrite (Hh e s1).
Qed.
#[export] Instance frame_committed {X A} (part : AuthState -> X) (m : act A) : Frame part m -> Frame part (committed m).
Proof. intros Hm s. unfold committed. specialize (Hm s). by destruct (m s) as [[a|e] s1]. Qed.

Lemma frame_of {X A} (part : AuthState -> X) (m : act A) s r s' : Frame part m -> m s = (r, s') -> part s' = part s.
Proof. intros Hf E. specialize (Hf s). by rewrite E in Hf. Qed.

(** Split the conditionals of an action and look at its calls. *)
Ltac framing :=
  repeat match goal with
  | |- forall _, _ => intros ?
  | |- Frame _ (match ?x with _ => _ end) => destruct x
  | |- Frame _ (_ ≫= _) => apply frame_bind
  | |- Frame _ (rescue _ _) => apply frame_rescue
  | |- Frame _ (committed _) => apply frame_committed
  | |- Frame _ (change _) => (intros ?; reflexivity)
  | |- Frame _ (let _ := _ in _) => cbv zeta
  | |- Frame _ _ => (apply _)
  end.

Create HintDb acts.
#[export] Hint Unfold findUserById findByEmail createUser updateUserRow createCredential createWebAuthn findWebAuthnByCredentialId
  findCredentialById countActiveAuthFactors update_credential recordUse revokeCredentialRow createTotp confirmTotp findUnconfirmedTotp
  findConfirmedTotp deleteAllForUser replaceAllForUser append_audit createSession findLiveByTokenHash update_session touch stampStepUp
  revoke_sessions revokeSession revokeAllForUser put_ceremony consume_ceremony issue resolve beginRegistration finishRegistration
  beginAuthentication finishAuthentication issue_session registration_begin registration_tx registration_finish login_begin login_finish
  stepup_begin own_credential stepup_finish totp_enroll totp_confirm totp_disable updateUser revokeCredential account_revokeSession
  csrfGuard sessionGuard stepUpGuard : acts.

Ltac frames := autounfold with acts; framing.

Section Frames.
Context {Response : Type} `{Library Response} `{TotpLibrary} (hashToken : string -> string) (config : Config).

(** *** What leaves the sessions alone *)

#[export] Instance registration_tx_sessions d e o : Frame sessions (registration_tx d e o).
Proof. frames. Qed.
#[export] Instance findWebAuthn_frame {X} (part : AuthState -> X) c : Frame part (findWebAuthnByCredentialId c).
Proof. frames. Qed.
#[export] Instance own_credential_frame {X} (part : AuthState -> X) u c : Frame part (own_credential u c).
Proof. frames. Qed.
#[export] Instance finishAuthentication_sessions c (r : Response) u now : Frame sessions (finishAuthentication c r (own_credential u) now).
Proof. frames. Qed.
#[export] Instance finishLogin_sessions c (r : Response) now : Frame sessions (finishAuthentication c r findWebAuthnByCredentialId now).
Proof. frames. Qed.
#[export] Instance revokeCredential_sessions u c now : Frame sessions (revokeCredential u c now).
Proof. frames. Qed.
#[export] Instance updateUser_sessions u e n : Frame sessions (updateUser u e n).
Proof. frames. Qed.
#[export] Instance totp_disable_sessions u now : Frame sessions (totp_disable u now).
Proof. frames. Qed.
End Frames.

(** ** What was asserted *)

Section Assertions.
Context {Response : Type} `{Library Response} `{TotpLibrary} (hashToken : string -> string) (config : Config).

(** A row that a ceremony may be answered with, and what the library is given of it. *)
Definition usable (s : AuthState) (userId : string) (stored : WebAuthnCredentialRecord) : Prop :=
  exists row, row ∈ credentials s /\ cd_userId row = userId /\ cd_type row = webauthn /\ cd_revokedAt row = None /\
    toWebAuthnRecord row = Ok stored.

(** The pending ceremony of a name, while it lasts. *)
Definition pending (s : AuthState) (now : Z) (ceremonyId : string) (ce : CeremonyRecord) : Prop :=
  exists expires, jget ceremonyId (ceremonies s) = Some (ce, expires) /\ now < expires.

(** An answer that the library verifies for a credential of the user, with a counter that
    advances unless none is kept. *)
Definition asserts (s : AuthState) (now : Z) (ceremonyId : string) (response : Response) (userId : string) : Prop :=
  exists ce stored count, pending s now ceremonyId ce /\ ce_kind ce <> registration /\ usable s userId stored /\
    verifyAuthenticationResponse response (ce_challenge ce) stored (bool_decide (ce_kind ce = stepup)) = Ok (Some count) /\
    (wa_signCount stored = 0 \/ wa_signCount stored < count).

(** An answer that the library verifies as a new credential, of a user who was not there. *)
Definition registers (s : AuthState) (now : Z) (ceremonyId : string) (response : Response) (userId : string) : Prop :=
  exists ce info, pending s now ceremonyId ce /\ ce_kind ce = registration /\
    verifyRegistrationResponse response (ce_challenge ce) = Ok (Some info) /\ has_user userId s = false.

(** The request that a session of the user was issued for. *)
Definition issues (e : Served) (userId tokenHash : string) : Prop :=
  let r := sv_request e in
  hashToken (dr_token (rq_draws r)) = tokenHash /\
  match rq_body r with
  | login_verify c response => asserts (sv_before e) (rq_now r) c response userId
  | register_verify c response => registers (sv_before e) (rq_now r) c response userId
  | _ => False
  end.

(** A request that presents a session's cookie. *)
Definition presents (e : Served) (tokenHash : string) : Prop :=
  exists token, rq_cookie (rq_headers (sv_request (Response := Response) e)) = Some token /\ hashToken token = tokenHash.

(** The request that a session stepped up with. *)
Definition steps_up (e : Served) (userId tokenHash : string) : Prop :=
  presents e tokenHash /\
  match rq_body (sv_request e) with
  | step_up_verify c response => asserts (sv_before e) (rq_now (sv_request e)) c response userId
  | _ => False
  end.

Record earned (trace : list Served) (t : SessionRecord) : Prop := {
  earned_issued : exists e, e ∈ trace /\ issues e (se_userId t) (se_tokenHash t) /\
    se_createdAt t = rq_now (sv_request e) /\ se_expiresAt t = rq_now (sv_request e) + absoluteTtlSeconds (cf_policy config) * 1000;
  earned_seen : exists e, e ∈ trace /\ se_lastSeenAt t = rq_now (sv_request e) /\
    (issues e (se_userId t) (se_tokenHash t) \/ presents e (se_tokenHash t));
  earned_stepped : forall at_, se_stepUpAt t = Some at_ -> exists e, e ∈ trace /\ rq_now (sv_request e) = at_ /\
    (issues e (se_userId t) (se_tokenHash t) \/ steps_up e (se_userId t) (se_tokenHash t))
}.

Definition sessions_earned (trace : list Served) (ts : list SessionRecord) : Prop :=
  NoDup (map se_id ts) /\ NoDup (map se_tokenHash ts) /\ Forall (earned trace) ts.

(** ** Lemmas: ceremonies *)

Lemma findWebAuthn_Ok c s w s' :
  findWebAuthnByCredentialId c s = (Ok (Some w), s') -> s' = s /\ usable s (wa_userId w) w /\ wa_credentialId w = c.
Proof.
  unfold findWebAuthnByCredentialId. rewrite act_bind_Ok. intros (row & s1 & [= <- <-] & E).
  destruct (head _) as [row|] eqn:Eh; [|done]. apply head_Some_elem_of, list_elem_of_filter in Eh as [Hc Hrow].
  destruct (bool_decide_reflect (cd_type row = webauthn)) as [Ht|]; [|done].
  destruct (bool_decide_reflect (cd_revokedAt row = None)) as [Hr|]; [|done]. simpl in E.
  apply act_bind_Ok in E as (w' & s1 & E & [= -> ->]). unfold lift_act in E. injection E as E <-. split; [done|].
  pose proof E as E'. unfold toWebAuthnRecord in E'. rewrite Hc in E'. destruct (cd_publicKey row); [|done]. injection E' as <-.
  split; [|done]. exists row. split_and!; done.
Qed.

Lemma own_credential_Ok u c s w s' :
  own_credential u c s = (Ok (Some w), s') -> s' = s /\ usable s u w /\ wa_credentialId w = c.
Proof.
  unfold own_credential. rewrite act_bind_Ok. intros ([w'|] & s1 & E & [= E2 <-]).
  case_bool_decide as Hu; [|done]. injection E2 as ->. apply findWebAuthn_Ok in E as (-> & Hus & Hc). subst u. done.
Qed.

Definition without (ceremonyId : string) (s : AuthState) : AuthState :=
  set_ceremonies (filter (fun kv => kv.1 <> ceremonyId) (ceremonies s)) s.

Lemma consume_Ok c now s r s' :
  consume_ceremony c now s = (Ok r, s') -> s' = without c s /\ forall ce, r = Some ce -> pending s now c ce.
Proof.
  unfold consume_ceremony. rewrite act_bind_Ok. intros (s0 & s1 & [= <- <-] & E). apply act_bind_Ok in E as (u & s1 & [= <- <-] & [= Er <-]).
  split; [done|]. intros ce ->. destruct (jget c (ceremonies s)) as [[ce' ex]|] eqn:Ej; [|done].
  destruct (Z.leb_spec ex now); [done|]. injection Er as ->. by exists ex.
Qed.

Lemma unfold_usable_without c s u w : usable (without c s) u w <-> usable s u w.
Proof. done. Qed.

(** What an answered ceremony says, whichever of the two lookups it was given. *)
Lemma finishAuthentication_Ok c (response : Response) lookup u now s o s' :
  (forall cid s w s', lookup cid s = (Ok (Some w), s') -> s' = s /\ usable s (u w) w /\ wa_credentialId w = cid) ->
  (forall cid s, (lookup cid s).2 = s) ->
  finishAuthentication c response lookup now s = (Ok o, s') ->
  s' = without c s /\ exists stored, lookup (ao_credentialId o) s' = (Ok (Some stored), s') /\ asserts s now c response (u stored).
Proof.
  intros Hlook Hpure. unfold finishAuthentication. rewrite act_bind_Ok. intros (oce & s1 & Ec & E).
  apply consume_Ok in Ec as [-> Hce]. destruct oce as [ce|]; [|done]. specialize (Hce ce eq_refl).
  case_bool_decide as Hk; [done|]. apply act_bind_Ok in E as (ostored & s2 & El & E). destruct ostored as [stored|]; [|done].
  pose proof El as (-> & Hus & Hcid)%Hlook. apply act_bind_Ok in E as (belongs & s3 & Eb & E).
  assert (s3 = without c s) as ->.
  { destruct (_ && _); [|by injection Eb]. apply act_bind_Ok in Eb as (f & s4 & Ef & [= _ <-]). by rewrite <- (Hpure (response_id response) (without c s)), Ef. }
  apply act_bind_Ok in E as ([] & s4 & [_ ->]%unless_Ok & E). apply act_bind_Ok in E as (v & s5 & Ev & E).
  unfold lift_act in Ev. injection Ev as Ev <-. destruct v as [count|]; [|done].
  apply act_bind_Ok in E as ([] & s6 & [Hd ->]%unless_Ok & [= <- <-]). split; [done|]. exists stored. split; [by rewrite <- Hcid in El|].
  exists ce, stored, count. split; [done|]. split; [done|]. split; [done|]. split; [done|].
  unfold detectClone in Hd. destruct (Z.eqb_spec (wa_signCount stored) 0); [by left|].
  destruct (Z.gtb_spec count (wa_signCount stored)); [right; lia|done].
Qed.

Lemma finishRegistration_Ok c (response : Response) now s o s' :
  finishRegistration c response now s = (Ok o, s') ->
  s' = without c s /\ exists ce, pending s now c ce /\ ce_kind ce = registration /\
    verifyRegistrationResponse response (ce_challenge ce) = Ok (Some (ro_info o)) /\ ro_userId o = ce_userId ce.
Proof.
  unfold finishRegistration. rewrite act_bind_Ok. intros (oce & s1 & Ec & E). apply consume_Ok in Ec as [-> Hce].
  destruct oce as [[[] ch u e n]|]; try done. apply act_bind_Ok in E as (v & s2 & Ev & E). unfold lift_act in Ev. injection Ev as Ev <-.
  destruct v as [info|]; [|done]. injection E as <- <-. split; [done|]. eexists. by split_and!; [by apply Hce|..].
Qed.

(** ** Lemmas: the sessions' table *)

Lemma earned_mono trace e t : earned trace t -> earned (e :: trace) t.
Proof.
  intros [(x & ? & ?) (y & ? & ?) Hs]. constructor.
  - exists x. split; [by right|done].
  - exists y. split; [by right|done].
  - intros a Ha. destruct (Hs a Ha) as (z & ? & ?). exists z. split; [by right|done].
Qed.

Lemma sessions_earned_mono trace e ts : sessions_earned trace ts -> sessions_earned (e :: trace) ts.
Proof. intros (? & ? & Hf). split_and!; [done..|]. eapply Forall_impl; [exact Hf|]. intros t. apply earned_mono. Qed.

(** A row is replaced by one with the same name and hash. *)
Lemma sessions_earned_map trace (f : SessionRecord -> SessionRecord) ts :
  (forall t, se_id (f t) = se_id t /\ se_tokenHash (f t) = se_tokenHash t) ->
  (forall t, t ∈ ts -> earned trace t -> earned trace (f t)) ->
  sessions_earned trace ts -> sessions_earned trace (map f ts).
Proof.
  intros Hid He (Hi & Hh & Hf). split_and!.
  - rewrite map_map. rewrite (map_ext _ se_id); [done|]. intros t. apply Hid.
  - rewrite map_map. rewrite (map_ext _ se_tokenHash); [done|]. intros t. apply Hid.
  - rewrite Forall_forall in Hf |- *. intros t (x & -> & Hx)%list_elem_of_fmap. by apply He, Hf.
Qed.

Lemma revoke_sessions_earned trace p now s :
  sessions_earned trace (sessions s) -> sessions_earned trace (sessions (revoke_sessions p now s).2).
Proof.
  apply sessions_earned_map.
  - intros t. by destruct (_ && _).
  - intros t _ [? ? ?]. destruct (_ && _); by constructor.
Qed.

Lemma revokeSession_earned trace i u now s :
  sessions_earned trace (sessions s) -> sessions_earned trace (sessions (revokeSession i u now s).2).
Proof. apply revoke_sessions_earned. Qed.

Lemma update_session_earned trace i f s :
  (forall t, se_id (f t) = se_id t /\ se_tokenHash (f t) = se_tokenHash t) ->
  (forall t, t ∈ sessions s -> se_id t = i -> earned trace t -> earned trace (f t)) ->
  sessions_earned trace (sessions s) -> sessions_earned trace (sessions (update_session i f s).2).
Proof.
  intros Hid He Hs. unfold update_session, unless, here, mbind, act_bind, fails, mret, act_ret. destruct (existsb _ _); [|done].
  apply sessions_earned_map; [|intros t Ht| done].
  - intros t. case_bool_decide; [apply Hid|done].
  - case_bool_decide; [by apply He|done].
Qed.

Lemma createSession_earned trace row s :
  earned trace row -> sessions_earned trace (sessions s) -> sessions_earned trace (sessions (createSession row s).2).
Proof.
  intros Hrow Hs. unfold createSession, here, mbind, act_bind. destruct (has_user _ s); [|done].
  destruct (existsb _ _) eqn:Ex; [done|]. simpl. destruct Hs as (Hi & Hh & Hf).
  rewrite existsb_none in Ex. unfold sessions_earned. rewrite !map_app. split_and!.
  - apply NoDup_app. split; [done|]. split; [|apply NoDup_singleton]. intros i (t & -> & Ht)%list_elem_of_fmap Hin.
    apply list_elem_of_singleton in Hin. specialize (Ex t Ht). simpl in Ex. rewrite Hin in Ex. by rewrite bool_decide_eq_true_2 in Ex.
  - apply NoDup_app. split; [done|]. split; [|apply NoDup_singleton]. intros i (t & -> & Ht)%list_elem_of_fmap Hin.
    apply list_elem_of_singleton in Hin. specialize (Ex t Ht). simpl in Ex. rewrite Hin in Ex.
    rewrite (bool_decide_eq_true_2 (_ = se_tokenHash row)), orb_true_r in Ex; [|done]. done.
  - apply Forall_app. by split; [|apply Forall_singleton].
Qed.

(** ** Lemmas: the requests *)

Lemma asserts_frame s s' now c (response : Response) u :
  credentials s' = credentials s -> ceremonies s' = ceremonies s -> asserts s' now c response u -> asserts s now c response u.
Proof. unfold asserts, pending, usable. by intros -> ->. Qed.

(** The session that a cookie leads to, while it is neither over nor idle. *)
Definition accepts (s : AuthState) (token : string) (now : Z) (t : SessionRecord) : Prop :=
  t ∈ sessions s /\ se_tokenHash t = hashToken token /\ se_revokedAt t = None /\ now < se_expiresAt t /\
  now < se_lastSeenAt t + idleTtlSeconds (cf_policy config) * 1000.

Lemma findLive_Ok h now s r s' :
  findLiveByTokenHash h now s = (Ok r, s') -> s' = s /\ forall t, r = Some t ->
    t ∈ sessions s /\ se_tokenHash t = h /\ se_revokedAt t = None /\ now < se_expiresAt t.
Proof.
  unfold findLiveByTokenHash. rewrite act_bind_Ok. intros (row & s1 & [= <- <-] & [= Er <-]). split; [done|]. intros t ->.
  destruct (head _) as [row|] eqn:Eh; [|done]. apply head_Some_elem_of, list_elem_of_filter in Eh as [Hh Hrow].
  destruct (bool_decide_reflect (se_revokedAt row = None)) as [Hr|]; [|done]. simpl in Er. destruct (Z.leb_spec (se_expiresAt row) now); [done|].
  injection Er as ->. by split_and!.
Qed.

Lemma resolve_Ok token now s r s' :
  resolve hashToken (cf_policy config) token now s = (Ok r, s') ->
  forall t, r = Some t -> exists t0, t = seen now t0 /\ accepts s token now t0 /\ t ∈ sessions s'.
Proof.
  unfold resolve. rewrite act_bind_Ok. intros (row & s1 & [-> Hrow]%findLive_Ok & E) t ->. destruct row as [row|]; [|done].
  destruct (Hrow row eq_refl) as (Hin & Hh & Hr & He). destruct (Z.leb_spec (se_lastSeenAt row + idleTtlSeconds (cf_policy config) * 1000) now).
  - apply act_bind_Ok in E as (b & s2 & _ & [= ]).
  - apply act_bind_Ok in E as ([] & s2 & Et & [= <- <-]). exists row. split; [done|]. split; [by split_and!|].
    unfold touch, update_session in Et. apply act_bind_Ok in Et as (s3 & s4 & [= <- <-] & Et).
    apply act_bind_Ok in Et as ([] & s3 & [_ ->]%unless_Ok & [= <-]). simpl. apply list_elem_of_fmap. exists row. by rewrite bool_decide_eq_true_2.
Qed.

Section Earning.
Context (trace : list (Served (Response := Response))) (e : Served (Response := Response)) (Hin : e ∈ trace).

Let now := rq_now (sv_request e).

Lemma resolve_earned token s :
  presents e (hashToken token) -> sessions_earned trace (sessions s) ->
  sessions_earned trace (sessions (resolve hashToken (cf_policy config) token now s).2).
Proof using Hin.
  intros Hp Hs. unfold resolve, mbind, act_bind. destruct (findLiveByTokenHash (hashToken token) now s) as [[row|er] s1] eqn:Ef.
  2: { simpl. by rewrite <- (frame (part := sessions) (m := findLiveByTokenHash (hashToken token) now) s), Ef in Hs by (frames). }
  apply findLive_Ok in Ef as [-> Hrow]. destruct row as [row|]; [|done]. destruct (Hrow row eq_refl) as (Hrin & Hh & _ & _).
  destruct (_ <=? now).
  - pose proof (revokeSession_earned trace (se_id row) (se_userId row) now s Hs) as Hr. by destruct (revokeSession _ _ _ s) as [[b|er] s2].
  - assert (Ht : sessions_earned trace (sessions (touch (se_id row) now s).2)); [|by destruct (touch _ _ s) as [[b|er] s2]].
    apply update_session_earned; [done| |done]. intros t Htin Hid [Hi _ Hst]. destruct Hs as (Hn & _ & _).
    assert (t = row) as -> by (by eapply (unique_by se_id)). constructor; [done| |done].
    exists e. split; [done|]. split; [done|]. right. simpl. by rewrite Hh.
Qed.

Lemma sessionGuard_earned h s :
  h = rq_headers (sv_request e) -> sessions_earned trace (sessions s) ->
  sessions_earned trace (sessions (sessionGuard hashToken config h now s).2).
Proof using Hin.
  intros -> Hs. unfold sessionGuard. destruct (rq_cookie _) as [token|] eqn:Ec; [|done]. unfold mbind, act_bind. destruct (bool_decide (token = "")); [done|]. simpl.
  pose proof (resolve_earned token s) as Hr. destruct (resolve _ _ token now s) as [[[t|]|er] s2]; apply Hr; try done; by exists token.
Qed.

#[export] Instance resolve_accounts token : Frame (fun s => (users s, credentials s, ceremonies s)) (resolve hashToken (cf_policy config) token now).
Proof. frames. Qed.

#[export] Instance sessionGuard_accounts h : Frame (fun s => (users s, credentials s, ceremonies s)) (sessionGuard hashToken config h now).
Proof. frames. Qed.

Lemma sessionGuard_Ok h s t s' :
  sessionGuard hashToken config h now s = (Ok t, s') ->
  exists token t0, rq_cookie h = Some token /\ t = seen now t0 /\ accepts s token now t0 /\ t ∈ sessions s' /\
    users s' = users s /\ credentials s' = credentials s /\ ceremonies s' = ceremonies s.
Proof.
  intros E. pose proof (sessionGuard_accounts h s) as Hf. rewrite E in Hf. simpl in Hf. injection Hf as ? ? ?.
  unfold sessionGuard in E. destruct (rq_cookie h) as [token|]; [|done]. apply act_bind_Ok in E as ([] & s1 & [_ ->]%unless_Ok & E).
  apply act_bind_Ok in E as (r & s1 & Er & E). destruct r as [t'|]; [|done]. injection E as -> ->.
  destruct (resolve_Ok _ _ _ _ _ Er t eq_refl) as (t0 & ? & ? & ?). exists token, t0. by split_and!.
Qed.

Lemma signed_in_earned h handler s :
  h = rq_headers (sv_request e) -> sessions_earned trace (sessions s) ->
  (forall t token s1, rq_cookie h = Some token -> t ∈ sessions s1 -> se_tokenHash t = hashToken token ->
     credentials s1 = credentials s -> ceremonies s1 = ceremonies s -> sessions_earned trace (sessions s1) ->
     sessions_earned trace (sessions (handler t s1).2)) ->
  sessions_earned trace (sessions (signed_in hashToken config h now handler s).2).
Proof using Hin.
  intros Hh Hs Hk. unfold signed_in. unfold mbind at 1, act_bind at 1. unfold csrfGuard. destruct (checkCsrf _ _ _ _); [done|].
  cbn [mret act_ret]. pose proof (sessionGuard_earned h s Hh Hs) as Hg. unfold mbind at 1, act_bind at 1.
  destruct (sessionGuard hashToken config h now s) as [[t|er] s1] eqn:Eg; [|done].
  apply sessionGuard_Ok in Eg as (token & t0 & Hc & -> & (_ & Htok & _) & Htin & _ & Hcr & Hce). specialize (Hk (seen now t0) token s1 Hc Htin Htok Hcr Hce Hg).
  unfold mbind, act_bind. by destruct (handler (seen now t0) s1) as [[[]|er] s2].
Qed.

(** *** The services, one after the other *)

Lemma keep_bind {A B} (m : act A) (k : A -> act B) s :
  sessions_earned trace (sessions (m s).2) ->
  (forall a s1, m s = (Ok a, s1) -> sessions_earned trace (sessions s1) -> sessions_earned trace (sessions (k a s1).2)) ->
  sessions_earned trace (sessions ((m ≫= k) s).2).
Proof. intros Hm Hk. unfold mbind, act_bind. destruct (m s) as [[a|er] s1]; [by apply Hk|done]. Qed.

Lemma keep_frame {A} (m : act A) s : Frame sessions m -> sessions_earned trace (sessions s) -> sessions_earned trace (sessions (m s).2).
Proof. intros Hf Hs. by rewrite (Hf s). Qed.

Lemma stepup_finish_earned c response t token s :
  rq_body (sv_request e) = step_up_verify c response -> rq_cookie (rq_headers (sv_request e)) = Some token ->
  credentials s = credentials (sv_before e) -> ceremonies s = ceremonies (sv_before e) ->
  t ∈ sessions s -> se_tokenHash t = hashToken token -> sessions_earned trace (sessions s) ->
  sessions_earned trace (sessions (stepup_finish c response t now s).2).
Proof using Hin.
  intros Hb Hc Hcr Hce Ht Hh Hs. unfold stepup_finish. apply keep_bind; [apply keep_frame; [frames|done]|].
  intros o s1 E _. assert (Ef : finishAuthentication c response (own_credential (se_userId t)) now s = (Ok o, s1)).
  { unfold rescue in E. destruct (finishAuthentication _ _ _ _ s) as [[o'|er] s2]; [by injection E as <- <-|done]. }
  apply (finishAuthentication_Ok _ _ _ (fun _ => se_userId t)) in Ef as (-> & stored & _ & Has);
    [|intros *; apply own_credential_Ok|intros; by apply (own_credential_frame id)].
  apply keep_bind; [apply keep_frame; [frames|done]|]. intros w s1 Ew Hs1.
  assert (sessions s1 = sessions s) as Es1 by exact (frame_of sessions _ _ _ _ (findWebAuthn_frame _ _) Ew).
  apply keep_bind; [apply keep_frame; [frames|done]|]. intros [] s2 Eu Hs2.
  assert (sessions s2 = sessions s) as Es2.
  { rewrite <- Es1. eapply frame_of; [|exact Eu]. frames. }
  apply keep_bind; [|intros; apply keep_bind; [apply keep_frame; [frames|done]|]; intros; apply keep_frame; [frames|done]].
  apply update_session_earned; [done| |done]. rewrite Es2. intros t' Ht' Hid [Hi Hse _]. destruct Hs as (Hn & _ & _).
  assert (t' = t) as -> by (by eapply (unique_by se_id)). constructor; [done..|]. intros at_ [= <-]. exists e. split; [done|]. split; [done|]. right.
  split; [exists token; simpl; by rewrite Hc, Hh|]. rewrite Hb. by eapply asserts_frame.
Qed.

(** A session issued for this request is earned by it. *)
Lemma issue_earned userId s :
  (forall h, hashToken (dr_token (rq_draws (sv_request e))) = h -> issues e userId h) ->
  sessions_earned trace (sessions s) ->
  sessions_earned trace (sessions (issue_session hashToken config (rq_draws (sv_request e)) userId now s).2).
Proof using Hin.
  intros Hi Hs. unfold issue_session, issue. cbv zeta. apply keep_bind; [|intros; apply keep_frame; [frames|done]].
  apply createSession_earned; [|done]. constructor; simpl.
  - exists e. split; [done|]. split; [by apply Hi|done].
  - exists e. split; [done|]. split; [done|]. left. by apply Hi.
  - intros at_ [= <-]. exists e. split; [done|]. split; [done|]. left. by apply Hi.
Qed.

Lemma login_finish_earned c response s :
  rq_body (sv_request e) = login_verify c response -> s = sv_before e -> sessions_earned trace (sessions s) ->
  sessions_earned trace (sessions (login_finish hashToken config (rq_draws (sv_request e)) c response now s).2).
Proof using Hin.
  intros Hb -> Hs. unfold login_finish. apply keep_bind; [apply keep_frame; [frames|done]|].
  intros o s1 E _. assert (Ef : finishAuthentication c response findWebAuthnByCredentialId now (sv_before e) = (Ok o, s1)).
  { unfold rescue in E. destruct (finishAuthentication _ _ _ _ _) as [[o'|er] s2]; [by injection E as <- <-|]. by destruct (bool_decide _). }
  apply (finishAuthentication_Ok _ _ _ wa_userId) in Ef as (-> & stored & El & Has); [|apply findWebAuthn_Ok|intros; by apply (findWebAuthn_frame id)].
  apply keep_bind; [by rewrite El|]. intros stored' s1 El' Hs1. rewrite El in El'. injection El' as <- <-.
  apply keep_bind; [done|]. intros user s1 Eu _. injection Eu as Eu <-. destruct user as [user|]; [|done].
  apply head_Some_elem_of, list_elem_of_filter in Eu as [Eid _].
  apply keep_bind; [apply keep_frame; [frames|done]|]. intros [] s1 [_ ->]%unless_Ok _.
  apply keep_bind; [apply keep_frame; [frames|done]|]. intros [] s1 _ Hs2.
  apply keep_bind; [|intros; apply keep_bind; [apply keep_frame; [frames|done]|]; intros; apply keep_frame; [frames|done]].
  apply issue_earned; [|done]. intros h Hh. split; [done|]. rewrite Hb, Eid. done.
Qed.

Lemma registration_tx_new d o s u s' : registration_tx d None o s = (Ok u, s') -> has_user u s = false.
Proof.
  unfold registration_tx. rewrite act_bind_Ok. intros (u' & s1 & E & E').
  assert (u' = u) as -> by (by repeat (apply act_bind_Ok in E' as (? & ? & _ & E')); injection E').
  clear E'. apply act_bind_Ok in E as ([] & s2 & E0 & E). assert (s2 = s) as ->.
  { destruct (ro_pendingEmail o); [|by injection E0]. apply act_bind_Ok in E0 as (? & ? & [= <- <-] & [_ ->]%unless_Ok). done. }
  apply act_bind_Ok in E as (user & s2 & E & E'). apply act_bind_Ok in E' as ([] & s3 & _ & [= <- _]).
  unfold createUser in E. apply act_bind_Ok in E as (s4 & s5 & [= <- <-] & E). cbv zeta in E.
  apply act_bind_Ok in E as ([] & s4 & [Hb ->]%unless_Ok & E). apply act_bind_Ok in E as ([] & s4 & _ & [= <- _]).
  apply negb_true_iff in Hb. rewrite existsb_none in Hb. apply existsb_none. intros x Hx. simpl. specialize (Hb x Hx). by apply orb_false_iff in Hb as [? _].
Qed.

Lemma registration_finish_earned c response s :
  rq_body (sv_request e) = register_verify c response -> s = sv_before e -> sessions_earned trace (sessions s) ->
  sessions_earned trace (sessions (registration_finish hashToken config (rq_draws (sv_request e)) c response None None now s).2).
Proof using Hin.
  intros Hb -> Hs. unfold registration_finish. apply keep_bind; [apply keep_frame; [frames|done]|]. intros o s1 E Hs1.
  apply finishRegistration_Ok in E as (-> & ce & Hp & Hk & Hv & _). apply keep_bind; [apply keep_frame; [frames|done]|]. intros u s1 E _.
  assert (sessions s1 = sessions (sv_before e)) as Es1 by (eapply (frame_of sessions _ (without c (sv_before e))); [|exact E]; frames).
  destruct (ro_userId o) as [u'|] eqn:Eu; [by rewrite <- Es1 in Hs|].
  apply keep_bind; [|intros; apply keep_frame; [frames|done]]. apply issue_earned; [|by rewrite Es1].
  intros h Hh. split; [done|]. rewrite Hb. exists ce, (ro_info o). split_and!; [done..|].
  unfold committed in E. destruct (registration_tx _ None _ _) as [[?|?] ?] eqn:Et; [|done]. injection E as -> ->.
  by apply registration_tx_new in Et.
Qed.

Lemma account_revokeSession_earned u i s :
  sessions_earned trace (sessions s) -> sessions_earned trace (sessions (account_revokeSession u i now s).2).
Proof.
  intros Hs. unfold account_revokeSession. apply keep_bind; [by apply revokeSession_earned|].
  intros b s1 _ Hs1. by apply keep_frame; [frames|].
Qed.

Lemma totp_confirm_earned d u i code kept s :
  sessions_earned trace (sessions s) -> sessions_earned trace (sessions (totp_confirm d u i code (Some kept) now s).2).
Proof.
  intros Hs. unfold totp_confirm. apply keep_bind; [done|]. intros p s1 [= <- <-] _. destruct (_ ≫= _); [|done].
  apply keep_bind; [done|]. intros secret s1 [= _ <-] _. apply keep_bind; [apply keep_frame; [frames|done]|]. intros [] s1 [_ ->]%unless_Ok _.
  apply keep_bind; [apply keep_frame; [frames|done]|]. intros [] s1 _ Hs1.
  apply keep_bind; [|intros; by apply keep_frame; [frames|]]. apply keep_bind; [by apply revoke_sessions_earned|]. by intros.
Qed.

Lemma answer_earned s :
  s = sv_before e -> sessions_earned trace (sessions s) ->
  sessions_earned trace (sessions (answer hashToken config (sv_request e) s).2).
Proof using Hin.
  intros Es Hs. unfold answer, serve. destruct (rq_body (sv_request e)) eqn:Hb;
    try (apply keep_frame; [solve [frames]|done]); try (apply signed_in_earned; [done..|]; intros t token s1 Hc Ht Hh Hcr Hce Hs1).
  - apply keep_bind; [apply keep_frame; [frames|done]|]. intros [] s1 E _. assert (s1 = s) as -> by (eapply (frame_of id); [|exact E]; frames).
    apply keep_bind; [by apply registration_finish_earned|]. intros [u tok] s1 _ Hs1. done.
  - apply keep_bind; [apply keep_frame; [frames|done]|]. intros [] s1 E _. assert (s1 = s) as -> by (eapply (frame_of id); [|exact E]; frames).
    apply keep_bind; [by apply login_finish_earned|]. intros [u tok] s1 _ Hs1. done.
  - by apply account_revokeSession_earned.
  - apply keep_bind; [by apply sessionGuard_earned|]. by intros.
  - apply keep_frame; [frames|done].
  - apply keep_bind; [|by intros]. eapply stepup_finish_earned; try done; congruence.
  - apply keep_frame; [frames|done].
  - by apply account_revokeSession_earned.
  - apply keep_frame; [frames|done].
  - apply keep_bind; [by apply totp_confirm_earned|]. by intros.
  - apply keep_frame; [frames|done].
  - apply keep_frame; [frames|done].
Qed.
End Earning.

Lemma history_earned trace s : History hashToken config trace s -> sessions_earned trace (sessions s).
Proof.
  induction 1 as [|trace s r Hh IH _]; [split_and!; constructor|].
  pose proof (answer_earned (mkServed r s (answer hashToken config r s).1 :: trace) (mkServed r s (answer hashToken config r s).1) ltac:(by left) s eq_refl) as Ha.
  apply Ha. by apply sessions_earned_mono.
Qed.
End Assertions.

(** ** Lemmas: a ceremony that was answered is gone *)

Section Once.
Context {Response : Type} `{Library Response} `{TotpLibrary} (hashToken : string -> string) (config : Config) (c : string).

(** The ceremony is not pending under its name. *)
Definition gone (s : AuthState) : Prop := jget c (ceremonies s) = None.

Class KeepsGone {A} (m : act A) : Prop := keeps_gone : forall s, gone s -> gone (m s).2.

Lemma gone_bind {A B} (m : act A) (k : A -> act B) : KeepsGone m -> (forall a, KeepsGone (k a)) -> KeepsGone (m ≫= k).
Proof.
  intros Hm Hk s Hs. unfold mbind, act_bind. specialize (Hm s Hs). destruct (m s) as [[a|e] s1]; simpl in *; [|done]. by apply Hk.
Qed.

Lemma gone_frame {A} (m : act A) : Frame ceremonies m -> KeepsGone m.
Proof. intros Hf s Hs. unfold gone. by rewrite (Hf s). Qed.

Lemma gone_rescue {A} (m : act A) h : KeepsGone m -> (forall e, KeepsGone (h e)) -> KeepsGone (rescue m h).
Proof. intros Hm Hh s Hs. unfold rescue. specialize (Hm s Hs). destruct (m s) as [[a|e] s1]; simpl in *; [done|]. by apply Hh. Qed.

Lemma jget_filter_other k (m : list (string * (CeremonyRecord * Z))) :
  jget c m = None -> jget c (filter (fun kv => kv.1 <> k) m) = None.
Proof. rewrite !jget_None. intros Hc Hin. apply Hc. apply list_elem_of_fmap in Hin as (x & -> & [_ Hx]%list_elem_of_filter). by apply list_elem_of_fmap_2. Qed.

Lemma jget_filter_same (m : list (string * (CeremonyRecord * Z))) : jget c (filter (fun kv => kv.1 <> c) m) = None.
Proof. rewrite jget_None. intros (x & E & [Hn _]%list_elem_of_filter)%list_elem_of_fmap. by apply Hn. Qed.

Lemma gone_consume k now : KeepsGone (consume_ceremony k now).
Proof. intros s Hs. unfold gone. simpl. by apply jget_filter_other. Qed.

Lemma gone_put ttl k ce now : k <> c -> KeepsGone (put_ceremony ttl k ce now).
Proof. intros Hk s Hs. unfold gone. simpl. by rewrite jget_jset_ne. Qed.

Lemma gone_finishAuthentication k (response : Response) u now :
  KeepsGone (finishAuthentication k response (own_credential u) now) /\ KeepsGone (finishAuthentication k response findWebAuthnByCredentialId now).
Proof. split; (apply gone_bind; [apply gone_consume|intros ce; apply gone_frame; frames]). Qed.

Lemma gone_finishRegistration k (response : Response) now : KeepsGone (finishRegistration k response now).
Proof. apply gone_bind; [apply gone_consume|intros ce; apply gone_frame; frames]. Qed.

Lemma gone_signed_in h now handler : (forall t, KeepsGone (handler t)) -> KeepsGone (signed_in hashToken config h now handler).
Proof.
  intros Hk. apply gone_bind; [apply gone_frame; frames|]. intros _. apply gone_bind; [apply gone_frame; frames|]. intros t.
  apply gone_bind; [apply Hk|]. intros _. apply gone_frame. frames.
Qed.

Lemma gone_answer (r : Request) : dr_ceremonyId (rq_draws r) <> c -> KeepsGone (answer (Response := Response) hashToken config r).
Proof.
  intros Hd. change (KeepsGone (serve hashToken config (rq_headers r) (rq_body r) (rq_draws r) (rq_now r))). unfold serve.
  destruct (rq_body r) eqn:Hb; try (apply gone_frame; solve [frames]); try (apply gone_signed_in; intros t);
    try (apply gone_frame; solve [frames]).
  - apply gone_bind; [apply gone_frame; frames|]. intros _. apply gone_bind; [by apply gone_put|]. intros _. apply gone_frame. frames.
  - apply gone_bind; [apply gone_frame; frames|]. intros _. apply gone_bind; [|intros [? ?]; apply gone_frame; frames].
    unfold registration_finish. apply gone_bind; [apply gone_finishRegistration|]. intros o. apply gone_frame. frames.
  - apply gone_bind; [apply gone_frame; frames|]. intros _. apply gone_bind; [by apply gone_put|]. intros _. apply gone_frame. frames.
  - apply gone_bind; [apply gone_frame; frames|]. intros _. apply gone_bind; [|intros [? ?]; apply gone_frame; frames].
    unfold login_finish. apply gone_bind; [apply gone_rescue; [by apply (gone_finishAuthentication _ _ "")|intros; apply gone_frame; frames]|].
    intros o. apply gone_frame. frames.
  - by apply gone_put.
  - apply gone_bind; [|intros; apply gone_frame; frames]. unfold stepup_finish.
    apply gone_bind; [apply gone_rescue; [by apply gone_finishAuthentication|intros; apply gone_frame; frames]|]. intros o. apply gone_frame. frames.
Qed.

(** The ceremony that a request answers. *)
Definition answers (r : Request (Response := Response)) : option string :=
  match rq_body r with register_verify k _ | login_verify k _ | step_up_verify k _ => Some k | _ => None end.


Lemma finishAuthentication_answers (response : Response) lookup now s o s' :
  (forall cid s, (lookup cid s).2 = s) ->
  finishAuthentication c response lookup now s = (Ok o, s') -> ~ gone s /\ gone s'.
Proof.
  intros Hpure. unfold finishAuthentication. rewrite act_bind_Ok. intros (oce & s1 & Ec & E). apply consume_Ok in Ec as [-> Hce].
  destruct oce as [ce|]; [|done]. split.
  - destruct (Hce ce eq_refl) as (ex & Hj & _). unfold gone. congruence.
  - assert (s' = without c s) as ->; [|apply jget_filter_same]. eapply (frame_of id); [|exact E].
    destruct (bool_decide _); [by intros ?|]. apply frame_bind; [intros ?; apply Hpure|]. intros [w|]; [|by intros ?]. apply frame_bind; [|frames].
    destruct (_ && _); [|by intros ?]. apply frame_bind; [intros ?; apply Hpure|frames].
Qed.

Lemma finishRegistration_answers (response : Response) now s o s' :
  finishRegistration c response now s = (Ok o, s') -> ~ gone s /\ gone s'.
Proof.
  intros E. apply finishRegistration_Ok in E as (-> & ce & (ex & Hj & _) & _). split; [unfold gone; congruence|apply jget_filter_same].
Qed.

Lemma gone_end {A} (m : act A) s r s' : KeepsGone m -> m s = (r, s') -> gone s -> gone s'.
Proof. intros Hm E Hs. specialize (Hm s Hs). by rewrite E in Hm. Qed.

Lemma rescue_Ok {A} (m : act A) h s a s' : (forall e s b s', h e s <> (Ok b, s')) -> rescue m h s = (Ok a, s') -> m s = (Ok a, s').
Proof. unfold rescue. destruct (m s) as [[b|e] s1]; [done|]. intros Hh E. by apply Hh in E. Qed.

(** A request that is answered had its ceremony pending, and leaves it gone. *)
Lemma answered (r : Request) s reply s' :
  answers r = Some c -> answer hashToken config r s = (Ok reply, s') -> ~ gone s /\ gone s'.
Proof.
  unfold answers, answer, serve. destruct (rq_body r) eqn:Hb; intros [= ->] E.
  - apply act_bind_Ok in E as ([] & s1 & Eg & E). assert (s1 = s) as -> by (eapply (frame_of id); [|exact Eg]; frames).
    apply act_bind_Ok in E as ([u tok] & s1 & E & [= _ <-]). unfold registration_finish in E. apply act_bind_Ok in E as (o & s2 & E1 & E).
    apply finishRegistration_answers in E1 as [? Hg]. split; [done|]. refine (gone_end _ _ _ _ _ E Hg). apply gone_frame. frames.
  - apply act_bind_Ok in E as ([] & s1 & Eg & E). assert (s1 = s) as -> by (eapply (frame_of id); [|exact Eg]; frames).
    apply act_bind_Ok in E as ([u tok] & s1 & E & [= _ <-]). unfold login_finish in E. apply act_bind_Ok in E as (o & s2 & E1 & E).
    apply rescue_Ok in E1; [|intros e ? ? ?; by destruct (bool_decide (e = _))].
    apply finishAuthentication_answers in E1 as [? Hg]; [|intros; by apply (findWebAuthn_frame id)]. split; [done|].
    refine (gone_end _ _ _ _ _ E Hg). apply gone_frame. frames.
  - unfold signed_in in E. apply act_bind_Ok in E as ([] & s1 & Eg & E). assert (s1 = s) as -> by (eapply (frame_of id); [|exact Eg]; frames).
    apply act_bind_Ok in E as (t & s1 & Es & E). apply (sessionGuard_Ok hashToken config (mkServed r s (Ok (mkReply None None)))) in Es as (? & ? & _ & _ & _ & _ & _ & _ & Hce).
    apply act_bind_Ok in E as ([] & s2 & E & [= _ <-]). apply act_bind_Ok in E as (z & s3 & E & [= <-]).
    unfold stepup_finish in E. apply act_bind_Ok in E as (o & s4 & E1 & E). apply rescue_Ok in E1; [|done].
    apply finishAuthentication_answers in E1 as [Hn Hg]; [|intros; by apply (own_credential_frame id)]. split; [unfold gone in *; by rewrite <- Hce|].
    refine (gone_end _ _ _ _ _ E Hg). apply gone_frame. frames.
Qed.

Lemma history_cons e trace s :
  History hashToken config (e :: trace) s -> History hashToken config trace (sv_before e) /\
    answer hashToken config (sv_request e) (sv_before e) = (sv_reply e, s).
Proof. intros Hh. inversion Hh as [|tr s0 r Hh0 _]; subst. split; [done|]. simpl. by destruct (answer _ _ r s0). Qed.

Lemma history_suffix later_ trace s : History hashToken config (later_ ++ trace) s -> exists s0, History hashToken config trace s0.
Proof. revert s. induction later_ as [|e later_ IH]; intros s Hh; [by exists s|]. apply history_cons in Hh as [Hh _]. by eapply IH. Qed.

Lemma history_gone between first earlier_ s reply :
  History hashToken config (between ++ first :: earlier_) s -> answers (sv_request first) = Some c -> sv_reply first = Ok reply ->
  (forall e, e ∈ between -> dr_ceremonyId (rq_draws (sv_request e)) <> c) -> gone s.
Proof.
  revert s. induction between as [|e between IH]; intros s Hh Ha Hr Hd; simpl in Hh; apply history_cons in Hh as [Hh E].
  - rewrite Hr in E. apply answered in E as [_ Hg]; [exact Hg|exact Ha].
  - refine (gone_end _ _ _ _ _ E _); [apply gone_answer, Hd; by left|]. apply IH; [done..|]. intros e' He'. apply Hd. by right.
Qed.
End Once.

(** ** Properties *)


(** C13: A ceremony answers once. When ceremony ids are not drawn again, of all the requests that
    answer one ceremony, to register, to sign in or to step up, at most one succeeds: once
    one has, every later answer under the same id is refused, whatever it carries. *)
Theorem ceremony_answers_once {Response} `{Library Response} `{TotpLibrary} hashToken config (trace : list (Served (Response := Response))) s
    later_ e between first earlier_ c reply :
  History hashToken config trace s -> trace = later_ ++ e :: between ++ first :: earlier_ ->
  answers (sv_request e) = Some c -> answers (sv_request first) = Some c ->
  (forall e', e' ∈ between -> dr_ceremonyId (rq_draws (sv_request e')) <> c) ->
  sv_reply first = Ok reply -> exists er, sv_reply e = Throw er.
Proof.
  intros Hh -> Ha Hf Hd Hr. apply history_suffix in Hh as [s0 Hh]. apply history_cons in Hh as [Hh E].
  apply (history_gone hashToken config c _ _ _ _ reply) in Hh; [|done..]. destruct (sv_reply e) as [rep|er]; [|by exists er].
  by apply (answered hashToken config c) in E as [? _].
Qed.

(** ** Witnesses *)

(** A library of which a response is verified when it names the key and the challenge, and the
    user was verified if that is asked. *)
Record DemoResponse := mkDemo { dm_id : string; dm_key : string; dm_challenge : string; dm_verified : bool; dm_count : Z }.

#[export] Instance demo_library : Library DemoResponse := {
  response_id := dm_id;
  verifyRegistrationResponse := fun r challenge =>
    Ok (if bool_decide (dm_challenge r = challenge) then Some (mkRegInfo (dm_id r) (dm_key r) (dm_count r)) else None);
  verifyAuthenticationResponse := fun r challenge stored asked =>
    _ ← throw_if (negb (bool_decide (dm_challenge r = challenge))) (GenericError "Unexpected authentication response challenge");
    _ ← throw_if (asked && negb (dm_verified r)) (GenericError "User verification required, but user could not be verified");
    Ok (if bool_decide (dm_key r = wa_publicKey stored) then Some (dm_count r) else None)
}.

#[export] Instance demo_totp : TotpLibrary := {
  validate := fun secret code _ => bool_decide (secret = code);
  encryptSecret := fun s => s;
  decryptSecret := fun s => Ok s;
  hashRecoveryCode := fun s => s
}.

Definition demo_config : Config := mkConfig (mkPolicy 1800 43200 300) 120 "https://app" 60 (fun _ => None).
Definition demo_headers (cookie : option string) : Headers := mkHeaders "POST" (Some "https://app") (Some "same-site") cookie.
Definition demo_hash (token : string) : string := "hash of " +:+ token.

Definition draws_named (n : string) : Draws :=
  mkDraws ("ceremony" +:+ n) ("challenge" +:+ n) ("row" +:+ n) ("user" +:+ n) ("session" +:+ n) ("token" +:+ n) ("secret" +:+ n) ["code" +:+ n].

Definition demo_request (cookie : option string) (body : Body (Response := DemoResponse)) (n : string) (now : Z) : Request :=
  mkRequest (demo_headers cookie) body (draws_named n) now.

Fixpoint demo_run (rs : list (Request (Response := DemoResponse))) (s : AuthState) : list (result Reply) * AuthState :=
  match rs with
  | [] => ([], s)
  | r :: rs => let (reply, s) := answer demo_hash demo_config r s in let (replies, s) := demo_run rs s in (reply :: replies, s)
  end.

Definition demo_signup : list (Request (Response := DemoResponse)) :=
  [demo_request None (register_options (Some "a@b") None) "1" 0;
   demo_request None (register_verify "ceremony1" (mkDemo "cred" "key" "challenge1" false 0)) "2" 1000].

Definition demo_options : Request := demo_request None (register_options (Some "a@b") None) "1" 0.
Definition demo_verify : Request := demo_request None (register_verify "ceremony1" (mkDemo "cred" "key" "challenge1" false 0)) "2" 1000.
Definition demo_s1 : AuthState := (answer demo_hash demo_config demo_options no_accounts).2.
Definition demo_s2 : AuthState := (answer demo_hash demo_config demo_verify demo_s1).2.
Definition demo_trace : list Served :=
  [mkServed demo_verify demo_s1 (answer demo_hash demo_config demo_verify demo_s1).1;
   mkServed demo_options no_accounts (answer demo_hash demo_config demo_options no_accounts).1].

Lemma demo_account_history : History demo_hash demo_config demo_trace demo_s2.
Proof.
  apply history_next.
  - apply history_next; [constructor|]. intros e He. set_solver.
  - intros e He. apply list_elem_of_singleton in He as ->. vm_compute. discriminate.
Qed.


Definition demo_again : Request := demo_request None (register_verify "ceremony1" (mkDemo "cred2" "key2" "challenge1" true 0)) "3" 2000.

Lemma ceremony_answers_once_witness : exists er, (answer demo_hash demo_config demo_again demo_s2).1 = Throw er.
Proof.
  pose (again := mkServed demo_again demo_s2 (answer demo_hash demo_config demo_again demo_s2).1).
  assert (Hh : History demo_hash demo_config (again :: demo_trace) (answer demo_hash demo_config demo_again demo_s2).2).
  { apply history_next; [exact demo_account_history|]. intros e [->|[->|He]%elem_of_cons]%elem_of_cons; [vm_compute; discriminate..|set_solver]. }
  exact (ceremony_answers_once demo_hash demo_config (again :: demo_trace) _ [] again [] _ _ "ceremony1" (mkReply (Some "user2") (Some "token2"))
           Hh eq_refl eq_refl eq_refl ltac:(intros e' He'; set_solver) eq_refl).
Defined.
