(* ===== verification/Passkeys.v ===== *)
(** * Passkeys: what accounts can and cannot do with them

    Theorems about [Auth] and [Login]: a step-up that no user verification backs, accounts
    that keep their first passkey for ever, the last way in, and a second factor that
    outlives its removal. *)

From Stdlib Require Import ZArith Lia Ascii.
From stdpp Require Import base list sets strings.
From S2P Require Import Prelude Decimal Assets Auth Login Sessions.

Open Scope string_scope.
Open Scope list_scope.
Open Scope Z_scope.

(** ** Lemmas: a step-up, executed *)

Section StepUp.
Context {Response : Type} `{Library Response} `{TotpLibrary} (hashToken : string -> string) (config : Config).

Lemma bind_run {A B} (m : act A) (k : A -> act B) s a s1 : m s = (Ok a, s1) -> (m ≫= k) s = k a s1.
Proof. intros E. unfold mbind, act_bind. by rewrite E. Qed.

Lemma findWebAuthn_ext c s s' : credentials s' = credentials s ->
  findWebAuthnByCredentialId c s' = ((findWebAuthnByCredentialId c s).1, s').
Proof.
  intros E. unfold findWebAuthnByCredentialId, mbind, act_bind, look. rewrite E. destruct (head _) as [row|]; [|done].
  destruct (_ || _); [done|]. unfold lift_act. by destruct (toWebAuthnRecord row).
Qed.

Lemma own_credential_run u c s w : findWebAuthnByCredentialId c s = (Ok (Some w), s) -> wa_userId w = u -> own_credential u c s = (Ok (Some w), s).
Proof. intros E <-. unfold own_credential. rewrite (bind_run _ _ _ _ _ E). by rewrite bool_decide_eq_true_2. Qed.

(** The ceremony of a sign-in, answered as a step-up: nothing asks for user verification. *)
Lemma finishAuthentication_run c (response : Response) u s ce ex w count now :
  jget c (ceremonies s) = Some (ce, ex) -> now < ex -> ce_kind ce = authentication ->
  findWebAuthnByCredentialId (response_id response) s = (Ok (Some w), s) -> wa_userId w = u ->
  verifyAuthenticationResponse response (ce_challenge ce) w false = Ok (Some count) -> detectClone (wa_signCount w) count = false ->
  finishAuthentication c response (own_credential u) now s = (Ok (mkAuthOutcome (wa_credentialId w) count (ce_userId ce)), without c s).
Proof.
  intros Hj Hex Hk Hf Hu Hv Hd. unfold finishAuthentication.
  rewrite (bind_run _ _ s (Some ce) (without c s)).
  2: { unfold consume_ceremony, here, mbind, act_bind. simpl. rewrite Hj. by rewrite (proj2 (Z.leb_gt ex now)) by lia. }
  rewrite Hk. simpl. rewrite (bind_run _ _ _ (Some w) (without c s)).
  2: { apply own_credential_run; [|done]. rewrite (findWebAuthn_ext _ s) by done. by rewrite Hf. }
  rewrite andb_false_r. unfold mbind, act_bind, mret, act_ret. simpl. rewrite Hv. by rewrite Hd.
Qed.

Lemma update_credential_run i f s : existsb (fun c => bool_decide (cd_id c = i)) (credentials s) = true ->
  exists s', update_credential i f s = (Ok tt, s') /\ sessions s' = sessions s.
Proof. intros E. unfold update_credential, here, mbind, act_bind, unless. rewrite E. by eexists. Qed.

Lemma update_session_run i f s t : t ∈ sessions s -> se_id t = i ->
  exists s', update_session i f s = (Ok tt, s') /\ f t ∈ sessions s'.
Proof.
  intros Ht Hi. unfold update_session, here, mbind, act_bind, unless. rewrite (existsb_some _ _ t) by (done || by apply bool_decide_eq_true_2).
  eexists. split; [done|]. simpl. apply list_elem_of_fmap. exists t. by rewrite bool_decide_eq_true_2.
Qed.

Lemma stepup_finish_run c (response : Response) t s ce ex w count now :
  t ∈ sessions s -> jget c (ceremonies s) = Some (ce, ex) -> now < ex -> ce_kind ce = authentication ->
  findWebAuthnByCredentialId (response_id response) s = (Ok (Some w), s) -> wa_userId w = se_userId t ->
  verifyAuthenticationResponse response (ce_challenge ce) w false = Ok (Some count) -> detectClone (wa_signCount w) count = false ->
  exists s', stepup_finish c response t now s = (Ok now, s') /\ stepped now t ∈ sessions s'.
Proof.
  intros Ht Hj Hex Hk Hf Hu Hv Hd. pose proof Hf as (_ & (row & Hrow & _ & _ & _ & Hrec) & Hcid)%findWebAuthn_Ok.
  unfold stepup_finish. rewrite (bind_run _ _ s (mkAuthOutcome (wa_credentialId w) count (ce_userId ce)) (without c s)).
  2: { unfold rescue. by rewrite (finishAuthentication_run c response (se_userId t) s ce ex w count now). }
  cbn [ao_credentialId ao_newSignCount]. rewrite (bind_run _ _ _ (Some w) (without c s)).
  2: { rewrite (findWebAuthn_ext _ s) by done. by rewrite Hcid, Hf. }
  destruct (update_credential_run (wa_id w) (used now (Some count)) (without c s)) as (s1 & E1 & Es1).
  { apply (existsb_some _ _ row); [done|]. apply bool_decide_eq_true_2. unfold toWebAuthnRecord in Hrec.
    destruct (cd_credentialId row), (cd_publicKey row); try done. by injection Hrec as <-. }
  rewrite (bind_run _ _ _ tt s1 E1). destruct (update_session_run (se_id t) (stepped now) s1 t) as (s2 & E2 & Hin); [by rewrite Es1|done|].
  rewrite (bind_run _ _ _ tt s2 E2). eexists. by split.
Qed.

(** The ceremony of a step-up, answered by a user whom the library does not find verified: refused. *)
Lemma stepup_refused c (response : Response) t s ce ex w e now :
  jget c (ceremonies s) = Some (ce, ex) -> ce_kind ce = stepup ->
  (findWebAuthnByCredentialId (response_id response) s).1 = Ok (Some w) ->
  verifyAuthenticationResponse response (ce_challenge ce) w true = Throw e ->
  (stepup_finish c response t now s).1 = Throw AuthenticationFailedError.
Proof.
  intros Hj Hk Hf Hv. unfold stepup_finish, mbind at 1, act_bind at 1, rescue at 1.
  destruct (finishAuthentication _ _ _ _ s) as [[o|e'] s'] eqn:E; [exfalso|done]. unfold finishAuthentication in E.
  apply act_bind_Ok in E as (r & s1 & Ec & E). unfold consume_ceremony, here, mbind, act_bind in Ec. simpl in Ec.
  rewrite Hj in Ec. injection Ec as <- <-. destruct (ex <=? now); [done|]. rewrite Hk in E. simpl in E.
  apply act_bind_Ok in E as (stored & s1 & Eo & E). unfold own_credential in Eo. apply act_bind_Ok in Eo as (w' & s2 & Ew & Eo).
  rewrite (findWebAuthn_ext _ s) in Ew by done. rewrite Hf in Ew. injection Ew as <- <-. injection Eo as <- <-.
  case_bool_decide; [|done]. apply act_bind_Ok in E as (b & s3 & _ & E). apply act_bind_Ok in E as ([] & s4 & _ & E).
  apply act_bind_Ok in E as (v & s5 & Ev & _). unfold lift_act in Ev. rewrite Hv in Ev. done.
Qed.

(** So is the request that carries it, whatever else is wrong with it. *)
Lemma step_up_verify_refused h d d' asked s s1 r w (response : Response) e now :
  serve hashToken config h step_up_options d asked s = (Ok r, s1) ->
  (findWebAuthnByCredentialId (response_id response) s1).1 = Ok (Some w) ->
  verifyAuthenticationResponse response (dr_challenge d) w true = Throw e ->
  is_ok (serve hashToken config h (step_up_verify (dr_ceremonyId d) response) d' now s1).1 = false.
Proof.
  intros Hopt Hf Hv. destruct (serve _ _ _ (step_up_verify _ _) _ _ s1) as [[r'|e'] s'] eqn:E; [exfalso|done].
  unfold serve, signed_in in Hopt, E.
  apply act_bind_Ok in Hopt as ([] & s2 & _ & Hopt). apply act_bind_Ok in Hopt as (t & s3 & _ & Hopt).
  apply act_bind_Ok in Hopt as ([] & s4 & [= <-] & [= _ Hs1]).
  apply act_bind_Ok in E as ([] & s5 & Hc & E). assert (s5 = s1) as -> by (eapply (frame_of id); [|exact Hc]; frames).
  apply act_bind_Ok in E as (t' & s6 & Hg & E).
  pose proof (sessionGuard_Ok hashToken config (mkServed (mkRequest h (step_up_options (Response := Response)) d now) s (Ok (mkReply None None))) _ _ _ _ Hg)
    as (_ & _ & _ & _ & _ & _ & _ & Hcr & Hce). simpl in Hce.
  apply act_bind_Ok in E as ([] & s7 & E & _). apply act_bind_Ok in E as (n & s8 & E & _).
  pose proof (stepup_refused (dr_ceremonyId d) response t' s6 (mkCeremony stepup (dr_challenge d) (Some (se_userId t)) None None)
    (asked + cf_ceremonyTtl config * 1000) w e now) as Hno. rewrite E in Hno. simpl in Hno.
  discriminate Hno; [|done| |done].
  - rewrite Hce, <- Hs1. apply jget_jset_eq.
  - by rewrite (findWebAuthn_ext _ _ _ Hcr).
Qed.
End StepUp.

(** ** Properties: step-up *)

(** C14: A step-up does not need the user verification it is said to demand. Take a response of a
    credential of the signed-in user, whose counter raises no suspicion of a clone, on which
    the library throws where user verification is required, and that it accepts where it is
    not. Under the options of a step-up it is refused, at any time. But ask for the options of
    a sign-in instead, with the same challenge, and give the same response to the step-up
    endpoint under the sign-in's ceremony id before that expires: the endpoint does not compare
    the ceremony's kind, so the session is stamped, and passes every check for a recent
    step-up. *)
Theorem stepup_without_verification {Response} `{Library Response} `{TotpLibrary} hashToken config h d d' s s1 s2 t stored
    (response : Response) count required asked now :
  serve hashToken config h login_options d asked s = (Ok (mkReply None None), s1) ->
  sessionGuard hashToken config h now s1 = (Ok t, s2) -> now < asked + cf_ceremonyTtl config * 1000 ->
  findWebAuthnByCredentialId (response_id response) s2 = (Ok (Some stored), s2) -> wa_userId stored = se_userId t ->
  verifyAuthenticationResponse response (dr_challenge d) stored false = Ok (Some count) ->
  verifyAuthenticationResponse response (dr_challenge d) stored true = Throw required ->
  detectClone (wa_signCount stored) count = false ->
  (forall r u1 later, serve hashToken config h step_up_options d asked s = (Ok r, u1) ->
     is_ok (serve hashToken config h (step_up_verify (dr_ceremonyId d) response) d' later u1).1 = false) /\
  exists s3 t', serve hashToken config h (step_up_verify (dr_ceremonyId d) response) d' now s1 = (Ok (done_for (se_userId t)), s3) /\
    t' ∈ sessions s3 /\ se_id t' = se_id t /\ forall maxAge, 0 <= maxAge -> requireStepUp t' maxAge now = Ok tt.
Proof.
  intros Hopt Hg Hex Hf Hu Hv Hreq Hd. assert (Hcs : credentials s2 = credentials s).
  { transitivity (credentials s1).
    - by pose proof (sessionGuard_Ok hashToken config (mkServed (mkRequest h (login_options (Response := Response)) d now) s (Ok (mkReply None None))) _ _ _ _ Hg)
        as (_ & _ & _ & _ & _ & _ & _ & Hcr & _).
    - eapply (frame_of credentials); [|exact Hopt]. unfold serve. frames. }
  split.
  { intros r u1 later Hu1. eapply step_up_verify_refused; [exact Hu1| |exact Hreq].
    assert (Hcu : credentials u1 = credentials s) by (eapply (frame_of credentials); [|exact Hu1]; unfold serve, signed_in; frames).
    rewrite (findWebAuthn_ext _ s2) by congruence. by rewrite Hf. }
  unfold serve in Hopt. apply act_bind_Ok in Hopt as ([] & s0 & Hc & Hopt).
  assert (s0 = s) as -> by (eapply (frame_of id); [|exact Hc]; frames). apply act_bind_Ok in Hopt as ([] & s0 & [= <-] & [= <-]).
  set (s1 := set_ceremonies _ s) in *.
  pose proof (sessionGuard_Ok hashToken config (mkServed (mkRequest h (login_options (Response := Response)) d now) s (Ok (mkReply None None))) _ _ _ _ Hg)
    as (token & t0 & _ & -> & (_ & _ & Hrev & _) & Ht & _ & Hcr & Hce). cbn [sv_request rq_now] in *.
  destruct (stepup_finish_run (dr_ceremonyId d) response (seen now t0) s2 (mkCeremony authentication (dr_challenge d) None None None)
              (asked + cf_ceremonyTtl config * 1000) stored count now) as (s3 & E3 & Hin); try done.
  { rewrite Hce. simpl. apply jget_jset_eq. }
  exists s3, (stepped now (seen now t0)). split; [|split; [done|split; [done|]]].
  - unfold serve, signed_in. rewrite (bind_run _ _ _ tt s1).
    2: { unfold csrfGuard in *. by destruct (checkCsrf _ _ _ _). }
    rewrite (bind_run _ _ _ _ _ Hg). by rewrite (bind_run _ _ _ tt s3) by (by rewrite (bind_run _ _ _ _ _ E3)).
  - intros maxAge Hm. unfold requireStepUp. simpl. rewrite Hrev. simpl. apply throw_if_Ok. destruct (Z.gtb_spec (now - now) (maxAge * 1000)); [lia|done].
Qed.

(** ** Lemmas: one passkey for each account *)

Section OnePasskey.
Context {Response : Type} `{Library Response} `{TotpLibrary} (hashToken : string -> string) (config : Config).

(** Ceremonies of registration are nobody's, every account has one way in, and none is revoked. *)
Record one_each (s : AuthState) : Prop := {
  oe_ceremonies : forall k ce ex, (k, (ce, ex)) ∈ ceremonies s -> ce_kind ce = registration -> ce_userId ce = None;
  oe_one : forall u, u ∈ users s -> length (factors (us_id u) s) = 1%nat;
  oe_kept : forall c, c ∈ credentials s -> cd_type c <> totp -> cd_revokedAt c = None /\ has_user (cd_userId c) s = true;
  oe_ids : NoDup (map cd_id (credentials s))
}.

Definition accounts (s : AuthState) := (users s, credentials s, ceremonies s).

Class KeepsOne {A} (m : act A) : Prop := keeps_one : forall s, one_each s -> one_each (m s).2.

Lemma one_same s s' : accounts s' = accounts s -> one_each s -> one_each s'.
Proof. unfold accounts. intros [= Hu Hc He] [Ha Hb Hk Hd]. split; unfold factors, has_user in *; rewrite ?Hu, ?Hc, ?He; done. Qed.

Lemma one_frame {A} (m : act A) : Frame accounts m -> KeepsOne m.
Proof. intros Hf s. apply one_same. by rewrite (Hf s). Qed.

Lemma one_bind {A B} (m : act A) (k : A -> act B) : KeepsOne m -> (forall a, KeepsOne (k a)) -> KeepsOne (m ≫= k).
Proof.
  intros Hm Hk s Hs. unfold mbind, act_bind. specialize (Hm s Hs). destruct (m s) as [[a|e] s1]; simpl in *; [|done]. by apply Hk.
Qed.

Lemma one_rescue {A} (m : act A) h : KeepsOne m -> (forall e, KeepsOne (h e)) -> KeepsOne (rescue m h).
Proof. intros Hm Hh s Hs. unfold rescue. specialize (Hm s Hs). destruct (m s) as [[a|e] s1]; simpl in *; [done|]. by apply Hh. Qed.

Lemma one_committed {A} (m : act A) : KeepsOne m -> KeepsOne (committed m).
Proof. intros Hm s Hs. unfold committed. specialize (Hm s Hs). by destruct (m s) as [[a|e] s1]. Qed.

Lemma one_without c s : one_each s -> one_each (without c s).
Proof. intros [Ha Hb Hk Hd]. split; [|done..]. intros k ce ex [_ Hin]%list_elem_of_filter. by eapply Ha. Qed.

Lemma one_consume c now : KeepsOne (consume_ceremony c now).
Proof. intros s Hs. by apply one_without. Qed.

Lemma jset_elem {V} k v (m : list (string * V)) x : x ∈ jset k v m -> x = (k, v) \/ x ∈ m.
Proof.
  induction m as [|[k' v'] m IH]; simpl; [set_solver|]. destruct (decide (k = k')) as [->|]; set_solver.
Qed.

Lemma one_put ttl k ce now : (ce_kind ce = registration -> ce_userId ce = None) -> KeepsOne (put_ceremony ttl k ce now).
Proof.
  intros Hce s [Ha Hb Hk Hd]. split; [|done..]. simpl. intros k' ce' ex [[= -> -> ->]|Hin]%jset_elem; [done|by eapply Ha].
Qed.

(** A change of rows that none of this is about. *)
Lemma one_map f s :
  (forall c, cd_id (f c) = cd_id c /\ cd_userId (f c) = cd_userId c /\ cd_type (f c) = cd_type c) ->
  (forall c, c ∈ credentials s -> cd_type c <> totp -> cd_revokedAt (f c) = cd_revokedAt c) ->
  one_each s -> one_each (set_credentials (map f (credentials s)) s).
Proof.
  intros Hid Hrev [Ha Hb Hk Hd].
  assert (Hfac : forall u, length (factors u (set_credentials (map f (credentials s)) s)) = length (factors u s)).
  { intros u. unfold factors. simpl. clear - Hid Hrev. induction (credentials s) as [|c cs IH]; [done|]. simpl. rewrite !filter_cons.
    assert (Hc : is_factor u (f c) = is_factor u c).
    { unfold is_factor. destruct (Hid c) as (_ & -> & ->). destruct (decide (cd_type c = totp)) as [->|Hn]; [by rewrite !andb_false_r|].
      by rewrite Hrev by set_solver. }
    rewrite Hc. specialize (IH ltac:(intros; apply Hrev; set_solver)). case_decide; simpl; congruence. }
  split; [done|..].
  - intros u Hu. rewrite Hfac. by apply Hb.
  - intros c (c0 & -> & Hc0)%list_elem_of_fmap. destruct (Hid c0) as (_ & -> & ->). intros Ht. rewrite Hrev by done. by apply Hk.
  - simpl. rewrite map_map, (map_ext _ cd_id); [done|]. intros c. apply Hid.
Qed.

Lemma one_update_credential i f :
  (forall c, cd_id (f c) = cd_id c /\ cd_userId (f c) = cd_userId c /\ cd_type (f c) = cd_type c /\ cd_revokedAt (f c) = cd_revokedAt c) ->
  KeepsOne (update_credential i f).
Proof.
  intros Hf s Hs. unfold update_credential, here, mbind, act_bind, unless. destruct (existsb _ _); [|done]. simpl.
  apply one_map; [| |done].
  - intros c. destruct (Hf c) as (? & ? & ? & _). by destruct (bool_decide _).
  - intros c _ _. destruct (Hf c) as (_ & _ & _ & ?). by destruct (bool_decide _).
Qed.

Lemma one_recordUse i n now : KeepsOne (recordUse i n now).
Proof. by apply one_update_credential. Qed.

Lemma one_confirmTotp i now : KeepsOne (confirmTotp i now).
Proof. by apply one_update_credential. Qed.

Lemma one_revoke_totp i u now s :
  (forall c, c ∈ credentials s -> cd_id c = i -> cd_type c = totp) -> one_each s -> one_each (revokeCredentialRow i u now s).2.
Proof.
  intros Ht Hs. apply one_map; [| |done].
  - intros c. by destruct (revocable i u c).
  - intros c Hc Hn. destruct (revocable i u c) eqn:Er; [|done]. unfold revocable in Er. zbool. by destruct (Hn (Ht c Hc ltac:(done))).
Qed.

Lemma factors_app u cs s : factors u (set_credentials cs s) = filter (fun c => is_factor u c = true) cs.
Proof. done. Qed.

Lemma createCredential_Ok row s u s' : createCredential row s = (Ok u, s') ->
  s' = set_credentials (credentials s ++ [row]) s /\ has_user (cd_userId row) s = true /\ cd_id row ∉ map cd_id (credentials s).
Proof.
  unfold createCredential. rewrite act_bind_Ok. intros (s0 & s1 & [= <- <-] & E). apply act_bind_Ok in E as ([] & s0 & [Hu ->]%unless_Ok & E).
  apply act_bind_Ok in E as ([] & s0 & [Hx ->]%unless_Ok & [= _ <-]). split; [done|]. split; [done|].
  intros (c & E & Hc)%list_elem_of_fmap. apply negb_true_iff in Hx. rewrite existsb_none in Hx. specialize (Hx c Hc). simpl in Hx.
  by rewrite (bool_decide_eq_true_2 (cd_id c = cd_id row)) in Hx.
Qed.

Lemma nodup_snoc_id row cs : NoDup (map cd_id cs) -> cd_id row ∉ map cd_id cs -> NoDup (map cd_id (cs ++ [row])).
Proof. intros Hn Hr. rewrite map_app. apply NoDup_app. split; [done|]. split; [|apply NoDup_singleton]. intros x Hx Hin. set_solver. Qed.

Lemma one_createTotp i u e : KeepsOne (createTotp i u e).
Proof.
  intros s Hs. unfold createTotp. destruct (createCredential _ s) as [[[]|er] s'] eqn:E.
  - apply createCredential_Ok in E as (-> & _ & Hn). destruct Hs as [Ha Hb Hk Hd]. split; [done|..].
    + intros u' Hu'. simpl. rewrite factors_app, filter_app, filter_cons_False by (unfold is_factor; simpl; by rewrite andb_false_r).
      rewrite app_nil_r. by apply Hb.
    + simpl. intros c [Hc|Hc]%elem_of_app; [by apply Hk|]. by apply list_elem_of_singleton in Hc as ->.
    + by apply nodup_snoc_id.
  - apply (one_same s); [|done]. simpl. pose proof (frame_of accounts (createCredential (mkCredential i u totp None None None None None (Some e) None)) s) as Hf.
    unfold createCredential, here, mbind, act_bind, unless, fails in E. destruct (has_user _ s); [|by injection E as <- <-].
    destruct (negb _); [done|by injection E as <- <-].
Qed.

Lemma one_update_user i e n : KeepsOne (updateUserRow i e n).
Proof.
  intros s Hs. unfold updateUserRow, here, mbind, act_bind. destruct (head _) as [user|] eqn:Eh; [|done]. unfold unless. destruct (negb _); [|done]. simpl.
  apply head_Some_elem_of, list_elem_of_filter in Eh as [Ei _].
  set (f := fun u : UserRecord => if bool_decide (us_id u = i) then mkUser i (or_given e (us_email user)) (or_given n (us_displayName user)) (us_status user) else u).
  assert (Hf : forall u, us_id (f u) = us_id u) by (intros u; unfold f; case_bool_decide; [done|done]).
  assert (Hhas : forall u, has_user u (set_users (map f (users s)) s) = has_user u s).
  { intros u. unfold has_user. simpl. clear - Hf. induction (users s) as [|x xs IH]; [done|]. simpl. by rewrite Hf, IH. }
  destruct Hs as [Ha Hb Hk Hd]. split; [done|..|done].
  - intros u (u0 & -> & Hu0)%list_elem_of_fmap. rewrite Hf. by apply Hb.
  - intros c Hc Ht. destruct (Hk c Hc Ht) as [? Hu]. split; [done|]. by rewrite Hhas.
Qed.

Lemma createUser_Ok i e n s u s' : createUser i e n s = (Ok u, s') ->
  u = mkUser i e n user_active /\ s' = set_users (users s ++ [u]) s /\ has_user i s = false.
Proof.
  unfold createUser. rewrite act_bind_Ok. intros (s0 & s1 & [= <- <-] & E). cbv zeta in E.
  apply act_bind_Ok in E as ([] & s0 & [Hb ->]%unless_Ok & E). apply act_bind_Ok in E as ([] & s0 & [= <-] & [= <- <-]). split; [done|]. split; [done|].
  apply negb_true_iff in Hb. rewrite existsb_none in Hb. apply existsb_none. intros x Hx. simpl. specialize (Hb x Hx). by apply orb_false_iff in Hb as [? _].
Qed.

(** What a registration writes: one user and the credential. *)
Lemma registration_tx_Ok d o s u s' : registration_tx d None o s = (Ok u, s') ->
  exists user row, us_id user = u /\ has_user u s = false /\ cd_userId row = u /\ cd_type row = webauthn /\ cd_revokedAt row = None /\
    (cd_id row ∉ map cd_id (credentials s)) /\ accounts s' = (users s ++ [user], credentials s ++ [row], ceremonies s).
Proof.
  unfold registration_tx. rewrite act_bind_Ok. intros (u' & s1 & E & E').
  apply act_bind_Ok in E as ([] & s2 & E0 & E). assert (s2 = s) as ->.
  { destruct (ro_pendingEmail o); [|by injection E0]. apply act_bind_Ok in E0 as (? & ? & [= <- <-] & [_ ->]%unless_Ok). done. }
  apply act_bind_Ok in E as (user & s2 & (-> & -> & Hno)%createUser_Ok & E). apply act_bind_Ok in E as ([] & s3 & [= <-] & [= <- <-]).
  apply act_bind_Ok in E' as ([] & s4 & Ec & E'). unfold createWebAuthn in Ec. apply createCredential_Ok in Ec as (-> & _ & Hid).
  apply act_bind_Ok in E' as ([] & s5 & [= <-] & [= <- <-]). 
  exists (mkUser (dr_userId d) (ro_pendingEmail o) (ro_pendingDisplayName o) user_active). eexists.
  split_and!; [reflexivity|exact Hno| | | |exact Hid|reflexivity]; reflexivity.
Qed.

Lemma one_registration_tx d o s u s' : registration_tx d None o s = (Ok u, s') -> one_each s -> one_each s'.
Proof.
  intros (user & row & Hu & Hno & Hru & Hrt & Hrr & Hid & [= Eu Ec Ee])%registration_tx_Ok [Ha Hb Hk Hd].
  assert (Hfac : forall v, factors v s' = factors v s ++ (if bool_decide (v = u) then [row] else [])).
  { intros v. unfold factors. rewrite Ec, filter_app, filter_cons, filter_nil. f_equal. unfold is_factor. rewrite Hru, Hrt, Hrr.
    repeat case_bool_decide; try case_decide; naive_solver. }
  split.
  - intros k ce ex. rewrite Ee. apply Ha.
  - intros v. rewrite Eu, Hfac, length_app. intros [Hv|Hv]%elem_of_app.
    + rewrite Hb by done. rewrite bool_decide_eq_false_2; [done|]. intros E. unfold has_user in Hno. rewrite existsb_none in Hno.
      specialize (Hno v Hv). by rewrite bool_decide_eq_true_2 in Hno.
    + apply list_elem_of_singleton in Hv as ->. rewrite Hu, bool_decide_eq_true_2 by done. simpl.
      replace (factors u s) with (@nil Credential); [done|]. symmetry. apply filter_none. intros c Hc Hf. unfold is_factor in Hf. zbool.
      destruct (Hk c Hc) as [_ Hh]; [done|]. congruence.
  - intros c. rewrite Ec. unfold has_user. rewrite Eu, existsb_app. intros [Hc|Hc]%elem_of_app Ht.
    + destruct (Hk c Hc Ht) as [? Hh]. unfold has_user in Hh. by rewrite Hh.
    + apply list_elem_of_singleton in Hc as ->. split; [done|]. rewrite Hru. simpl. rewrite bool_decide_eq_true_2 by done. by rewrite orb_true_r.
  - rewrite Ec. by apply nodup_snoc_id.
Qed.

Lemma finishRegistration_new c (response : Response) now s o s' :
  one_each s -> finishRegistration c response now s = (Ok o, s') -> ro_userId o = None /\ one_each s'.
Proof.
  intros Hs (-> & ce & (ex & Hj & _) & Hk & _ & Ho)%finishRegistration_Ok. split; [|by apply one_without].
  rewrite Ho. eapply (oe_ceremonies s Hs c); [|done]. clear - Hj. induction (ceremonies s) as [|[k v] m IH]; [done|]. simpl in Hj.
  destruct (decide (c = k)) as [->|]; [injection Hj as ->; by left|right; by apply IH].
Qed.

Lemma one_finishRegistration c (response : Response) now : KeepsOne (finishRegistration c response now).
Proof. apply one_bind; [apply one_consume|intros ce; apply one_frame; frames]. Qed.

Lemma one_registration_finish d c (response : Response) now : KeepsOne (registration_finish hashToken config d c response None None now).
Proof.
  intros s Hs. unfold registration_finish. unfold mbind at 1, act_bind at 1. destruct (finishRegistration c response now s) as [[o|er] s1] eqn:E.
  2: { pose proof (one_finishRegistration c response now s Hs) as Hk. by rewrite E in Hk. }
  apply finishRegistration_new in E as [Ho Hs1]; [|done]. rewrite Ho. unfold committed, mbind at 1, act_bind at 1.
  destruct (registration_tx d None o s1) as [[u|er] s2] eqn:Et; [|done]. apply one_registration_tx in Et; [|done].
  revert s2 Et. change (KeepsOne (_ ← issue_session hashToken config d u now; mret (u, Some (dr_token d)))). apply one_frame. frames.
Qed.

Lemma one_finishAuthentication c (response : Response) u now :
  KeepsOne (finishAuthentication c response (own_credential u) now) /\ KeepsOne (finishAuthentication c response findWebAuthnByCredentialId now).
Proof. split; (apply one_bind; [apply one_consume|intros ce; apply one_frame; frames]). Qed.

Lemma one_login_finish d c (response : Response) now : KeepsOne (login_finish hashToken config d c response now).
Proof.
  unfold login_finish. apply one_bind; [apply one_rescue; [by apply (one_finishAuthentication _ _ "")|intros; apply one_frame; frames]|].
  intros o. apply one_bind; [apply one_frame; frames|]. intros [w|]; [|apply one_frame; frames]. apply one_bind; [apply one_frame; frames|].
  intros [u|]; [|apply one_frame; frames]. apply one_bind; [apply one_frame; frames|]. intros _. apply one_bind; [apply one_recordUse|].
  intros _. apply one_frame. frames.
Qed.

Lemma one_stepup_finish c (response : Response) t now : KeepsOne (stepup_finish c response t now).
Proof.
  unfold stepup_finish. apply one_bind; [apply one_rescue; [by apply one_finishAuthentication|intros; apply one_frame; frames]|].
  intros o. apply one_bind; [apply one_frame; frames|]. intros w. apply one_bind; [|intros; apply one_frame; frames].
  destruct w; [apply one_recordUse|apply one_frame; frames].
Qed.

Lemma one_totp_confirm d u i code kept now : KeepsOne (totp_confirm d u i code (Some kept) now).
Proof.
  unfold totp_confirm. apply one_bind; [apply one_frame; frames|]. intros p. destruct (_ ≫= _); [|apply one_frame; frames].
  apply one_bind; [apply one_frame; frames|]. intros secret. apply one_bind; [apply one_frame; frames|]. intros _.
  apply one_bind; [apply one_committed, one_bind; [apply one_confirmTotp|intros; apply one_frame; frames]|intros; apply one_frame; frames].
Qed.

Lemma one_totp_disable u now : KeepsOne (totp_disable u now).
Proof.
  intros s Hs. unfold totp_disable, findConfirmedTotp, look. unfold mbind at 1, act_bind at 1. destruct (head _) as [row|] eqn:Eh; [|done].
  apply head_Some_elem_of, list_elem_of_filter in Eh as [(_ & Ht & _) Hrow].
  unfold committed, mbind at 1, act_bind at 1. destruct (revokeCredentialRow (cd_id row) u now s) as [[b|er] s1] eqn:Er; [|done].
  assert (Hs1 : one_each s1).
  { change s1 with (Ok b, s1).2. rewrite <- Er. apply one_revoke_totp; [|done]. intros c Hc Hid. assert (c = row) as ->; [|done].
    destruct Hs as [_ _ _ Hd]. by eapply (unique_by cd_id). }
  apply (one_same s1); [|done]. done.
Qed.

(** An account's only way in is never revoked. *)
Lemma revokeCredential_refused s u c row now :
  one_each s -> row ∈ credentials s -> cd_id row = c -> cd_type row <> totp -> exists e, revokeCredential u c now s = (Throw e, s).
Proof.
  intros [_ Hb Hk Hd] Hrow Hid Ht. unfold revokeCredential, findCredentialById, look, committed. unfold mbind at 1, act_bind at 1.
  destruct (head _) as [row'|] eqn:Eh; [|by eexists]. apply head_Some_elem_of, list_elem_of_filter in Eh as [Hid' Hrow'].
  assert (row' = row) as -> by (eapply (unique_by cd_id); [exact Hd|done..|congruence]).
  unfold mbind at 1, act_bind at 1, unless at 1. case_bool_decide as Hu; [|by eexists]. cbn [mret act_ret].
  rewrite (bool_decide_eq_false_2 (cd_type row = totp)) by done. destruct (Hk row Hrow Ht) as [_ Hh]. rewrite Hu in Hh.
  apply existsb_exists in Hh as (x & Hx%list_elem_of_In & Hxid). zbool. specialize (Hb x Hx). rewrite Hxid in Hb.
  unfold mbind at 1, act_bind at 1, mbind at 1, act_bind at 1, countActiveAuthFactors, look. rewrite Hb. by eexists.
Qed.

Lemma one_revokeCredential u c now : KeepsOne (revokeCredential u c now).
Proof.
  intros s Hs. destruct (decide (Exists (fun row => cd_id row = c /\ cd_type row <> totp) (credentials s))) as [(row & Hrow & Hid & Ht)%Exists_exists|Hno].
  - by destruct (revokeCredential_refused s u c row now Hs Hrow Hid Ht) as [e ->].
  - assert (Htotp : forall row, row ∈ credentials s -> cd_id row = c -> cd_type row = totp).
    { intros row Hrow Hid. destruct (decide (cd_type row = totp)) as [|Hn]; [done|]. destruct Hno. apply Exists_exists. by exists row. }
    unfold revokeCredential, committed, findCredentialById, look. unfold mbind at 1, act_bind at 1. destruct (head _) as [row|]; [|done].
    match goal with |- one_each (match ?m with _ => _ end).2 => destruct m as [[a|er] s'] eqn:E; [|done] end.
    apply act_bind_Ok in E as ([] & s1 & [_ ->]%unless_Ok & E). apply act_bind_Ok in E as ([] & s1 & E1 & E).
    assert (s1 = s) as -> by (destruct (bool_decide _); [by injection E1|apply act_bind_Ok in E1 as (? & ? & [= <- <-] & [_ ->]%unless_Ok); done]).
    clear E1. apply act_bind_Ok in E as (b & s1 & Er & E). apply act_bind_Ok in E as ([] & s2 & [_ ->]%unless_Ok & [= _ <-]).
    apply (one_same s1); [done|]. change s1 with (Ok b, s1).2. rewrite <- Er. by apply one_revoke_totp.
Qed.

Lemma one_updateUser u e n : KeepsOne (updateUser u e n).
Proof.
  unfold updateUser. apply one_bind; [apply one_frame; frames|]. intros _. apply one_bind; [apply one_update_user|]. intros; apply one_frame; frames.
Qed.

Lemma one_signed_in h now handler : (forall t, KeepsOne (handler t)) -> KeepsOne (signed_in hashToken config h now handler).
Proof.
  intros Hk. apply one_bind; [apply one_frame; frames|]. intros _. apply one_bind; [apply one_frame; frames|]. intros t.
  apply one_bind; [apply Hk|]. intros _. apply one_frame. frames.
Qed.

Lemma one_answer (r : Request (Response := Response)) : KeepsOne (answer hashToken config r).
Proof.
  change (KeepsOne (serve hashToken config (rq_headers r) (rq_body r) (rq_draws r) (rq_now r))). unfold serve.
  destruct (rq_body r); try (apply one_frame; solve [frames]); try (apply one_signed_in; intros t).
  - apply one_bind; [apply one_frame; frames|]. intros _. apply one_bind; [by apply one_put|]. intros _. apply one_frame. frames.
  - apply one_bind; [apply one_frame; frames|]. intros _. apply one_bind; [apply one_registration_finish|]. intros [? ?]. apply one_frame. frames.
  - apply one_bind; [apply one_frame; frames|]. intros _. apply one_bind; [by apply one_put|]. intros _. apply one_frame. frames.
  - apply one_bind; [apply one_frame; frames|]. intros _. apply one_bind; [apply one_login_finish|]. intros [? ?]. apply one_frame. frames.
  - apply one_frame. frames.
  - by apply one_put.
  - apply one_bind; [apply one_stepup_finish|intros; apply one_frame; frames].
  - apply one_bind; [apply one_frame; frames|]. intros _. apply one_revokeCredential.
  - apply one_frame. frames.
  - apply one_bind; [apply one_frame; frames|]. intros _. apply one_bind; [|intros; apply one_frame; frames].
    apply one_bind; [apply one_createTotp|intros; apply one_frame; frames].
  - apply one_bind; [apply one_totp_confirm|intros; apply one_frame; frames].
  - apply one_bind; [apply one_frame; frames|]. intros _. apply one_totp_disable.
  - apply one_bind; [apply one_updateUser|intros; apply one_frame; frames].
Qed.

Lemma history_one_each trace s : History (Response := Response) hashToken config trace s -> one_each s.
Proof.
  induction 1 as [|trace s r Hh IH _]; [|by apply one_answer]. split; simpl; [..|constructor]; intros; set_solver.
Qed.
End OnePasskey.

(** ** Properties: accounts *)

(** An account keeps its first passkey, and only that, for ever. In every state that
    requests lead to, every user has exactly one way in. Registering while signed in does not
    add a passkey to the account, as the controller says and the web client offers: the routes
    of registration have no session guard, so the reply is about a user who was not there,
    with a token that replaces the session. And since the last way in is protected, no request
    ever revokes a passkey. *)
Theorem passkeys_are_for_ever {Response} `{Library Response} `{TotpLibrary} hashToken config (trace : list (Served (Response := Response))) s :
  History hashToken config trace s ->
  (forall u, u ∈ users s -> length (factors (us_id u) s) = 1%nat) /\
  (forall h c (response : Response) d now reply s', serve hashToken config h (register_verify c response) d now s = (Ok reply, s') ->
     exists u, rp_userId reply = Some u /\ has_user u s = false /\ rp_token reply = Some (dr_token d)) /\
  (forall h row d now, row ∈ credentials s -> cd_type row <> totp ->
     exists e s', serve hashToken config h (delete_credential (cd_id row)) d now s = (Throw e, s') /\ credentials s' = credentials s).
Proof.
  intros Hh. pose proof (history_one_each _ _ _ _ Hh) as Hs. split; [apply Hs|]. split.
  - intros h c response d now reply s' E. unfold serve in E. apply act_bind_Ok in E as ([] & s1 & Eg & E).
    assert (s1 = s) as -> by (eapply (frame_of id); [|exact Eg]; frames). apply act_bind_Ok in E as ([u tok] & s1 & E & [= <- _]).
    unfold registration_finish in E. apply act_bind_Ok in E as (o & s2 & E1 & E).
    pose proof (finishRegistration_Ok _ _ _ _ _ _ E1) as (-> & _). apply finishRegistration_new in E1 as [Ho _]; [|done]. rewrite Ho in E.
    apply act_bind_Ok in E as (u' & s2 & Et & E). apply act_bind_Ok in E as (t & s3 & _ & [= -> <- _]).
    unfold committed in Et. destruct (registration_tx d None o _) as [[u''|er] s4] eqn:Er; [|done]. injection Et as -> _.
    apply registration_tx_new in Er. by exists u.
  - intros h row d now Hrow Ht. unfold serve, signed_in. destruct (csrfGuard config h s) as [[[]|e] s1] eqn:Eg;
      assert (s1 = s) as -> by (eapply (frame_of id); [|exact Eg]; frames); [rewrite (bind_run _ _ _ _ _ Eg)|].
    2: { exists e, s. unfold mbind, act_bind. by rewrite Eg. }
    destruct (sessionGuard hashToken config h now s) as [[t|e] s1] eqn:Es.
    2: { exists e, s1. unfold mbind, act_bind. rewrite Es. split; [done|]. eapply (frame_of credentials); [|exact Es]. frames. }
    rewrite (bind_run _ _ _ _ _ Es). assert (Hs1 : one_each s1).
    { apply (one_same s); [|done]. eapply (frame_of accounts); [|exact Es]. frames. }
    assert (Hc1 : credentials s1 = credentials s) by (eapply (frame_of credentials); [|exact Es]; frames).
    destruct (revokeCredential_refused s1 (se_userId t) (cd_id row) row now Hs1 ltac:(by rewrite Hc1) eq_refl Ht) as [e Ee].
    unfold mbind, act_bind, stepUpGuard, lift_act. destruct (requireStepUp _ _ _) as [[]|e']; [rewrite Ee|]; by eexists _, s1.
Qed.

(** The last way in is protected, however many a user has: removing a credential never leaves
    a user who could sign in without a way to. *)
Theorem last_factor_kept s u c now s' v :
  NoDup (map cd_id (credentials s)) -> revokeCredential u c now s = (Ok tt, s') -> factors v s <> [] -> factors v s' <> [].
Proof.
  intros Hd E Hv Hnone. unfold revokeCredential, committed in E.
  match type of E with match ?m with _ => _ end = _ => destruct m as [[[]|er] s1] eqn:Em; [injection E as <-|done] end. rename Em into E.
  apply act_bind_Ok in E as (orow & s2 & [= Erow <-] & E). destruct orow as [row|]; [|done].
  apply head_Some_elem_of, list_elem_of_filter in Erow as [Hid Hrow].
  apply act_bind_Ok in E as ([] & s2 & [Hu ->]%unless_Ok & E). zbool. apply act_bind_Ok in E as ([] & s2 & Ec & E).
  apply act_bind_Ok in E as (b & s3 & Er & E). apply act_bind_Ok in E as ([] & s4 & [_ ->]%unless_Ok & [= <-]).
  assert (s2 = s /\ (cd_type row = totp \/ (2 <= length (factors u s))%nat)) as [-> Hcase].
  { case_bool_decide; [injection Ec as <-; tauto|]. apply act_bind_Ok in Ec as (n & s5 & [= <- <-] & [Hn ->]%unless_Ok). split; [done|]. right. zbool. lia. }
  assert (Hcs : credentials s3 = map (fun x => if revocable c u x then revoked now x else x) (credentials s)).
  { unfold revokeCredentialRow in Er. apply act_bind_Ok in Er as (s5 & s6 & [= <- <-] & Er). by apply act_bind_Ok in Er as ([] & s5 & [= <-] & [= _ <-]). }
  assert (Hall : forall x, x ∈ factors v s -> x = row).
  { intros x [Hx Hin]%list_elem_of_filter. destruct (decide (cd_id x = c)) as [Hxc|Hxc]; [by eapply (unique_by cd_id); [exact Hd|done..|congruence]|].
    assert (Hmem : x ∈ factors v (set_audits (audits s3 ++ [mkAudit (Some u) "credential.revoked" (Some c)]) s3)); [|rewrite Hnone in Hmem; set_solver].
    apply list_elem_of_filter. split; [done|]. simpl. rewrite Hcs. apply list_elem_of_fmap. exists x. split; [|done].
    unfold revocable. by rewrite (bool_decide_eq_false_2 (cd_id x = c)). }
  assert (Hrow' : row ∈ factors v s).
  { destruct (factors v s) as [|x xs] eqn:Ef; [done|]. rewrite (Hall x) by by left. by left. }
  apply list_elem_of_filter in Hrow' as [Hf _]. unfold is_factor in Hf. zbool. destruct Hcase as [Ht|Hlen]; [congruence|].
  assert (u = v) as -> by congruence. assert (Hnd : NoDup (factors v s)) by (apply NoDup_filter; by eapply NoDup_fmap_1).
  destruct (factors v s) as [|x [|y xs]]; simpl in Hlen; [lia..|]. rewrite (Hall x), (Hall y) in Hnd by set_solver.
  apply NoDup_cons in Hnd as [Hn _]. set_solver.
Qed.

(** A withdrawal is let through on an assertion no older than the strict age, unless its amount
    is a number below the threshold known for its asset. *)
Theorem withdrawal_tiers config session amount asset now s s' :
  withdrawalStepUpGuard config session amount asset now s = (Ok tt, s') ->
  s' = s /\ exists at_, se_stepUpAt session = Some at_ /\
    (now <= at_ + cf_strictMaxAge config * 1000 \/
     exists a k threshold, amount = Some a /\ asset = Some k /\ cf_reviewThreshold config k = Some threshold /\
       forallb is_digit (text_of a) = true /\ digits_value (text_of a) < threshold /\
       now <= at_ + stepUpMaxAgeSeconds (cf_policy config) * 1000).
Proof.
  unfold withdrawalStepUpGuard, lift_act. intros [= Hreq <-]. split; [done|]. unfold requireStepUp in Hreq.
  destruct (negb _); [done|]. destruct (se_stepUpAt session) as [at_|]; [|done]. exists at_. split; [done|]. apply throw_if_Ok in Hreq.
  rewrite Z.gtb_ltb in Hreq. zbool. destruct (is_large config amount asset) eqn:El; [left; lia|right]. unfold is_large in El.
  destruct amount as [a|], asset as [k|]; try done. destruct (_ && _) eqn:Ed; [|done]. zbool.
  destruct (cf_reviewThreshold config k) as [threshold|] eqn:Et; [|done]. exists a, k, threshold. rewrite Z.geb_leb in El. zbool. split_and!; [done..|lia].
Qed.

(** A request that changes state is let through exactly when its browser names the configured
    origin and it is no direct navigation. *)
Theorem csrf_exact method origin secFetchSite expected :
  checkCsrf method origin secFetchSite expected = None <->
  method ∈ SAFE_METHODS \/ (secFetchSite <> Some "none" /\ origin = Some expected).
Proof.
  unfold checkCsrf. case_bool_decide as Hm; [tauto|]. case_bool_decide as Hn; [naive_solver|].
  destruct origin as [o|]; [case_bool_decide|]; naive_solver.
Qed.

(** ** Witnesses *)

(** Two authenticators are confirmed; turning the second factor off removes one of them. *)
Example second_totp_survives_disable :
  let cookie := Some "token2" in
  let (replies, s) := demo_run (demo_signup ++
    [demo_request cookie totp_start "3" 2000; demo_request cookie (totp_verify "row3" "secret3") "4" 3000;
     demo_request cookie totp_start "5" 4000; demo_request cookie (totp_verify "row5" "secret5") "6" 5000;
     demo_request cookie totp_delete "7" 6000]) no_accounts in
  Forall (fun r => is_ok r = true) replies /\ (fun c => cd_id c) <$> head (filter (fun c => cd_type c = totp /\ cd_revokedAt c = None) (credentials s)) = Some "row5" /\
  length (filter (fun c => cd_type c = totp /\ cd_revokedAt c = None /\ cd_totpConfirmedAt c <> None) (credentials s)) = 1%nat /\
  recoveryCodes s = [].
Proof. vm_compute. repeat constructor. Qed.

Lemma passkeys_are_for_ever_witness :
  length (users demo_s2) = 1%nat /\ forall u, u ∈ users demo_s2 -> length (factors (us_id u) demo_s2) = 1%nat.
Proof. split; [reflexivity|]. exact (proj1 (passkeys_are_for_ever demo_hash demo_config demo_trace demo_s2 demo_account_history)). Defined.

(** Signed in with the first passkey: the response of an unverified user. *)
Lemma stepup_without_verification_witness :
  let response := mkDemo "cred" "key" "challenge8" false 0 in
  exists s1 u1 s3 t', serve demo_hash demo_config (demo_headers (Some "token2")) login_options (draws_named "8") 7000 demo_s2 = (Ok (mkReply None None), s1) /\
    serve demo_hash demo_config (demo_headers (Some "token2")) step_up_options (draws_named "8") 7000 demo_s2 = (Ok (done_for "user2"), u1) /\
    is_ok (serve demo_hash demo_config (demo_headers (Some "token2")) (step_up_verify "ceremony8" response) (draws_named "9") 8000 u1).1 = false /\
    serve demo_hash demo_config (demo_headers (Some "token2")) (step_up_verify "ceremony8" response) (draws_named "9") 8000 s1 = (Ok (done_for "user2"), s3) /\
    t' ∈ sessions s3 /\ requireStepUp t' 0 8000 = Ok tt.
Proof.
  intros response. set (h := demo_headers (Some "token2")).
  destruct (serve demo_hash demo_config h login_options (draws_named "8") 7000 demo_s2) as [[reply|e] s1] eqn:E1; [|vm_compute in E1; discriminate].
  destruct (sessionGuard demo_hash demo_config h 8000 s1) as [[t|e] s2] eqn:E2; [|exfalso; vm_compute in E1; injection E1 as _ <-; vm_compute in E2; discriminate].
  assert (Hreply : reply = mkReply None None) by (vm_compute in E1; injection E1 as <- _; reflexivity). subst reply.
  assert (Hs1 : s1 = (serve demo_hash demo_config h login_options (draws_named "8") 7000 demo_s2).2) by (rewrite E1; reflexivity).
  assert (Hs2 : s2 = (sessionGuard demo_hash demo_config h 8000 s1).2) by (rewrite E2; reflexivity).
  assert (Hu : se_userId t = "user2") by (clear Hs2; rewrite Hs1 in E2; vm_compute in E2; injection E2 as <- _; reflexivity).
  destruct (stepup_without_verification demo_hash demo_config h (draws_named "8") (draws_named "9") demo_s2 s1 s2 t
              (mkWebAuthn "row2" "user2" "cred" "key" 0) response 0
              (GenericError "User verification required, but user could not be verified") 7000 8000 E1 E2)
    as (Hno & s3 & t' & H3 & Hin & _ & Hreq).
  - reflexivity.
  - rewrite Hs2, Hs1. vm_compute. reflexivity.
  - rewrite Hu. reflexivity.
  - reflexivity.
  - reflexivity.
  - reflexivity.
  - destruct (serve demo_hash demo_config h step_up_options (draws_named "8") 7000 demo_s2) as [r u1] eqn:Eu.
    assert (Hr : r = Ok (done_for "user2")) by (vm_compute in Eu; injection Eu as <- _; reflexivity). subst r.
    exists s1, u1, s3, t'. rewrite Hu in H3. split; [reflexivity|]. split; [reflexivity|].
    split; [exact (Hno _ u1 8000 eq_refl)|]. split; [exact H3|]. split; [exact Hin|]. apply Hreq. lia.
Defined.
