(* ===== verification/Provisioning.v ===== *)
(** * Deposit addresses: whose they are

    [apps/api/src/services/custody.service.ts] and the address part of
    [packages/db/src/repositories/custody.repository.ts]. A request is a sequence of steps, one
    for each statement, call or transaction, and the steps of any number of requests
    interleave. The deriver, the key coordinator and the validator are parameters; row ids
    are arguments. *)

From Stdlib Require Import ZArith Lia.
From stdpp Require Import base list sets strings relations.
From S2P Require Import Prelude Decimal Assets Ledger Postings Store Custody.

Open Scope string_scope.
Open Scope list_scope.
Open Scope Z_scope.

(** ** The tables *)

(** A row of [addresses]: what [Custody] keeps of it, its index and its path. *)
Record Issued := mkIssued { is_row : AddressRecord; is_index : Z; is_path : string }.

Record Tables := mkTables { tb_wallets : list WalletRecord; tb_issued : list Issued }.

Definition findWallet (userId chain : string) (t : Tables) : option WalletRecord :=
  head (filter (fun w => wl_user w = userId /\ wl_chain w = chain) (tb_wallets t)).

(** The insert of [ensureWallet], and the re-reading of the row that won. *)
Definition createWallet (id userId chain : string) (t : Tables) : result (WalletRecord * Tables) :=
  match findWallet userId chain t with
  | Some found => Ok (found, t)
  | None =>
      if existsb (fun w => bool_decide (wl_id w = id)) (tb_wallets t) then Throw unique_violation
      else let w := mkWallet id userId chain wallet_active in Ok (w, mkTables (tb_wallets t ++ [w]) (tb_issued t))
  end.

Definition findActiveDepositAddress (walletId : string) (t : Tables) : option Issued :=
  head (filter (fun i => ad_wallet (is_row i) = walletId /\ ad_role (is_row i) = role_deposit /\ ad_active (is_row i) = true) (tb_issued t)).

(** [COALESCE(MAX(derivation_index) + 1, 0)] *)
Definition claimNextDerivationIndex (chain : string) (t : Tables) : Z :=
  foldr (fun i next => if bool_decide (ad_chain (is_row i) = chain) then Z.max (is_index i + 1) next else next) 0 (tb_issued t).

Definition createAddress (row : Issued) (t : Tables) : result Tables :=
  if existsb (fun i => bool_decide (ad_id (is_row i) = ad_id (is_row row)) ||
       bool_decide (ad_chain (is_row i) = ad_chain (is_row row) /\
                    (ad_address (is_row i) = ad_address (is_row row) \/ is_index i = is_index row))) (tb_issued t)
  then Throw unique_violation
  else if negb (existsb (fun w => bool_decide (wl_id w = ad_wallet (is_row row))) (tb_wallets t)) then Throw missing_reference
  else Ok (mkTables (tb_wallets t) (tb_issued t ++ [row])).

(** ** The service *)

(** What the coordinator returns of a key. *)
Record Provisioned := mkProvisioned { pv_address : string; pv_threshold : Z; pv_participants : Z }.

Definition userKeyRef (userId : string) : string := "user:" +:+ userId.

(** Where a request has got to. *)
Inductive Phase :=
| asked
| without_wallet
| with_wallet (w : WalletRecord)
| without_address (w : WalletRecord)
| provisioned (w : WalletRecord) (key : option (string * string))
| answered (i : Issued)
| refused (e : error).

Record Ask := mkAsk { ak_user : string; ak_chain : string; ak_phase : Phase }.

Section Service.
Context (derive : string -> Z -> string * string) (keys : option (string -> result Provisioned)) (isWellFormed : string -> bool).

Definition deriveFromSeed (chain : string) (index : Z) : string * string := derive chain index.

Definition text_of_number (n : Z) : string := String.string_of_list_ascii (to_digits n).

Definition provisionSegregatedAddress (provisionKey : string -> result Provisioned) (userId : string) : result (string * string) :=
  p ← provisionKey (userKeyRef userId);
  Ok (pv_address p, "frost:" +:+ text_of_number (pv_threshold p) +:+ "-of-" +:+ text_of_number (pv_participants p) +:+ ":" +:+ userKeyRef userId).

(** The transaction of [getOrCreateDepositAddress], serializable: as if alone. *)
Definition assign_tx (id : string) (w : WalletRecord) (chain : string) (key : option (string * string)) (t : Tables) : result (Issued * Tables) :=
  match findActiveDepositAddress (wl_id w) t with
  | Some again => Ok (again, t)
  | None =>
      let index := claimNextDerivationIndex chain t in
      let (address, path) := default (deriveFromSeed chain index) key in
      if negb (isWellFormed address) then Throw (GenericError "produced an invalid address") else
      let row := mkIssued (mkAddress id (wl_id w) chain address role_deposit true) index path in
      t ← createAddress row t;
      Ok (row, t)
  end.

(** The next step of a request; [id] is the row it may create. *)
Definition advance (id : string) (a : Ask) (t : Tables) : Phase * Tables :=
  match ak_phase a with
  | asked =>
      (match findWallet (ak_user a) (ak_chain a) t with Some w => with_wallet w | None => without_wallet end, t)
  | without_wallet =>
      match createWallet id (ak_user a) (ak_chain a) t with
      | Ok (w, t) => (with_wallet w, t)
      | Throw e => (refused e, t)
      end
  | with_wallet w =>
      (match findActiveDepositAddress (wl_id w) t with Some i => answered i | None => without_address w end, t)
  | without_address w =>
      (match keys with
       | None => provisioned w None
       | Some provisionKey =>
           match provisionSegregatedAddress provisionKey (ak_user a) with
           | Ok key => provisioned w (Some key)
           | Throw e => refused e
           end
       end, t)
  | provisioned w key =>
      match assign_tx id w (ak_chain a) key t with
      | Ok (i, t) => (answered i, t)
      | Throw e => (refused e, t)
      end
  | p => (p, t)
  end.

(** Requests arrive and take their steps in any order, and any of them may fail between two
    steps: a conflict of serializable transactions, a timeout, a crash. *)
Definition World : Type := list Ask * Tables.

Inductive provision_step : World -> World -> Prop :=
| ask_arrives userId chain asks t :
    provision_step (asks, t) (asks ++ [mkAsk userId chain asked], t)
| ask_advances n id a phase asks t t' :
    asks !! n = Some a -> advance id a t = (phase, t') ->
    provision_step (asks, t) (<[n := mkAsk (ak_user a) (ak_chain a) phase]> asks, t')
| ask_fails n a e asks t :
    asks !! n = Some a -> provision_step (asks, t) (<[n := mkAsk (ak_user a) (ak_chain a) (refused e)]> asks, t).

(** A request that no other one interrupts: each step has its own row id. *)
Definition run_ask (ids : list string) (a : Ask) (t : Tables) : Ask * Tables :=
  fold_left (fun '(a, t) id => let (phase, t) := advance id a t in (mkAsk (ak_user a) (ak_chain a) phase, t)) ids (a, t).

(** [createdAt] is the order of insertion. *)
Definition listAddresses (userId walletId : string) (t : Tables) : result (list Issued) :=
  match head (filter (fun w => wl_id w = walletId) (tb_wallets t)) with
  | None => Throw (NotFoundError "Wallet not found")
  | Some w =>
      if negb (bool_decide (wl_user w = userId)) then Throw AuthorizationDeniedError
      else Ok (filter (fun i => ad_wallet (is_row i) = walletId) (tb_issued t))
  end.

(** [getBalances]: a row of zeros for an asset never held. *)
Definition getBalances {Row} (asset_of : Row -> string) (zero : string -> Row) (assets : list string) (held : list Row) : list Row :=
  map (fun asset => default (zero asset) (last (filter (fun r => asset_of r = asset) held))) assets.

(** ** Invariants *)

(** Where an address comes from: the seed at its index, or the key of the wallet's user. *)
Definition sourced (userId : string) (i : Issued) : Prop :=
  ad_address (is_row i) = (derive (ad_chain (is_row i)) (is_index i)).1 \/
  exists provisionKey p, keys = Some provisionKey /\ provisionKey (userKeyRef userId) = Ok p /\ ad_address (is_row i) = pv_address p.

(** The wallet of a user on a chain that an address was issued to. *)
Definition issued_to (t : Tables) (userId chain : string) (i : Issued) : Prop :=
  i ∈ tb_issued t /\ ad_chain (is_row i) = chain /\
  exists w, w ∈ tb_wallets t /\ wl_id w = ad_wallet (is_row i) /\ wl_user w = userId /\ wl_chain w = chain.

Record tables_ok (t : Tables) : Prop := {
  to_wallet_ids : NoDup (map wl_id (tb_wallets t));
  to_wallets : NoDup (map (fun w => (wl_user w, wl_chain w)) (tb_wallets t));
  to_one_each : NoDup (map (fun i => ad_wallet (is_row i)) (tb_issued t));
  to_addresses : NoDup (map (fun i => (ad_chain (is_row i), ad_address (is_row i))) (tb_issued t));
  to_indices : NoDup (map (fun i => (ad_chain (is_row i), is_index i)) (tb_issued t));
  to_issued : forall i, i ∈ tb_issued t -> ad_role (is_row i) = role_deposit /\ ad_active (is_row i) = true /\ 0 <= is_index i /\
    exists w, w ∈ tb_wallets t /\ wl_id w = ad_wallet (is_row i) /\ wl_chain w = ad_chain (is_row i) /\ sourced (wl_user w) i
}.

(** What a request holds is in the tables, and is its user's. *)
Definition ask_ok (t : Tables) (a : Ask) : Prop :=
  match ak_phase a with
  | with_wallet w | without_address w | provisioned w None => w ∈ tb_wallets t /\ wl_user w = ak_user a /\ wl_chain w = ak_chain a
  | provisioned w (Some key) => w ∈ tb_wallets t /\ wl_user w = ak_user a /\ wl_chain w = ak_chain a /\
      exists provisionKey p, keys = Some provisionKey /\ provisionKey (userKeyRef (ak_user a)) = Ok p /\ key.1 = pv_address p
  | answered i => issued_to t (ak_user a) (ak_chain a) i
  | _ => True
  end.

Definition world_ok (s : World) : Prop := tables_ok s.2 /\ Forall (ask_ok s.2) s.1.

(** ** Lemmas *)

(** Rows are only added. *)
Definition grows (t t' : Tables) : Prop := tb_wallets t ⊆ tb_wallets t' /\ tb_issued t ⊆ tb_issued t'.

Lemma ask_grows t t' a : grows t t' -> ask_ok t a -> ask_ok t' a.
Proof.
  intros [Hw Hi]. unfold ask_ok, issued_to. destruct (ak_phase a) as [| |w|w|w [key|]|i|e]; [done..| | | | | |done]; set_solver.
Qed.

Lemma findWallet_Some u c t w : findWallet u c t = Some w -> w ∈ tb_wallets t /\ wl_user w = u /\ wl_chain w = c.
Proof. intros H%head_Some_elem_of. apply list_elem_of_filter in H. tauto. Qed.

Lemma findWallet_None u c t w : findWallet u c t = None -> w ∈ tb_wallets t -> ~ (wl_user w = u /\ wl_chain w = c).
Proof. intros H Hw Hc. apply head_None in H. assert (w ∈ filter (fun w => wl_user w = u /\ wl_chain w = c) (tb_wallets t)) by (by apply list_elem_of_filter). rewrite H in *. set_solver. Qed.

Lemma createWallet_ok id u c t w t' :
  tables_ok t -> createWallet id u c t = Ok (w, t') -> tables_ok t' /\ grows t t' /\ w ∈ tb_wallets t' /\ wl_user w = u /\ wl_chain w = c.
Proof.
  intros Ht. unfold createWallet. destruct (findWallet u c t) as [found|] eqn:E.
  - intros [= <- <-]. apply findWallet_Some in E as (? & ? & ?). by split_and!.
  - destruct (existsb _ _) eqn:Ex; [done|]. intros [= <- <-]. rewrite existsb_none in Ex. split; [|split; [|split; [|done]]].
    2: { split; simpl; set_solver. } 2: { simpl. set_solver. }
    destruct Ht as [H1 H2 H3 H4 H5 H6]. split; simpl; try done.
    + rewrite map_app. apply NoDup_app. split; [done|]. split; [|apply NoDup_singleton]. intros x (w & -> & Hw)%list_elem_of_fmap Hx.
      apply list_elem_of_singleton in Hx. specialize (Ex w Hw). simpl in Ex, Hx. by rewrite bool_decide_eq_true_2 in Ex.
    + rewrite map_app. apply NoDup_app. split; [done|]. split; [|apply NoDup_singleton]. intros x (w & -> & Hw)%list_elem_of_fmap Hx.
      apply list_elem_of_singleton in Hx. simpl in Hx. injection Hx as Hu Hc. by eapply findWallet_None.
    + intros i Hi. destruct (H6 i Hi) as (? & ? & ? & w & ? & ?). split_and!; [done..|]. exists w. split; [set_solver|done].
Qed.

Lemma findActive_Some wid t i : findActiveDepositAddress wid t = Some i -> i ∈ tb_issued t /\ ad_wallet (is_row i) = wid.
Proof. intros H%head_Some_elem_of. apply list_elem_of_filter in H. tauto. Qed.

Lemma findActive_None wid t i : tables_ok t -> findActiveDepositAddress wid t = None -> i ∈ tb_issued t -> ad_wallet (is_row i) <> wid.
Proof.
  intros Ht H Hi Hc. apply head_None in H. destruct (to_issued t Ht i Hi) as (? & ? & _).
  assert (i ∈ filter (fun i => ad_wallet (is_row i) = wid /\ ad_role (is_row i) = role_deposit /\ ad_active (is_row i) = true) (tb_issued t)) by (by apply list_elem_of_filter).
  rewrite H in *. set_solver.
Qed.

(** The claimed index is above every index of the chain. *)
Lemma claimed_above c t i : i ∈ tb_issued t -> ad_chain (is_row i) = c -> is_index i < claimNextDerivationIndex c t.
Proof.
  unfold claimNextDerivationIndex. induction (tb_issued t) as [|x xs IH]; [set_solver|]. intros [->|Hi]%elem_of_cons Hc; simpl.
  - rewrite bool_decide_eq_true_2 by done. lia.
  - specialize (IH Hi Hc). case_bool_decide; lia.
Qed.

Lemma claimed_nonneg c t : 0 <= claimNextDerivationIndex c t.
Proof. unfold claimNextDerivationIndex. induction (tb_issued t) as [|x xs IH]; simpl; [lia|]. case_bool_decide; lia. Qed.

Lemma issued_for w t i : tables_ok t -> w ∈ tb_wallets t -> i ∈ tb_issued t -> ad_wallet (is_row i) = wl_id w ->
  issued_to t (wl_user w) (wl_chain w) i.
Proof.
  intros Ht Hw Hi E. destruct (to_issued t Ht i Hi) as (_ & _ & _ & w' & Hw' & Hid & Hc & _).
  assert (w' = w) as -> by (eapply (unique_by wl_id); [apply Ht|done..|congruence]). split; [done|]. split; [done|]. by exists w.
Qed.

Lemma nodup_snoc {A B} (f : A -> B) xs x : NoDup (map f xs) -> (forall y, y ∈ xs -> f y <> f x) -> NoDup (map f (xs ++ [x])).
Proof.
  intros Hn Hx. rewrite map_app. apply NoDup_app. split; [done|]. split; [|apply NoDup_singleton].
  intros k (y & -> & Hy)%list_elem_of_fmap Hk. apply list_elem_of_singleton in Hk. by apply (Hx y Hy).
Qed.

Definition key_of (userId : string) (key : option (string * string)) : Prop :=
  match key with
  | None => True
  | Some key => exists provisionKey p, keys = Some provisionKey /\ provisionKey (userKeyRef userId) = Ok p /\ key.1 = pv_address p
  end.

Lemma assign_ok id w key t i t' :
  tables_ok t -> w ∈ tb_wallets t -> key_of (wl_user w) key -> assign_tx id w (wl_chain w) key t = Ok (i, t') ->
  tables_ok t' /\ grows t t' /\ issued_to t' (wl_user w) (wl_chain w) i.
Proof.
  intros Ht Hw Hkey. unfold assign_tx. destruct (findActiveDepositAddress (wl_id w) t) as [again|] eqn:Ef.
  - intros [= <- <-]. apply findActive_Some in Ef as [Hi Hwid]. split; [done|]. split; [by split|]. by apply issued_for.
  - destruct (default _ key) as [address path] eqn:Ek. destruct (negb (isWellFormed address)); [done|].
    set (row := mkIssued _ _ path). intros (t1 & Hc & [= <- <-])%bind_Ok. unfold createAddress in Hc.
    destruct (existsb _ (tb_issued t)) eqn:Ex; [done|]. destruct (negb _); [done|]. injection Hc as <-. rewrite existsb_none in Ex.
    assert (Hnew : forall x, x ∈ tb_issued t -> ad_chain (is_row x) = wl_chain w -> ad_address (is_row x) <> address /\ is_index x <> is_index row).
    { intros x Hx Hch. specialize (Ex x Hx). apply orb_false_iff in Ex as [_ Ex]. apply bool_decide_eq_false in Ex. simpl in Ex. naive_solver. }
    assert (Hsrc : sourced (wl_user w) row).
    { unfold sourced, row. simpl. destruct key as [[ka kp]|]; simpl in Ek.
      - injection Ek as -> ->. right. destruct Hkey as (k & p & ? & ? & ?). by exists k, p.
      - left. unfold deriveFromSeed in Ek. by rewrite Ek. }
    split; [|split; [split; simpl; set_solver|]].
    + destruct Ht as [H1 H2 H3 H4 H5 H6]. split; simpl; [done..| | | |].
      * apply nodup_snoc; [done|]. intros y Hy. by apply (findActive_None (wl_id w) t y).
      * apply nodup_snoc; [done|]. intros y Hy [= Hc Ha]. by destruct (Hnew y Hy Hc).
      * apply nodup_snoc; [done|]. intros y Hy [= Hc Ha]. by destruct (Hnew y Hy Hc).
      * intros x [Hx|Hx]%elem_of_app; [by apply H6|]. apply list_elem_of_singleton in Hx as ->. split_and!; [done..|apply claimed_nonneg|]. by exists w.
    + split; [simpl; set_solver|]. split; [done|]. by exists w.
Qed.

Lemma advance_ok id a t phase t' :
  tables_ok t -> ask_ok t a -> advance id a t = (phase, t') ->
  tables_ok t' /\ grows t t' /\ ask_ok t' (mkAsk (ak_user a) (ak_chain a) phase).
Proof.
  intros Ht Ha. assert (Hsame : grows t t) by done. unfold advance, ask_ok in *. destruct a as [u c ph]; simpl in *.
  destruct ph as [| |w|w|w key|i|e].
  - intros [= <- <-]. split; [done|]. split; [done|]. destruct (findWallet u c t) as [w|] eqn:E; [|done]. by apply findWallet_Some.
  - destruct (createWallet id u c t) as [[w t1]|e] eqn:E; intros [= <- <-]; [|done]. apply createWallet_ok in E as (? & ? & ? & ? & ?); [|done]. done.
  - intros [= <- <-]. split; [done|]. split; [done|]. destruct Ha as (Hw & <- & <-). destruct (findActiveDepositAddress (wl_id w) t) as [i|] eqn:E; simpl; [|done].
    apply findActive_Some in E as [Hi Hwid]. by apply issued_for.
  - intros [= <- <-]. split; [done|]. split; [done|]. destruct keys as [k|] eqn:Ek; simpl; [|done].
    unfold provisionSegregatedAddress. destruct (k (userKeyRef u)) as [p|e] eqn:Ep; simpl; [|done]. destruct Ha as (? & ? & ?). split_and!; [done..|].
    by exists k, p.
  - destruct (assign_tx id w c key t) as [[i t1]|e] eqn:E; intros [= <- <-]; [|by destruct key].
    assert (Hw : w ∈ tb_wallets t /\ wl_user w = u /\ wl_chain w = c) by (destruct key; tauto). destruct Hw as (Hw & <- & <-).
    apply assign_ok in E as (? & ? & ?); [done|done|done|]. destruct key; [|done]. simpl. tauto.
  - by intros [= <- <-].
  - by intros [= <- <-].
Qed.

Lemma step_ok s s' : provision_step s s' -> world_ok s -> world_ok s'.
Proof.
  intros [u c asks t|id n a phase asks t t' Hn Hadv|n a e asks t Hn] [Ht Hf]; split; simpl in *.
  - done.
  - apply Forall_app. by split; [|apply Forall_singleton].
  - eapply advance_ok; [done| |done]. by eapply Forall_lookup_1.
  - edestruct advance_ok as (_ & Hg & Ha); [done| |exact Hadv|]; [by eapply Forall_lookup_1|].
    apply Forall_insert; [|done]. eapply Forall_impl; [exact Hf|]. intros x. by apply ask_grows.
  - done.
  - by apply Forall_insert.
Qed.

Lemma world_reachable s : rtc provision_step ([], mkTables [] []) s -> world_ok s.
Proof.
  intros Hr. remember ([], mkTables [] []) as s0 eqn:E. assert (H0 : world_ok s0).
  { subst. split; [|constructor]. split; simpl; try constructor; set_solver. }
  clear E. induction Hr as [s|s s1 s2 Hs Hr IH]; [done|]. apply IH. by eapply step_ok.
Qed.


(** *** A request is answered *)

Definition id_free (t : Tables) (id : string) : Prop :=
  (forall w, w ∈ tb_wallets t -> wl_id w <> id) /\ (forall i, i ∈ tb_issued t -> ad_id (is_row i) <> id).

(** The seed gives every index an address of its own; the keys of users differ, and none is an
    address of the seed; the validator finds nothing wrong with either. *)
Definition sources_distinct : Prop :=
  (forall c m n, 0 <= m -> 0 <= n -> (derive c m).1 = (derive c n).1 -> m = n) /\ (forall c n, isWellFormed (derive c n).1 = true) /\
  (forall k, keys = Some k ->
     (forall u, exists p, k (userKeyRef u) = Ok p) /\
     (forall u p, k (userKeyRef u) = Ok p -> isWellFormed (pv_address p) = true /\ (forall c n, pv_address p <> (derive c n).1) /\
        forall v q, k (userKeyRef v) = Ok q -> pv_address p = pv_address q -> u = v)).

Lemma assign_answers id w key t :
  tables_ok t -> w ∈ tb_wallets t -> key_of (wl_user w) key -> sources_distinct ->
  (forall i, i ∈ tb_issued t -> ad_id (is_row i) <> id) -> exists i t', assign_tx id w (wl_chain w) key t = Ok (i, t').
Proof.
  intros Ht Hw Hkey (Hinj & Hwf & Hk) Hid. unfold assign_tx. destruct (findActiveDepositAddress (wl_id w) t) as [again|] eqn:Ef; [by eexists _, _|].
  set (index := claimNextDerivationIndex (wl_chain w) t). destruct (default _ key) as [address path] eqn:Ek.
  assert (Hgood : isWellFormed address = true /\ forall i, i ∈ tb_issued t -> ad_chain (is_row i) = wl_chain w -> ad_address (is_row i) <> address).
  { destruct key as [[ka kp]|]; simpl in Ek.
    - injection Ek as -> ->. destruct Hkey as (k & p & Hks & Hp & Hka). simpl in Hka. subst address. destruct (Hk k Hks) as [_ Hk2]. destruct (Hk2 _ _ Hp) as (? & Hnd & Huniq).
      split; [done|]. intros i Hi Hc Ha. destruct (to_issued t Ht i Hi) as (_ & _ & _ & w' & Hw' & Hid' & Hc' & [Hs|(k' & q & Hks' & Hq & Hs)]).
      + apply (Hnd (ad_chain (is_row i)) (is_index i)). congruence.
      + assert (k' = k) as -> by congruence. assert (Hu : wl_user w = wl_user w') by (eapply Huniq; [exact Hq|congruence]).
        assert (w' = w) as -> by (eapply (unique_by (fun w => (wl_user w, wl_chain w))); [apply Ht|done..|congruence]).
        by apply (findActive_None (wl_id w) t i).
    - unfold deriveFromSeed in Ek. assert (address = (derive (wl_chain w) index).1) as -> by (by rewrite Ek). split; [done|].
      intros i Hi Hc Ha. destruct (to_issued t Ht i Hi) as (_ & _ & Hpos & w' & Hw' & Hid' & Hc' & [Hs|(k & q & Hks & Hq & Hs)]).
      + rewrite Hs, Hc in Ha. apply Hinj in Ha; [|done|apply claimed_nonneg]. pose proof (claimed_above _ t i Hi Hc). unfold index in Ha. lia.
      + destruct (Hk k Hks) as [_ Hk2]. destruct (Hk2 _ _ Hq) as (_ & Hnd & _). apply (Hnd (wl_chain w) index). congruence. }
  destruct Hgood as [-> Hfresh]. simpl. unfold createAddress. simpl. destruct (existsb _ (tb_issued t)) eqn:Ex.
  { exfalso. apply existsb_exists in Ex as (i & Hi%list_elem_of_In & Hx). apply orb_true_iff in Hx as [Hx|Hx]; zbool; [by apply (Hid i)|].
    destruct Hx as (Hc & [Ha|Hx]); [by apply (Hfresh i)|]. pose proof (claimed_above _ t i Hi Hc). unfold index in Hx. lia. }
  rewrite (existsb_some _ _ w) by (done || by apply bool_decide_eq_true_2). simpl. by eexists _, _.
Qed.

Lemma run_cons id ids a t phase t' :
  advance id a t = (phase, t') -> run_ask (id :: ids) a t = run_ask ids (mkAsk (ak_user a) (ak_chain a) phase) t'.
Proof. intros E. unfold run_ask. simpl. by rewrite E. Qed.

Lemma run_answered ids u c i t : run_ask ids (mkAsk u c (answered i)) t = (mkAsk u c (answered i), t).
Proof. induction ids as [|id ids IH]; [done|]. by rewrite (run_cons id ids _ _ (answered i) t). Qed.

Lemma run_with_wallet ids x y z w t :
  tables_ok t -> w ∈ tb_wallets t -> sources_distinct -> id_free t z ->
  exists i t', run_ask (x :: y :: z :: ids) (mkAsk (wl_user w) (wl_chain w) (with_wallet w)) t = (mkAsk (wl_user w) (wl_chain w) (answered i), t').
Proof.
  intros Ht Hw Hsrc [_ Hz]. destruct (findActiveDepositAddress (wl_id w) t) as [i|] eqn:Ef.
  { exists i, t. rewrite (run_cons _ _ _ _ (answered i) t) by (unfold advance; simpl; by rewrite Ef). apply run_answered. }
  rewrite (run_cons _ _ _ _ (without_address w) t) by (unfold advance; simpl; by rewrite Ef).
  assert (exists key, key_of (wl_user w) key /\ advance y (mkAsk (wl_user w) (wl_chain w) (without_address w)) t = (provisioned w key, t)) as (key & Hkey & Ea).
  { unfold advance. simpl. destruct keys as [k|] eqn:Ek; [|by exists None]. destruct (proj1 (proj2 (proj2 Hsrc) k Ek) (wl_user w)) as [p Hp].
    unfold provisionSegregatedAddress. rewrite Hp. simpl. eexists (Some _). split; [|done]. exists k, p. by rewrite Ek. }
  rewrite (run_cons _ _ _ _ _ _ Ea). destruct (assign_answers z w key t Ht Hw Hkey Hsrc Hz) as (i & t' & E).
  exists i, t'. rewrite (run_cons _ _ _ _ (answered i) t') by (unfold advance; simpl; by rewrite E). apply run_answered.
Qed.

(** A request for an address is answered. Whatever addresses were issued before, by a seed
    or by the coordinator, a request that runs on its own gets an address in five steps, when
    the coordinator answers, keys and derived addresses are distinct and well formed, and row
    ids are new: the claimed index is free, so no uniqueness is violated. *)
Theorem ask_is_answered asks t userId chain i1 i2 i3 i4 i5 :
  rtc provision_step ([], mkTables [] []) (asks, t) -> sources_distinct -> id_free t i2 -> id_free t i4 -> id_free t i5 -> i2 <> i5 ->
  exists i t', run_ask [i1; i2; i3; i4; i5] (mkAsk userId chain asked) t = (mkAsk userId chain (answered i), t').
Proof.
  intros [Ht _]%world_reachable Hsrc H2 H4 H5 Hne. simpl in Ht. destruct (findWallet userId chain t) as [w|] eqn:E.
  - pose proof (findWallet_Some _ _ _ _ E) as (Hw & <- & <-). rewrite (run_cons _ _ _ _ (with_wallet w) t) by (unfold advance; simpl; by rewrite E).
    by apply (run_with_wallet [i5] i2 i3 i4 w t).
  - rewrite (run_cons _ _ _ _ without_wallet t) by (unfold advance; simpl; by rewrite E).
    assert (exists w t', createWallet i2 userId chain t = Ok (w, t') /\ tb_issued t' = tb_issued t /\ (forall x, x ∈ tb_wallets t' -> x ∈ tb_wallets t \/ wl_id x = i2)) as (w & t' & Ec & Hiss & Hws).
    { unfold createWallet. rewrite E. destruct (existsb _ _) eqn:Ex.
      - apply existsb_exists in Ex as (x & Hx%list_elem_of_In & Hxid). zbool. by destruct (proj1 H2 x Hx).
      - eexists _, _. split; [done|]. split; [done|]. simpl. intros x [Hx|Hx]%elem_of_app; [by left|]. apply list_elem_of_singleton in Hx as ->. by right. }
    rewrite (run_cons _ _ _ _ (with_wallet w) t') by (unfold advance; simpl; by rewrite Ec).
    pose proof (createWallet_ok _ _ _ _ _ _ Ht Ec) as (Ht' & _ & Hw & <- & <-). apply (run_with_wallet [] i3 i4 i5 w t'); [done|done|done|].
    destruct H5 as [H5w H5i]. split; [|by rewrite Hiss]. intros x [Hx|Hx]%Hws; [by apply H5w|congruence].
Qed.
End Service.

(** ** Witnesses *)

Definition demo_derive (chain : string) (index : Z) : string * string :=
  (text_of_number index, "m/44/501/" +:+ text_of_number index).

Lemma demo_distinct : sources_distinct demo_derive None (fun _ => true).
Proof.
  split; [|split; [done|intros; discriminate]]. intros c m n Hm Hn E. simpl in E. unfold text_of_number in E.
  apply (f_equal String.list_ascii_of_string) in E. rewrite !String.list_ascii_of_string_of_list_ascii in E.
  by rewrite <- (digits_value_to_digits m Hm), E, digits_value_to_digits.
Qed.

(** Alice asks twice and Bob once; every step of one request is followed by a step of the others. *)
Fixpoint interleave (turns : list (nat * string)) (s : World) : World :=
  match turns with
  | [] => s
  | (n, id) :: turns =>
      match s.1 !! n with
      | None => interleave turns s
      | Some a => let (phase, t) := advance demo_derive None (fun _ => true) id a s.2 in
                  interleave turns (<[n := mkAsk (ak_user a) (ak_chain a) phase]> s.1, t)
      end
  end.

Lemma interleave_steps turns s : rtc (provision_step demo_derive None (fun _ => true)) s (interleave turns s).
Proof.
  revert s. induction turns as [|[n id] turns IH]; intros [asks t]; simpl; [done|]. destruct (asks !! n) as [a|] eqn:En; [|apply IH].
  destruct (advance _ _ _ id a t) as [phase t'] eqn:Ea. eapply rtc_l; [by eapply ask_advances|apply IH].
Qed.

Definition demo_asks : World :=
  ([mkAsk "alice" "solana:devnet" asked; mkAsk "alice" "solana:devnet" asked; mkAsk "bob" "solana:devnet" asked], mkTables [] []).

Definition demo_turns : list (nat * string) :=
  [(0%nat, "r1"); (1%nat, "r2"); (2%nat, "r3"); (0%nat, "r4"); (1%nat, "r5"); (2%nat, "r6"); (0%nat, "r7"); (1%nat, "r8"); (2%nat, "r9");
   (1%nat, "r10"); (2%nat, "r11"); (0%nat, "r12"); (2%nat, "r13"); (1%nat, "r14"); (0%nat, "r15")].

Definition demo_world : World := interleave demo_turns demo_asks.

Lemma demo_reachable : rtc (provision_step demo_derive None (fun _ => true)) ([], mkTables [] []) (demo_world.1, demo_world.2).
Proof.
  rewrite <- surjective_pairing. eapply rtc_l; [apply (ask_arrives _ _ _ "alice" "solana:devnet")|]. eapply rtc_l; [apply (ask_arrives _ _ _ "alice" "solana:devnet")|].
  eapply rtc_l; [apply (ask_arrives _ _ _ "bob" "solana:devnet")|]. apply interleave_steps.
Qed.

Example demo_outcome :
  map (fun a => match ak_phase a with answered i => Some (ad_address (is_row i), is_index i) | _ => None end) demo_world.1 =
  [Some ("1", 1); Some ("1", 1); Some ("0", 0)].
Proof. vm_compute. reflexivity. Qed.

Definition alice_row : Issued := mkIssued (mkAddress "r14" "r4" "solana:devnet" "1" role_deposit true) 1 "m/44/501/1".

Definition alice_ask : Ask := mkAsk "alice" "solana:devnet" (answered alice_row).

Lemma alice_asked : demo_world.1 !! 0%nat = Some alice_ask.
Proof. vm_compute. reflexivity. Qed.

Lemma bob_asked : exists j, demo_world.1 !! 2%nat = Some (mkAsk "bob" "solana:devnet" (answered j)).
Proof. eexists. vm_compute. reflexivity. Qed.


Lemma demo_free id :
  forallb (fun w => negb (bool_decide (wl_id w = id))) (tb_wallets demo_world.2) && forallb (fun i => negb (bool_decide (ad_id (is_row i) = id))) (tb_issued demo_world.2) = true ->
  id_free demo_world.2 id.
Proof.
  intros [Hw Hi]%andb_true_iff. rewrite forallb_forall in Hw, Hi. split; intros x Hx%list_elem_of_In E; [apply Hw in Hx|apply Hi in Hx];
    by rewrite bool_decide_eq_true_2 in Hx.
Qed.

Lemma ask_is_answered_witness : exists i t', run_ask demo_derive None (fun _ => true) ["c1"; "c2"; "c3"; "c4"; "c5"] (mkAsk "carol" "solana:devnet" asked) demo_world.2 =
  (mkAsk "carol" "solana:devnet" (answered i), t').
Proof.
  exact (ask_is_answered demo_derive None (fun _ => true) demo_world.1 demo_world.2 "carol" "solana:devnet" "c1" "c2" "c3" "c4" "c5" demo_reachable demo_distinct
           (demo_free "c2" eq_refl) (demo_free "c4" eq_refl) (demo_free "c5" eq_refl) ltac:(discriminate)).
Defined.
