(* ===== verification/Hub.v ===== *)
(** * The sockets

    [apps/api/src/ws/hub.ts], with the views of [services/market-data/views.ts] and the queries
    of a user's changed rows: every open socket, what it subscribes to, and what it is sent.
    What the code runs without awaiting is a function on [Hub]; what awaits is a job, and
    [step] runs the next event: a socket's, a timer's, a fan-out's, or the answer a job waits
    for. The clock, the sessions, the tables, the books and the sockets' buffers are
    arguments of the events, parsing and lengths of frames parameters. A sequence or an amount
    is the number its text stands for. Metrics, logging and random ids are not modelled. *)

From Stdlib Require Import ZArith Lia Ascii.
From stdpp Require Import base list strings gmap sorting.
From S2P Require Import Prelude Decimal Assets Orders Store Tape Fanout.

Open Scope string_scope.
Open Scope list_scope.
Open Scope Z_scope.

(** ** The contract *)

Inductive WsChannel := book_channel | trades_channel | ticker_channel | account_channel.

#[export] Instance WsChannel_eq_dec : EqDecision WsChannel.
Proof. solve_decision. Defined.

Definition channel_name (ch : WsChannel) : string :=
  match ch with
  | book_channel => "book"
  | trades_channel => "trades"
  | ticker_channel => "ticker"
  | account_channel => "account"
  end.

Inductive WsClientMessage :=
| op_subscribe (ch : WsChannel) (cl : Cluster) (market : option string)
| op_unsubscribe (ch : WsChannel) (cl : Cluster) (market : option string)
| op_pong.

(** A user's own side of a fill. *)
Record UserFillRecord := mkUserFill {
  uf_fillId : string; uf_market : string; uf_key : EventKey; uf_orderId : string; uf_side : Side; uf_taker : bool;
  uf_price : Z; uf_qty : Z; uf_notional : Z; uf_fee : Z; uf_feeBps : Z; uf_engineTimestamp : Z
}.

Record UserFillView := mkUserFillView {
  ufv_id : string; ufv_market : string; ufv_orderId : string; ufv_side : Side; ufv_taker : bool;
  ufv_price : Z; ufv_qty : Z; ufv_notional : Z; ufv_fee : Z; ufv_feeBps : Z; ufv_time : Z
}.

Record TradeView := mkTradeView { tv_id : string; tv_seq : Z; tv_price : Z; tv_qty : Z; tv_takerSide : Side; tv_time : Z }.

Inductive WsErrorCode := unknown_cluster | cluster_not_served | unknown_market | market_required | not_subscribed | unavailable.

Inductive WsServerMessage :=
| book_snapshot (market : string) (book : BookView)
| book_delta (market : string) (seq : Z) (changes : list LevelChange)
| book_resync (market : string)
| trades_snapshot (market : string) (trades : list TradeView)
| trade_message (market : string) (trade : TradeView)
| ticker_message (market : string) (ticker : Ticker)
| order_message (order : OrderRecord)
| fill_message (fill : UserFillView)
| balances_changed
| subscribed (ch : WsChannel) (cl : Cluster) (market : option string)
| unsubscribed (ch : WsChannel) (cl : Cluster) (market : option string)
| error_message (code : WsErrorCode)
| ping.

(** [WS_CLOSE] *)
Definition goingAway : Z := 1001.
Definition protocolError : Z := 4400.
Definition sessionEnded : Z := 4401.
Definition slowConsumer : Z := 4408.
Definition limitExceeded : Z := 4409.

(** ** Views *)

Definition tradeFromFanout (t : PublicTrade) : TradeView :=
  mkTradeView (pt_id t) (pt_seq t) (pt_price t) (pt_qty t) (pt_takerSide t) (pt_timestampMs t).

Definition number_text (n : Z) : string := String.string_of_list_ascii (to_digits n).

Definition tradeFromRecord (t : TradeRow) : TradeView :=
  mkTradeView (number_text (tr_seq t) +:+ ":" +:+ number_text (tr_index t)) (tr_seq t) (tr_price t) (tr_qty t) (tr_takerSide t) (tr_at t).

Definition toUserFillView (f : UserFillRecord) : UserFillView :=
  mkUserFillView (uf_fillId f) (match split_first ":"%char (uf_market f) with Some (_, rest) => rest | None => uf_market f end)
    (uf_orderId f) (uf_side f) (uf_taker f) (uf_price f) (uf_qty f) (uf_notional f) (uf_fee f) (uf_feeBps f) (uf_engineTimestamp f).

(** ** The queries of the private channel *)

Record ChangedOrder := mkChangedOrder { co_order : OrderRecord; co_updatedAt : Z }.
Record SettledFill := mkSettledFill { sf_fill : FillRow; sf_createdAt : Z }.

Definition updated_before (a b : ChangedOrder) : Prop := co_updatedAt a <= co_updatedAt b.

#[export] Instance updated_before_dec : RelDecision updated_before.
Proof. intros a b. unfold updated_before. apply _. Defined.

Definition listChangedSince (userId : string) (since : Z) (limit : nat) (rows : list ChangedOrder) : list OrderRecord :=
  map co_order (take limit (merge_sort updated_before
    (filter (fun r => o_user (co_order r) = userId /\ since <= co_updatedAt r) rows))).

Definition opposite (s : Side) : Side := match s with buy => sell | sell => buy end.

(** The columns a row of [fills] has for one of its users. *)
Definition user_side (userId : string) (f : FillRow) : UserFillRecord :=
  let taker := bool_decide (f_takerUserId f = userId) in
  let qualifier := f_market f +:+ ":" in
  mkUserFill
    (if String.prefix qualifier (f_fillId f)
     then String.substring (String.length qualifier) (String.length (f_fillId f)) (f_fillId f) else f_fillId f)
    (f_market f) (f_key f)
    (if taker then f_takerOrderId f else f_makerOrderId f)
    (if taker then f_takerSide f else match f_takerSide f with buy => sell | sell => buy end) taker
    (f_price f) (f_qty f) (f_notional f)
    (if taker then f_takerFee f else f_makerFee f) (if taker then f_takerFeeBps f else f_makerFeeBps f) (f_engineTimestamp f).

(** The order of settlement. *)
Definition settled_before (a b : SettledFill) : Prop :=
  let ka := f_key (sf_fill a) in let kb := f_key (sf_fill b) in
  sf_createdAt a < sf_createdAt b \/ sf_createdAt a = sf_createdAt b /\ (seq ka < seq kb \/ seq ka = seq kb /\ idx ka <= idx kb).

#[export] Instance settled_before_dec : RelDecision settled_before.
Proof. intros a b. unfold settled_before. apply _. Defined.

(** [listForUser] with [since]. *)
Definition listForUser (userId : string) (since : Z) (limit : nat) (rows : list SettledFill) : list UserFillRecord :=
  map (fun r => user_side userId (sf_fill r)) (take limit (merge_sort settled_before
    (filter (fun r => (f_takerUserId (sf_fill r) = userId \/ f_makerUserId (sf_fill r) = userId) /\ since <= sf_createdAt r) rows))).

(** ** The hub *)

Inductive CloseReason := slow_consumer | limit | session_ended | protocol_error | shutdown.

Record Connection := mkConnection {
  cn_userId : string;
  cn_ip : string;
  cn_sessionToken : string;
  cn_subscriptions : list string;
  cn_closed : bool;
  cn_unansweredPings : Z;
  cn_windowStartedAt : Z;
  cn_messagesInWindow : Z;
  cn_accountCursor : option Z;
  cn_pushing : bool;
  cn_pushAgain : bool
}.

(** What is awaited, by whom. A recheck and a flush await their first element. *)
Inductive Job :=
| subscribing (c : nat) (ch : WsChannel) (cl : Cluster) (symbol : option string)
| trades_for (c : nat) (symbol : string)
| ticker_for (c : nat) (symbol : string)
| trades_for_all (symbol : string)
| push_reads (c : nat) (readAt since : Z)
| push_checks (c : nat) (readAt : Z) (orders : list OrderRecord) (fills : list UserFillRecord)
| rechecking (rest : list nat)
| flushing (due : list string).

(** What passed between the hub and the world, in order. *)
Inductive Wire :=
| sent (c : nat) (m : WsServerMessage)
| closed_by_server (c : nat) (code : Z) (reason : CloseReason)
| session_said (c : nat) (valid : bool).

Record Hub := mkHub {
  connections : gmap nat Connection;
  open : list nat;
  byUser : gmap string (list nat);
  byIp : gmap string Z;
  subscribers : gmap string (list nat);
  tickerDirty : list string;
  jobs : gmap nat Job;
  fresh_id : nat;
  wire : list Wire
}.

Record HubMarket := mkHubMarket { hm_symbol : string; hm_marketId : string }.

Record HubLimits := mkLimits {
  maxSocketsPerUser : Z; maxSocketsPerIp : Z; maxSubscriptions : Z; maxMessageBytes : Z;
  maxMessagesPerSecond : Z; maxBufferedBytes : Z
}.

Definition PRIVATE_OVERLAP_MS : Z := 5000.
Definition PRIVATE_BATCH : nat := 200.
Definition RECENT_TRADES : nat := 50.

Definition key (ch : WsChannel) (symbol : string) : string := channel_name ch +:+ "|" +:+ symbol.

(** *** Fields *)

Definition set_connections (f : gmap nat Connection -> gmap nat Connection) (h : Hub) : Hub :=
  mkHub (f (connections h)) (open h) (byUser h) (byIp h) (subscribers h) (tickerDirty h) (jobs h) (fresh_id h) (wire h).
Definition set_subscribers (f : gmap string (list nat) -> gmap string (list nat)) (h : Hub) : Hub :=
  mkHub (connections h) (open h) (byUser h) (byIp h) (f (subscribers h)) (tickerDirty h) (jobs h) (fresh_id h) (wire h).
Definition set_dirty (f : list string -> list string) (h : Hub) : Hub :=
  mkHub (connections h) (open h) (byUser h) (byIp h) (subscribers h) (f (tickerDirty h)) (jobs h) (fresh_id h) (wire h).
Definition set_jobs (f : gmap nat Job -> gmap nat Job) (h : Hub) : Hub :=
  mkHub (connections h) (open h) (byUser h) (byIp h) (subscribers h) (tickerDirty h) (f (jobs h)) (fresh_id h) (wire h).
Definition log (w : Wire) (h : Hub) : Hub :=
  mkHub (connections h) (open h) (byUser h) (byIp h) (subscribers h) (tickerDirty h) (jobs h) (fresh_id h) (wire h ++ [w]).

(** What awaits becomes a job. *)
Definition await (j : Job) (h : Hub) : Hub :=
  mkHub (connections h) (open h) (byUser h) (byIp h) (subscribers h) (tickerDirty h) (<[fresh_id h := j]> (jobs h)) (S (fresh_id h)) (wire h).

(** A connection's own record: what no index depends on. *)
Record Own := mkOwn { own_unanswered : Z; own_started : Z; own_messages : Z; own_cursor : option Z; own_pushing : bool; own_again : bool }.

Definition own_of (k : Connection) : Own :=
  mkOwn (cn_unansweredPings k) (cn_windowStartedAt k) (cn_messagesInWindow k) (cn_accountCursor k) (cn_pushing k) (cn_pushAgain k).

Definition with_own (k : Connection) (o : Own) : Connection :=
  mkConnection (cn_userId k) (cn_ip k) (cn_sessionToken k) (cn_subscriptions k) (cn_closed k)
    (own_unanswered o) (own_started o) (own_messages o) (own_cursor o) (own_pushing o) (own_again o).

Definition with_subscriptions (subs : list string) (k : Connection) : Connection :=
  mkConnection (cn_userId k) (cn_ip k) (cn_sessionToken k) subs (cn_closed k) (cn_unansweredPings k) (cn_windowStartedAt k)
    (cn_messagesInWindow k) (cn_accountCursor k) (cn_pushing k) (cn_pushAgain k).

Definition put_own (c : nat) (f : Own -> Own) (h : Hub) : Hub := set_connections (alter (fun k => with_own k (f (own_of k))) c) h.
Definition put_subscriptions (c : nat) (f : list string -> list string) (h : Hub) : Hub :=
  set_connections (alter (fun k => with_subscriptions (f (cn_subscriptions k)) k) c) h.

Definition set_unanswered (n : Z) (o : Own) : Own := mkOwn n (own_started o) (own_messages o) (own_cursor o) (own_pushing o) (own_again o).
Definition set_window (t n : Z) (o : Own) : Own := mkOwn (own_unanswered o) t n (own_cursor o) (own_pushing o) (own_again o).
Definition set_cursor (x : option Z) (o : Own) : Own := mkOwn (own_unanswered o) (own_started o) (own_messages o) x (own_pushing o) (own_again o).
Definition set_pushing (b : bool) (o : Own) : Own := mkOwn (own_unanswered o) (own_started o) (own_messages o) (own_cursor o) b (own_again o).
Definition set_again (b : bool) (o : Own) : Own := mkOwn (own_unanswered o) (own_started o) (own_messages o) (own_cursor o) (own_pushing o) b.

(** [Set.delete] *)
Definition without {A} `{EqDecision A} (x : A) (xs : list A) : list A := filter (fun y => y <> x) xs.
(** [Set.add] *)
Definition with_last {A} `{EqDecision A} (x : A) (xs : list A) : list A := if bool_decide (x ∈ xs) then xs else xs ++ [x].

Section Hub.
Context (cluster : Cluster) (servedClusters : list Cluster) (markets : list HubMarket) (limits : HubLimits).
Context (bufferedAmount : nat -> list Wire -> Z) (send_throws : nat -> list Wire -> bool).
Context (byteLength : string -> Z) (parseClientMessage : string -> option WsClientMessage).

(** [connection.closed], of a connection the code holds. *)
Definition is_closed (c : nat) (h : Hub) : bool := default true (cn_closed <$> connections h !! c).

Definition is_open (c : nat) (h : Hub) : option Connection :=
  match connections h !! c with Some k => if cn_closed k then None else Some k | None => None end.

(** *** Closing and sending *)

Definition detach (c : nat) (h : Hub) : Hub :=
  match is_open c h with
  | None => h
  | Some k =>
      let users := match byUser h !! cn_userId k with
                   | None => byUser h
                   | Some mine => match without c mine with
                                  | [] => delete (cn_userId k) (byUser h)
                                  | rest => <[cn_userId k := rest]> (byUser h)
                                  end
                   end in
      let remaining := default 1 (byIp h !! cn_ip k) - 1 in
      mkHub (<[c := mkConnection (cn_userId k) (cn_ip k) (cn_sessionToken k) [] true (cn_unansweredPings k) (cn_windowStartedAt k)
                      (cn_messagesInWindow k) (cn_accountCursor k) (cn_pushing k) (cn_pushAgain k)]> (connections h))
        (without c (open h)) users
        (if remaining <=? 0 then delete (cn_ip k) (byIp h) else <[cn_ip k := remaining]> (byIp h))
        (fold_left (fun s subscription => alter (without c) subscription s) (cn_subscriptions k) (subscribers h))
        (tickerDirty h) (jobs h) (fresh_id h) (wire h)
  end.

Definition close (c : nat) (code : Z) (reason : CloseReason) (h : Hub) : Hub :=
  match is_open c h with
  | None => h
  | Some _ => log (closed_by_server c code reason) (detach c h)
  end.

(** [send], and [sendRaw] of what it serialises. *)
Definition send (c : nat) (m : WsServerMessage) (h : Hub) : Hub :=
  match is_open c h with
  | None => h
  | Some _ =>
      if bufferedAmount c (wire h) >? maxBufferedBytes limits then close c slowConsumer slow_consumer h else
      if send_throws c (wire h) then detach c h else log (sent c m) h
  end.

Definition broadcast (ch : WsChannel) (symbol : string) (m : WsServerMessage) (h : Hub) : Hub :=
  fold_left (fun h c => send c m h) (default [] (subscribers h !! key ch symbol)) h.

Definition bookSnapshot (books : string -> option BookView) (symbol : string) : WsServerMessage :=
  match books symbol with None => book_resync symbol | Some book => book_snapshot symbol book end.

Definition onFanout (books : string -> option BookView) (symbol : string) (m : FanoutMessage) (h : Hub) : Hub :=
  match m with
  | m_snapshot _ => await (trades_for_all symbol) (broadcast book_channel symbol (bookSnapshot books symbol) h)
  | m_resync => broadcast book_channel symbol (book_resync symbol) h
  | m_delta seq changes => broadcast book_channel symbol (book_delta symbol seq changes) h
  | m_trade t => broadcast trades_channel symbol (trade_message symbol (tradeFromFanout t)) h
  end.

(** *** The private channel *)

(** The [finally] of [pushAccount]. *)
Definition push_end (c : nat) (h : Hub) : Hub := put_own c (set_pushing false) h.

(** One round of the [do]: the queries are awaited. *)
Definition push_round (c : nat) (now : Z) (h : Hub) : Hub :=
  let h := put_own c (set_again false) h in
  match is_open c h with
  | Some k =>
      match cn_accountCursor k with
      | Some cursor => await (push_reads c now (cursor - PRIVATE_OVERLAP_MS)) h
      | None => push_end c h
      end
  | None => push_end c h
  end.

Definition pushAccount (c : nat) (now : Z) (h : Hub) : Hub :=
  if default false (cn_pushing <$> connections h !! c) then put_own c (set_again true) h
  else push_round c now (put_own c (set_pushing true) h).

(** After the session's answer. *)
Definition push_send (c : nat) (readAt : Z) (orders : list OrderRecord) (fills : list UserFillRecord) (now : Z) (h : Hub) : Hub :=
  let h := fold_left (fun h o => send c (order_message o) h) orders h in
  let h := fold_left (fun h f => send c (fill_message (toUserFillView f)) h) fills h in
  let h := send c balances_changed h in
  let h := put_own c (set_cursor (Some readAt)) h in
  match is_open c h with
  | Some k => if cn_pushAgain k then push_round c now h else push_end c h
  | None => push_end c h
  end.

(** *** Subscriptions *)

Inductive Resolved := refused | no_market | the_market (symbol : string).

Definition refuse (c : nat) (code : WsErrorCode) (h : Hub) : Resolved * Hub := (refused, send c (error_message code) h).

Definition resolveMarket (c : nat) (cl : Cluster) (symbol : option string) (needsMarket : bool) (h : Hub) : Resolved * Hub :=
  if negb (bool_decide (cl ∈ CLUSTERS)) then refuse c unknown_cluster h else
  if negb (bool_decide (cl ∈ servedClusters)) then refuse c cluster_not_served h else
  if negb (bool_decide (cl = cluster)) then refuse c (if needsMarket then unknown_market else unavailable) h else
  if negb needsMarket then (no_market, h) else
  match symbol with
  | None => refuse c market_required h
  | Some symbol => if existsb (fun m => bool_decide (hm_symbol m = symbol)) markets then (the_market symbol, h) else refuse c unknown_market h
  end.

(** [audience(subscription).add(connection)] *)
Definition join (c : nat) (subscription : string) (h : Hub) : Hub :=
  set_subscribers (fun s => <[subscription := with_last c (default [] (s !! subscription))]> s) h.

(** The rest of [subscribe], once the subscription is the connection's. *)
Definition confirmed (books : string -> option BookView) (c : nat) (ch : WsChannel) (cl : Cluster) (market : option string) (now : Z) (h : Hub) : Hub :=
  let h := send c (subscribed ch cl market) h in
  match ch, market with
  | account_channel, _ => put_own c (fun o => set_cursor (Some (default now (own_cursor o))) o) h
  | _, None => h
  | book_channel, Some symbol => join c (key ch symbol) (send c (bookSnapshot books symbol) h)
  | trades_channel, Some symbol => await (trades_for c symbol) (join c (key ch symbol) h)
  | ticker_channel, Some symbol => await (ticker_for c symbol) (join c (key ch symbol) h)
  end.

(** [subscribe], after the session's answer. *)
Definition subscribe (books : string -> option BookView) (c : nat) (ch : WsChannel) (cl : Cluster) (symbol : option string) (now : Z) (h : Hub) : Hub :=
  if is_closed c h then h else
  let (market, h) := resolveMarket c cl symbol (negb (bool_decide (ch = account_channel))) h in
  match market with
  | refused => h
  | _ =>
      let symbol := match market with the_market symbol => Some symbol | _ => None end in
      let subscription := key ch (default "" symbol) in
      match connections h !! c with
      | None => h
      | Some k =>
          if bool_decide (subscription ∈ cn_subscriptions k) then confirmed books c ch cl symbol now h else
          if maxSubscriptions limits <=? Z.of_nat (length (cn_subscriptions k)) then close c limitExceeded limit h else
          confirmed books c ch cl symbol now (put_subscriptions c (fun subs => subs ++ [subscription]) h)
      end
  end.

Definition unsubscribe (c : nat) (ch : WsChannel) (cl : Cluster) (symbol : option string) (h : Hub) : Hub :=
  let subscription := key ch (if bool_decide (ch = account_channel) then "" else default "" symbol) in
  match connections h !! c with
  | None => h
  | Some k =>
      if negb (bool_decide (subscription ∈ cn_subscriptions k)) then send c (error_message not_subscribed) h else
      let h := put_subscriptions c (without subscription) h in
      let h := set_subscribers (alter (without c) subscription) h in
      let h := if bool_decide (ch = account_channel) then put_own c (set_cursor None) h else h in
      send c (unsubscribed ch cl (match symbol with Some "" => None | _ => symbol end)) h
  end.

(** *** Frames, timers and answers *)

(** [at] is the time of the wall clock. *)
Definition onMessage (c : nat) (data : string) (at_ : Z) (h : Hub) : Hub :=
  match is_open c h with
  | None => h
  | Some k =>
      if byteLength data >? maxMessageBytes limits then close c protocolError protocol_error h else
      let fresh := 1000 <=? at_ - cn_windowStartedAt k in
      let messages := (if fresh then 0 else cn_messagesInWindow k) + 1 in
      let h := put_own c (set_window (if fresh then at_ else cn_windowStartedAt k) messages) h in
      if messages >? maxMessagesPerSecond limits then close c limitExceeded limit h else
      match parseClientMessage data with
      | None => close c protocolError protocol_error h
      | Some op_pong => put_own c (set_unanswered 0) h
      | Some (op_subscribe ch cl market) => await (subscribing c ch cl market) h
      | Some (op_unsubscribe ch cl market) => unsubscribe c ch cl market h
      end
  end.

Definition beat (h : Hub) (c : nat) : Hub :=
  match connections h !! c with
  | None => h
  | Some k =>
      if 2 <=? cn_unansweredPings k then close c slowConsumer slow_consumer h
      else send c ping (put_own c (set_unanswered (cn_unansweredPings k + 1)) h)
  end.

Definition heartbeat (h : Hub) : Hub := fold_left beat (open h) h.

(** [recheckSessions] goes on to the next connection that is not closed. *)
Fixpoint recheck (rest : list nat) (h : Hub) : Hub :=
  match rest with
  | [] => h
  | c :: others => if is_closed c h then recheck others h else await (rechecking rest) h
  end.

Definition market_of (marketId : string) : option HubMarket := last (filter (fun m => hm_marketId m = marketId) markets).

(** [flushTickers] goes on to the next market that anyone watches. *)
Fixpoint flush (due : list string) (h : Hub) : Hub :=
  match due with
  | [] => h
  | marketId :: others =>
      match market_of marketId with
      | Some m => match subscribers h !! key ticker_channel (hm_symbol m) with
                  | Some (_ :: _) => await (flushing due) h
                  | _ => flush others h
                  end
      | None => flush others h
      end
  end.

(** [admit] *)
Definition admission (userId ip : string) (h : Hub) : option string :=
  if maxSocketsPerUser limits <=? Z.of_nat (length (default [] (byUser h !! userId))) then Some "user_limit" else
  if maxSocketsPerIp limits <=? default 0 (byIp h !! ip) then Some "ip_limit" else None.

(** The connection's id is the number of the hub's next object. *)
Definition attach (userId ip sessionToken : string) (at_ : Z) (h : Hub) : Hub :=
  let c := fresh_id h in
  mkHub (<[c := mkConnection userId ip sessionToken [] false 0 at_ 0 None false false]> (connections h))
    (open h ++ [c])
    (<[userId := with_last c (default [] (byUser h !! userId))]> (byUser h))
    (<[ip := default 0 (byIp h !! ip) + 1]> (byIp h))
    (subscribers h) (tickerDirty h) (jobs h) (S c) (wire h).

Definition usersChanged (userIds : list string) (now : Z) (h : Hub) : Hub :=
  fold_left (fun h userId =>
    fold_left (fun h c => match connections h !! c with
                          | Some k => match cn_accountCursor k with Some _ => pushAccount c now h | None => h end
                          | None => h
                          end) (default [] (byUser h !! userId)) h) userIds h.

Definition stop (h : Hub) : Hub := fold_left (fun h c => close c goingAway shutdown h) (open h) h.

(** What a job is answered with. A rejected promise is an error. *)
Inductive Answer :=
| session_answer (valid : result bool)
| trades_answer (rows : list TradeRow)
| ticker_answer (ticker : option Ticker)
| rows_answer (rows : result (list ChangedOrder * list SettledFill)).

(** [recentTrades]: the newest, oldest first. *)
Definition recent (rows : list TradeRow) : list TradeView := map tradeFromRecord (rev (take RECENT_TRADES rows)).

(** The session's answer about a connection, which stands in the record of what passed. *)
Definition with_session (c : nat) (valid : result bool) (failed : Hub -> Hub) (k : Hub -> Hub) (h : Hub) : Hub :=
  match valid with
  | Throw _ => failed h
  | Ok b => let h := log (session_said c b) h in if b then k h else close c sessionEnded session_ended h
  end.

Definition resume (books : string -> option BookView) (j : Job) (a : Answer) (now : Z) (h : Hub) : Hub :=
  match j, a with
  | subscribing c ch cl symbol, session_answer valid =>
      with_session c valid (send c (error_message unavailable)) (subscribe books c ch cl symbol now) h
  | trades_for c symbol, trades_answer rows => send c (trades_snapshot symbol (recent rows)) h
  | ticker_for c symbol, ticker_answer (Some t) => send c (ticker_message symbol t) h
  | trades_for_all symbol, trades_answer rows => broadcast trades_channel symbol (trades_snapshot symbol (recent rows)) h
  | push_reads c readAt since, rows_answer (Ok (orders, fills)) =>
      match is_open c h with
      | Some k =>
          match cn_accountCursor k with
          | Some _ => await (push_checks c readAt (listChangedSince (cn_userId k) since PRIVATE_BATCH orders)
                                                  (listForUser (cn_userId k) since PRIVATE_BATCH fills)) h
          | None => push_end c h
          end
      | None => push_end c h
      end
  | push_reads c _ _, rows_answer (Throw _) => push_end c h
  | push_checks c readAt orders fills, session_answer valid =>
      match valid with
      | Ok false => push_end c (close c sessionEnded session_ended (log (session_said c false) h))
      | _ => with_session c valid (push_end c) (push_send c readAt orders fills now) h
      end
  | rechecking (c :: others), session_answer valid =>
      recheck others (with_session c valid (fun h => h) (fun h => h) h)
  | flushing (marketId :: others), ticker_answer t =>
      flush others (match t, market_of marketId with
                    | Some t, Some m => broadcast ticker_channel (hm_symbol m) (ticker_message (hm_symbol m) t) h
                    | _, _ => h
                    end)
  | _, _ => h
  end.

(** ** Events *)

Inductive Event :=
| attaches (userId ip sessionToken : string) (at_ : Z)
| frame (c : nat) (data : string) (at_ : Z)
| gone (c : nat)
| users_changed (userIds : list string) (now : Z)
| tape_changed (marketId : string)
| heartbeat_due
| recheck_due
| flush_due
| fanned (books : string -> option BookView) (symbol : string) (m : FanoutMessage)
| answered (books : string -> option BookView) (job : nat) (a : Answer) (now : Z)
| stops.

Definition step (e : Event) (h : Hub) : Hub :=
  match e with
  | attaches userId ip token at_ => attach userId ip token at_ h
  | frame c data at_ => onMessage c data at_ h
  | gone c => detach c h
  | users_changed userIds now => usersChanged userIds now h
  | tape_changed marketId => set_dirty (with_last marketId) h
  | heartbeat_due => heartbeat h
  | recheck_due => recheck (open h) h
  | flush_due => flush (tickerDirty h) (set_dirty (fun _ => []) h)
  | fanned books symbol m => onFanout books symbol m h
  | answered books job a now =>
      match jobs h !! job with
      | Some j => resume books j a now (set_jobs (delete job) h)
      | None => h
      end
  | stops => stop h
  end.

Definition run (events : list Event) (h : Hub) : Hub := fold_left (fun h e => step e h) events h.

Definition createSocketHub : Hub := mkHub ∅ [] ∅ ∅ ∅ [] ∅ 0 [].
End Hub.
