(* ===== verification/Screen.v ===== *)
(** * What the screen draws

    [apps/web/features/trading/book-state.ts]: the order book a browser shows, as a function of
    the messages it was sent, and what is true of it when the messages tell the history of an
    engine's book ([fed]). The texts of sequences, prices and quantities are their numbers. *)

From Stdlib Require Import ZArith Lia Ascii.
From stdpp Require Import base list strings gmap sorting.
From S2P Require Import Prelude Decimal Assets Orders Store Events Tape Fanout Fidelity Hub.

Open Scope string_scope.
Open Scope list_scope.
Open Scope Z_scope.

(** ** The book *)

Inductive BookStatus := empty_book | live | stale.

Record BookState := mkBookState {
  bk_status : BookStatus;
  bk_seq : option Z;
  bk_sides : Sides;
  bk_truncated : bool;
  bk_needsSnapshot : bool
}.

Definition EMPTY_BOOK : BookState := mkBookState empty_book None (mkSides ∅ ∅) false false.

Inductive BookMessage :=
| snapshot_message (book : BookView)
| delta_message (seq : Z) (changes : list LevelChange)
| resync_message.

(** The messages of the market's book among those a socket brings. *)
Definition book_message (market : string) (m : WsServerMessage) : option BookMessage :=
  match m with
  | book_snapshot symbol v => if bool_decide (symbol = market) then Some (snapshot_message v) else None
  | book_delta symbol seq changes => if bool_decide (symbol = market) then Some (delta_message seq changes) else None
  | book_resync symbol => if bool_decide (symbol = market) then Some resync_message else None
  | _ => None
  end.

(** [side] of a snapshot. *)
Definition shown_side (levels : list (Z * Z)) : gmap Z Z :=
  fold_left (fun map level => if level.2 >? 0 then <[level.1 := level.2]> map else map) levels ∅.

(** A change is absolute: set, never added; zero removes the level. *)
Definition show_change (sides : Sides) (change : LevelChange) : Sides :=
  let set_side (side : gmap Z Z) := if lc_qty change =? 0 then delete (lc_price change) side else <[lc_price change := lc_qty change]> side in
  match lc_side change with
  | buy => mkSides (set_side (bids sides)) (asks sides)
  | sell => mkSides (bids sides) (set_side (asks sides))
  end.

Definition applyBookMessage (state : BookState) (message : BookMessage) : BookState :=
  match message with
  | snapshot_message v =>
      mkBookState live (Some (vw_seq v)) (mkSides (shown_side (vw_bids v)) (shown_side (vw_asks v))) (vw_truncated v) false
  | resync_message =>
      match bk_status state with
      | empty_book => state
      | _ => mkBookState stale (bk_seq state) (bk_sides state) (bk_truncated state) (bk_needsSnapshot state)
      end
  | delta_message seq changes =>
      match bk_seq state, bk_status state with
      | Some current, live =>
          if seq <=? current then state else
          if negb (seq =? current + 1) then mkBookState stale (Some current) (bk_sides state) (bk_truncated state) true else
          mkBookState live (Some seq) (fold_left show_change changes (bk_sides state)) (bk_truncated state) (bk_needsSnapshot state)
      | _, _ => state
      end
  end.

Definition show (messages : list BookMessage) : BookState := fold_left applyBookMessage messages EMPTY_BOOK.

(** [bookRows]: best first, with running totals. *)
Fixpoint cumulate (total : Z) (levels : list (Z * Z)) : list (Z * Z * Z) :=
  match levels with
  | [] => []
  | (price, qty) :: levels => (price, qty, total + qty) :: cumulate (total + qty) levels
  end.

Definition bookRows (side : Side) (limit : nat) (levels : gmap Z Z) : list (Z * Z * Z) :=
  cumulate 0 (sorted_side levels (match side with buy => true | sell => false end) limit).

(** [topOfBook] *)
Definition best (better : Z -> Z -> bool) (levels : gmap Z Z) : option Z :=
  fold_left (fun found price => match found with None => Some price | Some other => Some (if better price other then price else other) end)
    (map fst (map_to_list levels)) None.

Definition topOfBook (state : BookState) : option Z * option Z * option Z :=
  let bid := best Z.gtb (bids (bk_sides state)) in
  let ask := best Z.ltb (asks (bk_sides state)) in
  (bid, ask, match bid, ask with Some b, Some a => Some (Z.quot (b + a) 2) | _, _ => None end).

(** ** What a book that is drawn is worth *)

(** The messages of one market's book, from the engine's history: a snapshot of it at some
    sequence, every following sequence until a resync, and again; a connection may be lost
    between any two. With them, the sequence they have reached, from the one at their start. *)
Inductive fed (h : History) (maxLevels : nat) (start : option Z) : list BookMessage -> option Z -> Prop :=
| fed_nothing : fed h maxLevels start [] start
| fed_snapshot log st n : fed h maxLevels start log st -> fed h maxLevels start (log ++ [snapshot_message (view_of n (truth h n) maxLevels)]) (Some n)
| fed_delta log n : fed h maxLevels start log (Some n) -> fed h maxLevels start (log ++ [delta_message (n + 1) (changes_of h (n + 1))]) (Some (n + 1))
| fed_resync log st : fed h maxLevels start log st -> fed h maxLevels start (log ++ [resync_message]) None
| fed_cut log st : fed h maxLevels start log st -> fed h maxLevels start log None.

(** A book has no empty level. *)
Definition positive_side (side : gmap Z Z) : Prop := map_Forall (fun _ qty => 0 < qty) side.
Definition positive (h : History) : Prop := forall n, positive_side (bids (truth h n)) /\ positive_side (asks (truth h n)).

Fixpoint last_snapshot (log : list BookMessage) (found : option BookView) : option BookView :=
  match log with
  | [] => found
  | snapshot_message v :: log => last_snapshot log (Some v)
  | _ :: log => last_snapshot log found
  end.

(** The prices a snapshot speaks of: all, if it is whole, else those no worse than the last it has. *)
Definition speaks_of (v : BookView) (side : Side) (price : Z) : Prop :=
  vw_truncated v = false \/
  match side with
  | buy => exists l, last (vw_bids v) = Some l /\ l.1 <= price
  | sell => exists l, last (vw_asks v) = Some l /\ price <= l.1
  end.

(** What is shown is there, and what is spoken of is shown. *)
Definition shows (spoken : Z -> Prop) (shown real : gmap Z Z) : Prop :=
  shown ⊆ real /\ forall price, spoken price -> shown !! price = real !! price.

Definition drawn (h : History) (v : BookView) (s : Z) (shown : Sides) : Prop :=
  shows (speaks_of v buy) (bids shown) (bids (truth h s)) /\ shows (speaks_of v sell) (asks shown) (asks (truth h s)).

Lemma last_snapshot_app l l' found : last_snapshot (l ++ l') found = last_snapshot l' (last_snapshot l found).
Proof. revert found. induction l as [|[] l IH]; intros found; simpl; auto. Qed.

Lemma shown_side_lookup levels price qty :
  NoDup levels.*1 -> shown_side levels !! price = Some qty <-> (price, qty) ∈ levels /\ 0 < qty.
Proof.
  intros Hnd. unfold shown_side. assert (H : forall m : gmap Z Z, (forall p, p ∈ levels.*1 -> m !! p = None) ->
    fold_left (fun map level => if level.2 >? 0 then <[level.1 := level.2]> map else map) levels m !! price = Some qty <->
    (price, qty) ∈ levels /\ 0 < qty \/ m !! price = Some qty).
  { revert Hnd. induction levels as [|[p q] levels IH]; intros Hnd m Hm; simpl; [set_solver|].
    apply NoDup_cons in Hnd as [Hp Hnd]. simpl in Hp. rewrite IH; [|done|].
    - rewrite elem_of_cons. assert (Hmp : m !! p = None) by (apply Hm; set_solver).
      destruct (Z.gtb_spec q 0); [rewrite lookup_insert_Some|]; naive_solver (lia || congruence).
    - intros p' Hp'. assert (p' <> p) by (intros ->; contradiction). destruct (q >? 0); [rewrite lookup_insert_ne by done|]; apply Hm; set_solver. }
  rewrite H by (intros; apply lookup_empty). rewrite lookup_empty. naive_solver.
Qed.

(** What a view has of a side. *)
Lemma sorted_keys (side : gmap Z Z) descending :
  let prices := merge_sort Z.le (map_to_list side).*1 in
  let prices := if descending : bool then rev prices else prices in
  NoDup prices /\ (forall p, p ∈ prices <-> is_Some (side !! p)) /\
  StronglySorted (fun a b => if descending then b <= a else a <= b) prices.
Proof.
  intros prices0 prices. assert (Hp : prices0 ≡ₚ (map_to_list side).*1) by apply merge_sort_Permutation.
  assert (Hs : StronglySorted Z.le prices0) by (apply (StronglySorted_merge_sort _); intros ????; lia).
  assert (Hnd : NoDup prices0) by (rewrite Hp; apply NoDup_fst_map_to_list).
  assert (Hin : forall p, p ∈ prices0 <-> is_Some (side !! p)).
  { intros p. rewrite Hp, list_elem_of_fmap. split.
    - intros ([p' q] & -> & Hpq%elem_of_map_to_list). by eexists.
    - intros [q Hq]. exists (p, q). split; [done|]. by apply elem_of_map_to_list. }
  unfold prices. destruct descending; [|done]. split_and!.
  - apply NoDup_ListNoDup, NoDup_rev, NoDup_ListNoDup, Hnd.
  - intros p. rewrite <- Hin, !list_elem_of_In. symmetry. apply in_rev.
  - clear -Hs. induction Hs as [|x l Hl IH Hx]; simpl; [constructor|]. apply StronglySorted_app_2; [|done|by repeat constructor].
    intros a b Ha Hb. apply list_elem_of_singleton in Hb as ->. rewrite list_elem_of_In, <- in_rev, <- list_elem_of_In in Ha.
    rewrite Forall_forall in Hx. by apply Hx.
Qed.

Lemma change_shows spoken c shown real :
  shows spoken shown real -> shows spoken (set_level c shown) (set_level c real).
Proof.
  intros [Hs He]. unfold set_level. destruct (lc_qty c =? 0).
  - split; [by apply delete_mono|]. intros price Hp. destruct (decide (lc_price c = price)) as [->|Hn]; [by rewrite !lookup_delete_eq|].
    rewrite !lookup_delete_ne by done. by apply He.
  - split; [by apply insert_mono|]. intros price Hp. destruct (decide (lc_price c = price)) as [->|Hn]; [by rewrite !lookup_insert_eq|].
    rewrite !lookup_insert_ne by done. by apply He.
Qed.

Lemma changes_shown v changes shown real :
  shows (speaks_of v buy) (bids shown) (bids real) /\ shows (speaks_of v sell) (asks shown) (asks real) ->
  let shown' := fold_left show_change changes shown in let real' := apply_changes changes real in
  shows (speaks_of v buy) (bids shown') (bids real') /\ shows (speaks_of v sell) (asks shown') (asks real').
Proof.
  unfold apply_changes. revert shown real. induction changes as [|c changes IH]; intros shown real H; [done|]. simpl. apply IH.
  change (show_change shown c) with (apply_change shown c). unfold apply_change. destruct H. destruct (lc_side c); simpl; split; try done; by apply change_shows.
Qed.

Lemma view_shows (side : gmap Z Z) descending max (spoken : Z -> Prop) :
  positive_side side ->
  (forall p, spoken p -> (size side <= max)%nat \/
     exists l, last (sorted_side side descending max) = Some l /\ if descending : bool then l.1 <= p else p <= l.1) ->
  shows spoken (shown_side (sorted_side side descending max)) side.
Proof.
  intros Hpos Hspoken. destruct (sorted_keys side descending) as (Hnd & Hin & Hs).
  unfold sorted_side in *. set (prices := if descending then rev _ else _) in *.
  set (level := fun price => (price, default 0 (side !! price))) in *.
  assert (Hkeys : (map level (take max prices)).*1 = take max prices).
  { change (map level) with (fmap (M := list) level). rewrite <- list_fmap_compose. by apply list_fmap_id. }
  assert (Hlook : forall p q, shown_side (map level (take max prices)) !! p = Some q <-> p ∈ take max prices /\ side !! p = Some q).
  { intros p q. rewrite shown_side_lookup.
    2: { rewrite Hkeys. rewrite <- (take_drop max prices) in Hnd. by apply NoDup_app in Hnd as [? _]. }
    rewrite list_elem_of_fmap. unfold level. split.
    - intros [(p' & [= <- ->] & Hp) Hq]. split; [done|]. assert (p ∈ prices) as [q Hpq]%Hin by (rewrite <- (take_drop max prices); set_solver). by rewrite Hpq.
    - intros [Hp Hpq]. split; [|by apply (Hpos p q)]. exists p. by rewrite Hpq. }
  split.
  - apply map_subseteq_spec. intros p q Hpq. by apply Hlook in Hpq as [_ ?].
  - intros p Hp. destruct (side !! p) as [q|] eqn:Epq.
    + apply Hlook. split; [|done]. assert (Hpin : p ∈ prices) by (apply Hin; by eexists).
      destruct (Hspoken p Hp) as [Hall|(l & Hl & Hcut)].
      * rewrite take_ge; [done|]. assert (length prices = size side) as ->; [|done].
        rewrite <- length_map_to_list, <- (length_fmap fst). apply Permutation_length, NoDup_Permutation; [done|apply NoDup_fst_map_to_list|].
        intros x. rewrite Hin, list_elem_of_fmap. split; [intros [y Hy]; exists (x, y); split; [done|by apply elem_of_map_to_list]|].
        intros ([x' y] & -> & Hy%elem_of_map_to_list). by eexists.
      * rewrite <- (take_drop max prices) in Hpin. apply elem_of_app in Hpin as [?|Hd]; [done|].
        change (map level) with (fmap (M := list) level) in Hl. rewrite fmap_last in Hl. destruct (last (take max prices)) as [c|] eqn:Ec; [|done]. injection Hl as <-.
        apply last_Some in Ec as [front Ec]. assert (Hc : c ∈ take max prices) by (rewrite Ec; set_solver). simpl in Hcut.
        rewrite <- (take_drop max prices) in Hs, Hnd. apply NoDup_app in Hnd as (_ & Hdis & _).
        assert (Hord := StronglySorted_app_1_elem_of _ _ _ c p Hs Hc Hd). simpl in Hord.
        assert (p = c) as -> by (destruct descending; lia). done.
    + apply eq_None_not_Some. intros [q [_ Hq]%Hlook]. congruence.
Qed.

Lemma snapshot_drawn h n maxLevels :
  positive h -> let v := view_of n (truth h n) maxLevels in drawn h v n (mkSides (shown_side (vw_bids v)) (shown_side (vw_asks v))).
Proof.
  intros Hpos v. destruct (Hpos n) as [Hb Ha]. split; simpl; apply view_shows; try done; intros p [Ht|Hp]; [left|right; done|left|right; done];
    simpl in Ht; apply orb_false_iff in Ht as [Hl%Nat.ltb_ge Hr%Nat.ltb_ge]; lia.
Qed.

(** What the messages say is what is drawn; before the first snapshot nothing is. *)
Lemma fed_drawn h maxLevels start messages st :
  consistent h -> positive h -> fed h maxLevels start messages st ->
  let b := show messages in
  bk_needsSnapshot b = false /\
  (forall s, st = Some s -> b = EMPTY_BOOK /\ last_snapshot messages None = None \/ bk_status b = live /\ bk_seq b = Some s) /\
  (bk_status b = live -> exists s v, bk_seq b = Some s /\ last_snapshot messages None = Some v /\ drawn h v s (bk_sides b) /\ bk_truncated b = vw_truncated v).
Proof.
  intros Hh Hpos. unfold show. induction 1 as [|log st n _ IH|log n _ IH|log st _ IH|log st _ IH]; simpl in *.
  - split; [done|]. split; [by left|done].
  - rewrite fold_left_app, last_snapshot_app. simpl. split; [done|]. split; [intros s [= <-]; by right|]. intros _.
    eexists _, _. split; [done|]. split; [done|]. split; [by apply snapshot_drawn|done].
  - rewrite fold_left_app, last_snapshot_app. destruct IH as (Hn & Hs & Hl). destruct (Hs n eq_refl) as [[-> Hsnap]|[Hlive Hseq]].
    { simpl. split; [done|]. split; [intros; by left|done]. }
    destruct (Hl Hlive) as (s & v & Hseq' & Hv & Hd & Ht). simpl. rewrite Hlive, Hseq. assert (s = n) as -> by congruence.
    destruct (Z.leb_spec (n + 1) n); [lia|]. rewrite Z.eqb_refl. simpl. split; [done|]. split; [intros s [= <-]; by right|]. intros _.
    exists (n + 1), v. split; [done|]. split; [done|]. split; [|done]. unfold drawn. rewrite Hh. by apply changes_shown.
  - rewrite fold_left_app, last_snapshot_app. destruct IH as (Hn & Hs & Hl). simpl. split; [|split; [done|]]; destruct (bk_status _) eqn:E; simpl; (done || congruence).
  - destruct IH as (Hn & Hs & Hl). done.
Qed.

(** Connections follow one another. *)
Lemma fed_app h maxLevels start l1 s1 l2 s2 :
  fed h maxLevels start l1 s1 -> fed h maxLevels None l2 s2 -> exists st, fed h maxLevels start (l1 ++ l2) st /\ (st = s2 \/ s2 = None).
Proof.
  intros H1. induction 1 as [|log st n _ IH|log n _ IH|log st _ IH|log st _ IH].
  - exists s1. rewrite app_nil_r. auto.
  - destruct IH as (s & Hs & _). exists (Some n). rewrite app_assoc. split; [by eapply fed_snapshot|auto].
  - destruct IH as (s & Hs & [->|?]); [|done]. exists (Some (n + 1)). rewrite app_assoc. split; [by apply fed_delta|auto].
  - destruct IH as (s & Hs & _). exists None. rewrite app_assoc. split; [by eapply fed_resync|auto].
  - destruct IH as (s & Hs & _). exists None. split; [by eapply fed_cut|auto].
Qed.

Lemma fed_concat h maxLevels ls : Forall (fun l => exists st, fed h maxLevels None l st) ls -> exists st, fed h maxLevels None (concat ls) st.
Proof.
  induction 1 as [|l ls [s1 H1] _ [s2 H2]]; simpl; [eexists; constructor|]. destruct (fed_app _ _ _ _ _ _ _ H1 H2) as (st & ? & _). by exists st.
Qed.

Lemma prefix_of_snoc {A} (l' l : list A) x : l' `prefix_of` l ++ [x] -> l' = l ++ [x] \/ l' `prefix_of` l.
Proof.
  intros [k E]. destruct k as [|y k _] using rev_ind; [left; by rewrite app_nil_r in E|right].
  rewrite app_assoc in E. apply app_inj_tail in E as [-> _]. by exists k.
Qed.

(** Messages are delivered in order, as far as the connection lasts. *)
Lemma fed_prefix h maxLevels start l st l' : fed h maxLevels start l st -> l' `prefix_of` l -> exists st', fed h maxLevels start l' st'.
Proof.
  intros H. revert l'. assert (Hnil : fed h maxLevels start [] start) by constructor.
  induction H as [|log st n H IH|log n H IH|log st H IH|log st H IH]; intros l' Hl'; [apply prefix_nil_inv in Hl' as ->; eauto|..|auto];
    apply prefix_of_snoc in Hl' as [->|Hl']; auto; eexists; by econstructor.
Qed.

(** A listener may come in the middle. *)
Lemma fed_drop h maxLevels start l st k : fed h maxLevels start l st -> exists start', fed h maxLevels start' (drop k l) st.
Proof.
  intros H. assert (Hsnoc : forall log (x : BookMessage), (exists log', drop k log = log' /\ drop k (log ++ [x]) = log' ++ [x]) \/ drop k (log ++ [x]) = []).
  { intros log x. destruct (decide (k <= length log)%nat); [left; eexists; split; [done|]; by rewrite drop_app_le|right]. apply drop_ge. rewrite length_app. simpl. lia. }
  induction H as [|log st n H [start' IH]|log n H [start' IH]|log st H [start' IH]|log st H [start' IH]].
  - rewrite drop_nil. eexists. constructor.
  - destruct (Hsnoc log (snapshot_message (view_of n (truth h n) maxLevels))) as [(? & <- & ->)| ->]; eexists; by econstructor.
  - destruct (Hsnoc log (delta_message (n + 1) (changes_of h (n + 1)))) as [(? & <- & ->)| ->]; eexists; by econstructor.
  - destruct (Hsnoc log resync_message) as [(? & <- & ->)| ->]; eexists; by econstructor.
  - eexists. by eapply fed_cut.
Qed.
