(* ===== verification/Sockets.v ===== *)
(** * What a socket is sent

    Proofs about [Hub], for any run of events. Every event is a sequence of primitive changes,
    [prim]; an invariant is proved of these. Four are: the indexes agree with the open
    connections, subscriptions are bounded and answered, what is private was asked for with a
    live session, and every socket's messages of a book are [Screen.fed]. *)

From Stdlib Require Import ZArith Lia.
From stdpp Require Import base list strings gmap sorting relations.
From S2P Require Import Prelude Decimal Assets Orders Store Events Tape Fanout Fidelity Hub Screen.

Open Scope string_scope.
Open Scope list_scope.
Open Scope Z_scope.

(** ** What a connection is known by *)

Definition user_of (h : Hub) (c : nat) : option string := cn_userId <$> connections h !! c.
Definition ip_of (h : Hub) (c : nat) : option string := cn_ip <$> connections h !! c.
Definition subs_of (h : Hub) (c : nat) : list string := default [] (cn_subscriptions <$> connections h !! c).
Definition audience_of (h : Hub) (subscription : string) : list nat := default [] (subscribers h !! subscription).

Definition is_private (m : WsServerMessage) : bool := match m with order_message _ | fill_message _ | balances_changed => true | _ => false end.
Definition is_book (m : WsServerMessage) : bool := match m with book_snapshot _ _ | book_delta _ _ _ | book_resync _ => true | _ => false end.

(** A message a user may see. *)
Definition private_to (userId : string) (m : WsServerMessage) : Prop :=
  match m with
  | order_message o => o_user o = userId
  | fill_message v => exists f, v = toUserFillView (user_side userId f) /\ (f_takerUserId f = userId \/ f_makerUserId f = userId)
  | balances_changed => True
  | _ => False
  end.

(** The last thing that passed, but for private messages to the same connection, is that its
    session is valid. *)
Definition just_checked (c : nat) (w : list Wire) : Prop :=
  exists before ms, w = before ++ session_said c true :: map (sent c) ms.

(** The rows a job holds are its user's. *)
Definition job_ok (h : Hub) (j : Job) : Prop :=
  match j with
  | push_checks c _ orders fills =>
      exists u, user_of h c = Some u /\ Forall (fun o => private_to u (order_message o)) orders /\
        Forall (fun f => private_to u (fill_message (toUserFillView f))) fills
  | _ => True
  end.

Record static (h : Hub) : Prop := {
  st_fresh : forall c, is_Some (connections h !! c) -> (c < fresh_id h)%nat;
  st_jobs : forall i j, jobs h !! i = Some j -> job_ok h j
}.

Section Sockets.
Context (cluster : Cluster) (servedClusters : list Cluster) (markets : list HubMarket) (limits : HubLimits).
Context (bufferedAmount : nat -> list Wire -> Z) (send_throws : nat -> list Wire -> bool).
Context (byteLength : string -> Z) (parseClientMessage : string -> option WsClientMessage).

Notation send := (Hub.send limits bufferedAmount send_throws).
Notation step := (Hub.step cluster servedClusters markets limits bufferedAmount send_throws byteLength parseClientMessage).
Notation run := (Hub.run cluster servedClusters markets limits bufferedAmount send_throws byteLength parseClientMessage).

(** ** Primitive changes *)

(** [books] is what the fan-outs vouch for while the event is handled, [fan] whether it is one
    of theirs. *)
Inductive prim (fan : bool) (books : string -> option BookView) : Hub -> Hub -> Prop :=
| pr_attach u ip token t h : prim fan books h (attach u ip token t h)
| pr_detach c h : prim fan books h (detach c h)
| pr_close c code reason h : prim fan books h (close c code reason h)
| pr_send c m h k : is_open c h = Some k -> (fan = false -> is_book m = false) -> is_private m = false -> prim fan books h (log (sent c m) h)
| pr_private c m h k : is_open c h = Some k -> private_to (cn_userId k) m -> just_checked c (wire h) -> prim fan books h (log (sent c m) h)
| pr_said c b h : prim fan books h (log (session_said c b) h)
| pr_own c f h : prim fan books h (put_own c f h)
| pr_done i h : prim fan books h (set_jobs (delete i) h)
| pr_await j h : job_ok h j -> prim fan books h (await j h)
| pr_dirty f h : prim fan books h (set_dirty f h)
| pr_add c s h k : is_open c h = Some k -> s ∉ cn_subscriptions k -> Z.of_nat (length (cn_subscriptions k)) < maxSubscriptions limits ->
    prim fan books h (put_subscriptions c (fun subs => subs ++ [s]) h)
| pr_join c s h : is_Some (user_of h c) -> (forall symbol, s <> key book_channel symbol) -> (forall k, is_open c h = Some k -> s ∈ cn_subscriptions k) -> prim fan books h (join c s h)
| pr_join_book c symbol h : is_Some (user_of h c) -> (forall k, is_open c h = Some k -> key book_channel symbol ∈ cn_subscriptions k) ->
    prim fan books h (join c (key book_channel symbol) (send c (bookSnapshot books symbol) h))
| pr_leave c s h : prim fan books h (set_subscribers (alter (without c) s) (put_subscriptions c (without s) h)).

Notation prims fan books := (rtc (prim fan books)).

(** *** Facts on fields *)

Lemma is_open_Some c h k : is_open c h = Some k <-> connections h !! c = Some k /\ cn_closed k = false.
Proof. unfold is_open. destruct (connections h !! c) as [k'|]; [destruct (cn_closed k') eqn:E|]; naive_solver congruence. Qed.

Lemma is_closed_false c h : is_closed c h = false -> exists k, is_open c h = Some k.
Proof. unfold is_closed, is_open. destruct (connections h !! c) as [k|]; simpl; [|done]. intros ->. by exists k. Qed.

Lemma own_same c f h d :
  connections (put_own c f h) !! d = (fun k => if decide (d = c) then with_own k (f (own_of k)) else k) <$> connections h !! d.
Proof.
  unfold put_own, set_connections. simpl. destruct (decide (d = c)) as [->|Hn].
  - by rewrite lookup_alter_eq.
  - rewrite lookup_alter_ne by done. by destruct (connections h !! d).
Qed.

Lemma own_open c f h d : is_open d (put_own c f h) = (fun k => if decide (d = c) then with_own k (f (own_of k)) else k) <$> is_open d h.
Proof. unfold is_open. rewrite own_same. destruct (connections h !! d) as [k|]; simpl; [|done]. destruct (decide (d = c)); simpl; by destruct (cn_closed k). Qed.

Lemma own_user c f h d : user_of (put_own c f h) d = user_of h d.
Proof. unfold user_of. rewrite own_same. destruct (connections h !! d); simpl; [|done]. by destruct (decide (d = c)). Qed.

Lemma detach_open c h d k : is_open d (detach c h) = Some k <-> is_open d h = Some k /\ d <> c.
Proof.
  unfold detach. destruct (is_open c h) as [kc|] eqn:E.
  - rewrite !is_open_Some. simpl. destruct (decide (d = c)) as [->|Hn].
    + rewrite lookup_insert_eq. naive_solver.
    + rewrite lookup_insert_ne by done. naive_solver.
  - split; [|naive_solver]. intros H. split; [done|]. intros ->. congruence.
Qed.

Lemma detach_user c h d : user_of (detach c h) d = user_of h d.
Proof.
  unfold detach. destruct (is_open c h) as [kc|] eqn:E; [|done]. apply is_open_Some in E as [E _]. unfold user_of. simpl.
  destruct (decide (d = c)) as [->|Hn]; [rewrite lookup_insert_eq, E; done|by rewrite lookup_insert_ne].
Qed.

Lemma detach_wire c h : wire (detach c h) = wire h.
Proof. unfold detach. by destruct (is_open c h). Qed.

Lemma close_open c code reason h d k : is_open d (close c code reason h) = Some k <-> is_open d h = Some k /\ d <> c.
Proof.
  unfold close. destruct (is_open c h) eqn:E; [apply (detach_open c h d k)|]. split; [|naive_solver]. intros H. split; [done|]. intros ->. congruence.
Qed.

Lemma close_user c code reason h d : user_of (close c code reason h) d = user_of h d.
Proof. unfold close. destruct (is_open c h) eqn:E; [|done]. apply (detach_user c h d). Qed.

(** [send] sends, or the connection is lost. *)
Lemma send_cases c m h :
  (is_open c h = None /\ send c m h = h) \/
  (exists k, is_open c h = Some k /\ (send c m h = log (sent c m) h \/ send c m h = detach c h \/ send c m h = close c slowConsumer slow_consumer h)).
Proof. unfold Hub.send. destruct (is_open c h) as [k|] eqn:E; [right; exists k; split; [done|]|by left]. destruct (_ >? _); [auto|]. destruct (send_throws c (wire h)); auto. Qed.

Lemma send_open c m h d k : is_open d (send c m h) = Some k -> is_open d h = Some k.
Proof.
  destruct (send_cases c m h) as [[_ ->]|(kc & _ & [->|[->| ->]])]; [done|done|intros [? _]%detach_open; done|intros [? _]%close_open; done].
Qed.

Lemma send_user c m h d : user_of (send c m h) d = user_of h d.
Proof. destruct (send_cases c m h) as [[_ ->]|(kc & _ & [->|[->| ->]])]; [done|done|apply detach_user|apply close_user]. Qed.

Lemma user_open c h k : is_open c h = Some k -> user_of h c = Some (cn_userId k).
Proof. intros [E _]%is_open_Some. unfold user_of. by rewrite E. Qed.

Lemma subs_user c f h d : user_of (put_subscriptions c f h) d = user_of h d.
Proof.
  unfold user_of, put_subscriptions, set_connections. simpl. destruct (decide (d = c)) as [->|Hn]; [|by rewrite lookup_alter_ne].
  rewrite lookup_alter_eq. by destruct (connections h !! c).
Qed.

Lemma key_inj ch s ch' s' : key ch s = key ch' s' -> ch = ch' /\ s = s'.
Proof. destruct ch, ch'; unfold key; simpl; intros E; try discriminate; by injection E. Qed.

(** *** Every event is made of primitive changes *)

Section Decomposition.
Context (fan : bool) (books : string -> option BookView).

Lemma send_prims c m h : (fan = false -> is_book m = false) -> is_private m = false -> prims fan books h (send c m h).
Proof.
  intros Hb Hp. destruct (send_cases c m h) as [[_ ->]|(k & Hk & [->|[->| ->]])]; [done|apply rtc_once..].
  - by eapply pr_send.
  - apply pr_detach.
  - apply pr_close.
Qed.

Lemma broadcast_prims ch symbol m h :
  (fan = false -> is_book m = false) -> is_private m = false -> prims fan books h (broadcast limits bufferedAmount send_throws ch symbol m h).
Proof.
  intros Hb Hp. unfold broadcast. generalize (default [] (subscribers h !! key ch symbol)). intros cs. revert h.
  induction cs as [|c cs IH]; intros h; simpl; [done|]. etrans; [by apply send_prims|apply IH].
Qed.

Lemma push_round_prims c now h : prims fan books h (push_round c now h).
Proof.
  unfold push_round, push_end. eapply rtc_l; [apply pr_own|]. destruct (is_open c _) as [k|]; [|apply rtc_once, pr_own].
  destruct (cn_accountCursor k); apply rtc_once; [by apply pr_await|apply pr_own].
Qed.

Lemma pushAccount_prims c now h : prims fan books h (pushAccount c now h).
Proof.
  unfold pushAccount. destruct (default false _); [apply rtc_once, pr_own|]. eapply rtc_l; [apply pr_own|apply push_round_prims].
Qed.

(** Private messages, after the session's answer. *)
Definition checked (c : nat) (h : Hub) : Prop := is_open c h = None \/ just_checked c (wire h).

Lemma send_private_prims c m u h :
  user_of h c = Some u -> private_to u m -> checked c h -> prims fan books h (send c m h) /\ checked c (send c m h).
Proof.
  intros Hu Hm Hc. destruct (send_cases c m h) as [[Hn ->]|(k & Hk & [->|[->| ->]])]; [done|..].
  - destruct Hc as [Hc|Hc]; [congruence|]. pose proof (user_open c h k Hk) as Hu'. split.
    + apply rtc_once. eapply pr_private; [done| |done]. congruence.
    + right. destruct Hc as (l & ms & Hw). exists l, (ms ++ [m]). simpl. by rewrite Hw, map_app, <- app_assoc.
  - split; [apply rtc_once, pr_detach|left]. destruct (is_open c (detach c h)) eqn:E; [|done]. apply detach_open in E as [_ ?]. done.
  - split; [apply rtc_once, pr_close|left]. destruct (is_open c (close c _ _ h)) eqn:E; [|done]. apply close_open in E as [_ ?]. done.
Qed.

Lemma send_all_private {A} (msg : A -> WsServerMessage) xs c u h :
  user_of h c = Some u -> Forall (fun x => private_to u (msg x)) xs -> checked c h ->
  let h' := fold_left (fun h x => send c (msg x) h) xs h in prims fan books h h' /\ checked c h' /\ user_of h' c = Some u.
Proof.
  intros Hu Hxs. revert h Hu. induction Hxs as [|x xs Hx _ IH]; intros h Hu Hc; simpl; [done|].
  destruct (send_private_prims c (msg x) u h Hu Hx Hc) as [Hp Hc']. destruct (IH (send c (msg x) h)) as (? & ? & ?); [by rewrite send_user|done|].
  split; [by etrans|done].
Qed.

Lemma push_send_prims c readAt orders fills now h :
  job_ok h (push_checks c readAt orders fills) -> just_checked c (wire h) ->
  prims fan books h (push_send limits bufferedAmount send_throws c readAt orders fills now h).
Proof.
  intros (u & Hu & Ho & Hf) Hc. unfold push_send.
  destruct (send_all_private order_message orders c u h Hu Ho (or_intror Hc)) as (P1 & C1 & U1).
  destruct (send_all_private (fun f => fill_message (toUserFillView f)) fills c u _ U1 Hf C1) as (P2 & C2 & U2).
  etrans; [exact P1|]. etrans; [exact P2|]. clear P1 P2.
  set (h2 := fold_left _ fills _) in *. clearbody h2. destruct (send_private_prims c balances_changed u h2 U2 I C2) as [P3 _].
  etrans; [exact P3|]. eapply rtc_l; [apply pr_own|]. destruct (is_open c _) as [k|]; [|apply rtc_once, pr_own].
  destruct (cn_pushAgain k); [apply push_round_prims|apply rtc_once, pr_own].
Qed.

Lemma resolveMarket_prims c cl symbol need h r h' :
  resolveMarket cluster servedClusters markets limits bufferedAmount send_throws c cl symbol need h = (r, h') ->
  prims fan books h h' /\ (r <> refused -> h' = h) /\ (need = false -> forall s, r <> the_market s).
Proof.
  assert (Hr : forall code, prims fan books h (send c (error_message code) h)) by (intros; by apply send_prims).
  unfold resolveMarket, refuse. destruct need; simpl; repeat case_match; intros [= <- <-]; split_and!; try done; apply Hr.
Qed.

Lemma confirmed_prims c ch cl market now h :
  is_Some (user_of h c) -> (ch = account_channel -> market = None) ->
  (forall k, is_open c h = Some k -> key ch (default "" market) ∈ cn_subscriptions k) ->
  prims fan books h (confirmed limits bufferedAmount send_throws books c ch cl market now h).
Proof.
  intros Hu Hacc Hsub. unfold confirmed. etrans; [by apply (send_prims c (subscribed ch cl market))|].
  set (h1 := send c _ h). assert (Hu1 : is_Some (user_of h1 c)) by (unfold h1; by rewrite send_user). assert (Hsub1 : forall k, is_open c h1 = Some k -> key ch (default "" market) ∈ cn_subscriptions k) by (intros k Hk%send_open; auto).
  clearbody h1. destruct ch, market as [symbol|]; try done; try apply rtc_once, pr_own; try (by specialize (Hacc eq_refl)).
  - apply rtc_once, pr_join_book; [exact Hu1|exact Hsub1].
  - eapply rtc_l; [apply pr_join|apply rtc_once, pr_await]; [exact Hu1| |exact Hsub1|done]. by intros s [? _]%key_inj.
  - eapply rtc_l; [apply pr_join|apply rtc_once, pr_await]; [exact Hu1| |exact Hsub1|done]. by intros s [? _]%key_inj.
Qed.

Lemma subscribed_prims c ch cl market now h k :
  is_open c h = Some k -> (ch = account_channel -> market = None) ->
  let subscription := key ch (default "" market) in
  prims fan books h
    (if bool_decide (subscription ∈ cn_subscriptions k) then confirmed limits bufferedAmount send_throws books c ch cl market now h else
     if maxSubscriptions limits <=? Z.of_nat (length (cn_subscriptions k)) then close c limitExceeded limit h else
     confirmed limits bufferedAmount send_throws books c ch cl market now (put_subscriptions c (fun subs => subs ++ [subscription]) h)).
Proof.
  intros Hk Hacc subscription. assert (Hu : is_Some (user_of h c)) by (rewrite (user_open c h k Hk); by eexists).
  case_bool_decide as Hin; [apply confirmed_prims; [done|done|intros k'; rewrite Hk; by intros [= <-]]|].
  destruct (Z.leb_spec (maxSubscriptions limits) (Z.of_nat (length (cn_subscriptions k)))); [apply rtc_once, pr_close|].
  eapply rtc_l; [by eapply pr_add|apply confirmed_prims; [|done|]]; [by rewrite subs_user|]. apply is_open_Some in Hk as [Hconn _].
  intros k' [Hk' _]%is_open_Some. unfold put_subscriptions, set_connections in Hk'. simpl in Hk'. rewrite lookup_alter_eq, Hconn in Hk'.
  injection Hk' as <-. simpl. unfold subscription. set_solver.
Qed.

Lemma subscribe_prims c ch cl symbol now h :
  prims fan books h (subscribe cluster servedClusters markets limits bufferedAmount send_throws books c ch cl symbol now h).
Proof.
  unfold subscribe. destruct (is_closed c h) eqn:Ec; [done|]. apply is_closed_false in Ec as [k Hk].
  destruct (resolveMarket _ _ _ _ _ _ c cl symbol _ h) as [r h1] eqn:Er. apply resolveMarket_prims in Er as (P1 & Hsame & Hnone).
  pose proof Hk as Hk'. apply is_open_Some in Hk' as [Hconn _].
  destruct r as [| |s]; [done|..]; rewrite (Hsame ltac:(done)), Hconn; clear P1 Hsame h1.
  - apply (subscribed_prims c ch cl None now h k Hk). done.
  - apply (subscribed_prims c ch cl (Some s) now h k Hk). intros ->. exfalso. by eapply (Hnone eq_refl).
Qed.

Lemma unsubscribe_prims c ch cl symbol h : prims fan books h (unsubscribe limits bufferedAmount send_throws c ch cl symbol h).
Proof.
  unfold unsubscribe. destruct (connections h !! c) as [k|]; [|done]. destruct (negb _); [by apply send_prims|].
  destruct (bool_decide (ch = account_channel)); (eapply rtc_l; [apply pr_leave|]); [eapply rtc_l; [apply pr_own|]|]; by apply send_prims.
Qed.

Lemma onMessage_prims c data at_ h :
  prims fan books h (onMessage limits bufferedAmount send_throws byteLength parseClientMessage c data at_ h).
Proof.
  unfold onMessage. destruct (is_open c h) as [k|]; [|done]. destruct (_ >? _); [apply rtc_once, pr_close|].
  eapply rtc_l; [apply pr_own|]. destruct (_ >? _); [apply rtc_once, pr_close|].
  destruct (parseClientMessage data) as [[ch cl market|ch cl market|]|]; [by apply rtc_once, pr_await|apply unsubscribe_prims|apply rtc_once, pr_own|apply rtc_once, pr_close].
Qed.

Lemma fold_prims {A} (f : Hub -> A -> Hub) xs : (forall h x, prims fan books h (f h x)) -> forall h, prims fan books h (fold_left f xs h).
Proof. intros Hf. induction xs as [|x xs IH]; intros h; simpl; [done|]. etrans; [apply Hf|apply IH]. Qed.

Lemma beat_prims h c : prims fan books h (beat limits bufferedAmount send_throws h c).
Proof.
  unfold beat. destruct (connections h !! c) as [k|]; [|done]. destruct (_ <=? _); [apply rtc_once, pr_close|].
  eapply rtc_l; [apply pr_own|by apply send_prims].
Qed.

Lemma recheck_prims rest h : prims fan books h (recheck rest h).
Proof. revert h. induction rest as [|c rest IH]; intros h; simpl; [done|]. destruct (is_closed c h); [apply IH|by apply rtc_once, pr_await]. Qed.

Lemma flush_prims due h : prims fan books h (flush markets due h).
Proof.
  revert h. induction due as [|m due IH]; intros h; simpl; [done|]. destruct (market_of markets m) as [hm|]; [|apply IH].
  destruct (subscribers h !! _) as [[|]|]; [apply IH|by apply rtc_once, pr_await|apply IH].
Qed.

Lemma usersChanged_prims us now h : prims fan books h (usersChanged us now h).
Proof.
  unfold usersChanged. revert h. apply fold_prims. intros h u. revert h. intros h. apply fold_prims. clear h. intros h c.
  destruct (connections h !! c) as [k|]; [|done]. destruct (cn_accountCursor k); [apply pushAccount_prims|done].
Qed.

Lemma with_session_prims c valid failed k h :
  (forall h, prims fan books h (failed h)) -> (just_checked c (wire (log (session_said c true) h)) -> prims fan books (log (session_said c true) h) (k (log (session_said c true) h))) ->
  prims fan books h (with_session c valid failed k h).
Proof.
  intros Hf Hk. unfold with_session. destruct valid as [[|]|e]; [|eapply rtc_l; [apply pr_said|apply rtc_once, pr_close]|apply Hf].
  eapply rtc_l; [apply pr_said|]. apply Hk. by exists (wire h), [].
Qed.

Lemma listChangedSince_user u since n rows : Forall (fun o => private_to u (order_message o)) (listChangedSince u since n rows).
Proof.
  unfold listChangedSince. apply Forall_forall. intros o (r & -> & Hr)%list_elem_of_fmap. simpl.
  eapply elem_of_sublist in Hr; [|apply sublist_take]. rewrite merge_sort_Permutation in Hr. apply list_elem_of_filter in Hr as [[? _] _]. done.
Qed.

Lemma listForUser_user u since n rows : Forall (fun f => private_to u (fill_message (toUserFillView f))) (listForUser u since n rows).
Proof.
  unfold listForUser. apply Forall_forall. intros o (r & -> & Hr)%list_elem_of_fmap. simpl.
  eapply elem_of_sublist in Hr; [|apply sublist_take]. rewrite merge_sort_Permutation in Hr. apply list_elem_of_filter in Hr as [[? _] _]. by eexists.
Qed.

Lemma resume_prims j a now h :
  job_ok h j -> prims fan books h (resume cluster servedClusters markets limits bufferedAmount send_throws books j a now h).
Proof.
  intros Hj. destruct j as [c ch cl symbol|c symbol|c symbol|symbol|c readAt since|c readAt orders fills|[|c rest]|[|m due]], a as [valid|rows|t|[[os fs]|e]];
    simpl; try done; try (by apply send_prims); try (by apply broadcast_prims); try apply rtc_once, pr_own.
  - apply with_session_prims; [intros; by apply send_prims|intros; apply subscribe_prims].
  - destruct t; [by apply send_prims|done].
  - destruct (is_open c h) as [k|] eqn:Ek; [|apply rtc_once, pr_own]. destruct (cn_accountCursor k); [|apply rtc_once, pr_own].
    apply rtc_once, pr_await. exists (cn_userId k). split; [by apply user_open|]. split; [apply listChangedSince_user|apply listForUser_user].
  - destruct valid as [[|]|e]; simpl.
    + eapply rtc_l; [apply pr_said|]. apply push_send_prims; [done|]. by exists (wire h), [].
    + eapply rtc_l; [apply pr_said|]. eapply rtc_l; [apply pr_close|]. apply rtc_once, pr_own.
    + apply rtc_once, pr_own.
  - etrans; [|apply recheck_prims]. apply with_session_prims; intros; apply rtc_refl.
  - etrans; [|apply flush_prims]. destruct t, (market_of markets m); try done. by apply broadcast_prims.
Qed.
End Decomposition.

(** A fan-out's message of its book. *)
Definition of_book (e : Event) : bool := match e with fanned _ _ (m_trade _) => false | fanned _ _ _ => true | _ => false end.

Lemma step_prims books e h :
  static h -> (forall books' i a now, e = answered books' i a now -> books' = books) -> prims (of_book e) books h (step e h).
Proof.
  intros Hst Hbooks. destruct e as [u ip token at_|c data at_|c|us now|m| | | |books' symbol m|books' i a now|]; simpl.
  - apply rtc_once, pr_attach.
  - apply onMessage_prims.
  - apply rtc_once, pr_detach.
  - apply usersChanged_prims.
  - apply rtc_once, pr_dirty.
  - apply fold_prims. intros. apply beat_prims.
  - apply recheck_prims.
  - eapply rtc_l; [apply pr_dirty|apply flush_prims].
  - destruct m; simpl; [etrans; [|by apply rtc_once, pr_await]|..]; apply broadcast_prims; unfold bookSnapshot; repeat case_match; done.
  - destruct (jobs h !! i) as [j|] eqn:Ej; [|done]. rewrite (Hbooks _ _ _ _ eq_refl). eapply rtc_l; [apply pr_done|]. apply resume_prims. apply (st_jobs h Hst i j Ej).
  - unfold stop. apply fold_prims. intros. apply rtc_once, pr_close.
Qed.

(** ** Invariants *)

Lemma detach_rest c h : jobs (detach c h) = jobs h /\ fresh_id (detach c h) = fresh_id h.
Proof. unfold detach. by destruct (is_open c h). Qed.

Lemma close_rest c code reason h : jobs (close c code reason h) = jobs h /\ fresh_id (close c code reason h) = fresh_id h.
Proof. unfold close. destruct (is_open c h); [apply (detach_rest c h)|done]. Qed.

Lemma send_rest c m h : jobs (send c m h) = jobs h /\ fresh_id (send c m h) = fresh_id h.
Proof. destruct (send_cases c m h) as [[_ ->]|(kc & _ & [->|[->| ->]])]; [done|done|apply detach_rest|apply close_rest]. Qed.

Lemma static_same h h' :
  (forall d, user_of h' d = user_of h d) -> jobs h' = jobs h -> fresh_id h' = fresh_id h -> static h -> static h'.
Proof.
  intros Hu Hj Hf [H1 H2]. split.
  - intros c Hc. rewrite Hf. apply H1. specialize (Hu c). unfold user_of in Hu. destruct (connections h' !! c), (connections h !! c); naive_solver.
  - intros i j. rewrite Hj. intros Hi. specialize (H2 i j Hi). destruct j; try done. destruct H2 as (u & ? & ? & ?). exists u. by rewrite Hu.
Qed.

Lemma static_prim fan books h h' : prim fan books h h' -> static h -> static h'.
Proof.
  intros Hp Hst. destruct Hp; try (apply (static_same h); [|done..|done]; intros d; first [apply detach_user|apply own_user|apply subs_user|done]).
  - destruct Hst as [H1 H2]. split; simpl.
    + intros c. destruct (decide (c = fresh_id h)) as [->|Hn]; [lia|]. rewrite lookup_insert_ne by done. intros Hc%H1. lia.
    + intros i j Hi. specialize (H2 i j Hi). destruct j; try done. destruct H2 as (v & Hv & ? & ?). exists v. split; [|done]. unfold user_of in *. simpl.
      rewrite lookup_insert_ne; [done|]. intros <-. destruct (connections h !! fresh_id h) eqn:E; [|done]. specialize (H1 (fresh_id h)). rewrite E in H1. specialize (H1 ltac:(done)). lia.
  - destruct (detach_rest c h). apply (static_same h); [intros; apply detach_user|done..].
  - destruct (close_rest c code reason h). apply (static_same h); [intros; apply close_user|done..].
  - destruct Hst as [H1 H2]. split; [done|]. simpl. intros j k [_ Hk]%lookup_delete_Some. apply (H2 _ _ Hk).
  - destruct Hst as [H1 H2]. split; simpl.
    + intros c Hc%H1. lia.
    + intros i k [[_ <-]|[_ Hk]]%lookup_insert_Some; [done|apply (H2 _ _ Hk)].
  - destruct (send_rest c (bookSnapshot books symbol) h). apply (static_same h); [intros; apply send_user|done..].
Qed.

Lemma prims_invariant fan books (P : Hub -> Prop) :
  (forall h h', static h -> P h -> prim fan books h h' -> P h') -> forall h h', prims fan books h h' -> static h -> P h -> static h' /\ P h'.
Proof.
  intros Hstep h h'. induction 1 as [h|h1 h2 h3 H12 _ IH]; intros Hst HP; [done|].
  apply IH; [by eapply static_prim|by eapply Hstep].
Qed.

Lemma static_start : static createSocketHub.
Proof. split; simpl; [intros c [k Hk]; by rewrite lookup_empty in Hk|intros i j Hj; by rewrite lookup_empty in Hj]. Qed.

(** What the primitive changes preserve, every run of events has. *)
Lemma run_invariant (P : Hub -> Prop) events :
  P createSocketHub -> (forall fan books h h', static h -> P h -> prim fan books h h' -> P h') -> static (run events createSocketHub) /\ P (run events createSocketHub).
Proof.
  intros H0 Hstep. unfold Hub.run. pose proof static_start as Hst. revert H0 Hst. generalize createSocketHub as h.
  induction events as [|e events IH]; intros h H0 Hst; simpl; [done|].
  assert (exists books, forall books' i a now, e = answered books' i a now -> books' = books) as [books Hb] by (destruct e; try (by exists (fun _ => None)); eexists; by intros ? ? ? ? [= <- _ _ _]).
  destruct (prims_invariant _ _ P (Hstep (of_book e) books) h (step e h) (step_prims books e h Hst Hb) Hst H0) as [Hst' H1]. by apply IH.
Qed.

(** *** What is private *)

Definition discreet (h : Hub) : Prop :=
  forall before c m after, wire h = before ++ sent c m :: after -> is_private m = true ->
    just_checked c before /\ exists u, user_of h c = Some u /\ private_to u m.

Lemma snoc_split {A} (l : list A) x before y after :
  l ++ [x] = before ++ y :: after -> (after = [] /\ before = l /\ y = x) \/ exists after', after = after' ++ [x] /\ l = before ++ y :: after'.
Proof.
  destruct after as [|z after _] using rev_ind; intros E; [left|right; exists after].
  - apply app_inj_tail in E as [-> ->]. done.
  - rewrite app_comm_cons, app_assoc in E. apply app_inj_tail in E as [-> ->]. done.
Qed.

Lemma discreet_same h h' : (forall d, user_of h' d = user_of h d) -> wire h' = wire h -> discreet h -> discreet h'.
Proof. intros Hu Hw H before c m after. rewrite Hw. intros E Hm. destruct (H _ _ _ _ E Hm) as (? & u & ? & ?). split; [done|]. exists u. by rewrite Hu. Qed.

Lemma discreet_log x h :
  discreet h -> (forall c m, x = sent c m -> is_private m = true -> just_checked c (wire h) /\ exists u, user_of h c = Some u /\ private_to u m) -> discreet (log x h).
Proof.
  intros H Hx before c m after E Hm. simpl in E. apply snoc_split in E as [(-> & -> & <-)|(after' & -> & E)]; [by apply Hx|by eapply H].
Qed.

Lemma discreet_close c code reason h : discreet h -> discreet (close c code reason h).
Proof.
  intros H. unfold close. destruct (is_open c h); [|done]. apply discreet_log; [|done].
  by eapply discreet_same; [intros; apply detach_user|apply detach_wire|].
Qed.

Lemma discreet_send c m h : is_private m = false -> discreet h -> discreet (send c m h).
Proof.
  intros Hm H. destruct (send_cases c m h) as [[_ ->]|(kc & _ & [->|[->| ->]])]; [done|..].
  - apply discreet_log; [done|]. intros ? ? [= <- <-]. congruence.
  - by eapply discreet_same; [intros; apply detach_user|apply detach_wire|].
  - by apply discreet_close.
Qed.

Lemma discreet_prim fan books h h' : static h -> discreet h -> prim fan books h h' -> discreet h'.
Proof.
  intros Hst H Hp. destruct Hp; try (by apply (discreet_same h); [intros; first [apply own_user|apply subs_user|done]|..]).
  - (* a new connection *) intros before c m after E Hm. destruct (H _ _ _ _ E Hm) as (? & v & Hv & ?). split; [done|]. exists v. split; [|done].
    unfold user_of in *. simpl. rewrite lookup_insert_ne; [done|]. intros <-. pose proof (st_fresh h Hst (fresh_id h)) as Hf.
    destruct (connections h !! fresh_id h); [|done]. specialize (Hf ltac:(done)). lia.
  - apply (discreet_same h); [intros; apply detach_user|apply detach_wire|done].
  - by apply discreet_close.
  - apply discreet_log; [done|]. intros ? ? [= <- <-]. congruence.
  - apply discreet_log; [done|]. intros ? ? [= <- <-] _. split; [done|]. exists (cn_userId k). split; [by apply user_open|done].
  - by apply discreet_log.
  - apply (discreet_same (send c (bookSnapshot books symbol) h)); [done..|]. apply discreet_send; [|done]. unfold bookSnapshot. by case_match.
Qed.

(** *** Nothing follows a close *)

Definition closing (h : Hub) : Prop :=
  forall before c code reason after, wire h = before ++ closed_by_server c code reason :: after ->
    (c < fresh_id h)%nat /\ is_open c h = None /\ forall m, sent c m ∉ after.

Lemma closing_same h h' :
  wire h' = wire h -> (fresh_id h <= fresh_id h')%nat -> (forall c, (c < fresh_id h)%nat -> is_open c h = None -> is_open c h' = None) -> closing h -> closing h'.
Proof. intros Hw Hf Ho H before c code reason after. rewrite Hw. intros E. destruct (H _ _ _ _ _ E) as (? & ? & ?). split; [lia|]. split; [by apply Ho|done]. Qed.

Lemma closing_log x h :
  closing h -> (forall c code reason, x = closed_by_server c code reason -> (c < fresh_id h)%nat /\ is_open c h = None) ->
  (forall c m, x = sent c m -> is_Some (is_open c h)) -> closing (log x h).
Proof.
  intros H Hx Hs before c code reason after E. simpl in E. apply snoc_split in E as [(-> & -> & <-)|(after' & -> & E)].
  - destruct (Hx _ _ _ eq_refl) as [? ?]. split; [done|]. split; [done|]. intros m. apply not_elem_of_nil.
  - destruct (H _ _ _ _ _ E) as (? & Hn & Hno). split; [done|]. split; [done|]. intros m [Hm|Hm]%elem_of_app; [by eapply Hno|].
    apply list_elem_of_singleton in Hm as <-. destruct (Hs c m eq_refl). change (is_open c (log (sent c m) h)) with (is_open c h) in Hn. congruence.
Qed.

Lemma closing_detach c h : closing h -> closing (detach c h).
Proof.
  intros H. apply (closing_same h); [apply detach_wire|by rewrite (proj2 (detach_rest c h))| |done].
  intros d _ Hd. destruct (is_open d (detach c h)) eqn:E; [|done]. apply detach_open in E as [? _]. congruence.
Qed.

Lemma closing_close c code reason h : static h -> closing h -> closing (close c code reason h).
Proof.
  intros Hst H. unfold close. destruct (is_open c h) as [k|] eqn:Ec; [|done]. apply closing_log; [by apply closing_detach| |done].
  intros ? ? ? [= <- <- <-]. split.
  - rewrite (proj2 (detach_rest c h)). apply (st_fresh h Hst). apply is_open_Some in Ec as [-> _]. done.
  - destruct (is_open c (detach c h)) eqn:E; [|done]. apply detach_open in E as [_ ?]. done.
Qed.

Lemma closing_send c m h : static h -> closing h -> closing (send c m h).
Proof.
  intros Hst H. destruct (send_cases c m h) as [[_ ->]|(kc & Hc & [->|[->| ->]])]; [done|..].
  - apply closing_log; [done..|]. intros ? ? [= <- <-]. by rewrite Hc.
  - by apply closing_detach.
  - by apply closing_close.
Qed.

Lemma subs_open c f h d : is_open d (put_subscriptions c f h) = (fun k => if decide (d = c) then with_subscriptions (f (cn_subscriptions k)) k else k) <$> is_open d h.
Proof.
  unfold is_open, put_subscriptions, set_connections. simpl. destruct (decide (d = c)) as [->|Hn].
  - rewrite lookup_alter_eq. destruct (connections h !! c) as [k|]; [|done]. simpl. by destruct (cn_closed k).
  - rewrite lookup_alter_ne by done. destruct (connections h !! d) as [k|]; [|done]. by destruct (cn_closed k).
Qed.

Lemma closing_prim fan books h h' : static h -> closing h -> prim fan books h h' -> closing h'.
Proof.
  intros Hst H Hp. destruct Hp.
  - apply (closing_same h); [done|simpl; lia| |done]. intros c Hc Hn. unfold is_open in *. simpl. rewrite lookup_insert_ne by lia. done.
  - by apply closing_detach.
  - by apply closing_close.
  - apply closing_log; [done..|]. intros ? ? [= <- <-]. by eexists.
  - apply closing_log; [done..|]. intros ? ? [= <- <-]. by eexists.
  - by apply closing_log.
  - apply (closing_same h); [done..| |done]. intros d _ Hd. by rewrite own_open, Hd.
  - by apply (closing_same h).
  - apply (closing_same h); [done|simpl; lia|done..].
  - by apply (closing_same h).
  - apply (closing_same h); [done..| |done]. intros d _ Hd. by rewrite subs_open, Hd.
  - by apply (closing_same h).
  - apply (closing_same (send c (bookSnapshot books symbol) h)); [done..|]. by apply closing_send.
  - apply (closing_same h); [done..| |done]. intros d _ Hd. change (is_open d (set_subscribers ?f ?x)) with (is_open d x). by rewrite subs_open, Hd.
Qed.

(** *** The indexes *)

(** A connection's user and address, while it is open. *)
Definition face (h : Hub) (c : nat) : option (string * string) := (fun k => (cn_userId k, cn_ip k)) <$> is_open c h.

Definition of_user (h : Hub) (userId : string) : list nat := filter (fun c => fst <$> face h c = Some userId) (open h).
Definition of_ip (h : Hub) (ip : string) : list nat := filter (fun c => snd <$> face h c = Some ip) (open h).

Record indexed (h : Hub) : Prop := {
  ix_open : forall c, c ∈ open h <-> is_Some (is_open c h);
  ix_nodup : NoDup (open h);
  ix_user : forall u, byUser h !! u = match of_user h u with [] => None | l => Some l end;
  ix_ip : forall ip, byIp h !! ip = match of_ip h ip with [] => None | l => Some (Z.of_nat (length l)) end
}.

Lemma face_Some h c : is_Some (is_open c h) <-> is_Some (face h c).
Proof. unfold face. destruct (is_open c h); simpl; naive_solver. Qed.

Lemma indexed_same h h' :
  (forall d, face h' d = face h d) -> open h' = open h -> byUser h' = byUser h -> byIp h' = byIp h -> indexed h -> indexed h'.
Proof.
  intros Hf Ho Hu Hi [H1 H2 H3 H4]. assert (Hou : forall u, of_user h' u = of_user h u).
  { intros u. unfold of_user. rewrite Ho. apply list_filter_iff. intros c. by rewrite Hf. }
  assert (Hoi : forall ip, of_ip h' ip = of_ip h ip) by (intros ip; unfold of_ip; rewrite Ho; apply list_filter_iff; intros c; by rewrite Hf).
  split.
  - intros c. rewrite Ho, H1, !face_Some. by rewrite Hf.
  - by rewrite Ho.
  - intros u. by rewrite Hu, Hou.
  - intros ip. by rewrite Hi, Hoi.
Qed.

Lemma without_perm (c : nat) l : NoDup l -> c ∈ l -> l ≡ₚ c :: without c l.
Proof.
  intros Hnd Hc. apply NoDup_Permutation; [done| |].
  - apply NoDup_cons. split; [unfold without; rewrite list_elem_of_filter; tauto|by apply NoDup_filter].
  - intros x. rewrite elem_of_cons. unfold without. rewrite list_elem_of_filter. destruct (decide (x = c)); naive_solver.
Qed.

Lemma without_id (c : nat) l : c ∉ l -> without c l = l.
Proof. intros Hc. apply filter_all. intros x Hx ->. done. Qed.

Lemma filter_ext_elem {A} (P Q : A -> Prop) `{!forall x, Decision (P x), !forall x, Decision (Q x)} (l : list A) :
  (forall x, x ∈ l -> P x <-> Q x) -> filter P l = filter Q l.
Proof.
  induction l as [|x l IH]; intros HPQ; [done|]. rewrite !filter_cons, IH by (intros; apply HPQ; set_solver).
  specialize (HPQ x ltac:(set_solver)). do 2 case_decide; tauto.
Qed.

Lemma filter_without (P : nat -> Prop) `{!forall x, Decision (P x)} c l : filter P (without c l) = without c (filter P l).
Proof. unfold without. rewrite !list_filter_filter. apply list_filter_iff. tauto. Qed.

Lemma detach_face c h d : face (detach c h) d = if decide (d = c) then None else face h d.
Proof.
  unfold face. destruct (decide (d = c)) as [->|Hn].
  - destruct (is_open c (detach c h)) eqn:E; [|done]. apply detach_open in E as [_ ?]. done.
  - destruct (is_open d h) as [k|] eqn:E.
    + by rewrite (proj2 (detach_open c h d k)).
    + destruct (is_open d (detach c h)) eqn:E'; [|done]. apply detach_open in E' as [? _]. congruence.
Qed.

(** A list of open connections that have a property of their faces, when one is gone. *)
Lemma filter_face (Q : option (string * string) -> Prop) `{!forall x, Decision (Q x)} c h :
  ~ Q None -> filter (fun d => Q (face (detach c h) d)) (without c (open h)) = without c (filter (fun d => Q (face h d)) (open h)).
Proof.
  intros HQ. rewrite <- filter_without. unfold without. rewrite !list_filter_filter. apply list_filter_iff. intros d. rewrite detach_face.
  destruct (decide (d = c)); naive_solver.
Qed.

Lemma of_user_detach c h u : of_user (detach c h) u = without c (of_user h u) \/ is_open c h = None.
Proof.
  destruct (is_open c h) as [k|] eqn:E; [left|by right]. etrans; [|refine (filter_face (fun x : option (string * string) => fst <$> x = Some u) c h _); by intros ?].
  unfold of_user, detach. by rewrite E.
Qed.

Lemma of_ip_detach c h ip : of_ip (detach c h) ip = without c (of_ip h ip) \/ is_open c h = None.
Proof.
  destruct (is_open c h) as [k|] eqn:E; [left|by right]. etrans; [|refine (filter_face (fun x : option (string * string) => snd <$> x = Some ip) c h _); by intros ?].
  unfold of_ip, detach. by rewrite E.
Qed.

Lemma indexed_detach c h : indexed h -> indexed (detach c h).
Proof.
  intros Hix. pose proof Hix as [H1 H2 H3 H4]. destruct (is_open c h) as [k|] eqn:E; [|unfold detach; by rewrite E].
  assert (Hface : face h c = Some (cn_userId k, cn_ip k)) by (unfold face; by rewrite E).
  assert (Hc : c ∈ open h) by (apply H1; by rewrite E).
  split.
  - intros d. assert (Hod : open (detach c h) = without c (open h)) by (unfold detach; by rewrite E). rewrite Hod. unfold without. rewrite list_elem_of_filter, H1.
    split; [intros [Hn [kd Hd]]; exists kd; by apply detach_open|intros [kd [Hd Hn]%detach_open]; split; [done|by eexists]].
  - assert (Hod : open (detach c h) = without c (open h)) by (unfold detach; by rewrite E). rewrite Hod. by apply NoDup_filter.
  - intros u. destruct (of_user_detach c h u) as [->|?]; [|congruence].
    assert (Hmine : c ∈ of_user h (cn_userId k)) by (apply list_elem_of_filter; split; [by rewrite Hface|done]).
    pose proof (H3 (cn_userId k)) as Hb. unfold detach. rewrite E. simpl. rewrite Hb. destruct (of_user h (cn_userId k)) as [|c0 l] eqn:El; [set_solver|].
    destruct (decide (u = cn_userId k)) as [->|Hn].
    + rewrite El. destruct (without c (c0 :: l)) as [|c1 l1]; [by rewrite lookup_delete_eq|by rewrite lookup_insert_eq].
    + rewrite (without_id c (of_user h u)).
      * etrans; [|apply (H3 u)]. destruct (without c (c0 :: l)); [by rewrite lookup_delete_ne|by rewrite lookup_insert_ne].
      * intros [Hf _]%list_elem_of_filter. rewrite Hface in Hf. simpl in Hf. congruence.
  - intros ip. destruct (of_ip_detach c h ip) as [->|?]; [|congruence].
    assert (Hmine : c ∈ of_ip h (cn_ip k)) by (apply list_elem_of_filter; split; [by rewrite Hface|done]).
    assert (Hnd : NoDup (of_ip h (cn_ip k))) by (by apply NoDup_filter).
    pose proof (H4 (cn_ip k)) as Hb. unfold detach. rewrite E. simpl. rewrite Hb. destruct (of_ip h (cn_ip k)) as [|c0 l] eqn:El; [set_solver|]. cbv [default from_option id].
    pose proof (Permutation_length (without_perm c _ Hnd Hmine)) as Hlen. simpl in Hlen. destruct (decide (ip = cn_ip k)) as [->|Hn].
    + rewrite El. destruct (without c (c0 :: l)) as [|c1 l1]; simpl in *.
      * destruct (Z.leb_spec (Z.of_nat (S (length l)) - 1) 0); [by rewrite lookup_delete_eq|lia].
      * destruct (Z.leb_spec (Z.of_nat (S (length l)) - 1) 0); [lia|]. rewrite lookup_insert_eq. f_equal. lia.
    + rewrite (without_id c (of_ip h ip)).
      * etrans; [|apply (H4 ip)]. destruct (_ <=? 0); [by rewrite lookup_delete_ne|by rewrite lookup_insert_ne].
      * intros [Hf _]%list_elem_of_filter. rewrite Hface in Hf. simpl in Hf. congruence.
Qed.

Lemma indexed_attach u ip token t h : static h -> indexed h -> indexed (attach u ip token t h).
Proof.
  intros Hst [H1 H2 H3 H4]. set (c := fresh_id h). set (h' := attach u ip token t h).
  assert (Hnone : connections h !! c = None).
  { destruct (connections h !! c) eqn:E; [|done]. pose proof (st_fresh h Hst c) as Hf. rewrite E in Hf. specialize (Hf ltac:(done)). unfold c in Hf. lia. }
  assert (Hnew : c ∉ open h) by (intros [k [Hk _]%is_open_Some]%H1; congruence).
  assert (Hface : forall d, face h' d = if decide (d = c) then Some (u, ip) else face h d).
  { intros d. unfold face, is_open. simpl. destruct (decide (d = c)) as [->|Hn]; [by rewrite lookup_insert_eq|by rewrite lookup_insert_ne]. }
  assert (Hfilter : forall (Q : option (string * string) -> Prop) (HQ : forall x, Decision (Q x)),
    filter (fun d => Q (face h' d)) (open h') = filter (fun d => Q (face h d)) (open h) ++ (if decide (Q (Some (u, ip))) then [c] else [])).
  { intros Q HQ. simpl. rewrite filter_app. f_equal.
    - apply filter_ext_elem. intros d Hd. rewrite Hface. destruct (decide (d = c)) as [->|]; [contradiction|done].
    - pose proof (Hface c) as Hc. rewrite decide_True in Hc by done. rewrite filter_cons. case_decide as Ha; case_decide as Hb; try done; exfalso; fold c in Ha; rewrite Hc in Ha; contradiction. }
  split.
  - intros d. rewrite face_Some, Hface. simpl. rewrite elem_of_app, list_elem_of_singleton, H1, face_Some. destruct (decide (d = c)); naive_solver.
  - simpl. apply NoDup_app. split; [done|]. split; [set_solver|apply NoDup_singleton].
  - intros v. replace (of_user h' v) with (of_user h v ++ (if decide (fst <$> Some (u, ip) = Some v) then [c] else [])) by (symmetry; exact (Hfilter (fun x => fst <$> x = Some v) _)). simpl. fold c.
    destruct (decide (v = u)) as [->|Hn].
    + rewrite decide_True by done. rewrite lookup_insert_eq. rewrite H3. unfold with_last. rewrite bool_decide_eq_false_2.
      * by destruct (of_user h u).
      * destruct (of_user h u) as [|x l] eqn:El; simpl; [set_solver|]. rewrite <- El. intros [_ ?]%list_elem_of_filter. contradiction.
    + rewrite decide_False by congruence. rewrite app_nil_r, lookup_insert_ne by done. apply H3.
  - intros v. replace (of_ip h' v) with (of_ip h v ++ (if decide (snd <$> Some (u, ip) = Some v) then [c] else [])) by (symmetry; exact (Hfilter (fun x => snd <$> x = Some v) _)). simpl. fold c.
    destruct (decide (v = ip)) as [->|Hn].
    + rewrite decide_True by done. rewrite lookup_insert_eq, H4. destruct (of_ip h ip) as [|x l]; simpl; [done|]. f_equal. rewrite length_app. simpl. lia.
    + rewrite decide_False by congruence. rewrite app_nil_r, lookup_insert_ne by done. apply H4.
Qed.

Lemma own_face c f h d : face (put_own c f h) d = face h d.
Proof. unfold face. rewrite own_open. destruct (is_open d h); simpl; [|done]. by destruct (decide (d = c)). Qed.

Lemma subs_face c f h d : face (put_subscriptions c f h) d = face h d.
Proof. unfold face. rewrite subs_open. destruct (is_open d h); simpl; [|done]. by destruct (decide (d = c)). Qed.

Lemma indexed_close c code reason h : indexed h -> indexed (close c code reason h).
Proof. intros H. unfold close. destruct (is_open c h); [|done]. apply (indexed_same (detach c h)); [done..|]. by apply indexed_detach. Qed.

Lemma indexed_send c m h : indexed h -> indexed (send c m h).
Proof.
  intros H. destruct (send_cases c m h) as [[_ ->]|(kc & Hc & [->|[->| ->]])]; [done|by apply (indexed_same h)|by apply indexed_detach|by apply indexed_close].
Qed.

Lemma indexed_prim fan books h h' : static h -> indexed h -> prim fan books h h' -> indexed h'.
Proof.
  intros Hst H Hp. destruct Hp; try (by apply (indexed_same h); [intros; first [apply own_face|apply subs_face|done]|..]).
  - by apply indexed_attach.
  - by apply indexed_detach.
  - by apply indexed_close.
  - apply (indexed_same (send c (bookSnapshot books symbol) h)); [done..|]. by apply indexed_send.
Qed.

(** *** Subscriptions *)

Record subscribed_ok (h : Hub) : Prop := {
  so_known : forall s c, c ∈ audience_of h s -> is_Some (user_of h c);
  so_audience : forall s c k, c ∈ audience_of h s -> is_open c h = Some k -> s ∈ cn_subscriptions k;
  so_nodup : forall s, NoDup (audience_of h s);
  so_bound : forall c k, is_open c h = Some k -> NoDup (cn_subscriptions k) /\ Z.of_nat (length (cn_subscriptions k)) <= Z.max 0 (maxSubscriptions limits)
}.

(** Audiences that may only have shrunk, connections that are as they were or closed. *)
Lemma subscribed_less h h' :
  (forall d, user_of h' d = user_of h d) ->
  (forall s, audience_of h' s `sublist_of` audience_of h s) ->
  (forall d k', is_open d h' = Some k' -> exists k, is_open d h = Some k /\ cn_subscriptions k' = cn_subscriptions k) -> subscribed_ok h -> subscribed_ok h'.
Proof.
  intros Hu Ha Ho [H1 H2 H3 H4]. split.
  - intros s c Hc. rewrite Hu. apply (H1 s). by eapply elem_of_sublist.
  - intros s c k' Hc Hk'. destruct (Ho c k' Hk') as (k & Hk & ->). eapply H2; [by eapply elem_of_sublist|done].
  - intros s. by eapply sublist_NoDup.
  - intros c k' Hk'. destruct (Ho c k' Hk') as (k & Hk & ->). by apply (H4 c).
Qed.

Lemma without_sublist {A} `{EqDecision A} (c : A) l : without c l `sublist_of` l.
Proof. induction l as [|x l IH]; [done|]. unfold without in *. rewrite filter_cons. case_decide; by constructor. Qed.

Lemma alter_without_audience c s (m : gmap string (list nat)) s' :
  default [] (alter (without c) s m !! s') `sublist_of` default [] (m !! s').
Proof.
  destruct (decide (s' = s)) as [->|Hn]; [|by rewrite lookup_alter_ne]. rewrite lookup_alter_eq. destruct (m !! s); simpl; [apply without_sublist|done].
Qed.

Lemma detach_audience c h s : audience_of (detach c h) s `sublist_of` audience_of h s.
Proof.
  unfold detach. destruct (is_open c h) as [k|]; [|done]. unfold audience_of. simpl. generalize (cn_subscriptions k). intros subs. generalize (subscribers h). intros m.
  revert m. induction subs as [|s0 subs IH]; intros m; simpl; [done|]. etrans; [apply IH|apply alter_without_audience].
Qed.

Lemma subscribed_detach c h : subscribed_ok h -> subscribed_ok (detach c h).
Proof.
  apply subscribed_less; [apply detach_user|apply detach_audience|]. intros d k' [Hk _]%detach_open. by exists k'.
Qed.

Lemma close_audience c code reason h s : audience_of (close c code reason h) s `sublist_of` audience_of h s.
Proof. unfold close. destruct (is_open c h); [apply (detach_audience c h)|done]. Qed.

Lemma subscribed_close c code reason h : subscribed_ok h -> subscribed_ok (close c code reason h).
Proof.
  apply subscribed_less; [apply close_user|apply close_audience|]. intros d k' [Hk _]%close_open. by exists k'.
Qed.

Lemma send_audience c m h s : audience_of (send c m h) s `sublist_of` audience_of h s.
Proof. destruct (send_cases c m h) as [[_ ->]|(kc & _ & [->|[->| ->]])]; [done|done|apply detach_audience|apply close_audience]. Qed.

Lemma subscribed_send c m h : subscribed_ok h -> subscribed_ok (send c m h).
Proof.
  apply subscribed_less; [apply send_user|apply send_audience|]. intros d k' Hk%send_open. by exists k'.
Qed.

Lemma join_audience c s h s' : audience_of (join c s h) s' = if decide (s' = s) then with_last c (audience_of h s) else audience_of h s'.
Proof. unfold audience_of, join. simpl. destruct (decide (s' = s)) as [->|]; [by rewrite lookup_insert_eq|by rewrite lookup_insert_ne]. Qed.

Lemma with_last_elem (c d : nat) l : d ∈ with_last c l <-> d = c \/ d ∈ l.
Proof. unfold with_last. case_bool_decide; [|rewrite elem_of_app, list_elem_of_singleton]; naive_solver. Qed.

Lemma with_last_nodup (c : nat) l : NoDup l -> NoDup (with_last c l).
Proof. intros Hl. unfold with_last. case_bool_decide; [done|]. apply NoDup_app. split; [done|]. split; [set_solver|apply NoDup_singleton]. Qed.

Lemma subscribed_join c s h :
  is_Some (user_of h c) -> (forall k, is_open c h = Some k -> s ∈ cn_subscriptions k) -> subscribed_ok h -> subscribed_ok (join c s h).
Proof.
  intros Hu Hs [H1 H2 H3 H4]. split; [..|done].
  - intros s' d. rewrite join_audience. destruct (decide (s' = s)); [|apply H1]. intros [->|?]%with_last_elem; [done|by apply (H1 s)].
  - intros s' d k. rewrite join_audience. change (is_open d (join c s h)) with (is_open d h). destruct (decide (s' = s)) as [->|]; [|apply H2].
    intros [->|?]%with_last_elem; [apply Hs|by apply H2].
  - intros s'. rewrite join_audience. destruct (decide (s' = s)); [by apply with_last_nodup|done].
Qed.

Lemma subscribed_prim fan books h h' : static h -> subscribed_ok h -> prim fan books h h' -> subscribed_ok h'.
Proof.
  intros Hst H Hp. destruct Hp; try (by apply (subscribed_less h); [done|done|intros d k' Hk; by exists k'|]).
  - destruct H as [H1 H2 H3 H4]. assert (Hno : connections h !! fresh_id h = None).
    { destruct (connections h !! fresh_id h) eqn:E; [|done]. pose proof (st_fresh h Hst (fresh_id h)) as Hf. rewrite E in Hf. specialize (Hf ltac:(done)). lia. }
    assert (Hopen : forall d, d <> fresh_id h -> is_open d (attach u ip token t h) = is_open d h) by (intros d Hd; unfold is_open; simpl; by rewrite lookup_insert_ne).
    assert (Haud : forall s c, c ∈ audience_of h s -> c <> fresh_id h).
    { intros s c Hc ->. apply H1 in Hc. unfold user_of in Hc. rewrite Hno in Hc. by destruct Hc. }
    split.
    + intros s c Hc. pose proof (Haud s c Hc). unfold user_of. simpl. rewrite lookup_insert_ne by done. by apply (H1 s).
    + intros s c k Hc Hk. rewrite Hopen in Hk by (by apply (Haud s)). by apply (H2 s c).
    + done.
    + intros c k Hk. destruct (decide (c = fresh_id h)) as [->|Hn]; [|rewrite Hopen in Hk by done; by apply (H4 c)].
      apply is_open_Some in Hk as [Hk _]. simpl in Hk. rewrite lookup_insert_eq in Hk. injection Hk as <-. simpl. split; [constructor|lia].
  - by apply subscribed_detach.
  - by apply subscribed_close.
  - apply (subscribed_less h); [intros; apply own_user|done| |done]. intros d k'. rewrite own_open. intros (k & -> & ->)%fmap_Some. exists k. split; [done|]. by destruct (decide (d = c)).
  - (* a subscription is added *) destruct H as [K1 K2 K3 K4]. split.
    + intros s' d Hd. rewrite subs_user. by apply (K1 s').
    + intros s' d k' Hd. rewrite subs_open. intros (kd & Hkd & ->)%fmap_Some. pose proof (K2 s' d kd Hd Hkd). destruct (decide (d = c)); simpl; [apply elem_of_app; by left|done].
    + done.
    + intros d k'. rewrite subs_open. intros (kd & Hkd & ->)%fmap_Some. destruct (K4 d kd Hkd). destruct (decide (d = c)) as [->|]; [|done].
      simpl. assert (kd = k) as -> by congruence. rewrite length_app. simpl. split; [|lia]. apply NoDup_app. split; [done|]. split; [set_solver|apply NoDup_singleton].
  - by apply subscribed_join.
  - apply subscribed_join; [by rewrite send_user|intros k Hk%send_open; auto|by apply subscribed_send].
  - (* it is left *) destruct H as [H1 H2 H3 H4]. set (h1 := put_subscriptions c (without s) h).
    assert (Haud : forall s', audience_of (set_subscribers (alter (without c) s) h1) s' `sublist_of` audience_of h s') by (intros; apply alter_without_audience). split.
    + intros s' d Hd. change (is_Some (user_of h1 d)). unfold h1. rewrite subs_user. apply (H1 s'). by eapply elem_of_sublist.
    + intros s' d k' Hd. change (is_open d h1 = Some k' -> s' ∈ cn_subscriptions k'). unfold h1. rewrite subs_open. intros (kd & Hkd & ->)%fmap_Some.
      pose proof (H2 s' d kd ltac:(by eapply elem_of_sublist) Hkd) as Hin. destruct (decide (d = c)) as [->|]; [|done]. simpl. apply list_elem_of_filter. split; [|done].
      intros ->. unfold audience_of in Hd. simpl in Hd. rewrite lookup_alter_eq in Hd. destruct (subscribers h !! s); simpl in Hd; [|set_solver]. apply list_elem_of_filter in Hd as [? _]. done.
    + intros s'. by eapply sublist_NoDup.
    + intros d k'. change (is_open d h1 = Some k' -> NoDup (cn_subscriptions k') /\ Z.of_nat (length (cn_subscriptions k')) <= Z.max 0 (maxSubscriptions limits)).
      unfold h1. rewrite subs_open. intros (kd & Hkd & ->)%fmap_Some. destruct (H4 d kd Hkd) as [Hn Hl]. destruct (decide (d = c)); simpl; [|done]. split; [by apply NoDup_filter|].
      pose proof (sublist_length _ _ (without_sublist s (cn_subscriptions kd))). lia.
Qed.

(** *** The messages of a book *)

Definition book_log (c : nat) (market : string) (w : list Wire) : list BookMessage :=
  omap (fun x => match x with sent d m => if decide (d = c) then book_message market m else None | _ => None end) w.

(** The sequence a fan-out's messages have reached, if it vouches for its book. *)
Definition fan_state (told : list FanoutMessage) : option Z :=
  fold_left (fun st m => match m with m_snapshot v => Some (vw_seq v) | m_delta seq _ => Some seq | m_resync => None | m_trade _ => st end) told None.

Definition vouched (hist : History) (maxLevels : nat) (told : list FanoutMessage) : option BookView :=
  (fun n => view_of n (truth hist n) maxLevels) <$> fan_state told.

(** A message that goes on with what was told. *)
Definition goes_on (hist : History) (maxLevels : nat) (told : list FanoutMessage) (m : FanoutMessage) : Prop :=
  match m with
  | m_snapshot v => v = view_of (vw_seq v) (truth hist (vw_seq v)) maxLevels
  | m_delta seq changes => fan_state told = Some (seq - 1) /\ changes = changes_of hist seq
  | _ => True
  end.

Section Feeds.
Context (hist : string -> History) (maxLevels : nat).

(** Every connection was told each book's history; those in the audience, up to now. *)
Definition feeds (reached : string -> option Z) (h : Hub) : Prop :=
  forall c market, exists st, fed (hist market) maxLevels None (book_log c market (wire h)) st /\
    (is_Some (is_open c h) -> c ∈ audience_of h (key book_channel market) -> st = reached market).

Lemma feeds_same reached h h' :
  (forall c market, book_log c market (wire h') = book_log c market (wire h)) ->
  (forall c market, is_Some (is_open c h') -> c ∈ audience_of h' (key book_channel market) -> is_Some (is_open c h) /\ c ∈ audience_of h (key book_channel market)) ->
  feeds reached h -> feeds reached h'.
Proof.
  intros Hl Ha H c market. destruct (H c market) as (st & Hst & Hr). exists st. rewrite Hl. split; [done|]. intros Ho Hc.
  destruct (Ha c market Ho Hc). by apply Hr.
Qed.

Lemma book_log_snoc c market w x :
  book_log c market (w ++ [x]) = book_log c market w ++ match x with sent d m => if decide (d = c) then option_list (book_message market m) else [] | _ => [] end.
Proof.
  unfold book_log. rewrite omap_app. f_equal. destruct x as [d m| |]; simpl; try done. destruct (decide (d = c)); simpl; [|done]. by destruct (book_message market m).
Qed.

Lemma not_book_message market m : is_book m = false -> book_message market m = None.
Proof. by destruct m. Qed.

Lemma is_open_detach c h d : is_Some (is_open d (detach c h)) -> is_Some (is_open d h) /\ d <> c.
Proof. intros [k [Hk Hn]%detach_open]. split; [by eexists|done]. Qed.

Lemma is_open_close c code reason h d : is_Some (is_open d (close c code reason h)) -> is_Some (is_open d h) /\ d <> c.
Proof. intros [k [Hk Hn]%close_open]. split; [by eexists|done]. Qed.

Lemma close_book_log c code reason h d market : book_log d market (wire (close c code reason h)) = book_log d market (wire h).
Proof. unfold close. destruct (is_open c h); [|done]. simpl. by rewrite book_log_snoc, detach_wire, app_nil_r. Qed.

(** What a [send] does to what each connection was told. *)
Lemma send_told c m h :
  (forall d, d <> c -> forall market, book_log d market (wire (send c m h)) = book_log d market (wire h)) /\
  (is_Some (is_open c (send c m h)) -> forall market, book_log c market (wire (send c m h)) = book_log c market (wire h) ++ option_list (book_message market m)) /\
  (is_open c (send c m h) = None -> forall market, book_log c market (wire (send c m h)) = book_log c market (wire h)).
Proof.
  destruct (send_cases c m h) as [[Hn ->]|(k & Hk & [->|[->| ->]])].
  - split; [done|]. rewrite Hn. split; [by intros []|done].
  - simpl. split; [intros d Hd market; rewrite book_log_snoc, decide_False by done; apply app_nil_r|].
    change (is_open c (log (sent c m) h)) with (is_open c h). rewrite Hk. split; [|done]. intros _ market. by rewrite book_log_snoc, decide_True.
  - rewrite detach_wire. split; [done|]. split; [|done]. intros [_ ?]%is_open_detach. done.
  - split; [intros; apply close_book_log|]. split; [intros [_ ?]%is_open_close; done|]. intros _ market. apply close_book_log.
Qed.

Lemma elem_of_detach_audience c h s d : d ∈ audience_of (detach c h) s -> d ∈ audience_of h s.
Proof. intros Hd. eapply elem_of_sublist; [exact Hd|apply detach_audience]. Qed.

Lemma elem_of_send_audience c m h s d : d ∈ audience_of (send c m h) s -> d ∈ audience_of h s.
Proof. intros Hd. eapply elem_of_sublist; [exact Hd|apply send_audience]. Qed.

Lemma feeds_prim books reached h h' :
  (forall market, books market = (fun n => view_of n (truth (hist market) n) maxLevels) <$> reached market) ->
  static h -> subscribed_ok h -> feeds reached h -> prim false books h h' -> feeds reached h'.
Proof.
  intros Hbooks Hst Hso H Hp. destruct Hp; try (by apply (feeds_same reached h); [done|intros d market Ho Hd; done|]).
  - assert (Hopen : forall d, d <> fresh_id h -> is_open d (attach u ip token t h) = is_open d h) by (intros d Hd; unfold is_open; simpl; by rewrite lookup_insert_ne).
    apply (feeds_same reached h); [done| |done]. intros d market Ho Hd. change (d ∈ audience_of h (key book_channel market)) in Hd. split; [|done]. rewrite Hopen in Ho; [done|].
    intros ->. apply (so_known h Hso) in Hd as [v Hv]. unfold user_of in Hv. destruct (connections h !! fresh_id h) eqn:E; [|done].
    pose proof (st_fresh h Hst (fresh_id h)) as Hf. rewrite E in Hf. specialize (Hf ltac:(done)). lia.
  - apply (feeds_same reached h); [intros; by rewrite detach_wire| |done]. intros d market [Ho _]%is_open_detach Hd. split; [done|by eapply elem_of_detach_audience].
  - apply (feeds_same reached h); [intros; apply close_book_log| |done]. intros d market [Ho _]%is_open_close Hd. split; [done|].
    eapply elem_of_sublist; [exact Hd|apply close_audience].
  - apply (feeds_same reached h); [|done..]. intros d market. simpl. rewrite book_log_snoc, not_book_message by auto. destruct (decide (c = d)); apply app_nil_r.
  - apply (feeds_same reached h); [|done..]. intros d market. simpl. rewrite book_log_snoc. destruct (decide (c = d)); [|apply app_nil_r].
    rewrite not_book_message; [apply app_nil_r|]. by destruct m.
  - apply (feeds_same reached h); [|done..]. intros d market. simpl. rewrite book_log_snoc. apply app_nil_r.
  - apply (feeds_same reached h); [done| |done]. intros d market Ho Hd. split; [|done]. rewrite own_open in Ho. by apply fmap_is_Some in Ho.
  - apply (feeds_same reached h); [done| |done]. intros d market Ho Hd. split; [|done]. rewrite subs_open in Ho. by apply fmap_is_Some in Ho.
  - apply (feeds_same reached h); [done| |done]. intros d market Ho Hd. split; [done|]. rewrite join_audience in Hd.
    destruct (decide (key book_channel market = s)) as [E|]; [|done]. exfalso. match goal with K : forall symbol, s <> _ |- _ => by apply (K market) end.
  - destruct (send_told c (bookSnapshot books symbol) h) as (T1 & T2 & T3). intros d market. change (wire (join ?c ?s ?x)) with (wire x). change (is_open d (join ?c ?s ?x)) with (is_open d x).
    rewrite join_audience. destruct (H d market) as (st & Hfed & Hr). destruct (decide (d = c)) as [->|Hdc].
    + destruct (is_open c (send c (bookSnapshot books symbol) h)) as [k|] eqn:Eo.
      * rewrite (T2 ltac:(done)). destruct (decide (market = symbol)) as [->|Hm].
        -- exists (reached symbol). split; [|done]. unfold bookSnapshot. rewrite Hbooks. destruct (reached symbol) as [n|]; simpl; rewrite bool_decide_eq_true_2 by done; simpl;
             [by eapply fed_snapshot|by eapply fed_resync].
        -- exists st. assert (book_message market (bookSnapshot books symbol) = None) as -> by (unfold bookSnapshot; destruct (books symbol); simpl; rewrite bool_decide_eq_false_2; congruence).
           rewrite app_nil_r. split; [done|]. intros _. rewrite decide_False by (by intros [_ ?]%key_inj). intros Hd%elem_of_send_audience. apply Hr; [|done].
           apply send_open in Eo. by eexists.
      * exists st. rewrite (T3 eq_refl). split; [done|]. by intros [].
    + exists st. rewrite (T1 d Hdc). split; [done|]. intros [k Hk%send_open] Hd. apply Hr; [by eexists|].
      destruct (decide (key book_channel market = key book_channel symbol)) as [->|]; [apply with_last_elem in Hd as [?|Hd]; [done|]|]; by eapply elem_of_send_audience.
  - apply (feeds_same reached h); [done| |done]. intros d market Ho Hd. change (is_Some (is_open d (put_subscriptions c (without s) h))) in Ho. rewrite subs_open in Ho. apply fmap_is_Some in Ho. split; [done|].
    eapply elem_of_sublist; [exact Hd|apply alter_without_audience].
Qed.

(** A message to a whole audience. *)
Lemma broadcast_told m cs h : NoDup cs ->
  let h' := fold_left (fun h c => send c m h) cs h in
  (forall c, is_Some (is_open c h') -> is_Some (is_open c h)) /\
  (forall s c, c ∈ audience_of h' s -> c ∈ audience_of h s) /\
  (forall c market, book_log c market (wire h') = book_log c market (wire h) \/
     (c ∈ cs /\ is_Some (is_open c h)) /\ book_log c market (wire h') = book_log c market (wire h) ++ option_list (book_message market m)) /\
  (forall c market, c ∈ cs -> is_Some (is_open c h') -> book_log c market (wire h') = book_log c market (wire h) ++ option_list (book_message market m)) /\
  (forall c market, c ∉ cs -> book_log c market (wire h') = book_log c market (wire h)).
Proof.
  revert h. induction cs as [|c0 cs IH]; intros h Hnd; simpl.
  { split_and!; [done|done|by left|intros c market Hc; set_solver|done]. }
  apply NoDup_cons in Hnd as [Hc0 Hnd]. destruct (send_told c0 m h) as (T1 & T2 & T3). set (h1 := send c0 m h) in *.
  destruct (IH h1 Hnd) as (B1 & B2 & B3 & B4 & B5). set (h' := fold_left _ cs h1) in *.
  assert (Hopen : forall c, is_Some (is_open c h1) -> is_Some (is_open c h)) by (intros c [k Hk%send_open]; by eexists).
  split_and!.
  - intros c Hc. by apply Hopen, B1.
  - intros s c Hc%B2. by eapply elem_of_send_audience.
  - intros c market. destruct (decide (c = c0)) as [->|Hn].
    + rewrite B5 by done. destruct (is_open c0 h1) as [k|] eqn:E; [|left; by apply T3]. right. split; [|by apply T2]. split; [set_solver|apply Hopen; by rewrite E].
    + destruct (B3 c market) as [->|([Hc Ho] & ->)]; rewrite T1 by done; [by left|]. right. split; [|done]. split; [set_solver|by apply Hopen].
  - intros c market Hc Ho. destruct (decide (c = c0)) as [->|Hn]; [rewrite B5 by done; apply T2, B1, Ho|].
    rewrite B4 by (done || set_solver). by rewrite T1.
  - intros c market Hc. rewrite B5 by set_solver. apply T1. set_solver.
Qed.

Lemma feeds_broadcast msg symbol st' reached h :
  (forall market, market <> symbol -> book_message market msg = None) ->
  (forall l, fed (hist symbol) maxLevels None l (reached symbol) -> fed (hist symbol) maxLevels None (l ++ option_list (book_message symbol msg)) st') ->
  subscribed_ok h -> feeds reached h ->
  feeds (fun market => if decide (market = symbol) then st' else reached market) (broadcast limits bufferedAmount send_throws book_channel symbol msg h).
Proof.
  intros Hother Hnext Hso H c market. unfold broadcast. change (default [] (subscribers h !! key book_channel symbol)) with (audience_of h (key book_channel symbol)).
  destruct (broadcast_told msg (audience_of h (key book_channel symbol)) h (so_nodup h Hso _)) as (B1 & B2 & B3 & B4 & B5). set (h' := fold_left _ _ h) in *.
  destruct (H c market) as (st & Hfed & Hr). destruct (decide (market = symbol)) as [->|Hn].
  - destruct (decide (c ∈ audience_of h (key book_channel symbol) /\ is_Some (is_open c h'))) as [[Hc Ho]|Hno].
    + exists st'. rewrite (B4 c symbol Hc Ho). split; [|done]. specialize (Hr (B1 c Ho) Hc). subst st. by apply Hnext.
    + destruct (B3 c symbol) as [E|([Hc Ho] & E)].
      * exists st. rewrite E. split; [done|]. intros Ho Hc%B2. tauto.
      * exists st'. rewrite E. specialize (Hr Ho Hc). subst st. split; [by apply Hnext|]. intros Ho' Hc'%B2. tauto.
  - exists st. assert (E : book_log c market (wire h') = book_log c market (wire h)).
    { destruct (B3 c market) as [E|(_ & E)]; [done|]. rewrite E, Hother by done. apply app_nil_r. }
    rewrite E. split; [done|]. intros Ho Hc. apply Hr; [by apply B1|by apply B2].
Qed.

Definition reached_by (told : string -> list FanoutMessage) (market : string) : option Z := fan_state (told market).

Definition hears (symbol : string) (m : FanoutMessage) (told : string -> list FanoutMessage) (market : string) : list FanoutMessage :=
  if decide (market = symbol) then told market ++ [m] else told market.

Lemma feeds_ext r1 r2 h : (forall market, r1 market = r2 market) -> feeds r1 h -> feeds r2 h.
Proof. intros E H c market. destruct (H c market) as (st & ? & Hr). exists st. split; [done|]. intros. rewrite <- E. by apply Hr. Qed.

Lemma feeds_fanned books symbol m told h :
  of_book (fanned books symbol m) = true -> goes_on (hist symbol) maxLevels (told symbol) m ->
  (forall v, m = m_snapshot v -> books symbol = Some v) -> subscribed_ok h -> feeds (reached_by told) h ->
  feeds (reached_by (hears symbol m told)) (step (fanned books symbol m) h).
Proof.
  intros Hb Hm Hsnap Hso H.
  apply (feeds_ext (fun market => if decide (market = symbol) then fan_state (told symbol ++ [m]) else reached_by told market)).
  { intros market. unfold reached_by, hears. destruct (decide (market = symbol)) as [->|]; done. }
  unfold fan_state. rewrite fold_left_app. fold (fan_state (told symbol)). fold (reached_by told symbol). destruct m as [v|seq changes| |t]; simpl; [| | |done].
  - apply (feeds_same _ (broadcast limits bufferedAmount send_throws book_channel symbol (bookSnapshot books symbol) h)); [done..|].
    unfold bookSnapshot. rewrite (Hsnap v eq_refl). apply feeds_broadcast; [|..|done|done]; simpl.
    + intros market Hn. rewrite bool_decide_eq_false_2; [done|congruence].
    + intros l Hl. rewrite bool_decide_eq_true_2 by done. simpl. simpl in Hm. rewrite Hm at 1. by eapply fed_snapshot.
  - destruct Hm as [Hseq ->]. fold (reached_by told symbol) in Hseq. apply feeds_broadcast; [|..|done|done]; simpl.
    + intros market Hn. rewrite bool_decide_eq_false_2; [done|congruence].
    + intros l Hl. rewrite bool_decide_eq_true_2 by done. simpl. unfold reached_by in Hl, Hseq. rewrite Hseq in Hl. replace seq with (seq - 1 + 1) by lia. by apply fed_delta.
  - apply feeds_broadcast; [|..|done|done]; simpl.
    + intros market Hn. rewrite bool_decide_eq_false_2; [done|congruence].
    + intros l Hl. rewrite bool_decide_eq_true_2 by done. simpl. by eapply fed_resync.
Qed.

(** *** Runs of events *)

(** The messages of a market's fan-out among the events. *)
Definition told_of (market : string) (events : list Event) : list FanoutMessage :=
  omap (fun e => match e with fanned _ symbol m => if decide (symbol = market) then Some m else None | _ => None end) events.

(** While an event is handled, the books are those the fan-outs' messages left. *)
Definition in_step (events : list Event) : Prop :=
  forall before e after, events = before ++ e :: after ->
    match e with
    | fanned books symbol m => goes_on (hist symbol) maxLevels (told_of symbol before) m /\ forall v, m = m_snapshot v -> books symbol = Some v
    | answered books _ _ _ => forall market, books market = vouched (hist market) maxLevels (told_of market before)
    | _ => True
    end.

Lemma told_of_snoc market events e :
  told_of market (events ++ [e]) = match e with fanned _ symbol m => hears symbol m (fun s => told_of s events) market | _ => told_of market events end.
Proof.
  unfold told_of, hears. rewrite omap_app. destruct e; simpl; rewrite ?app_nil_r; try done. destruct (decide (symbol = market)) as [->|].
  - by rewrite decide_True.
  - rewrite decide_False by congruence. apply app_nil_r.
Qed.

Lemma run_feeds events :
  in_step events -> let h := run events createSocketHub in static h /\ subscribed_ok h /\ feeds (reached_by (fun market => told_of market events)) h.
Proof.
  induction events as [|e events IH] using rev_ind; intros Hin; simpl.
  { split; [apply static_start|]. split.
    - split; simpl; [intros s c; set_solver|intros s c k; set_solver|intros s; constructor|intros c k; done].
    - intros c market. exists None. split; [constructor|done]. }
  destruct IH as (Hst & Hso & H).
  { intros before e' after E. apply (Hin before e' (after ++ [e])). by rewrite E, <- app_assoc. }
  specialize (Hin events e [] eq_refl). unfold Hub.run. rewrite fold_left_app. simpl. fold (run events createSocketHub). set (h := run events createSocketHub) in *. clearbody h.
  assert (exists books, (forall books' i a now, e = answered books' i a now -> books' = books) /\
    forall market, books market = vouched (hist market) maxLevels (told_of market events)) as (books & Hb & Hv).
  { destruct e; try (by exists (fun market => vouched (hist market) maxLevels (told_of market events))).
    eexists. split; [by intros ? ? ? ? [= <- _ _ _]|exact Hin]. }
  pose proof (step_prims books e h Hst Hb) as Hp.
  destruct (prims_invariant _ _ subscribed_ok (subscribed_prim _ _) h (step e h) Hp Hst Hso) as [Hst' Hso'].
  split; [done|]. split; [done|]. destruct (of_book e) eqn:Hof.
  - destruct e as [| | | | | | | |books' symbol m| |]; try done. destruct Hin as [Hg Hs].
    eapply feeds_ext; [|by apply (feeds_fanned books' symbol m (fun s => told_of s events) h)]. intros market. unfold reached_by. by rewrite told_of_snoc.
  - destruct (prims_invariant false books (fun h => subscribed_ok h /\ feeds (reached_by (fun market => told_of market events)) h)
      (fun h h' Hs HP Hp => conj (subscribed_prim _ _ _ _ Hs (proj1 HP) Hp) (feeds_prim books _ _ _ Hv Hs (proj1 HP) (proj2 HP) Hp)) h (step e h) Hp Hst (conj Hso H)) as (_ & _ & H').
    eapply feeds_ext; [|exact H']. intros market. unfold reached_by. rewrite told_of_snoc. destruct e as [| | | | | | | |books' symbol m| |]; try done.
    destruct m as [| | |t]; try done. unfold hears. destruct (decide (market = symbol)) as [->|]; [|done]. unfold fan_state. by rewrite fold_left_app.
Qed.
End Feeds.
End Sockets.
