(* ===== verification/Watching.v ===== *)
(** * From the engine's book to a screen

    What [Hub], [Fanout] and [Screen] are worth together, and where they go wrong: what a user
    is shown as live is the engine's book as far as it was sent; what is private is sent to its
    user while the session lives; the indexes agree with the open sockets. *)

From Stdlib Require Import ZArith Lia Ascii.
From stdpp Require Import base list strings gmap sorting relations.
From S2P Require Import Prelude Decimal Assets Market States Orders Store Events Tape Fanout Fidelity Hub Screen Sockets.
From S2P Require Reconciliation.

Open Scope string_scope.
Open Scope list_scope.
Open Scope Z_scope.

(** ** What the sockets hear of a fan-out *)

Definition going (hist : History) (maxLevels : nat) (log : list FanoutMessage) : Prop :=
  forall l m r, log = l ++ m :: r -> goes_on hist maxLevels l m.

Lemma going_snoc hist maxLevels log m : going hist maxLevels log -> goes_on hist maxLevels log m -> going hist maxLevels (log ++ [m]).
Proof. intros Hl Hm l m' r E. apply snoc_split in E as [(-> & -> & ->)|(r' & -> & E)]; [done|by eapply Hl]. Qed.

Lemma going_trades hist maxLevels log ts :
  going hist maxLevels log -> going hist maxLevels (log ++ map m_trade ts) /\ fan_state (log ++ map m_trade ts) = fan_state log.
Proof.
  intros Hl. induction ts as [|t ts [IH1 IH2]] using rev_ind; simpl; [by rewrite app_nil_r|].
  rewrite map_app, app_assoc. split; [by apply going_snoc|]. unfold fan_state in *. by rewrite fold_left_app, IH2.
Qed.

(** A log that tells a history goes on with it, message by message. *)
Lemma tells_going hist maxLevels log st : tells hist maxLevels log st -> fan_state log = st /\ going hist maxLevels log.
Proof.
  induction 1 as [|log n _ [IHs IHg]|log n _ [IHs IHg]|log n _ [IHs IHg]].
  - split; [done|]. intros [] ? ? [=].
  - split; [unfold fan_state; by rewrite fold_left_app|by apply going_snoc].
  - destruct (going_trades hist maxLevels log (trades_in (events_of hist (n + 1))) IHg) as [Hg Hs]. rewrite app_assoc.
    split; [unfold fan_state; by rewrite fold_left_app|]. apply going_snoc; [done|]. simpl. rewrite Hs, IHs. split; [f_equal; lia|done].
  - split; [unfold fan_state; by rewrite fold_left_app|by apply going_snoc].
Qed.

(** Messages a fan-out told, after some turns of its loop over an honest feed. *)
Definition from_fanout (hist : History) (maxLevels : nat) (told : list FanoutMessage) : Prop :=
  exists W (F : Feed W) parse idleBehindLimit turns (w : W),
    HonestFeed F parse hist /\ told `prefix_of` emitted (cycles parse maxLevels idleBehindLimit turns (fan_start w)).

Lemma from_fanout_going hist maxLevels told : consistent hist -> from_fanout hist maxLevels told -> going hist maxLevels told.
Proof.
  intros Hh (W & F & parse & idle & turns & w & Hfeed & [k E]). assert (Hf : faithful maxLevels hist (cycles parse maxLevels idle turns (fan_start w))).
  { apply faithful_cycles; [done|done|]. split; simpl; [constructor|done|done]. }
  pose proof (fa_log _ _ _ Hf) as Ht. apply tells_going in Ht as [_ Hg]. intros l m r ->. eapply Hg. by rewrite E, <- app_assoc.
Qed.

(** While an event is handled, the books are those the fan-outs vouch for. *)
Definition books_current (hist : string -> History) (maxLevels : nat) (events : list Event) : Prop :=
  forall before e after, events = before ++ e :: after ->
    match e with
    | fanned books symbol (m_snapshot v) => books symbol = Some v
    | answered books _ _ _ => forall market, books market = vouched (hist market) maxLevels (told_of market before)
    | _ => True
    end.

Lemma told_in_step hist maxLevels events :
  (forall symbol, consistent (hist symbol)) -> (forall symbol, from_fanout (hist symbol) maxLevels (told_of symbol events)) ->
  books_current hist maxLevels events -> in_step hist maxLevels events.
Proof.
  intros Hh Hfan Hbooks before e after E. specialize (Hbooks before e after E). destruct e as [| | | | | | | |books symbol m|books i a now|]; try done.
  split; [|by destruct m; intros ? [= <-]]. apply (from_fanout_going _ _ _ (Hh symbol) (Hfan symbol) _ m (told_of symbol after)).
  rewrite E. unfold told_of. rewrite omap_app. simpl. by rewrite decide_True.
Qed.

(** ** Properties *)

Section Properties.
Context (cluster : Cluster) (servedClusters : list Cluster) (markets : list HubMarket) (limits : HubLimits).
Context (bufferedAmount : nat -> list Wire -> Z) (send_throws : nat -> list Wire -> bool).
Context (byteLength : string -> Z) (parseClientMessage : string -> option WsClientMessage).

Notation run := (Hub.run cluster servedClusters markets limits bufferedAmount send_throws byteLength parseClientMessage).

(** C30: What a screen shows as live is the engine's book. Between them are a fan-out that reads a
    stream that loses, repeats and reorders, and a hub that serves any number of sockets while
    sessions end, buffers fill and jobs are answered in any order. Whatever connections a
    browser has had, however much of each arrived, and wherever a listener came in: it never
    misses a sequence, and while its book is live it has a sequence of the engine, every level
    shown is in the engine's book there, and every level is shown that is no worse than the
    worst the last snapshot had; all of them, when that was not truncated. *)
Theorem live_book_is_the_engines hist maxLevels events market cs received k :
  (forall symbol, consistent (hist symbol) /\ positive (hist symbol) /\ from_fanout (hist symbol) maxLevels (told_of symbol events)) ->
  books_current hist maxLevels events ->
  Forall2 (fun c messages => messages `prefix_of` book_log c market (wire (run events createSocketHub))) cs received ->
  let messages := drop k (concat received) in let b := show messages in
  bk_needsSnapshot b = false /\
  (bk_status b = live ->
   exists s v, bk_seq b = Some s /\ last_snapshot messages None = Some v /\ drawn (hist market) v s (bk_sides b) /\
     (bk_truncated b = false -> bk_sides b = truth (hist market) s)).
Proof.
  intros Hh Hbooks Hrec messages b. destruct (Hh market) as (Hc & Hp & _).
  destruct (run_feeds cluster servedClusters markets limits bufferedAmount send_throws byteLength parseClientMessage hist maxLevels events) as (_ & _ & Hfeeds).
  { apply told_in_step; [apply Hh|apply Hh|done]. }
  assert (Hfed : Forall (fun l => exists st, fed (hist market) maxLevels None l st) received).
  { apply Forall2_Forall_r with (1 := Hrec). apply Forall_forall. intros c _ l Hl. destruct (Hfeeds c market) as (st & Hst & _). by eapply fed_prefix. }
  destruct (fed_concat _ _ _ Hfed) as [st Hst]. destruct (fed_drop _ _ _ _ _ k Hst) as [start Hst'].
  destruct (fed_drawn _ _ _ _ _ Hc Hp Hst') as (Hn & _ & Hl). split; [done|]. intros Hlive. destruct (Hl Hlive) as (s & v & Hs & Hv & Hd & Ht).
  exists s, v. split; [done|]. split; [done|]. split; [done|]. fold messages b in Ht, Hd. rewrite Ht. intros Hwhole. destruct Hd as [[_ Hb] [_ Ha]].
  destruct (bk_sides b) as [bs az], (truth (hist market) s) as [bt at_]. simpl in *. f_equal; apply map_eq; intros p; [apply Hb|apply Ha]; by left.
Qed.

(** C31: What is private is sent to its user, while the session lives. In any run of the hub, an
    order, a fill or a hint sent to a socket is of the user the socket was opened by, a fill
    that user's own side of one they took part in; and nothing passed between the session
    store's last word, that this socket's session is valid, and it, but other such messages to
    the same socket. Nothing is sent to a socket that was closed. *)
Theorem private_needs_live_session events before c m after :
  wire (run events createSocketHub) = before ++ sent c m :: after ->
  (is_private m = true -> just_checked c before /\ exists u, user_of (run events createSocketHub) c = Some u /\ private_to u m) /\
  forall code reason, closed_by_server c code reason ∉ before.
Proof.
  intros E. split.
  - intros Hm. destruct (run_invariant cluster servedClusters markets limits bufferedAmount send_throws byteLength parseClientMessage discreet events) as [_ H].
    + intros ? ? ? ? Ew. by destruct before0.
    + intros. by eapply discreet_prim.
    + by apply (H before c m after).
  - intros code reason Hin. destruct (run_invariant cluster servedClusters markets limits bufferedAmount send_throws byteLength parseClientMessage closing events) as [_ H].
    + intros ? ? ? ? ? Ew. by destruct before0.
    + intros. by eapply closing_prim.
    + apply list_elem_of_split in Hin as (b1 & b2 & ->). rewrite <- app_assoc in E. simpl in E. destruct (H _ _ _ _ _ E) as (_ & _ & Hno).
      apply (Hno m). apply elem_of_app. right. by left.
Qed.

(** The hub's bounds mean what they say. After any run, a socket is admitted exactly when its
    user and its address have fewer open sockets than their bounds, whatever was closed and in
    which order; no open socket has more subscriptions than its bound, or any of them twice,
    and a socket in a channel's audience that is open is subscribed to it. *)
Theorem bounds_count_open_sockets events userId ip :
  let h := run events createSocketHub in
  admission limits userId ip h =
    (if maxSocketsPerUser limits <=? Z.of_nat (length (of_user h userId)) then Some "user_limit"
     else if maxSocketsPerIp limits <=? Z.of_nat (length (of_ip h ip)) then Some "ip_limit" else None) /\
  (forall c, c ∈ open h <-> is_Some (is_open c h)) /\ NoDup (open h) /\
  forall c k, is_open c h = Some k ->
    NoDup (cn_subscriptions k) /\ Z.of_nat (length (cn_subscriptions k)) <= Z.max 0 (maxSubscriptions limits) /\
    forall subscription, c ∈ audience_of h subscription -> subscription ∈ cn_subscriptions k.
Proof.
  intros h. assert (Hix : indexed h).
  { apply (run_invariant cluster servedClusters markets limits bufferedAmount send_throws byteLength parseClientMessage indexed events).
    - split; simpl; [intros c; split; [set_solver|by intros []]|constructor|done|done].
    - intros. by eapply indexed_prim. }
  assert (Hso : subscribed_ok limits h).
  { apply (run_invariant cluster servedClusters markets limits bufferedAmount send_throws byteLength parseClientMessage (subscribed_ok limits) events).
    - split; simpl; [intros s c; set_solver|intros s c k; set_solver|intros s; constructor|intros c k; done].
    - intros. by eapply subscribed_prim. }
  split_and!; [|apply Hix|apply Hix|].
  - unfold admission. rewrite (ix_user h Hix), (ix_ip h Hix). destruct (of_user h userId), (of_ip h ip); reflexivity.
  - intros c k Hk. destruct (so_bound _ h Hso c k Hk). split; [done|]. split; [done|]. intros s Hc. by apply (so_audience _ h Hso s c).
Qed.
End Properties.

(** ** Runs *)

Definition demo_limits : HubLimits := mkLimits 2 3 10 1000 100 1000.
Definition demo_markets : list HubMarket := [mkHubMarket "SOL-USDC" "devnet:SOL-USDC"].

Definition demo_parse (data : string) : option WsClientMessage :=
  if decide (data = "watch the book") then Some (op_subscribe book_channel devnet (Some "SOL-USDC"))
  else if decide (data = "watch my account") then Some (op_subscribe account_channel devnet None)
  else if decide (data = "leave my account") then Some (op_unsubscribe account_channel devnet None)
  else None.

Notation demo_run := (Hub.run devnet [devnet] demo_markets demo_limits (fun _ _ => 0) (fun _ _ => false) (fun _ => 10) demo_parse).

(** A fan-out's messages as events. *)
Definition fan_events (symbol : string) (told : list FanoutMessage) : list Event :=
  map (fun m => fanned (fun _ => match m with m_snapshot v => Some v | _ => None end) symbol m) told.

Definition no_books : string -> option BookView := fun _ => None.

Definition opens_book : list Event :=
  [attaches "alice" "::1" "token" 0; frame 0 "watch the book" 5; answered no_books 1 (session_answer (Ok true)) 6].

Definition book_events : list Event := opens_book ++ fan_events "SOL-USDC" (emitted (toy_fan 4)).

Lemma toy_positive : positive toy_history.
Proof.
  intros n. split; simpl; unfold toy_sides; simpl; [|apply map_Forall_empty].
  destruct (n <=? 0); [apply map_Forall_empty|]. destruct (n =? 1); by apply map_Forall_singleton.
Qed.

Lemma told_of_fan market symbol told : told_of market (fan_events symbol told) = if decide (symbol = market) then told else [].
Proof.
  unfold told_of, fan_events. induction told as [|m told IH]; simpl; [by destruct (decide _)|].
  destruct (decide (symbol = market)); simpl; [f_equal|]; exact IH.
Qed.

Lemma book_told market told : told_of market (opens_book ++ fan_events "SOL-USDC" told) `prefix_of` told.
Proof.
  unfold told_of. rewrite omap_app. fold (told_of market (fan_events "SOL-USDC" told)). rewrite told_of_fan. simpl.
  destruct (decide ("SOL-USDC" = market)); [done|apply prefix_nil].
Qed.

(** What a fan-out tells is seen when it is told. *)
Lemma fan_current hist maxLevels symbol told front :
  books_current hist maxLevels front -> books_current hist maxLevels (front ++ fan_events symbol told).
Proof.
  intros Hf. induction told as [|m told IH] using rev_ind; [by rewrite app_nil_r|].
  unfold fan_events in *. rewrite map_app, app_assoc. intros before e after E. apply snoc_split in E as [(-> & -> & ->)|(after' & -> & E)]; [by destruct m|by eapply IH].
Qed.

Lemma book_events_current : books_current (fun _ => toy_history) 10 book_events.
Proof.
  apply fan_current. intros before e after E. destruct before as [|? [|? [|? [|? ?]]]]; try discriminate E; injection E; intros; subst; try done.
Qed.

Lemma live_book_is_the_engines_witness :
  let b := show (drop 0 (concat [book_log 0 "SOL-USDC" (wire (demo_run book_events createSocketHub))])) in
  bk_status b = live /\ bk_seq b = Some 2 /\ map_to_list (bids (bk_sides b)) = [(100, 3)] /\ bk_sides b = truth toy_history 2.
Proof.
  intros b. assert (Hb : bk_status b = live /\ bk_seq b = Some 2 /\ map_to_list (bids (bk_sides b)) = [(100, 3)] /\ bk_truncated b = false) by (vm_compute; auto).
  destruct Hb as (Hl & Hs & Hm & Ht). split; [exact Hl|]. split; [exact Hs|]. split; [exact Hm|].
  destruct (live_book_is_the_engines devnet [devnet] demo_markets demo_limits (fun _ _ => 0) (fun _ _ => false) (fun _ => 10) demo_parse
    (fun _ => toy_history) 10 book_events "SOL-USDC" [0%nat] [book_log 0 "SOL-USDC" (wire (demo_run book_events createSocketHub))] 0) as [_ H].
  - intros symbol. split; [exact toy_consistent|]. split; [exact toy_positive|]. exists nat, toy_feed, toy_parse, 2%nat, 4%nat, 0%nat. split; [exact toy_honest|].
    apply book_told.
  - exact book_events_current.
  - constructor; [reflexivity|constructor].
  - destruct (H Hl) as (s & v & Hs' & _ & _ & Hwhole). fold b in Hs', Hwhole. rewrite (Hwhole Ht). congruence.
Defined.

(** *** The private channel *)

Definition demo_order (id userId : string) : OrderRecord :=
  mkOrder id userId id "devnet:SOL-USDC" buy Orders.limit GTC false (Some 100) 5 0 Order.OPEN "devnet:USDC" 500 (Some 1) None 9000.

Definition opens_account : list Event :=
  [attaches "alice" "::1" "token" 0; frame 0 "watch my account" 1; answered no_books 1 (session_answer (Ok true)) 2].

(** A change of alice's that the hub is told of at an instant: her rows are read as job [j], her
    session asked for as the next, at once. *)
Definition change_seen (now : Z) (j : nat) (orders : list ChangedOrder) : list Event :=
  [users_changed ["alice"] now; answered no_books j (rows_answer (Ok (orders, []))) now; answered no_books (S j) (session_answer (Ok true)) now].

Definition alices_and_bobs : list ChangedOrder := [mkChangedOrder (demo_order "b1" "bob") 9000; mkChangedOrder (demo_order "a1" "alice") 9500].

Definition private_events : list Event := opens_account ++ change_seen 10000 2 alices_and_bobs.

Lemma private_needs_live_session_witness :
  exists before, wire (demo_run private_events createSocketHub) = before ++ [sent 0 (order_message (demo_order "a1" "alice")); sent 0 balances_changed] /\ just_checked 0 before.
Proof.
  exists [session_said 0 true; sent 0 (subscribed account_channel devnet None); session_said 0 true].
  assert (E : wire (demo_run private_events createSocketHub) =
    [session_said 0 true; sent 0 (subscribed account_channel devnet None); session_said 0 true] ++ sent 0 (order_message (demo_order "a1" "alice")) :: [sent 0 balances_changed]) by reflexivity.
  split; [exact E|]. exact (proj1 (proj1 (private_needs_live_session devnet [devnet] demo_markets demo_limits (fun _ _ => 0) (fun _ _ => false) (fun _ => 10) demo_parse
    private_events _ _ _ _ E) eq_refl)).
Defined.

(** ** Where it goes wrong *)

Lemma removed_levels (levels : list (Z * Z)) (sides : Sides) price :
  bids (fold_left show_change (map (fun l : Z * Z => mkChange buy l.1 0) levels) sides) !! price =
  if decide (price ∈ levels.*1) then None else bids sides !! price.
Proof.
  revert sides. induction levels as [|[p q] levels IH]; intros sides; simpl; [done|]. rewrite IH. unfold show_change. simpl.
  case_decide as H1; case_decide as H2; rewrite elem_of_cons in H2; try done; [tauto| |].
  - destruct H2 as [->|?]; [apply lookup_delete_eq|done].
  - apply lookup_delete_ne. intros ->. tauto.
Qed.

(** The [k] deltas that follow a sequence. *)
Definition deltas (h : History) (n : Z) (k : nat) : list BookMessage :=
  map (fun i => delta_message (n + Z.of_nat i) (changes_of h (n + Z.of_nat i))) (List.seq 1 k).

(** A change of another level leaves one as it is, on either side of the stream. *)
Lemma untouched_level changes (sides : Sides) price :
  (forall c, c ∈ changes -> lc_side c = buy -> lc_price c <> price) ->
  bids (fold_left show_change changes sides) !! price = bids sides !! price.
Proof.
  revert sides. induction changes as [|c changes IH]; intros sides Hc; simpl; [done|]. rewrite IH by (intros; apply Hc; [by right|done]).
  pose proof (Hc c ltac:(by left)) as Hp. unfold show_change. destruct (lc_side c); simpl; [|done].
  case_match; [apply lookup_delete_ne|apply lookup_insert_ne]; by apply Hp.
Qed.

Lemma untouched_missing h n price qty k b :
  consistent h -> bk_status b = live -> bk_seq b = Some n -> bk_needsSnapshot b = false ->
  bids (bk_sides b) !! price = None -> bids (truth h n) !! price = Some qty ->
  (forall i c, (1 <= i <= k)%nat -> c ∈ changes_of h (n + Z.of_nat i) -> lc_side c = buy -> lc_price c <> price) ->
  let b' := fold_left applyBookMessage (deltas h n k) b in
  bk_status b' = live /\ bk_seq b' = Some (n + Z.of_nat k) /\ bk_needsSnapshot b' = false /\
  bids (bk_sides b') !! price = None /\ bids (truth h (n + Z.of_nat k)) !! price = Some qty.
Proof.
  intros Hh Hl Hs Hn Hb Ht. induction k as [|k IH]; intros Hc.
  - unfold deltas. simpl. by rewrite Z.add_0_r.
  - destruct IH as (IHl & IHs & IHn & IHb & IHt); [intros i c Hi; apply Hc; lia|]. unfold deltas in *.
    rewrite seq_S, map_app, fold_left_app. set (b1 := fold_left _ _ b) in *. simpl. rewrite IHs, IHl.
    replace (n + Z.of_nat (S k)) with (n + Z.of_nat k + 1) by lia.
    destruct (Z.leb_spec (n + Z.of_nat k + 1) (n + Z.of_nat k)); [lia|]. rewrite Z.eqb_refl. simpl. split; [done|]. split; [done|]. split; [done|].
    assert (Hk : forall c, c ∈ changes_of h (n + Z.of_nat k + 1) -> lc_side c = buy -> lc_price c <> price).
    { intros c Hin. apply (Hc (S k)); [lia|]. by replace (n + Z.of_nat (S k)) with (n + Z.of_nat k + 1) by lia. }
    split; [by rewrite untouched_level|]. rewrite Hh. unfold apply_changes. change apply_change with show_change. by rewrite untouched_level.
Qed.

(** C32: A truncated book misleads. When a snapshot of the engine's book, whose levels are positive,
    has not every bid, and then all the bids it had are taken, the screen's book has no bid;
    and once one is placed below a level that was never sent, it is the best bid shown. All the
    while the book has the engine's sequence, is live and asks for no snapshot; and however
    many deltas follow, the missing level stays out of it, and in the engine's book, until a
    change is made to that very level. *)
Theorem truncated_book_misleads h maxLevels n missing qty lower size :
  consistent h -> positive h ->
  let v := view_of n (truth h n) maxLevels in
  bids (truth h n) !! missing = Some qty -> missing ∉ (vw_bids v).*1 -> lower < missing -> 0 < size ->
  changes_of h (n + 1) = map (fun l => mkChange buy l.1 0) (vw_bids v) -> changes_of h (n + 2) = [mkChange buy lower size] ->
  let emptied := [snapshot_message v; delta_message (n + 1) (changes_of h (n + 1))] in
  let messages := emptied ++ [delta_message (n + 2) (changes_of h (n + 2))] in
  let b := show messages in
  (bk_status (show emptied) = live /\ bk_seq (show emptied) = Some (n + 1) /\ bk_needsSnapshot (show emptied) = false /\
   (topOfBook (show emptied)).1.1 = None) /\
  (fed h maxLevels None messages (Some (n + 2)) /\ bk_status b = live /\ bk_seq b = Some (n + 2) /\ bk_needsSnapshot b = false /\
   (topOfBook b).1.1 = Some lower /\ bids (truth h (n + 2)) !! missing = Some qty) /\
  forall k, (forall i c, (1 <= i <= k)%nat -> c ∈ changes_of h (n + 2 + Z.of_nat i) -> lc_side c = buy -> lc_price c <> missing) ->
    let b' := show (messages ++ deltas h (n + 2) k) in
    bk_status b' = live /\ bk_seq b' = Some (n + 2 + Z.of_nat k) /\ bk_needsSnapshot b' = false /\
    bids (bk_sides b') !! missing = None /\ bids (truth h (n + 2 + Z.of_nat k)) !! missing = Some qty.
Proof.
  intros Hh Hpos v Hmiss Hnot Hlow Hsize Hc1 Hc2 emptied messages b.
  assert (He : show emptied = mkBookState live (Some (n + 1)) (fold_left show_change (changes_of h (n + 1)) (mkSides (shown_side (vw_bids v)) (shown_side (vw_asks v)))) (vw_truncated v) false).
  { unfold show, emptied. simpl. destruct (Z.leb_spec (n + 1) n); [lia|]. by rewrite Z.eqb_refl. }
  assert (Hnone : bids (bk_sides (show emptied)) = ∅).
  { rewrite He, Hc1. simpl. apply map_eq. intros p. rewrite removed_levels, lookup_empty. case_decide as Hin; [done|]. simpl.
    destruct (shown_side _ !! p) as [q|] eqn:E; [|done]. exfalso. apply Hin.
    apply shown_side_lookup in E as [E _]; [apply list_elem_of_fmap; by exists (p, q)|]. destruct (sorted_keys (bids (truth h n)) true) as (Hnd & _ & _).
    unfold sorted_side. change (map ?f ?l) with (fmap (M := list) f l). rewrite <- list_fmap_compose. simpl. rewrite list_fmap_id.
    rewrite <- (take_drop maxLevels (rev _)) in Hnd. by apply NoDup_app in Hnd as [? _]. }
  assert (Hb : b = mkBookState live (Some (n + 2)) (show_change (bk_sides (show emptied)) (mkChange buy lower size)) (vw_truncated v) false).
  { unfold b, messages. unfold show at 1. rewrite fold_left_app. fold (show emptied). rewrite He at 1. simpl.
    destruct (Z.leb_spec (n + 2) (n + 1)); [lia|]. replace (n + 2 =? n + 1 + 1) with true by (symmetry; apply Z.eqb_eq; lia). simpl. by rewrite Hc2, He. }
  assert (Hbids : bids (bk_sides b) = {[lower := size]}).
  { rewrite Hb. simpl. rewrite Hnone. destruct (Z.eqb_spec size 0); [lia|]. done. }
  assert (Htruth : bids (truth h (n + 2)) !! missing = Some qty).
  { replace (n + 2) with (n + 1 + 1) by lia. rewrite !Hh. replace (n + 1 + 1) with (n + 2) by lia. rewrite Hc2, Hc1. unfold apply_changes.
    change apply_change with show_change. rewrite untouched_level, removed_levels by (intros c ->%list_elem_of_singleton _; simpl; lia). by rewrite decide_False. }
  split; [rewrite He at 1 2 3; unfold topOfBook; by rewrite Hnone|].
  assert (Hlive : bk_status b = live /\ bk_seq b = Some (n + 2) /\ bk_needsSnapshot b = false) by (by rewrite Hb).
  destruct Hlive as (Hl & Hs & Hn). split.
  - split; [|repeat split; try done; unfold topOfBook; rewrite Hbids; unfold best; by rewrite map_to_list_singleton].
    unfold messages, emptied. replace (n + 2) with (n + 1 + 1) by lia. apply fed_delta. apply (fed_delta h maxLevels None [_]).
    apply (fed_snapshot h maxLevels None [] None). constructor.
  - intros k Hk. unfold show. rewrite fold_left_app. fold (show messages). fold b. apply untouched_missing; try done.
    rewrite Hbids. apply lookup_singleton_ne. lia.
Qed.

Definition thin_history : History := mkHistory
  (fun n => mkSides (if n <=? 0 then ∅ else if n =? 1 then {[100 := 5; 99 := 7]} else if n =? 2 then {[99 := 7]} else {[99 := 7; 90 := 4]}) ∅)
  (fun _ => [])
  (fun n => if n =? 1 then [mkChange buy 100 5; mkChange buy 99 7] else if n =? 2 then [mkChange buy 100 0] else if n =? 3 then [mkChange buy 90 4] else []).

Lemma thin_consistent : consistent thin_history.
Proof.
  intros n. simpl. destruct (decide (n = 0)) as [->|]; [by vm_compute|]. destruct (decide (n = 1)) as [->|]; [by vm_compute|]. destruct (decide (n = 2)) as [->|]; [by vm_compute|].
  rewrite (proj2 (Z.eqb_neq (n + 1) 1)), (proj2 (Z.eqb_neq (n + 1) 2)), (proj2 (Z.eqb_neq (n + 1) 3)) by lia. simpl.
  destruct (Z.leb_spec n 0), (Z.leb_spec (n + 1) 0); try lia; [done|]. by rewrite !(proj2 (Z.eqb_neq n _)) by lia.
Qed.

Lemma thin_positive : positive thin_history.
Proof.
  intros n. split; simpl; [|apply map_Forall_empty]. destruct (n <=? 0); [apply map_Forall_empty|]. destruct (n =? 1); [|destruct (n =? 2)];
    intros p q; rewrite ?lookup_insert_Some, lookup_singleton_Some; lia.
Qed.

Lemma truncated_book_misleads_witness :
  exists b, show [snapshot_message (mkView 1 [(100, 5)] [] true); delta_message 2 [mkChange buy 100 0]; delta_message 3 [mkChange buy 90 4]] = b /\
    bk_status b = live /\ (topOfBook b).1.1 = Some 90 /\ bids (truth thin_history 3) !! 99 = Some 7 /\
    bids (bk_sides (show ([snapshot_message (mkView 1 [(100, 5)] [] true); delta_message 2 [mkChange buy 100 0]; delta_message 3 [mkChange buy 90 4]] ++ deltas thin_history 3 50))) !! 99 = None.
Proof.
  destruct (truncated_book_misleads thin_history 1 1 99 7 90 4 thin_consistent thin_positive) as (_ & (_ & Hl & _ & _ & Ht & Hm) & Hmore);
    [vm_compute; reflexivity|vm_compute; set_solver|lia|lia|vm_compute; reflexivity|vm_compute; reflexivity|].
  eexists. split; [reflexivity|]. split; [exact Hl|]. split; [exact Ht|]. split; [exact Hm|]. apply (Hmore 50%nat).
  intros i c Hi Hin. exfalso. simpl in Hin. destruct (Z.eqb_spec (1 + 2 + Z.of_nat i) 1), (Z.eqb_spec (1 + 2 + Z.of_nat i) 2), (Z.eqb_spec (1 + 2 + Z.of_nat i) 3); try lia.
  by apply not_elem_of_nil in Hin.
Defined.

(** A socket that unsubscribes from its account while its session is being asked about is still
    told of every later change: the answer sets the cursor that unsubscribing had cleared. *)
Definition leaves_while_asked : list Event :=
  opens_account ++ [users_changed ["alice"] 10000; answered no_books 2 (rows_answer (Ok (alices_and_bobs, []))) 10000;
    frame 0 "leave my account" 10001; answered no_books 3 (session_answer (Ok true)) 10002] ++ change_seen 60000 4 [].

Theorem unsubscribed_is_still_told :
  let h := demo_run leaves_while_asked createSocketHub in
  subs_of h 0 = [] /\ wire h =
    [session_said 0 true; sent 0 (subscribed account_channel devnet None); sent 0 (unsubscribed account_channel devnet None);
     session_said 0 true; sent 0 (order_message (demo_order "a1" "alice")); sent 0 balances_changed; session_said 0 true; sent 0 balances_changed].
Proof. vm_compute. split; reflexivity. Qed.

(** More rows change at once than one read returns: the newest are never told of, though the
    channel goes on. *)
Definition many : list ChangedOrder := map (fun i => mkChangedOrder (demo_order (number_text (Z.of_nat i)) "alice") (9000 + Z.of_nat i)) (List.seq 0 201).

Definition burst_events : list Event :=
  opens_account ++ change_seen 10000 2 many ++ change_seen 20000 4 many ++ change_seen 30000 6 many.

Definition orders_told (h : Hub) : list string := omap (fun x => match x with sent _ (order_message o) => Some (o_id o) | _ => None end) (wire h).

Theorem burst_loses_newest :
  let h := demo_run burst_events createSocketHub in
  ((fun o => o_id (co_order o)) <$> last many) = Some "200" /\ "200" ∉ orders_told h /\ length (orders_told h) = 400%nat /\ last (wire h) = Some (sent 0 balances_changed).
Proof.
  split; [vm_compute; reflexivity|]. split; [|split; vm_compute; reflexivity].
  apply (bool_decide_eq_false_1 ("200" ∈ orders_told (demo_run burst_events createSocketHub))). vm_compute. reflexivity.
Qed.

(** A socket that is lost while it is being answered joins the audience all the same, and nothing
    takes it out again. *)
Theorem lost_socket_stays_in_audience :
  let run := Hub.run devnet [devnet] demo_markets demo_limits (fun _ _ => 2000) (fun _ _ => false) (fun _ => 10) demo_parse in
  let h := run (opens_book ++ [gone 0; stops]) createSocketHub in
  open h = [] /\ audience_of h (key book_channel "SOL-USDC") = [0%nat].
Proof. vm_compute. split; reflexivity. Qed.

(** A subscription waits for the session's answer, and leaving it does not: what was left before
    it was made is made after, and stays. *)
Theorem leaving_overtakes_joining :
  let h := demo_run [attaches "alice" "::1" "token" 0; frame 0 "watch my account" 1; frame 0 "leave my account" 2; answered no_books 1 (session_answer (Ok true)) 3] createSocketHub in
  wire h = [sent 0 (error_message not_subscribed); session_said 0 true; sent 0 (subscribed account_channel devnet None)] /\ subs_of h 0 = [key account_channel ""].
Proof. vm_compute. split; reflexivity. Qed.
