(* ===== verification/Settings.v ===== *)
(** * The environment a process is configured from

    [packages/config/src/schema.ts], [secrets.ts] and [parseEnv] of [index.ts]. Every
    variable arrives as a string; the lists in it are parsed here, the numbers, URLs and
    host names by the libraries ([Host]). A field whose schema is one of the validation
    library's own and which nothing but its copy in the configuration reads is not
    carried: [Host] answers whether all of those parse. Strings are ASCII: letters outside
    it have no upper case here. Where a field's own schema fails the issues reported are
    not given, since the validator then runs the cross-field checks on what is left. *)

From S2P Require Import Prelude Decimal Assets Registry.
From Stdlib Require Import ZArith Lia Ascii.
From stdpp Require Import base list strings pretty.

Open Scope string_scope.
Open Scope list_scope.
Open Scope Z_scope.

(** [Readonly<Record<string, string | undefined>>] *)
Definition RawEnv : Type := string -> option string.

(** The code of others that reads the environment: [z.coerce.number().int()],
    [z.string().url()], [new URL(v).hostname], [readFileSync], and whether the variables
    that are only copied parse. *)
Class Host := {
  zod_int : string -> option Z;
  zod_url : string -> bool;
  hostname : string -> option string;
  readFile : string -> option string;
  plain_fields : RawEnv -> bool
}.

(** ** Characters and patterns *)

Definition comma : ascii := chr 44.
Definition equals : ascii := chr 61.

(** [c.toUpperCase()], for an ASCII letter. *)
Definition upper_char (a : ascii) : ascii :=
  if (97 <=? code a) && (code a <=? 122) then chr (code a - 32) else a.

Definition to_upper (s : string) : string := String.string_of_list_ascii (map upper_char (text_of s)).

(** [/^\d+$/] *)
Definition digits1 (s : string) : bool :=
  negb (bool_decide (s = "")) && forallb is_digit (text_of s).

(** [/^[1-9]\d*$/] *)
Definition positive_digits (s : string) : bool :=
  match text_of s with
  | [] => false
  | a :: s => is_nonzero_digit a && forallb is_digit s
  end.

(** [[A-Z0-9]] *)
Definition upper_alnum (a : ascii) : bool := is_digit a || ((65 <=? code a) && (code a <=? 90)).

(** [/^[A-Z0-9]+-[A-Z0-9]+$/] *)
Definition symbol_pattern (s : string) : bool :=
  match split_on (chr 45) s with
  | [base; quote] =>
      negb (bool_decide (base = "")) && negb (bool_decide (quote = "")) &&
      forallb upper_alnum (text_of base) && forallb upper_alnum (text_of quote)
  | _ => false
  end.

(** [/^\d+:\d+$/] *)
Definition seq_idx_pattern (s : string) : bool :=
  match split_on SEPARATOR s with
  | [seq; idx] => digits1 seq && digits1 idx
  | _ => false
  end.

(** [/^[^:]+:[^:]+$/] *)
Definition pair_pattern (s : string) : bool :=
  match split_on SEPARATOR s with
  | [l; r] => negb (bool_decide (l = "")) && negb (bool_decide (r = ""))
  | _ => false
  end.

(** [/^\d+(\.\d{1,6})?$/] *)
Definition dollars_pattern (s : string) : bool :=
  match split_on dot_char s with
  | [whole] => digits1 whole
  | [whole; fraction] => digits1 whole && digits1 fraction && (String.length fraction <=? 6)%nat
  | _ => false
  end.

(** [[0-9a-f]] with the flag [i] *)
Definition hex_char (a : ascii) : bool :=
  is_digit a || ((97 <=? code a) && (code a <=? 102)) || ((65 <=? code a) && (code a <=? 70)).

(** The pattern of a user id: hexadecimal groups of 8, 4, 4, 4 and 12. *)
Definition uuid_pattern (s : string) : bool :=
  let groups := split_on (chr 45) s in
  bool_decide (map String.length groups = [8; 4; 4; 4; 12]%nat) &&
  forallb (fun g => forallb hex_char (text_of g)) groups.

(** [[A-Za-z0-9+/]] *)
Definition base64_char (a : ascii) : bool :=
  upper_alnum a || ((97 <=? code a) && (code a <=? 122)) || (code a =? 43) || (code a =? 47).

(** [/^[A-Za-z0-9+/]{43}=$/] *)
Definition seed_pattern (s : string) : bool :=
  let t := text_of s in
  (length t =? 44)%nat && forallb base64_char (take 43 t) && bool_decide (drop 43 t = [equals]).

(** ** The list formats *)

(** [value.split(',').map((entry) => entry.trim()).filter(Boolean)] *)
Definition comma_list (value : string) : list string :=
  filter (fun e => e <> "") (map trim_string (split_on comma value)).

Record LimitEntry := mkLimitEntry {
  le_asset : string; le_perTransaction : string; le_daily : string; le_review : string
}.

(** The [superRefine] of [assetLimitsSchema] on one entry: true when it adds no issue. *)
Definition limit_entry_ok (entry : string) : bool :=
  match split_on SEPARATOR entry with
  | [_; perTx; daily; review] => digits1 perTx && digits1 daily && digits1 review
  | _ => false
  end.

Definition limit_of_entry (entry : string) : LimitEntry :=
  let parts := split_on SEPARATOR entry in
  mkLimitEntry (default "" (parts !! 0%nat)) (default "0" (parts !! 1%nat))
    (default "0" (parts !! 2%nat)) (default "0" (parts !! 3%nat)).

Definition assetLimitsSchema (value : string) : option (list LimitEntry) :=
  let entries := comma_list value in
  if forallb limit_entry_ok entries then Some (map limit_of_entry entries) else None.

(** The part before the first [=] and the part after it, both non-empty. *)
Definition key_value (entry : string) : option (string * string) :=
  match split_first equals entry with
  | Some (key, value) => if bool_decide (key = "") || bool_decide (value = "") then None else Some (key, value)
  | None => None
  end.

(** An object made by [Object.fromEntries]. The order of keys that read as integers, which
    the language puts first, is not kept: nothing but the order of issues depends on it. *)
Definition Pairs : Type := list (string * string).

Definition keyValueList (raw : string) : option Pairs :=
  entries ← mapM key_value (comma_list raw);
  Some (fold_left (fun m kv => jset kv.1 kv.2 m) entries []).

Definition market_entry_ok (entry : string) : bool :=
  match split_on SEPARATOR entry with
  | [symbol; tick; lot; minNotional; collar] =>
      symbol_pattern symbol && forallb positive_digits [tick; lot; minNotional; collar]
  | _ => false
  end.

(** [Number(digits)]: the double nearest to the integer, of two the even one. Past the largest
    double, where the language says [Infinity], the integer stands for it. *)
Definition js_number (n : Z) : Z :=
  if n <=? 2 ^ 53 then n else
  let unit := 2 ^ (Z.log2 n - 52) in
  let q := n / unit in
  let r := n mod unit in
  (if (unit <? 2 * r) || ((unit =? 2 * r) && Z.odd q) then q + 1 else q) * unit.

Definition market_of_entry (entry : string) : ConfiguredMarket :=
  let parts := split_on SEPARATOR entry in
  mkConfigured (default "" (parts !! 0%nat)) (text_of (default "1" (parts !! 1%nat)))
    (text_of (default "1" (parts !! 2%nat))) (text_of (default "1" (parts !! 3%nat)))
    (js_number (digits_value (text_of (default "1" (parts !! 4%nat))))).

Definition tradingMarketList (raw : string) : option (list ConfiguredMarket) :=
  let entries := comma_list raw in
  if forallb market_entry_ok entries then Some (map market_of_entry entries) else None.

(** ** The fields *)

Record WebEnv := mkWebEnv {
  NODE_ENV : string;
  WEB_ORIGIN : string;
  WEBAUTHN_RP_ID : string;
  WEBAUTHN_ORIGIN : string;
  SESSION_SECRET : string;
  SESSION_IDLE_TTL_SECONDS : Z;
  SESSION_ABSOLUTE_TTL_SECONDS : Z;
  SIGNER_KIND : string;
  MPC_CLIENT_PRIVATE_KEY : string;
  TREASURY_ADDRESS : option string;
  OPERATOR_USER_IDS : list string
}.

Record ChainEnv := mkChainEnv {
  SOLANA_RPC_URL : string;
  SOLANA_NETWORK : Cluster;
  SOLANA_CLUSTERS : list Cluster;
  SOLANA_RPC_URL_of : Cluster -> string;
  TOKEN_MINTS : list TokenAsset;
  TOKEN_MINTS_of : Cluster -> list TokenAsset;
  SOLANA_COMMITMENT : string;
  DEPOSIT_SEED : string;
  SUPPORTED_ASSETS : list string;
  PRICE_SOURCE : string;
  PRICE_ENDPOINT : string;
  PRICE_FEEDS : list string;
  PRICE_STATIC : list string
}.

Record RiskEnv := mkRiskEnv {
  RISK_PER_TRANSACTION_LIMIT : string;
  RISK_DAILY_LIMIT : string;
  RISK_MANUAL_REVIEW_ABOVE : string;
  RISK_MANUAL_REVIEW_ABOVE_USD : string;
  RISK_VELOCITY_WINDOW_MINUTES : Z;
  RISK_VELOCITY_MAX_COUNT : Z;
  RISK_NEW_DESTINATION_REVIEW : bool;
  RISK_KNOWN_DESTINATION_WINDOW_DAYS : Z;
  RISK_ASSET_LIMITS : list LimitEntry;
  RISK_ASSET_LIMITS_of : Cluster -> list LimitEntry
}.

Record TradingEnv := mkTradingEnv {
  TRADING_ENABLED : bool;
  CLEARING_ADDRESS : string;
  TRADING_MARKETS : list ConfiguredMarket;
  TRADING_ENGINE_URLS : Pairs;
  TRADING_ENGINE_CALLER_SEED : string;
  TRADING_MAX_ORDER_QTY : Pairs;
  TRADING_MAX_OPEN_NOTIONAL : Pairs;
  TRADING_MAX_OPEN_ORDERS : Z;
  TRADING_ORDER_RATE_WINDOW_SECONDS : Z;
  TRADING_ORDER_RATE_MAX : Z;
  TRADING_SETTLEMENT_ENABLED : bool;
  TRADING_SETTLEMENT_START : Pairs;
  TRADING_SETTLEMENT_STREAMS : Pairs;
  TRADING_CLEARING_RESERVE : string;
  TRADING_MARKET_DATA_ENABLED : bool;
  TRADING_MARKET_DATA_START : Pairs;
  WS_SESSION_RECHECK_SECONDS : Z;
  WS_HEARTBEAT_SECONDS : Z;
  TRADING_MARKET_MAKER_ENABLED : bool;
  TRADING_MARKET_MAKER_USER_ID : string;
  TRADING_MARKET_MAKER_START_PRICE : Pairs;
  TRADING_MARKET_MAKER_LEVEL_QTY : Pairs;
  TRADING_MARKET_MAKER_REFERENCE : string;
  TRADING_MARKET_MAKER_BINANCE_SYMBOLS : Pairs
}.

Record Env := mkEnv { web : WebEnv; chain : ChainEnv; risk : RiskEnv; trading : TradingEnv }.

(** [cluster.toUpperCase().replace(/-/g, '_')] *)
Definition clusterSuffix (cluster : Cluster) : string :=
  String.string_of_list_ascii
    (map (fun a => if bool_decide (a = chr 45) then chr 95 else upper_char a) (text_of (cluster_name cluster))).

Definition rpcUrlVariable (cluster : Cluster) : string :=
  "SOLANA_RPC_URL_" +:+ clusterSuffix cluster.

Section Fields.
Context `{Host} (raw : RawEnv).

(** [z.string().default(d)] *)
Definition text_or (name d : string) : string := default d (raw name).

(** [z.string().min(n)]: the length of the string the variable holds. *)
Definition text_min (n : nat) (s : option string) : option string :=
  v ← s; if (n <=? String.length v)%nat then Some v else None.

(** [z.enum(allowed).default(d)] *)
Definition enum_or (name : string) (allowed : list string) (d : string) : option string :=
  let v := text_or name d in if bool_decide (v ∈ allowed) then Some v else None.

(** [z.enum(['true', 'false']).default(d).transform((v) => v === 'true')] *)
Definition flag_or (name d : string) : option bool :=
  v ← enum_or name ["true"; "false"] d; Some (bool_decide (v = "true")).

(** [z.coerce.number().int().positive().default(d)] *)
Definition positive_or (name : string) (d : Z) : option Z :=
  match raw name with
  | None => Some d
  | Some s => n ← zod_int s; if 0 <? n then Some n else None
  end.

(** [httpUrl] *)
Definition httpUrl (name : string) : option string :=
  v ← raw name;
  if zod_url v && negb (bool_decide (last (text_of v) = Some (chr 47))) then Some v else None.

(** [z.string().url().or(z.literal('')).default('')] *)
Definition url_or_blank (name : string) : option string :=
  let v := text_or name "" in if zod_url v || bool_decide (v = "") then Some v else None.

Definition token_list (name : string) : option (list TokenAsset) :=
  match tokenAssetSchema (text_or name "") with Ok ts => Some ts | Throw _ => None end.

Definition pairs_of (name : string) : option Pairs := keyValueList (text_or name "").

(** One value per cluster, from the four suffixed variables. *)
Definition for_clusters {A} (read : Cluster -> option A) : option (Cluster -> A) :=
  a ← read localnet; b ← read devnet; c ← read testnet; d ← read mainnet_beta;
  Some (fun cluster => match cluster with localnet => a | devnet => b | testnet => c | mainnet_beta => d end).

Definition suffixed (base : string) (cluster : Cluster) : string :=
  base +:+ "_" +:+ clusterSuffix cluster.

(** The [transform], [refine] and [optional] of [TREASURY_ADDRESS]. *)
Definition treasury_field : option (option string) :=
  match raw "TREASURY_ADDRESS" with
  | None => Some None
  | Some v =>
      let v := trim_string v in
      if bool_decide (v = "") then Some None
      else if (32 <=? String.length v)%nat && (String.length v <=? 44)%nat then Some (Some v) else None
  end.

(** [.trim().default('5000').refine(..)] *)
Definition dollars_field : option string :=
  let v := match raw "RISK_MANUAL_REVIEW_ABOVE_USD" with Some v => trim_string v | None => "5000" end in
  if bool_decide (v = "") || dollars_pattern v then Some v else None.

(** [SOLANA_CLUSTERS] *)
Definition clusters_field : option (list Cluster) :=
  mapM cluster_of_name (comma_list (text_or "SOLANA_CLUSTERS" "")).

Definition web_fields : option WebEnv :=
  nodeEnv ← enum_or "NODE_ENV" ["development"; "test"; "production"] "development";
  webOrigin ← httpUrl "WEB_ORIGIN";
  rpId ← text_min 1 (raw "WEBAUTHN_RP_ID");
  origin ← httpUrl "WEBAUTHN_ORIGIN";
  secret ← text_min 32 (raw "SESSION_SECRET");
  idle ← positive_or "SESSION_IDLE_TTL_SECONDS" 1800;
  absolute ← positive_or "SESSION_ABSOLUTE_TTL_SECONDS" 86400;
  signer ← enum_or "SIGNER_KIND" ["mock"; "real"] "mock";
  treasury ← treasury_field;
  Some (mkWebEnv nodeEnv webOrigin rpId origin secret idle absolute signer
          (text_or "MPC_CLIENT_PRIVATE_KEY" "") treasury (comma_list (text_or "OPERATOR_USER_IDS" ""))).

Definition chain_fields : option ChainEnv :=
  rpcUrl ← raw "SOLANA_RPC_URL";
  _ ← (if zod_url rpcUrl then Some tt else None);
  network ← cluster_of_name (text_or "SOLANA_NETWORK" "localnet");
  clusters ← clusters_field;
  urls ← for_clusters (fun c => url_or_blank (suffixed "SOLANA_RPC_URL" c));
  mints ← token_list "TOKEN_MINTS";
  mintsOf ← for_clusters (fun c => token_list (suffixed "TOKEN_MINTS" c));
  commitment ← enum_or "SOLANA_COMMITMENT" ["processed"; "confirmed"; "finalized"] "finalized";
  seed ← text_min 44 (raw "DEPOSIT_SEED");
  source ← enum_or "PRICE_SOURCE" ["coingecko"; "pyth"; "static"; "none"] "coingecko";
  endpoint ← url_or_blank "PRICE_ENDPOINT";
  Some (mkChainEnv rpcUrl network clusters urls mints mintsOf commitment seed
          (comma_list (text_or "SUPPORTED_ASSETS" "SOL")) source endpoint
          (comma_list (text_or "PRICE_FEEDS" "")) (comma_list (text_or "PRICE_STATIC" ""))).

Definition risk_fields : option RiskEnv :=
  usd ← dollars_field;
  window ← positive_or "RISK_VELOCITY_WINDOW_MINUTES" 60;
  count ← positive_or "RISK_VELOCITY_MAX_COUNT" 10;
  newDestination ← flag_or "RISK_NEW_DESTINATION_REVIEW" "false";
  known ← positive_or "RISK_KNOWN_DESTINATION_WINDOW_DAYS" 90;
  limits ← assetLimitsSchema (text_or "RISK_ASSET_LIMITS" "");
  limitsOf ← for_clusters (fun c => assetLimitsSchema (text_or (suffixed "RISK_ASSET_LIMITS" c) ""));
  Some (mkRiskEnv (text_or "RISK_PER_TRANSACTION_LIMIT" "100000000000")
          (text_or "RISK_DAILY_LIMIT" "250000000000") (text_or "RISK_MANUAL_REVIEW_ABOVE" "25000000000")
          usd window count newDestination known limits limitsOf).

Definition trading_fields : option TradingEnv :=
  enabled ← flag_or "TRADING_ENABLED" "false";
  markets ← tradingMarketList (text_or "TRADING_MARKETS" "");
  urls ← pairs_of "TRADING_ENGINE_URLS";
  maxQty ← pairs_of "TRADING_MAX_ORDER_QTY";
  maxNotional ← pairs_of "TRADING_MAX_OPEN_NOTIONAL";
  maxOrders ← positive_or "TRADING_MAX_OPEN_ORDERS" 50;
  rateWindow ← positive_or "TRADING_ORDER_RATE_WINDOW_SECONDS" 60;
  rateMax ← positive_or "TRADING_ORDER_RATE_MAX" 120;
  settle ← flag_or "TRADING_SETTLEMENT_ENABLED" "false";
  start ← pairs_of "TRADING_SETTLEMENT_START";
  streams ← pairs_of "TRADING_SETTLEMENT_STREAMS";
  let reserve := text_or "TRADING_CLEARING_RESERVE" "0" in
  _ ← (if digits1 reserve then Some tt else None);
  marketData ← flag_or "TRADING_MARKET_DATA_ENABLED" "false";
  tapeStart ← pairs_of "TRADING_MARKET_DATA_START";
  recheck ← positive_or "WS_SESSION_RECHECK_SECONDS" 30;
  heartbeat ← positive_or "WS_HEARTBEAT_SECONDS" 15;
  maker ← flag_or "TRADING_MARKET_MAKER_ENABLED" "false";
  startPrice ← pairs_of "TRADING_MARKET_MAKER_START_PRICE";
  levelQty ← pairs_of "TRADING_MARKET_MAKER_LEVEL_QTY";
  reference ← enum_or "TRADING_MARKET_MAKER_REFERENCE" ["random_walk"; "binance"] "random_walk";
  binance ← pairs_of "TRADING_MARKET_MAKER_BINANCE_SYMBOLS";
  Some (mkTradingEnv enabled (text_or "CLEARING_ADDRESS" "") markets urls
          (text_or "TRADING_ENGINE_CALLER_SEED" "") maxQty maxNotional maxOrders rateWindow rateMax
          settle start streams reserve marketData tapeStart recheck heartbeat maker
          (text_or "TRADING_MARKET_MAKER_USER_ID" "") startPrice levelQty reference binance).

(** The object's own fields; nothing when a field's schema refuses its variable. *)
Definition env_fields : option Env :=
  w ← web_fields; c ← chain_fields; r ← risk_fields; t ← trading_fields;
  if plain_fields raw then Some (mkEnv w c r t) else None.
End Fields.

(** ** The cross-field checks: the paths of the issues the object's [superRefine] adds *)

Definition Path : Type := list string.

(** [ctx.addIssue({ path, .. })], when a condition holds. *)
Definition issue (b : bool) (path : Path) : list Path := if b then [path] else [].

(** Every cluster the process serves. *)
Definition served (c : ChainEnv) : list Cluster :=
  match SOLANA_CLUSTERS c with [] => [SOLANA_NETWORK c] | clusters => clusters end.

Definition blank (s : string) : bool := bool_decide (trim_string s = "").

Definition rpcUrlFor (c : ChainEnv) (cluster : Cluster) : string :=
  let specific := SOLANA_RPC_URL_of c cluster in
  if negb (blank specific) then specific
  else if bool_decide (cluster = SOLANA_NETWORK c) then SOLANA_RPC_URL c else "".

Definition session_issues (w : WebEnv) : list Path :=
  issue (SESSION_ABSOLUTE_TTL_SECONDS w <? SESSION_IDLE_TTL_SECONDS w) ["SESSION_IDLE_TTL_SECONDS"].

(** [s.endsWith(t)] *)
Definition ends_with (t s : string) : bool :=
  String.prefix (String.rev t) (String.rev s).

Definition rp_issues `{Host} (w : WebEnv) : list Path :=
  match hostname (WEBAUTHN_ORIGIN w) with
  | None => []
  | Some host =>
      issue (negb (bool_decide (host = WEBAUTHN_RP_ID w) || ends_with ("." +:+ WEBAUTHN_RP_ID w) host))
        ["WEBAUTHN_RP_ID"]
  end.

Definition cluster_issues (c : ChainEnv) : list Path :=
  mjoin (map (fun cluster => issue (bool_decide (rpcUrlFor c cluster = "")) [rpcUrlVariable cluster]) (served c)) ++
  issue (negb (bool_decide (SOLANA_CLUSTERS c = [])) && negb (bool_decide (SOLANA_NETWORK c ∈ served c)))
    ["SOLANA_CLUSTERS"].

(** [entries.entries()] with the issue each may add. *)
Definition pair_issues (name : string) (entries : list string) : list Path :=
  mjoin (imap (fun i entry => issue (negb (pair_pattern entry)) [name; pretty (N.of_nat i)]) entries).

Definition price_issues (c : ChainEnv) : list Path :=
  issue (bool_decide (PRICE_SOURCE c = "pyth") && blank (PRICE_ENDPOINT c)) ["PRICE_ENDPOINT"] ++
  issue (bool_decide (PRICE_SOURCE c = "static") && bool_decide (PRICE_STATIC c = [])) ["PRICE_STATIC"] ++
  pair_issues "PRICE_FEEDS" (PRICE_FEEDS c) ++ pair_issues "PRICE_STATIC" (PRICE_STATIC c).

Definition custody_issues (w : WebEnv) (c : ChainEnv) : list Path :=
  issue (bool_decide (NODE_ENV w = "production") && negb (bool_decide (SOLANA_COMMITMENT c = "finalized")))
    ["SOLANA_COMMITMENT"] ++
  issue (bool_decide (SUPPORTED_ASSETS c = [])) ["SUPPORTED_ASSETS"].

(** The loop over the unsuffixed token list, with the sets it fills. *)
Fixpoint token_issues (native : list string) (index : nat) (seenMints seenSymbols : list string)
    (tokens : list TokenAsset) : list Path :=
  match tokens with
  | [] => []
  | token :: tokens =>
      let path := ["TOKEN_MINTS"; pretty (N.of_nat index)] in
      let symbol := to_upper (symbol token) in
      issue (bool_decide (mint token ∈ seenMints)) (path ++ ["mint"]) ++
      issue (bool_decide (symbol ∈ seenSymbols)) (path ++ ["symbol"]) ++
      issue (existsb (fun asset => bool_decide (to_upper asset = symbol)) native) (path ++ ["symbol"]) ++
      token_issues native (S index) (mint token :: seenMints) (symbol :: seenSymbols) tokens
  end.

Definition signer_issues (w : WebEnv) : list Path :=
  issue (bool_decide (SIGNER_KIND w = "real") && blank (MPC_CLIENT_PRIVATE_KEY w)) ["MPC_CLIENT_PRIVATE_KEY"] ++
  issue (bool_decide (NODE_ENV w = "production") && bool_decide (SIGNER_KIND w = "mock")) ["SIGNER_KIND"].

Definition risk_issues (r : RiskEnv) : list Path :=
  issue (negb (digits1 (RISK_PER_TRANSACTION_LIMIT r))) ["RISK_PER_TRANSACTION_LIMIT"] ++
  issue (negb (digits1 (RISK_DAILY_LIMIT r))) ["RISK_DAILY_LIMIT"] ++
  issue (negb (digits1 (RISK_MANUAL_REVIEW_ABOVE r))) ["RISK_MANUAL_REVIEW_ABOVE"].

Definition switch_issues (c : ChainEnv) (t : TradingEnv) : list Path :=
  issue (TRADING_MARKET_DATA_ENABLED t && negb (TRADING_ENABLED t)) ["TRADING_MARKET_DATA_ENABLED"] ++
  (if TRADING_MARKET_MAKER_ENABLED t then
     issue (negb (TRADING_MARKET_DATA_ENABLED t)) ["TRADING_MARKET_MAKER_ENABLED"] ++
     issue (bool_decide (mainnet_beta ∈ served c)) ["TRADING_MARKET_MAKER_ENABLED"] ++
     issue (negb (uuid_pattern (trim_string (TRADING_MARKET_MAKER_USER_ID t)))) ["TRADING_MARKET_MAKER_USER_ID"]
   else []) ++
  issue (TRADING_SETTLEMENT_ENABLED t && negb (TRADING_ENABLED t)) ["TRADING_SETTLEMENT_ENABLED"].

(** [known] *)
Definition known (t : TradingEnv) : list string := map cm_symbol (TRADING_MARKETS t).

(** The number of different quote assets: [quotes.size]. *)
Definition quotes (t : TradingEnv) : list string :=
  remove_dups (map (fun m => default "undefined" (split_on (chr 45) (cm_symbol m) !! 1%nat)) (TRADING_MARKETS t)).

(** A loop over [Object.entries(map)] that wants known markets and a shape of value. *)
Definition entry_issues (t : TradingEnv) (name : string) (shape : string -> bool) (map_ : Pairs) : list Path :=
  mjoin (map (fun kv => issue (negb (bool_decide (kv.1 ∈ known t)) || negb (shape kv.2)) [name]) map_).

(** The names an object has without being given them. *)
Definition object_prototype : list string :=
  ["constructor"; "__defineGetter__"; "__defineSetter__"; "hasOwnProperty"; "__lookupGetter__";
   "__lookupSetter__"; "isPrototypeOf"; "propertyIsEnumerable"; "toString"; "valueOf"; "__proto__";
   "toLocaleString"].

(** [key in map] *)
Definition has_key (key : string) (map_ : Pairs) : bool :=
  bool_decide (key ∈ map_.*1) || bool_decide (key ∈ object_prototype).

Definition maker_issues (t : TradingEnv) : list Path :=
  let priced := TRADING_MARKET_MAKER_START_PRICE t in
  let sized := TRADING_MARKET_MAKER_LEVEL_QTY t in
  entry_issues t "TRADING_MARKET_MAKER_START_PRICE" positive_digits priced ++
  entry_issues t "TRADING_MARKET_MAKER_LEVEL_QTY" positive_digits sized ++
  mjoin (map (fun symbol =>
    issue (bool_decide (TRADING_MARKET_MAKER_REFERENCE t = "random_walk") && negb (has_key symbol priced))
      ["TRADING_MARKET_MAKER_START_PRICE"] ++
    issue (bool_decide (TRADING_MARKET_MAKER_REFERENCE t = "binance") &&
           negb (has_key symbol (TRADING_MARKET_MAKER_BINANCE_SYMBOLS t)))
      ["TRADING_MARKET_MAKER_BINANCE_SYMBOLS"]) sized.*1).

(** A loop over [Object.entries(map)] that wants positive integers. *)
Definition amount_issues (name : string) (map_ : Pairs) : list Path :=
  mjoin (map (fun kv => issue (negb (positive_digits kv.2)) [name]) map_).

Definition trading_issues (w : WebEnv) (t : TradingEnv) : list Path :=
  if negb (TRADING_ENABLED t) then [] else
  (if blank (CLEARING_ADDRESS t) then [["CLEARING_ADDRESS"]]
   else issue (bool_decide (trim_string (CLEARING_ADDRESS t) = trim_string (default "" (TREASURY_ADDRESS w))))
          ["CLEARING_ADDRESS"]) ++
  issue (bool_decide (TRADING_MARKETS t = [])) ["TRADING_MARKETS"] ++
  mjoin (map (fun m => issue (bool_decide (jget (cm_symbol m) (TRADING_ENGINE_URLS t) = None))
                         ["TRADING_ENGINE_URLS"]) (TRADING_MARKETS t)) ++
  issue (TRADING_SETTLEMENT_ENABLED t && (1 <? length (quotes t))%nat) ["TRADING_MARKETS"] ++
  entry_issues t "TRADING_MARKET_DATA_START" seq_idx_pattern (TRADING_MARKET_DATA_START t) ++
  (if TRADING_MARKET_MAKER_ENABLED t then maker_issues t else []) ++
  entry_issues t "TRADING_SETTLEMENT_START" seq_idx_pattern (TRADING_SETTLEMENT_START t) ++
  issue (negb (seed_pattern (trim_string (TRADING_ENGINE_CALLER_SEED t)))) ["TRADING_ENGINE_CALLER_SEED"] ++
  amount_issues "TRADING_MAX_ORDER_QTY" (TRADING_MAX_ORDER_QTY t) ++
  amount_issues "TRADING_MAX_OPEN_NOTIONAL" (TRADING_MAX_OPEN_NOTIONAL t).

Definition origin_issues (w : WebEnv) : list Path :=
  if bool_decide (NODE_ENV w = "production") then
    issue (negb (String.prefix "https://" (WEB_ORIGIN w))) ["WEB_ORIGIN"] ++
    issue (negb (String.prefix "https://" (WEBAUTHN_ORIGIN w))) ["WEBAUTHN_ORIGIN"]
  else [].

(** The callback of the object's [superRefine], on an environment whose fields parsed. *)
Definition superRefine `{Host} (env : Env) : list Path :=
  session_issues (web env) ++ rp_issues (web env) ++ cluster_issues (chain env) ++
  price_issues (chain env) ++ custody_issues (web env) (chain env) ++
  token_issues (SUPPORTED_ASSETS (chain env)) 0 [] [] (TOKEN_MINTS (chain env)) ++
  signer_issues (web env) ++ risk_issues (risk env) ++ switch_issues (chain env) (trading env) ++
  trading_issues (web env) (trading env) ++ origin_issues (web env).

(** ** Secrets *)

Inductive SecretScheme := scheme_env | scheme_file | scheme_literal.

#[export] Instance SecretScheme_eq_dec : EqDecision SecretScheme.
Proof. solve_decision. Defined.

Record ResolvedSecret := mkResolvedSecret { rs_value : string; rs_scheme : SecretScheme; rs_describe : string }.

Definition resolveSecret `{Host} (variable reference : string) (environment : RawEnv) : result ResolvedSecret :=
  let trimmed := trim_string reference in
  if bool_decide (trimmed = "") then Throw (SecretResolutionError variable) else
  let literal := Ok (mkResolvedSecret trimmed scheme_literal (variable +:+ " (literal)")) in
  match split_first SEPARATOR trimmed with
  | None => literal
  | Some (scheme, rest) =>
      if bool_decide (scheme = "env") then
        match environment rest with
        | Some value =>
            if blank value then Throw (SecretResolutionError variable)
            else Ok (mkResolvedSecret value scheme_env ("env:" +:+ rest))
        | None => Throw (SecretResolutionError variable)
        end
      else if bool_decide (scheme = "file") then
        match readFile rest with
        | Some contents =>
            let value := trim_string contents in
            if bool_decide (value = "") then Throw (SecretResolutionError variable)
            else Ok (mkResolvedSecret value scheme_file ("file:" +:+ rest))
        | None => Throw (SecretResolutionError variable)
        end
      else literal
  end.

Record SecretAudit := mkSecretAudit { sa_variable : string; sa_scheme : SecretScheme; sa_describe : string }.

Definition SECRET_VARIABLES : list string :=
  ["DEPOSIT_SEED"; "SESSION_SECRET"; "TOTP_ENCRYPTION_KEY"; "MPC_KEK"; "MPC_CLIENT_PRIVATE_KEY";
   "MPC_APPROVAL_PRIVATE_KEY"].

Definition CRITICAL_SECRETS : list string := ["DEPOSIT_SEED"; "MPC_KEK"].

(** [record[name] = value] on a copy of the environment. *)
Definition assign (resolved : RawEnv) (name value : string) : RawEnv :=
  fun n => if bool_decide (n = name) then Some value else resolved n.

(** The loop of [resolveSecretReferences] over the variables left. *)
Fixpoint resolve_references `{Host} (raw : RawEnv) (variables : list string) (resolved : RawEnv)
    (audit : list SecretAudit) : result (RawEnv * list SecretAudit) :=
  match variables with
  | [] => Ok (resolved, audit)
  | variable :: variables =>
      match raw variable with
      | None => resolve_references raw variables resolved audit
      | Some reference =>
          if blank reference then resolve_references raw variables resolved audit else
          secret ← resolveSecret variable reference raw;
          resolve_references raw variables (assign resolved variable (rs_value secret))
            (audit ++ [mkSecretAudit variable (rs_scheme secret) (rs_describe secret)])
      end
  end.

Definition resolveSecretReferences `{Host} (raw : RawEnv) : result (RawEnv * list SecretAudit) :=
  resolve_references raw SECRET_VARIABLES raw [].

(** The literals among the secrets that must not be any. *)
Definition critical_literals (audit : list SecretAudit) : list SecretAudit :=
  filter (fun entry => sa_scheme entry = scheme_literal /\ sa_variable entry ∈ CRITICAL_SECRETS) audit.

Definition parseEnv `{Host} (raw : RawEnv) : result Env :=
  match resolveSecretReferences raw with
  | Throw (SecretResolutionError variable) => Throw (ConfigValidationError (Some [variable]))
  | Throw _ => Throw (ConfigValidationError (Some ["(secret)"]))
  | Ok (resolved, audit) =>
      match env_fields resolved with
      | None => Throw (ConfigValidationError None)
      | Some env =>
          match superRefine env with
          | [] =>
              let literals := critical_literals audit in
              if bool_decide (NODE_ENV (web env) = "production") && negb (bool_decide (literals = []))
              then Throw (ConfigValidationError (Some (map sa_variable literals)))
              else Ok env
          | issues => Throw (ConfigValidationError (Some (map (String.concat ".") issues)))
          end
      end
  end.
