(* ===== verification/Config.v ===== *)
(** * The configuration a process starts from

    [toApiConfig] and [loadApiConfigOrExit] of [packages/config/src/index.ts], and what the
    API builds out of it: the withdrawal policy of a cluster ([cluster/runtime.ts]) and
    the order policy of the default one ([server.ts]). The parts of the configuration that
    are copies of variables nothing here reads are left out. A number of the form [Number]
    reads other than plain digits is not evaluated ([Number_digits]). *)

From S2P Require Import Prelude Decimal Assets Market Registry Portfolio Settings.
From S2P Require Import Risk.
From Stdlib Require Import ZArith Lia Ascii.
From stdpp Require Import base list strings pretty gmap.

Open Scope string_scope.
Open Scope list_scope.
Open Scope Z_scope.

Definition NATIVE_ASSET_DECIMALS : Z := 9.

(** ** Clusters *)

Record ClusterChainConfig := mkClusterChain {
  cc_cluster : Cluster; cc_rpcUrl : string; cc_assets : AssetRegistry
}.

(** A suffixed list, or the unsuffixed one where the cluster is the default. An array
    that is empty counts as not set. *)
Definition perCluster {A} (specific : Cluster -> list A) (base : list A) (cluster defaultCluster : Cluster) : list A :=
  match specific cluster with
  | [] => if bool_decide (cluster = defaultCluster) then base else []
  | l => l
  end.

Definition own_tokens (c : ChainEnv) (cluster : Cluster) : list TokenAsset :=
  perCluster (TOKEN_MINTS_of c) (TOKEN_MINTS c) cluster (SOLANA_NETWORK c).

Definition own_limits (env : Env) (cluster : Cluster) : list LimitEntry :=
  perCluster (RISK_ASSET_LIMITS_of (risk env)) (RISK_ASSET_LIMITS (risk env)) cluster (SOLANA_NETWORK (chain env)).

(** The body of the loop that fills [byCluster]. *)
Definition chain_config (c : ChainEnv) (cluster : Cluster) : result ClusterChainConfig :=
  assets ← createAssetRegistry cluster NATIVE_ASSET_DECIMALS (own_tokens c cluster);
  Ok (mkClusterChain cluster (rpcUrlFor c cluster) assets).

Fixpoint build_clusters (c : ChainEnv) (clusters : list Cluster) (byCluster : list (Cluster * ClusterChainConfig))
  : result (list (Cluster * ClusterChainConfig)) :=
  match clusters with
  | [] => Ok byCluster
  | cluster :: clusters =>
      config ← chain_config c cluster; build_clusters c clusters (jset cluster config byCluster)
  end.

(** ** Withdrawal limits *)

Record LimitStrings := mkLimitStrings { ls_perTransaction : string; ls_daily : string; ls_review : string }.

Definition native_limits (r : RiskEnv) : LimitStrings :=
  mkLimitStrings (RISK_PER_TRANSACTION_LIMIT r) (RISK_DAILY_LIMIT r) (RISK_MANUAL_REVIEW_ABOVE r).

Definition entry_limits (e : LimitEntry) : LimitStrings :=
  mkLimitStrings (le_perTransaction e) (le_daily e) (le_review e).

(** The inner loop over a cluster's own list. *)
Fixpoint list_limits (cluster : Cluster) (limits : list LimitEntry) (assetLimits : list (string * LimitStrings))
  : result (list (string * LimitStrings)) :=
  match limits with
  | [] => Ok assetLimits
  | limit :: limits =>
      key ← ledgerAssetKey cluster (le_asset limit);
      list_limits cluster limits (jset key (entry_limits limit) assetLimits)
  end.

Fixpoint build_limits (env : Env) (clusters : list Cluster) (assetLimits : list (string * LimitStrings))
  : result (list (string * LimitStrings)) :=
  match clusters with
  | [] => Ok assetLimits
  | cluster :: clusters =>
      native ← ledgerAssetKey cluster NATIVE_ASSET_KEY;
      assetLimits ← list_limits cluster (own_limits env cluster) (jset native (native_limits (risk env)) assetLimits);
      build_limits env clusters assetLimits
  end.

(** ** Prices and trading *)

(** [pairs] *)
Definition pair_of (out : Pairs) (entry : string) : Pairs :=
  match split_on SEPARATOR entry with
  | symbol :: value :: _ => jset (to_upper (trim_string symbol)) (trim_string value) out
  | _ => out
  end.

Definition pairs (entries : list string) : Pairs := fold_left pair_of entries [].

(** [Number(s)] for digits with white space around, or none: otherwise not evaluated. *)
Definition Number_digits (s : text) : option Z :=
  let t := trim s in if forallb is_digit t then Some (js_number (digits_value t)) else None.

Record StartKey := mkStartKey { sk_seq : Z; sk_idx : option Z }.

(** [{ seq: BigInt(seq ?? '0'), idx: Number(idx ?? '0') }] *)
Definition start_key (value : string) : result StartKey :=
  let parts := split_on SEPARATOR value in
  seq ← js_BigInt (text_of (default "0" (parts !! 0%nat)));
  Ok (mkStartKey seq (Number_digits (text_of (default "0" (parts !! 1%nat))))).

(** [Object.entries(map).map(..)] with a function that may throw. *)
Definition map_values {A} (f : string -> string -> result A) (map_ : Pairs) : result (list (string * A)) :=
  map_result (fun kv => v ← f kv.1 kv.2; Ok (kv.1, v)) map_.

Definition starts (map_ : Pairs) : result (list (string * StartKey)) := map_values (fun _ => start_key) map_.

Record MakerMarket := mkMakerMarket { mm_levelQty : Z; mm_startPrice : option Z }.

(** One entry of [marketMaker.markets]. A name every object has is in the map without
    being a number. *)
Definition maker_market (startPrice : Pairs) (symbol qty : string) : result MakerMarket :=
  levelQty ← js_BigInt (text_of qty);
  match jget symbol startPrice with
  | Some price => p ← js_BigInt (text_of price); Ok (mkMakerMarket levelQty (Some p))
  | None =>
      if has_key symbol startPrice then Throw (GenericError "SyntaxError")
      else Ok (mkMakerMarket levelQty None)
  end.

Record TradingConfig := mkTradingConfig {
  tc_enabled : bool;
  tc_clearingAddress : string;
  tc_markets : list ConfiguredMarket;
  tc_engineUrls : Pairs;
  tc_engineCallerSeed : string;
  tc_maxOrderQty : Pairs;
  tc_maxOpenNotional : Pairs;
  tc_maxOpenOrders : Z;
  tc_orderRateWindow : Z;
  tc_orderRateMax : Z;
  tc_settlement : bool;
  tc_settlementStart : list (string * StartKey);
  tc_streams : Pairs;
  tc_clearingReserve : string;
  tc_marketData : bool;
  tc_tapeStart : list (string * StartKey);
  tc_sessionRecheckMs : Z;
  tc_heartbeatMs : Z;
  tc_maker : bool;
  tc_makerUserId : string;
  tc_makerMarkets : list (string * MakerMarket);
  tc_makerReference : string;
  tc_binanceSymbols : Pairs
}.

Definition trading_config (t : TradingEnv) : result TradingConfig :=
  settlementStart ← starts (TRADING_SETTLEMENT_START t);
  tapeStart ← starts (TRADING_MARKET_DATA_START t);
  makerMarkets ← map_values (maker_market (TRADING_MARKET_MAKER_START_PRICE t)) (TRADING_MARKET_MAKER_LEVEL_QTY t);
  Ok (mkTradingConfig (TRADING_ENABLED t) (trim_string (CLEARING_ADDRESS t)) (TRADING_MARKETS t)
        (TRADING_ENGINE_URLS t) (trim_string (TRADING_ENGINE_CALLER_SEED t)) (TRADING_MAX_ORDER_QTY t)
        (TRADING_MAX_OPEN_NOTIONAL t) (TRADING_MAX_OPEN_ORDERS t) (TRADING_ORDER_RATE_WINDOW_SECONDS t)
        (TRADING_ORDER_RATE_MAX t) (TRADING_SETTLEMENT_ENABLED t) settlementStart
        (TRADING_SETTLEMENT_STREAMS t) (TRADING_CLEARING_RESERVE t) (TRADING_MARKET_DATA_ENABLED t) tapeStart
        (WS_SESSION_RECHECK_SECONDS t * 1000) (WS_HEARTBEAT_SECONDS t * 1000)
        (TRADING_MARKET_MAKER_ENABLED t) (trim_string (TRADING_MARKET_MAKER_USER_ID t)) makerMarkets
        (TRADING_MARKET_MAKER_REFERENCE t) (TRADING_MARKET_MAKER_BINANCE_SYMBOLS t)).

(** ** The whole configuration *)

Record RiskConfig := mkRiskConfig {
  rc_assetLimits : list (string * LimitStrings);
  rc_native : LimitStrings;
  rc_velocityWindowMinutes : Z;
  rc_velocityMaxCount : Z;
  rc_reviewNewDestinations : bool;
  rc_manualReviewAboveUsd : option string;
  rc_knownDestinationWindowDays : Z
}.

Definition risk_config (r : RiskEnv) (limits : list (string * LimitStrings)) : RiskConfig :=
  mkRiskConfig limits (native_limits r) (RISK_VELOCITY_WINDOW_MINUTES r) (RISK_VELOCITY_MAX_COUNT r)
    (RISK_NEW_DESTINATION_REVIEW r)
    (if bool_decide (RISK_MANUAL_REVIEW_ABOVE_USD r = "") then None else Some (RISK_MANUAL_REVIEW_ABOVE_USD r))
    (RISK_KNOWN_DESTINATION_WINDOW_DAYS r).

Record ApiConfig := mkApiConfig {
  cf_production : bool;
  cf_sessionSecret : string;
  cf_idleTtlSeconds : Z;
  cf_absoluteTtlSeconds : Z;
  cf_defaultCluster : Cluster;
  cf_clusters : list Cluster;
  cf_byCluster : list (Cluster * ClusterChainConfig);
  cf_assets : AssetRegistry;
  cf_commitment : string;
  cf_depositSeed : string;
  cf_feeds : Pairs;
  cf_fixed : Pairs;
  cf_trading : TradingConfig;
  cf_risk : RiskConfig;
  cf_signerKind : string;
  cf_treasuryAddress : option string;
  cf_operatorUserIds : list string
}.

Definition toApiConfig (env : Env) : result ApiConfig :=
  let c := chain env in
  byCluster ← build_clusters c (served c) [];
  match jget (SOLANA_NETWORK c) byCluster with
  | None => Throw (GenericError "the default cluster is not served")
  | Some defaultChain =>
      assetLimits ← build_limits env (served c) [];
      trading ← trading_config (trading env);
      Ok (mkApiConfig (bool_decide (NODE_ENV (web env) = "production")) (SESSION_SECRET (web env))
            (SESSION_IDLE_TTL_SECONDS (web env)) (SESSION_ABSOLUTE_TTL_SECONDS (web env))
            (SOLANA_NETWORK c) (served c) byCluster (cc_assets defaultChain)
            (SOLANA_COMMITMENT c) (DEPOSIT_SEED c) (pairs (PRICE_FEEDS c)) (pairs (PRICE_STATIC c)) trading
            (risk_config (risk env) assetLimits) (SIGNER_KIND (web env)) (TREASURY_ADDRESS (web env))
            (OPERATOR_USER_IDS (web env)))
  end.

(** What starting a process comes to: it has a configuration; it reports what is wrong and
    exits; or another exception escapes. *)
Inductive Boot :=
| Serves (config : ApiConfig)
| Exits (variables : option (list string))
| Crashes (e : error).

Definition loadApiConfigOrExit `{Host} (raw : RawEnv) : Boot :=
  match (env ← parseEnv raw; toApiConfig env) with
  | Ok config => Serves config
  | Throw (ConfigValidationError variables) => Exits variables
  | Throw e => Crashes e
  end.

(** ** What the API makes of it *)

Definition big_limits (l : LimitStrings) : result AssetLimits :=
  perTx ← js_BigInt (text_of (ls_perTransaction l));
  daily ← js_BigInt (text_of (ls_daily l));
  review_ ← js_BigInt (text_of (ls_review l));
  Ok (mkLimits perTx daily review_).

(** The policy [createClusterRuntime] gives the withdrawals of a cluster. *)
Definition withdrawal_policy (config : RiskConfig) (chain : ClusterChainConfig) : result RiskPolicy :=
  let mine := filter (fun kl => assetKeyInCluster kl.1 (cc_cluster chain) = true) (rc_assetLimits config) in
  limits ← map_result (fun kl => l ← big_limits kl.2; Ok (kl.1, l)) mine;
  _ ← big_limits (rc_native config);
  usd ← (match rc_manualReviewAboveUsd config with
         | None => Ok Null
         | Some v => n ← parseUsd (text_of v); Ok (Value n)
         end);
  Ok (mkPolicy (keys (cc_assets chain)) (list_to_map limits) (rc_velocityWindowMinutes config)
        (rc_velocityMaxCount config) (rc_reviewNewDestinations config) usd
        (rc_knownDestinationWindowDays config)).

(** [toLimits] *)
Definition toLimits (cluster : Cluster) (map_ : Pairs) : result (gmap string Z) :=
  entries ← map_values (fun _ v => js_BigInt (text_of v)) map_;
  Ok (list_to_map (map (fun kv => (cluster_name cluster +:+ String SEPARATOR kv.1, kv.2)) entries)).

(** The [riskPolicy] of the order service, and the entries of the market registry. *)
Definition order_policy (cluster : Cluster) (t : TradingConfig) : result OrderRiskPolicy :=
  maxQty ← toLimits cluster (tc_maxOrderQty t);
  maxNotional ← toLimits cluster (tc_maxOpenNotional t);
  Ok (mkOrderPolicy maxQty (tc_maxOpenOrders t) (tc_orderRateWindow t) (tc_orderRateMax t) maxNotional).

Definition configured_markets (config : ApiConfig) : result (list MarketEntry) :=
  registry_entries (cf_defaultCluster config) (cf_assets config) (map cm_symbol (tc_markets (cf_trading config)))
    (tc_markets (cf_trading config)).
