(* ===== verification/Startup.v ===== *)
(** * What an accepted environment gives

    What [parseEnv] has checked by the time it returns, that the configuration and the
    policies can then be built, and whose variables each part of them comes from. *)

From S2P Require Import Prelude Decimal Assets Market Registry Portfolio Settings.
From S2P Require Import Risk Config.
From Stdlib Require Import ZArith Lia Ascii.
From stdpp Require Import base list strings pretty gmap.

Open Scope string_scope.
Open Scope list_scope.
Open Scope Z_scope.

(** ** Splitting *)

Lemma split_on_parts c s p : p ∈ split_on c s -> str_includes c p = false.
Proof.
  revert p. induction s as [|a s IH]; simpl; intros p; [set_solver|]. case_decide as E.
  - rewrite elem_of_cons. intros [->|Hp]; [done|auto].
  - destruct (split_on c s) as [|x xs] eqn:Hs; rewrite elem_of_cons.
    + intros [->|Hp]; [|set_solver]. simpl. by rewrite bool_decide_eq_false_2.
    + intros [->|Hp]; [|apply IH; set_solver]. simpl. rewrite bool_decide_eq_false_2 by done. apply IH. set_solver.
Qed.

Lemma split_on_nonempty c s : split_on c s <> [].
Proof. destruct s; simpl; [done|]. case_decide; [done|]. by destruct (split_on c s). Qed.

Lemma split_on_join c s : s = String.concat (String c "") (split_on c s).
Proof.
  induction s as [|a s IH]; [done|]. simpl. pose proof (split_on_nonempty c s) as Hne. case_decide as E.
  - subst a. simpl. destruct (split_on c s) eqn:Hs; [done|]. simpl. by rewrite IH at 1.
  - destruct (split_on c s) as [|x xs]; [done|]. simpl in *. destruct xs; rewrite IH at 1; done.
Qed.

Lemma text_of_app s t : text_of (s +:+ t) = text_of s ++ text_of t.
Proof. unfold text_of. induction s as [|a s IH]; [done|]. simpl. by f_equal. Qed.

Lemma text_of_length s : length (text_of s) = String.length s.
Proof. induction s; simpl; [done|]. by f_equal. Qed.

(** ** Numerals *)

Lemma forallb_digits s : Forall (fun a => is_digit a = true) s -> forallb is_digit s = true.
Proof. intros H. apply forallb_forall. intros a Ha. rewrite Forall_forall in H. by apply H, list_elem_of_In. Qed.

Lemma digits1_text s : digits1 s = true -> text_of s <> [] /\ Forall (fun a => is_digit a = true) (text_of s).
Proof.
  unfold digits1. intros H. zbool. split; [by destruct s|]. apply Forall_forall. intros a Ha.
  rewrite forallb_forall in *. match goal with H : forall _, _ |- _ => apply H end. by apply list_elem_of_In.
Qed.

Lemma positive_digits1 s : positive_digits s = true -> digits1 s = true.
Proof.
  unfold positive_digits, digits1, text_of. destruct s as [|a s]; [done|]. simpl. intros H. zbool.
  rewrite is_nonzero_digit_digit by done. done.
Qed.

Lemma js_BigInt_digits s : digits1 s = true -> js_BigInt (text_of s) = Ok (digits_value (text_of s)).
Proof. intros [Hne Hs]%digits1_text. by apply js_BigInt_of_digits. Qed.

Lemma digits1_value s : digits1 s = true -> 0 <= digits_value (text_of s).
Proof. intros [_ Hs]%digits1_text. by apply digits_value_bounds. Qed.

Lemma js_number_nonneg n : 0 <= n -> 0 <= js_number n.
Proof.
  intros Hn. unfold js_number. destruct (Z.leb_spec n (2 ^ 53)) as [|Hbig]; [done|].
  pose proof (Z.log2_le_mono (2 ^ 53) n ltac:(lia)) as Hlog. rewrite Z.log2_pow2 in Hlog by lia.
  set (unit := 2 ^ (Z.log2 n - 52)). assert (0 < unit) by (apply Z.pow_pos_nonneg; lia).
  assert (0 <= n / unit) by (apply Z.div_pos; lia). apply Z.mul_nonneg_nonneg; [case_match|]; lia.
Qed.

Example js_number_rounds : map js_number [2 ^ 53; 2 ^ 53 + 1; 2 ^ 53 + 3; 2 ^ 54 + 7] = [2 ^ 53; 2 ^ 53; 2 ^ 53 + 4; 2 ^ 54 + 8].
Proof. reflexivity. Qed.

Lemma start_key_Ok v : seq_idx_pattern v = true -> exists seq idx, start_key v = Ok (mkStartKey seq (Some idx)) /\ 0 <= seq /\ 0 <= idx.
Proof.
  unfold seq_idx_pattern, start_key. destruct (split_on SEPARATOR v) as [|seq [|idx []]]; try done. intros H. zbool.
  exists (digits_value (text_of seq)), (js_number (digits_value (text_of idx))).
  split_and!; [|by apply digits1_value|by apply js_number_nonneg, digits1_value]. simpl. rewrite js_BigInt_digits by done. simpl.
  do 2 f_equal. unfold Number_digits.
  match goal with H : digits1 idx = true |- _ => apply digits1_text in H as [_ Hi] end.
  rewrite trim_id by (eapply Forall_impl; [exact Hi|]; apply digit_not_space).
  by rewrite forallb_digits.
Qed.

Lemma dollars_parse s : dollars_pattern s = true -> exists n, parseUsd (text_of s) = Ok n.
Proof.
  unfold dollars_pattern. intros H. assert (Hj := split_on_join dot_char s).
  destruct (split_on dot_char s) as [|w [|f []]] eqn:Hsp; try done; simpl in Hj; zbool.
  - subst s. apply digits1_text in H as [Hne Hw]. unfold parseUsd.
    rewrite trim_id by (eapply Forall_impl; [exact Hw|]; apply digit_not_space).
    unfold match_usd. pose proof (span_app is_digit (text_of w) [] Hw I) as Hs. rewrite app_nil_r in Hs.
    destruct (text_of w) as [|a t]; [done|]. apply Forall_cons in Hw as [Ha _].
    rewrite bool_decide_eq_false_2 by (intros ->; done). rewrite Hs. by eexists.
  - apply digits1_text in H as [Hne Hw].
    match goal with H : digits1 f = true |- _ => apply digits1_text in H as [Hnf Hf] end.
    assert (Ht : text_of s = text_of w ++ dot_char :: text_of f) by (rewrite Hj, !text_of_app; done).
    rewrite Ht. unfold parseUsd. rewrite trim_id.
    2: { apply Forall_app. split; [|constructor; [done|]]; (eapply Forall_impl; [eassumption|]; apply digit_not_space). }
    unfold match_usd. pose proof (span_app is_digit (text_of w) (dot_char :: text_of f) Hw eq_refl) as Hs.
    destruct (text_of w) as [|a t]; [done|]. apply Forall_cons in Hw as [Ha _]. simpl app in *.
    cbv beta iota. rewrite (bool_decide_eq_false_2 (a = minus_char)) by (intros ->; done).
    cbv beta iota. rewrite Hs. cbv beta iota.
    rewrite bool_decide_eq_true_2 by done. rewrite bool_decide_eq_false_2 by done.
    rewrite forallb_digits by done. by eexists.
Qed.

(** ** What the fields' own schemas establish *)

Ltac inv_some :=
  repeat match goal with
  | H : (_ ≫= _) = Some _ |- _ => apply bind_Some in H as (? & ? & ?)
  | H : Some _ = Some _ |- _ => injection H as H; subst
  | H : (if ?b then Some _ else None) = Some _ |- _ => let E := fresh "E" in destruct b eqn:E; [|discriminate H]
  | H : None = Some _ |- _ => discriminate H
  end.

Definition buildable (ts : list TokenAsset) : Prop := forall c d, exists r, createAssetRegistry c d ts = Ok r.

Definition limit_ok (e : LimitEntry) : Prop :=
  str_includes SEPARATOR (le_asset e) = false /\ digits1 (le_perTransaction e) = true /\
  digits1 (le_daily e) = true /\ digits1 (le_review e) = true.

Record env_wf (env : Env) : Prop := mkEnvWf {
  wf_tokens : buildable (TOKEN_MINTS (chain env));
  wf_tokens_of c : buildable (TOKEN_MINTS_of (chain env) c);
  wf_limits : Forall limit_ok (RISK_ASSET_LIMITS (risk env));
  wf_limits_of c : Forall limit_ok (RISK_ASSET_LIMITS_of (risk env) c);
  wf_usd : RISK_MANUAL_REVIEW_ABOVE_USD (risk env) = "" \/ dollars_pattern (RISK_MANUAL_REVIEW_ABOVE_USD (risk env)) = true;
  wf_markets : Forall (fun m => symbol_pattern (cm_symbol m) = true) (TRADING_MARKETS (trading env))
}.

Lemma for_clusters_Some {A} (read : Cluster -> option A) f c : for_clusters read = Some f -> read c = Some (f c).
Proof. unfold for_clusters. intros H. inv_some. by destruct c. Qed.

Lemma token_list_buildable raw name ts : token_list raw name = Some ts -> buildable ts.
Proof.
  unfold token_list. destruct (tokenAssetSchema _) eqn:E; [|done]. intros [= <-] c d.
  exact (proj1 (token_list_builds_registry _ _ c d E)).
Qed.

Lemma assetLimitsSchema_ok value ls : assetLimitsSchema value = Some ls -> Forall limit_ok ls.
Proof.
  unfold assetLimitsSchema. intros H. inv_some. apply Forall_forall. intros e (entry & -> & Hin)%list_elem_of_fmap.
  rewrite forallb_forall in E. specialize (E entry (proj1 (list_elem_of_In _ _) Hin)).
  unfold limit_entry_ok in E. unfold limit_of_entry, limit_ok. assert (Hp := split_on_parts SEPARATOR entry).
  destruct (split_on SEPARATOR entry) as [|a [|p [|d [|r []]]]]; try done. zbool. simpl. split_and!; try done.
  apply Hp. set_solver.
Qed.

Lemma tradingMarketList_ok raw ms :
  tradingMarketList raw = Some ms -> Forall (fun m => symbol_pattern (cm_symbol m) = true) ms.
Proof.
  unfold tradingMarketList. intros H. inv_some. apply Forall_forall. intros m (entry & -> & Hin)%list_elem_of_fmap.
  rewrite forallb_forall in E. specialize (E entry (proj1 (list_elem_of_In _ _) Hin)).
  unfold market_entry_ok in E. unfold market_of_entry.
  destruct (split_on SEPARATOR entry) as [|a [|p [|d [|r [|k []]]]]]; try done. zbool. done.
Qed.

Lemma env_fields_wf `{Host} raw env : env_fields raw = Some env -> env_wf env.
Proof.
  unfold env_fields, chain_fields, risk_fields, trading_fields. intros He. inv_some.
  constructor; simpl.
  - by eapply token_list_buildable.
  - intros cluster.
    match goal with H : for_clusters (fun c => token_list raw _) = Some _ |- _ => apply (for_clusters_Some _ _ cluster) in H; cbv beta in H end.
    by eapply token_list_buildable.
  - by eapply assetLimitsSchema_ok.
  - intros cluster.
    match goal with H : for_clusters (fun c => assetLimitsSchema _) = Some _ |- _ => apply (for_clusters_Some _ _ cluster) in H; cbv beta in H end.
    by eapply assetLimitsSchema_ok.
  - match goal with H : dollars_field _ = Some _ |- _ => unfold dollars_field in H end. inv_some.
    match goal with E : _ || _ = true |- _ => apply orb_true_iff in E as [E|E] end; [left; by zbool|by right].
  - by eapply tradingMarketList_ok.
Qed.

(** ** What the cross-field checks establish *)

Lemma issue_nil b path : issue b path = [] <-> b = false.
Proof. by destruct b. Qed.

Lemma mjoin_nil {A B} (f : A -> list B) xs : mjoin (map f xs) = [] <-> Forall (fun x => f x = []) xs.
Proof.
  induction xs as [|x xs IH]; simpl; [done|]. rewrite Forall_cons, <- IH.
  split; [apply app_eq_nil|by intros [-> ->]].
Qed.

Ltac no_issue :=
  repeat match goal with
  | H : _ ++ _ = [] |- _ => apply app_eq_nil in H as [? ?]
  | H : issue _ _ = [] |- _ => apply issue_nil in H
  | H : mjoin (map _ _) = [] |- _ => apply mjoin_nil in H
  end.

(** An environment [parseEnv] returns, and the secrets it was made with. *)
Lemma parseEnv_Ok `{Host} raw env :
  parseEnv raw = Ok env ->
  exists resolved audit, resolveSecretReferences raw = Ok (resolved, audit) /\ env_fields resolved = Some env /\
    superRefine env = [] /\ (NODE_ENV (web env) = "production" -> critical_literals audit = []).
Proof.
  unfold parseEnv. destruct (resolveSecretReferences raw) as [[resolved audit]|e]; [|by destruct e].
  destruct (env_fields resolved) as [env'|] eqn:Hf; [|done]. destruct (superRefine env') eqn:Hs; [|done].
  destruct (bool_decide (NODE_ENV _ = _) && _) eqn:Hp; [done|]. intros [= ->]. exists resolved, audit.
  split_and!; try done. intros Hprod. rewrite bool_decide_eq_true_2 in Hp by done. simpl in Hp. by zbool.
Qed.

Lemma parseEnv_wf `{Host} raw env : parseEnv raw = Ok env -> env_wf env /\ superRefine env = [].
Proof. intros (? & ? & _ & ?%env_fields_wf & ? & _)%parseEnv_Ok. done. Qed.

(** ** Keys and maps *)

Definition asset_key (c : Cluster) (a : string) : string := cluster_name c +:+ String SEPARATOR a.

Lemma asset_key_inj c a c' a' : asset_key c a = asset_key c' a' <-> c = c' /\ a = a'.
Proof.
  split; [|by intros [-> ->]]. intros E%(f_equal (split_first SEPARATOR)). unfold asset_key in E.
  rewrite !split_cluster_key in E. injection E as Ec ->. split; [|done]. by destruct c, c'.
Qed.

Lemma ledgerAssetKey_key c a : str_includes SEPARATOR a = false -> ledgerAssetKey c a = Ok (asset_key c a).
Proof. intros. by apply ledgerAssetKey_Ok. Qed.

Lemma prefix_app s t : String.prefix s t = true -> exists r, t = s +:+ r.
Proof.
  revert t. induction s as [|a s IH]; intros t; [by exists t|]. destruct t as [|b t]; [done|]. simpl.
  destruct (ascii_dec a b) as [->|]; [|congruence]. intros [r ->]%IH. by exists r.
Qed.

Lemma assetKeyInCluster_key k c : assetKeyInCluster k c = true <-> exists a, k = asset_key c a.
Proof.
  split.
  - intros [r ->]%prefix_app. exists r. unfold asset_key. destruct c; reflexivity.
  - intros [a ->]. unfold asset_key. rewrite prefix_cluster. by apply bool_decide_eq_true.
Qed.

Lemma jget_filter_key {V} (P : string -> bool) k (m : list (string * V)) :
  jget k (filter (fun kv => P kv.1 = true) m) = if P k then jget k m else None.
Proof.
  induction m as [|[k' v] m IH]; simpl; [by destruct (P k)|]. destruct (P k') eqn:E.
  - rewrite filter_cons_True by done. simpl. rewrite IH. case_decide; [subst; by rewrite E|done].
  - rewrite filter_cons_False by (simpl; congruence). rewrite IH. case_decide; [subst; by rewrite E|done].
Qed.

Lemma list_to_map_jget {V} (m : list (string * V)) k : (list_to_map m : gmap string V) !! k = jget k m.
Proof.
  induction m as [|[k' v] m IH]; simpl; [done|]. case_decide; subst; [by rewrite lookup_insert_eq|].
  by rewrite lookup_insert_ne.
Qed.

Lemma jget_map_value {V W} (g : V -> W) k (m : list (string * V)) :
  jget k (map (fun kv => (kv.1, g kv.2)) m) = g <$> jget k m.
Proof. induction m as [|[k' v] m IH]; simpl; [done|]. by case_decide. Qed.

Lemma jget_Forall {V} (P : V -> Prop) k v (m : list (string * V)) :
  Forall (fun kv => P kv.2) m -> jget k m = Some v -> P v.
Proof. induction 1 as [|[k' v'] m Hv Hm IH]; simpl; [done|]. case_decide; [by intros [= <-]|done]. Qed.

Lemma jset_Forall {V} (P : V -> Prop) k v (m : list (string * V)) :
  Forall (fun kv => P kv.2) m -> P v -> Forall (fun kv => P kv.2) (jset k v m).
Proof. intros Hm Hv. induction Hm as [|[k' v'] m Hv' Hm IH]; simpl; [by constructor|]. case_decide; by constructor. Qed.

Lemma map_result_Ok {A B} (f : A -> result B) (g : A -> B) xs :
  Forall (fun x => f x = Ok (g x)) xs -> map_result f xs = Ok (map g xs).
Proof. induction 1 as [|x xs Hx Hxs IH]; simpl; [done|]. by rewrite Hx, IH. Qed.

(** ** The limits of a cluster *)

(** What a cluster's variables say about an asset: the last entry of its own list that
    names it; without one, the native variables if it is the native asset. *)
Definition own_limit (env : Env) (c : Cluster) (a : string) : option LimitStrings :=
  match last (filter (fun e => le_asset e = a) (own_limits env c)) with
  | Some e => Some (entry_limits e)
  | None => if bool_decide (a = NATIVE_ASSET_KEY) then Some (native_limits (risk env)) else None
  end.

Definition strings_ok (l : LimitStrings) : Prop :=
  digits1 (ls_perTransaction l) = true /\ digits1 (ls_daily l) = true /\ digits1 (ls_review l) = true.

Definition num_limits (l : LimitStrings) : AssetLimits :=
  mkLimits (digits_value (text_of (ls_perTransaction l))) (digits_value (text_of (ls_daily l)))
    (digits_value (text_of (ls_review l))).

Lemma big_limits_Ok l : strings_ok l -> big_limits l = Ok (num_limits l).
Proof. intros (? & ? & ?). unfold big_limits. by rewrite !js_BigInt_digits. Qed.

Lemma own_limits_ok env c : env_wf env -> Forall limit_ok (own_limits env c).
Proof.
  intros Hwf. unfold own_limits, perCluster. pose proof (wf_limits_of _ Hwf c).
  destruct (RISK_ASSET_LIMITS_of (risk env) c); [|done]. case_bool_decide; [apply Hwf|done].
Qed.

Lemma own_tokens_buildable env c : env_wf env -> buildable (own_tokens (chain env) c).
Proof.
  intros Hwf. unfold own_tokens, perCluster. pose proof (wf_tokens_of _ Hwf c) as Hc.
  destruct (TOKEN_MINTS_of (chain env) c); [|done]. case_bool_decide; [apply Hwf|done].
Qed.

Lemma list_limits_get c ls m :
  Forall limit_ok ls -> Forall (fun kv => strings_ok kv.2) m ->
  exists m', list_limits c ls m = Ok m' /\ Forall (fun kv => strings_ok kv.2) m' /\
    forall c' a, jget (asset_key c' a) m' =
      match (if decide (c' = c) then last (filter (fun e => le_asset e = a) ls) else None) with
      | Some e => Some (entry_limits e)
      | None => jget (asset_key c' a) m
      end.
Proof.
  intros Hls. revert m. induction Hls as [|e ls (Ha & Hp & Hd & Hr) Hls IH]; intros m Hm; simpl.
  { exists m. split_and!; try done. intros. by case_decide. }
  rewrite ledgerAssetKey_key by done. simpl.
  destruct (IH (jset (asset_key c (le_asset e)) (entry_limits e) m)) as (m' & -> & Hm' & Hget).
  { by apply jset_Forall. }
  exists m'. split_and!; [done..|]. intros c' a. rewrite Hget. case_decide as Ec.
  - subst c'. destruct (decide (le_asset e = a)) as [<-|Hne].
    + rewrite filter_cons_True by done. rewrite last_cons. destruct (last _); [done|]. by rewrite jget_jset_eq.
    + rewrite filter_cons_False by done. rewrite jget_jset_ne; [done|]. intros [_ ?]%asset_key_inj. done.
  - rewrite jget_jset_ne; [done|]. intros [? _]%asset_key_inj. congruence.
Qed.

Lemma build_limits_get env cs m :
  env_wf env -> strings_ok (native_limits (risk env)) -> Forall (fun kv => strings_ok kv.2) m ->
  exists m', build_limits env cs m = Ok m' /\ Forall (fun kv => strings_ok kv.2) m' /\
    forall c a, jget (asset_key c a) m' =
      match (if decide (c ∈ cs) then own_limit env c a else None) with
      | Some l => Some l
      | None => jget (asset_key c a) m
      end.
Proof.
  intros Hwf Hn. revert m. induction cs as [|c cs IH]; intros m Hm; [by exists m|].
  cbn [build_limits]. rewrite ledgerAssetKey_key by done. cbn [mbind result_bind].
  destruct (list_limits_get c (own_limits env c) (jset (asset_key c NATIVE_ASSET_KEY) (native_limits (risk env)) m))
    as (m1 & -> & Hm1 & Hget1); [by apply own_limits_ok|by apply jset_Forall|]. simpl.
  destruct (IH m1 Hm1) as (m' & -> & Hm' & Hget). exists m'. split_and!; [done..|]. intros c' a. rewrite Hget, Hget1.
  assert (Hin : c' ∈ c :: cs <-> c' = c \/ c' ∈ cs) by apply elem_of_cons.
  destruct (decide (c' = c)) as [->|Hc].
  - rewrite (decide_True _ _ (proj2 Hin (or_introl eq_refl))). unfold own_limit at 2.
    destruct (last _) as [e|] eqn:El.
    + destruct (decide (c ∈ cs)); [|done]. unfold own_limit. by rewrite El.
    + case_bool_decide as Ea.
      * subst a. rewrite jget_jset_eq. destruct (decide (c ∈ cs)); [|done]. unfold own_limit. rewrite El.
        by rewrite bool_decide_eq_true_2.
      * rewrite jget_jset_ne by (intros [_ ?]%asset_key_inj; congruence). destruct (decide (c ∈ cs)); [|done].
        unfold own_limit. rewrite El. by rewrite bool_decide_eq_false_2.
  - rewrite jget_jset_ne by (intros [? _]%asset_key_inj; congruence).
    destruct (decide (c' ∈ cs)) as [Hi|Hi]; destruct (decide (c' ∈ c :: cs)) as [Hj|Hj]; try done; tauto.
Qed.

Lemma build_clusters_get c cs m :
  (forall cluster, buildable (own_tokens c cluster)) ->
  exists m', build_clusters c cs m = Ok m' /\
    forall cluster, if decide (cluster ∈ cs)
      then exists cc, chain_config c cluster = Ok cc /\ jget cluster m' = Some cc
      else jget cluster m' = jget cluster m.
Proof.
  intros Hb. revert m. induction cs as [|k cs IH]; intros m; simpl; [by exists m|].
  destruct (Hb k k NATIVE_ASSET_DECIMALS) as [reg Hreg].
  assert (Hcc : chain_config c k = Ok (mkClusterChain k (rpcUrlFor c k) reg)).
  { unfold chain_config. by rewrite Hreg. }
  rewrite Hcc. simpl. destruct (IH (jset k (mkClusterChain k (rpcUrlFor c k) reg) m)) as (m' & -> & Hm').
  exists m'. split; [done|]. intros cluster. specialize (Hm' cluster).
  destruct (decide (cluster ∈ cs)) as [Hi|Hi].
  - rewrite decide_True by set_solver. done.
  - case_decide as Hj.
    + apply elem_of_cons in Hj as [->|]; [|done]. rewrite jget_jset_eq in Hm'. by eexists.
    + rewrite Hm'. apply jget_jset_ne. set_solver.
Qed.

(** ** The policy of a cluster *)

Lemma risk_issues_nil r : risk_issues r = [] <-> strings_ok (native_limits r).
Proof.
  unfold risk_issues, strings_ok. simpl. split.
  - intros H. no_issue. by zbool.
  - intros (-> & -> & ->). done.
Qed.

Lemma withdrawal_policy_get config cc :
  Forall (fun kv => strings_ok kv.2) (rc_assetLimits config) -> strings_ok (rc_native config) ->
  (forall v, rc_manualReviewAboveUsd config = Some v -> dollars_pattern v = true) ->
  exists p, withdrawal_policy config cc = Ok p /\ supportedAssets p = keys (cc_assets cc) /\
    forall k, assetLimits p !! k =
      if assetKeyInCluster k (cc_cluster cc) then num_limits <$> jget k (rc_assetLimits config) else None.
Proof.
  intros Hl Hn Husd. unfold withdrawal_policy.
  rewrite (map_result_Ok _ (fun kl => (kl.1, num_limits kl.2))).
  2: { apply Forall_forall. intros kl [_ Hkl]%list_elem_of_filter. rewrite Forall_forall in Hl.
       by rewrite big_limits_Ok by by apply Hl. }
  simpl. rewrite big_limits_Ok by done. simpl.
  assert (exists usd, (match rc_manualReviewAboveUsd config with
     | Some v => n ← parseUsd (text_of v); Ok (Value n) | None => Ok Null end) = Ok usd) as [usd ->].
  { destruct (rc_manualReviewAboveUsd config) as [v|]; [|by eexists].
    destruct (dollars_parse v) as [n ->]; [by apply Husd|]. by eexists. }
  simpl. eexists. split_and!; [done..|]. intros k. simpl.
  rewrite list_to_map_jget, jget_map_value, (jget_filter_key (fun k => assetKeyInCluster k (cc_cluster cc))).
  by destruct (assetKeyInCluster _ _).
Qed.

Lemma chain_config_fields c cluster cc :
  chain_config c cluster = Ok cc ->
  cc_cluster cc = cluster /\ cc_rpcUrl cc = rpcUrlFor c cluster /\
  createAssetRegistry cluster NATIVE_ASSET_DECIMALS (own_tokens c cluster) = Ok (cc_assets cc).
Proof. unfold chain_config. intros H. inv_ok. done. Qed.

(** What of an accepted environment the construction of the configuration relies on. *)
Record checked (env : Env) : Prop := mkChecked {
  ck_wf : env_wf env;
  ck_native : strings_ok (native_limits (risk env));
  ck_default : SOLANA_NETWORK (chain env) ∈ served (chain env);
  ck_rpc c : c ∈ served (chain env) -> rpcUrlFor (chain env) c <> ""
}.

Lemma accepted_checked `{Host} raw env : parseEnv raw = Ok env -> checked env.
Proof.
  intros [Hwf Hs]%parseEnv_wf. unfold superRefine, cluster_issues in Hs. no_issue.
  split; [done|by apply risk_issues_nil| |].
  - unfold served in *. destruct (SOLANA_CLUSTERS (chain env)); [set_solver|].
    match goal with H : negb (bool_decide (_ :: _ = [])) && _ = false |- _ => rename H into Hd end.
    rewrite bool_decide_eq_false_2 in Hd by done. simpl in Hd. by zbool.
  - intros c Hc. match goal with H : Forall _ (served _) |- _ => rewrite Forall_forall in H; specialize (H c Hc) end.
    no_issue. by zbool.
Qed.

(** Building the configuration fails only in the trading values. *)
Lemma toApiConfig_Ok env :
  checked env ->
  toApiConfig env = (_ ← trading_config (trading env); toApiConfig env) /\
  forall t, trading_config (trading env) = Ok t ->
  exists cfg, toApiConfig env = Ok cfg /\ cf_defaultCluster cfg = SOLANA_NETWORK (chain env) /\
    cf_clusters cfg = served (chain env) /\ cf_trading cfg = t /\
    cf_treasuryAddress cfg = TREASURY_ADDRESS (web env) /\
    (exists cc, chain_config (chain env) (SOLANA_NETWORK (chain env)) = Ok cc /\ cf_assets cfg = cc_assets cc) /\
    forall c, c ∈ served (chain env) ->
      exists cc p, jget c (cf_byCluster cfg) = Some cc /\ chain_config (chain env) c = Ok cc /\
        withdrawal_policy (cf_risk cfg) cc = Ok p /\ supportedAssets p = keys (cc_assets cc) /\
        (forall k l, assetLimits p !! k = Some l -> assetKeyInCluster k c = true) /\
        forall c' a, assetLimits p !! asset_key c' a =
          if decide (c' = c) then num_limits <$> own_limit env c a else None.
Proof.
  intros [Hwf Hn Hd _].
  destruct (build_clusters_get (chain env) (served (chain env)) []) as (byc & Hbc & Hget).
  { intros. by apply own_tokens_buildable. }
  destruct (build_limits_get env (served (chain env)) []) as (lims & Hbl & Hok & Hlim); [done..|].
  assert (Hdef := Hget (SOLANA_NETWORK (chain env))). rewrite decide_True in Hdef by done.
  destruct Hdef as (dc & Hdc & Hjd). unfold toApiConfig. rewrite Hbc. simpl. rewrite Hjd, Hbl. simpl. split.
  { by destruct (trading_config _). }
  intros t ->. simpl. eexists. split_and!; [done..|by exists dc|]. intros c Hc. simpl.
  specialize (Hget c). rewrite decide_True in Hget by done. destruct Hget as (cc & Hcc & Hj).
  destruct (withdrawal_policy_get (risk_config (risk env) lims) cc) as (p & Hp & Hsup & Hlook); [done..| |].
  { intros v. simpl. case_bool_decide; [done|]. intros [= <-]. by destruct (wf_usd _ Hwf). }
  destruct (chain_config_fields _ _ _ Hcc) as (Hc' & _ & _). rewrite Hc' in Hlook.
  exists cc, p. split_and!; try done.
  { intros k l. rewrite Hlook. by destruct (assetKeyInCluster k c). }
  intros c' a. rewrite Hlook.
  unfold asset_key. rewrite prefix_cluster. change (cluster_name c' +:+ String SEPARATOR a) with (asset_key c' a).
  case_bool_decide as Ec; case_decide; try done. subst c'. simpl. rewrite Hlim, decide_True by done.
  destruct (own_limit env c a); [done|]. done.
Qed.

(** ** Trading *)

Definition entries_ok (t : TradingEnv) (shape : string -> bool) (map_ : Pairs) : Prop :=
  Forall (fun kv => kv.1 ∈ known t /\ shape kv.2 = true) map_.

Lemma entry_issues_nil t name shape map_ : entry_issues t name shape map_ = [] <-> entries_ok t shape map_.
Proof.
  unfold entry_issues, entries_ok. rewrite mjoin_nil. apply Forall_proper; [|done]. intros kv.
  rewrite issue_nil, orb_false_iff, !negb_false_iff, bool_decide_eq_true. done.
Qed.

Lemma amount_issues_nil name map_ : amount_issues name map_ = [] <-> Forall (fun kv => positive_digits kv.2 = true) map_.
Proof.
  unfold amount_issues. rewrite mjoin_nil. apply Forall_proper; [|done]. intros kv.
  by rewrite issue_nil, negb_false_iff.
Qed.

(** A market's symbol has a dash in it, so it is not a name every object has. *)
Lemma known_not_inherited env symbol : env_wf env -> symbol ∈ known (trading env) -> symbol ∉ object_prototype.
Proof.
  intros Hwf (m & -> & Hm)%list_elem_of_fmap Hp. pose proof (wf_markets _ Hwf) as Hs.
  rewrite Forall_forall in Hs. specialize (Hs m Hm). revert Hs.
  assert (Hall : Forall (fun s => symbol_pattern s = false) object_prototype) by (repeat constructor; reflexivity).
  rewrite Forall_forall in Hall. by rewrite (Hall _ Hp).
Qed.

Lemma map_values_Ok {A} (f : string -> string -> result A) (P : A -> Prop) map_ :
  Forall (fun kv => exists v, f kv.1 kv.2 = Ok v /\ P v) map_ ->
  exists m, map_values f map_ = Ok m /\ Forall (fun kv => kv.1 ∈ map_.*1 /\ P kv.2) m.
Proof.
  intros Hf. unfold map_values. rewrite Forall_forall in Hf.
  destruct (map_result_total (fun kv => v ← f kv.1 kv.2; Ok (kv.1, v)) map_) as [m Hm].
  { intros kv Hkv. destruct (Hf kv Hkv) as (v & -> & _). by eexists. }
  exists m. split; [done|]. apply Forall_forall. intros kv Hkv.
  apply (map_result_elem _ _ _ kv Hm) in Hkv as (kv' & Hin & Hv). destruct (Hf kv' Hin) as (v & Hfv & HP).
  rewrite Hfv in Hv. injection Hv as <-. split; [exact (list_elem_of_fmap_2 fst _ _ Hin)|done].
Qed.

Definition start_ok (k : StartKey) : Prop := 0 <= sk_seq k /\ exists idx, sk_idx k = Some idx /\ 0 <= idx.

Lemma starts_Ok t map_ :
  entries_ok t seq_idx_pattern map_ ->
  exists m, starts map_ = Ok m /\ Forall (fun kv => kv.1 ∈ known t /\ start_ok kv.2) m.
Proof.
  intros He. destruct (map_values_Ok (fun _ => start_key) start_ok map_) as (m & Hm & Hall).
  { eapply Forall_impl; [exact He|]. intros kv [_ (seq & idx & Hk & Hseq & Hidx)%start_key_Ok]. rewrite Hk.
    eexists. split; [done|]. split; [done|]. by exists idx. }
  exists m. split; [done|]. eapply Forall_impl; [exact Hall|]. intros kv [Hin Hok]. split; [|done].
  apply list_elem_of_fmap in Hin as (kv' & -> & Hin). unfold entries_ok in He. rewrite Forall_forall in He.
  by apply He.
Qed.

Definition quoted_ok (m : MakerMarket) : Prop := 0 <= mm_levelQty m /\ forall p, mm_startPrice m = Some p -> 0 <= p.

Lemma maker_markets_Ok env :
  env_wf env -> maker_issues (trading env) = [] ->
  exists m, map_values (maker_market (TRADING_MARKET_MAKER_START_PRICE (trading env)))
              (TRADING_MARKET_MAKER_LEVEL_QTY (trading env)) = Ok m /\
    Forall (fun kv => kv.1 ∈ (TRADING_MARKET_MAKER_LEVEL_QTY (trading env)).*1 /\ quoted_ok kv.2) m.
Proof.
  intros Hwf Hi. unfold maker_issues in Hi. no_issue. rewrite entry_issues_nil in *. apply map_values_Ok.
  match goal with H : entries_ok _ _ (TRADING_MARKET_MAKER_LEVEL_QTY _) |- _ => eapply Forall_impl; [exact H|] end.
  intros kv [Hk ?%positive_digits1]. unfold maker_market. rewrite js_BigInt_digits by done. simpl.
  destruct (jget kv.1 _) as [price|] eqn:Hj.
  - assert (Hp : digits1 price = true).
    { apply positive_digits1. eapply (jget_Forall (fun v => positive_digits v = true)); [|exact Hj].
      match goal with H : entries_ok _ _ (TRADING_MARKET_MAKER_START_PRICE _) |- _ => eapply Forall_impl; [exact H|] end.
      by intros ? [_ ?]. }
    rewrite js_BigInt_digits by done. simpl. eexists. split; [done|]. split; simpl; [by apply digits1_value|].
    intros p [= <-]. by apply digits1_value.
  - unfold has_key. apply jget_None in Hj. rewrite !bool_decide_eq_false_2; [|by eapply known_not_inherited|done].
    eexists. split; [done|]. split; [by apply digits1_value|done].
Qed.

Lemma toLimits_Ok c map_ :
  Forall (fun kv => positive_digits kv.2 = true) map_ ->
  exists m, toLimits c map_ = Ok m /\
    forall symbol, m !! asset_key c symbol = (fun v => digits_value (text_of v)) <$> jget symbol map_.
Proof.
  intros Hp. unfold toLimits, map_values.
  rewrite (map_result_Ok _ (fun kv => (kv.1, digits_value (text_of kv.2)))).
  2: { eapply Forall_impl; [exact Hp|]. intros kv ?%positive_digits1. simpl. by rewrite js_BigInt_digits. }
  simpl. eexists. split; [done|]. intros symbol. rewrite list_to_map_jget, map_map. clear Hp.
  induction map_ as [|[k v] map_ IH]; [done|]. simpl. unfold asset_key.
  destruct (decide (symbol = k)) as [->|Hne]; [by rewrite decide_True|].
  rewrite decide_False; [done|]. change (asset_key c symbol <> asset_key c k). intros [_ ?]%asset_key_inj. done.
Qed.

(** What an accepted environment with trading on has been checked for. *)
Record trading_checked (env : Env) : Prop := mkTradingChecked {
  tk_clearing : trim_string (CLEARING_ADDRESS (trading env)) <> "" /\
    trim_string (CLEARING_ADDRESS (trading env)) <> trim_string (default "" (TREASURY_ADDRESS (web env)));
  tk_markets : TRADING_MARKETS (trading env) <> [];
  tk_engines m : m ∈ TRADING_MARKETS (trading env) -> jget (cm_symbol m) (TRADING_ENGINE_URLS (trading env)) <> None;
  tk_start : entries_ok (trading env) seq_idx_pattern (TRADING_SETTLEMENT_START (trading env));
  tk_tape : entries_ok (trading env) seq_idx_pattern (TRADING_MARKET_DATA_START (trading env));
  tk_maker : TRADING_MARKET_MAKER_ENABLED (trading env) = true -> maker_issues (trading env) = [];
  tk_qty : Forall (fun kv => positive_digits kv.2 = true) (TRADING_MAX_ORDER_QTY (trading env));
  tk_notional : Forall (fun kv => positive_digits kv.2 = true) (TRADING_MAX_OPEN_NOTIONAL (trading env))
}.

Lemma accepted_trading `{Host} raw env :
  parseEnv raw = Ok env -> TRADING_ENABLED (trading env) = true -> trading_checked env.
Proof.
  intros [_ Hs]%parseEnv_wf Hon. unfold superRefine, trading_issues in Hs. rewrite Hon in Hs. simpl negb in Hs.
  cbv iota in Hs. no_issue. rewrite ?entry_issues_nil, ?amount_issues_nil in *.
  match goal with H : (if blank _ then _ else _) = [] |- _ => rename H into Hc end.
  unfold blank in Hc. destruct (bool_decide (trim_string (CLEARING_ADDRESS _) = "")) eqn:Hb; [done|]. no_issue. zbool.
  constructor; try done.
  - intros m Hm. match goal with H : Forall _ (TRADING_MARKETS _) |- _ => rewrite Forall_forall in H; specialize (H m Hm) end.
    no_issue. by zbool.
  - match goal with H : (if TRADING_MARKET_MAKER_ENABLED _ then _ else _) = [] |- _ => rename H into Hm end.
    intros Hmk. by rewrite Hmk in Hm.
Qed.

Lemma trading_config_Ok env :
  env_wf env -> trading_checked env ->
  TRADING_MARKET_MAKER_ENABLED (trading env) = true \/ TRADING_MARKET_MAKER_LEVEL_QTY (trading env) = [] ->
  exists t, trading_config (trading env) = Ok t /\ tc_markets t = TRADING_MARKETS (trading env) /\
    tc_engineUrls t = TRADING_ENGINE_URLS (trading env) /\
    tc_clearingAddress t = trim_string (CLEARING_ADDRESS (trading env)) /\
    tc_maxOrderQty t = TRADING_MAX_ORDER_QTY (trading env) /\
    tc_maxOpenNotional t = TRADING_MAX_OPEN_NOTIONAL (trading env) /\
    Forall (fun kv => kv.1 ∈ known (trading env) /\ start_ok kv.2) (tc_settlementStart t ++ tc_tapeStart t) /\
    Forall (fun kv => quoted_ok kv.2) (tc_makerMarkets t).
Proof.
  intros Hwf Hk Hmk. unfold trading_config.
  destruct (starts_Ok _ _ (tk_start _ Hk)) as (s1 & -> & Hs1). destruct (starts_Ok _ _ (tk_tape _ Hk)) as (s2 & -> & Hs2).
  cbn [mbind result_bind].
  assert (exists m, map_values (maker_market (TRADING_MARKET_MAKER_START_PRICE (trading env)))
    (TRADING_MARKET_MAKER_LEVEL_QTY (trading env)) = Ok m /\ Forall (fun kv => quoted_ok kv.2) m) as (m & -> & Hm).
  { destruct Hmk as [Hmk| ->]; [|by exists []].
    destruct (maker_markets_Ok env Hwf) as (m & Hm & Hq); [by apply Hk|]. exists m. split; [done|].
    eapply Forall_impl; [exact Hq|]. by intros ? [_ ?]. }
  cbn [mbind result_bind]. eexists. split_and!; try done. by apply Forall_app.
Qed.

(** ** Whose variables a cluster's configuration reads *)

(** The variables of a cluster: its own, and the native limits, which hold for each. *)
Definition variables_of (c : Cluster) : list string :=
  ["RISK_PER_TRANSACTION_LIMIT"; "RISK_DAILY_LIMIT"; "RISK_MANUAL_REVIEW_ABOVE";
   suffixed "SOLANA_RPC_URL" c; suffixed "TOKEN_MINTS" c; suffixed "RISK_ASSET_LIMITS" c].

Lemma resolve_references_other `{Host} raw vs resolved audit resolved' audit' name :
  resolve_references raw vs resolved audit = Ok (resolved', audit') -> name ∉ vs -> resolved' name = resolved name.
Proof.
  revert resolved audit. induction vs as [|v vs IH]; simpl; intros resolved audit Hr Hn.
  { by injection Hr as <- _. }
  destruct (raw v) as [reference|]; [|apply (IH _ _ Hr); set_solver].
  destruct (blank reference); [apply (IH _ _ Hr); set_solver|]. inv_ok.
  match goal with H : resolve_references _ _ _ _ = Ok _ |- _ => rewrite (IH _ _ H) by set_solver end.
  unfold assign. rewrite bool_decide_eq_false_2; [done|set_solver].
Qed.

Lemma variables_not_secret c name : name ∈ variables_of c -> name ∉ SECRET_VARIABLES.
Proof.
  assert (Hall : Forall (fun n => n ∉ SECRET_VARIABLES) (variables_of c)).
  { apply Forall_forall. intros n Hn. apply (bool_decide_unpack _).
    revert n Hn. apply Forall_forall. destruct c; repeat constructor; reflexivity. }
  rewrite Forall_forall in Hall. apply Hall.
Qed.

Lemma env_fields_cluster `{Host} raw env c :
  env_fields raw = Some env ->
  RISK_PER_TRANSACTION_LIMIT (risk env) = text_or raw "RISK_PER_TRANSACTION_LIMIT" "100000000000" /\
  RISK_DAILY_LIMIT (risk env) = text_or raw "RISK_DAILY_LIMIT" "250000000000" /\
  RISK_MANUAL_REVIEW_ABOVE (risk env) = text_or raw "RISK_MANUAL_REVIEW_ABOVE" "25000000000" /\
  url_or_blank raw (suffixed "SOLANA_RPC_URL" c) = Some (SOLANA_RPC_URL_of (chain env) c) /\
  token_list raw (suffixed "TOKEN_MINTS" c) = Some (TOKEN_MINTS_of (chain env) c) /\
  assetLimitsSchema (text_or raw (suffixed "RISK_ASSET_LIMITS" c) "") = Some (RISK_ASSET_LIMITS_of (risk env) c).
Proof.
  unfold env_fields, chain_fields, risk_fields. intros He. inv_some. simpl.
  repeat match goal with H : for_clusters _ = Some _ |- _ => apply (for_clusters_Some _ _ c) in H; cbv beta in H end.
  done.
Qed.

(** Accepted environments that agree on a cluster's variables agree on its fields. *)
Lemma agree_on_cluster `{Host} raw raw' env env' c :
  parseEnv raw = Ok env -> parseEnv raw' = Ok env' ->
  (forall name, name ∈ variables_of c -> raw name = raw' name) ->
  native_limits (risk env) = native_limits (risk env') /\
  SOLANA_RPC_URL_of (chain env) c = SOLANA_RPC_URL_of (chain env') c /\
  TOKEN_MINTS_of (chain env) c = TOKEN_MINTS_of (chain env') c /\
  RISK_ASSET_LIMITS_of (risk env) c = RISK_ASSET_LIMITS_of (risk env') c.
Proof.
  intros (r & au & Hr & Hf & _)%parseEnv_Ok (r' & au' & Hr' & Hf' & _)%parseEnv_Ok Hagree.
  assert (Heq : forall name, name ∈ variables_of c -> r name = r' name).
  { intros name Hn. unfold resolveSecretReferences in *.
    rewrite (resolve_references_other _ _ _ _ _ _ name Hr), (resolve_references_other _ _ _ _ _ _ name Hr')
      by by eapply variables_not_secret. by apply Hagree. }
  destruct (env_fields_cluster _ _ c Hf) as (H1 & H2 & H3 & H4 & H5 & H6).
  destruct (env_fields_cluster _ _ c Hf') as (H1' & H2' & H3' & H4' & H5' & H6').
  unfold native_limits, url_or_blank, token_list, text_or in *.
  rewrite !Heq in * by (unfold variables_of; set_solver).
  split_and!; congruence.
Qed.

(** A configuration that was built is the one [toApiConfig_Ok] speaks of. *)
Lemma started env cfg :
  checked env -> toApiConfig env = Ok cfg ->
  cf_defaultCluster cfg = SOLANA_NETWORK (chain env) /\
    cf_clusters cfg = served (chain env) /\ trading_config (trading env) = Ok (cf_trading cfg) /\
    cf_treasuryAddress cfg = TREASURY_ADDRESS (web env) /\
    (exists cc, chain_config (chain env) (SOLANA_NETWORK (chain env)) = Ok cc /\ cf_assets cfg = cc_assets cc) /\
    forall c, c ∈ served (chain env) ->
      exists cc p, jget c (cf_byCluster cfg) = Some cc /\ chain_config (chain env) c = Ok cc /\
        withdrawal_policy (cf_risk cfg) cc = Ok p /\ supportedAssets p = keys (cc_assets cc) /\
        (forall k l, assetLimits p !! k = Some l -> assetKeyInCluster k c = true) /\
        forall c' a, assetLimits p !! asset_key c' a =
          if decide (c' = c) then num_limits <$> own_limit env c a else None.
Proof.
  intros Hck Hcfg. destruct (toApiConfig_Ok env Hck) as [Hfail Hok].
  destruct (trading_config (trading env)) as [t|e] eqn:Ht; [|rewrite Hcfg in Hfail; done].
  destruct (Hok t eq_refl) as (cfg' & Hcfg' & H). rewrite Hcfg in Hcfg'. injection Hcfg' as <-.
  naive_solver.
Qed.

Lemma own_chain_config c1 c2 c :
  c <> SOLANA_NETWORK c1 -> c <> SOLANA_NETWORK c2 -> SOLANA_RPC_URL_of c1 c = SOLANA_RPC_URL_of c2 c ->
  TOKEN_MINTS_of c1 c = TOKEN_MINTS_of c2 c -> chain_config c1 c = chain_config c2 c.
Proof.
  intros H1 H2 Hu Ht. unfold chain_config, own_tokens, perCluster, rpcUrlFor.
  by rewrite !(bool_decide_eq_false_2 (c = _)), Hu, Ht by done.
Qed.

Lemma own_limit_own env1 env2 c a :
  c <> SOLANA_NETWORK (chain env1) -> c <> SOLANA_NETWORK (chain env2) ->
  native_limits (risk env1) = native_limits (risk env2) ->
  RISK_ASSET_LIMITS_of (risk env1) c = RISK_ASSET_LIMITS_of (risk env2) c ->
  own_limit env1 c a = own_limit env2 c a.
Proof.
  intros H1 H2 Hn Hl. unfold own_limit, own_limits, perCluster.
  by rewrite !(bool_decide_eq_false_2 (c = _)), Hn, Hl by done.
Qed.

Lemma own_limit_some env c a :
  is_Some (own_limit env c a) <-> a = NATIVE_ASSET_KEY \/ a ∈ map le_asset (own_limits env c).
Proof.
  unfold own_limit. split.
  - destruct (last _) as [e|] eqn:El.
    + intros _. right. apply last_Some_elem_of, list_elem_of_filter in El as [<- ?]. by apply list_elem_of_fmap_2.
    + case_bool_decide; [by left|]. by intros [].
  - intros Ha. destruct (last _) as [e|] eqn:El; [by eexists|]. apply last_None in El.
    destruct Ha as [->|(e & -> & He)%list_elem_of_fmap]; [rewrite bool_decide_eq_true_2 by done; by eexists|].
    exfalso. apply (not_elem_of_nil e). rewrite <- El. by apply list_elem_of_filter.
Qed.

Lemma resolve_references_keeps `{Host} raw vs resolved audit resolved' audit' entry :
  resolve_references raw vs resolved audit = Ok (resolved', audit') -> entry ∈ audit -> entry ∈ audit'.
Proof.
  revert resolved audit. induction vs as [|v vs IH]; simpl; intros resolved audit Hr Hin.
  { by injection Hr as _ <-. }
  destruct (raw v) as [reference|]; [|by eapply IH]. destruct (blank reference); [by eapply IH|]. inv_ok.
  eapply IH; [eassumption|]. set_solver.
Qed.

(** Every secret that is set is resolved and audited. *)
Lemma resolve_references_audits `{Host} raw vs resolved audit resolved' audit' v reference :
  resolve_references raw vs resolved audit = Ok (resolved', audit') -> v ∈ vs ->
  raw v = Some reference -> trim_string reference <> "" ->
  exists secret, resolveSecret v reference raw = Ok secret /\
    mkSecretAudit v (rs_scheme secret) (rs_describe secret) ∈ audit'.
Proof.
  intros Hr Hv Hraw Hne. revert resolved audit Hr. induction vs as [|w vs IH]; [set_solver|].
  simpl. intros resolved audit Hr. apply elem_of_cons in Hv as [<-|Hv].
  - rewrite Hraw in Hr. unfold blank in Hr. rewrite bool_decide_eq_false_2 in Hr by done. inv_ok.
    eexists. split; [eassumption|]. eapply resolve_references_keeps; [eassumption|]. set_solver.
  - destruct (raw w) as [r|]; [|by eapply IH]. destruct (blank r); [by eapply IH|]. inv_ok. by eapply IH.
Qed.

Lemma env_fields_signer `{Host} raw env : env_fields raw = Some env -> SIGNER_KIND (web env) ∈ ["mock"; "real"].
Proof.
  unfold env_fields, web_fields. intros He. inv_some. simpl.
  match goal with H : enum_or _ "SIGNER_KIND" _ _ = Some _ |- _ => unfold enum_or in H end. inv_some. by zbool.
Qed.

(** ** Properties *)

(** C33: The clusters of a process do not reach into each other. If two accepted
    environments agree on the variables of a cluster that is the default in neither (its own
    suffixed ones and the native limits), then whatever else they say, about other
    clusters or without a suffix, both give that cluster the same endpoint, the same asset
    registry and the same withdrawal limits; and those limits name assets of that cluster
    only. *)
Theorem clusters_are_isolated `{Host} raw raw' env env' cfg cfg' c :
  parseEnv raw = Ok env -> toApiConfig env = Ok cfg -> parseEnv raw' = Ok env' -> toApiConfig env' = Ok cfg' ->
  c ∈ cf_clusters cfg -> c ∈ cf_clusters cfg' -> c <> cf_defaultCluster cfg -> c <> cf_defaultCluster cfg' ->
  (forall name, name ∈ variables_of c -> raw name = raw' name) ->
  exists cc p p', jget c (cf_byCluster cfg) = Some cc /\ jget c (cf_byCluster cfg') = Some cc /\
    withdrawal_policy (cf_risk cfg) cc = Ok p /\ withdrawal_policy (cf_risk cfg') cc = Ok p' /\
    assetLimits p = assetLimits p' /\ supportedAssets p = supportedAssets p' /\
    forall k l, assetLimits p !! k = Some l -> assetKeyInCluster k c = true.
Proof.
  intros He Hcfg He' Hcfg' Hc Hc' Hd Hd' Hagree.
  destruct (agree_on_cluster _ _ _ _ c He He' Hagree) as (Hn & Hu & Ht & Hl).
  destruct (started _ _ (accepted_checked _ _ He) Hcfg) as (Hdef & Hcl & _ & _ & _ & Hget).
  destruct (started _ _ (accepted_checked _ _ He') Hcfg') as (Hdef' & Hcl' & _ & _ & _ & Hget').
  rewrite Hcl in Hc. rewrite Hcl' in Hc'. rewrite Hdef in Hd. rewrite Hdef' in Hd'.
  destruct (Hget c Hc) as (cc & p & Hj & Hcc & Hp & Hs & Hin & Hlook).
  destruct (Hget' c Hc') as (cc' & p' & Hj' & Hcc' & Hp' & Hs' & Hin' & Hlook').
  assert (cc' = cc) as ->.
  { rewrite (own_chain_config _ (chain env') c Hd Hd' Hu Ht) in Hcc. congruence. }
  exists cc, p, p'. split_and!; try done; [|congruence]. apply map_eq. intros k.
  destruct (assetKeyInCluster k c) eqn:E.
  - apply assetKeyInCluster_key in E as [a ->]. rewrite Hlook, Hlook', !decide_True by done.
    by rewrite (own_limit_own env env' c a Hd Hd' Hn Hl).
  - destruct (assetLimits p !! k) eqn:E1; [by rewrite (Hin _ _ E1) in E|].
    destruct (assetLimits p' !! k) eqn:E2; [by rewrite (Hin' _ _ E2) in E|]. done.
Qed.

(** C34: An accepted environment with trading on starts a process, unless the market
    maker is off and given quantities nonetheless, and the configuration is whole. The
    default cluster is served; every served cluster has an endpoint, a registry and a
    withdrawal policy, in which exactly the native asset and the assets its own list names
    have limits; every market has an engine; the clearing address is not the treasury; each
    starting position is of a configured market and a pair of naturals; and the order policy
    has, for each symbol, the positive quantity configured. *)
Theorem accepted_settings_start `{Host} raw env :
  parseEnv raw = Ok env -> TRADING_ENABLED (trading env) = true ->
  TRADING_MARKET_MAKER_ENABLED (trading env) = true \/ TRADING_MARKET_MAKER_LEVEL_QTY (trading env) = [] ->
  exists cfg, loadApiConfigOrExit raw = Serves cfg /\ cf_defaultCluster cfg ∈ cf_clusters cfg /\
    (forall c, c ∈ cf_clusters cfg ->
      exists cc p, jget c (cf_byCluster cfg) = Some cc /\ cc_cluster cc = c /\ cc_rpcUrl cc <> "" /\
        withdrawal_policy (cf_risk cfg) cc = Ok p /\
        forall a, is_Some (assetLimits p !! asset_key c a) <->
                  a = NATIVE_ASSET_KEY \/ a ∈ map le_asset (own_limits env c)) /\
    (tc_markets (cf_trading cfg) <> [] /\
     forall m, m ∈ tc_markets (cf_trading cfg) -> jget (cm_symbol m) (tc_engineUrls (cf_trading cfg)) <> None) /\
    tc_clearingAddress (cf_trading cfg) <> trim_string (default "" (cf_treasuryAddress cfg)) /\
    Forall (fun kv => kv.1 ∈ map cm_symbol (tc_markets (cf_trading cfg)) /\ start_ok kv.2)
      (tc_settlementStart (cf_trading cfg) ++ tc_tapeStart (cf_trading cfg)) /\
    exists p, order_policy (cf_defaultCluster cfg) (cf_trading cfg) = Ok p /\
      forall symbol, maxOrderQty p !! asset_key (cf_defaultCluster cfg) symbol =
        (fun v => digits_value (text_of v)) <$> jget symbol (tc_maxOrderQty (cf_trading cfg)).
Proof.
  intros He Hon Hmk. pose proof (accepted_checked _ _ He) as Hck. pose proof (accepted_trading _ _ He Hon) as Htk.
  destruct (trading_config_Ok env (ck_wf _ Hck) Htk Hmk) as (t & Ht & Hms & Hu & Hca & Hq & Hno & Hst & _).
  destruct (toApiConfig_Ok env Hck) as [_ Hok].
  destruct (Hok t Ht) as (cfg & Hcfg & Hd & Hc & Htc & Htr & _ & Hget). exists cfg.
  split. { unfold loadApiConfigOrExit. rewrite He. simpl. by rewrite Hcfg. }
  rewrite Hd, Hc, Htc, Hms, Hu, Hca, Htr, Hq.
  split_and!; [apply Hck| |apply Htk|apply (tk_engines _ Htk)|apply (tk_clearing _ Htk)|exact Hst|].
  - intros c Hin. destruct (Hget c Hin) as (cc & p & Hj & Hcc & Hp & _ & _ & Hlook).
    destruct (chain_config_fields _ _ _ Hcc) as (? & Hrpc & _). exists cc, p. split_and!; try done.
    { rewrite Hrpc. by apply Hck. }
    intros a. rewrite Hlook, decide_True, fmap_is_Some by done. apply own_limit_some.
  - unfold order_policy. rewrite Hq, Hno.
    destruct (toLimits_Ok (SOLANA_NETWORK (chain env)) _ (tk_qty _ Htk)) as (mq & -> & Hmq).
    destruct (toLimits_Ok (SOLANA_NETWORK (chain env)) _ (tk_notional _ Htk)) as (mn & -> & _).
    simpl. eexists. split; [done|]. exact Hmq.
Qed.

(** In production an accepted environment credits at finality only, signs with the real
    signer as an authenticated caller, is served over https, and took neither of the two
    secrets that regenerate everything from a literal. *)
Theorem production_guarantees `{Host} raw env :
  parseEnv raw = Ok env -> NODE_ENV (web env) = "production" ->
  SOLANA_COMMITMENT (chain env) = "finalized" /\
  SIGNER_KIND (web env) = "real" /\ trim_string (MPC_CLIENT_PRIVATE_KEY (web env)) <> "" /\
  String.prefix "https://" (WEB_ORIGIN (web env)) = true /\
  String.prefix "https://" (WEBAUTHN_ORIGIN (web env)) = true /\
  forall variable reference, variable ∈ CRITICAL_SECRETS -> raw variable = Some reference ->
    trim_string reference <> "" ->
    exists secret, resolveSecret variable reference raw = Ok secret /\ rs_scheme secret <> scheme_literal.
Proof.
  intros (resolved & audit & Hr & Hkind%env_fields_signer & Hs & Hlit)%parseEnv_Ok Hp. specialize (Hlit Hp).
  unfold superRefine, custody_issues, signer_issues, origin_issues in Hs. rewrite Hp in Hs.
  rewrite !(bool_decide_eq_true_2 ("production" = "production")) in Hs by done. simpl andb in Hs.
  cbv iota in Hs. no_issue. unfold blank in *. zbool.
  assert (Hreal : SIGNER_KIND (web env) = "real") by (rewrite !elem_of_cons, elem_of_nil in Hkind; tauto). split_and!; try done.
  - match goal with H : _ && bool_decide (trim_string _ = "") = false |- _ => rename H into Hk end.
    rewrite bool_decide_eq_true_2 in Hk by done. cbn [andb] in Hk. by zbool.
  - intros v reference Hv Hraw Hne. assert (Hin : v ∈ SECRET_VARIABLES) by (unfold CRITICAL_SECRETS, SECRET_VARIABLES in *; set_solver).
    destruct (resolve_references_audits _ _ _ _ _ _ v reference Hr Hin Hraw Hne) as (secret & Hsec & Ha).
    exists secret. split; [done|]. intros Hl. unfold critical_literals in Hlit.
    assert (mkSecretAudit v (rs_scheme secret) (rs_describe secret) ∈ ([] : list SecretAudit)); [|set_solver].
    rewrite <- Hlit. apply list_elem_of_filter. done.
Qed.

(** ** What slips through *)

Definition env_of (vars : list (string * string)) : RawEnv := fun name => jget name vars.

Lemma radix_value_throws radix s e : radix_value radix s = Throw e -> e = GenericError "SyntaxError".
Proof.
  unfold radix_value. destruct s as [|a s]; [by intros [= <-]|]. generalize 0 as acc. generalize (a :: s) as t. clear a s.
  assert (Hstuck : forall t e', fold_left (fun acc a => acc ≫= fun v =>
     match radix_digit radix a with Some d => Ok (v * radix + d) | None => Throw (GenericError "SyntaxError") end) t (Throw e')
     = Throw e').
  { induction t as [|a t IH]; intros e'; simpl; [done|]. apply IH. }
  induction t as [|a t IH]; intros acc; simpl; [done|]. destruct (radix_digit radix a); [apply IH|].
  rewrite Hstuck. by intros [= <-].
Qed.

Lemma js_BigInt_throws s e : js_BigInt s = Throw e -> e = GenericError "SyntaxError".
Proof.
  unfold js_BigInt. destruct (trim s) as [|a t]; [done|].
  repeat case_match; try (by apply radix_value_throws).
  destruct (radix_value 10 t) eqn:E; simpl; [done|]. intros [= <-]. by apply radix_value_throws in E.
Qed.

Lemma map_values_throws {A} (f : string -> string -> result A) e0 map_ e :
  (forall k v e, f k v = Throw e -> e = e0) -> map_values f map_ = Throw e -> e = e0.
Proof.
  intros Hf. unfold map_values. induction map_ as [|[k v] map_ IH]; simpl; [done|].
  destruct (f k v) eqn:E; simpl; [|intros [= <-]; by eapply Hf].
  destruct (map_result _ map_) eqn:E2; simpl; [done|]. intros [= <-]. by apply IH.
Qed.

Lemma trading_config_throws t e : trading_config t = Throw e -> e = GenericError "SyntaxError".
Proof.
  assert (Hs : forall (k : string) v e, start_key v = Throw e -> e = GenericError "SyntaxError").
  { intros _ v e'. unfold start_key. destruct (js_BigInt _) eqn:E; simpl; [done|]. intros [= <-].
    by apply js_BigInt_throws in E. }
  unfold trading_config, starts.
  destruct (map_values _ (TRADING_SETTLEMENT_START t)) eqn:E1; simpl; [|intros [= <-]; by eapply map_values_throws in E1].
  destruct (map_values _ (TRADING_MARKET_DATA_START t)) eqn:E2; simpl; [|intros [= <-]; by eapply map_values_throws in E2].
  destruct (map_values _ (TRADING_MARKET_MAKER_LEVEL_QTY t)) eqn:E3; simpl; [done|]. intros [= <-].
  eapply map_values_throws in E3; [done|]. intros k v e'. unfold maker_market.
  destruct (js_BigInt (text_of v)) eqn:E; simpl; [|intros [= <-]; by apply js_BigInt_throws in E].
  destruct (jget k _) as [p|]; [|case_match; [by intros [= <-]|done]].
  destruct (js_BigInt (text_of p)) eqn:Ep; simpl; [done|]. intros [= <-]. by apply js_BigInt_throws in Ep.
Qed.

(** An accepted environment either serves or, when a trading value that was not checked
    is not a number, ends in a bare exception instead of a report of the variable. *)
Theorem accepted_serves_or_crashes `{Host} raw env :
  parseEnv raw = Ok env ->
  match trading_config (trading env) with
  | Ok _ => exists cfg, loadApiConfigOrExit raw = Serves cfg
  | Throw _ => loadApiConfigOrExit raw = Crashes (GenericError "SyntaxError")
  end.
Proof.
  intros He. pose proof (accepted_checked _ _ He) as Hck. destruct (toApiConfig_Ok env Hck) as [Hfail Hok].
  unfold loadApiConfigOrExit. rewrite He. simpl. destruct (trading_config (trading env)) as [t|e] eqn:Ht.
  - destruct (Hok t eq_refl) as (cfg & -> & _). by eexists.
  - rewrite Hfail. simpl. by apply trading_config_throws in Ht as ->.
Qed.

Lemma token_issue_native native t ts index mints symbols :
  t ∈ ts -> to_upper (symbol t) ∈ map to_upper native -> token_issues native index mints symbols ts <> [].
Proof.
  intros Ht Hn. revert index mints symbols. induction ts as [|t' ts IH]; [set_solver|]. intros index mints symbols.
  apply elem_of_cons in Ht as [<-|Ht]; simpl; intros Hi; no_issue; [|by eapply IH].
  match goal with H : existsb _ native = false |- _ => rewrite existsb_none in H; rename H into Hx end.
  apply list_elem_of_fmap in Hn as (asset & Ha & Hin). specialize (Hx asset Hin). by zbool.
Qed.

Lemma registry_impostor c native key t :
  symbol t = NATIVE_ASSET_KEY ->
  let r := mkAssetRegistry c native [(key, t)] [native; key] [t] NATIVE_ASSET_DECIMALS in
  isAllowed r key = true /\ symbolOf r key = symbolOf r (nativeKey r) /\
  assetBySymbol r NATIVE_ASSET_KEY = Throw (GenericError "market asset is ambiguous").
Proof.
  intros Hs r. assert (Hk : symbolOf r key = NATIVE_ASSET_KEY).
  { unfold symbolOf, token. simpl. case_bool_decide; [done|]. by rewrite decide_True. }
  assert (Hn : symbolOf r native = NATIVE_ASSET_KEY) by (unfold symbolOf; by rewrite bool_decide_eq_true_2).
  split_and!.
  - unfold isAllowed, isToken, token. simpl. rewrite decide_True by done. apply orb_true_r.
  - by transitivity NATIVE_ASSET_KEY.
  - unfold assetBySymbol, symbol_keys. cbn [keys r].
    by rewrite filter_cons_True, filter_cons_True by done.
Qed.

(** C35: The checks of the token list are those of the unsuffixed one. A token a cluster's
    own list calls SOL is accepted, though in the unsuffixed list it would be refused as
    colliding with the native asset: the registry then shows that mint under the native
    asset's name, and a market of SOL cannot be made of it, since the name is ambiguous. *)
Theorem impostor_token_is_sol `{Host} raw env cfg c t :
  parseEnv raw = Ok env -> toApiConfig env = Ok cfg -> c ∈ cf_clusters cfg ->
  TOKEN_MINTS_of (chain env) c = [t] -> symbol t = NATIVE_ASSET_KEY ->
  (exists cc, jget c (cf_byCluster cfg) = Some cc /\
    isAllowed (cc_assets cc) (asset_key c (mint t)) = true /\
    symbolOf (cc_assets cc) (asset_key c (mint t)) = symbolOf (cc_assets cc) (nativeKey (cc_assets cc)) /\
    assetBySymbol (cc_assets cc) NATIVE_ASSET_KEY = Throw (GenericError "market asset is ambiguous")) /\
  forall env', t ∈ TOKEN_MINTS (chain env') -> NATIVE_ASSET_KEY ∈ SUPPORTED_ASSETS (chain env') -> superRefine env' <> [].
Proof.
  intros He Hcfg Hc Ht Hs. split.
  - destruct (started _ _ (accepted_checked _ _ He) Hcfg) as (_ & Hcl & _ & _ & _ & Hget). rewrite Hcl in Hc.
    destruct (Hget c Hc) as (cc & p & Hj & Hcc & _). exists cc. split; [done|].
    destruct (chain_config_fields _ _ _ Hcc) as (_ & _ & Hreg). unfold own_tokens, perCluster in Hreg.
    rewrite Ht in Hreg. unfold createAssetRegistry in Hreg. inv_ok. simpl in *. inv_ok.
    repeat match goal with H : ledgerAssetKey _ _ = Ok _ |- _ => apply ledgerAssetKey_Ok in H as [_ ->] end.
    match goal with H : _ = cc_assets cc |- _ => rewrite <- H end. apply registry_impostor. done.
  - intros env' Hin Hn Hsr. unfold superRefine in Hsr. no_issue.
    match goal with H : token_issues _ _ _ _ _ = [] |- _ => eapply token_issue_native; [exact Hin| |exact H] end.
    rewrite Hs. by apply list_elem_of_fmap_2.
Qed.

Lemma resolve_references_value `{Host} raw vs resolved audit resolved' audit' v reference :
  resolve_references raw vs resolved audit = Ok (resolved', audit') -> NoDup vs -> v ∈ vs ->
  raw v = Some reference -> trim_string reference <> "" ->
  exists secret, resolveSecret v reference raw = Ok secret /\ resolved' v = Some (rs_value secret).
Proof.
  intros Hr Hnd Hv Hraw Hne. revert resolved audit Hr. induction Hnd as [|w vs Hw Hnd IH]; [set_solver|].
  simpl. intros resolved audit Hr. apply elem_of_cons in Hv as [<-|Hv].
  - rewrite Hraw in Hr. unfold blank in Hr. rewrite bool_decide_eq_false_2 in Hr by done. inv_ok.
    eexists. split; [eassumption|].
    match goal with H : resolve_references _ _ _ _ = Ok _ |- _ => rewrite (resolve_references_other _ _ _ _ _ _ v H Hw) end.
    unfold assign. by rewrite bool_decide_eq_true_2.
  - destruct (raw w) as [r|]; [|by eapply IH]. destruct (blank r); [by eapply IH|]. inv_ok. by eapply IH.
Qed.

(** A reference with a scheme that is not implemented is taken for the secret itself: the
    sessions of an accepted environment are then keyed by the text of the reference, in
    production too. *)
Theorem unknown_scheme_is_the_secret `{Host} raw env reference scheme rest :
  parseEnv raw = Ok env -> raw "SESSION_SECRET" = Some reference ->
  split_first SEPARATOR (trim_string reference) = Some (scheme, rest) -> scheme <> "env" -> scheme <> "file" ->
  SESSION_SECRET (web env) = trim_string reference.
Proof.
  intros (resolved & audit & Hr & Hf & _)%parseEnv_Ok Hraw Hsp He Hfi.
  assert (Hne : trim_string reference <> "") by (intros E; by rewrite E in Hsp).
  destruct (resolve_references_value _ _ _ _ _ _ "SESSION_SECRET" reference Hr) as (secret & Hsec & Hv);
    [by apply (bool_decide_unpack _); vm_compute|unfold SECRET_VARIABLES; set_solver|done..|].
  unfold resolveSecret in Hsec. rewrite bool_decide_eq_false_2, Hsp in Hsec by done.
  rewrite !bool_decide_eq_false_2 in Hsec by done. injection Hsec as <-. simpl in Hv.
  unfold env_fields, web_fields in Hf. rewrite Hv in Hf. inv_some. simpl.
  match goal with H : text_min 32 _ = Some _ |- _ => unfold text_min in H; simpl in H end. by inv_some.
Qed.

(** The native asset's limits are not only those of its own variables: an entry of a
    cluster's list that names it replaces them. *)
Theorem native_limits_replaced `{Host} raw env cfg c e :
  parseEnv raw = Ok env -> toApiConfig env = Ok cfg -> c ∈ cf_clusters cfg ->
  last (own_limits env c) = Some e -> le_asset e = NATIVE_ASSET_KEY ->
  exists cc p, jget c (cf_byCluster cfg) = Some cc /\ withdrawal_policy (cf_risk cfg) cc = Ok p /\
    assetLimits p !! asset_key c NATIVE_ASSET_KEY = Some (num_limits (entry_limits e)).
Proof.
  intros He Hcfg Hc Hl Ha. destruct (started _ _ (accepted_checked _ _ He) Hcfg) as (_ & Hcl & _ & _ & _ & Hget).
  rewrite Hcl in Hc. destruct (Hget c Hc) as (cc & p & Hj & _ & Hp & _ & _ & Hlook). exists cc, p. split_and!; [done..|].
  rewrite Hlook, decide_True by done. unfold own_limit. apply last_Some in Hl as [es ->].
  rewrite filter_app, filter_cons_True, last_app by done. done.
Qed.

(** ** Witnesses *)

Definition demo_host : Host := {|
  zod_int s := if digits1 s then Some (digits_value (text_of s)) else None;
  zod_url s := String.prefix "http" s;
  hostname s := if bool_decide (s = "https://wallet.example") then Some "wallet.example" else None;
  readFile f := if bool_decide (f = "/run/secrets/deposit")
                then Some "c2VlZHNlZWRzZWVkc2VlZHNlZWRzZWVkc2VlZHNlZWQ=" else None;
  plain_fields _ := true
|}.

#[local] Existing Instance demo_host.

Definition demo_settings : list (string * string) :=
  [("NODE_ENV", "production"); ("WEB_ORIGIN", "https://wallet.example");
   ("WEBAUTHN_ORIGIN", "https://wallet.example"); ("WEBAUTHN_RP_ID", "wallet.example");
   ("SESSION_SECRET", "0123456789abcdef0123456789abcdef"); ("SIGNER_KIND", "real");
   ("MPC_CLIENT_PRIVATE_KEY", "key"); ("DEPOSIT_SEED", "file:/run/secrets/deposit");
   ("SOLANA_RPC_URL", "http://rpc"); ("SOLANA_NETWORK", "devnet"); ("SOLANA_CLUSTERS", "devnet, testnet");
   ("SOLANA_RPC_URL_TESTNET", "http://testnet");
   ("TOKEN_MINTS", "USDC:EPjFWdd5AufqSSqeM2qN1xzybapC8G4wEGGkZwyTDt1v:6");
   ("RISK_ASSET_LIMITS_TESTNET", "Es9vMFrzaCERmJfrF4H2FYD4KCoNkY11McCe8BenwNYB:1000:5000:200");
   ("TRADING_ENABLED", "true"); ("CLEARING_ADDRESS", "clearing");
   ("TRADING_MARKETS", "SOL-USDC:1000:10000000:1000000:1000");
   ("TRADING_ENGINE_URLS", "SOL-USDC=http://engine:8080");
   ("TRADING_ENGINE_CALLER_SEED", "AAAAAAAAAAAAAAAAAAAAAAAAAAAAAAAAAAAAAAAAAAA=");
   ("TRADING_SETTLEMENT_ENABLED", "true"); ("TRADING_SETTLEMENT_START", "SOL-USDC=12:3");
   ("TRADING_MAX_ORDER_QTY", "SOL-USDC=5000000000")].

(** The environment with some variables set otherwise. *)
Definition demo_with (changes : list (string * string)) : RawEnv := env_of (changes ++ demo_settings).

Definition demo_impostor : TokenAsset :=
  mkTokenAsset "SOL" "Es9vMFrzaCERmJfrF4H2FYD4KCoNkY11McCe8BenwNYB" 9.

Definition demo_impostor_env : RawEnv :=
  demo_with [("TOKEN_MINTS_TESTNET", "SOL:Es9vMFrzaCERmJfrF4H2FYD4KCoNkY11McCe8BenwNYB:9")].

(** Another environment, of which only the variables of testnet are the same. *)
Definition demo_neighbour : RawEnv :=
  demo_with [("TOKEN_MINTS", ""); ("RISK_ASSET_LIMITS", "SOL:1:1:1"); ("SOLANA_NETWORK", "localnet");
             ("SOLANA_CLUSTERS", "localnet,testnet"); ("SOLANA_RPC_URL_LOCALNET", "http://local");
             ("TRADING_ENABLED", "false"); ("TRADING_SETTLEMENT_ENABLED", "false")].

(** [parseEnv] and [toApiConfig] succeed, and a test holds of what they give. *)
Definition gives (raw : RawEnv) (test : Env -> ApiConfig -> bool) : bool :=
  match parseEnv raw with
  | Ok env => match toApiConfig env with Ok cfg => test env cfg | Throw _ => false end
  | Throw _ => false
  end.

Lemma gives_Ok raw test :
  gives raw test = true -> exists env cfg, parseEnv raw = Ok env /\ toApiConfig env = Ok cfg /\ test env cfg = true.
Proof.
  unfold gives. destruct (parseEnv raw) as [env|] eqn:E; [|done]. destruct (toApiConfig env) as [cfg|] eqn:E2; [|done].
  intros H. by exists env, cfg.
Qed.

Lemma clusters_are_isolated_witness :
  exists env cfg env' cfg', parseEnv (demo_with []) = Ok env /\ parseEnv demo_neighbour = Ok env' /\
    exists cc p, jget testnet (cf_byCluster cfg) = Some cc /\ jget testnet (cf_byCluster cfg') = Some cc /\
      withdrawal_policy (cf_risk cfg) cc = Ok p.
Proof.
  destruct (gives_Ok (demo_with []) (fun _ cfg => bool_decide (testnet ∈ cf_clusters cfg) && bool_decide (cf_defaultCluster cfg = devnet)))
    as (env & cfg & He & Hc & H); [vm_compute; reflexivity|]. apply andb_true_iff in H as [H1%bool_decide_eq_true H2%bool_decide_eq_true].
  destruct (gives_Ok demo_neighbour (fun _ cfg => bool_decide (testnet ∈ cf_clusters cfg) && bool_decide (cf_defaultCluster cfg = localnet)))
    as (env' & cfg' & He' & Hc' & H'); [vm_compute; reflexivity|]. apply andb_true_iff in H' as [H1'%bool_decide_eq_true H2'%bool_decide_eq_true].
  exists env, cfg, env', cfg'. split; [exact He|]. split; [exact He'|].
  destruct (clusters_are_isolated (demo_with []) demo_neighbour env env' cfg cfg' testnet) as (cc & p & p' & Hj & Hj' & Hp & _);
    [exact He|exact Hc|exact He'|exact Hc'|exact H1|exact H1'|rewrite H2; discriminate|rewrite H2'; discriminate| |].
  { apply Forall_forall. repeat constructor; reflexivity. }
  exists cc, p. split; [exact Hj|]. split; [exact Hj'|exact Hp].
Defined.

Lemma accepted_settings_start_witness :
  exists cfg, loadApiConfigOrExit (demo_with []) = Serves cfg /\ cf_defaultCluster cfg ∈ cf_clusters cfg.
Proof.
  destruct (gives_Ok (demo_with []) (fun env _ => TRADING_ENABLED (trading env) &&
      bool_decide (TRADING_MARKET_MAKER_LEVEL_QTY (trading env) = [])))
    as (env & cfg & He & _ & H); [vm_compute; reflexivity|]. apply andb_true_iff in H as [H1 H2%bool_decide_eq_true].
  destruct (accepted_settings_start (demo_with []) env He H1 (or_intror H2)) as (cfg' & Hs & Hd & _).
  exists cfg'. split; [exact Hs|exact Hd].
Defined.

Lemma production_guarantees_witness :
  exists env, parseEnv (demo_with []) = Ok env /\ SOLANA_COMMITMENT (chain env) = "finalized".
Proof.
  destruct (gives_Ok (demo_with []) (fun env _ => bool_decide (NODE_ENV (web env) = "production")))
    as (env & cfg & He & _ & H%bool_decide_eq_true); [vm_compute; reflexivity|].
  exists env. split; [exact He|]. apply (production_guarantees (demo_with []) env He H).
Defined.

(** With trading off, a starting position that is no number is accepted, and crashes. *)
Lemma accepted_serves_or_crashes_witness :
  loadApiConfigOrExit (demo_with [("TRADING_ENABLED", "false"); ("TRADING_SETTLEMENT_ENABLED", "false");
                                  ("TRADING_SETTLEMENT_START", "SOL-USDC=now")])
    = Crashes (GenericError "SyntaxError").
Proof.
  set (raw := demo_with _).
  assert (H : match parseEnv raw with Ok env => is_ok (trading_config (trading env)) | Throw _ => true end = false)
    by (vm_compute; reflexivity).
  destruct (parseEnv raw) as [env|] eqn:E; [|done]. pose proof (accepted_serves_or_crashes raw env E) as Hs.
  destruct (trading_config (trading env)); [done|]. exact Hs.
Defined.

Lemma impostor_token_is_sol_witness :
  exists env cfg cc, parseEnv demo_impostor_env = Ok env /\ jget testnet (cf_byCluster cfg) = Some cc /\
    symbolOf (cc_assets cc) "testnet:Es9vMFrzaCERmJfrF4H2FYD4KCoNkY11McCe8BenwNYB" = symbolOf (cc_assets cc) (nativeKey (cc_assets cc)).
Proof.
  destruct (gives_Ok demo_impostor_env (fun env cfg => bool_decide (testnet ∈ cf_clusters cfg) &&
      bool_decide (map (fun t => (symbol t, mint t, decimals t)) (TOKEN_MINTS_of (chain env) testnet) =
                   [(symbol demo_impostor, mint demo_impostor, decimals demo_impostor)])))
    as (env & cfg & He & Hc & H); [vm_compute; reflexivity|]. apply andb_true_iff in H as [H1%bool_decide_eq_true H2%bool_decide_eq_true].
  assert (Ht : TOKEN_MINTS_of (chain env) testnet = [demo_impostor]).
  { destruct (TOKEN_MINTS_of (chain env) testnet) as [|[sy mi de] []]; try discriminate H2. injection H2 as -> -> ->. reflexivity. }
  destruct (impostor_token_is_sol demo_impostor_env env cfg testnet demo_impostor He Hc H1 Ht eq_refl) as [(cc & Hj & _ & Hs & _) _].
  exists env, cfg, cc. split; [exact He|]. split; [exact Hj|exact Hs].
Defined.

Lemma unknown_scheme_is_the_secret_witness :
  exists env, parseEnv (demo_with [("SESSION_SECRET", "aws:wallet/production/session-secret")]) = Ok env /\
    SESSION_SECRET (web env) = "aws:wallet/production/session-secret".
Proof.
  set (raw := demo_with _).
  assert (H : is_ok (parseEnv raw) = true) by (vm_compute; reflexivity).
  destruct (parseEnv raw) as [env|] eqn:E; [|done]. exists env. split; [reflexivity|].
  by apply (unknown_scheme_is_the_secret raw env "aws:wallet/production/session-secret" "aws" "wallet/production/session-secret" E).
Defined.

Lemma native_limits_replaced_witness :
  exists cfg cc p, jget devnet (cf_byCluster cfg) = Some cc /\ withdrawal_policy (cf_risk cfg) cc = Ok p /\
    assetLimits p !! "devnet:SOL" = Some (mkLimits 7 8 9).
Proof.
  destruct (gives_Ok (demo_with [("RISK_ASSET_LIMITS", "SOL:7:8:9")]) (fun env cfg =>
      bool_decide (devnet ∈ cf_clusters cfg) &&
      bool_decide (map (fun e => (le_asset e, le_perTransaction e, le_daily e, le_review e)) (own_limits env devnet) =
                   [("SOL", "7", "8", "9")])))
    as (env & cfg & He & Hc & H); [vm_compute; reflexivity|]. apply andb_true_iff in H as [H1%bool_decide_eq_true H2%bool_decide_eq_true].
  assert (Hl : last (own_limits env devnet) = Some (mkLimitEntry "SOL" "7" "8" "9")).
  { destruct (own_limits env devnet) as [|[a p d r] []]; try discriminate H2. injection H2 as -> -> -> ->. reflexivity. }
  destruct (native_limits_replaced _ env cfg devnet _ He Hc H1 Hl eq_refl) as (cc & p & Hj & Hp & Hk).
  exists cfg, cc, p. split; [exact Hj|]. split; [exact Hp|exact Hk].
Defined.
