(* ===== verification/Tiers.v ===== *)
(** * Custody tiers

    [packages/blockchain/src/custody.ts]: which authorities a tier asks for before money
    leaves it, whether the attestation of a proof carries them, and the thresholds of the
    hot tier. *)

From S2P Require Import Prelude Decimal Assets.
From Stdlib Require Import ZArith Lia Ascii.
From stdpp Require Import base list strings sets.

Open Scope string_scope.
Open Scope list_scope.
Open Scope Z_scope.

Inductive CustodyTier := tier_deposit | tier_hot | tier_warm | tier_cold.

#[export] Instance CustodyTier_eq_dec : EqDecision CustodyTier.
Proof. solve_decision. Defined.

Inductive Authority := risk_engine | operator | ceremony.

#[export] Instance Authority_eq_dec : EqDecision Authority.
Proof. solve_decision. Defined.

Definition AUTHORITIES : list Authority := [risk_engine; operator; ceremony].

Definition authority_name (a : Authority) : string :=
  match a with risk_engine => "risk-engine" | operator => "operator" | ceremony => "ceremony" end.

Record TierPolicy := mkTierPolicy {
  tier : CustodyTier;
  requiredAuthorities : list Authority;
  signingThreshold : Z;
  fixedDestinationOnly : bool;
  online : bool
}.

Definition TIER_POLICIES (t : CustodyTier) : TierPolicy :=
  match t with
  | tier_deposit => mkTierPolicy tier_deposit [] 1 true true
  | tier_hot => mkTierPolicy tier_hot [risk_engine] 3 false true
  | tier_warm => mkTierPolicy tier_warm [risk_engine; operator] 3 false true
  | tier_cold => mkTierPolicy tier_cold [ceremony] 4 false false
  end.

(** The authority a name is, if it is one. *)
Definition authority_of (name : string) : option Authority :=
  head (filter (fun a => authority_name a = name) AUTHORITIES).

Definition parseAuthorities (approvedBy : string) : list Authority :=
  omap (fun part => authority_of (trim_string (default "" (head (split_on SEPARATOR part)))))
    (split_on (chr 43) approvedBy).

Definition satisfies (held required : Authority) : bool :=
  if bool_decide (held = required) then true
  else match required with
       | risk_engine => match held with operator | ceremony => true | risk_engine => false end
       | _ => false
       end.

Definition countSatisfiers (required : Authority) : nat :=
  length (filter (fun held => satisfies held required = true) AUTHORITIES).

(** [ordered]: a stable sort by the number of satisfiers. *)
Fixpoint insert_required (r : Authority) (rs : list Authority) : list Authority :=
  match rs with
  | [] => [r]
  | r' :: rs' => if (countSatisfiers r <=? countSatisfiers r')%nat then r :: rs else r' :: insert_required r rs'
  end.

Definition ordered (required : list Authority) : list Authority := foldr insert_required [] required.

(** [available.findIndex(..)] and [available.splice(index, 1)]: what is left without the
    first authority that will do, or nothing when none will. *)
Fixpoint consume (required : Authority) (available : list Authority) : option (list Authority) :=
  match available with
  | [] => None
  | held :: available =>
      if satisfies held required then Some available
      else rest ← consume required available; Some (held :: rest)
  end.

(** The loop of [checkTierAuthorization]: the requirements that nothing was left for. *)
Fixpoint missing_from (required available : list Authority) : list Authority :=
  match required with
  | [] => []
  | r :: required =>
      match consume r available with
      | None => r :: missing_from required available
      | Some rest => missing_from required rest
      end
  end.

Inductive TierCheck := tier_ok | tier_missing (missing : list Authority).

Definition checkTierAuthorization (t : CustodyTier) (approvedBy : string) : TierCheck :=
  match missing_from (ordered (requiredAuthorities (TIER_POLICIES t))) (parseAuthorities approvedBy) with
  | [] => tier_ok
  | missing => tier_missing missing
  end.

Inductive Funding := funded_by (t : CustodyTier) | insufficient_hot.

Definition tierForWithdrawal (amount hotBalance : Z) : Funding :=
  if amount <=? hotBalance then funded_by tier_hot else insufficient_hot.

Inductive Rebalance := rebalance_none | to_warm (amount : Z) | from_warm (amount : Z).

Definition planRebalance (hotBalance ceiling floor target : Z) : result Rebalance :=
  if ceiling <? floor then Throw (GenericError "hot ceiling must not be below the floor")
  else if hotBalance >? ceiling then Ok (to_warm (hotBalance - target))
  else if hotBalance <? floor then Ok (from_warm (target - hotBalance))
  else Ok rebalance_none.

(** ** What a proof has to carry *)

(** An assignment of a different approval to every requirement. *)
Inductive covered : list Authority -> list Authority -> Prop :=
| covered_nil available : covered [] available
| covered_cons r required held available rest :
    satisfies held r = true -> available ≡ₚ held :: rest -> covered required rest -> covered (r :: required) available.

(** The most constrained requirements come first. *)
Definition constrained_first (required : list Authority) : Prop :=
  exists strict lax, required = strict ++ lax /\ Forall (fun r => r <> risk_engine) strict /\
    Forall (fun r => r = risk_engine) lax.

(** ** Lemmas *)

Lemma satisfies_any held : satisfies held risk_engine = true.
Proof. by destruct held. Qed.

Lemma satisfies_strict held r : r <> risk_engine -> satisfies held r = true <-> held = r.
Proof. by destruct held, r. Qed.

Lemma consume_Some r available rest :
  consume r available = Some rest -> exists held, satisfies held r = true /\ available ≡ₚ held :: rest.
Proof.
  revert rest. induction available as [|a available IH]; simpl; [done|]. intros rest. destruct (satisfies a r) eqn:E.
  - intros [= <-]. by exists a.
  - destruct (consume r available) as [rest'|]; simpl; [|done]. intros [= <-].
    destruct (IH rest' eq_refl) as (held & Hs & Hp). exists held. split; [done|]. rewrite Hp. apply perm_swap.
Qed.

Lemma consume_None r available : consume r available = None -> forall held, held ∈ available -> satisfies held r = false.
Proof.
  induction available as [|a available IH]; simpl; [set_solver|]. destruct (satisfies a r) eqn:E; [done|].
  destruct (consume r available); simpl; [done|]. intros _ held [->|Hh]%elem_of_cons; [done|]. by apply IH.
Qed.

Lemma covered_perm required a b : a ≡ₚ b -> covered required a -> covered required b.
Proof. intros Hp Hc. revert b Hp. induction Hc; intros b Hp; [constructor|]. econstructor; [eassumption|by rewrite <- Hp|done]. Qed.

Lemma covered_length required available : covered required available -> (length required <= length available)%nat.
Proof. induction 1 as [|r required held available rest _ Hp _ IH]; simpl; [lia|]. rewrite Hp. simpl. lia. Qed.

Lemma covered_lax required available :
  Forall (fun r => r = risk_engine) required -> (length required <= length available)%nat -> covered required available.
Proof.
  intros Hr. revert available. induction Hr as [|r required -> Hr IH]; intros available Hl; [constructor|].
  destruct available as [|a available]; [simpl in Hl; lia|]. eapply covered_cons; [apply satisfies_any|done|].
  apply IH. simpl in Hl. lia.
Qed.

(** Whichever approval meets the first requirement, the one the loop takes does as well. *)
Lemma covered_consume r required available rest :
  constrained_first (r :: required) -> covered (r :: required) available -> consume r available = Some rest ->
  covered required rest.
Proof.
  intros (strict & lax & E & Hs & Hl) Hc Hcons. apply consume_Some in Hcons as (held & Hh & Hp).
  inversion Hc as [|? ? held' ? rest' Hh' Hp' Hc']; subst. destruct strict as [|r' strict].
  - simpl in E. subst lax. apply Forall_cons in Hl as [-> Hl]. apply covered_lax; [done|].
    apply covered_length in Hc. rewrite Hp in Hc. simpl in Hc. lia.
  - injection E as <- ->. apply Forall_cons in Hs as [Hr _]. apply (satisfies_strict _ _ Hr) in Hh as ->.
    apply (satisfies_strict _ _ Hr) in Hh' as ->. eapply covered_perm; [|exact Hc'].
    apply (Permutation_cons_inv (a := r)). by rewrite <- Hp, <- Hp'.
Qed.

Lemma constrained_first_tail r required : constrained_first (r :: required) -> constrained_first required.
Proof.
  intros ([|r' strict] & lax & E & Hs & Hl); simpl in E.
  - subst lax. exists [], required. apply Forall_cons in Hl as [_ Hl]. done.
  - injection E as <- ->. exists strict, lax. apply Forall_cons in Hs as [_ Hs]. done.
Qed.

Lemma missing_from_covered required available :
  constrained_first required -> missing_from required available = [] <-> covered required available.
Proof.
  revert available. induction required as [|r required IH]; intros available Hf; simpl.
  - split; [constructor|done].
  - pose proof (constrained_first_tail _ _ Hf) as Hf'. destruct (consume r available) as [rest|] eqn:E.
    + rewrite IH by done. split.
      * intros Hc. apply consume_Some in E as (held & Hs & Hp). by econstructor.
      * intros Hc. by eapply covered_consume.
    + split; [done|]. intros Hc. exfalso. inversion Hc as [|? ? held ? rest Hs Hp _]; subst.
      rewrite (consume_None _ _ E held) in Hs; [done|]. rewrite Hp. set_solver.
Qed.

Lemma insert_required_perm r rs : insert_required r rs ≡ₚ r :: rs.
Proof. induction rs as [|r' rs IH]; simpl; [done|]. case_match; [done|]. rewrite IH. apply perm_swap. Qed.

Lemma ordered_perm required : ordered required ≡ₚ required.
Proof. induction required as [|r rs IH]; simpl; [done|]. by rewrite insert_required_perm, IH. Qed.

Lemma insert_required_first r rs : constrained_first rs -> constrained_first (insert_required r rs).
Proof.
  intros (strict & lax & -> & Hs & Hl). destruct (decide (r = risk_engine)) as [->|Hr].
  - exists strict, (risk_engine :: lax). split_and!; [|done|by constructor].
    induction Hs as [|r' strict Hr' Hs IH]; simpl.
    + destruct Hl as [|r' lax -> Hl]; done.
    + by destruct r'; [|rewrite IH..].
  - exists (r :: strict), lax. split_and!; [|by constructor|done].
    destruct Hs as [|r' strict Hr' Hs]; simpl.
    + destruct Hl as [|r' lax -> Hl]; [done|]. by destruct r.
    + by destruct r, r'.
Qed.

Lemma ordered_first required : constrained_first (ordered required).
Proof. induction required; simpl; [by exists [], []|]. by apply insert_required_first. Qed.

Lemma covered_swap required required' available :
  required ≡ₚ required' -> covered required available -> covered required' available.
Proof.
  intros Hp. revert available. induction Hp; intros available Hc.
  - done.
  - inversion Hc; subst. econstructor; eauto.
  - inversion Hc as [|? ? h ? rest Hs Hpm Hc']; subst. inversion Hc' as [|? ? h' ? rest' Hs' Hpm' Hc'']; subst.
    eapply (covered_cons _ _ h'); [done| |eapply (covered_cons _ _ h); [done|reflexivity|done]].
    rewrite Hpm, Hpm'. apply perm_swap.
  - auto.
Qed.

(** ** Properties *)

(** The check of a tier is exact: a proof passes if and only if a different approval it
    carries can be assigned to each authority the tier requires. The order in which the
    loop takes requirements and approvals does not matter. *)
Theorem tier_check_exact t approvedBy :
  checkTierAuthorization t approvedBy = tier_ok <->
  covered (requiredAuthorities (TIER_POLICIES t)) (parseAuthorities approvedBy).
Proof.
  unfold checkTierAuthorization. set (required := requiredAuthorities _).
  assert (Hiff := missing_from_covered (ordered required) (parseAuthorities approvedBy) (ordered_first required)).
  transitivity (missing_from (ordered required) (parseAuthorities approvedBy) = []).
  { by destruct (missing_from _ _). }
  rewrite Hiff. split; apply covered_swap; [|symmetry]; apply ordered_perm.
Qed.

(** What it takes, tier by tier: money leaves a warm tier on two approvals, one of them an
    operator's; a cold one on a ceremony; no number of automated approvals moves either. *)
Theorem tier_requirements approvedBy :
  let held := parseAuthorities approvedBy in
  checkTierAuthorization tier_deposit approvedBy = tier_ok /\
  (checkTierAuthorization tier_hot approvedBy = tier_ok <-> held <> []) /\
  (checkTierAuthorization tier_warm approvedBy = tier_ok <-> operator ∈ held /\ (2 <= length held)%nat) /\
  (checkTierAuthorization tier_cold approvedBy = tier_ok <-> ceremony ∈ held) /\
  (Forall (fun a => a = risk_engine) held ->
     checkTierAuthorization tier_warm approvedBy <> tier_ok /\ checkTierAuthorization tier_cold approvedBy <> tier_ok).
Proof.
  intros held. rewrite !tier_check_exact. fold held. simpl.
  assert (Hwarm : covered [risk_engine; operator] held <-> operator ∈ held /\ (2 <= length held)%nat).
  { split.
    - intros Hc. pose proof (covered_length _ _ Hc) as Hl. split; [|exact Hl].
      inversion Hc as [|? ? h ? rest _ Hp Hc']; subst. inversion Hc' as [|? ? h' ? rest' Hs Hp' _]; subst.
      apply satisfies_strict in Hs as ->; [|done]. rewrite Hp, Hp'. set_solver.
    - intros [Ho Hl]. apply (covered_swap [operator; risk_engine]); [apply perm_swap|].
      apply elem_of_Permutation in Ho as [rest Hp]. eapply covered_cons; [|exact Hp|]; [done|].
      apply covered_lax; [by constructor|]. rewrite Hp in Hl. simpl in *. lia. }
  assert (Hcold : covered [ceremony] held <-> ceremony ∈ held).
  { split.
    - intros Hc. inversion Hc as [|? ? h ? rest Hs Hp _]; subst. apply satisfies_strict in Hs as ->; [|done].
      rewrite Hp. set_solver.
    - intros [rest Hp]%elem_of_Permutation. eapply covered_cons; [|exact Hp|constructor]. done. }
  split_and!; [constructor| |done|done|].
  - split; [|intros; apply covered_lax; [by constructor|by destruct held; [|simpl; lia]]].
    intros Hc%covered_length. by destruct held; [simpl in Hc; lia|].
  - intros Ha. rewrite Forall_forall in Ha. rewrite Hwarm, Hcold.
    split; [intros [H%Ha _]; done|intros H%Ha; done].
Qed.

(** A rebalance to a target between the two thresholds moves a positive amount and leaves
    the hot tier at the target; between the thresholds nothing moves. *)
Theorem rebalance_reaches_target hot ceiling floor target plan :
  floor <= target <= ceiling -> planRebalance hot ceiling floor target = Ok plan ->
  match plan with
  | rebalance_none => floor <= hot <= ceiling
  | to_warm amount => 0 < amount /\ hot - amount = target
  | from_warm amount => 0 < amount /\ hot + amount = target
  end.
Proof.
  intros Ht. unfold planRebalance. destruct (Z.ltb_spec ceiling floor); [done|].
  destruct (Z.gtb_spec hot ceiling); [intros [= <-]; lia|].
  destruct (Z.ltb_spec hot floor); intros [= <-]; lia.
Qed.

(** ** Witnesses *)

(** A lone operator is not two approvals, whatever identities the proof names. *)
Example lone_operator : checkTierAuthorization tier_warm "operator:alice" = tier_missing [risk_engine].
Proof. reflexivity. Qed.

Example two_approvals : checkTierAuthorization tier_warm "risk-engine+ operator :alice" = tier_ok.
Proof. reflexivity. Qed.

(** An approval is not of a different person because it is a second one: the identities are
    not compared. *)
Example same_operator_twice : checkTierAuthorization tier_warm "operator:alice+operator:alice" = tier_ok.
Proof. reflexivity. Qed.

Lemma rebalance_reaches_target_witness :
  exists plan, planRebalance 120 100 20 60 = Ok plan /\ plan = to_warm 60 /\ 0 < 60 /\ 120 - 60 = 60.
Proof.
  exists (to_warm 60). split; [reflexivity|]. split; [reflexivity|].
  exact (rebalance_reaches_target 120 100 20 60 (to_warm 60) ltac:(lia) eq_refl).
Defined.
