(* ===== verification/Pricer.v ===== *)
(** * Prices

    [apps/api/src/workers/pricer.ts], with the sources [services/prices/static.ts] and
    [pyth.ts] and [record] of [price.repository.ts]: which price an asset is given. What the
    feed answers over HTTP is an argument; of its JSON a field is there when it has the type
    the code asks for. The column's rounding to six places and the instants of the feed are
    left out. *)

From S2P Require Import Prelude Decimal Assets Portfolio Settings Config.
From Stdlib Require Import ZArith Lia Ascii.
From stdpp Require Import base list strings sets.

Open Scope string_scope.
Open Scope list_scope.
Open Scope Z_scope.

Record Quote := mkQuote { q_symbol : string; q_priceUsd : text }.

(** [PriceSource], as a class: [fetch] may throw. *)
Class PriceSource := { fetch : list string -> result (list Quote) }.

(** ** [static.ts] *)

Definition createStaticSource (prices : Pairs) : PriceSource := {|
  fetch requests := Ok (omap (fun symbol =>
    priceUsd ← jget (to_upper symbol) prices; Some (mkQuote symbol (text_of priceUsd))) requests)
|}.

(** ** [pyth.ts] *)

(** [s.replace(/^0+(?=\d)/, '')] on digits: one digit stays. *)
Fixpoint strip_leading (s : text) : text :=
  match s with
  | a :: (_ :: _) as s' => if bool_decide (a = zero_char) then strip_leading s' else s
  | _ => s
  end.

(** [/^-?\d+$/], and its parts *)
Definition signed_digits (s : text) : option (bool * text) :=
  let '(negative, digits) := match s with
                             | a :: s' => if bool_decide (a = minus_char) then (true, s') else (false, s)
                             | [] => (false, [])
                             end in
  match digits with
  | [] => None
  | _ => if forallb is_digit digits then Some (negative, digits) else None
  end.

Definition scale (mantissa : text) (expo : Z) : result text :=
  match signed_digits mantissa with
  | None => Throw RangeError
  | Some (negative, all) =>
      if (0 <? expo) || (expo <? -18) then Throw RangeError else
      let digits := strip_leading all in
      let places := Z.to_nat (- expo) in
      let sign := if (negative : bool) then [minus_char] else [] in
      if (places =? 0)%nat then Ok (sign ++ digits) else
      let padded := pad_start (places + 1) digits in
      Ok (sign ++ take (length padded - places) padded ++ dot_char :: drop (length padded - places) padded)
  end.

(** An element of [parsed]. *)
Record Update := mkUpdate { up_id : option string; up_price : option text; up_expo : option Z }.

Definition to_lower (s : string) : string :=
  String.string_of_list_ascii
    (map (fun a => if (65 <=? code a) && (code a <=? 90) then chr (code a + 32) else a) (text_of s)).

Definition parseUpdates (wanted : list (string * string)) (parsed : list Update) : list Quote :=
  omap (fun u =>
    id ← up_id u; symbol ← jget (to_lower id) wanted; price ← up_price u; expo ← up_expo u;
    match scale price expo with Ok priceUsd => Some (mkQuote symbol priceUsd) | Throw _ => None end) parsed.

(** [wanted]: feed ids, each with the symbol asked for. *)
Definition wanted_feeds (feeds : Pairs) (requests : list string) : list (string * string) :=
  fold_left (fun m symbol =>
    match jget (to_upper symbol) feeds with Some id => jset (to_lower id) symbol m | None => m end) requests [].

Definition DEFAULT_FEEDS : Pairs :=
  [("SOL", "ef0d8b6fda2ceba41da15d4095d1da392a0d2f8ed0c6c7bc0f4cfac8c280b56d");
   ("USDC", "eaa020c61cc479712813461ce153894a96a6c00b21ed0cfc2798d1f9a9e9c94a");
   ("USDT", "2b89b9dc8fdf9f34709a5b106b472f0f39bb6ca9ce04b0fd7f2e971688e2e53b")].

(** [{ ...DEFAULT_FEEDS, ...options.feeds }] *)
Definition feeds_with (options : Pairs) : Pairs := fold_left (fun m kv => jset kv.1 kv.2 m) options DEFAULT_FEEDS.

Definition createPythSource (options : Pairs) (hermes : list string -> result (list Update)) : PriceSource := {|
  fetch requests :=
    match wanted_feeds (feeds_with options) requests with
    | [] => Ok []
    | wanted => parsed ← hermes wanted.*1; Ok (parseUpdates wanted parsed)
    end
|}.

(** ** [pricer.ts] *)

Definition Target : Type := Cluster * string.

(** The body of the inner loop of [targets]. *)
Definition add_target (registry : AssetRegistry) (cluster : Cluster) (m : list (string * list Target)) (key : string)
  : result (list (string * list Target)) :=
  parsed ← parseLedgerAssetKey key;
  let symbol := to_upper (symbolOf registry key) in
  Ok (jset symbol (default [] (jget symbol m) ++ [(cluster, parsed.2)]) m).

Fixpoint add_targets (registry : AssetRegistry) (cluster : Cluster) (ks : list string) (m : list (string * list Target))
  : result (list (string * list Target)) :=
  match ks with
  | [] => Ok m
  | key :: ks => m ← add_target registry cluster m key; add_targets registry cluster ks m
  end.

Fixpoint targets_from (clusters : list (Cluster * AssetRegistry)) (m : list (string * list Target))
  : result (list (string * list Target)) :=
  match clusters with
  | [] => Ok m
  | (cluster, registry) :: clusters => m ← add_targets registry cluster (keys registry) m; targets_from clusters m
  end.

Definition targets (clusters : list (Cluster * AssetRegistry)) : result (list (string * list Target)) :=
  targets_from clusters [].

(** [ticks] *)
Definition ticks_of (bySymbol : list (string * list Target)) (recordedAt : Z) (quotes : list Quote) : list TickRow :=
  mjoin (map (fun quote =>
    map (fun target : Target => mkTickRow target.1 target.2 (q_priceUsd quote) recordedAt)
      (default [] (jget (to_upper (q_symbol quote)) bySymbol))) quotes).

(** [runOnce]: the rows it appends. [prices.record] inserts them in one statement. *)
Definition runOnce `{PriceSource} (clusters : list (Cluster * AssetRegistry)) (now : Z) (rows : list TickRow)
  : result (list TickRow) :=
  bySymbol ← targets clusters;
  match bySymbol with
  | [] => Ok rows
  | _ =>
      match fetch bySymbol.*1 with
      | Throw _ => Ok rows
      | Ok quotes => Ok (rows ++ ticks_of bySymbol now quotes)
      end
  end.

(** ** Lemmas: the reconstruction of a price *)

Lemma strip_leading_value s : Forall (fun a => is_digit a = true) s ->
  digits_value (strip_leading s) = digits_value s /\ Forall (fun a => is_digit a = true) (strip_leading s) /\
  (s <> [] -> strip_leading s <> []).
Proof.
  induction 1 as [|a s Ha Hs (IHv & IHd & IHn)]; [done|]. destruct s as [|b s]; [by repeat constructor|].
  change (strip_leading (a :: b :: s)) with (if bool_decide (a = zero_char) then strip_leading (b :: s) else a :: b :: s).
  case_bool_decide as E.
  - subst a. split_and!; [|done|by intros _; apply IHn]. rewrite IHv.
    change (zero_char :: b :: s) with (replicate 1 zero_char ++ b :: s).
    rewrite digits_value_app, digits_value_zeros. lia.
  - split_and!; [done| |done]. by constructor.
Qed.

Lemma signed_digits_Some s negative ds :
  signed_digits s = Some (negative, ds) ->
  s = (if negative then [minus_char] else []) ++ ds /\ ds <> [] /\ Forall (fun a => is_digit a = true) ds.
Proof.
  assert (Hf : forall t, forallb is_digit t = true -> Forall (fun a => is_digit a = true) t).
  { intros t Ht. apply Forall_forall. intros a Ha%list_elem_of_In. by eapply forallb_forall in Ha. }
  unfold signed_digits. destruct s as [|a s]; [done|]. case_bool_decide as E.
  - subst a. destruct s as [|b s]; [done|]. destruct (forallb _ _) eqn:Ed; [|done]. intros [= <- <-]. auto.
  - destruct (forallb _ _) eqn:Ed; [|done]. intros [= <- <-]. auto.
Qed.

Lemma match_usd_signed (negative : bool) whole fraction :
  whole <> [] -> Forall (fun a => is_digit a = true) whole -> Forall (fun a => is_digit a = true) fraction ->
  match_usd ((if negative then [minus_char] else []) ++ whole ++
    match fraction with [] => [] | _ => dot_char :: fraction end) = Some (negative, whole, fraction).
Proof.
  intros Hne Hw Hf. unfold match_usd.
  assert (Hspan : span is_digit (whole ++ match fraction with [] => [] | _ => dot_char :: fraction end)
    = (whole, match fraction with [] => [] | _ => dot_char :: fraction end)).
  { apply span_app; [done|]. by destruct fraction. }
  assert (Hd : forallb is_digit fraction = true).
  { apply forallb_forall. intros a Ha. rewrite Forall_forall in Hf. by apply Hf, list_elem_of_In. }
  assert (Hend : forall sign, match match fraction with [] => [] | _ => dot_char :: fraction end with
      | [] => Some (sign, whole, [])
      | a :: f => if bool_decide (a = dot_char) && negb (bool_decide (f = [])) && forallb is_digit f
                  then Some (sign, whole, f) else None
      end = Some (sign : bool, whole, fraction)).
  { intros sign. destruct fraction; [done|]. rewrite bool_decide_eq_true_2, bool_decide_eq_false_2, Hd by done. done. }
  destruct whole as [|a whole]; [done|]. pose proof Hw as [Ha _]%Forall_cons. simpl app in Hspan.
  destruct negative; simpl app; cbv beta iota.
  - rewrite bool_decide_eq_true_2 by done. cbv beta iota. rewrite Hspan. apply Hend.
  - rewrite (bool_decide_eq_false_2 (a = minus_char)) by (intros ->; done). cbv beta iota.
    rewrite Hspan. apply Hend.
Qed.

(** Six places of a fraction, cut off. *)
Lemma six_places f :
  Forall (fun a => is_digit a = true) f ->
  digits_value (take 6 (pad_end 6 f)) = digits_value f * 10 ^ 6 / 10 ^ Z.of_nat (length f).
Proof.
  intros Hf. unfold pad_end. destruct (decide (length f <= 6)%nat) as [Hl|Hl].
  - rewrite take_ge by (rewrite length_app, length_replicate; lia).
    rewrite digits_value_app, digits_value_zeros, length_replicate, Z.add_0_r.
    replace (10 ^ 6) with (10 ^ Z.of_nat (6 - length f) * 10 ^ Z.of_nat (length f))
      by (rewrite <- Z.pow_add_r by lia; f_equal; lia).
    rewrite Z.mul_assoc, Z.div_mul by lia. done.
  - replace (6 - length f)%nat with 0%nat by lia. rewrite app_nil_r.
    assert (Hv : digits_value f = digits_value (take 6 f) * 10 ^ Z.of_nat (length (drop 6 f)) + digits_value (drop 6 f))
      by (rewrite <- digits_value_app, take_drop; done).
    assert (Hd : Forall (fun a => is_digit a = true) (drop 6 f)) by by apply Forall_drop.
    apply digits_value_bounds in Hd. rewrite Hv. rewrite length_drop in *.
    replace (Z.of_nat (length f)) with (Z.of_nat (length f - 6) + 6) by lia. rewrite Z.pow_add_r by lia.
    rewrite Z.div_mul_cancel_r by lia. rewrite Z.div_add_l by lia. rewrite (Z.div_small (digits_value (drop 6 f))) by lia. lia.
Qed.

(** ** Properties *)

(** A price of a mantissa and an exponent is read without rounding: in micro-dollars it is
    the mantissa scaled by the exponent, cut off below the sixth place. *)
Theorem pyth_price_exact mantissa expo negative ds :
  signed_digits mantissa = Some (negative, ds) -> -18 <= expo <= 0 ->
  exists t, scale mantissa expo = Ok t /\
    parseUsd t = Ok ((if (negative : bool) then -1 else 1) * (digits_value ds * 10 ^ 6 / 10 ^ (- expo))).
Proof.
  intros Hs He. unfold scale. rewrite Hs. apply signed_digits_Some in Hs as (_ & Hne & Hd).
  destruct (Z.ltb_spec 0 expo); [lia|]. destruct (Z.ltb_spec expo (-18)); [lia|]. simpl orb. cbv iota.
  destruct (strip_leading_value ds Hd) as (Hv & Hd' & Hne'). specialize (Hne' Hne). set (digits := strip_leading ds) in *.
  set (places := Z.to_nat (- expo)).
  assert (Hparse : forall whole fraction, whole <> [] -> Forall (fun a => is_digit a = true) whole ->
    Forall (fun a => is_digit a = true) fraction -> length fraction = places ->
    digits_value (whole ++ fraction) = digits_value ds ->
    parseUsd ((if negative then [minus_char] else []) ++ whole ++ match fraction with [] => [] | _ => dot_char :: fraction end)
      = Ok ((if negative then -1 else 1) * (digits_value ds * 10 ^ 6 / 10 ^ (- expo)))).
  { intros whole fraction Hw1 Hw Hf Hlen Hval. unfold parseUsd. rewrite trim_id.
    2: { assert (Forall (fun a => is_space a = false) whole) by (eapply Forall_impl; [exact Hw|]; apply digit_not_space).
         assert (Forall (fun a => is_space a = false) fraction) by (eapply Forall_impl; [exact Hf|]; apply digit_not_space).
         apply Forall_app. split; [by destruct negative; repeat constructor|]. apply Forall_app. split; [done|].
         destruct fraction; [constructor|]. by constructor. }
    rewrite match_usd_signed by done. rewrite six_places by done.
    replace (- expo) with (Z.of_nat (length fraction)) by lia. rewrite <- Hval, digits_value_app.
    set (p := 10 ^ Z.of_nat (length fraction)). assert (0 < p) by (apply Z.pow_pos_nonneg; lia).
    replace ((digits_value whole * p + digits_value fraction) * 10 ^ 6)
      with (digits_value whole * 10 ^ 6 * p + digits_value fraction * 10 ^ 6) by lia.
    rewrite Z.div_add_l by lia. unfold USD_MICROS. destruct negative; f_equal; lia. }
  destruct (Nat.eqb_spec places 0) as [Hp|Hp].
  - eexists. split; [done|]. specialize (Hparse digits []). rewrite !app_nil_r in Hparse. simpl in Hparse.
    apply Hparse; done.
  - set (padded := pad_start (places + 1) digits).
    assert (Hpd : Forall (fun a => is_digit a = true) padded) by (apply Forall_app; split; [apply zeros_digits|done]).
    assert (Hpl : (places + 1 <= length padded)%nat) by apply pad_start_length.
    eexists. split; [done|].
    assert (Hlen : length (drop (length padded - places) padded) = places) by (rewrite length_drop; lia).
    specialize (Hparse (take (length padded - places) padded) (drop (length padded - places) padded)).
    destruct (drop (length padded - places) padded) as [|d f] eqn:Ed; [simpl in Hlen; lia|].
    rewrite <- Ed in *. apply Hparse; [|by apply Forall_take|by apply Forall_drop|done|].
    + intros E. apply (f_equal length) in E. rewrite length_take in E. simpl in E. lia.
    + rewrite take_drop. unfold padded. by rewrite pad_start_value.
Qed.

(** ** Lemmas: where a price goes *)

Lemma add_target_elem registry cluster m key m' s t :
  add_target registry cluster m key = Ok m' ->
  t ∈ default [] (jget s m') <-> t ∈ default [] (jget s m) \/
    exists p, parseLedgerAssetKey key = Ok p /\ s = to_upper (symbolOf registry key) /\ t = (cluster, p.2).
Proof.
  unfold add_target. destruct (parseLedgerAssetKey key) as [p|] eqn:E; [|done]. intros [= <-].
  destruct (decide (s = to_upper (symbolOf registry key))) as [->|Hne].
  - rewrite jget_jset_eq. simpl. rewrite elem_of_app, list_elem_of_singleton. naive_solver.
  - rewrite jget_jset_ne by done. naive_solver.
Qed.

Definition target_of (registry : AssetRegistry) (cluster : Cluster) (ks : list string) (s : string) (t : Target) : Prop :=
  exists key p, key ∈ ks /\ parseLedgerAssetKey key = Ok p /\ s = to_upper (symbolOf registry key) /\ t = (cluster, p.2).

Lemma add_targets_elem registry cluster ks m m' s t :
  add_targets registry cluster ks m = Ok m' ->
  t ∈ default [] (jget s m') <-> t ∈ default [] (jget s m) \/ target_of registry cluster ks s t.
Proof.
  revert m. induction ks as [|key ks IH]; intros m; simpl.
  - intros [= <-]. split; [auto|]. intros [?|(? & ? & Hk & _)]; [done|set_solver].
  - intros Hm. inv_ok. erewrite IH by done. rewrite add_target_elem by done. unfold target_of. split.
    + intros [[?|(p & ?)]|(k & p & Hk & ?)]; [by left|right; exists key, p; split; [set_solver|done]|].
      right. exists k, p. split; [set_solver|done].
    + intros [?|(k & p & [->|Hk]%elem_of_cons & ?)]; [by left; left|left; right; by exists p|].
      right. by exists k, p.
Qed.

Lemma targets_from_elem clusters m m' s t :
  targets_from clusters m = Ok m' ->
  t ∈ default [] (jget s m') <-> t ∈ default [] (jget s m) \/
    exists cluster registry, (cluster, registry) ∈ clusters /\ target_of registry cluster (keys registry) s t.
Proof.
  revert m. induction clusters as [|[cluster registry] clusters IH]; intros m; simpl.
  - intros [= <-]. split; [auto|]. intros [?|(? & ? & Hin & _)]; [done|set_solver].
  - intros Hm. inv_ok. erewrite IH by done. rewrite add_targets_elem by done. split.
    + intros [[?|?]|(c & r & Hin & ?)]; [by left|right; exists cluster, registry; split; [set_solver|done]|].
      right. exists c, r. split; [set_solver|done].
    + intros [?|(c & r & [[= -> ->]|Hin]%elem_of_cons & ?)]; [by left; left|by left; right|].
      right. by exists c, r.
Qed.

(** Which rows a cycle appends: an asset of a configured registry is given the price of a
    quote for its symbol, upper case, in every cluster alike and at the cycle's instant,
    and nothing else is recorded. *)
Definition priced (clusters : list (Cluster * AssetRegistry)) (now : Z) (quotes : list Quote) (row : TickRow) : Prop :=
  exists quote registry key c, quote ∈ quotes /\ (tk_cluster row, registry) ∈ clusters /\ key ∈ keys registry /\
    parseLedgerAssetKey key = Ok (c, tk_asset row) /\ to_upper (symbolOf registry key) = to_upper (q_symbol quote) /\
    tk_priceUsd row = q_priceUsd quote /\ tk_recordedAt row = now.

Lemma ticks_of_elem clusters m now quotes row :
  targets clusters = Ok m -> row ∈ ticks_of m now quotes <-> priced clusters now quotes row.
Proof.
  intros Hm. unfold ticks_of, priced. rewrite list_elem_of_join. split.
  - intros (rows & Hrow & (quote & -> & Hq)%list_elem_of_fmap). apply list_elem_of_fmap in Hrow as (t & -> & Ht).
    apply (targets_from_elem _ _ _ _ _ Hm) in Ht as [Ht|(c & r & Hin & key & [c' a] & Hk & Hp & Hs & ->)]; [set_solver|].
    exists quote, r, key, c'. by split_and!.
  - intros (quote & r & key & c & Hq & Hin & Hk & Hp & Hs & Hprice & Hat).
    eexists. split; [|by apply list_elem_of_fmap_2].
    destruct row as [rc ra rp rt]. simpl in *. subst rp rt.
    apply (list_elem_of_fmap_2 (fun target : Target => mkTickRow target.1 target.2 (q_priceUsd quote) now) _ (rc, ra)).
    apply (targets_from_elem _ _ _ _ _ Hm). right. exists rc, r. split; [done|]. exists key, (c, ra). by split_and!.
Qed.

(** A cycle prices by symbol. It asks its source once, for the symbols of the configured
    assets; when the source fails the table is left as it was, and otherwise exactly the
    priced rows are added. *)
Theorem cycle_records_quotes `{PriceSource} clusters now rows bySymbol :
  targets clusters = Ok bySymbol -> bySymbol <> [] ->
  match fetch bySymbol.*1 with
  | Throw _ => runOnce clusters now rows = Ok rows
  | Ok quotes =>
      exists new, runOnce clusters now rows = Ok (rows ++ new) /\
        forall row, row ∈ new <-> priced clusters now quotes row
  end.
Proof.
  intros Hm Hne. unfold runOnce. rewrite Hm. simpl. destruct bySymbol as [|b m]; [done|].
  destruct (fetch (b :: m).*1) as [quotes|]; [|done]. eexists. split; [done|].
  intros row. by apply ticks_of_elem.
Qed.

(** ** Witnesses *)

Lemma pyth_price_exact_witness :
  exists t, scale (text_of "10205123456") (-8) = Ok t /\ parseUsd t = Ok (1 * (10205123456 * 10 ^ 6 / 10 ^ 8)).
Proof. apply (pyth_price_exact (text_of "10205123456") (-8) false (text_of "10205123456") eq_refl). lia. Defined.

Definition demo_priced : list (Cluster * AssetRegistry) :=
  match createAssetRegistry testnet 9 [mkTokenAsset "SOL" "Es9vMFrzaCERmJfrF4H2FYD4KCoNkY11McCe8BenwNYB" 9] with
  | Ok r => [(testnet, r)]
  | Throw _ => []
  end.

Definition demo_source : PriceSource := createStaticSource [("SOL", "102.05")].

Lemma cycle_records_quotes_witness :
  exists new, @runOnce demo_source demo_priced 7 [] = Ok new /\
    forall row, row ∈ new <-> priced demo_priced 7 [mkQuote "SOL" (text_of "102.05")] row.
Proof.
  destruct (@cycle_records_quotes demo_source demo_priced 7 []
    [("SOL", [(testnet, "SOL"); (testnet, "Es9vMFrzaCERmJfrF4H2FYD4KCoNkY11McCe8BenwNYB")])] eq_refl ltac:(discriminate))
    as (new & H & Hnew). exists new. split; [exact H|exact Hnew].
Defined.

(** A mint that calls itself SOL is recorded at the price of SOL. *)
Example impostor_priced_as_sol :
  @runOnce demo_source demo_priced 7 [] =
    Ok [mkTickRow testnet "SOL" (text_of "102.05") 7;
        mkTickRow testnet "Es9vMFrzaCERmJfrF4H2FYD4KCoNkY11McCe8BenwNYB" (text_of "102.05") 7].
Proof. vm_compute. reflexivity. Qed.
