(* ===== verification/Sweeper.v ===== *)
(** * The sweeper of pending orders

    [apps/api/src/workers/pending-engine-sweeper.ts] around [Gateway.sweep], the resolution
    of one order, with [claimPendingEngine] of [order.repository.ts]. The columns only the
    sweeper uses are kept beside the tables: an order it never claimed has no attempts and
    was last updated when it was created, since nothing else updates an order that stays
    pending. *)

From S2P Require Import Prelude Decimal Assets Market States Orders Store Events Settlement Gateway.
From Stdlib Require Import ZArith Lia.
From stdpp Require Import base list strings gmap.

Open Scope string_scope.
Open Scope list_scope.
Open Scope Z_scope.

(** [sweep_attempts] and [updated_at]. *)
Record Attempts := mkAttempts { at_count : Z; at_updated : Z }.

Definition Rows : Type := list (string * Attempts).

Definition attempts_of (rows : Rows) (o : OrderRecord) : Attempts :=
  default (mkAttempts 0 (o_createdAt o)) (jget (o_id o) rows).

(** The WHERE clause of [claimPendingEngine]. *)
Definition claimable (rows : Rows) (olderThan notAttemptedSince maxAttempts : Z) (o : OrderRecord) : bool :=
  bool_decide (o_status o = Order.PENDING_ENGINE) && (o_createdAt o <? olderThan) &&
  (at_updated (attempts_of rows o) <? notAttemptedSince) && (at_count (attempts_of rows o) <? maxAttempts).

(** [ORDER BY updated_at ASC LIMIT 1] *)
Fixpoint least_recent (rows : Rows) (os : list OrderRecord) : option OrderRecord :=
  match os with
  | [] => None
  | o :: os =>
      match least_recent rows os with
      | None => Some o
      | Some o' => if at_updated (attempts_of rows o') <? at_updated (attempts_of rows o) then Some o' else Some o
      end
  end.

(** The claimed order, its attempts with the one just counted, and the rows. *)
Definition claimPendingEngine (olderThan notAttemptedSince maxAttempts now : Z) (s : Store) (rows : Rows)
  : option (OrderRecord * Attempts * Rows) :=
  o ← least_recent rows (filter (fun o => claimable rows olderThan notAttemptedSince maxAttempts o = true) (orders s));
  let a := mkAttempts (at_count (attempts_of rows o) + 1) now in
  Some (o, a, jset (o_id o) a rows).

Record SweeperDeps := mkSweeperDeps {
  sd_afterMs : Z; sd_intervalMs : Z; sd_maxAttempts : Z; sd_toleranceSeconds : Z
}.

Definition conclusiveAfterMs (d : SweeperDeps) : Z := sd_toleranceSeconds d * 1000 + SKEW_MARGIN_MS.

(** The refusal of [createPendingEngineSweeper]. *)
Definition createPendingEngineSweeper (d : SweeperDeps) : result unit :=
  throw_if (sd_maxAttempts d * sd_intervalMs d <=? conclusiveAfterMs d)
    (GenericError "every stuck order is dead-lettered before never seen can be proven").

Definition claim (d : SweeperDeps) (at_ : Z) : Store -> Rows -> option (OrderRecord * Attempts * Rows) :=
  claimPendingEngine (at_ - sd_afterMs d) (at_ - sd_intervalMs d) (sd_maxAttempts d) at_.

Record DeadLetter := mkDeadLetter { dl_reference : string; dl_idempotencyKey : string; dl_attempts : Z }.

(** What one process and the tables hold. *)
Record Sweeping := mkSweeping {
  sw_store : Store;
  sw_rows : Rows;
  sw_deadLettered : list string;
  sw_letters : list DeadLetter
}.

(** What the market's engine answers about an order, or that the market is not served: the
    journal's entry, and the page of events after a sequence. *)
Definition Ask : Type := OrderRecord -> option (LookupResult * (Z -> option (list EngineEvent))).

Definition resolve (d : SweeperDeps) (ask : Ask) (at_ : Z) (o : OrderRecord) : svc SweepOutcome :=
  match ask o with
  | None => mret deferred
  | Some (lookup, events) => sweep lookup events (sd_toleranceSeconds d) at_ o
  end.

(** The record of an order past its budget: [order.sweepAttempts] is read after the claim. *)
Definition record_letter (d : SweeperDeps) (o : OrderRecord) (a : Attempts) (s : Sweeping) : Sweeping :=
  if (sd_maxAttempts d <=? at_count a + 1) && negb (bool_decide (o_id o ∈ sw_deadLettered s)) then
    match head (filter (fun o' => o_id o' = o_id o) (orders (sw_store s))) with
    | Some current =>
        if bool_decide (o_status current = Order.PENDING_ENGINE) then
          mkSweeping (sw_store s) (sw_rows s) (sw_deadLettered s ++ [o_id o])
            (sw_letters s ++ [mkDeadLetter (o_id o) (o_clientOrderId o) (at_count a + 1)])
        else s
    | None => s
    end
  else s.

Record Counts := mkCounts { n_resolved : nat; n_failed : nat; n_deferred : nat }.

Definition count (outcome : SweepOutcome) (c : Counts) : Counts :=
  match outcome with
  | resolved => mkCounts (S (n_resolved c)) (n_failed c) (n_deferred c)
  | failed => mkCounts (n_resolved c) (S (n_failed c)) (n_deferred c)
  | deferred => mkCounts (n_resolved c) (n_failed c) (S (n_deferred c))
  end.

(** [runOnce]: a round per pair of instants, those of the claim and of the judgement; the
    list has the length of the batch. *)
Fixpoint runOnce (d : SweeperDeps) (ask : Ask) (instants : list (Z * Z)) (c : Counts) (s : Sweeping)
  : Counts * Sweeping :=
  match instants with
  | [] => (c, s)
  | (claimedAt, judgedAt) :: instants =>
      match claim d claimedAt (sw_store s) (sw_rows s) with
      | None => (c, s)
      | Some (o, a, rows) =>
          let '(outcome, store) := resolve d ask judgedAt o (sw_store s) in
          let s := mkSweeping store rows (sw_deadLettered s) (sw_letters s) in
          let c := count (match outcome with Ok r => r | Throw _ => deferred end) c in
          runOnce d ask instants c (record_letter d o a s)
      end
  end.

(** ** What has happened to the rows *)

(** The instant an order of an id was created: orders keep their ids and their date. *)
Definition dated (born : string -> Z) (s : Store) : Prop := Forall (fun o => o_createdAt o = born (o_id o)) (orders s).

(** Rows made by claims of any number of sweepers, on tables that others change between. *)
Inductive claimed (d : SweeperDeps) (born : string -> Z) : Rows -> Prop :=
| claimed_none : claimed d born []
| claimed_one s at_ o a rows rows' :
    claimed d born rows -> dated born s -> claim d at_ s rows = Some (o, a, rows') -> claimed d born rows'.

(** ** Lemmas *)

Lemma least_recent_elem rows os o : least_recent rows os = Some o -> o ∈ os.
Proof.
  revert o. induction os as [|o' os IH]; intros o; simpl; [done|]. destruct (least_recent rows os) as [o2|].
  - case_match; intros [= <-]; [|set_solver]. apply elem_of_cons. right. by apply IH.
  - intros [= <-]. set_solver.
Qed.

Lemma least_recent_least rows os o o' :
  least_recent rows os = Some o -> o' ∈ os -> at_updated (attempts_of rows o) <= at_updated (attempts_of rows o').
Proof.
  revert o. induction os as [|x os IH]; intros o; simpl; [done|].
  destruct (least_recent rows os) as [o2|] eqn:E.
  - destruct (Z.ltb_spec (at_updated (attempts_of rows o2)) (at_updated (attempts_of rows x))); intros [= <-] [->|Hin]%elem_of_cons.
    + lia.
    + by apply IH.
    + lia.
    + specialize (IH o2 eq_refl Hin). lia.
  - intros [= <-] [->|Hin]%elem_of_cons; [lia|]. destruct os as [|y os]; [set_solver|].
    simpl in E. destruct (least_recent rows os); [case_match|]; done.
Qed.

Lemma claim_Some d at_ s rows o a rows' :
  claim d at_ s rows = Some (o, a, rows') ->
  o ∈ orders s /\ o_status o = Order.PENDING_ENGINE /\ o_createdAt o < at_ - sd_afterMs d /\
  at_updated (attempts_of rows o) < at_ - sd_intervalMs d /\ at_count (attempts_of rows o) < sd_maxAttempts d /\
  a = mkAttempts (at_count (attempts_of rows o) + 1) at_ /\ rows' = jset (o_id o) a rows /\
  forall o', o' ∈ orders s -> claimable rows (at_ - sd_afterMs d) (at_ - sd_intervalMs d) (sd_maxAttempts d) o' = true ->
    at_updated (attempts_of rows o) <= at_updated (attempts_of rows o').
Proof.
  unfold claim, claimPendingEngine. intros (x & Hl & [= -> <- <-])%bind_Some.
  pose proof (least_recent_elem _ _ _ Hl) as [Hc Hin]%list_elem_of_filter.
  unfold claimable in Hc. zbool. split_and!; try done.
  intros o' Hin' Hc'. eapply least_recent_least; [done|]. by apply list_elem_of_filter.
Qed.

(** Attempts of one order lie further apart than the interval, counted from its birth. *)
Lemma claimed_spaced d born rows :
  claimed d born rows -> 0 <= sd_intervalMs d ->
  forall id a, jget id rows = Some a ->
    0 < at_count a <= sd_maxAttempts d /\ born id + at_count a * sd_intervalMs d < at_updated a.
Proof.
  intros Hc Hi. induction Hc as [|s at_ o a rows rows' Hc IH Hb Hcl]; [done|].
  apply claim_Some in Hcl as (Hin & _ & _ & Hu & Hn & -> & -> & _). intros id a' Hj.
  destruct (decide (id = o_id o)) as [->|Hne]; [|rewrite jget_jset_ne in Hj by done; by apply IH].
  rewrite jget_jset_eq in Hj. injection Hj as <-. simpl.
  unfold dated in Hb. rewrite Forall_forall in Hb. specialize (Hb o Hin).
  unfold attempts_of in *. destruct (jget (o_id o) rows) as [a0|] eqn:E; simpl in *.
  - specialize (IH _ _ E). lia.
  - lia.
Qed.

(** ** Properties *)

(** The budget covers the proof. With a configuration the sweeper accepts, whatever other
    sweepers claimed before and whatever happened to the tables, the last attempt at an
    order comes when its age exceeds the engine's tolerance and the skew: if the journal
    then says the order was never seen, the order is failed and not put off. Until then no
    order is claimed more often than the budget, and a claim takes the one attempted
    longest ago. *)
Theorem last_attempt_is_conclusive d born s at_ rows o a rows' :
  createPendingEngineSweeper d = Ok tt -> 0 <= sd_intervalMs d -> claimed d born rows -> dated born s ->
  claim d at_ s rows = Some (o, a, rows') ->
  at_count a <= sd_maxAttempts d /\
  (forall o', o' ∈ orders s ->
     claimable rows (at_ - sd_afterMs d) (at_ - sd_intervalMs d) (sd_maxAttempts d) o' = true ->
     at_updated (attempts_of rows o) <= at_updated (attempts_of rows o')) /\
  (at_count a = sd_maxAttempts d ->
     conclusiveAfterMs d < at_ - o_createdAt o /\
     forall ask events judgedAt st, ask o = Some (never_seen, events) -> at_ <= judgedAt ->
       resolve d ask judgedAt o st = (failNeverSeen o ≫= fun _ => mret failed) st).
Proof.
  intros Hd Hi Hc Hb Hcl. apply throw_if_Ok, Z.leb_gt in Hd.
  pose proof (claimed_spaced d born rows' (claimed_one _ _ _ _ _ _ _ _ Hc Hb Hcl) Hi (o_id o) a) as Hs.
  apply claim_Some in Hcl as (Hin & _ & _ & _ & _ & Ha & -> & Hleast).
  rewrite jget_jset_eq in Hs. specialize (Hs eq_refl) as [Hn Hs]. unfold dated in Hb. rewrite Forall_forall in Hb.
  rewrite <- (Hb o Hin) in Hs. split; [lia|]. split; [done|]. intros Hlast. subst a. simpl in *.
  assert (Hage : conclusiveAfterMs d < at_ - o_createdAt o) by (rewrite Hlast in Hs; lia).
  split; [done|]. intros ask events judgedAt st Hask Hj. unfold resolve. rewrite Hask. simpl.
  destruct (Z.leb_spec (judgedAt - o_createdAt o) (sd_toleranceSeconds d * 1000 + SKEW_MARGIN_MS)); [|done].
  unfold conclusiveAfterMs in Hage. lia.
Qed.

(** A dead letter touches nothing but itself: the tables, the hold in them included, stay. *)
Theorem letter_keeps_tables d o a s : sw_store (record_letter d o a s) = sw_store s /\ sw_rows (record_letter d o a s) = sw_rows s.
Proof. unfold record_letter. repeat case_match; done. Qed.

(** ** Witnesses *)

Definition demo_deps : SweeperDeps := mkSweeperDeps 5000 100000 4 300.

Definition unseen : Ask := fun _ => Some (never_seen, fun _ => None).

Definition demo_born : Z := o_createdAt demo_order.

(** Four cycles a little more than the interval apart. *)
Definition demo_cycle (n : Z) (s : Sweeping) : Sweeping :=
  let at_ := demo_born + n * 100001 in (runOnce demo_deps unseen [(at_, at_)] (mkCounts 0 0 0) s).2.

Definition demo_start : Sweeping := mkSweeping demo_pending [] [] [].

(** The letter of an order is written one attempt early, naming an attempt that was not
    made: with a configuration the sweeper accepts, an order the engine never saw becomes a
    dead letter at its third of four attempts, before that can be proven, and at the fourth
    it is failed and its hold returned. *)
Example dead_letter_comes_early :
  createPendingEngineSweeper demo_deps = Ok tt /\
  let third := demo_cycle 3 (demo_cycle 2 (demo_cycle 1 demo_start)) in
  sw_letters third = [mkDeadLetter (o_id demo_order) (o_clientOrderId demo_order) 4] /\
  map at_count (sw_rows third).*2 = [3] /\
  map o_status (orders (sw_store third)) = [Order.PENDING_ENGINE] /\
  map o_status (orders (sw_store (demo_cycle 4 third))) = [Order.FAILED].
Proof. vm_compute. auto. Qed.

Lemma last_attempt_is_conclusive_witness :
  exists a rows', claim demo_deps (demo_born + 100001) demo_pending [] = Some (demo_order, a, rows') /\
    at_count a <= sd_maxAttempts demo_deps.
Proof.
  eexists _, _. split; [vm_compute; reflexivity|].
  refine (proj1 (last_attempt_is_conclusive demo_deps (fun _ => demo_born) demo_pending (demo_born + 100001) []
    demo_order _ _ eq_refl _ (claimed_none _ _) _ _)).
  - vm_compute. discriminate.
  - repeat constructor.
  - vm_compute. reflexivity.
Defined.
