(* ===== verification/Wire.v ===== *)
(** * What the gateway and the engine send each other

    The texts of [apps/api/src/services/trading/engine-client.ts]: the JSON of a command,
    with its integers exact, the reading of an answer's JSON, the string that is signed,
    and the escaping of an order id in a path. [JSON.parse] is a parameter of the reading,
    which needs only what reaches it; the digest is a parameter too. A text is of code
    points below 256, as everywhere in this library. *)

From S2P Require Import Prelude Decimal Assets Market.
From Stdlib Require Import ZArith Lia Ascii.
From stdpp Require Import base sets list strings.

Open Scope string_scope.
Open Scope list_scope.
Open Scope Z_scope.

#[local] Set Warnings "-register-all".

(** ** Values *)

(** A JavaScript value as JSON has it, or a bigint. A number is the integer it is, if it is
    one, and its text. Fields are in enumeration order. *)
Inductive json :=
| j_null
| j_bool (b : bool)
| j_number (n : option Z) (shown : string)
| j_bigint (n : Z)
| j_string (s : string)
| j_array (items : list json)
| j_object (fields : list (string * json)).

(** A number that is an integer written in decimal. *)
Definition j_int (n : Z) : json := j_number (Some n) (String.string_of_list_ascii (to_text n)).

(** ** [String.prototype.replace] with a global pattern *)

(** [m] matches at the head of a text: what replaces the match, and how many characters it
    takes beyond the first. [skip] characters are part of a match already replaced. *)
Fixpoint replace_all (m : text -> option (text * nat)) (skip : nat) (t : text) : text :=
  match t with
  | [] => []
  | a :: t' =>
      match skip with
      | S skip => replace_all m skip t'
      | O => match m t with
             | Some (by_, taken) => by_ ++ replace_all m taken t'
             | None => a :: replace_all m 0 t'
             end
      end
  end.

Fixpoint strip_prefix (p t : text) : option text :=
  match p, t with
  | [], _ => Some t
  | a :: p, b :: t => if decide (a = b) then strip_prefix p t else None
  | _ :: _, [] => None
  end.

(** ** [stringifyEngineJson] *)

Definition quote_char : ascii := chr 34.

Definition lower_hex (n : Z) : ascii := if n <? 10 then chr (48 + n) else chr (87 + n).

(** A character inside a JSON string. *)
Definition escape (a : ascii) : text :=
  let n := code a in
  let short c := [chr 92; chr c] in
  if n =? 34 then short 34 else if n =? 92 then short 92
  else if n =? 8 then short 98 else if n =? 9 then short 116 else if n =? 10 then short 110
  else if n =? 12 then short 102 else if n =? 13 then short 114
  else if n <? 32 then text_of "\u00" ++ [lower_hex (n / 16); lower_hex (n mod 16)]
  else [a].

Definition quoted (s : text) : text := quote_char :: concat (map escape s) ++ [quote_char].

Fixpoint commas (parts : list text) : text :=
  match parts with
  | [] => []
  | [p] => p
  | p :: parts => p ++ chr 44 :: commas parts
  end.

(** [JSON.stringify], given the text of a bigint: a finite number is written as its text. *)
Fixpoint JSON_stringify (bigint : Z -> text) (v : json) : text :=
  match v with
  | j_null => text_of "null"
  | j_bool b => text_of (if b then "true" else "false")
  | j_number _ shown => text_of shown
  | j_bigint n => bigint n
  | j_string s => quoted (text_of s)
  | j_array items => chr 91 :: commas (map (JSON_stringify bigint) items) ++ [chr 93]
  | j_object fields =>
      chr 123 :: commas (map (fun '(k, x) => quoted (text_of k) ++ chr 58 :: JSON_stringify bigint x) fields)
        ++ [chr 125]
  end.

(** What the replacer makes of a bigint: the string [__u64__n__]. *)
Definition marked (n : Z) : text := quoted (text_of "__u64__" ++ to_text n ++ text_of "__").

(** [/"__u64__(\d+)__"/] *)
Definition u64_match (t : text) : option (text * nat) :=
  match strip_prefix (quote_char :: text_of "__u64__") t with
  | Some r =>
      let (ds, r') := span is_digit r in
      match strip_prefix (text_of "__" ++ [quote_char]) r' with
      | Some _ => if bool_decide (ds = []) then None else Some (ds, 7 + length ds + 3)%nat
      | None => None
      end
  | None => None
  end.

Definition stringifyEngineJson (v : json) : text := replace_all u64_match 0 (JSON_stringify marked v).

(** ** [parseEngineJson] *)

Definition ends_value (a : ascii) : bool := (code a =? 44) || (code a =? 125) || (code a =? 93).
Definition starts_value (a : ascii) : bool := (code a =? 58) || (code a =? 91) || (code a =? 44).

(** The pattern of a long integer: a colon, a bracket or a comma; white space; an optional
    minus and sixteen digits or more; and then, not part of the match, white space and a
    comma, a brace or a bracket that closes. *)
Definition long_match (t : text) : option (text * nat) :=
  match t with
  | a :: t' =>
      if starts_value a then
        let (ws, r) := span is_space t' in
        let (sign, r1) := match r with
                          | m :: r1 => if decide (m = minus_char) then ([m], r1) else ([], r)
                          | [] => ([], r)
                          end in
        let (ds, r2) := span is_digit r1 in
        if (16 <=? length ds)%nat &&
           match (span is_space r2).2 with b :: _ => ends_value b | [] => false end
        then Some (a :: ws ++ quote_char :: sign ++ ds ++ [quote_char], length ws + length sign + length ds)%nat
        else None
      else None
  | [] => None
  end.

(** The text that [JSON.parse] is given. *)
Definition quote_long (t : text) : text := replace_all long_match 0 t.

Definition parseEngineJson (JSON_parse : text -> option json) (t : text) : option json := JSON_parse (quote_long t).

(** ** [encodeURIComponent] *)

Definition unreserved (a : ascii) : bool :=
  let n := code a in
  is_digit a || ((65 <=? n) && (n <=? 90)) || ((97 <=? n) && (n <=? 122)) ||
  bool_decide (a ∈ text_of "-_.!~*'()").

Definition upper_hex (n : Z) : ascii := if n <? 10 then chr (48 + n) else chr (55 + n).

Definition percent (byte : Z) : text := [chr 37; upper_hex (byte / 16); upper_hex (byte mod 16)].

(** The bytes of a code point below 256 in UTF-8, each escaped. *)
Definition encode_char (a : ascii) : text :=
  let n := code a in
  if unreserved a then [a]
  else if n <? 128 then percent n
  else percent (192 + n / 64) ++ percent (128 + n mod 64).

Definition encodeURIComponent (s : string) : string :=
  String.string_of_list_ascii (concat (map encode_char (text_of s))).

(** ** [canonicalString] *)

Definition newline : ascii := chr 10.
Definition line (s rest : string) : string := s +:+ String newline rest.

(** [digest] is the SHA-256 of a text's bytes, in hexadecimal. *)
Definition canonicalString (digest : text -> string) (method pathAndQuery requestId : string) (body : text)
  (timestamp : Z) : string :=
  line method (line pathAndQuery (line requestId (line (digest body)
    (String.string_of_list_ascii (to_text timestamp))))).

(** ** What crosses unharmed *)

(** A string that JSON writes as it is, between quotes. *)
Definition plain (s : string) : bool :=
  forallb (fun a => (32 <=? code a) && negb (code a =? 34) && negb (code a =? 92)) (text_of s).

(** A plain string that does not begin like a marker. *)
Definition unmarked (s : string) : bool :=
  plain s && bool_decide (strip_prefix (text_of "__u64__") (text_of s) = None).

(** Values that can be sent: bigints are not negative, and no string is taken for one. *)
Fixpoint sendable (v : json) : bool :=
  match v with
  | j_null | j_bool _ => true
  | j_number _ shown => plain shown
  | j_bigint n => 0 <=? n
  | j_string s => unmarked s
  | j_array items => forallb sendable items
  | j_object fields => forallb (fun '(k, x) => unmarked k && sendable x) fields
  end.

(** The pattern matches nowhere in the text, before a closing quote. *)
Fixpoint undisturbed (t : text) : bool :=
  match t with
  | [] => true
  | _ :: t' => bool_decide (long_match (t ++ [quote_char]) = None) && undisturbed t'
  end.

(** What the engine writes: its integers are the bigints. *)
Fixpoint deliverable (v : json) : bool :=
  match v with
  | j_null | j_bool _ | j_bigint _ => true
  | j_number _ _ => false
  | j_string s => plain s && undisturbed (text_of s)
  | j_array items => forallb deliverable items
  | j_object fields => forallb (fun '(k, x) => plain k && undisturbed (text_of k) && deliverable x) fields
  end.

(** What such a value is received as: an integer of sixteen digits or more as a string. *)
Fixpoint received (v : json) : json :=
  match v with
  | j_bigint n =>
      if (16 <=? length (to_digits (Z.abs n)))%nat then j_string (String.string_of_list_ascii (to_text n)) else j_int n
  | j_array items => j_array (map received items)
  | j_object fields => j_object (map (fun '(k, x) => (k, received x)) fields)
  | v => v
  end.

(** ** Lemmas: induction *)

Lemma json_ind' (P : json -> Prop) :
  P j_null -> (forall b, P (j_bool b)) -> (forall n s, P (j_number n s)) -> (forall n, P (j_bigint n)) ->
  (forall s, P (j_string s)) -> (forall items, Forall P items -> P (j_array items)) ->
  (forall fields, Forall (fun kv => P kv.2) fields -> P (j_object fields)) -> forall v, P v.
Proof.
  intros Hn Hb Hm Hi Hs Ha Ho. fix IH 1. intros [|b|n s|n|s|items|fields].
  - exact Hn.
  - apply Hb.
  - apply Hm.
  - apply Hi.
  - apply Hs.
  - apply Ha. induction items as [|x items IHi]; constructor; [apply IH|apply IHi].
  - apply Ho. induction fields as [|[k x] fields IHf]; constructor; [apply IH|apply IHf].
Qed.

(** ** Lemmas: replacing *)

Lemma replace_skip m l t : replace_all m (length l) (l ++ t) = replace_all m 0 t.
Proof. induction l as [|a l IH]; simpl; [done|exact IH]. Qed.

Lemma replace_quiet m l r :
  Forall (fun a => forall t, m (a :: t) = None) l -> replace_all m 0 (l ++ r) = l ++ replace_all m 0 r.
Proof. induction 1 as [|a l Ha Hl IH]; simpl; [done|]. by rewrite Ha, IH. Qed.

Lemma replace_one m a r : m (a :: r) = None -> replace_all m 0 (a :: r) = a :: replace_all m 0 r.
Proof. intros H. cbn [replace_all]. by rewrite H. Qed.

(** [q] is what becomes of [p], whatever follows that is [ok]. *)
Definition passes (m : text -> option (text * nat)) (ok : text -> Prop) (p q : text) : Prop :=
  forall rest, ok rest -> replace_all m 0 (p ++ rest) = q ++ replace_all m 0 rest.

(** Parts between commas pass if each does behind what is before it. *)
Lemma passes_commas m ok (C : ascii -> Prop) c ps qs :
  C (chr 44) -> C c -> (forall rest, ok (chr 44 :: rest)) ->
  Forall2 (fun p q => forall a, C a -> passes m ok (a :: p) (a :: q)) ps qs ->
  (ps = [] -> passes m ok [c] [c]) ->
  passes m ok (c :: commas ps) (c :: commas qs).
Proof.
  intros H44 Hc Hok H. revert c Hc. induction H as [|p q ps qs Hp H IH]; intros c Hc Hnil; [by apply Hnil|].
  destruct H as [|p' q' ps qs Hp' H]; [by apply Hp|].
  assert (Hrest : passes m ok (chr 44 :: commas (p' :: ps)) (chr 44 :: commas (q' :: qs))) by (by apply IH).
  intros rest Hr. specialize (Hp c Hc (chr 44 :: commas (p' :: ps) ++ rest) (Hok _)).
  specialize (Hrest rest Hr). cbn [commas]. rewrite <- !app_comm_cons in *. rewrite <- !app_assoc in *.
  etrans; [exact Hp|]. simpl. do 2 f_equal. exact Hrest.
Qed.

(** ** Lemmas: strings and digits *)

Definition plain_char (a : ascii) : bool := (32 <=? code a) && negb (code a =? 34) && negb (code a =? 92).

Lemma forallb_Forall_eq {A} (f : A -> bool) l : forallb f l = true <-> Forall (fun a => f a = true) l.
Proof.
  induction l as [|a l IH]; simpl; [split; [constructor|done]|]. rewrite andb_true_iff, IH.
  by rewrite Forall_cons.
Qed.

Lemma quoted_plain t : forallb plain_char t = true -> quoted t = quote_char :: t ++ [quote_char].
Proof.
  intros H. unfold quoted. do 2 f_equal. induction t as [|a t IH]; [done|]. cbn [forallb] in H.
  apply andb_true_iff in H as [Ha Ht]. cbn [map concat]. rewrite (IH Ht). unfold plain_char in Ha. zbool. unfold escape.
  repeat match goal with |- context [code a =? ?n] => rewrite (proj2 (Z.eqb_neq (code a) n)) by lia end.
  by rewrite (proj2 (Z.ltb_ge _ _)) by lia.
Qed.

Lemma plain_no_quote t : forallb plain_char t = true -> Forall (fun a => a <> quote_char) t.
Proof.
  intros H%forallb_Forall_eq. eapply Forall_impl; [exact H|]. intros a Ha ->. discriminate Ha.
Qed.

Lemma digits_plain t : Forall (fun a => is_digit a = true) t -> forallb plain_char t = true.
Proof.
  intros H. apply forallb_Forall_eq. eapply Forall_impl; [exact H|]. intros a Ha. unfold is_digit in Ha.
  unfold plain_char. zbool. rewrite !andb_true_iff, !negb_true_iff, !Z.eqb_neq, Z.leb_le. lia.
Qed.

(** The text of an integer is its sign and its digits. *)
Lemma to_text_sign n :
  to_text n = (if n <? 0 then [minus_char] else []) ++ to_digits (Z.abs n).
Proof.
  unfold to_text. destruct (Z.ltb_spec n 0); simpl; [by rewrite Z.abs_neq by lia|by rewrite Z.abs_eq by lia].
Qed.

Lemma to_text_plain n : forallb plain_char (to_text n) = true.
Proof.
  rewrite to_text_sign, forallb_app, (digits_plain (to_digits _)) by (apply to_digits_digits; lia). by destruct (n <? 0).
Qed.

Lemma strip_prefix_app p t : strip_prefix p (p ++ t) = Some t.
Proof. induction p as [|a p IH]; simpl; [done|]. by rewrite decide_True. Qed.

Lemma strip_prefix_stop p s x r : x ∉ p -> strip_prefix p s = None -> strip_prefix p (s ++ x :: r) = None.
Proof.
  revert s. induction p as [|a p IH]; intros s Hx; [by destruct s|]. apply not_elem_of_cons in Hx as [Ha Hx].
  destruct s as [|b s]; simpl; [by rewrite decide_False|]. destruct (decide (a = b)); [by apply IH|done].
Qed.

(** ** Lemmas: sending *)

Definition not_marker (rest : text) : Prop := match rest with a :: _ => a <> chr 95 | [] => True end.

Lemma u64_quiet a t : a <> quote_char -> u64_match (a :: t) = None.
Proof. intros Ha. unfold u64_match. cbn [strip_prefix]. by rewrite decide_False. Qed.

Lemma u64_quiet_all l : Forall (fun a => a <> quote_char) l -> Forall (fun a => forall t, u64_match (a :: t) = None) l.
Proof. intros H. eapply Forall_impl; [exact H|]. intros a Ha t. by apply u64_quiet. Qed.

Lemma u64_unmarked t : strip_prefix (text_of "__u64__") t = None -> u64_match (quote_char :: t) = None.
Proof. intros H. unfold u64_match. cbn [strip_prefix]. rewrite decide_True by done. by rewrite H. Qed.

Lemma u64_marked n rest :
  0 <= n -> u64_match (marked n ++ rest) = Some (to_text n, 7 + length (to_text n) + 3)%nat.
Proof.
  intros Hn. unfold marked. rewrite quoted_plain by (rewrite !forallb_app, to_text_plain; done).
  unfold u64_match. rewrite <- !app_comm_cons. cbn [strip_prefix]. rewrite decide_True by done.
  rewrite <- !app_assoc, strip_prefix_app. rewrite to_text_sign, (proj2 (Z.ltb_ge _ _)) by lia. cbn [app].
  rewrite Z.abs_eq by lia. rewrite (span_app _ _ _ (to_digits_digits n Hn)) by done.
  pose proof (to_digits_nonempty n Hn). rewrite bool_decide_eq_false_2 by done. done.
Qed.

Lemma u64_string s : unmarked s = true -> passes u64_match not_marker (quoted (text_of s)) (quoted (text_of s)).
Proof.
  intros [Hp Hm]%andb_true_iff rest Hr. apply bool_decide_eq_true in Hm. rewrite quoted_plain by exact Hp.
  rewrite <- !app_comm_cons, <- !app_assoc. rewrite replace_one.
  - f_equal. rewrite replace_quiet by (by apply u64_quiet_all, plain_no_quote). f_equal. simpl app.
    apply replace_one, u64_unmarked. destruct rest as [|a rest]; [done|].
    change (text_of "__u64__") with (chr 95 :: text_of "_u64__"). cbn [strip_prefix]. rewrite decide_False; [done|]. intros Ha. exact (Hr (eq_sym Ha)).
  - apply u64_unmarked, strip_prefix_stop; [|done]. by apply (bool_decide_eq_false_1 (_ ∈ _)).
Qed.

Lemma passes_quiet m ok l : Forall (fun a => forall t, m (a :: t) = None) l -> passes m ok l l.
Proof. intros H rest _. by apply replace_quiet. Qed.

Lemma passes_app m ok p q p' q' :
  passes m ok p q -> passes m ok p' q' -> (forall rest, ok rest -> ok (p' ++ rest)) -> passes m ok (p ++ p') (q ++ q').
Proof. intros H H' Hok rest Hr. rewrite <- !app_assoc. rewrite H by auto. by rewrite H'. Qed.

(** A character that is no quote does not matter before what passes. *)
Lemma u64_cons a p q : a <> quote_char -> passes u64_match not_marker p q -> passes u64_match not_marker (a :: p) (a :: q).
Proof. intros Ha H rest Hr. rewrite <- !app_comm_cons, replace_one by (by apply u64_quiet). by rewrite H. Qed.

Lemma u64_bigint n : 0 <= n -> passes u64_match not_marker (marked n) (to_text n).
Proof.
  intros Hn rest _. pose proof (u64_marked n rest Hn) as Hm. unfold marked in *.
  rewrite quoted_plain in * by (rewrite !forallb_app, to_text_plain; done). rewrite <- !app_comm_cons in *.
  cbn [replace_all]. rewrite Hm. f_equal.
  replace (7 + length (to_text n) + 3)%nat
    with (length ((text_of "__u64__" ++ to_text n ++ text_of "__") ++ [quote_char]))
    by (rewrite !length_app; simpl; lia).
  apply replace_skip.
Qed.

Lemma sends v :
  sendable v = true -> passes u64_match not_marker (JSON_stringify marked v) (JSON_stringify to_text v).
Proof.
  induction v as [|b|n sh|n|s|items IH|fields IH] using json_ind'; cbn [sendable JSON_stringify]; intros H.
  - apply passes_quiet, u64_quiet_all. by apply (plain_no_quote (text_of "null")).
  - apply passes_quiet, u64_quiet_all. by destruct b; apply plain_no_quote.
  - apply passes_quiet, u64_quiet_all, plain_no_quote, H.
  - apply u64_bigint. lia.
  - by apply u64_string.
  - rewrite !app_comm_cons. apply (passes_app _ _ _ _ [chr 93]); [|by apply passes_quiet, u64_quiet_all; repeat constructor|done].
    apply (passes_commas _ _ (fun a => a <> quote_char)); [done..| |].
    + apply forallb_Forall_eq in H. induction H as [|x items Hx H IHi]; [by constructor|].
      apply Forall_cons in IH as [Hi IH]. constructor; [|by apply IHi]. intros a Ha. by apply u64_cons, Hi.
    + intros _. by apply passes_quiet, u64_quiet_all; repeat constructor.
  - rewrite !app_comm_cons. apply (passes_app _ _ _ _ [chr 125]); [|by apply passes_quiet, u64_quiet_all; repeat constructor|done].
    apply (passes_commas _ _ (fun a => a <> quote_char)); [done..| |].
    + apply forallb_Forall_eq in H. induction H as [|[k x] fields Hx H IHi]; [by constructor|].
      apply andb_true_iff in Hx as [Hk Hx]. apply Forall_cons in IH as [Hi IH]. constructor; [|by apply IHi].
      intros a Ha. apply u64_cons; [done|]. apply passes_app; [by apply u64_string| |done].
      apply u64_cons; [done|]. by apply Hi.
    + intros _. by apply passes_quiet, u64_quiet_all; repeat constructor.
Qed.

(** ** Lemmas: receiving *)

Definition closes (rest : text) : Prop := match rest with a :: _ => ends_value a = true | [] => False end.

Lemma long_quiet a t : starts_value a = false -> long_match (a :: t) = None.
Proof. intros Ha. unfold long_match. by rewrite Ha. Qed.

Lemma long_quiet_all l :
  Forall (fun a => starts_value a = false) l -> Forall (fun a => forall t, long_match (a :: t) = None) l.
Proof. intros H. eapply Forall_impl; [exact H|]. intros a Ha t. by apply long_quiet. Qed.

(** Nothing long begins behind a separator that is followed by something else. *)
Lemma long_next a b t : is_space b = false -> b <> minus_char -> is_digit b = false -> long_match (a :: b :: t) = None.
Proof.
  intros Hs Hm Hd. unfold long_match. destruct (starts_value a); [|done]. cbn [span]. rewrite Hs.
  rewrite decide_False by done. cbn [span]. rewrite Hd. done.
Qed.

Lemma closes_spans rest : closes rest -> span is_digit rest = ([], rest) /\ span is_space rest = ([], rest) /\
  match rest with b :: _ => ends_value b | [] => false end = true.
Proof.
  destruct rest as [|b rest]; [done|]. unfold closes. intros Hb. split_and!; [| |exact Hb]; cbn [span];
    [assert (is_digit b = false) as ->; [|done]|assert (is_space b = false) as ->; [|done]];
    unfold ends_value, is_digit, is_space in *; lia.
Qed.

Lemma long_digits sign ds rest c :
  starts_value c = true -> closes rest -> (sign = [] \/ sign = [minus_char]) -> ds <> [] ->
  Forall (fun a => is_digit a = true) ds ->
  long_match (c :: (sign ++ ds) ++ rest) =
    if (16 <=? length ds)%nat then Some (c :: quote_char :: sign ++ ds ++ [quote_char], length sign + length ds)%nat
    else None.
Proof.
  intros Hc Hr Hsign Hne Hds. destruct (closes_spans rest Hr) as (Hd & Hs & He).
  assert (Hspan : span is_digit (ds ++ rest) = (ds, rest)).
  { apply span_app; [done|]. destruct rest as [|b rest]; [done|]. cbn [span] in Hd.
    destruct (is_digit b); [|done]. by destruct (span is_digit rest). }
  unfold long_match. rewrite Hc. destruct ds as [|d ds]; [done|]. assert (Hdd := proj1 (proj1 (Forall_cons _ _ _) Hds)).
  assert (Hsp : is_space d = false) by (by apply digit_not_space).
  assert (Hm := nonzero_digit_not_minus d Hdd). apply bool_decide_eq_false in Hm.
  destruct Hsign as [-> | ->]; cbn [app span]; [rewrite Hsp, decide_False by done|].
  - rewrite app_comm_cons, Hspan, Hs. cbn [snd]. rewrite He, andb_true_r. simpl length. by rewrite Nat.add_0_l.
  - change (is_space minus_char) with false. cbv iota. rewrite decide_True by done. rewrite app_comm_cons, Hspan, Hs. cbn [snd].
    by rewrite He, andb_true_r.
Qed.

Lemma long_int c n rest :
  starts_value c = true -> closes rest ->
  long_match (c :: to_text n ++ rest) =
    if (16 <=? length (to_digits (Z.abs n)))%nat
    then Some (c :: quote_char :: to_text n ++ [quote_char], length (to_text n)) else None.
Proof.
  intros Hc Hr. rewrite to_text_sign, long_digits; try done; [|by destruct (n <? 0); auto|apply to_digits_nonempty; lia|
    apply to_digits_digits; lia].
  by rewrite <- !app_assoc, length_app.
Qed.

Lemma span_stop p s x : p x = false -> exists l s', s = l ++ s' /\ forall r, span p (s ++ x :: r) = (l, s' ++ x :: r).
Proof.
  intros Hx. induction s as [|a s (l & s' & -> & IH)]; [exists [], []; split; [done|]; intros r; simpl; by rewrite Hx|].
  destruct (p a) eqn:Ha.
  - exists (a :: l), s'. split; [done|]. intros r. cbn [app span]. by rewrite Ha, IH.
  - exists [], (a :: l ++ s'). split; [done|]. intros r. cbn [app span]. by rewrite Ha.
Qed.

Lemma long_match_stops a t rest :
  long_match ((a :: t) ++ [quote_char]) = None -> long_match ((a :: t) ++ quote_char :: rest) = None.
Proof.
  unfold long_match. cbn [app]. destruct (starts_value a); [|done].
  destruct (span_stop is_space t quote_char eq_refl) as (ws & r & _ & Hws). rewrite !Hws.
  destruct r as [|m r].
  - cbn [app]. rewrite !decide_False by done. done.
  - cbn [app]. destruct (decide (m = minus_char)).
    + destruct (span_stop is_digit r quote_char eq_refl) as (ds & r2 & _ & Hds). rewrite !Hds.
      destruct (span_stop is_space r2 quote_char eq_refl) as (ws2 & r3 & _ & Hws2). rewrite !Hws2. cbn [snd].
      by destruct r3.
    + rewrite !app_comm_cons. destruct (span_stop is_digit (m :: r) quote_char eq_refl) as (ds & r2 & _ & Hds). rewrite !Hds.
      destruct (span_stop is_space r2 quote_char eq_refl) as (ws2 & r3 & _ & Hws2). rewrite !Hws2. cbn [snd].
      by destruct r3.
Qed.

Lemma undisturbed_passes t rest :
  undisturbed t = true -> replace_all long_match 0 (t ++ quote_char :: rest) = t ++ quote_char :: replace_all long_match 0 rest.
Proof.
  induction t as [|a t IH]; cbn [undisturbed].
  - intros _. cbn [app]. by rewrite replace_one by (by apply long_quiet).
  - intros [Ha%bool_decide_eq_true Ht]%andb_true_iff. rewrite <- !app_comm_cons, replace_one; [by rewrite IH|].
    rewrite app_comm_cons. by apply long_match_stops.
Qed.

(** A string behind a character after which nothing long can begin with a quote. *)
Lemma long_string c s rest :
  plain s = true -> undisturbed (text_of s) = true ->
  replace_all long_match 0 (c :: quoted (text_of s) ++ rest) = c :: quoted (text_of s) ++ replace_all long_match 0 rest.
Proof.
  intros Hp Hu. rewrite quoted_plain by exact Hp. rewrite <- !app_comm_cons, <- !app_assoc.
  rewrite replace_one by (by apply long_next). rewrite replace_one by (by apply long_quiet). cbn [app].
  by rewrite undisturbed_passes.
Qed.

Lemma text_quiet t : Forall (fun a => starts_value a = false) t -> forall c rest,
  match t with b :: _ => is_space b = false /\ b <> minus_char /\ is_digit b = false | [] => False end ->
  replace_all long_match 0 (c :: t ++ rest) = c :: t ++ replace_all long_match 0 rest.
Proof.
  intros Ht c rest. destruct t as [|b t]; [done|]. intros (Hs & Hm & Hd). cbn [app].
  rewrite replace_one by (by apply long_next). f_equal. apply (replace_quiet _ (b :: t)). by apply long_quiet_all.
Qed.

Lemma to_text_quiet n : Forall (fun a => starts_value a = false) (to_text n).
Proof.
  rewrite to_text_sign. apply Forall_app. split; [by destruct (n <? 0); repeat constructor|].
  eapply Forall_impl; [apply to_digits_digits; lia|]. intros a Ha. unfold is_digit, starts_value in *. lia.
Qed.

(** What comes before a value: a separator. *)
Definition before_value (a : ascii) : Prop := starts_value a = true.

Lemma separator_passes c : passes long_match closes [c] [c].
Proof.
  intros rest Hr. apply replace_one. destruct rest as [|b rest]; [done|]. unfold closes, ends_value in Hr.
  apply long_next; [unfold is_space; lia|intros ->; discriminate Hr|unfold is_digit; lia].
Qed.

(** An object passes whatever follows it, if the values of its fields do. *)
Lemma fields_pass fields rest :
  Forall (fun kv => deliverable kv.2 = true -> forall c, before_value c ->
            passes long_match closes (c :: JSON_stringify to_text kv.2) (c :: JSON_stringify to_text (received kv.2))) fields ->
  deliverable (j_object fields) = true ->
  replace_all long_match 0 (JSON_stringify to_text (j_object fields) ++ rest) =
    JSON_stringify to_text (received (j_object fields)) ++ replace_all long_match 0 rest.
Proof.
  cbn [deliverable received JSON_stringify]. intros IH H. rewrite !app_comm_cons, <- !app_assoc.
  assert (Hlast : replace_all long_match 0 ([chr 125] ++ rest) = [chr 125] ++ replace_all long_match 0 rest)
    by (by apply replace_one, long_quiet).
  rewrite <- Hlast. apply (passes_commas long_match closes (fun _ => True)); [done..| | |done].
  - apply forallb_Forall_eq in H. induction H as [|[k x] fields Hx H IHi]; [by constructor|].
    apply andb_true_iff in Hx as [[Hk Hu]%andb_true_iff Hx]. apply Forall_cons in IH as [Hi IH].
    constructor; [|by apply IHi]. intros a _ rest' Hr. rewrite <- !app_comm_cons, <- !app_assoc.
    rewrite long_string by done. do 2 f_equal. exact (Hi Hx (chr 58) eq_refl rest' Hr).
  - intros _. apply separator_passes.
Qed.

Lemma receives v :
  deliverable v = true -> forall c, before_value c ->
  passes long_match closes (c :: JSON_stringify to_text v) (c :: JSON_stringify to_text (received v)).
Proof.
  induction v as [|b|n sh|n|s|items IH|fields IH] using json_ind'; cbn [deliverable JSON_stringify received];
    intros H c Hc rest Hr; try discriminate H; rewrite <- !app_comm_cons.
  - apply text_quiet; [repeat constructor|by split_and!].
  - apply text_quiet; destruct b; first [by repeat constructor|by split_and!].
  - pose proof (long_int c n rest Hc Hr) as Hl. destruct (16 <=? _)%nat.
    + cbn [JSON_stringify replace_all]. rewrite Hl. cbn [JSON_stringify]. unfold text_of.
      rewrite String.list_ascii_of_string_of_list_ascii, quoted_plain by apply to_text_plain.
      rewrite <- !app_comm_cons. do 2 f_equal. f_equal. apply replace_skip.
    + unfold j_int. cbn [JSON_stringify]. unfold text_of. rewrite String.list_ascii_of_string_of_list_ascii.
      rewrite replace_one by done. f_equal. apply replace_quiet, long_quiet_all, to_text_quiet.
  - apply andb_true_iff in H as [Hp Hu]. by apply long_string.
  - rewrite replace_one by (by apply long_next). f_equal. rewrite !app_comm_cons.
    revert rest Hr. apply (passes_app _ _ _ _ [chr 93]); [|by apply passes_quiet, long_quiet_all; repeat constructor|done].
    apply (passes_commas _ _ before_value); [done..| |].
    + apply forallb_Forall_eq in H. induction H as [|x items Hx H IHi]; [by constructor|].
      apply Forall_cons in IH as [Hi IH]. constructor; [|by apply IHi]. intros a Ha. by apply Hi.
    + intros _. apply separator_passes.
  - rewrite replace_one by (by apply long_next). f_equal.
    refine (fields_pass fields rest _ H). eapply Forall_impl; [exact IH|]. intros kv Hi Hx a Ha. by apply Hi.
Qed.

(** ** Reading values *)

(** [big] *)
Definition big (value : option json) : result Z :=
  match value with
  | Some (j_bigint n) => Ok n
  | Some (j_number (Some n) _) => Ok n
  | Some (j_number None _) => Throw RangeError
  | Some (j_string s) => js_BigInt (text_of s)
  | _ => Throw TypeError
  end.

(** The integers a value has as numbers. *)
Fixpoint numbers (v : json) : list Z :=
  match v with
  | j_number (Some n) _ => [n]
  | j_array items => concat (map numbers items)
  | j_object fields => concat (map (fun '(_, x) => numbers x) fields)
  | _ => []
  end.

Lemma big_to_text n : js_BigInt (to_text n) = Ok n.
Proof.
  assert (Hd := to_digits_digits (Z.abs n) ltac:(lia)). assert (Hne := to_digits_nonempty (Z.abs n) ltac:(lia)).
  assert (Hv := digits_value_to_digits (Z.abs n) ltac:(lia)).
  rewrite to_text_sign. destruct (Z.ltb_spec n 0); cbn [app].
  - rewrite js_BigInt_negative, Hv by done. f_equal. lia.
  - rewrite js_BigInt_of_digits, Hv by done. f_equal. lia.
Qed.

Lemma big_received n : big (Some (received (j_bigint n))) = Ok n.
Proof.
  cbn [received]. destruct (16 <=? _)%nat; [|done]. cbn [big]. unfold text_of.
  by rewrite String.list_ascii_of_string_of_list_ascii, big_to_text.
Qed.

Lemma received_numbers v : deliverable v = true -> Forall (fun n => Z.abs n < 10 ^ 15) (numbers (received v)).
Proof.
  induction v as [|b|n sh|n|s|items IH|fields IH] using json_ind'; cbn [deliverable received numbers]; intros H;
    try (by constructor); try discriminate H.
  - destruct (Nat.leb_spec 16 (length (to_digits (Z.abs n)))); cbn [numbers j_int]; repeat constructor.
    pose proof (digits_value_bounds _ (to_digits_digits (Z.abs n) ltac:(lia))) as [_ Hb].
    rewrite digits_value_to_digits in Hb by lia. eapply Z.lt_le_trans; [exact Hb|]. apply Z.pow_le_mono_r; lia.
  - apply Forall_concat. apply forallb_Forall_eq in H. induction H as [|x items Hx H IHi]; [by constructor|].
    apply Forall_cons in IH as [Hi IH]. constructor; [by apply Hi|by apply IHi].
  - apply Forall_concat. apply forallb_Forall_eq in H. induction H as [|[k x] fields Hx H IHi]; [by constructor|].
    apply Forall_cons in IH as [Hi IH]. apply andb_true_iff in Hx as [_ Hx].
    constructor; [by apply Hi|by apply IHi].
Qed.

(** ** Lemmas: paths and signatures *)

(** [encodeURIComponent] read back, a character at a time. *)
Definition hex_value (a : ascii) : Z := if is_digit a then code a - 48 else code a - 55.

Definition decode_char (t : text) : option (ascii * text) :=
  match t with
  | a :: h :: l :: r =>
      if decide (a = chr 37) then
        let n := 16 * hex_value h + hex_value l in
        if n <? 128 then Some (chr n, r)
        else match r with
             | _ :: h' :: l' :: r => Some (chr (64 * (n - 192) + (16 * hex_value h' + hex_value l' - 128)), r)
             | _ => None
             end
      else Some (a, h :: l :: r)
  | a :: r => Some (a, r)
  | [] => None
  end.

Lemma decode_encode_char a r : decode_char (encode_char a ++ r) = Some (a, r).
Proof. destruct a as [[] [] [] [] [] [] [] []]; first [reflexivity|destruct r as [|? [|? ?]]; reflexivity]. Qed.

Lemma encode_text_inj s t : concat (map encode_char s) = concat (map encode_char t) -> s = t.
Proof.
  assert (Hne : forall a r, encode_char a ++ r <> []).
  { intros a r H. pose proof (decode_encode_char a r) as Hd. by rewrite H in Hd. }
  revert t. induction s as [|a s IH]; intros [|b t] H; cbn [map concat] in H; [done|by destruct (Hne _ _ (eq_sym H))|
    by destruct (Hne _ _ H)|].
  apply (f_equal decode_char) in H. rewrite !decode_encode_char in H. injection H as -> H. by rewrite (IH t).
Qed.

Lemma encodeURIComponent_inj s t : encodeURIComponent s = encodeURIComponent t -> s = t.
Proof.
  intros H%(f_equal text_of). unfold encodeURIComponent, text_of in H.
  rewrite !String.list_ascii_of_string_of_list_ascii in H. apply encode_text_inj in H.
  apply (f_equal String.string_of_list_ascii) in H. by rewrite !String.string_of_list_ascii_of_string in H.
Qed.

(** A character that an escaped text does not have. *)
Definition never_encoded (c : ascii) : bool := bool_decide (c ∈ newline :: text_of "/?&=#").

Lemma encode_char_safe c a : never_encoded c = true -> c ∉ encode_char a.
Proof.
  unfold never_encoded. intros Hc%bool_decide_eq_true. unfold text_of in Hc. cbn in Hc.
  intros Hin. assert (H : Forall (fun c => c ∉ encode_char a) (newline :: text_of "/?&=#")).
  { clear. destruct a as [[] [] [] [] [] [] [] []]; repeat constructor;
      by apply (bool_decide_eq_false_1 (_ ∈ _)). }
  rewrite Forall_forall in H. by apply (H c Hc).
Qed.

Lemma str_includes_text c s : str_includes c s = false <-> c ∉ text_of s.
Proof.
  unfold text_of. induction s as [|a s IH]; simpl; [set_solver|]. rewrite orb_false_iff, bool_decide_eq_false, IH.
  rewrite not_elem_of_cons. naive_solver.
Qed.

Lemma encoded_excludes c s : never_encoded c = true -> str_includes c (encodeURIComponent s) = false.
Proof.
  intros Hc. apply str_includes_text. unfold encodeURIComponent, text_of.
  rewrite String.list_ascii_of_string_of_list_ascii. induction (String.list_ascii_of_string s) as [|a t IH]; simpl; [set_solver|].
  pose proof (encode_char_safe c a Hc). set_solver.
Qed.

Lemma line_inj s t r r' :
  str_includes newline s = false -> str_includes newline t = false -> line s r = line t r' -> s = t /\ r = r'.
Proof.
  intros Hs Ht H%(f_equal (split_first newline)). unfold line in H.
  rewrite !split_first_app in H by done. by injection H.
Qed.

Lemma to_text_inj n m : to_text n = to_text m -> n = m.
Proof. intros H%(f_equal big_int). by rewrite !big_int_to_text in H. Qed.

Lemma quote_long_object fields :
  deliverable (j_object fields) = true ->
  quote_long (JSON_stringify to_text (j_object fields)) = JSON_stringify to_text (received (j_object fields)).
Proof.
  intros H. pose proof (fields_pass fields []) as Hf. rewrite !app_nil_r in Hf. apply Hf; [|done].
  apply Forall_forall. intros kv _ Hx c Hc. by apply receives.
Qed.

Lemma jget_mapped {A B} (f : A -> B) (k : string) (fields : list (string * A)) :
  jget k (map (fun '(k, x) => (k, f x)) fields) = f <$> jget k fields.
Proof. induction fields as [|[k' x] fields IH]; simpl; [done|]. by destruct (decide (k = k')). Qed.

Lemma stringify_sendable v : sendable v = true -> stringifyEngineJson v = JSON_stringify to_text v.
Proof. intros H. unfold stringifyEngineJson. pose proof (sends _ H [] I) as Hs. by rewrite !app_nil_r in Hs. Qed.

(** ** Properties *)

(** C28: integers cross the wire exactly, both ways. A value whose bigints are not negative and
    whose strings are plain and do not begin like a marker is sent as its JSON with every
    bigint in its exact digits, however large. What the engine writes, whose integers may
    have any size, reaches [JSON.parse] as the JSON of a value in which those of sixteen
    digits or more are strings, as long as no string holds the pattern of one: every
    number left is one that a double holds, and the field reads as the integer written. *)
Theorem integers_cross_exactly fields :
  (sendable (j_object fields) = true ->
     stringifyEngineJson (j_object fields) = JSON_stringify to_text (j_object fields)) /\
  (deliverable (j_object fields) = true ->
     (forall JSON_parse, parseEngineJson JSON_parse (JSON_stringify to_text (j_object fields)) =
        JSON_parse (JSON_stringify to_text (received (j_object fields)))) /\
     Forall (fun n => Z.abs n < 2 ^ 53) (numbers (received (j_object fields))) /\
     forall k n, jget k fields = Some (j_bigint n) ->
       exists fields', received (j_object fields) = j_object fields' /\ big (jget k fields') = Ok n).
Proof.
  split; [|intros H; split_and!].
  - apply stringify_sendable.
  - intros JSON_parse. unfold parseEngineJson. f_equal. by apply quote_long_object.
  - eapply Forall_impl; [by apply received_numbers|]. simpl. intros n Hn. lia.
  - intros k n Hk. eexists. split; [reflexivity|]. rewrite jget_mapped, Hk. apply big_received.
Qed.

(** A negative bigint is not taken out of its quotes: the pattern has no sign, and what is
    sent is the string of its marker. *)
Theorem negative_stays_a_marker :
  stringifyEngineJson (j_object [("qty", j_bigint (-5))]) =
    JSON_stringify to_text (j_object [("qty", j_string "__u64__-5__")]).
Proof. vm_compute. reflexivity. Qed.

(** The pattern does not look for strings: a number between commas inside one is quoted too,
    and what is left is not the JSON that was sent. *)
Theorem pattern_inside_a_string :
  quote_long (JSON_stringify to_text (j_object [("reason", j_string "over,1234567890123456,now")])) =
    chr 123 :: quoted (text_of "reason") ++ chr 58 :: quote_char :: text_of "over," ++ quoted (text_of "1234567890123456") ++
    text_of ",now" ++ [quote_char; chr 125].
Proof. vm_compute. reflexivity. Qed.

(** ** Witnesses *)

(** A quantity and a sequence beyond what a double holds. *)
Definition demo_wire : list (string * json) :=
  [("seq", j_bigint 18446744073709551615); ("order_id", j_string "00000000-0000-4000-8000-00000000000a");
   ("events", j_array [j_object [("Accepted", j_object [("resting_qty", j_bigint 9007199254740993)])]; j_null]);
   ("small", j_bigint (-42))].

Definition demo_sent : list (string * json) :=
  [("order_id", j_string "00000000-0000-4000-8000-00000000000a"); ("price", j_bigint 18446744073709551615);
   ("timestamp_ms", j_int 1700000000000)].

(** A parser that answers the text it was given. *)
Definition echo (t : text) : option json := Some (j_string (String.string_of_list_ascii t)).

Lemma integers_cross_exactly_witness :
  stringifyEngineJson (j_object demo_sent) = JSON_stringify to_text (j_object demo_sent) /\
  parseEngineJson echo (JSON_stringify to_text (j_object demo_wire)) =
    echo (JSON_stringify to_text (received (j_object demo_wire))) /\
  exists fields', received (j_object demo_wire) = j_object fields' /\ big (jget "seq" fields') = Ok 18446744073709551615.
Proof.
  assert (Hs : sendable (j_object demo_sent) = true) by (vm_compute; reflexivity).
  assert (Hd : deliverable (j_object demo_wire) = true) by (vm_compute; reflexivity).
  destruct (proj2 (integers_cross_exactly demo_wire) Hd) as (Hp & _ & Hb). split; [|split].
  - exact (proj1 (integers_cross_exactly demo_sent) Hs).
  - exact (Hp echo).
  - exact (Hb "seq" 18446744073709551615 eq_refl).
Defined.
