(* ===== verification/EngineClient.v ===== *)
(** * The client of a matching engine

    [createHttpEngineClient] of [apps/api/src/services/trading/engine-client.ts]: the
    request of every call, what it makes of an answer, and, with [Gateway] on top, what an
    answer can do to an order's hold. The transport is a parameter: it drops the request or
    answers a status and a text; so are [JSON.parse], the digest and the signature. [health],
    which reads a floating-point number, is not modelled. *)

From S2P Require Import Prelude Decimal Assets Market Orders Store Events Reconciliation Gateway Wire.
From Stdlib Require Import ZArith Lia Ascii.
From stdpp Require Import base list strings pretty.

Open Scope string_scope.
Open Scope list_scope.
Open Scope Z_scope.

#[local] Set Warnings "-register-all".

(** ** Reading a value of unknown shape *)

(** [String(value)]. An object with a [toString] of its own, which JSON cannot make callable,
    has no text. *)
Fixpoint js_String (value : json) : result string :=
  match value with
  | j_null => Ok "null"
  | j_bool b => Ok (if b then "true" else "false")
  | j_number _ shown => Ok shown
  | j_bigint n => Ok (String.string_of_list_ascii (to_text n))
  | j_string s => Ok s
  | j_object fields => if bool_decide (jget "toString" fields = None) then Ok "[object Object]" else Throw TypeError
  | j_array items =>
      parts ← (fix parts (items : list json) : result (list string) :=
                 match items with
                 | [] => Ok []
                 | x :: items =>
                     y ← match x with j_null => Ok "" | _ => js_String x end;
                     ys ← parts items;
                     Ok (y :: ys)
                 end) items;
      Ok (String.concat "," parts)
  end.

(** [String(value)] where the value may be undefined. *)
Definition String_of (value : option json) : result string :=
  match value with None => Ok "undefined" | Some v => js_String v end.

(** [value[name]], for a name no prototype has. *)
Definition field (value : option json) (name : string) : result (option json) :=
  match value with
  | None | Some j_null => Throw TypeError
  | Some (j_object fields) => Ok (jget name fields)
  | Some _ => Ok None
  end.

(** [value === s] *)
Definition is_text (s : string) (value : option json) : bool :=
  match value with Some (j_string t) => bool_decide (t = s) | _ => false end.

(** [a ?? b] *)
Definition nullish (a : option json) (b : json) : json :=
  match a with None | Some j_null => b | Some v => v end.

Definition truthy (v : json) : bool :=
  match v with
  | j_null => false
  | j_bool b => b
  | j_number n _ => negb (bool_decide (n = Some 0))
  | j_bigint n => negb (n =? 0)
  | j_string s => negb (bool_decide (s = ""))
  | j_array _ | j_object _ => true
  end.

(** [(list ?? []).map(f)] *)
Definition mapped {A} (f : json -> result A) (list_ : option json) : result (list A) :=
  match nullish list_ (j_array []) with
  | j_array items => map_result f items
  | _ => Throw TypeError
  end.

(** [list?.[0]] *)
Definition first_of (list_ : option json) : option json :=
  match list_ with
  | Some (j_array items) => head items
  | Some (j_object fields) => jget "0" fields
  | Some (j_string (String a _)) => Some (j_string (String a ""))
  | _ => None
  end.

(** ** Decoding *)

(** [Object.entries(raw)[0]] of a value that is an object and not null. *)
Definition first_entry (raw : json) : option (string * json) :=
  match raw with
  | j_object fields => head fields
  | j_array items => pair "0" <$> head items
  | _ => None
  end.

Definition decodeEvent (raw : json) : result (option EngineEvent) :=
  match first_entry raw with
  | None => Ok None
  | Some (tag, body) =>
      if bool_decide (tag = "") || negb (truthy body) then Ok None else
      let int name := v ← field (Some body) name; big v in
      let str name := v ← field (Some body) name; String_of v in
      if bool_decide (tag = "Accepted") then
        seq ← int "seq"; orderId ← str "order_id"; n ← int "resting_qty"; Ok (Some (e_accepted seq orderId n))
      else if bool_decide (tag = "Rejected") then
        seq ← int "seq"; orderId ← str "order_id"; reason ← str "reason"; Ok (Some (e_rejected seq orderId reason))
      else if bool_decide (tag = "Fill") then
        seq ← int "seq"; fillId ← str "fill_id"; taker ← str "taker_order_id"; maker ← str "maker_order_id";
        sd ← field (Some body) "taker_side";
        price ← int "price"; qty ← int "qty";
        Ok (Some (e_fill seq fillId taker maker
                    (if is_text "sell" sd then sell else buy)
                    price qty))
      else if bool_decide (tag = "Cancelled") then
        seq ← int "seq"; orderId ← str "order_id"; n ← int "remaining_qty"; Ok (Some (e_cancelled seq orderId n))
      else if bool_decide (tag = "Expired") then
        seq ← int "seq"; orderId ← str "order_id"; n ← int "remaining_qty"; Ok (Some (e_expired seq orderId n))
      else if bool_decide (tag = "StatusChanged") then seq ← int "seq"; Ok (Some (e_status_changed seq))
      else Ok None
  end.

(** [.map(decodeEvent).filter((e) => e !== null)] *)
Definition decode_all (events : option json) : result (list EngineEvent) :=
  decoded ← mapped decodeEvent events; Ok (omap (M:=list) Datatypes.id decoded).

(** ** What a call makes of its reply *)

Inductive Reply :=
| failed_with (cause : string)
| replied (status : Z) (body : json).

Definition toResult (reply : Reply) : result EngineResult :=
  match reply with
  | failed_with cause => Ok (engine_ambiguous cause)
  | replied status body =>
      let body := nullish (Some body) (j_object []) in
      if status =? 200 then
        raws ← field (Some body) "events"; events ← decode_all raws;
        n ← field (Some body) "seq"; seq ← big (Some (nullish n (j_int 0)));
        Ok (engine_ok seq events)
      else if (status =? 503) || (500 <=? status) then Ok (engine_ambiguous ("engine_" +:+ pretty status))
      else if status =? 409 then Ok (engine_ambiguous "engine_409_request_id_reused")
      else e ← field (Some body) "error"; why ← js_String (nullish e (j_string "unknown"));
           Ok (engine_refused status why)
  end.

Definition lookup_reply (reply : Reply) : result LookupResult :=
  match reply with
  | failed_with cause => Ok (unreachable cause)
  | replied status body =>
      if negb (status =? 200) then Ok (unreachable ("engine_" +:+ pretty status)) else
      outcome ← field (Some body) "outcome";
      if is_text "seen" outcome then
        n ← field (Some body) "seq"; seq ← big n; o ← field (Some body) "order_id"; orderId ← String_of o;
        Ok (seen seq orderId)
      else if is_text "never_seen" outcome then Ok never_seen
      else Ok rebuilding
  end.

(** [if ('failure' in reply || reply.status !== 200) return null;] *)
Definition on_success {A} (reply : Reply) (read : json -> result A) : result (option A) :=
  match reply with
  | replied status body => if status =? 200 then a ← read body; Ok (Some a) else Ok None
  | failed_with _ => Ok None
  end.

Definition events_reply (reply : Reply) : result (option (list EngineEvent)) :=
  on_success reply (fun body => raws ← field (Some body) "events"; decode_all raws).

Definition rawEvents_reply (reply : Reply) : result (option (list json)) :=
  found ← on_success reply (fun body => field (Some body) "events");
  Ok (match found with Some (Some (j_array items)) => Some items | _ => None end).

Definition level (v : json) : result (Z * Z) :=
  p ← field (Some v) "price"; price ← big p; q ← field (Some v) "qty"; qty ← big q; Ok (price, qty).

Definition depth_reply (reply : Reply) : result (option EngineDepth) :=
  on_success reply (fun body =>
    n ← field (Some body) "seq"; seq ← big (Some (nullish n (j_int 0)));
    bids ← field (Some body) "bids"; bids ← mapped level bids;
    asks ← field (Some body) "asks"; asks ← mapped level asks;
    Ok (mkDepth seq bids asks)).

Record EngineBook := mkEngineBook {
  eb_seq : Z; eb_referencePrice : option Z; eb_bestBid : option Z; eb_bestAsk : option Z
}.

(** The price of the first level of a side, if there is one. *)
Definition best (side : option json) : result (option Z) :=
  match first_of side with
  | Some top => if truthy top then p ← field (Some top) "price"; price ← big p; Ok (Some price) else Ok None
  | None => Ok None
  end.

Definition book_reply (reply : Reply) : result (option EngineBook) :=
  on_success reply (fun body =>
    n ← field (Some body) "seq"; seq ← big (Some (nullish n (j_int 0)));
    r ← field (Some body) "reference_price";
    reference ← match r with
                | None | Some j_null => Ok None
                | Some v => n ← big (Some v); Ok (Some n)
                end;
    bids ← field (Some body) "bids"; bestBid ← best bids;
    asks ← field (Some body) "asks"; bestAsk ← best asks;
    Ok (mkEngineBook seq reference bestBid bestAsk)).

(** ** Requests *)

Definition side_text (s : Side) : string := match s with buy => "buy" | sell => "sell" end.
Definition type_text (t : OrderType) : string := match t with limit => "limit" | market_order => "market" end.
Definition tif_text (t : TimeInForce) : string := match t with GTC => "GTC" | IOC => "IOC" | FOK => "FOK" end.

Definition nullable (n : option Z) : json := match n with Some n => j_bigint n | None => j_null end.

(** What a call asks for: a command, or a question. *)
Inductive Query :=
| q_command (command : EngineCommand)
| q_lookup (clientOrderId : string)
| q_events (afterSeq count : Z)
| q_book.

Definition method_of (q : Query) : string :=
  match q with
  | q_command (cmd_place _) => "POST"
  | q_command (cmd_cancel _ _) => "DELETE"
  | q_command (cmd_amend _ _ _ _ _) => "PATCH"
  | _ => "GET"
  end.

Definition number_text (n : Z) : string := String.string_of_list_ascii (to_text n).

Definition path_of (q : Query) : string :=
  match q with
  | q_command (cmd_place _) => "/v1/orders"
  | q_command (cmd_cancel orderId _) | q_command (cmd_amend orderId _ _ _ _) =>
      "/v1/orders/" +:+ encodeURIComponent orderId
  | q_lookup clientOrderId => "/v1/orders/lookup?clientOrderId=" +:+ encodeURIComponent clientOrderId
  | q_events afterSeq count => "/v1/events?after=" +:+ (number_text afterSeq +:+ ("&limit=" +:+ number_text count))
  | q_book => "/v1/book"
  end.

(** The engine is handed the order's own id as the client's. *)
Definition body_of (q : Query) : option json :=
  match q with
  | q_command (cmd_place p) => Some (j_object
      [("order_id", j_string (pl_orderId p)); ("timestamp_ms", j_int (pl_timestampMs p));
       ("request", j_object
          [("client_order_id", j_string (pl_orderId p)); ("side", j_string (side_text (pl_side p)));
           ("order_type", j_string (type_text (pl_type p))); ("time_in_force", j_string (tif_text (pl_timeInForce p)));
           ("price", nullable (pl_price p)); ("qty", j_bigint (pl_qty p)); ("post_only", j_bool (pl_postOnly p));
           ("stp_mode", j_string "cancel_taker"); ("account_id", j_string (pl_accountId p))])])
  | q_command (cmd_cancel _ timestampMs) => Some (j_object [("timestamp_ms", j_int timestampMs)])
  | q_command (cmd_amend _ newOrderId price qty timestampMs) => Some (j_object
      [("timestamp_ms", j_int timestampMs); ("new_order_id", j_string newOrderId);
       ("price", j_bigint price); ("qty", j_bigint qty)])
  | _ => None
  end.

Definition bytes_of (q : Query) : text := match body_of q with Some v => stringifyEngineJson v | None => [] end.

Record HttpRequest := mkHttpRequest {
  rq_method : string; rq_url : string; rq_headers : list (string * string); rq_body : option text
}.

(** What the transport answers, within the time limit: nothing, under the name of an error,
    or a status and a text. *)
Inductive Answer := dropped (name : string) | answered (status : Z) (content : text).

(** [baseUrl.replace(/\/+$/, '')] *)
Definition strip_slashes (url : string) : string :=
  String.string_of_list_ascii (reverse (drop_while (fun a => bool_decide (a = chr 47)) (reverse (text_of url)))).

Definition canonical_of (digest : text -> string) (q : Query) (requestId : string) (timestamp : Z) : string :=
  canonicalString digest (method_of q) (path_of q) requestId (bytes_of q) timestamp.

Section Client.
Context (digest : text -> string) (sign : string -> string) (JSON_parse : text -> option json).
Context (baseUrl : string) (fetch : HttpRequest -> Answer).
(** The fresh id of the request and the clock, in seconds. *)
Context (requestId : string) (timestamp : Z).

Definition http_request (q : Query) : HttpRequest :=
  mkHttpRequest (method_of q) (strip_slashes baseUrl +:+ path_of q)
    [("content-type", "application/json"); ("x-atlas-signature", sign (canonical_of digest q requestId timestamp));
     ("x-atlas-request-id", requestId); ("x-atlas-timestamp", number_text timestamp)]
    (match body_of q with Some _ => Some (bytes_of q) | None => None end).

(** A text that is not JSON is a failure like a lost connection. *)
Definition read_answer (answer : Answer) : Reply :=
  match answer with
  | dropped name => failed_with name
  | answered status content =>
      if bool_decide (content = []) then replied status j_null else
      match parseEngineJson JSON_parse content with
      | Some v => replied status v
      | None => failed_with "SyntaxError"
      end
  end.

Definition call (q : Query) : Reply := read_answer (fetch (http_request q)).

Definition command (c : EngineCommand) : result EngineResult := toResult (call (q_command c)).
Definition lookup (clientOrderId : string) : result LookupResult := lookup_reply (call (q_lookup clientOrderId)).
Definition events (afterSeq count : Z) : result (option (list EngineEvent)) := events_reply (call (q_events afterSeq count)).
Definition rawEvents (afterSeq count : Z) : result (option (list json)) := rawEvents_reply (call (q_events afterSeq count)).
Definition depth : result (option EngineDepth) := depth_reply (call q_book).
Definition book : result (option EngineBook) := book_reply (call q_book).

(** The gateway's engine, reached over HTTP. *)
Definition http_engine (c : EngineCommand) (s : Store) : result EngineResult * Store := (command c, s).

(** The sweeper's resolution of an order: the lookup, and the events of the sequence it names. *)
Definition http_sweep (toleranceSeconds at_ : Z) (order : OrderRecord) : svc SweepOutcome :=
  found ← lift_svc (lookup (o_id order));
  page ← lift_svc (match found with seen n _ => events (n - 1) 1 | _ => Ok None end);
  sweep found (fun _ => page) toleranceSeconds at_ order.
End Client.

(** ** The strict decoder's values *)

(** What the settlement's decoder is handed: a number it takes is a safe integer. *)
Fixpoint to_value (v : json) : value :=
  match v with
  | j_null => v_null
  | j_bool b => v_bool b
  | j_number (Some n) _ => v_number (if Z.abs n <=? 2 ^ 53 - 1 then Some n else None)
  | j_number None _ => v_number None
  | j_bigint n => v_bigint n
  | j_string s => v_string s
  | j_array items => v_array (map to_value items)
  | j_object fields => v_object (map (fun '(k, x) => (k, to_value x)) fields)
  end.

(** The same event without what the gateway does not use. *)
Definition tolerant (e : SettlementEvent) : EngineEvent :=
  match e with
  | fill f => e_fill (ev_seq f) (ev_fillId f) (ev_takerOrderId f) (ev_makerOrderId f) (ev_takerSide f) (ev_price f) (ev_qty f)
  | accepted n id q => e_accepted n id q
  | rejected n id why => e_rejected n id why
  | cancelled n id q => e_cancelled n id q
  | expired n id q => e_expired n id q
  | status_changed n => e_status_changed n
  end.

(** ** Lemmas: decoding *)

Lemma js_BigInt_integer t : integer_pattern t = true -> js_BigInt t = Ok (big_int t).
Proof.
  unfold integer_pattern. destruct t as [|a t]; [done|]. unfold big_int. case_bool_decide as Ha.
  - subst a. intros [Hne%negb_true_iff%bool_decide_eq_false Hd%forallb_Forall_eq]%andb_true_iff.
    by apply js_BigInt_negative.
  - intros [Hne%negb_true_iff%bool_decide_eq_false Hd%forallb_Forall_eq]%andb_true_iff. by apply js_BigInt_of_digits.
Qed.

Definition as_values (fields : list (string * json)) : list (string * value) := map (fun '(k, x) => (k, to_value x)) fields.

Lemma big_integer fields name min n :
  integer (as_values fields) name min = Ok n -> big (jget name fields) = Ok n.
Proof.
  unfold integer, as_values. rewrite jget_mapped. intros H. inv_ok.
  match goal with H : (if _ <? _ then _ else _) = _ |- _ => destruct (_ <? _); [done|]; injection H as <- end.
  destruct (jget name fields) as [[|b|[m|] sh|m|s|items|fs]|]; simpl in *; try done.
  - destruct (Z.abs m <=? _); [congruence|done].
  - destruct (integer_pattern _) eqn:E; [|done]. unfold text_of. rewrite js_BigInt_integer by exact E. congruence.
Qed.

Lemma text_of_field fields name s : text_field (as_values fields) name = Ok s -> String_of (jget name fields) = Ok s.
Proof.
  unfold text_field, as_values. rewrite jget_mapped.
  destruct (jget name fields) as [[|b|[m|] sh|m|t|items|fs]|]; simpl; try done. by case_bool_decide.
Qed.

Lemma side_of_field fields sd : side_field (as_values fields) = Ok sd ->
  (if is_text "sell" (jget "taker_side" fields) then sell else buy) = sd.
Proof.
  unfold side_field, as_values. rewrite jget_mapped.
  destruct (jget "taker_side" fields) as [[|b|[m|] sh|m|t|items|fs]|]; simpl; try done.
  repeat case_bool_decide; subst; try discriminate; congruence.
Qed.

(** ** Lemmas: answers *)

(** Looks through the steps of a computation that returned. *)
Ltac steps H := repeat (apply bind_Ok in H as (? & ? & H)).

Lemma toResult_refused reply st e :
  toResult reply = Ok (engine_refused st e) -> exists j, reply = replied st j /\ st <> 200 /\ st < 500 /\ st <> 409.
Proof.
  destruct reply as [c|st' j]; simpl; [done|]. destruct (Z.eqb_spec st' 200); [intros H; by steps H|].
  destruct (Z.eqb_spec st' 503); [done|]. destruct (Z.leb_spec 500 st'); [done|]. simpl.
  destruct (Z.eqb_spec st' 409); [done|]. intros Hr. steps Hr. injection Hr as <- <-. eauto 6 with lia.
Qed.

Lemma toResult_ok reply n es :
  toResult reply = Ok (engine_ok n es) -> exists j raws, reply = replied 200 j /\
    field (Some (nullish (Some j) (j_object []))) "events" = Ok raws /\ decode_all raws = Ok es.
Proof.
  destruct reply as [c|st' j]; simpl; [done|]. destruct (Z.eqb_spec st' 200) as [->|].
  - intros H. steps H. injection H as <- <-. eauto.
  - destruct (_ || _); [done|]. destruct (_ =? _); [done|]. intros H. by steps H.
Qed.

Lemma on_success_Some {A} reply (read : json -> result A) a :
  on_success reply read = Ok (Some a) -> exists j, reply = replied 200 j /\ read j = Ok a.
Proof.
  destruct reply as [c|st j]; simpl; [done|]. destruct (Z.eqb_spec st 200) as [->|]; [|done].
  intros H. steps H. injection H as <-. eauto.
Qed.

Lemma field_is_text v name s r :
  field (Some v) name = Ok r -> is_text s r = true -> exists fields, v = j_object fields /\ jget name fields = Some (j_string s).
Proof.
  destruct v as [| | | | | |fields]; simpl; intros [= <-]; simpl; try done. intros Hs. eexists; split; [done|].
  destruct (jget name fields) as [[]|]; try done. simpl in Hs. by apply bool_decide_eq_true in Hs as ->.
Qed.

(** The word of the journal: what a lookup says of an order comes from an explicit answer. *)
Lemma lookup_reply_word reply found :
  lookup_reply reply = Ok found ->
  match found with
  | never_seen => exists fields, reply = replied 200 (j_object fields) /\ jget "outcome" fields = Some (j_string "never_seen")
  | seen n _ => exists fields, reply = replied 200 (j_object fields) /\ jget "outcome" fields = Some (j_string "seen") /\
                  big (jget "seq" fields) = Ok n
  | rebuilding | unreachable _ => True
  end.
Proof.
  destruct reply as [c|st j]; simpl; [by intros [= <-]|]. destruct (Z.eqb_spec st 200) as [->|]; simpl; [|by intros [= <-]].
  intros (r & Hr & H)%bind_Ok. destruct (is_text "seen" r) eqn:Es.
  - destruct (field_is_text _ _ _ _ Hr Es) as (fields & -> & Ho). steps H. injection H as <-. simpl in *.
    exists fields. split_and!; [done..|]. congruence.
  - destruct (is_text "never_seen" r) eqn:En; [|by injection H as <-]. injection H as <-.
    destruct (field_is_text _ _ _ _ Hr En) as (fields & -> & Ho). eauto.
Qed.

(** A reply that is not a failure is an answer whose text was read. *)
Definition reads (JSON_parse : text -> option json) (content : text) (j : json) : Prop :=
  (content = [] /\ j = j_null) \/ (content <> [] /\ parseEngineJson JSON_parse content = Some j).

Lemma read_replied JSON_parse a st j :
  read_answer JSON_parse a = replied st j -> exists content, a = answered st content /\ reads JSON_parse content j.
Proof.
  destruct a as [c|st' content]; simpl; [done|]. unfold reads. case_bool_decide as Hc.
  - intros [= <- <-]. eauto 6.
  - destruct (parseEngineJson JSON_parse content) eqn:E; [|done]. intros [= <- <-]. eauto 6.
Qed.

(** An answer that leaves the order's fate open. *)
Definition uncertain (JSON_parse : text -> option json) (a : Answer) : Prop :=
  match a with
  | dropped _ => True
  | answered st content => 500 <= st \/ st = 409 \/ (content <> [] /\ parseEngineJson JSON_parse content = None)
  end.

Lemma uncertain_ambiguous JSON_parse a :
  uncertain JSON_parse a -> exists cause, toResult (read_answer JSON_parse a) = Ok (engine_ambiguous cause).
Proof.
  destruct a as [c|st content]; simpl; [eauto|]. intros H. case_bool_decide as Hc; [|destruct (parseEngineJson _ _) eqn:E; [|simpl; eauto]].
  all: assert (500 <= st \/ st = 409) as [Hst| ->] by naive_solver; simpl.
  all: try (rewrite (proj2 (Z.eqb_neq st 200)), (proj2 (Z.leb_le 500 st)), orb_true_r by lia); eauto.
Qed.

(** The events that an answer reports. *)
Definition reports (JSON_parse : text -> option json) (content : text) (es : list EngineEvent) : Prop :=
  exists j raws, reads JSON_parse content j /\
    field (Some (nullish (Some j) (j_object []))) "events" = Ok raws /\ decode_all raws = Ok es.

Lemma command_reports JSON_parse a n es :
  toResult (read_answer JSON_parse a) = Ok (engine_ok n es) ->
  exists content, a = answered 200 content /\ reports JSON_parse content es.
Proof.
  intros (j & raws & Hr & Hf & Hd)%toResult_ok. apply read_replied in Hr as (content & -> & Hr).
  exists content. split; [done|]. by exists j, raws.
Qed.

Lemma events_report JSON_parse a page :
  events_reply (read_answer JSON_parse a) = Ok (Some page) ->
  exists content, a = answered 200 content /\ reports JSON_parse content page.
Proof.
  intros (j & Hr & H)%on_success_Some. apply read_replied in Hr as (content & -> & Hr). exists content. split; [done|].
  apply bind_Ok in H as (raws & Hf & Hd). exists j, raws. split_and!; [done| |done]. by destruct j.
Qed.

(** ** Lemmas: paths *)

Lemma append_inj p s t : p +:+ s = p +:+ t -> s = t.
Proof. induction p as [|a p IH]; simpl; [done|]. intros [= H]. by apply IH. Qed.

Lemma number_text_inj n m : number_text n = number_text m -> n = m.
Proof.
  intros H%(f_equal String.list_ascii_of_string). unfold number_text in H.
  rewrite !String.list_ascii_of_string_of_list_ascii in H. by apply to_text_inj.
Qed.

(** The text of a number has neither an ampersand nor a line feed. *)
Lemma number_text_excludes c n : is_digit c = false -> c <> minus_char -> str_includes c (number_text n) = false.
Proof.
  intros Hc Hm. apply str_includes_text. unfold number_text, text_of.
  rewrite String.list_ascii_of_string_of_list_ascii, to_text_sign, not_elem_of_app. split.
  - destruct (n <? 0); [by intros ->%list_elem_of_singleton|by intros ?%elem_of_nil].
  - intros Hin. pose proof (to_digits_digits (Z.abs n) ltac:(lia)) as H. rewrite Forall_forall in H.
    specialize (H c Hin). congruence.
Qed.

Lemma str_includes_app c s t : str_includes c (s +:+ t) = str_includes c s || str_includes c t.
Proof. induction s as [|a s IH]; simpl; [done|]. by rewrite IH, orb_assoc. Qed.

Lemma path_one_line q : str_includes newline (path_of q) = false.
Proof.
  destruct q as [[]| | |]; simpl path_of; rewrite ?str_includes_app; rewrite ?encoded_excludes, ?number_text_excludes by done;
    reflexivity.
Qed.

Lemma question_inj q q' :
  body_of q = None -> body_of q' = None -> path_of q = path_of q' -> q = q'.
Proof.
  destruct q as [[]|id|a n|], q' as [[]|id'|a' n'|]; try done; intros _ _ H; simpl path_of in H; try discriminate H.
  - by apply append_inj, encodeURIComponent_inj in H as ->.
  - apply append_inj in H. change ("&limit=" +:+ ?x) with (String "&"%char ("limit=" +:+ x)) in H.
    apply (f_equal (split_first "&"%char)) in H. rewrite !split_first_app in H by (by apply number_text_excludes).
    injection H as Ha Hn. apply append_inj in Hn. by rewrite (number_text_inj _ _ Ha), (number_text_inj _ _ Hn).
Qed.

(** The order that a command's path names. *)
Definition addressed (q : Query) : option string :=
  match q with q_command (cmd_cancel id _) | q_command (cmd_amend id _ _ _ _) => Some id | _ => None end.

(** ** Properties *)

(** C26: a hold goes back only on the engine's word. Acting on what the transport answered to a
    command moves money only if it answered a status that is neither a success, nor the
    engine's failure, nor a reused request id; or answered a success whose events reject
    the order, or expire it with no fill of it. An answer that leaves its fate open, a lost
    one or one that is no JSON included, changes nothing. Sweeping a stuck order moves money
    only when the journal answered a success that says never seen in so many words, of an
    order older than the tolerance and the skew; or that says seen, and the events it names,
    asked for and answered with a success, are such a proof. *)
Theorem hold_needs_engine_word digest sign JSON_parse baseUrl fetch requestId timestamp c o toleranceSeconds at_ s :
  let asked q := fetch (http_request digest sign baseUrl requestId timestamp q) in
  let engine := http_engine digest sign JSON_parse baseUrl fetch requestId timestamp in
  let act := answer ← ask engine c; actOnPlacement o answer in
  let swept := http_sweep digest sign JSON_parse baseUrl fetch requestId timestamp toleranceSeconds at_ o in
  (ledger (act s).2 <> ledger s -> exists st content, asked (q_command c) = answered st content /\
     ((st <> 200 /\ st < 500 /\ st <> 409) \/
      (st = 200 /\ exists es, reports JSON_parse content es /\ proves_unfilled (o_id o) es))) /\
  (uncertain JSON_parse (asked (q_command c)) -> act s = (Ok o, s)) /\
  (ledger (swept s).2 <> ledger s -> exists content fields,
     asked (q_lookup (o_id o)) = answered 200 content /\ reads JSON_parse content (j_object fields) /\
     ((jget "outcome" fields = Some (j_string "never_seen") /\
       toleranceSeconds * 1000 + SKEW_MARGIN_MS < at_ - o_createdAt o) \/
      (jget "outcome" fields = Some (j_string "seen") /\ exists n content' page,
         big (jget "seq" fields) = Ok n /\ asked (q_events (n - 1) 1) = answered 200 content' /\
         reports JSON_parse content' page /\
         proves_unfilled (o_id o) (filter (fun e => Gateway.event_seq e = n) page)))).
Proof.
  intros asked engine act swept. split; [|split].
  - intros Hl. unfold act, ask, engine, http_engine, command, call in Hl.
    unfold mbind, svc_bind in Hl. fold (asked (q_command c)) in Hl.
    destruct (toResult _) as [r|e] eqn:Er; [|done].
    apply (release_needs_proof o r (unreachable "") (fun _ => None) 0 0) in Hl as [(st & e & ->)|(n & es & -> & Hp)].
    + apply toResult_refused in Er as (j & Hj & Hst). apply read_replied in Hj as (content & Ha & _). eauto 6.
    + apply command_reports in Er as (content & Ha & Hr). exists 200, content. split; [done|]. right. eauto.
  - intros (cause & Hc)%uncertain_ambiguous. unfold act, ask, engine, http_engine, command, call.
    unfold mbind, svc_bind. fold (asked (q_command c)). by rewrite Hc.
  - intros Hl. unfold swept, http_sweep, lookup, events, call in Hl. fold (asked (q_lookup (o_id o))) in Hl.
    unfold mbind, svc_bind, lift_svc in Hl. destruct (lookup_reply _) as [found|e] eqn:El; [|done].
    pose proof (lookup_reply_word _ _ El) as Hw.
    destruct (match found with seen n _ => _ | _ => _ end) as [page|e] eqn:Ep; [|done].
    apply (release_needs_proof o (engine_ambiguous "")) in Hl as [[-> Ht]|(n & id & es & -> & -> & Hp)].
    + destruct Hw as (fields & Hr & Ho). apply read_replied in Hr as (content & Ha & Hr).
      exists content, fields. auto.
    + destruct Hw as (fields & Hr & Ho & Hn). apply read_replied in Hr as (content & Ha & Hr).
      apply events_report in Ep as (content' & Ha' & Hrep). exists content, fields. split_and!; [done..|].
      right. split; [done|]. eauto 8.
Qed.

(** What is signed is the request. If two signed strings are equal, whose request ids are on one
    line, as digests are, then the requests have one method, one path, query and all, one
    id, one time and one digest of the body; a question is then the same question, and a
    command about an order is about the same one. *)
Theorem signature_binds_request digest q q' i i' ts ts' :
  (forall t, str_includes newline (digest t) = false) ->
  str_includes newline i = false -> str_includes newline i' = false ->
  canonical_of digest q i ts = canonical_of digest q' i' ts' ->
  method_of q = method_of q' /\ path_of q = path_of q' /\ i = i' /\ ts = ts' /\
  digest (bytes_of q) = digest (bytes_of q') /\
  (body_of q = None -> q = q') /\ addressed q = addressed q'.
Proof.
  intros Hd Hi Hi' H. unfold canonical_of, canonicalString in H.
  assert (Hm : forall q, str_includes newline (method_of q) = false) by (by intros [[]| | |]).
  apply line_inj in H as [Hmeth H]; [|apply Hm..]. apply line_inj in H as [Hpath H]; [|apply path_one_line..].
  apply line_inj in H as [Hid H]; [|done..]. apply line_inj in H as [Hbody Hts]; [|apply Hd..].
  apply number_text_inj in Hts. split_and!; try done.
  - intros Hb. apply question_inj; [done| |done]. by destruct q as [[]| | |], q' as [[]| | |].
  - destruct q as [[]| | |], q' as [[]| | |]; try done; simpl in *; f_equal;
      by apply (append_inj "/v1/orders/"), encodeURIComponent_inj in Hpath.
Qed.

(** The tolerant decoder agrees with the strict one. Whatever value, but a text, the settlement
    takes for an event, the gateway reads as the same event. *)
Theorem decoders_agree parse raw e :
  (forall s, raw <> j_string s) -> decodeSettlementEvent parse (to_value raw) = Ok e ->
  decodeEvent raw = Ok (Some (tolerant e)).
Proof.
  intros Hraw H. destruct raw as [| |[]| |s| |[|[tag body] [|]]]; try done; [by destruct (Hraw s)|].
  unfold decodeSettlementEvent in H. cbn in H.
  assert (Hbody : truthy body = true /\ exists fields, object_fields (to_value body) = Some (as_values fields) /\
            forall name, field (Some body) name = Ok (jget name fields)).
  { destruct body as [| |[]| | |items|fields]; try done. split; [done|]. by exists fields. }
  destruct Hbody as (Ht & fields & Hf & Hget). rewrite Hf in H. apply bind_Ok in H as (n & Hn%big_integer & H).
  unfold decodeEvent. cbn [first_entry head]. rewrite Ht.
  unfold decode_body in H. repeat case_bool_decide; subst; try discriminate; cbn [orb negb];
    rewrite ?Hget; cbn [mbind result_bind]; rewrite ?Hn; cbn [mbind result_bind];
    steps H; try (injection H as <-); cbn [tolerant ev_seq ev_fillId ev_takerOrderId ev_makerOrderId ev_takerSide ev_price ev_qty].
  all: repeat match goal with
       | H : text_field _ _ = Ok _ |- _ => apply text_of_field in H
       | H : integer _ _ _ = Ok _ |- _ => apply big_integer in H
       | H : side_field _ = Ok _ |- _ => apply side_of_field in H
       end.
  all: repeat (rewrite ?Hget; cbn [mbind result_bind];
         try match goal with
             | H : String_of _ = Ok _ |- _ => rewrite H
             | H : big _ = Ok _ |- _ => rewrite H
             end; cbn [mbind result_bind]).
  all: congruence.
Qed.

(** A command whose ids are plain and whose amounts are not negative is sent as its JSON, its
    amounts in their exact digits. *)
Theorem commands_sent_exactly c v :
  body_of (q_command c) = Some v ->
  match c with
  | cmd_place p => unmarked (pl_orderId p) = true /\ unmarked (pl_accountId p) = true /\ 0 <= pl_qty p /\
                   match pl_price p with Some n => 0 <= n | None => True end
  | cmd_cancel _ _ => True
  | cmd_amend _ newId p q _ => unmarked newId = true /\ 0 <= p /\ 0 <= q
  end ->
  bytes_of (q_command c) = JSON_stringify to_text v.
Proof.
  intros Hb H. unfold bytes_of. rewrite Hb. apply stringify_sendable.
  assert (Hint : forall n, sendable (j_int n) = true).
  { intros n. cbn [sendable j_int]. unfold plain, text_of. rewrite String.list_ascii_of_string_of_list_ascii.
    apply to_text_plain. }
  destruct c as [p|id t|id newId p q t]; injection Hb as <-; cbn [sendable forallb]; rewrite ?Hint.
  - destruct H as (Hid & Ha & Hq & Hp).
    assert (Hside : unmarked (side_text (pl_side p)) = true) by (by destruct (pl_side p)).
    assert (Htype : unmarked (type_text (pl_type p)) = true) by (by destruct (pl_type p)).
    assert (Htif : unmarked (tif_text (pl_timeInForce p)) = true) by (by destruct (pl_timeInForce p)).
    assert (Hprice : sendable (nullable (pl_price p)) = true) by (destruct (pl_price p); [by apply Z.leb_le|done]).
    rewrite Hid, Ha, Hside, Htype, Htif, Hprice, (proj2 (Z.leb_le 0 _)) by done. reflexivity.
  - reflexivity.
  - destruct H as (Hid & Hp & Hq). rewrite Hid, !(proj2 (Z.leb_le 0 _)) by done. reflexivity.
Qed.

(** ** Witnesses *)

(** The engine refuses alice's order, in an answer of one event. *)
Definition demo_answer : json :=
  j_object [("seq", j_int 7);
            ("events", j_array [j_object [("Rejected", j_object
               [("seq", j_int 7); ("order_id", j_string alice_order); ("reason", j_string "POST_ONLY_WOULD_CROSS")])]])].

Definition demo_content : text := JSON_stringify to_text demo_answer.
Definition demo_parse (t : text) : option json := if decide (t = demo_content) then Some demo_answer else None.
Definition demo_digest (t : text) : string := "e3b0".
Definition demo_sign (canonical : string) : string := canonical.
Definition demo_fetch (request : HttpRequest) : Answer := answered 200 demo_content.
Definition demo_cancel : EngineCommand := cmd_cancel alice_order 1000.

Definition demo_act : svc OrderRecord :=
  answer ← ask (http_engine demo_digest demo_sign demo_parse "http://engine/" demo_fetch "r1" 1) demo_cancel;
  actOnPlacement demo_order answer.

Lemma hold_needs_engine_word_witness :
  ledger (demo_act demo_pending).2 <> ledger demo_pending /\
  exists st content, demo_fetch (http_request demo_digest demo_sign "http://engine/" "r1" 1 (q_command demo_cancel)) = answered st content /\
     ((st <> 200 /\ st < 500 /\ st <> 409) \/
      (st = 200 /\ exists es, reports demo_parse content es /\ proves_unfilled (o_id demo_order) es)).
Proof.
  assert (H : ledger (demo_act demo_pending).2 <> ledger demo_pending).
  - vm_compute. discriminate.
  - split; [exact H|].
    exact (proj1 (hold_needs_engine_word demo_digest demo_sign demo_parse "http://engine/" demo_fetch "r1" 1 demo_cancel
                    demo_order 30 0 demo_pending) H).
Defined.

(** An id that would reach another route, as it is sent. *)
Example escaped_path : path_of (q_command (cmd_cancel "../orders?x" 0)) = "/v1/orders/..%2Forders%3Fx".
Proof. vm_compute. reflexivity. Qed.
